(* ===== verification/_CoqProject ===== *)
-Q . S2P
Prelude.v
AddressSpace.v
Sysno.v
Abi.v
SeccompArch.v
Dispatch.v
SeccompFilter.v
FdTables.v
Paths.v
CText.v
MetaStore.v
LinkTable.v
GuestMem.v
ProcessTable.v
JobControl.v
Dirents.v
HostFs.v
Whiteouts.v
Namespace.v
NamespaceSafety.v
CopyUp.v
ProcState.v
OverlayDir.v
PathResolve.v
RunLoop.v
PtraceMem.v
PidNamespace.v
PtraceTrap.v
ElfProbe.v
PathArgs.v
StatWire.v
MachineInfo.v
PathCalls.v
MutCalls.v
OpenCalls.v
NameCalls.v
SockCalls.v
SysDispatch.v
TreeHost.v
CallLogic.v
Confinement.v
MutConfinement.v
DispatchSafety.v
PageTables.v
GuestView.v
Frames.v
WinMm.v
HvfMem.v
HvfFast.v
StartStack.v
WinBoot.v
DarwinAbi.v
HvfPids.v
