(* ===== verification/Prelude.v ===== *)
(** * linuxity: a verification development

    linuxity runs Linux programs in user space, on Linux (also without
    privileges, also on Android), macOS and Windows.  A backend stops the
    guest at its system calls; a portable dispatcher decides what each call
    means in the guest's world (its own root, its own processes, its own
    file modes and owners) and the backend carries the decision out on the
    host.  The development models the portable core, the Linux backend, and
    of the macOS and Windows backends the memory, the start of a program, the
    in-guest calls, the process table and the translation of constants.

    ** The program and its model

    - Numbers and words of the ABI.  [Sysno]: the syscall identities and the
      two number tables ([abi/sysno.hpp]).  [Abi]: errno values, result
      encoding, the flag words of [open] and the [*at] calls, the fates a
      syscall can have ([abi/result.hpp], [abi/wire/*], [abi/outcome.hpp]).
    - Which calls stop.  [SeccompArch] and [SeccompFilter]: the classic-BPF
      program that traps some calls and lets the others run
      ([runtime/linux/seccomp_*.hpp]).  [Dispatch]: the switch of
      [Syscalls::dispatch] ([abi/syscall.hpp]).
    - The dispatcher ([abi/syscall.hpp]).  [GuestMem]: guest memory and the
      typed accessors.  [PathArgs]: the dispatcher's state, a monad of
      handlers over it, reading and resolving path arguments.  [StatWire]:
      the stat structures, the fast path and the patch of the kernel's
      answer ([abi/wire/stat.hpp]).  [MachineInfo]: uname, sysinfo, affinity
      ([kernel/machine.hpp]).  [PathCalls], [MutCalls], [OpenCalls],
      [NameCalls], [SockCalls] ([kernel/socket_ns.hpp]): the handlers, one
      definition each.  [JobControl], [Dirents] and the operations of
      [LinkTable]: process groups and terminals, directory streams, emulated
      hardlinks.  [SysDispatch]: the switch itself, calling all of them.
      [ElfProbe] ([loader/interp.hpp], [loader/elf.hpp]): what exec reads of
      a file.  [TreeHost]: a concrete host for all of it.
    - About the dispatcher.  [CallLogic]: weakest preconditions for the
      handler monad.  [Confinement], [MutConfinement]: each handler's
      contract.  [DispatchSafety]: the contract of the whole switch.
    - The file namespace ([kernel/file_namespace.hpp]).  [Paths]: lexical
      normalization ([abi/wire/path.hpp]).  [HostFs]: the host's file
      system, a class with POSIX laws and a tree that satisfies them.
      [Namespace]: mounts, the overlay and the chase of links.
      [NamespaceSafety] and [CopyUp]: what the translation can name, what it
      leaves alone, and that copy-up is invisible.  [Whiteouts], [MetaStore]
      ([kernel/meta_store.hpp]), [LinkTable] ([kernel/link_table.hpp]): the
      three journalled tables.  [OverlayDir]: merged listings.
      [PathResolve]: from a register's path to an absolute guest path.
      [ProcState]: directories and descriptors of each process.
    - Processes.  [ProcessTable] ([kernel/process_table.hpp]).
    - The run loop.  [RunLoop] ([runtime/trap.hpp], [runtime/backend.hpp])
      joins a backend and a dispatcher, both classes.
    - The Linux backend ([runtime/linux/ptrace_trap.hpp],
      [ptrace_regs.hpp]).  [PtraceMem]: registers and memory of a stopped
      task.  [PidNamespace]: guest process numbers.  [PtraceTrap]: the state
      machine driven by the reports of [waitpid].
    - Shared by the macOS and Windows backends.  [AddressSpace]
      ([runtime/shared/address_space.hpp]) and [FdTables]
      ([runtime/shared/fd_slots.hpp], [runtime/darwin/fd.hpp],
      [runtime/windows/fd.hpp]).
    - The Windows backend.  [PageTables] ([runtime/windows/mem.hpp],
      [vm.hpp]): guest RAM and the x86-64 page tables in it.  [GuestView]:
      the accessor that walks them.  [Frames] and [WinMm]
      ([runtime/windows/mm.hpp]): the frame allocator and the memory calls.
      [StartStack] ([runtime/windows/load.hpp], [runtime/darwin/load.hpp]):
      the startup stacks of both backends.  [WinBoot] ([load.hpp],
      [src/main_windows.cpp]): loading a program and starting it.
    - The macOS backend.  [HvfMem] ([runtime/darwin/vm.hpp], [mem.hpp]): the
      layout of guest RAM, its page tables and the window system calls use.
      [HvfFast] ([fastcall.hpp], [trap.hpp], [task.hpp]): the emitted
      exception handler, run instruction by instruction, and what the threads
      of a process publish through it.  [DarwinAbi] ([darwin.hpp],
      [proc.hpp]): flags, device numbers, locks, errors, signals and wait
      statuses on both sides.  [HvfPids] ([proc.hpp], [trap.hpp]): the shared
      pid table, groups, [kill], [fork] and [wait4], one call at a time, with
      several processes allocating at once as a step relation, and a forking
      parent and its child interleaved.

    A C++ class is a [Record] of its members, a variant an inductive type, a
    member function a [Definition] on the state with the same name.  Words
    are [Z] with their reduction written out ([u64], [i32], ...); text is
    [list ascii]; a hash map is a [gmap], with its iteration order an
    argument where the code depends on it.  A host call is a field of a
    class ([HostFs], [HostFiles], [HostAccess], [HostOpen], [Ptrace],
    [Tracer], [ClassicBPF], ...) with its
    documented behaviour as laws; each class has an instance, so that the
    theorems that use it can be evaluated on a concrete host.

    ** What the theorems show

    - Confinement: an untrapped syscall is one the dispatcher would forward
      unchanged ([native_only_if_forwarded], [filter_verdict]); a translated
      path is a mount directory followed by canonical components
      ([normalize_confined], [classify_confined]); whatever the system call,
      the dispatcher names no other host file, and for writing none of a
      lower layer ([dispatch_confined], whose exceptions are the calls with
      their own finding); a call that looks changes nothing
      ([looking_changes_nothing]); a process number reaches the host as a
      task of the guest's tree ([pid_args_confined]).
    - The overlay: translation changes no host file that existed
      ([classify_pristine]), copy-up is invisible ([copy_up_transparent]),
      listing agrees with lookup ([listing_matches_lookup]).
    - State that outlives a run: the journals of modes, links and whiteouts
      replay to the tables that wrote them ([journal_restart],
      [links_restart], [whiteouts_restart]).
    - Refinement: the descriptor tables implement POSIX numbering
      ([fd_tables_refine_posix]), path resolution the component walk
      ([absolutize_walks]), the address space the update of a page map.
    - Wire formats: strings are read whole up to the last readable byte
      ([read_cstr_exact], [read_cstr_bounded]); stat answers have the guest's
      layout ([stat_structs_typed]), the fast one and the patched one are the
      same ([fast_stat_is_slow_stat], [scrub_shows_guest_metadata]); the
      probes of exec read what the formats say ([interp_found],
      [shebang_round_trip], [inspect_is_probes]).
    - Protocol: every trapped syscall is answered once
      ([one_answer_per_syscall]) and the dispatcher always has an answer
      ([dispatch_answers]); the backend counts its tasks
      ([live_counts_tasks]); guest process numbers are one to one
      ([pid_round_trip], [wait_names_child]).
    - Guest memory: any sequence of page mappings refines a flat map
      ([tables_refine_flat_map]), accesses by page are accesses by byte
      ([writes_are_bytewise]), no frame serves two addresses
      ([calls_keep_frames_apart]), a macOS machine is mapped onto itself with
      its tables out of reach ([attach_maps_guest]).
    - Starting and running: a booted program finds its image and its
      arguments ([boot_starts_program]); the emitted handler answers the calls
      it should and no other ([handler_answers_calls]), with the identity of
      the right thread ([in_guest_identity_right]).
    - Processes on macOS: a group signal reaches exactly the group
      ([kill_group_exact]), numbers are held once under any interleaving
      ([numbers_unique]), a forked child is waited for under its number
      ([forked_child_waited]).
    - Where the code departs from what its comments say, a theorem states
      what it does instead ([call_after_deferred_runs_natively],
      [redirect_falls_back], [dotdot_after_root_link_throws], [pid_reuse],
      [boot_leaves_stack_free], [reserved_number_broadcasts],
      [fork_exec_race], [open_flags_misread], ...).

    ** Bounds and fuel

    A loop that consumes its input takes the length of the input as fuel.
    Limits of the source are kept as they are: forty hops of a link chase,
    eight levels of re-classification, a depth of forty in
    [physical_if_symlink], 4096 characters of a path.  [ProcessTable] needs
    fuel one above the process number, which is shown to be enough.  The
    run loop, [wait_loop] and [step_loop] have no bound of their own and take
    the number of reports to serve.  The emitted handler has fifteen
    instructions and only forward branches, so fifteen steps are enough.
    [allocate] has the source's own bound of 4096 tries, shown to visit every
    slot.  Page tables have the four levels of the hardware; reading a startup
    stack back takes fuel for its longest list or string.

    ** Not modelled

    Of the macOS backend: the delivery of signals into the guest, most
    handlers of [trap.hpp] (each a Darwin call and a conversion of its
    structures), sockets, terminals, IPC, epoll, futexes, timers, the encoding
    of the fork image and its Mach messages, the vDSO.  Of the Windows backend:
    the handlers of [sys.hpp] over Win32 and the exits of the hypervisor.  Of
    the core: the text of /proc and /sys and the in-memory file systems, which
    are arguments of the dispatcher; resource limits and the choice of name
    servers, which are files of the host.  Also the command lines ([main*.cpp]
    but for the start of a program in [main_windows.cpp]), the start of the
    Linux backend (fork, chroot and filter installation around
    [SeccompFilter]), trace output, and the conformance tooling
    ([conform/*]). *)
From Stdlib Require Export ZArith Lia Ascii.
From stdpp Require Export base tactics list strings gmap sets.

#[global] Open Scope Z_scope.

(** ** Machine words

    The sources use fixed-width unsigned integers throughout.  A [w]-bit word
    is a [Z] kept in range, and every C++ operation that can wrap is written
    with the explicit reduction below. *)

Definition u64 (z : Z) : Z := z mod 2 ^ 64.
Definition u32 (z : Z) : Z := z mod 2 ^ 32.
Definition u16 (z : Z) : Z := z mod 2 ^ 16.
Definition u8 (z : Z) : Z := z mod 2 ^ 8.

(** [static_cast<std::int32_t>] and [static_cast<std::int64_t>]: the residue
    read as two's complement. *)
Definition i32 (z : Z) : Z := if u32 z <? 2 ^ 31 then u32 z else u32 z - 2 ^ 32.
Definition i64 (z : Z) : Z := if u64 z <? 2 ^ 63 then u64 z else u64 z - 2 ^ 64.

Definition is_u64 (z : Z) : Prop := 0 <= z < 2 ^ 64.
Definition is_u32 (z : Z) : Prop := 0 <= z < 2 ^ 32.

Create HintDb word.
Create Rewrite HintDb word.

Lemma u64_range z : 0 <= u64 z < 2 ^ 64.
Proof. unfold u64. apply Z.mod_pos_bound. lia. Qed.

Lemma u64_small z : 0 <= z < 2 ^ 64 -> u64 z = z.
Proof. apply Z.mod_small. Qed.

Lemma u32_small z : 0 <= z < 2 ^ 32 -> u32 z = z.
Proof. apply Z.mod_small. Qed.

Lemma u8_small z : 0 <= z < 2 ^ 8 -> u8 z = z.
Proof. apply Z.mod_small. Qed.

#[export] Hint Resolve u64_range : word.
#[export] Hint Rewrite u64_small u32_small u8_small using lia : word.

(** Masking with the complement of a low mask, [x & ~(2^k - 1)], rounds down
    to a multiple of [2^k]. *)
Lemma land_align x k :
  0 <= x < 2 ^ 64 -> 0 <= k ->
  Z.land x (u64 (Z.lnot (2 ^ k - 1))) = x / 2 ^ k * 2 ^ k.
Proof.
  intros Hx Hk. unfold u64.
  replace (2 ^ k - 1) with (Z.ones k) by (rewrite Z.ones_equiv; lia).
  rewrite <- Z.land_ones by lia.
  rewrite Z.land_assoc, (Z.land_comm (Z.land x _)), Z.land_assoc.
  rewrite (Z.land_comm (Z.ones 64)), (Z.land_ones x) by lia.
  rewrite Z.mod_small by lia.
  change (Z.land x (Z.lnot (Z.ones k))) with (Z.ldiff x (Z.ones k)) || idtac.
  rewrite <- Z.ldiff_land, Z.ldiff_ones_r by lia.
  rewrite Z.shiftr_div_pow2, Z.shiftl_mul_pow2 by lia. reflexivity.
Qed.

Lemma i32_small z : - 2 ^ 31 <= z < 2 ^ 31 -> i32 z = z.
Proof.
  intros H. unfold i32, u32. destruct (Z.ltb_spec (z mod 2 ^ 32) (2 ^ 31)) as [L|L];
    revert L; Z.div_mod_to_equations; lia.
Qed.

Lemma i64_small z : - 2 ^ 63 <= z < 2 ^ 63 -> i64 z = z.
Proof.
  intros H. unfold i64, u64. destruct (Z.ltb_spec (z mod 2 ^ 64) (2 ^ 63)) as [L|L];
    revert L; Z.div_mod_to_equations; lia.
Qed.

(** ** Strings

    A [std::string] is a list of characters; [lit] writes a literal. *)
Abbreviation str := (list ascii).

Definition lit (s : string) : str := String.list_ascii_of_string s.
#[global] Arguments lit s%_string.

Definition slash : ascii := "/"%char.
Definition nl : ascii := "010"%char.
Definition tab : ascii := "009"%char.

(** ** Automation *)

(** Case analysis on the integer comparisons of the goal (and, with
    [zcases_in], of a hypothesis), discarding contradictory branches. *)
Ltac zcases_step :=
  match goal with
  | |- context [Z.ltb ?a ?b] => destruct (Z.ltb_spec a b)
  | |- context [Z.leb ?a ?b] => destruct (Z.leb_spec a b)
  | |- context [Z.eqb ?a ?b] => destruct (Z.eqb_spec a b)
  end; try (exfalso; lia); cbn [andb orb negb].
Ltac zcases := repeat zcases_step.

Ltac zcases_in H :=
  repeat match type of H with
  | context [Z.ltb ?a ?b] => destruct (Z.ltb_spec a b)
  | context [Z.leb ?a ?b] => destruct (Z.leb_spec a b)
  | context [Z.eqb ?a ?b] => destruct (Z.eqb_spec a b)
  end; try (exfalso; lia); cbn [andb orb negb] in H.
