(* ===== verification/AddressSpace.v ===== *)
(** The guest address space of the kernel-less backends
    ([runtime/shared/address_space.hpp]): a sorted interval map of virtual
    memory areas with split, merge and top-down placement.  The abstract
    specification is the page-attribute function [attr_at]: which address
    carries which protection.  Every operation is shown to implement the
    obvious update of that function while keeping the vector sorted, disjoint
    and page aligned. *)
From S2P Require Import Prelude.

Module Space.

(** ** Data *)

(** [GuestProt] is an [enum class] over the bits read = 1, write = 2,
    exec = 4. *)
Definition GuestProt := Z.
Definition prot_none : GuestProt := 0.
Definition prot_read : GuestProt := 1.
Definition prot_write : GuestProt := 2.
Definition prot_exec : GuestProt := 4.
Definition prot_or (a b : GuestProt) : GuestProt := Z.lor a b.
Definition has (set p : GuestProt) : bool := negb (Z.land set p =? 0).

(** [abi::wire::has_prot] of a raw PROT_* word (the guest's bit values are
    the same 1, 2 and 4). *)
Definition prot_from_linux (p : Z) : GuestProt :=
  let out := prot_none in
  let out := if has p prot_read then prot_or out prot_read else out in
  let out := if has p prot_write then prot_or out prot_write else out in
  if has p prot_exec then prot_or out prot_exec else out.

(** ELF segment flags: PF_X = 1, PF_W = 2, PF_R = 4. *)
Definition prot_from_elf (pf : Z) : GuestProt :=
  let out := prot_none in
  let out := if has pf 4 then prot_or out prot_read else out in
  let out := if has pf 2 then prot_or out prot_write else out in
  if has pf 1 then prot_or out prot_exec else out.

Record Vma := mkVma {
  begin : Z;
  end_ : Z;
  prot : GuestProt;
  anonymous : bool;
}.

(** [Vma::size] is a [uint64_t] subtraction. *)
Definition size (v : Vma) : Z := u64 (end_ v - begin v).

Record AddressSpace := mkSpace {
  vmas_ : list Vma;
  arena_low_ : Z;
  arena_high_ : Z;
  brk_base_ : Z;
  brk_cur_ : Z;
}.

(** The bounds a fork hands to the child. *)
Record Arena := mkArena { low : Z; high : Z; a_brk_base : Z }.

Definition with_vmas (s : AddressSpace) (l : list Vma) : AddressSpace :=
  mkSpace l (arena_low_ s) (arena_high_ s) (brk_base_ s) (brk_cur_ s).

(** ** Operations *)

Definition kPageSize : Z := 0x1000.
Definition kFail : Z := 2 ^ 64 - 1.

Definition page_up (a : Z) : Z :=
  Z.land (u64 (a + kPageSize - 1)) (u64 (Z.lnot (kPageSize - 1))).
Definition page_down (a : Z) : Z := Z.land a (u64 (Z.lnot (kPageSize - 1))).

Definition reset (lo hi : Z) : AddressSpace :=
  mkSpace [] (page_up lo) (page_down hi) (page_up lo) (page_up lo).

Definition arena (s : AddressSpace) : Arena :=
  mkArena (arena_low_ s) (arena_high_ s) (brk_base_ s).

Definition restore (l : list Vma) (brk : Z) (a : Arena) : AddressSpace :=
  mkSpace l (low a) (high a) (a_brk_base a) brk.

(** The first mapping that starts at or above [addr], else the arena top. *)
Fixpoint ceiling_in (l : list Vma) (addr top : Z) : Z :=
  match l with
  | [] => top
  | v :: l' => if addr <=? begin v then begin v else ceiling_in l' addr top
  end.
Definition ceiling_above (s : AddressSpace) (addr : Z) : Z :=
  ceiling_in (vmas_ s) addr (arena_high_ s).

Definition brk (s : AddressSpace) : Z := brk_cur_ s.

Definition set_brk (s : AddressSpace) (want : Z) : AddressSpace * Z :=
  if want =? 0 then (s, brk_cur_ s)
  else if want <? brk_base_ s then (s, brk_cur_ s)
  else if ceiling_above s (brk_base_ s) <? page_up want then (s, brk_cur_ s)
  else (mkSpace (vmas_ s) (arena_low_ s) (arena_high_ s) (brk_base_ s) want, want).

(** What one VMA becomes when [lo, hi) is removed from it. *)
Definition cut (lo hi : Z) (v : Vma) : list Vma :=
  if (end_ v <=? lo) || (hi <=? begin v) then [v]
  else (if begin v <? lo then [mkVma (begin v) lo (prot v) (anonymous v)] else [])
    ++ (if hi <? end_ v then [mkVma hi (end_ v) (prot v) (anonymous v)] else []).

Definition unmap (s : AddressSpace) (addr len : Z) : AddressSpace :=
  let lo := page_down addr in
  let hi := page_up (u64 (addr + len)) in
  if hi <=? lo then s
  else with_vmas s (concat (List.map (cut lo hi) (vmas_ s))).

(** Merging of neighbours with the same attributes; [last] is [out.back()]. *)
Definition mergeable (last cur : Vma) : bool :=
  (end_ last =? begin cur) && (prot last =? prot cur)
  && Bool.eqb (anonymous last) (anonymous cur).
Fixpoint coalesce_from (last : Vma) (l : list Vma) : list Vma :=
  match l with
  | [] => [last]
  | cur :: l' =>
      if mergeable last cur
      then coalesce_from (mkVma (begin last) (end_ cur) (prot last) (anonymous last)) l'
      else last :: coalesce_from cur l'
  end.
Definition coalesce (l : list Vma) : list Vma :=
  match l with
  | [] => []
  | v :: l' => coalesce_from v l'
  end.

(** Insertion before the first VMA whose [begin] is not below the new one
    ([std::lower_bound] on the sorted vector), then a merge pass. *)
Fixpoint insert_sorted (v : Vma) (l : list Vma) : list Vma :=
  match l with
  | [] => [v]
  | a :: l' => if begin a <? begin v then a :: insert_sorted v l' else v :: a :: l'
  end.
Definition insert (s : AddressSpace) (v : Vma) : AddressSpace :=
  with_vmas s (coalesce (insert_sorted v (vmas_ s))).

(** First fit from the top of the arena down; the argument is the reversed
    vector. *)
Fixpoint gap_scan (rl : list Vma) (ceiling floor len : Z) : option Z :=
  match rl with
  | [] => if (floor <=? ceiling) && (len <=? ceiling - floor)
          then Some (ceiling - len) else None
  | v :: rl' =>
      if (end_ v <=? ceiling) && (len <=? ceiling - end_ v)
      then Some (ceiling - len)
      else gap_scan rl' (Z.min ceiling (begin v)) floor len
  end.
Definition find_gap (s : AddressSpace) (len : Z) : option Z :=
  gap_scan (rev (vmas_ s)) (arena_high_ s)
    (Z.max (page_up (brk_cur_ s)) (arena_low_ s)) len.

Definition map (s : AddressSpace) (hint len : Z) (p : GuestProt) (fixed anon : bool)
  : AddressSpace * Z :=
  let len := page_up len in
  if len =? 0 then (s, kFail)
  else if fixed && negb (hint =? 0) then
    let at_ := page_down hint in
    if (at_ <? arena_low_ s) || (arena_high_ s <? u64 (at_ + len)) then (s, kFail)
    else (insert (unmap s at_ len) (mkVma at_ (u64 (at_ + len)) p anon), at_)
  else
    match find_gap s len with
    | None => (s, kFail)
    | Some at_ => (insert s (mkVma at_ (u64 (at_ + len)) p anon), at_)
    end.

Fixpoint covered (l : list Vma) (cursor hi : Z) : bool :=
  match l with
  | [] => hi <=? cursor
  | v :: l' =>
      if end_ v <=? cursor then covered l' cursor hi
      else if cursor <? begin v then false
      else if hi <=? end_ v then true
      else covered l' (end_ v) hi
  end.
Definition fully_mapped (s : AddressSpace) (lo hi : Z) : bool :=
  covered (vmas_ s) lo hi.

(** What one VMA becomes when [lo, hi) is re-protected. *)
Definition recolour (lo hi : Z) (p : GuestProt) (v : Vma) : list Vma :=
  if (end_ v <=? lo) || (hi <=? begin v) then [v]
  else (if begin v <? lo then [mkVma (begin v) lo (prot v) (anonymous v)] else [])
    ++ [mkVma (Z.max (begin v) lo) (Z.min (end_ v) hi) p (anonymous v)]
    ++ (if hi <? end_ v then [mkVma hi (end_ v) (prot v) (anonymous v)] else []).

Definition protect (s : AddressSpace) (addr len : Z) (p : GuestProt) : AddressSpace * bool :=
  let lo := page_down addr in
  let hi := page_up (u64 (addr + len)) in
  if hi <=? lo then (s, true)
  else if negb (fully_mapped s lo hi) then (s, false)
  else (with_vmas s (coalesce (concat (List.map (recolour lo hi p) (vmas_ s)))), true).

Definition adopt (s : AddressSpace) (v : Vma) : AddressSpace :=
  if end_ v <=? begin v then s
  else insert (unmap s (begin v) (size v)) v.

(** [find]: step back from [std::upper_bound] over [begin]. *)
Fixpoint last_not_above (l : list Vma) (addr : Z) (best : option Vma) : option Vma :=
  match l with
  | [] => best
  | v :: l' => if addr <? begin v then best else last_not_above l' addr (Some v)
  end.
Definition find (s : AddressSpace) (addr : Z) : option Vma :=
  match last_not_above (vmas_ s) addr None with
  | Some v => if addr <? end_ v then Some v else None
  | None => None
  end.

Definition mapped_bytes (s : AddressSpace) : Z :=
  fold_left (fun n v => u64 (n + size v)) (vmas_ s) 0.

(** ** Specification

    The meaning of the vector: the attributes of every address. *)
Fixpoint attr_at (l : list Vma) (a : Z) : option (GuestProt * bool) :=
  match l with
  | [] => None
  | v :: l' =>
      if (begin v <=? a) && (a <? end_ v) then Some (prot v, anonymous v)
      else attr_at l' a
  end.

(** Sorted, disjoint, non-empty areas that start at or above [floor]. *)
Fixpoint chain (floor : Z) (l : list Vma) : Prop :=
  match l with
  | [] => True
  | v :: l' => floor <= begin v < end_ v /\ chain (end_ v) l'
  end.

Definition page_aligned (a : Z) : Prop := (a mod kPageSize) = 0.
Definition vma_ok (v : Vma) : Prop :=
  page_aligned (begin v) /\ page_aligned (end_ v) /\ end_ v < 2 ^ 64.

(** No two neighbours could still be merged. *)
Fixpoint merged_after (prev : Vma) (l : list Vma) : Prop :=
  match l with
  | [] => True
  | v :: l' => mergeable prev v = false /\ merged_after v l'
  end.
Definition merged (l : list Vma) : Prop :=
  match l with
  | [] => True
  | v :: l' => merged_after v l'
  end.

(** The representation invariant of the class. *)
Record wf (s : AddressSpace) : Prop := {
  wf_chain : chain 0 (vmas_ s);
  wf_merged : merged (vmas_ s);
  wf_vmas : Forall vma_ok (vmas_ s);
  wf_low : page_aligned (arena_low_ s) /\ 0 <= arena_low_ s < 2 ^ 64;
  wf_high : page_aligned (arena_high_ s) /\ 0 <= arena_high_ s < 2 ^ 64;
  wf_brk : 0 <= brk_base_ s /\ brk_base_ s <= brk_cur_ s < 2 ^ 64;
}.

Definition within (lo hi a : Z) : bool := (lo <=? a) && (a <? hi).

(** ** Page arithmetic *)

Lemma page_down_eq a : 0 <= a < 2 ^ 64 -> page_down a = a / kPageSize * kPageSize.
Proof. intros. unfold page_down, kPageSize. exact (land_align a 12 ltac:(lia) ltac:(lia)). Qed.

Lemma page_up_eq a :
  0 <= a -> a + kPageSize - 1 < 2 ^ 64 ->
  page_up a = (a + kPageSize - 1) / kPageSize * kPageSize.
Proof.
  intros. unfold page_up, kPageSize in *. rewrite u64_small by lia.
  exact (land_align (a + 4096 - 1) 12 ltac:(lia) ltac:(lia)).
Qed.

Ltac page_arith :=
  unfold page_aligned, kPageSize in *; Z.div_mod_to_equations; lia.

Lemma page_down_spec a :
  0 <= a < 2 ^ 64 ->
  page_aligned (page_down a) /\ 0 <= page_down a <= a /\ a < page_down a + kPageSize.
Proof. intros. rewrite page_down_eq by lia. page_arith. Qed.

Lemma page_up_spec a :
  0 <= a -> a + kPageSize - 1 < 2 ^ 64 ->
  page_aligned (page_up a) /\ a <= page_up a < a + kPageSize.
Proof. intros. rewrite page_up_eq by lia. page_arith. Qed.

Lemma page_down_id a : 0 <= a < 2 ^ 64 -> page_aligned a -> page_down a = a.
Proof. intros. rewrite page_down_eq by lia. page_arith. Qed.

Lemma page_up_id a : 0 <= a < 2 ^ 64 -> page_aligned a -> page_up a = a.
Proof.
  intros H Ha. assert (a + kPageSize - 1 < 2 ^ 64) by page_arith.
  rewrite page_up_eq by (unfold kPageSize in *; lia). page_arith.
Qed.

(** [page_up] wraps to an aligned word on every input. *)
Lemma page_up_range a : page_aligned (page_up a) /\ 0 <= page_up a < 2 ^ 64.
Proof.
  unfold page_up. rewrite (land_align _ 12) by auto using u64_range with lia.
  pose proof (u64_range (a + kPageSize - 1)). page_arith.
Qed.

(** ** Chains *)

Lemma chain_weaken f g l : g <= f -> chain f l -> chain g l.
Proof. destruct l; simpl; [done|]. intros ? [? ?]; split; [lia|done]. Qed.

Lemma chain_attr_low f l a : chain f l -> a < f -> attr_at l a = None.
Proof.
  revert f. induction l as [|v l IH]; intros f; simpl; [done|].
  intros [? Hc] ?. destruct (Z.leb_spec (begin v) a); simpl; [lia|].
  apply (IH _ Hc). lia.
Qed.

Lemma chain_In f l v : chain f l -> v ∈ l -> f <= begin v < end_ v.
Proof.
  revert f. induction l as [|w l IH]; intros f Hc Hin; [set_solver|].
  destruct Hc as [? Hc]. apply elem_of_cons in Hin as [->|Hin]; [lia|].
  specialize (IH _ Hc Hin). lia.
Qed.

Lemma chain_app f l1 l2 top :
  chain f l1 -> Forall (fun v => end_ v <= top) l1 -> f <= top -> chain top l2 ->
  chain f (l1 ++ l2).
Proof.
  revert f. induction l1 as [|v l1 IH]; intros f Hc Hle Hf H2; simpl in *.
  - by apply chain_weaken with top.
  - inversion Hle; subst. destruct Hc as [? Hc]. split; [done|]. by apply IH.
Qed.

(** ** Cutting a range out of the map *)

Lemma attr_cut_app lo hi v l a f :
  lo < hi -> f <= begin v < end_ v -> chain (end_ v) l ->
  attr_at (cut lo hi v ++ l) a =
    (if within (begin v) (end_ v) a
     then if within lo hi a then None else Some (prot v, anonymous v)
     else attr_at l a).
Proof.
  intros Hlo Hv Hc. unfold cut, within. zcases; simpl; zcases; try done;
    eauto using chain_attr_low.
Qed.

Lemma cut_chain lo hi v l f :
  lo < hi -> f <= begin v < end_ v -> chain (end_ v) l -> chain f (cut lo hi v ++ l).
Proof.
  intros Hlo Hv Hc. unfold cut. zcases; simpl; repeat split; try lia; try done;
    (eapply chain_weaken; [|exact Hc]; lia).
Qed.

Lemma attr_unmap_list f l lo hi a :
  lo < hi -> chain f l ->
  chain f (concat (List.map (cut lo hi) l)) /\
  attr_at (concat (List.map (cut lo hi) l)) a =
    if within lo hi a then None else attr_at l a.
Proof.
  intros Hlo. revert f. induction l as [|v l IH]; intros f; simpl.
  - intros _. by destruct (within lo hi a).
  - intros [Hv Hc]. destruct (IH _ Hc) as [IHc IHa]. split.
    + by apply cut_chain.
    + rewrite (attr_cut_app _ _ _ _ _ f), IHa by done.
      change ((begin v <=? a) && (a <? end_ v)) with (within (begin v) (end_ v) a).
      by destruct (within (begin v) (end_ v) a), (within lo hi a).
Qed.

(** Removing a range never makes two areas mergeable: the pieces of a split
    area are separated by the hole. *)
Lemma merged_cut lo hi l prev f :
  lo < hi -> end_ prev <= f -> chain f l ->
  (end_ prev < f \/ merged_after prev l) ->
  (forall v l', l = v :: l' -> merged_after v l') ->
  merged_after prev (concat (List.map (cut lo hi) l)).
Proof.
  intros Hlo. revert prev f. induction l as [|v l IH]; intros prev f Hf Hc Hm Hl; [done|].
  destruct Hc as [Hv Hc]. specialize (Hl v l eq_refl).
  assert (Hn : forall w l', l = w :: l' -> merged_after w l').
  { intros w l' ->. by destruct Hl. }
  assert (Hpv : mergeable prev v = false).
  { destruct Hm as [Hm|[Hm _]]; [|done]. unfold mergeable. zcases; done. }
  assert (Hsame : forall w, end_ w = end_ v -> prot w = prot v -> anonymous w = anonymous v ->
            merged_after w (concat (List.map (cut lo hi) l))).
  { intros w He Hp Ha. apply (IH w (end_ v)); [lia|done| |done]. right.
    destruct l as [|x l]; [done|]. destruct Hl as [Hl ?]. split; [|done].
    unfold mergeable in *. by rewrite He, Hp, Ha. }
  simpl. unfold cut at 1. zcases; simpl; repeat split; try exact Hpv;
    try (unfold mergeable; simpl; zcases; done);
    first [ by apply Hsame
          | apply (IH _ (end_ v)); simpl; [lia|done|left; lia|done] ].
Qed.

Lemma cut_ok lo hi l :
  page_aligned lo -> page_aligned hi -> lo < 2 ^ 64 ->
  Forall vma_ok l -> Forall vma_ok (concat (List.map (cut lo hi) l)).
Proof.
  intros ??? Hl. apply Forall_concat, Forall_map.
  apply (Forall_impl _ _ _ Hl). intros v (?&?&?). unfold cut.
  zcases; simpl; rewrite ?Forall_cons; repeat split; simpl; auto using Forall_nil; lia.
Qed.

(** ** Inserting and merging *)

Definition disjoint_from (v : Vma) (l : list Vma) : Prop :=
  Forall (fun w => end_ w <= begin v \/ end_ v <= begin w) l.

Lemma insert_sorted_spec f l v a :
  chain f l -> f <= begin v < end_ v -> disjoint_from v l ->
  chain f (insert_sorted v l) /\
  attr_at (insert_sorted v l) a =
    if within (begin v) (end_ v) a then Some (prot v, anonymous v) else attr_at l a.
Proof.
  revert f. induction l as [|w l IH]; intros f Hc Hv Hd; simpl.
  - unfold within. split; [done|]. by zcases.
  - destruct Hc as [Hw Hc]. inversion Hd as [|?? Hdw Hd']; subst.
    destruct (Z.ltb_spec (begin w) (begin v)); simpl.
    + destruct (IH (end_ w)) as [IHc IHa]; [done|lia|done|].
      split; [done|]. rewrite IHa. unfold within. zcases; done.
    + split; [|unfold within; zcases; done]. repeat split; try lia; done.
Qed.

Lemma insert_sorted_Forall (P : Vma -> Prop) v l :
  P v -> Forall P l -> Forall P (insert_sorted v l).
Proof.
  intros Hv Hl. induction Hl; simpl; [auto|].
  destruct (begin x <? begin v); auto.
Qed.

Lemma coalesce_from_spec f l v a :
  f <= begin v < end_ v -> chain (end_ v) l ->
  chain f (coalesce_from v l) /\ attr_at (coalesce_from v l) a = attr_at (v :: l) a.
Proof.
  revert f v. induction l as [|w l IH]; intros f v Hv Hc; simpl; [done|].
  destruct Hc as [Hw Hc]. destruct (mergeable v w) eqn:Hm.
  - unfold mergeable in Hm. rewrite !andb_true_iff, !Z.eqb_eq, Bool.eqb_true_iff in Hm.
    destruct Hm as [[Hend Hp] Ha].
    edestruct (IH f (mkVma (begin v) (end_ w) (prot v) (anonymous v))) as [IHc IHa];
      simpl; [lia|exact Hc|]. split; [done|]. rewrite IHa. simpl.
    rewrite <- Hp, <- Ha. zcases; done.
  - destruct (IH (end_ v) w) as [IHc IHa]; [lia|done|]. split; [done|].
    simpl. by rewrite IHa.
Qed.

Lemma coalesce_spec f l a :
  chain f l -> chain f (coalesce l) /\ attr_at (coalesce l) a = attr_at l a.
Proof.
  destruct l as [|v l]; [done|]. intros [Hv Hc]. by apply coalesce_from_spec.
Qed.

Lemma coalesce_from_merged l v :
  exists h t, coalesce_from v l = h :: t /\ begin h = begin v /\ prot h = prot v
    /\ anonymous h = anonymous v /\ merged_after h t.
Proof.
  revert v. induction l as [|w l IH]; intros v; simpl.
  - by exists v, [].
  - destruct (mergeable v w) eqn:Hm.
    + destruct (IH (mkVma (begin v) (end_ w) (prot v) (anonymous v))) as (h & t & -> & ?); eauto.
    + destruct (IH w) as (h & t & -> & Hb & Hp & Ha & ?).
      eexists v, _. repeat split; [|done].
      unfold mergeable in *. by rewrite Hb, Hp, Ha.
Qed.

Lemma coalesce_merged l : merged (coalesce l).
Proof.
  destruct l as [|v l]; [done|]. simpl.
  by destruct (coalesce_from_merged l v) as (h & t & -> & _ & _ & _ & ?).
Qed.

Lemma coalesce_ok l : Forall vma_ok l -> Forall vma_ok (coalesce l).
Proof.
  destruct l as [|v l]; [done|]. revert v. induction l as [|w l IH]; intros v Hl; simpl; [done|].
  rewrite !Forall_cons in Hl. destruct Hl as ((?&?&?) & (?&?&?) & ?).
  destruct (mergeable v w).
  - apply IH. constructor; [|done]. repeat split; simpl; done.
  - constructor; [by repeat split|]. apply IH. constructor; [by repeat split|done].
Qed.
#[local] Hint Resolve coalesce_ok coalesce_merged : core.

(** ** Re-protecting a range *)

Definition set_prot (p : GuestProt) (x : GuestProt * bool) : GuestProt * bool := (p, x.2).

Lemma recolour_list_spec f l lo hi p a :
  lo < hi -> chain f l ->
  chain f (concat (List.map (recolour lo hi p) l)) /\
  attr_at (concat (List.map (recolour lo hi p) l)) a =
    if within lo hi a then set_prot p <$> attr_at l a else attr_at l a.
Proof.
  intros Hlo. revert f. induction l as [|v l IH]; intros f; simpl.
  - intros _. by destruct (within lo hi a).
  - intros [Hv Hc]. destruct (IH _ Hc) as [IHc IHa]. unfold recolour. split.
    + zcases; simpl; repeat split; try lia; try done;
        (eapply chain_weaken; [|exact IHc]; lia).
    + unfold within in *. zcases; simpl; zcases; simpl; try done;
        rewrite IHa; zcases; simpl; try done;
        erewrite chain_attr_low by (try exact Hc; lia); done.
Qed.

Lemma recolour_ok lo hi p l :
  page_aligned lo -> page_aligned hi -> lo < 2 ^ 64 -> hi < 2 ^ 64 ->
  Forall vma_ok l -> Forall vma_ok (concat (List.map (recolour lo hi p) l)).
Proof.
  intros ???? Hl. apply Forall_concat, Forall_map.
  apply (Forall_impl _ _ _ Hl). intros v (?&?&?).
  assert (page_aligned (Z.max (begin v) lo) /\ page_aligned (Z.min (end_ v) hi)
          /\ Z.min (end_ v) hi < 2 ^ 64) as (?&?&?).
  { destruct (Z.max_spec (begin v) lo) as [[_ ->]|[_ ->]],
      (Z.min_spec (end_ v) hi) as [[_ ->]|[_ ->]]; repeat split; done. }
  unfold recolour. zcases; simpl; rewrite ?Forall_cons; repeat split; simpl;
    auto using Forall_nil; lia.
Qed.

Lemma covered_spec f l lo hi :
  chain f l -> lo < hi ->
  covered l lo hi = true <-> forall a, lo <= a < hi -> attr_at l a <> None.
Proof.
  revert f lo. induction l as [|v l IH]; intros f lo Hc Hlo; simpl.
  - split; [|intros H; by destruct (H lo ltac:(lia))]. intros ?%Z.leb_le. lia.
  - destruct Hc as [Hv Hc].
    destruct (Z.leb_spec (end_ v) lo);
      [|destruct (Z.ltb_spec lo (begin v)); [|destruct (Z.leb_spec hi (end_ v))]].
    + rewrite (IH (end_ v)) by done. split; intros H' a Ha; specialize (H' a Ha);
        revert H'; zcases; done.
    + split; [done|]. intros H'. specialize (H' lo ltac:(lia)). revert H'. zcases.
      by rewrite (chain_attr_low (end_ v)) by (done || lia).
    + split; [|done]. intros _ a Ha. by zcases.
    + rewrite (IH (end_ v)) by (done || lia). split; intros H' a Ha.
      * zcases; try done; apply H'; lia.
      * specialize (H' a ltac:(lia)). revert H'. zcases; done.
Qed.

(** ** Placement *)

Lemma chain_snoc f l v :
  chain f (l ++ [v]) -> chain f l /\ Forall (fun w => end_ w <= begin v) l /\ begin v < end_ v.
Proof.
  revert f. induction l as [|w l IH]; intros f; simpl.
  - intros [? _]. repeat split; auto; lia.
  - intros [Hw Hc]. destruct (IH _ Hc) as (?&Hle&?). repeat split; auto; try lia.
    constructor; [|done]. destruct l as [|x l]; simpl in *; [lia|].
    inversion Hle; subst. destruct Hc. lia.
Qed.

Definition free_range (l : list Vma) (lo hi : Z) : Prop :=
  Forall (fun w => end_ w <= lo \/ hi <= begin w) l.

Lemma gap_scan_sound rl c floor len at_ :
  gap_scan rl c floor len = Some at_ -> chain 0 (rev rl) -> 0 < len ->
  at_ + len <= c /\ free_range rl at_ (at_ + len)
  /\ (floor <= at_ \/ Exists (fun w => end_ w <= at_) rl).
Proof.
  revert c. induction rl as [|v rl IH]; intros c; simpl.
  - intros Hg _ ?. revert Hg. zcases; [|done..]. intros [= <-].
    repeat split; [lia|constructor|left; lia].
  - intros Hg Hc ?. apply chain_snoc in Hc as (Hc & Hle & Hv).
    apply Forall_rev in Hle. rewrite rev_involutive in Hle.
    destruct ((end_ v <=? c) && (len <=? c - end_ v)) eqn:E.
    + injection Hg as <-. rewrite andb_true_iff, !Z.leb_le in E.
      repeat split; [lia| |right; constructor; lia].
      constructor; [left; lia|]. apply (Forall_impl _ _ _ Hle). intros w ?. left. lia.
    + destruct (IH _ Hg Hc) as (?&?&?); [done|]. repeat split; [lia| |].
      * constructor; [right; lia|done].
      * destruct H2; [by left|right; by constructor].
Qed.

Lemma gap_scan_aligned rl c floor len at_ :
  gap_scan rl c floor len = Some at_ -> Forall vma_ok rl ->
  page_aligned c -> page_aligned len -> page_aligned at_.
Proof.
  intros Hg Hok. revert c Hg. induction Hok as [|v rl (?&?&?) Hok IH]; intros c Hg Hc Hl;
    simpl in Hg.
  - revert Hg. zcases; [|done..]. intros [= <-]. page_arith.
  - destruct ((end_ v <=? c) && (len <=? c - end_ v)).
    + injection Hg as <-. page_arith.
    + apply (IH _ Hg); [|done]. by destruct (Z.min_spec c (begin v)) as [[_ ->]|[_ ->]].
Qed.

Lemma gap_scan_complete rl c floor len at_ :
  gap_scan rl c floor len = None -> 0 < len ->
  floor <= at_ -> at_ + len <= c -> free_range rl at_ (at_ + len) -> False.
Proof.
  revert c. induction rl as [|v rl IH]; intros c; simpl.
  - zcases; done || lia.
  - intros Hg ? ? ? Hf. inversion Hf as [|?? Hv Hf']; subst.
    destruct ((end_ v <=? c) && (len <=? c - end_ v)) eqn:E; [done|].
    rewrite andb_false_iff, !Z.leb_gt in E.
    apply (IH _ Hg); try done; lia.
Qed.

(** ** Lookup *)

Lemma last_not_above_spec f l a best :
  chain f l ->
  last_not_above l a best =
    match last_not_above l a None with Some v => Some v | None => best end.
Proof.
  revert f best. induction l as [|v l IH]; intros f best; simpl; [done|].
  intros [Hv Hc]. destruct (a <? begin v); [done|].
  rewrite (IH _ (Some v) Hc). by destruct (last_not_above l a None).
Qed.

Lemma last_not_above_low f l a : chain f l -> a < f -> last_not_above l a None = None.
Proof.
  destruct l as [|v l]; simpl; [done|]. intros [? _] ?. by zcases.
Qed.

Lemma find_list_spec f l a :
  chain f l ->
  match last_not_above l a None with
  | Some v => if a <? end_ v then Some v else None
  | None => None
  end = List.find (fun v => within (begin v) (end_ v) a) l.
Proof.
  revert f. induction l as [|v l IH]; intros f; simpl; [done|].
  intros [Hv Hc]. rewrite <- (IH _ Hc). unfold within.
  destruct (Z.ltb_spec a (begin v)); zcases.
  - by rewrite (last_not_above_low (end_ v)) by (done || lia).
  - rewrite (last_not_above_spec (end_ v)) by done.
    rewrite (last_not_above_low (end_ v)) by (done || lia). by zcases.
  - rewrite (last_not_above_spec (end_ v)) by done.
    destruct (last_not_above l a None); [done|]. by zcases.
Qed.

Lemma attr_at_find l a :
  attr_at l a = (fun v => (prot v, anonymous v)) <$> List.find (fun v => within (begin v) (end_ v) a) l.
Proof.
  induction l as [|v l IH]; simpl; [done|]. unfold within in *. by destruct ((begin v <=? a) && (a <? end_ v)).
Qed.

(** ** Operations against the invariant and the specification *)

(** No argument of [unmap]/[protect] wraps: the range, rounded up to a page,
    ends inside the 64-bit space. *)
Definition range_ok (addr len : Z) : Prop :=
  0 <= addr /\ 0 <= len /\ addr + len + kPageSize - 1 < 2 ^ 64.

Lemma aligned_room a : page_aligned a -> 0 <= a < 2 ^ 64 -> a + kPageSize - 1 < 2 ^ 64.
Proof. page_arith. Qed.

Lemma range_ok_pages addr len :
  range_ok addr len ->
  u64 (addr + len) = addr + len /\
  (page_aligned (page_down addr) /\ 0 <= page_down addr <= addr) /\
  (page_aligned (page_up (addr + len)) /\ addr + len <= page_up (addr + len) < 2 ^ 64).
Proof.
  intros (?&?&?). unfold kPageSize in *. rewrite u64_small by lia.
  destruct (page_down_spec addr) as (?&?&?); [lia|].
  destruct (page_up_spec (addr + len)) as (?&?); unfold kPageSize; [lia..|].
  destruct (page_up_range (addr + len)). repeat split; (done || lia).
Qed.

Lemma unmap_vmas s addr len :
  wf s -> range_ok addr len ->
  let l := vmas_ (unmap s addr len) in
  chain 0 l /\ merged l /\ Forall vma_ok l /\
  forall a, attr_at l a =
    if within (page_down addr) (page_up (addr + len)) a then None else attr_at (vmas_ s) a.
Proof.
  intros Hwf Hr. destruct (range_ok_pages _ _ Hr) as (Hu & (?&?) & (?&?)).
  destruct Hwf as [Hc Hm Hok _ _ _]. unfold unmap. rewrite Hu.
  destruct (Z.leb_spec (page_up (addr + len)) (page_down addr)); simpl.
  - repeat split; try done. intros a. unfold within. by zcases.
  - repeat split.
    + by apply (attr_unmap_list 0 _ _ _ 0).
    + destruct (vmas_ s) as [|v l]; [done|].
      assert (Hx : merged_after (mkVma (-2) (-1) 0 true)
                (concat (List.map (cut (page_down addr) (page_up (addr + len))) (v :: l)))).
      { apply merged_cut with 0; [done|simpl; lia|exact Hc|left; simpl; lia|].
        intros w l' [= <- <-]. exact Hm. }
      destruct (concat _); [done|]. by destruct Hx.
    + apply cut_ok; (done || lia).
    + intros a. by apply (attr_unmap_list 0).
Qed.

Lemma insert_vmas s v :
  chain 0 (vmas_ s) -> Forall vma_ok (vmas_ s) -> vma_ok v -> 0 <= begin v < end_ v ->
  free_range (vmas_ s) (begin v) (end_ v) ->
  let l := vmas_ (insert s v) in
  chain 0 l /\ merged l /\ Forall vma_ok l /\
  forall a, attr_at l a =
    if within (begin v) (end_ v) a then Some (prot v, anonymous v) else attr_at (vmas_ s) a.
Proof.
  intros Hc Hok Hv Hb Hf. simpl.
  assert (Hi : forall a, _) by (intros a; exact (insert_sorted_spec 0 (vmas_ s) v a Hc Hb Hf)).
  pose proof (fun a => coalesce_spec 0 _ a (proj1 (Hi a))) as Hco.
  split; [exact (proj1 (Hco 0))|]. split; [apply coalesce_merged|].
  split; [by apply coalesce_ok, insert_sorted_Forall|].
  intros a. rewrite (proj2 (Hco a)). apply Hi.
Qed.

(** An address range without attributes is free of areas. *)
Lemma attr_free f l lo hi :
  chain f l -> lo < hi -> (forall a, lo <= a < hi -> attr_at l a = None) -> free_range l lo hi.
Proof.
  revert f. induction l as [|v l IH]; intros f Hc Hlo H; [constructor|].
  destruct Hc as [Hv Hc]. constructor.
  - destruct (Z.le_gt_cases (end_ v) lo); [by left|].
    destruct (Z.le_gt_cases hi (begin v)); [by right|]. exfalso.
    specialize (H (Z.max lo (begin v)) ltac:(lia)). revert H. simpl. zcases. done.
  - apply (IH (end_ v)); try done. intros a Ha. specialize (H a Ha). revert H.
    simpl. by destruct ((begin v <=? a) && (a <? end_ v)).
Qed.

Lemma free_attr l lo hi a : free_range l lo hi -> lo <= a < hi -> attr_at l a = None.
Proof.
  intros Hf Ha. induction Hf as [|v l Hv Hf IH]; simpl; [done|]. by zcases.
Qed.

Lemma wf_with_vmas s l :
  wf s -> chain 0 l -> merged l -> Forall vma_ok l -> wf (with_vmas s l).
Proof. intros [? ? ? ? ? ?] ???. by constructor. Qed.

Lemma unmap_shape s addr len : unmap s addr len = with_vmas s (vmas_ (unmap s addr len)).
Proof. unfold unmap. destruct (_ <=? _); by destruct s. Qed.

Lemma unmap_wf s addr len : wf s -> range_ok addr len -> wf (unmap s addr len).
Proof.
  intros Hwf Hr. rewrite unmap_shape.
  destruct (unmap_vmas _ _ _ Hwf Hr) as (?&?&?&?). by apply wf_with_vmas.
Qed.

Lemma insert_wf s v :
  wf s -> vma_ok v -> 0 <= begin v < end_ v -> free_range (vmas_ s) (begin v) (end_ v) ->
  wf (insert s v).
Proof.
  intros Hwf Hv Hb Hf. unfold insert.
  destruct (insert_vmas s v) as (?&?&?&?); try done; [apply Hwf..|]. by apply wf_with_vmas.
Qed.

(** Clearing a page range and inserting an area that fills it: the common
    tail of [map] with MAP_FIXED and of [adopt]. *)
Lemma replace_spec s v :
  wf s -> vma_ok v -> 0 <= begin v < end_ v ->
  let s' := insert (unmap s (begin v) (end_ v - begin v)) v in
  wf s' /\
  forall a, attr_at (vmas_ s') a =
    if within (begin v) (end_ v) a then Some (prot v, anonymous v) else attr_at (vmas_ s) a.
Proof.
  intros Hwf Hv Hb. destruct Hv as (Hab & Hae & Htop).
  assert (Hr : range_ok (begin v) (end_ v - begin v)).
  { pose proof (aligned_room (end_ v) Hae ltac:(lia)). unfold range_ok. lia. }
  destruct (unmap_vmas s _ _ Hwf Hr) as (?&?&?&Ha).
  rewrite page_down_id in Ha by (done || lia).
  replace (begin v + (end_ v - begin v)) with (end_ v) in Ha by lia.
  rewrite page_up_id in Ha by (done || lia).
  assert (Hf : free_range (vmas_ (unmap s (begin v) (end_ v - begin v))) (begin v) (end_ v)).
  { apply (attr_free 0); [done|lia|]. intros a ?. rewrite Ha. unfold within. by zcases. }
  split; [apply insert_wf; try done; by apply unmap_wf|].
  intros a. destruct (insert_vmas (unmap s (begin v) (end_ v - begin v)) v) as (_&_&_&Hi);
    try done. rewrite Hi, Ha. by destruct (within (begin v) (end_ v) a).
Qed.

Lemma find_gap_sound s len at_ :
  wf s -> page_aligned len -> 0 < len -> find_gap s len = Some at_ ->
  page_aligned at_ /\ 0 <= at_ /\ at_ + len <= arena_high_ s /\
  free_range (vmas_ s) at_ (at_ + len).
Proof.
  intros [Hc _ Hok [_ Hlo] [Hha Hh] _] Hal Hlen Hg. unfold find_gap in Hg.
  pose proof (gap_scan_aligned _ _ _ _ _ Hg ltac:(by apply Forall_rev) Hha Hal).
  destruct (gap_scan_sound _ _ _ _ _ Hg) as (? & Hf & Hw); [by rewrite rev_involutive|done|].
  apply Forall_rev in Hf. rewrite rev_involutive in Hf. repeat split; try done.
  destruct Hw as [?|Hw]; [lia|].
  apply Exists_exists in Hw as (w & Hin & ?). rewrite elem_of_reverse in Hin || idtac.
  apply list_elem_of_In, in_rev, list_elem_of_In in Hin.
  pose proof (chain_In _ _ _ Hc Hin). lia.
Qed.

(** The state and address a successful [mmap] gives. *)
Definition mapped_at (s s' : AddressSpace) (at_ len : Z) (p : GuestProt) (anon : bool) : Prop :=
  wf s' /\ page_aligned at_ /\ 0 <= at_ /\ at_ + len <= arena_high_ s /\
  forall a, attr_at (vmas_ s') a =
    if within at_ (at_ + len) a then Some (p, anon) else attr_at (vmas_ s) a.

Lemma map_gap_spec s len p anon at_ :
  wf s -> page_aligned len -> 0 < len -> find_gap s len = Some at_ ->
  mapped_at s (insert s (mkVma at_ (u64 (at_ + len)) p anon)) at_ len p anon.
Proof.
  intros Hwf Hal Hlen Hg.
  destruct (find_gap_sound _ _ _ Hwf Hal Hlen Hg) as (Hat & Hat0 & Htop & Hfree).
  destruct (wf_high _ Hwf) as [_ Hh]. rewrite u64_small by lia.
  assert (Hv : vma_ok (mkVma at_ (at_ + len) p anon)).
  { split_and!; simpl; [done|page_arith|lia]. }
  split_and!; try done; [by apply insert_wf; [..|simpl; lia|]|].
  intros a. destruct (insert_vmas s (mkVma at_ (at_ + len) p anon)) as (_&_&_&Hi);
    try done; [apply Hwf..|simpl; lia].
Qed.

Lemma map_fixed_spec s len p anon at_ :
  wf s -> page_aligned at_ -> page_aligned len -> 0 <= at_ -> 0 < len ->
  at_ + len < 2 ^ 64 -> at_ + len <= arena_high_ s ->
  mapped_at s (insert (unmap s at_ len) (mkVma at_ (u64 (at_ + len)) p anon)) at_ len p anon.
Proof.
  intros Hwf Ha Hal Hat Hlen Hnw Hh. rewrite u64_small by lia.
  pose proof (replace_spec s (mkVma at_ (at_ + len) p anon) Hwf) as Hr; simpl in Hr.
  replace (at_ + len - at_) with len in Hr by lia.
  destruct Hr as [? Hattr]; [split_and!; simpl; [done|page_arith|lia]|lia|].
  split_and!; (done || lia || exact Hattr).
Qed.

Lemma recolour_vmas s lo hi p :
  wf s -> lo < hi -> page_aligned lo -> page_aligned hi -> hi < 2 ^ 64 ->
  let s' := with_vmas s (coalesce (concat (List.map (recolour lo hi p) (vmas_ s)))) in
  wf s' /\
  forall a, attr_at (vmas_ s') a =
    if within lo hi a then set_prot p <$> attr_at (vmas_ s) a else attr_at (vmas_ s) a.
Proof.
  intros Hwf Hlo ???.
  pose proof (fun a => recolour_list_spec 0 (vmas_ s) lo hi p a Hlo (wf_chain _ Hwf)) as Hrec.
  pose proof (fun a => coalesce_spec 0 _ a (proj1 (Hrec a))) as Hco. split.
  - apply wf_with_vmas; [done|exact (proj1 (Hco 0))|apply coalesce_merged|].
    apply coalesce_ok, recolour_ok; try done; try lia. apply Hwf.
  - intros a. simpl. rewrite (proj2 (Hco a)). apply Hrec.
Qed.

Lemma reset_wf lo hi : 0 <= hi < 2 ^ 64 -> wf (reset lo hi).
Proof.
  intros Hh. unfold reset. destruct (page_up_range lo), (page_down_spec hi) as (?&?&?); [lia|].
  constructor; simpl; (done || lia || (split; (done || lia))).
Qed.

Lemma set_brk_wf s want : wf s -> is_u64 want -> wf (set_brk s want).1.
Proof.
  intros Hwf Hw. unfold set_brk. zcases; simpl; try done.
  destruct Hwf. unfold is_u64 in *. constructor; simpl; (done || lia).
Qed.

Lemma adopt_spec s v :
  wf s -> vma_ok v -> 0 <= begin v ->
  wf (adopt s v) /\
  forall a, attr_at (vmas_ (adopt s v)) a =
    if within (begin v) (end_ v) a then Some (prot v, anonymous v) else attr_at (vmas_ s) a.
Proof.
  intros Hwf Hv Hb. unfold adopt, size.
  destruct (Z.leb_spec (end_ v) (begin v)).
  - split; [done|]. intros a. unfold within. by zcases.
  - destruct Hv as (?&?&?). rewrite u64_small by lia. by apply replace_spec; [..|lia].
Qed.

(** ** Properties *)

(** [munmap]: removing a range clears exactly the page-rounded range,
    splitting the areas it only partly covers, leaves every other address as
    it was, and keeps the vector sorted, disjoint, merged and page aligned. *)
Theorem unmap_correct s addr len :
  wf s -> range_ok addr len ->
  wf (unmap s addr len) /\
  forall a, attr_at (vmas_ (unmap s addr len)) a =
    if within (page_down addr) (page_up (addr + len)) a then None else attr_at (vmas_ s) a.
Proof.
  intros Hwf Hr. split; [by apply unmap_wf|]. by apply unmap_vmas.
Qed.

(** [mmap] without MAP_FIXED either reports failure and changes nothing,
    or maps a fresh page-aligned range of the rounded length inside the arena
    that held no mapping before, and changes no other address. *)
Theorem map_anywhere_correct s hint len p fixed anon :
  wf s -> is_u64 len -> (fixed = false \/ hint = 0) ->
  let r := map s hint len p fixed anon in
  r = (s, kFail) \/
  (mapped_at s r.1 r.2 (page_up len) p anon /\
   forall a, within r.2 (r.2 + page_up len) a = true -> attr_at (vmas_ s) a = None).
Proof.
  intros Hwf Hlen Hfix r. subst r. unfold map.
  destruct (page_up_range len) as [Hal Hrange].
  destruct (Z.eqb_spec (page_up len) 0); [by left|].
  replace (fixed && negb (hint =? 0)) with false
    by (destruct Hfix as [->| ->]; [done|by destruct fixed]).
  destruct (find_gap s (page_up len)) as [at_|] eqn:Hg; [right|by left]. simpl.
  split; [by apply map_gap_spec; [..|lia|]|]. intros a Ha.
  destruct (find_gap_sound _ _ _ Hwf Hal ltac:(lia) Hg) as (_ & _ & _ & Hfree).
  apply (free_attr _ _ _ a Hfree). unfold within in Ha. lia.
Qed.

(** [mmap] with MAP_FIXED at a range that does not wrap: out of the arena
    it fails and changes nothing; otherwise it maps exactly the requested
    page, replacing whatever was there. *)
Theorem map_fixed_correct s hint len p anon :
  wf s -> is_u64 hint -> is_u64 len -> hint <> 0 -> page_up len <> 0 ->
  page_down hint + page_up len < 2 ^ 64 ->
  let r := map s hint len p true anon in
  if (arena_low_ s <=? page_down hint) && (page_down hint + page_up len <=? arena_high_ s)
  then r.2 = page_down hint /\ mapped_at s r.1 r.2 (page_up len) p anon
  else r = (s, kFail).
Proof.
  intros Hwf Hh Hl Hnz Hlz Hnw r. subst r. unfold map.
  destruct (page_up_range len) as [Hal Hrange].
  destruct (page_down_spec hint Hh) as (Hda & Hd & _).
  rewrite (u64_small (page_down hint + page_up len)) by lia.
  rewrite (proj2 (Z.eqb_neq _ _) Hlz), (proj2 (Z.eqb_neq _ _) Hnz). simpl.
  zcases; try done. simpl. split; [done|].
  rewrite <- (u64_small (page_down hint + page_up len)) by lia.
  apply map_fixed_spec; (done || lia).
Qed.

(** An [mmap] without MAP_FIXED is refused only when the arena, above the
    break, has no free range of the rounded length left. *)
Theorem map_refused_full s hint len p anon at_ :
  wf s -> map s hint len p false anon = (s, kFail) -> page_up len <> 0 ->
  Z.max (page_up (brk_cur_ s)) (arena_low_ s) <= at_ ->
  at_ + page_up len <= arena_high_ s ->
  ~ free_range (vmas_ s) at_ (at_ + page_up len).
Proof.
  intros Hwf Hm Hl Hlo Hhi Hf. unfold map in Hm.
  rewrite (proj2 (Z.eqb_neq _ _) Hl) in Hm. simpl in Hm.
  destruct (page_up_range len) as [Hal Hrange].
  destruct (find_gap s (page_up len)) as [a|] eqn:Hg.
  - destruct (find_gap_sound _ _ _ Hwf Hal ltac:(lia) Hg) as (_ & _ & ? & _).
    destruct (wf_high _ Hwf). injection Hm as _ Ha. unfold kFail in Ha. lia.
  - apply (gap_scan_complete _ _ _ _ at_ Hg); try done; [lia|]. by apply Forall_rev.
Qed.

(** [mprotect] succeeds exactly when every page of the rounded range is
    mapped; it then changes the protection of that range only (anonymity is
    kept), and a refusal changes nothing. *)
Theorem protect_correct s addr len p :
  wf s -> range_ok addr len ->
  let lo := page_down addr in
  let hi := page_up (addr + len) in
  let r := protect s addr len p in
  (r.2 = true <-> forall a, lo <= a < hi -> attr_at (vmas_ s) a <> None) /\
  (r.2 = false -> r.1 = s) /\ wf r.1 /\
  (r.2 = true -> forall a, attr_at (vmas_ r.1) a =
     if within lo hi a then set_prot p <$> attr_at (vmas_ s) a else attr_at (vmas_ s) a).
Proof.
  intros Hwf Hr lo hi r. subst lo hi r. unfold protect.
  destruct (range_ok_pages _ _ Hr) as (-> & (Hal & Hl) & (Hah & Hh)).
  set (lo := page_down addr) in *. set (hi := page_up (addr + len)) in *.
  destruct (Z.leb_spec hi lo); simpl.
  - split; [split; [intros _ a ?; lia|done]|]. split_and!; [done|done|].
    intros _ a. unfold within. by zcases.
  - pose proof (covered_spec 0 (vmas_ s) lo hi (wf_chain _ Hwf) ltac:(lia)) as Hcov.
    unfold fully_mapped. destruct (covered (vmas_ s) lo hi); simpl.
    + split; [done|]. destruct (recolour_vmas s lo hi p) as [? Ha]; [done|lia|done|done|lia|].
      by split_and!.
    + split; [done|]. by split_and!.
Qed.

(** The binary search of [find] answers the same as a scan of the whole
    map: the area containing the address, or nothing when it is unmapped. *)
Theorem find_correct s a :
  wf s ->
  find s a = List.find (fun v => within (begin v) (end_ v) a) (vmas_ s) /\
  attr_at (vmas_ s) a = (fun v => (prot v, anonymous v)) <$> find s a.
Proof.
  intros [Hc _ _ _ _ _]. rewrite attr_at_find. unfold find.
  rewrite (find_list_spec 0) by done. done.
Qed.

Lemma ceiling_in_spec f l base top :
  chain f l ->
  let c := ceiling_in l base top in
  (forall v, v ∈ l -> base <= begin v -> c <= begin v) /\ (base <= c \/ c = top).
Proof.
  revert f. induction l as [|w l IH]; intros f; simpl.
  - intros _. split; [set_solver|by right].
  - intros [Hw Hc]. destruct (Z.leb_spec base (begin w)).
    + split; [|by left]. intros v Hin ?. apply elem_of_cons in Hin as [->|Hin]; [lia|].
      pose proof (chain_In _ _ _ Hc Hin). lia.
    + destruct (IH _ Hc) as [IH1 IH2]. split; [|done].
      intros v Hin ?. apply elem_of_cons in Hin as [->|Hin]; [lia|]. by apply IH1.
Qed.

(** [brk] reports the current break for 0 and for every refused request
    and moves it to exactly the requested (unrounded) address otherwise; an
    accepted break lies above the heap base and no area that starts at or
    above the base begins below the page-rounded break, so growth never runs
    into a mapping. *)
Theorem set_brk_correct s want :
  wf s -> is_u64 want ->
  let r := set_brk s want in
  r.2 = brk_cur_ r.1 /\ vmas_ r.1 = vmas_ s /\
  (r = (s, brk_cur_ s) \/
   (r.2 = want /\ want <> 0 /\ brk_base_ s <= want /\ wf r.1 /\
    forall v, v ∈ vmas_ s -> brk_base_ s <= begin v -> page_up want <= begin v)).
Proof.
  intros Hwf Hw r. subst r. unfold set_brk. zcases; simpl; try (split_and!; [done|done|by left]).
  split_and!; [done|done|right]. destruct (ceiling_in_spec 0 (vmas_ s) (brk_base_ s) (arena_high_ s)
    (wf_chain _ Hwf)) as [Hc _]. unfold ceiling_above in *.
  split_and!; try done.
  - destruct Hwf as [? ? ? ? ? ?]. unfold is_u64 in *. constructor; simpl; try done; lia.
  - intros v Hin ?. specialize (Hc v Hin ltac:(lia)). lia.
Qed.

(** The calls a backend makes, with arguments that do not wrap around the
    64-bit space. *)
Inductive step : AddressSpace -> AddressSpace -> Prop :=
  | step_map s hint len p fixed anon :
      is_u64 hint -> is_u64 len ->
      (fixed = true -> page_down hint + page_up len < 2 ^ 64) ->
      step s (map s hint len p fixed anon).1
  | step_unmap s addr len : range_ok addr len -> step s (unmap s addr len)
  | step_protect s addr len p : range_ok addr len -> step s (protect s addr len p).1
  | step_adopt s v : vma_ok v -> 0 <= begin v -> step s (adopt s v)
  | step_brk s want : is_u64 want -> step s (set_brk s want).1.

Lemma map_wf s hint len p fixed anon :
  wf s -> is_u64 hint -> (fixed = true -> page_down hint + page_up len < 2 ^ 64) ->
  wf (map s hint len p fixed anon).1.
Proof.
  intros Hwf Hh Hf. unfold map. destruct (page_up_range len) as [? ?].
  destruct (page_down_spec hint Hh) as (?&?&_).
  destruct (Z.eqb_spec (page_up len) 0); [done|].
  destruct (fixed && negb (hint =? 0)) eqn:E.
  - apply andb_prop in E as [-> _]. specialize (Hf eq_refl).
    rewrite (u64_small (page_down hint + page_up len)) by lia. zcases; try done.
    rewrite <- (u64_small (page_down hint + page_up len)) by lia.
    apply (map_fixed_spec s (page_up len) p anon (page_down hint)); (done || lia).
  - destruct (find_gap s (page_up len)) eqn:Hg; [|done]. by apply map_gap_spec; [..|lia|].
Qed.

Lemma protect_wf s addr len p : wf s -> range_ok addr len -> wf (protect s addr len p).1.
Proof.
  intros Hwf Hr. unfold protect. destruct (range_ok_pages _ _ Hr) as (-> & (?&?) & (?&?)).
  zcases; [done|]. destruct (fully_mapped _ _ _); [|done]. by apply recolour_vmas; [..|lia].
Qed.

(** C40. Whatever sequence of maps, unmaps, protects, adoptions and break
    moves the guest drives, starting from an initialised space, the vector
    stays sorted, disjoint, merged and page aligned. *)
Theorem reachable_wf lo hi s :
  0 <= hi < 2 ^ 64 -> rtc step (reset lo hi) s -> wf s.
Proof.
  intros Hh Hr. assert (Hwf : wf (reset lo hi)) by by apply reset_wf.
  induction Hr as [s|s s' s'' Hs _ IH]; [done|]. apply IH.
  destruct Hs; [by apply map_wf|by apply unmap_wf|by apply protect_wf|by apply adopt_spec
    |by apply set_brk_wf].
Qed.

(** The byte total never wraps, since the areas are disjoint parts of the
    64-bit space. *)
Lemma mapped_bytes_from f n l :
  0 <= n <= f -> chain f l -> Forall vma_ok l ->
  fold_left (fun n v => u64 (n + size v)) l n =
    n + foldr (fun v m => end_ v - begin v + m) 0 l.
Proof.
  revert f n. induction l as [|v l IH]; intros f n Hn Hc Hok; simpl; [lia|].
  destruct Hc as [Hv Hc]. inversion Hok as [|?? (?&?&?) Hok']; subst.
  unfold size at 2. rewrite (u64_small (end_ v - begin v)), (u64_small (n + _)) by lia.
  rewrite (IH (end_ v)) by (done || lia). lia.
Qed.

Lemma mapped_bytes_exact s :
  wf s -> mapped_bytes s = foldr (fun v m => end_ v - begin v + m) 0 (vmas_ s).
Proof.
  intros Hwf. unfold mapped_bytes. rewrite (mapped_bytes_from 0); [lia|lia|apply Hwf..].
Qed.

(** As long as every area ends above the break, a placed mapping never
    reaches down into the heap. *)
Theorem map_clear_of_heap s hint len p anon :
  wf s -> is_u64 len ->
  Forall (fun v => page_up (brk_cur_ s) < end_ v) (vmas_ s) ->
  let r := map s hint len p false anon in
  r.2 = kFail \/ page_up (brk_cur_ s) <= r.2.
Proof.
  intros Hwf Hlen Hall r. subst r. unfold map.
  destruct (Z.eqb_spec (page_up len) 0); [by left|]. destruct (page_up_range len). simpl.
  destruct (find_gap s (page_up len)) as [at_|] eqn:Hg; [right; simpl|by left].
  destruct (gap_scan_sound _ _ _ _ _ Hg) as (_ & _ & [?|Hw]);
    [rewrite rev_involutive; apply Hwf|lia|lia|].
  apply Exists_exists in Hw as (w & Hin & ?).
  apply list_elem_of_In, in_rev, list_elem_of_In in Hin.
  rewrite Forall_forall in Hall. specialize (Hall w Hin). lia.
Qed.

(** Without that condition the placement is unsafe: an adopted image area
    below the heap makes the scan treat the heap itself as part of a free gap,
    and a reachable space hands out a mapping that starts below the current
    break. *)
Theorem map_can_overlap_heap :
  exists s, rtc step (reset 0x20000 0x60000) s /\
    let r := map s 0 0x30000 (prot_or prot_read prot_write) false true in
    r.2 <> kFail /\ brk_base_ s <= r.2 /\ r.2 < brk_cur_ s.
Proof.
  exists (set_brk (adopt (reset 0x20000 0x60000) (mkVma 0x10000 0x20000 5 false)) 0x50000).1.
  split.
  - eapply rtc_l; [apply (step_adopt _ (mkVma 0x10000 0x20000 5 false))|].
    + split_and!; done.
    + done.
    + apply rtc_once, step_brk. done.
  - vm_compute. split_and!; done.
Qed.

(** The bound check of a MAP_FIXED request is computed modulo 2^64: a
    length that wraps passes it, nothing is unmapped, and the space records an
    area whose end lies below its begin. *)
Theorem map_fixed_wrap_accepted :
  let r := map (reset 0x10000 0x100000) 0x20000 (2 ^ 64 - 0x2000) prot_read true true in
  r.2 = 0x20000 /\ vmas_ r.1 = [mkVma 0x20000 0x1e000 prot_read true] /\ ~ wf r.1.
Proof.
  split_and!; [done|done|]. intros [Hc _ _ _ _ _]. vm_compute in Hc. destruct Hc as [[_ Hlt] _].
  discriminate Hlt.
Qed.

(** ** Witnesses *)

Definition ex_space : AddressSpace :=
  mkSpace [mkVma 0x10000 0x14000 3 true; mkVma 0x20000 0x21000 1 false]
    0x8000 0x100000 0x8000 0x9000.

Lemma ex_space_wf : wf ex_space.
Proof.
  constructor; [vm_compute; split_and!; done|vm_compute; split_and!; done|
    |split; [done|split; done]..|split; [done|split; done]].
  repeat constructor; done.
Qed.

Lemma unmap_correct_witness :
  vmas_ (unmap ex_space 0x11000 0x1000) =
    [mkVma 0x10000 0x11000 3 true; mkVma 0x12000 0x14000 3 true; mkVma 0x20000 0x21000 1 false]
  /\ attr_at (vmas_ (unmap ex_space 0x11000 0x1000)) 0x11000 = None.
Proof.
  split; [done|].
  rewrite (proj2 (unmap_correct ex_space 0x11000 0x1000 ex_space_wf ltac:(unfold range_ok, kPageSize; lia))).
  done.
Defined.

Lemma map_anywhere_correct_witness :
  mapped_at ex_space (map ex_space 0 0x1800 1 false true).1 0xfe000 0x2000 1 true.
Proof.
  destruct (map_anywhere_correct ex_space 0 0x1800 1 false true ex_space_wf
              ltac:(unfold is_u64; lia) ltac:(by left)) as [H|[H _]].
  - exfalso. vm_compute in H. discriminate H.
  - exact H.
Defined.

Lemma map_fixed_correct_witness :
  (map ex_space 0x13000 0x2000 1 true true).2 = 0x13000.
Proof.
  pose proof (map_fixed_correct ex_space 0x13000 0x2000 1 true ex_space_wf
    ltac:(unfold is_u64; lia) ltac:(unfold is_u64; lia) ltac:(done) ltac:(done) ltac:(done)) as H.
  exact (proj1 H).
Defined.

Lemma map_refused_full_witness :
  ~ free_range (vmas_ ex_space) 0x9000 (0x9000 + 0xf7000).
Proof.
  apply (map_refused_full ex_space 0 0xf7000 1 true 0x9000 ex_space_wf); done.
Defined.

Lemma protect_correct_witness :
  (protect ex_space 0x11000 0x1000 5).2 = true.
Proof.
  apply (proj1 (protect_correct ex_space 0x11000 0x1000 5 ex_space_wf
    ltac:(unfold range_ok, kPageSize; lia))).
  intros a Ha. change (page_down 0x11000) with 0x11000 in Ha.
  change (page_up (0x11000 + 0x1000)) with 0x12000 in Ha. simpl. zcases; done.
Defined.

Lemma find_correct_witness :
  find ex_space 0x20fff = Some (mkVma 0x20000 0x21000 1 false).
Proof.
  rewrite (proj1 (find_correct ex_space 0x20fff ex_space_wf)). done.
Defined.

Lemma set_brk_correct_witness :
  (set_brk ex_space 0xc123).2 = 0xc123 /\ brk_cur_ (set_brk ex_space 0xc123).1 = 0xc123.
Proof.
  destruct (set_brk_correct ex_space 0xc123 ex_space_wf ltac:(unfold is_u64; lia)) as (H & _ & _).
  split; [done|]. rewrite <- H. done.
Defined.

Lemma reachable_wf_witness : wf (unmap (reset 0x10000 0x100000) 0x10000 0x1000).
Proof.
  apply (reachable_wf 0x10000 0x100000); [lia|]. apply rtc_once, step_unmap.
  unfold range_ok, kPageSize. lia.
Defined.

Lemma map_clear_of_heap_witness :
  page_up (brk_cur_ ex_space) <= (map ex_space 0 0x1000 1 false true).2.
Proof.
  destruct (map_clear_of_heap ex_space 0 0x1000 1 true ex_space_wf ltac:(unfold is_u64; lia))
    as [H|H]; [repeat constructor; done|vm_compute in H; discriminate H|exact H].
Defined.

End Space.
