(* ===== verification/Sysno.v ===== *)
(** The syscall identity of linuxity: one canonical name per operation and
    the two per-ABI number tables that map onto it
    ([include/linuxity/abi/sysno.hpp]).

    The enumerators keep the order of the C++ enum, so [index] is the value
    that [static_cast<std::size_t>] gives; [decode] is total, as the C++
    function is: a number that neither kernel table assigns is [unknown]. *)

From S2P Require Import Prelude.

Module Sysno.

(** [enum class Arch]. *)
Inductive Arch := x86_64 | aarch64.

(** [enum class Sysno]. *)
Inductive t : Set :=
  | unknown | read | write | open | openat | close | mmap | munmap | mprotect
  | brk | getpid | gettid | clone | fork | vfork | execve | execveat | wait4
  | kill | tgkill | tkill | exit | exit_group | uname | arch_prctl
  | set_tid_address | ioctl | writev | readv | rt_sigaction | rt_sigprocmask
  | getuid | geteuid | getgid | getegid | getresuid | getresgid | stat | lstat
  | fstat | newfstatat | statx | lseek | pread64 | pwrite64 | getdents64
  | readlink | readlinkat | getcwd | chdir | fchdir | access | faccessat
  | faccessat2 | dup | dup2 | dup3 | fcntl | openat2 | statfs | fstatfs
  | chroot | getxattr | lgetxattr | fgetxattr | setxattr | lsetxattr
  | fsetxattr | listxattr | llistxattr | flistxattr | removexattr
  | lremovexattr | fremovexattr | inotify_add_watch | fanotify_mark
  | name_to_handle_at | open_by_handle_at | fsopen | fsconfig | fsmount
  | move_mount | open_tree | mount_setattr | statmount | listmount
  | pivot_root | swapon | swapoff | acct | quotactl | ustat | mount | umount2
  | getpgrp | getppid | sysinfo | sched_getaffinity | clock_gettime
  | gettimeofday | time | clock_getres | times | getrlimit | setrlimit
  | prlimit64 | getrusage | getrandom | futex | set_robust_list | rseq
  | membarrier | sched_yield | madvise | mremap | nanosleep | clock_nanosleep
  | pipe2 | ppoll | pselect6 | epoll_create1 | epoll_ctl | epoll_pwait
  | eventfd2 | fsync | fdatasync | sync | flock | umask | getgroups | clone3
  | rt_sigreturn | rt_sigpending | rt_sigsuspend | sigaltstack | setpgid
  | getpgid | setsid | getsid | getpriority | setpriority | mkdir | mkdirat
  | rmdir | unlink | unlinkat | chmod | fchmod | fchmodat | chown | lchown
  | fchown | fchownat | truncate | ftruncate | utimensat | futimesat | utimes
  | utime | mknod | mknodat | rename | renameat | renameat2 | link | linkat
  | symlink | symlinkat | setuid | setgid | setreuid | setregid | setresuid
  | setresgid | setfsuid | setfsgid | setgroups | landlock_create_ruleset
  | landlock_add_rule | landlock_restrict_self | socket | socketpair | listen
  | accept | accept4 | getpeername | sendto | recvfrom | sendmsg | recvmsg
  | setsockopt | getsockopt | shutdown | bind | connect | prctl | getsockname
  | capget | copy_file_range | fadvise64 | getitimer | setitimer
  | timer_create | timer_settime | timer_gettime | timer_getoverrun
  | timer_delete | clock_settime | settimeofday | close_range | fchmodat2
  | seccomp | mlock | munlock | mlockall | munlockall | mlock2 | mincore
  | msync | sched_setaffinity | sched_getparam | sched_setparam
  | sched_getscheduler | sched_setscheduler | sched_get_priority_max
  | sched_get_priority_min | getcpu | _sysctl | add_key | adjtimex
  | afs_syscall | alarm | bpf | cachestat | capset | clock_adjtime | creat
  | create_module | delete_module | epoll_create | epoll_ctl_old
  | epoll_pwait2 | epoll_wait | epoll_wait_old | eventfd | fallocate
  | fanotify_init | file_getattr | file_setattr | finit_module | fspick
  | futex_requeue | futex_wait | futex_waitv | futex_wake | get_kernel_syms
  | get_mempolicy | get_robust_list | get_thread_area | getdents | getpmsg
  | getxattrat | init_module | inotify_init | inotify_init1 | inotify_rm_watch
  | io_cancel | io_destroy | io_getevents | io_pgetevents | io_setup
  | io_submit | io_uring_enter | io_uring_register | io_uring_setup | ioperm
  | iopl | ioprio_get | ioprio_set | kcmp | kexec_file_load | kexec_load
  | keyctl | listns | listxattrat | lookup_dcookie | lsm_get_self_attr
  | lsm_list_modules | lsm_set_self_attr | map_shadow_stack | mbind
  | memfd_create | memfd_secret | migrate_pages | modify_ldt | move_pages
  | mq_getsetattr | mq_notify | mq_open | mq_timedreceive | mq_timedsend
  | mq_unlink | mseal | msgctl | msgget | msgrcv | msgsnd | nfsservctl
  | open_tree_attr | pause | perf_event_open | personality | pidfd_getfd
  | pidfd_open | pidfd_send_signal | pipe | pkey_alloc | pkey_free
  | pkey_mprotect | poll | preadv | preadv2 | process_madvise
  | process_mrelease | process_vm_readv | process_vm_writev | ptrace | putpmsg
  | pwritev | pwritev2 | query_module | quotactl_fd | readahead | reboot
  | recvmmsg | remap_file_pages | removexattrat | request_key
  | restart_syscall | rseq_slice_yield | rt_sigqueueinfo | rt_sigtimedwait
  | rt_tgsigqueueinfo | sched_getattr | sched_rr_get_interval | sched_setattr
  | security | select | semctl | semget | semop | semtimedop | sendfile
  | sendmmsg | set_mempolicy | set_mempolicy_home_node | set_thread_area
  | setdomainname | sethostname | setns | setxattrat | shmat | shmctl | shmdt
  | shmget | signalfd | signalfd4 | splice | sync_file_range | syncfs | sysfs
  | syslog | tee | timerfd_create | timerfd_gettime | timerfd_settime
  | tuxcall | unshare | uselib | userfaultfd | vhangup | vmsplice | vserver
  | waitid.

(** The enumerators in declaration order. *)
Definition all : list t :=
  [unknown; read; write; open; openat; close; mmap; munmap; mprotect; brk;
   getpid; gettid; clone; fork; vfork; execve; execveat; wait4; kill; tgkill;
   tkill; exit; exit_group; uname; arch_prctl; set_tid_address; ioctl; writev;
   readv; rt_sigaction; rt_sigprocmask; getuid; geteuid; getgid; getegid;
   getresuid; getresgid; stat; lstat; fstat; newfstatat; statx; lseek;
   pread64; pwrite64; getdents64; readlink; readlinkat; getcwd; chdir; fchdir;
   access; faccessat; faccessat2; dup; dup2; dup3; fcntl; openat2; statfs;
   fstatfs; chroot; getxattr; lgetxattr; fgetxattr; setxattr; lsetxattr;
   fsetxattr; listxattr; llistxattr; flistxattr; removexattr; lremovexattr;
   fremovexattr; inotify_add_watch; fanotify_mark; name_to_handle_at;
   open_by_handle_at; fsopen; fsconfig; fsmount; move_mount; open_tree;
   mount_setattr; statmount; listmount; pivot_root; swapon; swapoff; acct;
   quotactl; ustat; mount; umount2; getpgrp; getppid; sysinfo;
   sched_getaffinity; clock_gettime; gettimeofday; time; clock_getres; times;
   getrlimit; setrlimit; prlimit64; getrusage; getrandom; futex;
   set_robust_list; rseq; membarrier; sched_yield; madvise; mremap; nanosleep;
   clock_nanosleep; pipe2; ppoll; pselect6; epoll_create1; epoll_ctl;
   epoll_pwait; eventfd2; fsync; fdatasync; sync; flock; umask; getgroups;
   clone3; rt_sigreturn; rt_sigpending; rt_sigsuspend; sigaltstack; setpgid;
   getpgid; setsid; getsid; getpriority; setpriority; mkdir; mkdirat; rmdir;
   unlink; unlinkat; chmod; fchmod; fchmodat; chown; lchown; fchown; fchownat;
   truncate; ftruncate; utimensat; futimesat; utimes; utime; mknod; mknodat;
   rename; renameat; renameat2; link; linkat; symlink; symlinkat; setuid;
   setgid; setreuid; setregid; setresuid; setresgid; setfsuid; setfsgid;
   setgroups; landlock_create_ruleset; landlock_add_rule;
   landlock_restrict_self; socket; socketpair; listen; accept; accept4;
   getpeername; sendto; recvfrom; sendmsg; recvmsg; setsockopt; getsockopt;
   shutdown; bind; connect; prctl; getsockname; capget; copy_file_range;
   fadvise64; getitimer; setitimer; timer_create; timer_settime;
   timer_gettime; timer_getoverrun; timer_delete; clock_settime; settimeofday;
   close_range; fchmodat2; seccomp; mlock; munlock; mlockall; munlockall;
   mlock2; mincore; msync; sched_setaffinity; sched_getparam; sched_setparam;
   sched_getscheduler; sched_setscheduler; sched_get_priority_max;
   sched_get_priority_min; getcpu; _sysctl; add_key; adjtimex; afs_syscall;
   alarm; bpf; cachestat; capset; clock_adjtime; creat; create_module;
   delete_module; epoll_create; epoll_ctl_old; epoll_pwait2; epoll_wait;
   epoll_wait_old; eventfd; fallocate; fanotify_init; file_getattr;
   file_setattr; finit_module; fspick; futex_requeue; futex_wait; futex_waitv;
   futex_wake; get_kernel_syms; get_mempolicy; get_robust_list;
   get_thread_area; getdents; getpmsg; getxattrat; init_module; inotify_init;
   inotify_init1; inotify_rm_watch; io_cancel; io_destroy; io_getevents;
   io_pgetevents; io_setup; io_submit; io_uring_enter; io_uring_register;
   io_uring_setup; ioperm; iopl; ioprio_get; ioprio_set; kcmp;
   kexec_file_load; kexec_load; keyctl; listns; listxattrat; lookup_dcookie;
   lsm_get_self_attr; lsm_list_modules; lsm_set_self_attr; map_shadow_stack;
   mbind; memfd_create; memfd_secret; migrate_pages; modify_ldt; move_pages;
   mq_getsetattr; mq_notify; mq_open; mq_timedreceive; mq_timedsend;
   mq_unlink; mseal; msgctl; msgget; msgrcv; msgsnd; nfsservctl;
   open_tree_attr; pause; perf_event_open; personality; pidfd_getfd;
   pidfd_open; pidfd_send_signal; pipe; pkey_alloc; pkey_free; pkey_mprotect;
   poll; preadv; preadv2; process_madvise; process_mrelease; process_vm_readv;
   process_vm_writev; ptrace; putpmsg; pwritev; pwritev2; query_module;
   quotactl_fd; readahead; reboot; recvmmsg; remap_file_pages; removexattrat;
   request_key; restart_syscall; rseq_slice_yield; rt_sigqueueinfo;
   rt_sigtimedwait; rt_tgsigqueueinfo; sched_getattr; sched_rr_get_interval;
   sched_setattr; security; select; semctl; semget; semop; semtimedop;
   sendfile; sendmmsg; set_mempolicy; set_mempolicy_home_node;
   set_thread_area; setdomainname; sethostname; setns; setxattrat; shmat;
   shmctl; shmdt; shmget; signalfd; signalfd4; splice; sync_file_range;
   syncfs; sysfs; syslog; tee; timerfd_create; timerfd_gettime;
   timerfd_settime; tuxcall; unshare; uselib; userfaultfd; vhangup; vmsplice;
   vserver; waitid].

(** The value of an enumerator, [static_cast<std::size_t>(s)]. *)
Definition index (s : t) : nat :=
  match s with
  | unknown => 0 | read => 1 | write => 2 | open => 3 | openat => 4
  | close => 5 | mmap => 6 | munmap => 7 | mprotect => 8 | brk => 9
  | getpid => 10 | gettid => 11 | clone => 12 | fork => 13 | vfork => 14
  | execve => 15 | execveat => 16 | wait4 => 17 | kill => 18 | tgkill => 19
  | tkill => 20 | exit => 21 | exit_group => 22 | uname => 23
  | arch_prctl => 24 | set_tid_address => 25 | ioctl => 26 | writev => 27
  | readv => 28 | rt_sigaction => 29 | rt_sigprocmask => 30 | getuid => 31
  | geteuid => 32 | getgid => 33 | getegid => 34 | getresuid => 35
  | getresgid => 36 | stat => 37 | lstat => 38 | fstat => 39
  | newfstatat => 40 | statx => 41 | lseek => 42 | pread64 => 43
  | pwrite64 => 44 | getdents64 => 45 | readlink => 46 | readlinkat => 47
  | getcwd => 48 | chdir => 49 | fchdir => 50 | access => 51 | faccessat => 52
  | faccessat2 => 53 | dup => 54 | dup2 => 55 | dup3 => 56 | fcntl => 57
  | openat2 => 58 | statfs => 59 | fstatfs => 60 | chroot => 61
  | getxattr => 62 | lgetxattr => 63 | fgetxattr => 64 | setxattr => 65
  | lsetxattr => 66 | fsetxattr => 67 | listxattr => 68 | llistxattr => 69
  | flistxattr => 70 | removexattr => 71 | lremovexattr => 72
  | fremovexattr => 73 | inotify_add_watch => 74 | fanotify_mark => 75
  | name_to_handle_at => 76 | open_by_handle_at => 77 | fsopen => 78
  | fsconfig => 79 | fsmount => 80 | move_mount => 81 | open_tree => 82
  | mount_setattr => 83 | statmount => 84 | listmount => 85 | pivot_root => 86
  | swapon => 87 | swapoff => 88 | acct => 89 | quotactl => 90 | ustat => 91
  | mount => 92 | umount2 => 93 | getpgrp => 94 | getppid => 95
  | sysinfo => 96 | sched_getaffinity => 97 | clock_gettime => 98
  | gettimeofday => 99 | time => 100 | clock_getres => 101 | times => 102
  | getrlimit => 103 | setrlimit => 104 | prlimit64 => 105 | getrusage => 106
  | getrandom => 107 | futex => 108 | set_robust_list => 109 | rseq => 110
  | membarrier => 111 | sched_yield => 112 | madvise => 113 | mremap => 114
  | nanosleep => 115 | clock_nanosleep => 116 | pipe2 => 117 | ppoll => 118
  | pselect6 => 119 | epoll_create1 => 120 | epoll_ctl => 121
  | epoll_pwait => 122 | eventfd2 => 123 | fsync => 124 | fdatasync => 125
  | sync => 126 | flock => 127 | umask => 128 | getgroups => 129
  | clone3 => 130 | rt_sigreturn => 131 | rt_sigpending => 132
  | rt_sigsuspend => 133 | sigaltstack => 134 | setpgid => 135
  | getpgid => 136 | setsid => 137 | getsid => 138 | getpriority => 139
  | setpriority => 140 | mkdir => 141 | mkdirat => 142 | rmdir => 143
  | unlink => 144 | unlinkat => 145 | chmod => 146 | fchmod => 147
  | fchmodat => 148 | chown => 149 | lchown => 150 | fchown => 151
  | fchownat => 152 | truncate => 153 | ftruncate => 154 | utimensat => 155
  | futimesat => 156 | utimes => 157 | utime => 158 | mknod => 159
  | mknodat => 160 | rename => 161 | renameat => 162 | renameat2 => 163
  | link => 164 | linkat => 165 | symlink => 166 | symlinkat => 167
  | setuid => 168 | setgid => 169 | setreuid => 170 | setregid => 171
  | setresuid => 172 | setresgid => 173 | setfsuid => 174 | setfsgid => 175
  | setgroups => 176 | landlock_create_ruleset => 177
  | landlock_add_rule => 178 | landlock_restrict_self => 179 | socket => 180
  | socketpair => 181 | listen => 182 | accept => 183 | accept4 => 184
  | getpeername => 185 | sendto => 186 | recvfrom => 187 | sendmsg => 188
  | recvmsg => 189 | setsockopt => 190 | getsockopt => 191 | shutdown => 192
  | bind => 193 | connect => 194 | prctl => 195 | getsockname => 196
  | capget => 197 | copy_file_range => 198 | fadvise64 => 199
  | getitimer => 200 | setitimer => 201 | timer_create => 202
  | timer_settime => 203 | timer_gettime => 204 | timer_getoverrun => 205
  | timer_delete => 206 | clock_settime => 207 | settimeofday => 208
  | close_range => 209 | fchmodat2 => 210 | seccomp => 211 | mlock => 212
  | munlock => 213 | mlockall => 214 | munlockall => 215 | mlock2 => 216
  | mincore => 217 | msync => 218 | sched_setaffinity => 219
  | sched_getparam => 220 | sched_setparam => 221 | sched_getscheduler => 222
  | sched_setscheduler => 223 | sched_get_priority_max => 224
  | sched_get_priority_min => 225 | getcpu => 226 | _sysctl => 227
  | add_key => 228 | adjtimex => 229 | afs_syscall => 230 | alarm => 231
  | bpf => 232 | cachestat => 233 | capset => 234 | clock_adjtime => 235
  | creat => 236 | create_module => 237 | delete_module => 238
  | epoll_create => 239 | epoll_ctl_old => 240 | epoll_pwait2 => 241
  | epoll_wait => 242 | epoll_wait_old => 243 | eventfd => 244
  | fallocate => 245 | fanotify_init => 246 | file_getattr => 247
  | file_setattr => 248 | finit_module => 249 | fspick => 250
  | futex_requeue => 251 | futex_wait => 252 | futex_waitv => 253
  | futex_wake => 254 | get_kernel_syms => 255 | get_mempolicy => 256
  | get_robust_list => 257 | get_thread_area => 258 | getdents => 259
  | getpmsg => 260 | getxattrat => 261 | init_module => 262
  | inotify_init => 263 | inotify_init1 => 264 | inotify_rm_watch => 265
  | io_cancel => 266 | io_destroy => 267 | io_getevents => 268
  | io_pgetevents => 269 | io_setup => 270 | io_submit => 271
  | io_uring_enter => 272 | io_uring_register => 273 | io_uring_setup => 274
  | ioperm => 275 | iopl => 276 | ioprio_get => 277 | ioprio_set => 278
  | kcmp => 279 | kexec_file_load => 280 | kexec_load => 281 | keyctl => 282
  | listns => 283 | listxattrat => 284 | lookup_dcookie => 285
  | lsm_get_self_attr => 286 | lsm_list_modules => 287
  | lsm_set_self_attr => 288 | map_shadow_stack => 289 | mbind => 290
  | memfd_create => 291 | memfd_secret => 292 | migrate_pages => 293
  | modify_ldt => 294 | move_pages => 295 | mq_getsetattr => 296
  | mq_notify => 297 | mq_open => 298 | mq_timedreceive => 299
  | mq_timedsend => 300 | mq_unlink => 301 | mseal => 302 | msgctl => 303
  | msgget => 304 | msgrcv => 305 | msgsnd => 306 | nfsservctl => 307
  | open_tree_attr => 308 | pause => 309 | perf_event_open => 310
  | personality => 311 | pidfd_getfd => 312 | pidfd_open => 313
  | pidfd_send_signal => 314 | pipe => 315 | pkey_alloc => 316
  | pkey_free => 317 | pkey_mprotect => 318 | poll => 319 | preadv => 320
  | preadv2 => 321 | process_madvise => 322 | process_mrelease => 323
  | process_vm_readv => 324 | process_vm_writev => 325 | ptrace => 326
  | putpmsg => 327 | pwritev => 328 | pwritev2 => 329 | query_module => 330
  | quotactl_fd => 331 | readahead => 332 | reboot => 333 | recvmmsg => 334
  | remap_file_pages => 335 | removexattrat => 336 | request_key => 337
  | restart_syscall => 338 | rseq_slice_yield => 339 | rt_sigqueueinfo => 340
  | rt_sigtimedwait => 341 | rt_tgsigqueueinfo => 342 | sched_getattr => 343
  | sched_rr_get_interval => 344 | sched_setattr => 345 | security => 346
  | select => 347 | semctl => 348 | semget => 349 | semop => 350
  | semtimedop => 351 | sendfile => 352 | sendmmsg => 353
  | set_mempolicy => 354 | set_mempolicy_home_node => 355
  | set_thread_area => 356 | setdomainname => 357 | sethostname => 358
  | setns => 359 | setxattrat => 360 | shmat => 361 | shmctl => 362
  | shmdt => 363 | shmget => 364 | signalfd => 365 | signalfd4 => 366
  | splice => 367 | sync_file_range => 368 | syncfs => 369 | sysfs => 370
  | syslog => 371 | tee => 372 | timerfd_create => 373
  | timerfd_gettime => 374 | timerfd_settime => 375 | tuxcall => 376
  | unshare => 377 | uselib => 378 | userfaultfd => 379 | vhangup => 380
  | vmsplice => 381 | vserver => 382 | waitid => 383
  end%nat.

(** The x86-64 half of [decode]. *)
Definition decode_x86_64 (nr : Z) : t :=
  match nr with
  | 0 => read | 1 => write | 2 => open | 3 => close | 4 => stat | 5 => fstat
  | 6 => lstat | 7 => poll | 8 => lseek | 9 => mmap | 10 => mprotect
  | 11 => munmap | 12 => brk | 13 => rt_sigaction | 14 => rt_sigprocmask
  | 15 => rt_sigreturn | 16 => ioctl | 17 => pread64 | 18 => pwrite64
  | 19 => readv | 20 => writev | 21 => access | 22 => pipe | 23 => select
  | 24 => sched_yield | 25 => mremap | 26 => msync | 27 => mincore
  | 28 => madvise | 29 => shmget | 30 => shmat | 31 => shmctl | 32 => dup
  | 33 => dup2 | 34 => pause | 35 => nanosleep | 36 => getitimer | 37 => alarm
  | 38 => setitimer | 39 => getpid | 40 => sendfile | 41 => socket
  | 42 => connect | 43 => accept | 44 => sendto | 45 => recvfrom
  | 46 => sendmsg | 47 => recvmsg | 48 => shutdown | 49 => bind | 50 => listen
  | 51 => getsockname | 52 => getpeername | 53 => socketpair
  | 54 => setsockopt | 55 => getsockopt | 56 => clone | 57 => fork
  | 58 => vfork | 59 => execve | 60 => exit | 61 => wait4 | 62 => kill
  | 63 => uname | 64 => semget | 65 => semop | 66 => semctl | 67 => shmdt
  | 68 => msgget | 69 => msgsnd | 70 => msgrcv | 71 => msgctl | 72 => fcntl
  | 73 => flock | 74 => fsync | 75 => fdatasync | 76 => truncate
  | 77 => ftruncate | 78 => getdents | 79 => getcwd | 80 => chdir
  | 81 => fchdir | 82 => rename | 83 => mkdir | 84 => rmdir | 85 => creat
  | 86 => link | 87 => unlink | 88 => symlink | 89 => readlink | 90 => chmod
  | 91 => fchmod | 92 => chown | 93 => fchown | 94 => lchown | 95 => umask
  | 96 => gettimeofday | 97 => getrlimit | 98 => getrusage | 99 => sysinfo
  | 100 => times | 101 => ptrace | 102 => getuid | 103 => syslog
  | 104 => getgid | 105 => setuid | 106 => setgid | 107 => geteuid
  | 108 => getegid | 109 => setpgid | 110 => getppid | 111 => getpgrp
  | 112 => setsid | 113 => setreuid | 114 => setregid | 115 => getgroups
  | 116 => setgroups | 117 => setresuid | 118 => getresuid | 119 => setresgid
  | 120 => getresgid | 121 => getpgid | 122 => setfsuid | 123 => setfsgid
  | 124 => getsid | 125 => capget | 126 => capset | 127 => rt_sigpending
  | 128 => rt_sigtimedwait | 129 => rt_sigqueueinfo | 130 => rt_sigsuspend
  | 131 => sigaltstack | 132 => utime | 133 => mknod | 134 => uselib
  | 135 => personality | 136 => ustat | 137 => statfs | 138 => fstatfs
  | 139 => sysfs | 140 => getpriority | 141 => setpriority
  | 142 => sched_setparam | 143 => sched_getparam | 144 => sched_setscheduler
  | 145 => sched_getscheduler | 146 => sched_get_priority_max
  | 147 => sched_get_priority_min | 148 => sched_rr_get_interval
  | 149 => mlock | 150 => munlock | 151 => mlockall | 152 => munlockall
  | 153 => vhangup | 154 => modify_ldt | 155 => pivot_root | 156 => _sysctl
  | 157 => prctl | 158 => arch_prctl | 159 => adjtimex | 160 => setrlimit
  | 161 => chroot | 162 => sync | 163 => acct | 164 => settimeofday
  | 165 => mount | 166 => umount2 | 167 => swapon | 168 => swapoff
  | 169 => reboot | 170 => sethostname | 171 => setdomainname | 172 => iopl
  | 173 => ioperm | 174 => create_module | 175 => init_module
  | 176 => delete_module | 177 => get_kernel_syms | 178 => query_module
  | 179 => quotactl | 180 => nfsservctl | 181 => getpmsg | 182 => putpmsg
  | 183 => afs_syscall | 184 => tuxcall | 185 => security | 186 => gettid
  | 187 => readahead | 188 => setxattr | 189 => lsetxattr | 190 => fsetxattr
  | 191 => getxattr | 192 => lgetxattr | 193 => fgetxattr | 194 => listxattr
  | 195 => llistxattr | 196 => flistxattr | 197 => removexattr
  | 198 => lremovexattr | 199 => fremovexattr | 200 => tkill | 201 => time
  | 202 => futex | 203 => sched_setaffinity | 204 => sched_getaffinity
  | 205 => set_thread_area | 206 => io_setup | 207 => io_destroy
  | 208 => io_getevents | 209 => io_submit | 210 => io_cancel
  | 211 => get_thread_area | 212 => lookup_dcookie | 213 => epoll_create
  | 214 => epoll_ctl_old | 215 => epoll_wait_old | 216 => remap_file_pages
  | 217 => getdents64 | 218 => set_tid_address | 219 => restart_syscall
  | 220 => semtimedop | 221 => fadvise64 | 222 => timer_create
  | 223 => timer_settime | 224 => timer_gettime | 225 => timer_getoverrun
  | 226 => timer_delete | 227 => clock_settime | 228 => clock_gettime
  | 229 => clock_getres | 230 => clock_nanosleep | 231 => exit_group
  | 232 => epoll_wait | 233 => epoll_ctl | 234 => tgkill | 235 => utimes
  | 236 => vserver | 237 => mbind | 238 => set_mempolicy
  | 239 => get_mempolicy | 240 => mq_open | 241 => mq_unlink
  | 242 => mq_timedsend | 243 => mq_timedreceive | 244 => mq_notify
  | 245 => mq_getsetattr | 246 => kexec_load | 247 => waitid | 248 => add_key
  | 249 => request_key | 250 => keyctl | 251 => ioprio_set | 252 => ioprio_get
  | 253 => inotify_init | 254 => inotify_add_watch | 255 => inotify_rm_watch
  | 256 => migrate_pages | 257 => openat | 258 => mkdirat | 259 => mknodat
  | 260 => fchownat | 261 => futimesat | 262 => newfstatat | 263 => unlinkat
  | 264 => renameat | 265 => linkat | 266 => symlinkat | 267 => readlinkat
  | 268 => fchmodat | 269 => faccessat | 270 => pselect6 | 271 => ppoll
  | 272 => unshare | 273 => set_robust_list | 274 => get_robust_list
  | 275 => splice | 276 => tee | 277 => sync_file_range | 278 => vmsplice
  | 279 => move_pages | 280 => utimensat | 281 => epoll_pwait
  | 282 => signalfd | 283 => timerfd_create | 284 => eventfd
  | 285 => fallocate | 286 => timerfd_settime | 287 => timerfd_gettime
  | 288 => accept4 | 289 => signalfd4 | 290 => eventfd2 | 291 => epoll_create1
  | 292 => dup3 | 293 => pipe2 | 294 => inotify_init1 | 295 => preadv
  | 296 => pwritev | 297 => rt_tgsigqueueinfo | 298 => perf_event_open
  | 299 => recvmmsg | 300 => fanotify_init | 301 => fanotify_mark
  | 302 => prlimit64 | 303 => name_to_handle_at | 304 => open_by_handle_at
  | 305 => clock_adjtime | 306 => syncfs | 307 => sendmmsg | 308 => setns
  | 309 => getcpu | 310 => process_vm_readv | 311 => process_vm_writev
  | 312 => kcmp | 313 => finit_module | 314 => sched_setattr
  | 315 => sched_getattr | 316 => renameat2 | 317 => seccomp
  | 318 => getrandom | 319 => memfd_create | 320 => kexec_file_load
  | 321 => bpf | 322 => execveat | 323 => userfaultfd | 324 => membarrier
  | 325 => mlock2 | 326 => copy_file_range | 327 => preadv2 | 328 => pwritev2
  | 329 => pkey_mprotect | 330 => pkey_alloc | 331 => pkey_free | 332 => statx
  | 333 => io_pgetevents | 334 => rseq | 424 => pidfd_send_signal
  | 425 => io_uring_setup | 426 => io_uring_enter | 427 => io_uring_register
  | 428 => open_tree | 429 => move_mount | 430 => fsopen | 431 => fsconfig
  | 432 => fsmount | 433 => fspick | 434 => pidfd_open | 435 => clone3
  | 436 => close_range | 437 => openat2 | 438 => pidfd_getfd
  | 439 => faccessat2 | 440 => process_madvise | 441 => epoll_pwait2
  | 442 => mount_setattr | 443 => quotactl_fd | 444 => landlock_create_ruleset
  | 445 => landlock_add_rule | 446 => landlock_restrict_self
  | 447 => memfd_secret | 448 => process_mrelease | 449 => futex_waitv
  | 450 => set_mempolicy_home_node | 451 => cachestat | 452 => fchmodat2
  | 453 => map_shadow_stack | 454 => futex_wake | 455 => futex_wait
  | 456 => futex_requeue | 457 => statmount | 458 => listmount
  | 459 => lsm_get_self_attr | 460 => lsm_set_self_attr
  | 461 => lsm_list_modules | 462 => mseal | 463 => setxattrat
  | 464 => getxattrat | 465 => listxattrat | 466 => removexattrat
  | 467 => open_tree_attr | 468 => file_getattr | 469 => file_setattr
  | 470 => listns | 471 => rseq_slice_yield
  | _ => unknown
  end.

(** The aarch64 half of [decode]. *)
Definition decode_aarch64 (nr : Z) : t :=
  match nr with
  | 0 => io_setup | 1 => io_destroy | 2 => io_submit | 3 => io_cancel
  | 4 => io_getevents | 5 => setxattr | 6 => lsetxattr | 7 => fsetxattr
  | 8 => getxattr | 9 => lgetxattr | 10 => fgetxattr | 11 => listxattr
  | 12 => llistxattr | 13 => flistxattr | 14 => removexattr
  | 15 => lremovexattr | 16 => fremovexattr | 17 => getcwd
  | 18 => lookup_dcookie | 19 => eventfd2 | 20 => epoll_create1
  | 21 => epoll_ctl | 22 => epoll_pwait | 23 => dup | 24 => dup3 | 25 => fcntl
  | 26 => inotify_init1 | 27 => inotify_add_watch | 28 => inotify_rm_watch
  | 29 => ioctl | 30 => ioprio_set | 31 => ioprio_get | 32 => flock
  | 33 => mknodat | 34 => mkdirat | 35 => unlinkat | 36 => symlinkat
  | 37 => linkat | 38 => renameat | 39 => umount2 | 40 => mount
  | 41 => pivot_root | 42 => nfsservctl | 43 => statfs | 44 => fstatfs
  | 45 => truncate | 46 => ftruncate | 47 => fallocate | 48 => faccessat
  | 49 => chdir | 50 => fchdir | 51 => chroot | 52 => fchmod | 53 => fchmodat
  | 54 => fchownat | 55 => fchown | 56 => openat | 57 => close | 58 => vhangup
  | 59 => pipe2 | 60 => quotactl | 61 => getdents64 | 62 => lseek | 63 => read
  | 64 => write | 65 => readv | 66 => writev | 67 => pread64 | 68 => pwrite64
  | 69 => preadv | 70 => pwritev | 71 => sendfile | 72 => pselect6
  | 73 => ppoll | 74 => signalfd4 | 75 => vmsplice | 76 => splice | 77 => tee
  | 78 => readlinkat | 79 => newfstatat | 80 => fstat | 81 => sync
  | 82 => fsync | 83 => fdatasync | 84 => sync_file_range
  | 85 => timerfd_create | 86 => timerfd_settime | 87 => timerfd_gettime
  | 88 => utimensat | 89 => acct | 90 => capget | 91 => capset
  | 92 => personality | 93 => exit | 94 => exit_group | 95 => waitid
  | 96 => set_tid_address | 97 => unshare | 98 => futex
  | 99 => set_robust_list | 100 => get_robust_list | 101 => nanosleep
  | 102 => getitimer | 103 => setitimer | 104 => kexec_load
  | 105 => init_module | 106 => delete_module | 107 => timer_create
  | 108 => timer_gettime | 109 => timer_getoverrun | 110 => timer_settime
  | 111 => timer_delete | 112 => clock_settime | 113 => clock_gettime
  | 114 => clock_getres | 115 => clock_nanosleep | 116 => syslog
  | 117 => ptrace | 118 => sched_setparam | 119 => sched_setscheduler
  | 120 => sched_getscheduler | 121 => sched_getparam
  | 122 => sched_setaffinity | 123 => sched_getaffinity | 124 => sched_yield
  | 125 => sched_get_priority_max | 126 => sched_get_priority_min
  | 127 => sched_rr_get_interval | 128 => restart_syscall | 129 => kill
  | 130 => tkill | 131 => tgkill | 132 => sigaltstack | 133 => rt_sigsuspend
  | 134 => rt_sigaction | 135 => rt_sigprocmask | 136 => rt_sigpending
  | 137 => rt_sigtimedwait | 138 => rt_sigqueueinfo | 139 => rt_sigreturn
  | 140 => setpriority | 141 => getpriority | 142 => reboot | 143 => setregid
  | 144 => setgid | 145 => setreuid | 146 => setuid | 147 => setresuid
  | 148 => getresuid | 149 => setresgid | 150 => getresgid | 151 => setfsuid
  | 152 => setfsgid | 153 => times | 154 => setpgid | 155 => getpgid
  | 156 => getsid | 157 => setsid | 158 => getgroups | 159 => setgroups
  | 160 => uname | 161 => sethostname | 162 => setdomainname
  | 163 => getrlimit | 164 => setrlimit | 165 => getrusage | 166 => umask
  | 167 => prctl | 168 => getcpu | 169 => gettimeofday | 170 => settimeofday
  | 171 => adjtimex | 172 => getpid | 173 => getppid | 174 => getuid
  | 175 => geteuid | 176 => getgid | 177 => getegid | 178 => gettid
  | 179 => sysinfo | 180 => mq_open | 181 => mq_unlink | 182 => mq_timedsend
  | 183 => mq_timedreceive | 184 => mq_notify | 185 => mq_getsetattr
  | 186 => msgget | 187 => msgctl | 188 => msgrcv | 189 => msgsnd
  | 190 => semget | 191 => semctl | 192 => semtimedop | 193 => semop
  | 194 => shmget | 195 => shmctl | 196 => shmat | 197 => shmdt
  | 198 => socket | 199 => socketpair | 200 => bind | 201 => listen
  | 202 => accept | 203 => connect | 204 => getsockname | 205 => getpeername
  | 206 => sendto | 207 => recvfrom | 208 => setsockopt | 209 => getsockopt
  | 210 => shutdown | 211 => sendmsg | 212 => recvmsg | 213 => readahead
  | 214 => brk | 215 => munmap | 216 => mremap | 217 => add_key
  | 218 => request_key | 219 => keyctl | 220 => clone | 221 => execve
  | 222 => mmap | 223 => fadvise64 | 224 => swapon | 225 => swapoff
  | 226 => mprotect | 227 => msync | 228 => mlock | 229 => munlock
  | 230 => mlockall | 231 => munlockall | 232 => mincore | 233 => madvise
  | 234 => remap_file_pages | 235 => mbind | 236 => get_mempolicy
  | 237 => set_mempolicy | 238 => migrate_pages | 239 => move_pages
  | 240 => rt_tgsigqueueinfo | 241 => perf_event_open | 242 => accept4
  | 243 => recvmmsg | 260 => wait4 | 261 => prlimit64 | 262 => fanotify_init
  | 263 => fanotify_mark | 264 => name_to_handle_at | 265 => open_by_handle_at
  | 266 => clock_adjtime | 267 => syncfs | 268 => setns | 269 => sendmmsg
  | 270 => process_vm_readv | 271 => process_vm_writev | 272 => kcmp
  | 273 => finit_module | 274 => sched_setattr | 275 => sched_getattr
  | 276 => renameat2 | 277 => seccomp | 278 => getrandom | 279 => memfd_create
  | 280 => bpf | 281 => execveat | 282 => userfaultfd | 283 => membarrier
  | 284 => mlock2 | 285 => copy_file_range | 286 => preadv2 | 287 => pwritev2
  | 288 => pkey_mprotect | 289 => pkey_alloc | 290 => pkey_free | 291 => statx
  | 292 => io_pgetevents | 293 => rseq | 294 => kexec_file_load
  | 424 => pidfd_send_signal | 425 => io_uring_setup | 426 => io_uring_enter
  | 427 => io_uring_register | 428 => open_tree | 429 => move_mount
  | 430 => fsopen | 431 => fsconfig | 432 => fsmount | 433 => fspick
  | 434 => pidfd_open | 435 => clone3 | 436 => close_range | 437 => openat2
  | 438 => pidfd_getfd | 439 => faccessat2 | 440 => process_madvise
  | 441 => epoll_pwait2 | 442 => mount_setattr | 443 => quotactl_fd
  | 444 => landlock_create_ruleset | 445 => landlock_add_rule
  | 446 => landlock_restrict_self | 447 => memfd_secret
  | 448 => process_mrelease | 449 => futex_waitv
  | 450 => set_mempolicy_home_node | 451 => cachestat | 452 => fchmodat2
  | 453 => map_shadow_stack | 454 => futex_wake | 455 => futex_wait
  | 456 => futex_requeue | 457 => statmount | 458 => listmount
  | 459 => lsm_get_self_attr | 460 => lsm_set_self_attr
  | 461 => lsm_list_modules | 462 => mseal | 463 => setxattrat
  | 464 => getxattrat | 465 => listxattrat | 466 => removexattrat
  | 467 => open_tree_attr | 468 => file_getattr | 469 => file_setattr
  | 470 => listns | 471 => rseq_slice_yield
  | _ => unknown
  end.

(** [decode]: from an arch-specific raw number to the canonical identity. *)
Definition decode (a : Arch) (nr : Z) : t :=
  match a with x86_64 => decode_x86_64 nr | aarch64 => decode_aarch64 nr end.

#[global] Instance Arch_eq_dec : EqDecision Arch.
Proof. solve_decision. Defined.

(** [all] lists the enumerators at their own index. *)
Lemma all_index (s : t) : all !! index s = Some s.
Proof. destruct s; reflexivity. Qed.

Lemma index_inj (s s' : t) : index s = index s' -> s = s'.
Proof. intros H. pose proof (all_index s) as E. rewrite H, all_index in E. congruence. Qed.

Lemma index_lt (s : t) : (index s < length all)%nat.
Proof. eapply lookup_lt_Some, all_index. Qed.

Lemma elem_of_all (s : t) : s ∈ all.
Proof. eapply list_elem_of_lookup_2, all_index. Qed.

#[global] Instance t_eq_dec : EqDecision t.
Proof.
  refine (fun s s' => match decide (index s = index s') with
                      | left H => left (index_inj s s' H)
                      | right H => right _ end).
  intros E. apply H. by rewrite E.
Defined.

(** A property of every enumerator can be evaluated over [all]. *)
Lemma forall_sysno (P : t -> Prop) : Forall P all -> forall s, P s.
Proof. rewrite Forall_forall. intros H s. apply H, elem_of_all. Qed.

(** Neither table assigns a number of 1024 or more. *)
Lemma decode_range (a : Arch) (n : Z) :
  decode a n <> unknown -> 0 <= n < 1024.
Proof.
  destruct n as [|p|p]; [lia| |by destruct a].
  intros H. split; [lia|].
  do 10 (destruct p as [p|p|]; [| |lia]);
    exfalso; apply H; destruct a; reflexivity.
Qed.

End Sysno.
