(* ===== verification/Abi.v ===== *)
(** The typed edges of the guest ABI.

    - [Errno] and the kernel encoding of a result ([abi/result.hpp]);
    - the [*at] and [open] flag words ([abi/wire/at_flags.hpp],
      [abi/wire/open_flags.hpp]);
    - the fates a dispatched syscall can have ([abi/outcome.hpp]);
    - the identity calls answered in one place ([abi/identity.hpp]).

    Flag words and register values are 64-bit words in [Z]; a C++ variant is
    an inductive type with one constructor per alternative. *)

From S2P Require Import Prelude Sysno.
Import Sysno.

Module Abi.

(** * [abi/result.hpp] *)

Inductive Errno :=
| ok | eperm | enoent | esrch | eintr | eio | enxio | e2big | enoexec | ebadf
| echild | eagain | enomem | eacces | efault | ebusy | eexist | exdev | enodev
| enotdir | eisdir | einval | enfile | emfile | enotty | efbig | enospc | espipe
| erofs | emlink | epipe | erange | enosys | enotempty | eloop | enametoolong
| enotsup | eprotonosupport | econnrefused | etimedout | eaddrinuse.

Definition errno_value (e : Errno) : Z :=
  match e with
  | ok => 0 | eperm => 1 | enoent => 2 | esrch => 3 | eintr => 4
  | eio => 5 | enxio => 6 | e2big => 7 | enoexec => 8
  | ebadf => 9 | echild => 10 | eagain => 11 | enomem => 12
  | eacces => 13 | efault => 14 | ebusy => 16 | eexist => 17
  | exdev => 18 | enodev => 19 | enotdir => 20 | eisdir => 21
  | einval => 22 | enfile => 23 | emfile => 24 | enotty => 25
  | efbig => 27 | enospc => 28 | espipe => 29 | erofs => 30
  | emlink => 31 | epipe => 32 | erange => 34 | enosys => 38
  | enotempty => 39 | eloop => 40 | enametoolong => 36
  | enotsup => 95 | eprotonosupport => 93
  | econnrefused => 111 | etimedout => 110 | eaddrinuse => 98
  end.

(** [Result<T>] = [std::expected<T, Errno>]. *)
Definition Result (A : Type) : Type := (A + Errno)%type.

(** [to_kernel] at an integral payload: the register the guest observes. *)
Definition to_kernel (r : Result Z) : Z :=
  match r with inl v => v | inr e => - errno_value e end.

(** [errno_from_host] in [abi/wire/errno_map.hpp], on a Linux host: the
    constants of [<cerrno>] are the Linux numbers. *)
Definition errno_from_host (e : Z) : Errno :=
  match e with
  | 0 => ok | 1 => eperm | 2 => enoent | 3 => esrch | 4 => eintr | 5 => eio | 6 => enxio | 7 => e2big
  | 8 => enoexec | 9 => ebadf | 10 => echild | 11 => eagain | 12 => enomem | 13 => eacces | 14 => efault
  | 16 => ebusy | 17 => eexist | 18 => exdev | 19 => enodev | 20 => enotdir | 21 => eisdir | 22 => einval
  | 23 => enfile | 24 => emfile | 25 => enotty | 27 => efbig | 28 => enospc | 29 => espipe | 30 => erofs
  | 31 => emlink | 32 => epipe | 34 => erange | 36 => enametoolong | 38 => enosys | 39 => enotempty
  | 40 => eloop | 111 => econnrefused | 110 => etimedout | 98 => eaddrinuse | 93 => eprotonosupport
  | 95 => enotsup
  | _ => eio
  end.

#[global] Instance Errno_eq_dec : EqDecision Errno.
Proof. solve_decision. Defined.

(** * [abi/wire/at_flags.hpp] *)

Definition kAtFdCwd : Z := -100.

Inductive AtFlag :=
  symlink_nofollow | removedir | eaccess | symlink_follow | no_automount | empty_path.

Definition at_bits (f : AtFlag) : Z :=
  match f with
  | symlink_nofollow => 0x100 | removedir => 0x200 | eaccess => 0x200
  | symlink_follow => 0x400 | no_automount => 0x800 | empty_path => 0x1000
  end.

Definition has_at (flags : Z) (f : AtFlag) : bool :=
  negb (Z.land flags (at_bits f) =? 0).

Definition is_cwd_fd (dirfd : Z) : bool := dirfd =? kAtFdCwd.

(** * [abi/wire/open_flags.hpp] *)

Inductive OpenFlag :=
  rdonly | wronly | rdwr | o_creat | excl | noctty | trunc | append | nonblock
| directio | directory | nofollow | noatime | cloexec | path | tmpfile.

Definition open_bits (f : OpenFlag) : Z :=
  match f with
  | rdonly => 0 | wronly => 0x1 | rdwr => 0x2 | o_creat => 0x40 | excl => 0x80
  | noctty => 0x100 | trunc => 0x200 | append => 0x400 | nonblock => 0x800
  | directio => 0x4000 | directory => 0x10000 | nofollow => 0x20000
  | noatime => 0x40000 | cloexec => 0x80000 | path => 0x200000 | tmpfile => 0x410000
  end.

Definition open_has (flags : Z) (f : OpenFlag) : bool :=
  negb (Z.land flags (open_bits f) =? 0).

Definition open_flag_for (a : Arch) (f : OpenFlag) : Z :=
  match a with
  | x86_64 => open_bits f
  | aarch64 =>
      match f with
      | directory => 16384 | nofollow => 32768 | directio => 65536
      | tmpfile => 4210688 | _ => open_bits f
      end
  end.

Definition has_for (a : Arch) (flags : Z) (f : OpenFlag) : bool :=
  negb (Z.land flags (open_flag_for a f) =? 0).

Definition kAccessMask : Z := 3.

Definition writable (flags : Z) : bool :=
  let acc := Z.land flags kAccessMask in
  (acc =? open_bits wronly) || (acc =? open_bits rdwr)
  || open_has flags o_creat || open_has flags trunc.

(** * [abi/outcome.hpp] *)

Inductive ScrubLayout := scrub_stat | scrub_statx.

Record Scrub := { layout : ScrubLayout; scrub_buf : Z; scrub_guest_path : str }.

Record PathArg := { pa_arg : Z; pa_host_path : str; rewrites : bool }.

(** The two constructors of [PathArg]. *)
Definition path_arg (a : Z) (hp : str) : PathArg :=
  {| pa_arg := a; pa_host_path := hp; rewrites := true |}.
Definition path_arg_from (a : Z) (hp guest_path : str) : PathArg :=
  {| pa_arg := a; pa_host_path := hp; rewrites := bool_decide (hp <> guest_path) |}.

Record DupMirror := { dup_from : Z; close_first : Z }.

Record Virtualize := { ret : Z; mirror_host : bool; retry_ns : Z }.

Definition virtualize (v : Z) : Virtualize :=
  {| ret := v; mirror_host := false; retry_ns := 0 |}.
Definition retry_after (ns : Z) : Virtualize :=
  {| ret := 0; mirror_host := false; retry_ns := ns |}.
Definition mirrored (v : Z) : Virtualize :=
  {| ret := v; mirror_host := true; retry_ns := 0 |}.
Definition fail (e : Errno) : Virtualize := virtualize (- errno_value e).

Record Redirect := {
  first : PathArg; second : option PathArg; make_parents : bool; may_block : bool;
  force_ret : option Z; scrub : option Scrub
}.

Definition redirect (p : PathArg) : Redirect :=
  {| first := p; second := None; make_parents := false; may_block := false;
     force_ret := None; scrub := None |}.
Definition target_only (p : PathArg) : Redirect :=
  {| first := path_arg (-1) []; second := Some p; make_parents := false;
     may_block := false; force_ret := None; scrub := None |}.
Definition with_scrub (r : Redirect) (s : Scrub) : Redirect :=
  {| first := first r; second := second r; make_parents := make_parents r;
     may_block := may_block r; force_ret := force_ret r; scrub := Some s |}.
Definition with_path (r : Redirect) (p : PathArg) : Redirect :=
  {| first := first r; second := Some p; make_parents := make_parents r;
     may_block := may_block r; force_ret := force_ret r; scrub := scrub r |}.
Definition parents (r : Redirect) : Redirect :=
  {| first := first r; second := second r; make_parents := true;
     may_block := may_block r; force_ret := force_ret r; scrub := scrub r |}.

Definition is_noop (r : Redirect) : bool :=
  negb (bool_decide (is_Some (second r))) && negb (make_parents r)
  && negb (bool_decide (is_Some (scrub r))) && negb (bool_decide (is_Some (force_ret r)))
  && (0 <=? pa_arg (first r)) && negb (rewrites (first r)).

Record Inject := { inj_path_arg : Z; content : list Z; is_dir : bool }.

Record Raise := { guest_pid : Z; signum : Z; members : list Z; grouped : bool }.

Record ExecInterp := {
  exec_path_arg : Z; interp_host : str; prog_guest : str;
  exec_prefix : list str; extra_args : list str
}.

Record SockRewrite := { path_addr : Z; sock_host_path : str; len_arg : Z; new_len : Z }.

Inductive Convert := convert_none | termios_to_termios2.

Record ArgRewrite := { rw_arg : Z; rw_to : Z; convert : Convert; rw_buf : Z }.

(** [Fate], the variant; [Exited] carries the exit code. *)
Inductive Fate :=
| FVirtualize (v : Virtualize)
| FForward (mirror : option DupMirror)
| FRedirect (r : Redirect)
| FInject (i : Inject)
| FRaise (r : Raise)
| FExecInterp (e : ExecInterp)
| FSockRewrite (s : SockRewrite)
| FArgRewrite (a : ArgRewrite)
| FExited (code : Z).

(** [Outcome]'s named constructors. *)
Definition value (v : Z) : Fate := FVirtualize (virtualize v).
Definition error (e : Errno) : Fate := FVirtualize (fail e).
Definition forward : Fate := FForward None.
Definition raise_at (pid sig : Z) : Fate :=
  FRaise {| guest_pid := pid; signum := sig; members := []; grouped := false |}.
Definition raise_group (pid sig : Z) (m : list Z) : Fate :=
  FRaise {| guest_pid := pid; signum := sig; members := m; grouped := true |}.

(** * [abi/identity.hpp] *)

Record TaskIdentity := { pid : Z; tid : Z; ppid : Z }.

Definition identity_answer (sc : Sysno.t) (i : TaskIdentity) : option Z :=
  match sc with
  | getpid => Some (pid i)
  | gettid => Some (tid i)
  | getppid => Some (ppid i)
  | getuid | geteuid | getgid | getegid => Some 0
  | _ => None
  end.

End Abi.
