(* ===== verification/SeccompArch.v ===== *)
(** The per-arch facts the seccomp filter needs
    ([include/linuxity/runtime/linux/seccomp_arch.hpp], and [arch_has] of
    [include/linuxity/conform/arch.hpp]).

    The trapped set is written once, as x86-64 numbers; the aarch64 numbers
    are derived from it by inverting the decode table.  [invert] is the C++
    loop, a fold over the numbers 0..1023 on a 512-entry array; the lemmas
    show that it computes the least number that decodes to each identity. *)

From S2P Require Import Prelude Sysno.
Import Sysno.

Module SeccompArch.

Definition AUDIT_ARCH_X86_64 : Z := 0xC000003E.
Definition AUDIT_ARCH_AARCH64 : Z := 0xC00000B7.

Definition seccomp_audit_arch (a : Arch) : Z :=
  if decide (a = aarch64) then AUDIT_ARCH_AARCH64 else AUDIT_ARCH_X86_64.

Definition has_x32_personality (a : Arch) : bool := bool_decide (a = x86_64).

Definition kMaxSysno : nat := 1024.
Definition kSysnoCount : nat := 512.
(** [~std::uint64_t{0}]. *)
Definition kNoSysno : Z := 2 ^ 64 - 1.

(** [struct SysnoTable]: the array [nr], of [kSysnoCount] entries. *)
Record SysnoTable := { nr : list Z }.

(** One iteration of [invert]'s second loop. *)
Definition invert_step (a : Arch) (t : list Z) (n : Z) : list Z :=
  let s := index (decode a n) in
  if bool_decide (s <> 0%nat) && bool_decide (s < kSysnoCount)%nat
     && bool_decide (t !! s = Some kNoSysno)
  then <[s := n]> t else t.

Definition invert (a : Arch) : SysnoTable :=
  {| nr := fold_left (invert_step a) (seqZ 0 (Z.of_nat kMaxSysno))
             (replicate kSysnoCount kNoSysno) |}.

(** [t.nr[i]] for an index below [kSysnoCount]. *)
Definition at_index (t : SysnoTable) (i : nat) : Z := default 0 (nr t !! i).

Definition encode (a : Arch) (s : Sysno.t) : Z :=
  let i := index s in
  if bool_decide (i = 0%nat) || bool_decide (kSysnoCount <= i)%nat then kNoSysno
  else at_index (invert a) i.

Definition trapped_for (a : Arch) (x86_64_numbers : list Z) : list Z :=
  match a with
  | x86_64 => map u64 x86_64_numbers
  | aarch64 =>
      let target := invert a in
      map (fun x => let s := index (decode x86_64 (u64 x)) in
                    if bool_decide (s = 0%nat) || bool_decide (kSysnoCount <= s)%nat
                    then kNoSysno else at_index target s)
          x86_64_numbers
  end.

Definition max_sysno_index (a : Arch) : nat :=
  fold_left (fun hi n => let s := index (decode a n) in
                         if (hi <? s)%nat then s else hi)
            (seqZ 0 (Z.of_nat kMaxSysno)) 0%nat.

(** [conform::arch_has]. *)
Definition arch_has (a : Arch) (s : Sysno.t) : bool :=
  if bool_decide (s = unknown) then false
  else existsb (fun n => bool_decide (decode a n = s)) (seqZ 0 600).

(** No table assigns a number in 600..1023. *)
Lemma decode_below_600 a n : decode a n <> unknown -> n < 600.
Proof.
  intros H. destruct (Z.lt_ge_cases n 600) as [|Hge]; [done|exfalso].
  pose proof (decode_range a n H) as R.
  assert (F : forallb (fun n => bool_decide (decode a n = unknown)) (seqZ 600 424) = true)
    by (destruct a; vm_compute; reflexivity).
  rewrite forallb_forall in F. apply H. eapply bool_decide_eq_true_1, F.
  apply list_elem_of_In, elem_of_seqZ. lia.
Qed.

(** * The inversion loop *)

(** What the table holds after the numbers below [k] have been visited. *)
Definition inverted_upto (a : Arch) (k : Z) (t : list Z) : Prop :=
  length t = kSysnoCount /\
  forall s, s <> unknown ->
    (t !! index s = Some kNoSysno /\ (forall n, 0 <= n < k -> decode a n <> s)) \/
    (exists n, t !! index s = Some n /\ 0 <= n < k /\ decode a n = s /\
               forall m, decode a m = s -> n <= m).

Lemma index_0 (s : Sysno.t) : index s = 0%nat <-> s = unknown.
Proof.
  split; [|by intros ->].
  intros H. apply index_inj. by rewrite H.
Qed.

Lemma index_lt_count (s : Sysno.t) : (index s < kSysnoCount)%nat.
Proof.
  pose proof (index_lt s) as H.
  assert (E : length all = 384%nat) by reflexivity. unfold kSysnoCount. lia.
Qed.

Lemma invert_step_upto a k t :
  0 <= k < Z.of_nat kMaxSysno ->
  inverted_upto a k t -> inverted_upto a (k + 1) (invert_step a t k).
Proof.
  intros Hk [Hlen Ht].
  assert (Hmax : k < kNoSysno) by (unfold kMaxSysno, kNoSysno in *; lia).
  unfold invert_step.
  destruct (bool_decide (index (decode a k) <> 0%nat)) eqn:E0; simpl;
  [rewrite (bool_decide_eq_true_2 _ (index_lt_count (decode a k))); simpl;
   destruct (bool_decide (t !! index (decode a k) = Some kNoSysno)) eqn:E1|].
  - apply bool_decide_eq_true in E0, E1. split; [by rewrite length_insert|].
    intros s Hs. destruct (decide (s = decode a k)) as [->|Hne].
    + right. exists k.
      rewrite list_lookup_insert_eq by (rewrite Hlen; apply index_lt_count).
      split_and!; [done|lia|lia|done|].
      intros m Hm. destruct (Z.le_gt_cases k m) as [|Hlt]; [done|exfalso].
      destruct (Ht _ Hs) as [[_ Hno]|(n & Hn & Hlo & _ & _)].
      * apply (Hno m); [|done].
        pose proof (decode_range a m) as R. rewrite Hm in R. specialize (R Hs). lia.
      * rewrite E1 in Hn. simplify_eq. unfold kMaxSysno in Hk. lia.
    + rewrite list_lookup_insert_ne by (intros E; apply Hne; by apply index_inj).
      destruct (Ht s Hs) as [[H1 H2]|(n & H1 & H2 & H3 & H4)].
      * left. split; [done|]. intros n Hn.
        destruct (decide (n = k)) as [->|]; [congruence|apply H2; lia].
      * right. exists n. split_and!; try done; lia.
  - apply bool_decide_eq_true in E0. apply bool_decide_eq_false in E1.
    split; [done|]. intros s Hs.
    destruct (Ht s Hs) as [[H1 H2]|(n & H1 & H2 & H3 & H4)];
      [left|right; exists n; split_and!; try done; lia].
    split; [done|]. intros n Hn.
    destruct (decide (n = k)) as [->|]; [congruence|apply H2; lia].
  - apply bool_decide_eq_false, dec_stable, index_0 in E0.
    split; [done|]. intros s Hs.
    destruct (Ht s Hs) as [[H1 H2]|(n & H1 & H2 & H3 & H4)];
      [left|right; exists n; split_and!; try done; lia].
    split; [done|]. intros n Hn.
    destruct (decide (n = k)) as [->|]; [congruence|apply H2; lia].
Qed.

Lemma invert_loop_upto a (m : nat) :
  (m <= kMaxSysno)%nat ->
  inverted_upto a (Z.of_nat m)
    (fold_left (invert_step a) (seqZ 0 (Z.of_nat m)) (replicate kSysnoCount kNoSysno)).
Proof.
  induction m as [|m IH]; intros Hm.
  - split; [done|]. intros s _. left. split; [|lia].
    apply lookup_replicate_2, index_lt_count.
  - rewrite seqZ_S, fold_left_app, Nat2Z.inj_succ. simpl.
    apply invert_step_upto; [lia|apply IH; lia].
Qed.

Lemma invert_table a : inverted_upto a (Z.of_nat kMaxSysno) (nr (invert a)).
Proof. by apply invert_loop_upto. Qed.

Lemma encode_table a s :
  s <> unknown -> nr (invert a) !! index s = Some (encode a s).
Proof.
  intros Hs. unfold encode.
  rewrite bool_decide_eq_false_2 by (by rewrite index_0).
  rewrite bool_decide_eq_false_2 by (pose proof (index_lt_count s); lia).
  cbn [orb]. unfold at_index. destruct (invert_table a) as [Hlen _].
  destruct (lookup_lt_is_Some_2 (nr (invert a)) (index s)) as [n Hn].
  { rewrite Hlen. apply index_lt_count. }
  by rewrite Hn.
Qed.

Lemma encode_cases a s :
  s <> unknown ->
  (encode a s = kNoSysno /\ (forall n, decode a n <> s)) \/
  (0 <= encode a s < 1024 /\ decode a (encode a s) = s /\
   forall m, decode a m = s -> encode a s <= m).
Proof.
  intros Hs. destruct (invert_table a) as [_ Ht].
  destruct (Ht s Hs) as [[H1 H2]|(n & H1 & H2 & H3 & H4)];
    rewrite encode_table in H1 by done; simplify_eq; [left|right].
  - split; [done|]. intros n E. apply (H2 n); [|done].
    apply (decode_range a). congruence.
  - rewrite H1. split_and!; try done; unfold kMaxSysno in H2; lia.
Qed.

Lemma arch_has_spec a s :
  arch_has a s = true <-> s <> unknown /\ exists n, 0 <= n < 600 /\ decode a n = s.
Proof.
  unfold arch_has. case_bool_decide as E; [naive_solver|].
  rewrite existsb_exists. split.
  - intros (n & Hn & H). apply bool_decide_eq_true in H.
    apply list_elem_of_In, elem_of_seqZ in Hn. split; [done|]. exists n. split; [lia|done].
  - intros (_ & n & Hn & H). exists n. split; [|by apply bool_decide_eq_true].
    apply list_elem_of_In, elem_of_seqZ. lia.
Qed.

(** * Properties *)

(** [encode] is the inverse of [decode] on both ABIs: for every named
    syscall it returns the least number that decodes to it, below 1024, and
    [kNoSysno] exactly when no number of the ABI decodes to it (so an entry
    dropped from the aarch64 trap list is a syscall that cannot be issued
    there). *)
Theorem encode_inverts_decode (a : Arch) (s : Sysno.t) :
  s <> unknown ->
  (encode a s = kNoSysno <-> forall n, decode a n <> s) /\
  (encode a s <> kNoSysno ->
     0 <= encode a s < 1024 /\ decode a (encode a s) = s /\
     forall m, decode a m = s -> encode a s <= m).
Proof.
  intros Hs. destruct (encode_cases a s Hs) as [[H1 H2]|(H1 & H2 & H3)]; [naive_solver|].
  split; [|done]. split; [unfold kNoSysno in *; lia|naive_solver].
Qed.

Lemma encode_inverts_decode_witness :
  openat <> unknown /\ encode aarch64 openat = 56 /\
  (encode aarch64 openat <> kNoSysno ->
     0 <= encode aarch64 openat < 1024 /\ decode aarch64 (encode aarch64 openat) = openat /\
     forall m, decode aarch64 m = openat -> encode aarch64 openat <= m).
Proof.
  split; [discriminate|]. split; [vm_compute; reflexivity|].
  apply (encode_inverts_decode aarch64 openat). discriminate.
Defined.

(** [arch_has] decides whether an ABI has a syscall at all: its bounded
    search agrees with [encode] (it bounds the search by 600, [encode] by
    1024, and no table entry lies between). *)
Theorem arch_has_encode (a : Arch) (s : Sysno.t) :
  arch_has a s = true <-> encode a s <> kNoSysno.
Proof.
  destruct (decide (s = unknown)) as [->|Hs]; [by destruct a|].
  rewrite arch_has_spec. destruct (encode_cases a s Hs) as [[H1 H2]|(H1 & H2 & H3)].
  - naive_solver.
  - split; [unfold kNoSysno in *; lia|]. intros _. split; [done|].
    exists (encode a s). split; [|done].
    assert (L : 0 <= encode a s < 600); [|lia].
    split; [lia|]. apply (decode_below_600 a). by rewrite H2.
Qed.

End SeccompArch.
