(* ===== verification/Dispatch.v ===== *)
(** The switch of [Syscalls::dispatch] ([include/linuxity/abi/syscall.hpp]).

    [route] is the switch itself: a case that answers from the registers
    alone is given by its fate, and a case that calls a handler is given by
    the handler with the arguments the case passes (defaulted arguments
    written out).  A default label and a case whose body is [return fwd();]
    are both the fate [forward]. *)

From S2P Require Import Prelude Sysno Abi.
Import Sysno Abi.

Module Dispatch.

(** [struct Regs]: six argument registers and the syscall number. *)
Record Regs := { args : list Z; regs_nr : Z }.

Definition arg (r : Regs) (i : nat) : Z := default 0 (args r !! i).

(** [FileNamespace::WriteIntent]. *)
Inductive WriteIntent := copy_leaf | parents_only | remove.

(** The handler a case calls.  [h_*] are the cases whose body is written in
    the switch and reads state the dispatcher does not own. *)
Inductive handler :=
| h_kill | h_identity (sc : Sysno.t) | h_set_tid_address
| h_getpgrp | h_getpgid | h_getsid | h_setpgid | h_setsid
| h_lseek | h_fxattr | h_mount | h_umount2 | h_prctl
| do_getres | do_uname (buf : Z) | do_sysinfo (buf : Z) | do_sched_getaffinity
| path_open (path_arg : nat) (at_ : bool)
| path_open_flags (path_arg : nat) (at_ : bool) (flags : Z)
| path_openat2
| path_stat (path_arg : nat) (at_ follow : bool) | path_statx
| path_at (path_arg : nat) (at_ : bool)
| do_chdir | do_fchdir | do_chroot | do_getcwd
| do_readlink (path_arg : nat) (at_ : bool)
| do_getdents64 | path_statfs | do_fstatfs | do_socket
| path_xattr (for_write follow : bool) (path_arg : nat) (at_ : bool)
| path_watch (path_arg : nat) (at_ : bool)
| path_exec (path_arg : nat)
| do_close | do_dup | do_dup2 | do_fcntl
| path_mut (path_arg : nat) (at_ : bool) (wi : WriteIntent) (strict_parent rmdir_syscall : bool)
| do_chmod (path_arg : nat) (at_ : bool) (wi : WriteIntent) (with_flags : bool) | do_fchmod
| do_chown (path_arg uid_arg gid_arg : nat) (at_ follow : bool) | do_fchown
| do_utimes (path_arg : nat) (at_ : bool) (flags_arg : Z)
| path_mut2 (a1 a2 : nat) (at_ at2 move_meta : bool) (link_flags_arg rename_flags_arg : Z)
| path_symlink (target_arg link_arg : nat) (at_ : bool)
| do_setgroups | do_getgroups
| do_sockaddr_un (for_bind : bool)
| do_ioctl.

(** What a case does: answer with a fate, or call a handler. *)
Inductive action := Answer (f : Fate) | Call (h : handler).

(** The [lookup-flag] argument of the [*xattrat] and [*at] cases. *)
Definition follows (r : Regs) (i : nat) : bool := negb (has_at (arg r i) symlink_nofollow).

Definition do_tkill (r : Regs) : Fate :=
  let tid := i32 (arg r 0) in
  if tid <=? 0 then error einval else raise_at tid (i32 (arg r 1)).

Definition do_tgkill (r : Regs) : Fate :=
  let tgid := i32 (arg r 0) in
  let tid := i32 (arg r 1) in
  if (tgid <=? 0) || (tid <=? 0) then error einval else raise_at tid (i32 (arg r 2)).

Definition do_priority (r : Regs) : Fate :=
  if 2 <? arg r 0 then error einval else value 0.

Definition do_landlock_add_rule (r : Regs) : Fate :=
  if arg r 2 =? 0 then error efault
  else if negb (arg r 1 =? 1) && negb (arg r 1 =? 2) then error einval
  else value 0.

Definition route (r : Regs) (sc : Sysno.t) : action :=
  match sc with
  | exit | exit_group => Answer forward
  | kill => Call h_kill
  | tkill => Answer (do_tkill r)
  | tgkill => Answer (do_tgkill r)
  | getpid | gettid | getppid | getuid | geteuid | getgid | getegid => Call (h_identity sc)
  | getresuid | getresgid => Call do_getres
  | set_tid_address => Call h_set_tid_address
  | rt_sigaction | rt_sigprocmask | rt_sigpending | rt_sigsuspend | rt_sigreturn
  | sigaltstack => Answer forward
  | uname => Call (do_uname (arg r 0))
  | getpgrp => Call h_getpgrp
  | getpgid => Call h_getpgid
  | getsid => Call h_getsid
  | setpgid => Call h_setpgid
  | setsid => Call h_setsid
  | getpriority | setpriority => Answer (do_priority r)
  | sysinfo => Call (do_sysinfo (arg r 0))
  | sched_getaffinity => Call do_sched_getaffinity
  | open => Call (path_open 0 false)
  | openat => Call (path_open 1 true)
  | creat => Call (path_open_flags 0 false
                     (Z.lor (Z.lor (open_bits o_creat) (open_bits wronly)) (open_bits trunc)))
  | openat2 => Call path_openat2
  | stat => Call (path_stat 0 false true)
  | lstat => Call (path_stat 0 false false)
  | access => Call (path_at 0 false)
  | chdir => Call do_chdir
  | newfstatat => Call (path_stat 1 true (follows r 3))
  | statx => Call path_statx
  | faccessat | faccessat2 => Call (path_at 1 true)
  | readlink => Call (do_readlink 0 false)
  | readlinkat => Call (do_readlink 1 true)
  | getcwd => Call do_getcwd
  | getdents64 => Call do_getdents64
  | lseek => Call h_lseek
  | statfs => Call path_statfs
  | fstatfs => Call do_fstatfs
  | socket => Call do_socket
  | chroot => Call do_chroot
  | getxattr | listxattr => Call (path_xattr false true 0 false)
  | lgetxattr | llistxattr => Call (path_xattr false false 0 false)
  | setxattr | removexattr => Call (path_xattr true true 0 false)
  | lsetxattr | lremovexattr => Call (path_xattr true false 0 false)
  | getxattrat | listxattrat => Call (path_xattr false (follows r 2) 1 true)
  | setxattrat | removexattrat => Call (path_xattr true (follows r 2) 1 true)
  | fgetxattr | flistxattr => Answer forward
  | fsetxattr | fremovexattr => Call h_fxattr
  | inotify_add_watch => Call (path_watch 1 false)
  | fanotify_mark => Call (path_watch 4 true)
  | name_to_handle_at | open_by_handle_at => Answer (error enotsup)
  | fsopen | fsconfig | fsmount | move_mount | open_tree | mount_setattr | statmount
  | listmount | fspick | open_tree_attr | file_getattr | file_setattr | listns =>
      Answer (error enosys)
  | mount => Call h_mount
  | umount2 => Call h_umount2
  | pivot_root | swapon | swapoff | acct => Answer (error eperm)
  | quotactl | ustat => Answer (error enosys)
  | execve => Call (path_exec 0)
  | execveat => Call (path_exec 1)
  | close => Call do_close
  | dup => Call do_dup
  | dup2 | dup3 => Call do_dup2
  | fcntl => Call do_fcntl
  | mkdir => Call (path_mut 0 false parents_only true false)
  | mkdirat => Call (path_mut 1 true parents_only true false)
  | mknod => Call (path_mut 0 false parents_only true false)
  | mknodat => Call (path_mut 1 true parents_only true false)
  | rmdir => Call (path_mut 0 false remove false true)
  | unlink => Call (path_mut 0 false remove false false)
  | unlinkat => Call (path_mut 1 true remove false false)
  | chmod => Call (do_chmod 0 false copy_leaf false)
  | fchmodat => Call (do_chmod 1 true copy_leaf false)
  | fchmodat2 => Call (do_chmod 1 true copy_leaf true)
  | chown => Call (do_chown 0 1 2 false true)
  | lchown => Call (do_chown 0 1 2 false false)
  | fchownat => Call (do_chown 1 2 3 true (follows r 4))
  | fchown => Call do_fchown
  | truncate => Call (path_mut 0 false copy_leaf false false)
  | utimes | utime => Call (do_utimes 0 false (-1))
  | utimensat => Call (do_utimes 1 true 3)
  | futimesat => Call (do_utimes 1 true (-1))
  | fchmod => Call do_fchmod
  | ftruncate => Answer forward
  | fchdir => Call do_fchdir
  | rename => Call (path_mut2 0 1 false false true (-1) (-1))
  | renameat => Call (path_mut2 1 3 true true true (-1) (-1))
  | renameat2 => Call (path_mut2 1 3 true true true (-1) 4)
  | link => Call (path_mut2 0 1 false false false (-1) (-1))
  | linkat => Call (path_mut2 1 3 true true false 4 (-1))
  | symlink => Call (path_symlink 0 1 false)
  | symlinkat => Call (path_symlink 0 2 true)
  | setuid | setgid | setreuid | setregid | setresuid | setresgid | setfsuid | setfsgid =>
      Answer (value 0)
  | setgroups => Call do_setgroups
  | getgroups => Call do_getgroups
  | landlock_create_ruleset =>
      Answer (value (if negb (Z.land (arg r 2) 1 =? 0) then 1 else 3))
  | landlock_add_rule => Answer (do_landlock_add_rule r)
  | landlock_restrict_self => Answer (value 0)
  | bind => Call (do_sockaddr_un true)
  | connect => Call (do_sockaddr_un false)
  | prctl => Call h_prctl
  | ioctl => Call do_ioctl
  | _ => Answer forward
  end.

(** A syscall whose case only forwards runs natively either way. *)
Definition forwards (a : action) : bool :=
  match a with Answer (FForward None) => true | _ => false end.

(** Whether a syscall's case can do anything else does not depend on the
    registers. *)
Lemma forwards_regs (r r' : Regs) (s : Sysno.t) :
  forwards (route r s) = forwards (route r' s).
Proof.
  destruct s; try reflexivity; cbn;
    unfold do_tkill, do_tgkill, do_priority, do_landlock_add_rule;
    repeat case_match; simplify_eq/=; done.
Qed.

End Dispatch.
