(* ===== verification/SeccompFilter.v ===== *)
(** The seccomp trap filter ([include/linuxity/runtime/linux/seccomp_filter.hpp]).

    [build_filter] is the classic-BPF program [install_trap_filter] assembles,
    jump offsets truncated to eight bits as the [std::uint8_t] casts do, and
    [install_trap_filter] is the sequence of host calls around it.

    The machine that runs the program is the host kernel's.  It is the class
    [ClassicBPF]: a run function and the documented meaning of the five
    instructions the program uses.  [interp] is one machine that satisfies
    the class, so that the theorems, stated for every machine, can be
    evaluated. *)

From S2P Require Import Prelude Sysno Abi SeccompArch Dispatch.
Import Sysno SeccompArch Dispatch.

Module SeccompFilter.

(** * Kernel interface: [linux/filter.h], [linux/seccomp.h] *)

Record sock_filter := { code : Z; jt : Z; jf : Z; k : Z }.

Definition BPF_STMT (c v : Z) : sock_filter := {| code := c; jt := 0; jf := 0; k := v |}.
Definition BPF_JUMP (c v t f : Z) : sock_filter := {| code := c; jt := t; jf := f; k := v |}.

(** [BPF_LD|BPF_W|BPF_ABS], [BPF_JMP|BPF_JEQ|BPF_K], [..JGT..], [..JGE..],
    [BPF_RET|BPF_K]. *)
Definition LD_W_ABS : Z := 0x20.
Definition JMP_JEQ_K : Z := 0x15.
Definition JMP_JGT_K : Z := 0x25.
Definition JMP_JGE_K : Z := 0x35.
Definition RET_K : Z := 0x06.

Definition SECCOMP_RET_ALLOW : Z := 0x7fff0000.
Definition SECCOMP_RET_TRACE : Z := 0x7ff00000.
Definition SECCOMP_RET_ERRNO : Z := 0x00050000.

(** The two words of [struct seccomp_data] the filter reads. *)
Record seccomp_data := { sd_nr : Z; sd_arch : Z }.
Definition offsetof_nr : Z := 0.
Definition offsetof_arch : Z := 4.

(** A machine for classic BPF: [run prog pc A d] is the value returned when
    [prog] is entered at [pc] with accumulator [A]. *)
Class ClassicBPF := {
  run : list sock_filter -> nat -> Z -> seccomp_data -> option Z;
  run_ld_nr : forall prog pc A d,
    prog !! pc = Some (BPF_STMT LD_W_ABS offsetof_nr) ->
    run prog pc A d = run prog (S pc) (sd_nr d) d;
  run_ld_arch : forall prog pc A d,
    prog !! pc = Some (BPF_STMT LD_W_ABS offsetof_arch) ->
    run prog pc A d = run prog (S pc) (sd_arch d) d;
  run_jeq : forall prog pc A d v t f,
    prog !! pc = Some (BPF_JUMP JMP_JEQ_K v t f) ->
    run prog pc A d = run prog (S pc + Z.to_nat (if A =? v then t else f)) A d;
  run_jgt : forall prog pc A d v t f,
    prog !! pc = Some (BPF_JUMP JMP_JGT_K v t f) ->
    run prog pc A d = run prog (S pc + Z.to_nat (if v <? A then t else f)) A d;
  run_jge : forall prog pc A d v t f,
    prog !! pc = Some (BPF_JUMP JMP_JGE_K v t f) ->
    run prog pc A d = run prog (S pc + Z.to_nat (if v <=? A then t else f)) A d;
  run_ret : forall prog pc A d v,
    prog !! pc = Some (BPF_STMT RET_K v) -> run prog pc A d = Some v
}.

(** * The filter *)

(** The x86-64 numbers linuxity intercepts. *)
Definition kTrappedX86_64 : list Z :=
  [39; 110; 186; 102; 104; 107; 108; 218; 118; 120; 56; 57; 58; 435; 59; 322;
   61; 247; 62; 200; 234; 434; 55; 63; 99; 204; 203; 144; 145; 142; 143; 148;
   314; 315; 302; 310; 311; 312; 251; 252; 115; 111; 121; 124; 112; 109; 140;
   141; 16; 2; 257; 437; 85; 452; 433; 4; 6; 262; 332; 137; 138; 21; 269; 439;
   80; 81; 161; 89; 267; 79; 217; 8; 191; 192; 193; 188; 189; 190; 194; 195;
   196; 463; 464; 465; 466; 467; 468; 469; 470; 197; 198; 199; 3; 32; 33; 292;
   72; 83; 258; 133; 259; 84; 87; 263; 90; 268; 91; 92; 94; 93; 260; 76; 235;
   132; 280; 261; 82; 264; 316; 86; 265; 88; 266; 49; 42; 41; 157; 105; 106;
   114; 113; 117; 119; 122; 123; 116; 444; 445; 446; 165; 166; 254; 301; 303;
   304; 430; 431; 432; 429; 428; 442; 457; 458; 155; 167; 168; 163; 179; 136].

(** The numbers of the host ABI, without the holes. *)
Definition trapped (a : Arch) : list Z :=
  map u32 (filter (fun n => n <> kNoSysno) (trapped_for a kTrappedX86_64)).

Definition kEnosys : Z := Z.lor SECCOMP_RET_ERRNO 38.
Definition kX32Bit : Z := 0x40000000.

Definition emit_x32 (a : Arch) : bool := has_x32_personality a.
Definition emit_uring (a : Arch) : bool :=
  negb (encode a io_uring_setup =? kNoSysno) && negb (encode a io_uring_register =? kNoSysno).

Definition nGates (a : Arch) : Z :=
  (if emit_x32 a then 1 else 0) + (if emit_uring a then 2 else 0).
Definition firstJeq (a : Arch) : Z := 4 + nGates a.

(** Distance from the instruction at [idx] to the ENOSYS leaf. *)
Definition to_enosys (a : Arch) (nTrapped idx : Z) : Z :=
  u8 (firstJeq a + nTrapped + 2 - idx - 1).

(** The gates between [A = nr] and the first compare; the program has
    [size] instructions before them. *)
Definition x32_gate (a : Arch) (nTrapped size : Z) : list sock_filter :=
  if emit_x32 a then [BPF_JUMP JMP_JGE_K kX32Bit (to_enosys a nTrapped size) 0] else [].

Definition uring_gate (a : Arch) (nTrapped size : Z) : list sock_filter :=
  if emit_uring a then
    [BPF_JUMP JMP_JGE_K (u32 (encode a io_uring_setup)) 0 1;
     BPF_JUMP JMP_JGT_K (u32 (encode a io_uring_register)) 0
       (to_enosys a nTrapped (size + 1))]
  else [].

(** The compare loop: the entry [i] of the trapped list jumps over the
    remaining compares and the ALLOW leaf. *)
Fixpoint jeqs (l : list Z) : list sock_filter :=
  match l with
  | [] => []
  | n :: l' => BPF_JUMP JMP_JEQ_K n (u8 (Z.of_nat (length l') + 1)) 0 :: jeqs l'
  end.

Definition build_filter (a : Arch) (l : list Z) : list sock_filter :=
  let n := Z.of_nat (length l) in
  let f4 := [BPF_STMT LD_W_ABS offsetof_arch;
             BPF_JUMP JMP_JEQ_K (seccomp_audit_arch a) 1 0;
             BPF_STMT RET_K kEnosys;
             BPF_STMT LD_W_ABS offsetof_nr] in
  let f5 := f4 ++ x32_gate a n (Z.of_nat (length f4)) in
  let f6 := f5 ++ uring_gate a n (Z.of_nat (length f5)) in
  f6 ++ jeqs l ++ [BPF_STMT RET_K SECCOMP_RET_ALLOW;
                   BPF_STMT RET_K SECCOMP_RET_TRACE;
                   BPF_STMT RET_K kEnosys].

(** [sock_fprog]. *)
Record sock_fprog := { len : Z; prog_filter : list sock_filter }.

(** The host's three calls: the results of [prctl(PR_SET_NO_NEW_PRIVS)], of
    [seccomp(SECCOMP_SET_MODE_FILTER)] and of [prctl(PR_SET_SECCOMP)]. *)
Record host := {
  prctl_no_new_privs : Z;
  sys_seccomp : sock_fprog -> Z;
  prctl_set_seccomp : sock_fprog -> Z
}.

(** [install_trap_filter]: the boolean result and the program the kernel
    accepted, if any. *)
Definition install_trap_filter (a : Arch) (h : host) : bool * option sock_fprog :=
  if negb (prctl_no_new_privs h =? 0) then (false, None)
  else
    let f := build_filter a (trapped a) in
    let prog := {| len := u16 (Z.of_nat (length f)); prog_filter := f |} in
    let rc := sys_seccomp h prog in
    if negb (rc =? 0) then
      if negb (prctl_set_seccomp h prog =? 0) then (false, None) else (true, Some prog)
    else (true, Some prog).

(** What the filter is meant to decide. *)
Definition verdict (a : Arch) (l : list Z) (d : seccomp_data) : Z :=
  if negb (sd_arch d =? seccomp_audit_arch a) then kEnosys
  else if emit_x32 a && (kX32Bit <=? sd_nr d) then kEnosys
  else if (encode a io_uring_setup <=? sd_nr d) && (sd_nr d <=? encode a io_uring_register)
  then kEnosys
  else if bool_decide (sd_nr d ∈ l) then SECCOMP_RET_TRACE
  else SECCOMP_RET_ALLOW.

(** * A concrete machine *)

(** Forward jumps only, so the machine recurses on the program; [skip] is
    the number of instructions still to be jumped over. *)
Fixpoint interp (prog : list sock_filter) (skip : nat) (A : Z) (d : seccomp_data) : option Z :=
  match prog with
  | [] => None
  | i :: rest =>
      match skip with
      | S skip' => interp rest skip' A d
      | O =>
          if code i =? LD_W_ABS then
            if k i =? offsetof_nr then interp rest 0 (sd_nr d) d
            else if k i =? offsetof_arch then interp rest 0 (sd_arch d) d
            else None
          else if code i =? JMP_JEQ_K then
            interp rest (Z.to_nat (if A =? k i then jt i else jf i)) A d
          else if code i =? JMP_JGT_K then
            interp rest (Z.to_nat (if k i <? A then jt i else jf i)) A d
          else if code i =? JMP_JGE_K then
            interp rest (Z.to_nat (if k i <=? A then jt i else jf i)) A d
          else if code i =? RET_K then Some (k i)
          else None
      end
  end.

Lemma interp_skip prog : forall n m A d,
  interp (drop n prog) m A d = interp prog (n + m) A d.
Proof.
  induction prog as [|i rest IH]; intros [|n] m A d; try reflexivity. apply IH.
Qed.

(** Entering at an instruction is running it on the rest of the program. *)
Lemma interp_at prog pc A d i :
  prog !! pc = Some i ->
  interp prog pc A d = interp (i :: drop (S pc) prog) 0 A d.
Proof.
  intros H. rewrite <- (drop_S prog i pc H), interp_skip. by rewrite Nat.add_0_r.
Qed.

#[export, refine] Instance interp_bpf : ClassicBPF := {| run := interp |}.
Proof.
  all: intros; erewrite interp_at by done; cbn -[interp];
    rewrite ?interp_skip; cbn [interp BPF_STMT BPF_JUMP code jt jf k];
    rewrite ?interp_skip, ?Nat.add_0_r; reflexivity.
Defined.

(** * The program, run on any machine *)

Lemma uring_span a : encode a io_uring_setup = 425 /\ encode a io_uring_register = 427.
Proof. destruct a; vm_compute; done. Qed.

Lemma emit_uring_true a : emit_uring a = true.
Proof. unfold emit_uring. destruct (uring_span a) as [-> ->]. reflexivity. Qed.

Lemma length_jeqs l : length (jeqs l) = length l.
Proof. induction l; simpl; congruence. Qed.

Section Machine.
Context {M : ClassicBPF}.

(** Entering the compare loop with [A] in the accumulator. *)
Lemma run_jeqs (l : list Z) : forall pre post A d,
  Z.of_nat (length l) <= 255 ->
  run (pre ++ jeqs l ++ BPF_STMT RET_K SECCOMP_RET_ALLOW
                     :: BPF_STMT RET_K SECCOMP_RET_TRACE :: post) (length pre) A d
  = Some (if bool_decide (A ∈ l) then SECCOMP_RET_TRACE else SECCOMP_RET_ALLOW).
Proof.
  induction l as [|n l IH]; intros pre post A d Hlen.
  - cbn [jeqs app]. apply run_ret. by rewrite list_lookup_middle.
  - cbn [jeqs length] in *. rewrite <- app_comm_cons.
    erewrite run_jeq by (by rewrite list_lookup_middle).
    destruct (Z.eqb_spec A n) as [->|Hne].
    + rewrite bool_decide_eq_true_2 by set_solver.
      rewrite u8_small by lia.
      replace (S (length pre) + Z.to_nat (Z.of_nat (length l) + 1))%nat
        with (length pre + S (length (jeqs l) + 1))%nat by (rewrite length_jeqs; lia).
      apply run_ret. rewrite lookup_app_r by lia.
      replace (length pre + S (length (jeqs l) + 1) - length pre)%nat
        with (S (length (jeqs l) + 1)) by lia.
      rewrite lookup_cons, lookup_app_r by lia.
      replace (length (jeqs l) + 1 - length (jeqs l))%nat with 1%nat by lia. reflexivity.
    + rewrite Nat.add_0_r.
      specialize (IH (pre ++ [BPF_JUMP JMP_JEQ_K n (u8 (Z.of_nat (length l) + 1)) 0])
                     post A d ltac:(lia)).
      rewrite length_app in IH. cbn [length] in IH.
      rewrite Nat.add_comm in IH. cbn [Nat.add] in IH.
      rewrite <- app_assoc in IH. cbn [app] in IH. rewrite IH.
      f_equal. case_bool_decide as E1; case_bool_decide as E2; set_solver.
Qed.

(** The ENOSYS leaf is the last instruction. *)
Lemma run_enosys_leaf (pre l' : list sock_filter) pc A d :
  pc = (length pre + length l' + 2)%nat ->
  run (pre ++ l' ++ [BPF_STMT RET_K SECCOMP_RET_ALLOW; BPF_STMT RET_K SECCOMP_RET_TRACE;
                     BPF_STMT RET_K kEnosys]) pc A d = Some kEnosys.
Proof.
  intros ->. apply run_ret. rewrite lookup_app_r, lookup_app_r by lia.
  replace (_ - _ - _)%nat with 2%nat by lia. reflexivity.
Qed.

(** The program after the gates, as one list. *)
Lemma build_filter_x86_64 l :
  let n := Z.of_nat (length l) in
  build_filter x86_64 l =
  [BPF_STMT LD_W_ABS offsetof_arch; BPF_JUMP JMP_JEQ_K AUDIT_ARCH_X86_64 1 0;
   BPF_STMT RET_K kEnosys; BPF_STMT LD_W_ABS offsetof_nr;
   BPF_JUMP JMP_JGE_K kX32Bit (u8 (n + 4)) 0;
   BPF_JUMP JMP_JGE_K 425 0 1; BPF_JUMP JMP_JGT_K 427 0 (u8 (n + 2))]
  ++ jeqs l ++ [BPF_STMT RET_K SECCOMP_RET_ALLOW; BPF_STMT RET_K SECCOMP_RET_TRACE;
                BPF_STMT RET_K kEnosys].
Proof.
  intros n. unfold build_filter, x32_gate, uring_gate, to_enosys, firstJeq, nGates.
  rewrite emit_uring_true. destruct (uring_span x86_64) as [-> ->].
  replace (n + 4) with (4 + (1 + 2) + n + 2 - 4 - 1) by lia.
  replace (n + 2) with (4 + (1 + 2) + n + 2 - 6 - 1) by lia. reflexivity.
Qed.

Lemma build_filter_aarch64 l :
  let n := Z.of_nat (length l) in
  build_filter aarch64 l =
  [BPF_STMT LD_W_ABS offsetof_arch; BPF_JUMP JMP_JEQ_K AUDIT_ARCH_AARCH64 1 0;
   BPF_STMT RET_K kEnosys; BPF_STMT LD_W_ABS offsetof_nr;
   BPF_JUMP JMP_JGE_K 425 0 1; BPF_JUMP JMP_JGT_K 427 0 (u8 (n + 2))]
  ++ jeqs l ++ [BPF_STMT RET_K SECCOMP_RET_ALLOW; BPF_STMT RET_K SECCOMP_RET_TRACE;
                BPF_STMT RET_K kEnosys].
Proof.
  intros n. unfold build_filter, x32_gate, uring_gate, to_enosys, firstJeq, nGates.
  rewrite emit_uring_true. destruct (uring_span aarch64) as [-> ->].
  replace (n + 2) with (4 + (0 + 2) + n + 2 - 5 - 1) by lia. reflexivity.
Qed.

(** One instruction of a program whose prefix is a literal list. *)
Ltac bpf_step :=
  first [ erewrite run_ld_arch by reflexivity | erewrite run_ld_nr by reflexivity
        | erewrite run_jeq by reflexivity | erewrite run_jge by reflexivity
        | erewrite run_jgt by reflexivity ].

Lemma run_filter (a : Arch) (l : list Z) (d : seccomp_data) A :
  Z.of_nat (length l) <= 251 ->
  run (build_filter a l) 0 A d = Some (verdict a l d).
Proof.
  intros Hlen. unfold verdict. destruct (uring_span a) as [-> ->].
  destruct a; [rewrite build_filter_x86_64|rewrite build_filter_aarch64];
    cbn [emit_x32 has_x32_personality bool_decide]; do 2 bpf_step.
  - change (seccomp_audit_arch x86_64) with AUDIT_ARCH_X86_64.
    destruct (sd_arch d =? AUDIT_ARCH_X86_64); cbn [negb]; [|by apply run_ret].
    do 2 bpf_step. change (emit_x32 x86_64) with true. cbn [andb].
    destruct (Z.leb_spec kX32Bit (sd_nr d)).
    { apply run_enosys_leaf. rewrite length_jeqs, u8_small by lia. cbn [length]. lia. }
    bpf_step. destruct (Z.leb_spec 425 (sd_nr d)); cbn [andb Z.to_nat Nat.add].
    + bpf_step. destruct (Z.ltb_spec 427 (sd_nr d)).
      * rewrite (proj2 (Z.leb_gt _ _)) by lia.
        apply (run_jeqs l [_; _; _; _; _; _; _] [_]). lia.
      * rewrite (proj2 (Z.leb_le _ _)) by lia.
        apply run_enosys_leaf. rewrite length_jeqs, u8_small by lia. cbn [length]. lia.
    + apply (run_jeqs l [_; _; _; _; _; _; _] [_]). lia.
  - change (seccomp_audit_arch aarch64) with AUDIT_ARCH_AARCH64.
    destruct (sd_arch d =? AUDIT_ARCH_AARCH64); cbn [negb]; [|by apply run_ret].
    do 2 bpf_step. change (emit_x32 aarch64) with false. cbn [andb].
    destruct (Z.leb_spec 425 (sd_nr d)); cbn [andb Z.to_nat Nat.add].
    + bpf_step. destruct (Z.ltb_spec 427 (sd_nr d)).
      * rewrite (proj2 (Z.leb_gt _ _)) by lia.
        apply (run_jeqs l [_; _; _; _; _; _] [_]). lia.
      * rewrite (proj2 (Z.leb_le _ _)) by lia.
        apply run_enosys_leaf. rewrite length_jeqs, u8_small by lia. cbn [length]. lia.
    + apply (run_jeqs l [_; _; _; _; _; _] [_]). lia.
Qed.

End Machine.

(** * The trapped set *)

Lemma length_trapped a : Z.of_nat (length (trapped a)) <= 251.
Proof. destruct a; vm_compute; discriminate. Qed.

(** Each table numbers a syscall once: checked by running the inversion. *)
Definition decode_once (a : Arch) (t : SysnoTable) : bool :=
  forallb (fun n => bool_decide (decode a n = unknown)
                    || bool_decide (nr t !! index (decode a n) = Some n)) (seqZ 0 1024).

Lemma decode_once_invert a : decode_once a (invert a) = true.
Proof. destruct a; vm_compute; reflexivity. Qed.

Lemma decode_once_spec a t n :
  decode_once a t = true -> decode a n <> unknown -> nr t !! index (decode a n) = Some n.
Proof.
  intros F H. pose proof (decode_range a n H) as R.
  apply (proj1 (forallb_forall _ _)) with (x := n) in F;
    [|apply list_elem_of_In, elem_of_seqZ; lia].
  apply orb_true_iff in F as [F|F]; apply bool_decide_eq_true in F; done.
Qed.

(** So [encode] undoes [decode]. *)
Lemma encode_decode a n : decode a n <> unknown -> encode a (decode a n) = n.
Proof.
  intros H. pose proof (encode_table a _ H) as E.
  rewrite (decode_once_spec a _ n (decode_once_invert a) H) in E. congruence.
Qed.

Lemma trapped_source :
  Forall (fun m => 0 <= m < 1024 /\ decode x86_64 m <> unknown) kTrappedX86_64.
Proof. repeat constructor; done. Qed.

Lemma trapped_for_encode a :
  trapped_for a kTrappedX86_64 = map (fun m => encode a (decode x86_64 m)) kTrappedX86_64.
Proof.
  destruct a; apply map_ext_in; intros m Hm;
    apply list_elem_of_In, (proj1 (Forall_forall _ _) trapped_source) in Hm as [Hm Hu];
    rewrite u64_small by lia; [by rewrite encode_decode|reflexivity].
Qed.

(** The filter's list holds the host ABI's number of every entry of the
    source list that the ABI has. *)
Lemma trapped_encode a :
  trapped a = filter (fun n => n <> kNoSysno)
                (map (fun m => encode a (decode x86_64 m)) kTrappedX86_64).
Proof.
  unfold trapped. rewrite trapped_for_encode.
  rewrite <- (map_id (filter _ _)) at 2. apply map_ext_in.
  intros n Hn. apply list_elem_of_In, list_elem_of_filter in Hn as [Hn Hm].
  apply list_elem_of_fmap in Hm as (m & -> & Hm).
  apply (proj1 (Forall_forall _ _) trapped_source) in Hm as [Hm Hu].
  destruct (encode_cases a _ Hu) as [[E _]|(R & _)]; [done|]. apply u32_small. lia.
Qed.

Lemma elem_of_trapped a n :
  n ∈ trapped a <-> decode a n <> unknown /\
                    exists m, m ∈ kTrappedX86_64 /\ decode a n = decode x86_64 m.
Proof.
  rewrite trapped_encode, list_elem_of_filter, list_elem_of_fmap. split.
  - intros (Hn & m & -> & Hm).
    destruct (proj1 (Forall_forall _ _) trapped_source m Hm) as [_ Hs].
    destruct (encode_cases a _ Hs) as [[E _]|(_ & E & _)]; [done|].
    rewrite E. eauto.
  - intros (Hn & m & Hm & E). pose proof (encode_decode a n Hn) as En. split.
    + pose proof (decode_range a n Hn). unfold kNoSysno. lia.
    + exists m. by rewrite <- E.
Qed.

(** A case of the switch that does more than forward is for a syscall of the
    trapped list (checked on every enumerator). *)
Lemma handled_trapped r s :
  forwards (route r s) = false -> exists m, m ∈ kTrappedX86_64 /\ decode x86_64 m = s.
Proof.
  rewrite (forwards_regs r {| args := []; regs_nr := 0 |}). revert s.
  assert (F : forallb (fun s => forwards (route {| args := []; regs_nr := 0 |} s)
                || existsb (fun m => bool_decide (decode x86_64 m = s)) kTrappedX86_64)
                all = true) by (vm_compute; reflexivity).
  rewrite forallb_forall in F. intros s Hs.
  specialize (F s (proj1 (list_elem_of_In _ _) (elem_of_all s))).
  rewrite Hs in F. cbn [orb] in F. rewrite existsb_exists in F.
  destruct F as (m & Hm & E). apply bool_decide_eq_true in E.
  exists m. split; [by apply list_elem_of_In|done].
Qed.

(** What an ALLOW verdict excludes. *)
Lemma verdict_allow a l d :
  verdict a l d = SECCOMP_RET_ALLOW ->
  sd_arch d = seccomp_audit_arch a /\
  (emit_x32 a = true -> sd_nr d < kX32Bit) /\
  ~ (encode a io_uring_setup <= sd_nr d <= encode a io_uring_register) /\ sd_nr d ∉ l.
Proof.
  unfold verdict. generalize (encode a io_uring_setup) (encode a io_uring_register).
  intros lo hi. destruct (emit_x32 a); cbn [andb]; zcases; try discriminate;
    case_bool_decide; try discriminate; intros _; split_and!; try done; intros; lia.
Qed.

(** * Properties *)

(** C3. On every machine that implements classic BPF, the program
    [build_filter] assembles for a list of at most 251 numbers returns:
    ENOSYS for a foreign audit arch, for an x32 number on x86-64 and for the
    io_uring range; TRACE for a listed number; ALLOW for every other one.
    In particular every truncated 8-bit jump lands on its leaf. *)
Theorem filter_verdict {M : ClassicBPF} (a : Arch) (l : list Z) (d : seccomp_data) (A : Z) :
  Z.of_nat (length l) <= 251 ->
  run (build_filter a l) 0 A d = Some (verdict a l d).
Proof. apply run_filter. Qed.

Lemma filter_verdict_witness :
  run (build_filter aarch64 [56; 57]) 0 0 {| sd_nr := 57; sd_arch := AUDIT_ARCH_AARCH64 |}
  = Some SECCOMP_RET_TRACE.
Proof.
  rewrite (filter_verdict aarch64 [56; 57]); [vm_compute; reflexivity|vm_compute; discriminate].
Defined.

(** C2. Confinement: a syscall the installed filter lets run natively was
    issued under the expected arch, is not an x32 or io_uring call, and is
    one whose case in the dispatcher only forwards.  So no syscall that the
    dispatcher answers, redirects or refuses can run raw, on either ABI. *)
Theorem native_only_if_forwarded {M : ClassicBPF} (a : Arch) (d : seccomp_data) (A : Z) :
  run (build_filter a (trapped a)) 0 A d = Some SECCOMP_RET_ALLOW ->
  sd_arch d = seccomp_audit_arch a /\
  (a = x86_64 -> sd_nr d < kX32Bit) /\
  ~ (encode a io_uring_setup <= sd_nr d <= encode a io_uring_register) /\
  forall r, forwards (route r (decode a (sd_nr d))) = true.
Proof.
  rewrite run_filter by apply length_trapped. intros E.
  apply (inj Some), verdict_allow in E as (Ha & Hx & Hu & Ht).
  split; [exact Ha|]. split; [intros ->; by apply Hx|]. split; [exact Hu|].
  intros r. destruct (forwards (route r _)) eqn:F; [reflexivity|]. exfalso. apply Ht.
  apply elem_of_trapped. destruct (handled_trapped r _ F) as (m & Hm & E).
  split; [|by eauto]. intros Hn. rewrite Hn in F. discriminate.
Qed.

Lemma native_only_if_forwarded_witness :
  forwards (route {| args := [3; 0; 10]; regs_nr := 63 |} (decode aarch64 63)) = true.
Proof.
  apply (native_only_if_forwarded aarch64
           {| sd_nr := 63; sd_arch := AUDIT_ARCH_AARCH64 |} 0).
  rewrite run_filter; vm_compute; [reflexivity|discriminate].
Defined.

(** The two ABIs trap the same syscalls: a number is in the list the
    filter compares against exactly when it names, on that ABI, a syscall
    of the x86-64 source list. *)
Theorem trapped_same_set (a : Arch) (n : Z) :
  n ∈ trapped a <->
  decode a n <> unknown /\ exists m, m ∈ kTrappedX86_64 /\ decode a n = decode x86_64 m.
Proof. apply elem_of_trapped. Qed.

(** [install_trap_filter] reports success exactly when no-new-privs was
    set and one of the two load calls accepted the program, and what was
    accepted is the filter for the trapped list, its length untruncated. *)
Theorem install_reports_load (a : Arch) (h : host) :
  let f := build_filter a (trapped a) in
  let p := {| len := Z.of_nat (length f); prog_filter := f |} in
  install_trap_filter a h =
  if bool_decide (prctl_no_new_privs h = 0 /\
                  (sys_seccomp h p = 0 \/ prctl_set_seccomp h p = 0))
  then (true, Some p) else (false, None).
Proof.
  intros f p. unfold install_trap_filter. fold f.
  replace (u16 (Z.of_nat (length f))) with (Z.of_nat (length f))
    by (unfold f; destruct a; vm_compute; reflexivity).
  fold p. case_bool_decide as E; zcases; try reflexivity; exfalso; tauto.
Qed.

End SeccompFilter.
