(* ===== verification/FdTables.v ===== *)
(** The guest descriptor tables: [runtime/shared/fd_slots.hpp] and the two
    backend tables it abstracts, [runtime/darwin/fd.hpp] and
    [runtime/windows/fd.hpp].

    The numbering they share is the module [Slots]; [Posix] is what POSIX
    promises of a descriptor table, on a finite map; the class [FdTable]
    states that a table implements it, and the three tables are instances.
    A [std::shared_ptr] to an open file is the identity of the object it
    points to, so that two descriptors sharing one open file hold the same
    value; [DarwinFd] and [WindowsFd] number the objects they allocate.
    Closing the host descriptor when the last reference goes away (the
    destructors of [HostFd] and [WinFd]) is not modelled. *)

From S2P Require Import Prelude Abi.

(** * POSIX descriptor tables *)

Module Posix.

Definition kMaxFds : nat := 1024.

Section posix.
Context {D : Type}.

(** Allocation at the lowest free number, EMFILE when the table is full. *)
Definition alloc (m : gmap nat D) (d : D) : gmap nat D * Z :=
  match list_find (fun n => m !! n = None) (seq 0 kMaxFds) with
  | Some (_, n) => (<[n := d]> m, Z.of_nat n)
  | None => (m, - Abi.errno_value Abi.emfile)
  end.

Definition get (m : gmap nat D) (g : Z) : option D :=
  if g <? 0 then None else m !! Z.to_nat g.

Definition close (m : gmap nat D) (g : Z) : gmap nat D * Z :=
  match get m g with
  | None => (m, - Abi.errno_value Abi.ebadf)
  | Some _ => (delete (Z.to_nat g) m, 0)
  end.

(** [dup] to the lowest free number; [mk] is the new descriptor. *)
Definition dup (m : gmap nat D) (g : Z) (mk : D -> D) : gmap nat D * Z :=
  match get m g with
  | None => (m, - Abi.errno_value Abi.ebadf)
  | Some d => alloc m (mk d)
  end.

(** [dup2]/[dup3] to a fixed number. *)
Definition dup2 (m : gmap nat D) (g to : Z) (mk : D -> D) : gmap nat D * Z :=
  match get m g with
  | None => (m, - Abi.errno_value Abi.ebadf)
  | Some d =>
      if (to <? 0) || (Z.of_nat kMaxFds <=? to) then (m, - Abi.errno_value Abi.ebadf)
      else if to =? g then (m, g)
      else (<[Z.to_nat to := mk d]> m, to)
  end.

Definition update (m : gmap nat D) (g : Z) (f : D -> D) : gmap nat D :=
  match get m g with None => m | Some d => <[Z.to_nat g := f d]> m end.

Definition on_exec (cloexec : D -> bool) (m : gmap nat D) : gmap nat D :=
  filter (fun p => cloexec p.2 = false) m.

(** [alloc] finds the lowest free number, or there is none below the limit. *)
Lemma alloc_spec m d :
  (exists n, (n < kMaxFds)%nat /\ m !! n = None /\ (forall k, (k < n)%nat -> is_Some (m !! k)) /\
             alloc m d = (<[n := d]> m, Z.of_nat n)) \/
  ((forall k, (k < kMaxFds)%nat -> is_Some (m !! k)) /\ alloc m d = (m, -24)).
Proof.
  unfold alloc. destruct (list_find _ _) as [[i n]|] eqn:E.
  - left. exists n. apply list_find_Some in E as (H1 & H2 & H3).
    apply lookup_seq in H1 as [-> Hi]. split_and!; [lia|done| |done].
    intros k Hk. apply not_eq_None_Some, (H3 k k); [apply lookup_seq; lia|lia].
  - right. split; [|done]. intros k Hk. apply list_find_None in E.
    apply not_eq_None_Some. eapply (proj1 (Forall_forall _ _) E), elem_of_seq. lia.
Qed.

Lemma alloc_at m d n :
  (n < kMaxFds)%nat -> m !! n = None -> (forall k, (k < n)%nat -> is_Some (m !! k)) ->
  alloc m d = (<[n := d]> m, Z.of_nat n).
Proof.
  intros Hn Hfree Hlow. destruct (alloc_spec m d) as [(n' & H1 & H2 & H3 & ->)|[H _]].
  - destruct (Nat.lt_trichotomy n n') as [L|[->|L]]; [|done|].
    + destruct (H3 n L). congruence.
    + destruct (Hlow n' L). congruence.
  - destruct (H n Hn). congruence.
Qed.

Lemma alloc_full m d :
  (forall k, (k < kMaxFds)%nat -> is_Some (m !! k)) -> alloc m d = (m, -24).
Proof.
  intros H. destruct (alloc_spec m d) as [(n & H1 & H2 & _)|[_ E]]; [|done].
  destruct (H n H1). congruence.
Qed.

End posix.
End Posix.

(** * Vectors of slots *)

Module Slots.
Section slots.
(** [desc] is the descriptor an occupied slot holds. *)
Context {S D : Type} (desc : S -> option D) (empty : S).

(** The lowest-free scan, [for (g = 0; g < slots_.size(); ++g)]. *)
Fixpoint scan (l : list S) : option nat :=
  match l with
  | [] => None
  | s :: l' => match desc s with None => Some 0%nat | Some _ => Datatypes.S <$> scan l' end
  end.

(** Store at the scanned slot, else grow, else fail. *)
Definition put_lowest (l : list S) (s : S) : list S * Z :=
  match scan l with
  | Some g => (<[g := s]> l, Z.of_nat g)
  | None => if (Posix.kMaxFds <=? length l)%nat then (l, -24)
            else (l ++ [s], Z.of_nat (length l))
  end.

(** [if (i >= slots_.size()) slots_.resize(i + 1); slots_[i] = s]. *)
Definition put_at (l : list S) (i : nat) (s : S) : list S :=
  <[i := s]> (l ++ replicate (i + 1 - length l) empty).

(** The slot behind an int, [nullptr] out of range. *)
Definition at_ (l : list S) (g : Z) : option S :=
  if g <? 0 then None else l !! Z.to_nat g.

(** The descriptors, as a finite map. *)
Definition view (l : list S) : gmap nat D := omap desc (map_seq 0 l).

Lemma lookup_view l n : view l !! n = l !! n ≫= desc.
Proof.
  unfold view. rewrite lookup_omap, lookup_map_seq_0. reflexivity.
Qed.

Lemma scan_spec l :
  match scan l with
  | Some g => l !! g ≫= desc = None /\ (g < length l)%nat /\
              forall k, (k < g)%nat -> is_Some (l !! k ≫= desc)
  | None => forall k, (k < length l)%nat -> is_Some (l !! k ≫= desc)
  end.
Proof.
  induction l as [|s l IH]; simpl; [lia|].
  destruct (desc s) eqn:E; [|split_and!; [done|lia|lia]].
  destruct (scan l) as [g|]; simpl.
  - destruct IH as (H1 & H2 & H3). split_and!; [done|lia|].
    intros [|k] Hk; simpl; [by rewrite E|apply H3; lia].
  - intros [|k] Hk; simpl; [by rewrite E|apply IH; lia].
Qed.

Lemma get_view l g : Posix.get (view l) g = at_ l g ≫= desc.
Proof. unfold Posix.get, at_. destruct (g <? 0); [reflexivity|apply lookup_view]. Qed.

Lemma put_lowest_length l s :
  (length l <= Posix.kMaxFds)%nat -> (length (put_lowest l s).1 <= Posix.kMaxFds)%nat.
Proof.
  intros H. unfold put_lowest. destruct (scan l); cbn [fst]; [by rewrite length_insert|].
  destruct (Nat.leb_spec Posix.kMaxFds (length l)); cbn [fst]; [done|].
  rewrite length_app. cbn [length]. lia.
Qed.

Lemma put_lowest_at l s :
  0 <= (put_lowest l s).2 -> at_ (put_lowest l s).1 (put_lowest l s).2 = Some s.
Proof.
  unfold put_lowest, at_. pose proof (scan_spec l) as H.
  destruct (scan l) as [g|]; cbn [fst snd]; intros Hr.
  - rewrite (proj2 (Z.ltb_ge _ 0)), Nat2Z.id by done. destruct H as (_ & H & _).
    by apply list_lookup_insert_eq.
  - destruct (_ <=? _)%nat; cbn [fst snd] in *; [lia|].
    rewrite (proj2 (Z.ltb_ge _ 0)), Nat2Z.id by done. by apply list_lookup_middle.
Qed.

Lemma view_insert l i s d :
  (i < length l)%nat -> desc s = Some d -> view (<[i := s]> l) = <[i := d]> (view l).
Proof.
  intros Hi Hd. apply map_eq. intros n. rewrite lookup_view.
  destruct (decide (n = i)) as [->|Hn].
  - by rewrite list_lookup_insert_eq, lookup_insert_eq by done.
  - rewrite list_lookup_insert_ne, lookup_insert_ne, lookup_view by done. done.
Qed.

Lemma view_insert_empty l i s :
  (i < length l)%nat -> desc s = None -> view (<[i := s]> l) = delete i (view l).
Proof.
  intros Hi Hd. apply map_eq. intros n. rewrite lookup_view.
  destruct (decide (n = i)) as [->|Hn].
  - by rewrite list_lookup_insert_eq, lookup_delete_eq by done.
  - rewrite list_lookup_insert_ne, lookup_delete_ne, lookup_view by done. done.
Qed.

(** The scan implements POSIX allocation. *)
Lemma put_lowest_view l s d :
  (length l <= Posix.kMaxFds)%nat -> desc s = Some d ->
  (view (put_lowest l s).1, (put_lowest l s).2) = Posix.alloc (view l) d.
Proof.
  intros Hl Hd. pose proof (scan_spec l) as H. unfold put_lowest.
  destruct (scan l) as [g|].
  - destruct H as (H1 & H2 & H3). cbn [fst snd].
    rewrite (Posix.alloc_at _ _ g);
      [by rewrite (view_insert _ _ _ d)|lia|by rewrite lookup_view|].
    intros k Hk. rewrite lookup_view. by apply H3.
  - destruct (Nat.leb_spec Posix.kMaxFds (length l)) as [L|L]; cbn [fst snd].
    + rewrite Posix.alloc_full; [done|]. intros k Hk.
      rewrite lookup_view. apply H. lia.
    + rewrite (Posix.alloc_at _ _ (length l));
        [|lia| |intros k Hk; rewrite lookup_view; by apply H].
      * f_equal. apply map_eq. intros n. rewrite lookup_view.
        destruct (decide (n = length l)) as [->|Hn].
        -- by rewrite list_lookup_middle, lookup_insert_eq.
        -- rewrite lookup_insert_ne, lookup_view by done.
           destruct (decide (n < length l)%nat).
           ++ by rewrite lookup_app_l.
           ++ by rewrite !lookup_ge_None_2 by (rewrite ?length_app; simpl; lia).
      * rewrite lookup_view, lookup_ge_None_2 by lia. done.
Qed.

Lemma put_at_length l i s :
  length (put_at l i s) = (length l `max` (i + 1))%nat.
Proof. unfold put_at. rewrite length_insert, length_app, length_replicate. lia. Qed.

Hypothesis desc_empty : desc empty = None.

Lemma view_resize l k : view (l ++ replicate k empty) = view l.
Proof.
  apply map_eq. intros n. rewrite !lookup_view.
  destruct (decide (n < length l)%nat) as [L|L]; [by rewrite lookup_app_l|].
  rewrite lookup_app_r by lia. rewrite (lookup_ge_None_2 l) by lia.
  destruct (replicate k empty !! (n - length l)%nat) eqn:E; [|done].
  apply lookup_replicate in E as [-> _]. simpl. by rewrite desc_empty.
Qed.

Lemma put_at_view l i s d :
  desc s = Some d -> view (put_at l i s) = <[i := d]> (view l).
Proof.
  intros Hd. unfold put_at. rewrite (view_insert _ _ _ d); [by rewrite view_resize| |done].
  rewrite length_app, length_replicate. lia.
Qed.

(** The remaining operations, on a slot vector and on its view. *)
Lemma at_lt l g s : at_ l g = Some s -> 0 <= g /\ (Z.to_nat g < length l)%nat.
Proof.
  unfold at_. destruct (Z.ltb_spec g 0); [done|]. intros E.
  split; [done|]. eapply lookup_lt_Some, E.
Qed.

(** What every table does to its vector: drop a slot, duplicate one to the
    lowest or to a fixed number, change one; [mk] makes the new slot. *)
Definition close (l : list S) (g : Z) : list S * Z :=
  match at_ l g ≫= desc with
  | None => (l, -9)
  | Some _ => (<[Z.to_nat g := empty]> l, 0)
  end.

Definition dup (l : list S) (g : Z) (mk : S -> S) : list S * Z :=
  match at_ l g with
  | Some s => match desc s with Some _ => put_lowest l (mk s) | None => (l, -9) end
  | None => (l, -9)
  end.

Definition dup2 (l : list S) (g to : Z) (mk : S -> S) : list S * Z :=
  match at_ l g with
  | Some s => match desc s with
              | Some _ => if to =? g then (l, g) else (put_at l (Z.to_nat to) (mk s), to)
              | None => (l, -9)
              end
  | None => (l, -9)
  end.

Definition update (l : list S) (g : Z) (mk : S -> S) : list S :=
  match at_ l g with
  | Some s => match desc s with Some _ => <[Z.to_nat g := mk s]> l | None => l end
  | None => l
  end.

Lemma close_view l g :
  length (close l g).1 = length l /\
  (view (close l g).1, (close l g).2) = Posix.close (view l) g.
Proof.
  unfold close, Posix.close. rewrite get_view. destruct (at_ l g) as [s|] eqn:E; [|done].
  simpl. destruct (desc s); [|done]. apply at_lt in E as [_ E]. simpl.
  split; [by rewrite length_insert|by rewrite view_insert_empty].
Qed.

Lemma dup_view l g mk mkd :
  (length l <= Posix.kMaxFds)%nat -> (forall s, desc (mk s) = mkd <$> desc s) ->
  (length (dup l g mk).1 <= Posix.kMaxFds)%nat /\
  (view (dup l g mk).1, (dup l g mk).2) = Posix.dup (view l) g mkd.
Proof.
  intros Hl Hm. unfold dup, Posix.dup. rewrite get_view.
  destruct (at_ l g) as [s|]; [|done]. simpl.
  destruct (desc s) eqn:Ed; [|done].
  split; [by apply put_lowest_length|]. apply put_lowest_view; [done|]. by rewrite Hm, Ed.
Qed.

Lemma dup2_view l g to mk mkd :
  (length l <= Posix.kMaxFds)%nat -> 0 <= to < Z.of_nat Posix.kMaxFds ->
  (forall s, desc (mk s) = mkd <$> desc s) ->
  (length (dup2 l g to mk).1 <= Posix.kMaxFds)%nat /\
  (view (dup2 l g to mk).1, (dup2 l g to mk).2) = Posix.dup2 (view l) g to mkd.
Proof.
  intros Hl Ht Hm. unfold dup2, Posix.dup2. rewrite get_view.
  destruct (at_ l g) as [s|]; [|done]. simpl. destruct (desc s) eqn:Ed; [|done].
  rewrite (proj2 (Z.ltb_ge to 0)), (proj2 (Z.leb_gt _ to)) by lia. cbn [orb].
  destruct (to =? g); [done|]. cbn [fst snd]. split; [rewrite put_at_length; lia|].
  f_equal. apply put_at_view. by rewrite Hm, Ed.
Qed.

Lemma update_view l g mk f :
  (forall s, desc (mk s) = f <$> desc s) ->
  length (update l g mk) = length l /\ view (update l g mk) = Posix.update (view l) g f.
Proof.
  intros Hf. unfold update, Posix.update. rewrite get_view.
  destruct (at_ l g) as [s|] eqn:E; [|done]. simpl.
  destruct (desc s) as [d|] eqn:Ed; [|done]. apply at_lt in E as [_ E].
  split; [by rewrite length_insert|]. apply view_insert; [done|]. by rewrite Hf, Ed.
Qed.

Lemma on_exec_view l cl f :
  (forall s, desc (f s) = desc s ≫= (fun d => if cl d : bool then None else Some d)) ->
  view (map f l) = Posix.on_exec cl (view l).
Proof.
  intros Hf. apply map_eq. intros n. unfold Posix.on_exec.
  rewrite lookup_view. change (map f l) with (f <$> l). rewrite list_lookup_fmap.
  assert (El : filter (fun p : nat * D => cl p.2 = false) (view l) !! n
               = (l !! n ≫= desc) ≫= (fun d => if cl d : bool then None else Some d)).
  { rewrite map_lookup_filter, lookup_view. destruct (l !! n ≫= desc) as [d|]; [|done].
    simpl. destruct (cl d) eqn:Ec; [by rewrite option_guard_False by (simpl; congruence)
                                   |by rewrite option_guard_True by done]. }
  rewrite El. destruct (l !! n); [|done]. apply Hf.
Qed.

End slots.
End Slots.

(** * What a backend's table promises *)

(** A descriptor is its open file and its close-on-exec bit; [H] is what the
    host hands out, [fds_new] the open file made of it. *)
Class FdTable (T H F : Type) := {
  fds_view : T -> gmap nat (F * bool);
  fds_wf : T -> Prop;
  fds_new : T -> H -> F;
  fds_install : T -> H -> bool -> T * Z;
  fds_close : T -> Z -> T * Z;
  fds_dup : T -> Z -> bool -> T * Z;
  fds_dup2 : T -> Z -> Z -> bool -> T * Z;
  fds_set_cloexec : T -> Z -> bool -> T;
  fds_on_exec : T -> T;
  fds_install_law t h c : fds_wf t ->
    fds_wf (fds_install t h c).1 /\
    (fds_view (fds_install t h c).1, (fds_install t h c).2)
    = Posix.alloc (fds_view t) (fds_new t h, c);
  fds_close_law t g : fds_wf t ->
    fds_wf (fds_close t g).1 /\
    (fds_view (fds_close t g).1, (fds_close t g).2) = Posix.close (fds_view t) g;
  fds_dup_law t g c : fds_wf t ->
    fds_wf (fds_dup t g c).1 /\
    (fds_view (fds_dup t g c).1, (fds_dup t g c).2)
    = Posix.dup (fds_view t) g (fun d => (d.1, c));
  fds_dup2_law t g to c : fds_wf t -> 0 <= to < Z.of_nat Posix.kMaxFds ->
    fds_wf (fds_dup2 t g to c).1 /\
    (fds_view (fds_dup2 t g to c).1, (fds_dup2 t g to c).2)
    = Posix.dup2 (fds_view t) g to (fun d => (d.1, c));
  fds_set_cloexec_law t g on : fds_wf t ->
    fds_wf (fds_set_cloexec t g on) /\
    fds_view (fds_set_cloexec t g on) = Posix.update (fds_view t) g (fun d => (d.1, on));
  fds_on_exec_law t : fds_wf t ->
    fds_wf (fds_on_exec t) /\ fds_view (fds_on_exec t) = Posix.on_exec snd (fds_view t)
}.

Module Client.
Section client.
Context {T H F : Type} `{FdTable T H F}.

(** The operations a guest reaches the table with. *)
Inductive op :=
| Install (h : H) (c : bool) | Close (g : Z) | Dup (g : Z) (c : bool)
| Dup2 (g to : Z) (c : bool) | SetCloexec (g : Z) (on : bool) | OnExec.

(** A [dup2] target the table has a number for. *)
Definition op_ok (o : op) : Prop :=
  match o with Dup2 _ to _ => 0 <= to < Z.of_nat Posix.kMaxFds | _ => True end.

Definition step (t : T) (o : op) : T * Z :=
  match o with
  | Install h c => fds_install t h c
  | Close g => fds_close t g
  | Dup g c => fds_dup t g c
  | Dup2 g to c => fds_dup2 t g to c
  | SetCloexec g on => (fds_set_cloexec t g on, 0)
  | OnExec => (fds_on_exec t, 0)
  end.

(** The same operation on the POSIX table, where an installed handle is the
    open file [f]. *)
Definition posix_step (m : gmap nat (F * bool)) (f : H -> F) (o : op) : gmap nat (F * bool) * Z :=
  match o with
  | Install h c => Posix.alloc m (f h, c)
  | Close g => Posix.close m g
  | Dup g c => Posix.dup m g (fun d => (d.1, c))
  | Dup2 g to c => Posix.dup2 m g to (fun d => (d.1, c))
  | SetCloexec g on => (Posix.update m g (fun d => (d.1, on)), 0)
  | OnExec => (Posix.on_exec snd m, 0)
  end.

Fixpoint steps (t : T) (os : list op) : T * list Z :=
  match os with
  | [] => (t, [])
  | o :: os' => let r := step t o in let r' := steps r.1 os' in (r'.1, r.2 :: r'.2)
  end.

Fixpoint posix_steps (m : gmap nat (F * bool)) (fs : list (H -> F)) (os : list op) :
    gmap nat (F * bool) * list Z :=
  match os, fs with
  | o :: os', f :: fs' =>
      let r := posix_step m f o in let r' := posix_steps r.1 fs' os' in (r'.1, r.2 :: r'.2)
  | _, _ => (m, [])
  end.

Lemma step_refines t o :
  fds_wf t -> op_ok o ->
  fds_wf (step t o).1 /\
  (fds_view (step t o).1, (step t o).2) = posix_step (fds_view t) (fds_new t) o.
Proof.
  destruct o; simpl; intros Hw Hok.
  - by apply fds_install_law.
  - by apply fds_close_law.
  - by apply fds_dup_law.
  - by apply fds_dup2_law.
  - destruct (fds_set_cloexec_law t g on Hw) as [? ->]. done.
  - destruct (fds_on_exec_law t Hw) as [? ->]. done.
Qed.

(** The open file each step would make of a handle. *)
Fixpoint news (t : T) (os : list op) : list (H -> F) :=
  match os with [] => [] | o :: os' => fds_new t :: news (step t o).1 os' end.

(** Any run of the table is a run of the POSIX table with the same results. *)
Lemma steps_refine os : forall t,
  fds_wf t -> Forall op_ok os ->
  fds_wf (steps t os).1 /\
  posix_steps (fds_view t) (news t os) os = (fds_view (steps t os).1, (steps t os).2).
Proof.
  induction os as [|o os IH]; intros t Hw Hok; [done|].
  apply Forall_cons in Hok as [Ho Hok].
  destruct (step_refines t o Hw Ho) as [Hw' E].
  destruct (IH _ Hw' Hok) as [Hw'' E'].
  split; [done|]. simpl. rewrite <- E. simpl. by rewrite E'.
Qed.

(** [reserve_low_fds]: occupy the numbers from [want], stopping at the first
    handle the host refuses or the first unexpected number. *)
Fixpoint reserve_from (n : nat) (want : Z) (opens : Z -> option H) (t : T) : T :=
  match n with
  | O => t
  | S n' =>
      match opens want with
      | None => t
      | Some h => let r := fds_install t h false in
                  if negb (r.2 =? want) then r.1 else reserve_from n' (want + 1) opens r.1
      end
  end.

Definition reserve_low_fds (opens : Z -> option H) (t : T) : T := reserve_from 6 3 opens t.

Lemma reserve_from_dense n : forall w opens t,
  fds_wf t -> (w + n <= Posix.kMaxFds)%nat ->
  (forall k, is_Some (opens k)) ->
  (forall k, is_Some (fds_view t !! k) <-> (k < w)%nat) ->
  let t' := reserve_from n (Z.of_nat w) opens t in
  fds_wf t' /\ forall k, is_Some (fds_view t' !! k) <-> (k < w + n)%nat.
Proof.
  induction n as [|n IH]; intros w opens t Hw Hb Ho Hd; cbn [reserve_from].
  - split; [done|]. intros k. rewrite Hd. lia.
  - destruct (Ho (Z.of_nat w)) as [h ->].
    destruct (fds_install_law t h false Hw) as [Hw' E].
    rewrite (Posix.alloc_at _ _ w) in E; [|lia| |].
    + injection E as Ev Er. rewrite Er, Z.eqb_refl. cbn [negb].
      replace (Z.of_nat w + 1) with (Z.of_nat (S w)) by lia.
      destruct (IH (S w) opens _ Hw' ltac:(lia) Ho) as [Hw'' Hd'].
      * intros k. rewrite Ev. destruct (decide (k = w)) as [->|].
        -- rewrite lookup_insert_eq. split; [lia|by eauto].
        -- rewrite lookup_insert_ne by done. rewrite Hd. lia.
      * split; [done|]. intros k. rewrite Hd'. lia.
    + apply eq_None_not_Some. rewrite Hd. lia.
    + intros k Hk. by apply Hd.
Qed.

End client.
End Client.

(** * [runtime/shared/fd_slots.hpp] *)

Module FdSlots.
Section fd_slots.
(** The template parameters; [extra0] is [Extra{}]. *)
Context {File Extra : Type} (extra0 : Extra).

Record Slot := { file : option File; cloexec : bool; extra : Extra }.

Definition empty : Slot := {| file := None; cloexec := false; extra := extra0 |}.

Definition occupied (s : Slot) : bool := bool_decide (is_Some (file s)).

Definition desc (s : Slot) : option (File * bool) := (fun f => (f, cloexec s)) <$> file s.

Definition install (l : list Slot) (f : File) (c : bool) (e : Extra) : list Slot * Z :=
  Slots.put_lowest desc l {| file := Some f; cloexec := c; extra := e |}.

Definition install_at (l : list Slot) (g : Z) (f : option File) (c : bool) (e : Extra) :
    list Slot :=
  if g <? 0 then l
  else Slots.put_at empty l (Z.to_nat g) {| file := f; cloexec := c; extra := e |}.

Definition close (l : list Slot) (g : Z) : list Slot * Z :=
  match Slots.at_ l g with
  | Some s => if occupied s then (<[Z.to_nat g := empty]> l, 0)
              else (l, - Abi.errno_value Abi.ebadf)
  | None => (l, - Abi.errno_value Abi.ebadf)
  end.

Definition dup (l : list Slot) (from : Z) (c : bool) (e : Extra) : list Slot * Z :=
  match Slots.at_ l from ≫= file with
  | None => (l, - Abi.errno_value Abi.ebadf)
  | Some f => install l f c e
  end.

Definition dup_to (l : list Slot) (from to : Z) (c : bool) (e : Extra) : list Slot * Z :=
  match Slots.at_ l from ≫= file with
  | None => (l, - Abi.errno_value Abi.ebadf)
  | Some f => if from =? to then (l, to) else (install_at l to (Some f) c e, to)
  end.

Definition valid (l : list Slot) (g : Z) : bool :=
  match Slots.at_ l g with Some s => occupied s | None => false end.

Definition get_cloexec (l : list Slot) (g : Z) : bool :=
  match Slots.at_ l g with Some s => occupied s && cloexec s | None => false end.

Definition set_cloexec (l : list Slot) (g : Z) (on : bool) : list Slot :=
  match Slots.at_ l g with
  | Some s => if occupied s
              then <[Z.to_nat g := {| file := file s; cloexec := on; extra := extra s |}]> l
              else l
  | None => l
  end.

Definition on_exec (l : list Slot) : list Slot :=
  map (fun s => if occupied s && cloexec s then empty else s) l.

End fd_slots.
Arguments Slot : clear implicits.
End FdSlots.

(** * [runtime/darwin/fd.hpp] *)

Module DarwinFd.

(** [HostFd]: the object's identity and the host descriptor it owns. *)
Record HostFd := { ptr : nat; fd : Z }.

Record Slot := { file : option HostFd; cloexec : bool; peer : option HostFd }.

Definition empty : Slot := {| file := None; cloexec := false; peer := None |}.

(** The table, and the identity the next [make_shared] gets. *)
Record FdTable := { slots : list Slot; next : nat }.

Definition desc (s : Slot) : option (HostFd * bool) := (fun f => (f, cloexec s)) <$> file s.

Definition host (t : FdTable) (g : Z) : option Z :=
  fd <$> (Slots.at_ (slots t) g ≫= file).

Definition install_at (t : FdTable) (g : nat) (f : option HostFd) (c : bool)
    (p : option HostFd) : FdTable :=
  {| slots := Slots.put_at empty (slots t) g {| file := f; cloexec := c; peer := p |};
     next := next t |}.

(** [FdTable()]: [dups fd] is what the host's F_DUPFD_CLOEXEC returned. *)
Definition init (dups : Z -> Z) : FdTable :=
  fold_left (fun t g => let d := dups (Z.of_nat g) in
                        if 0 <=? d then
                          {| slots := slots (install_at t g (Some {| ptr := next t; fd := d |})
                                               false None);
                             next := S (next t) |}
                        else t)
            [0; 1; 2]%nat {| slots := []; next := 0 |}.

Definition install (t : FdTable) (host_fd : Z) (c : bool) : FdTable * Z :=
  let f := {| ptr := next t; fd := host_fd |} in
  let r := Slots.put_lowest desc (slots t) {| file := Some f; cloexec := c; peer := None |} in
  ({| slots := r.1; next := S (next t) |}, r.2).

Definition install_eventfd (t : FdTable) (read_end write_end : Z) (c : bool) : FdTable * Z :=
  let f := {| ptr := next t; fd := read_end |} in
  let p := {| ptr := S (next t); fd := write_end |} in
  let r := Slots.put_lowest desc (slots t) {| file := Some f; cloexec := c; peer := Some p |} in
  ({| slots := r.1; next := S (S (next t)) |}, r.2).

Definition close (t : FdTable) (g : Z) : FdTable * Z :=
  match host t g with
  | None => (t, -9)
  | Some _ => ({| slots := <[Z.to_nat g := empty]> (slots t); next := next t |}, 0)
  end.

Definition dup (t : FdTable) (g : Z) (to : option Z) (c : bool) : FdTable * Z :=
  match Slots.at_ (slots t) g with
  | Some src =>
      match file src with
      | None => (t, -9)
      | Some f =>
          match to with
          | None =>
              let r := Slots.put_lowest desc (slots t)
                         {| file := Some f; cloexec := c; peer := peer src |} in
              ({| slots := r.1; next := next t |}, r.2)
          | Some to =>
              if (to <? 0) || (Z.of_nat Posix.kMaxFds <=? to) then (t, -9)
              else if to =? g then (t, g)
              else (install_at t (Z.to_nat to) (Some f) c (peer src), to)
          end
      end
  | None => (t, -9)
  end.

Definition get_cloexec (t : FdTable) (g : Z) : bool :=
  match Slots.at_ (slots t) g with
  | Some s => bool_decide (is_Some (file s)) && cloexec s
  | None => false
  end.

Definition set_cloexec (t : FdTable) (g : Z) (on : bool) : FdTable :=
  match Slots.at_ (slots t) g with
  | Some s => if bool_decide (is_Some (file s))
              then {| slots := <[Z.to_nat g := {| file := file s; cloexec := on; peer := peer s |}]>
                                 (slots t);
                      next := next t |}
              else t
  | None => t
  end.

Definition write_host (t : FdTable) (g : Z) : option Z :=
  match Slots.at_ (slots t) g with
  | Some s => match file s with
              | None => None
              | Some f => Some (fd (default f (peer s)))
              end
  | None => None
  end.

Definition on_exec (t : FdTable) : FdTable :=
  {| slots := map (fun s => if cloexec s then empty else s) (slots t); next := next t |}.

(** ** Fork handoff *)

Record Exported := { guest : nat; group : Z; peer_group : Z; exp_cloexec : bool }.
Record Export := { entries : list Exported; host_fds : list Z }.

(** The state of the [group_of] closure: the objects seen, in order, and the
    host descriptor of each. *)
Definition seen_state : Type := (list nat * list Z)%type.

Fixpoint find_ptr (p : nat) (seen : list nat) : option nat :=
  match seen with
  | [] => None
  | q :: seen' => if (p =? q)%nat then Some 0%nat else S <$> find_ptr p seen'
  end.

Definition group_of (st : seen_state) (f : option HostFd) : seen_state * Z :=
  match f with
  | None => (st, -1)
  | Some h =>
      match find_ptr (ptr h) st.1 with
      | Some i => (st, Z.of_nat i)
      | None => ((st.1 ++ [ptr h], st.2 ++ [fd h]), Z.of_nat (length st.1))
      end
  end.

(** The export loop from slot number [g] on. *)
Fixpoint export_from (g : nat) (l : list Slot) (st : seen_state) : list Exported * seen_state :=
  match l with
  | [] => ([], st)
  | s :: l' =>
      match file s with
      | None => export_from (S g) l' st
      | Some _ =>
          let r1 := group_of st (file s) in
          let r2 := group_of r1.1 (peer s) in
          let r := export_from (S g) l' r2.1 in
          ({| guest := g; group := r1.2; peer_group := r2.2; exp_cloexec := cloexec s |} :: r.1,
           r.2)
      end
  end.

Definition export_table (t : FdTable) : Export :=
  let r := export_from 0 (slots t) ([], []) in
  {| entries := r.1; host_fds := r.2.2 |}.

(** [file_for]: the object of a group, made on first use. *)
Definition file_for (host_of_group : list Z) (files : list (option HostFd)) (nxt : nat) (gi : Z) :
    option HostFd * list (option HostFd) * nat :=
  if gi <? 0 then (None, files, nxt)
  else
    match files !! Z.to_nat gi, host_of_group !! Z.to_nat gi with
    | Some (Some f), _ => (Some f, files, nxt)
    | Some None, Some h => let f := {| ptr := nxt; fd := h |} in
                           (Some f, <[Z.to_nat gi := Some f]> files, S nxt)
    | _, _ => (None, files, nxt)
    end.

Fixpoint import_loop (hs : list Z) (ins : list Exported) (files : list (option HostFd))
    (t : FdTable) : FdTable :=
  match ins with
  | [] => t
  | e :: ins' =>
      let '(f, files1, n1) := file_for hs files (next t) (group e) in
      match f with
      | None => import_loop hs ins' files1 {| slots := slots t; next := n1 |}
      | Some f =>
          let '(p, files2, n2) := file_for hs files1 n1 (peer_group e) in
          import_loop hs ins' files2
            {| slots := slots (install_at t (guest e) (Some f) (exp_cloexec e) p); next := n2 |}
      end
  end.

Definition import_table (t : FdTable) (ins : list Exported) (host_of_group : list Z) : FdTable :=
  import_loop host_of_group ins (replicate (length host_of_group) None)
    {| slots := []; next := next t |}.

End DarwinFd.

(** * [runtime/windows/fd.hpp] *)

Module WindowsFd.

Record WinFd := { ptr : nat; handle : Z }.

Record DirEntry := { de_name : str; de_ino : Z; de_type : Z }.
Record DirCursor := { dc_entries : list DirEntry; dc_pos : nat; dc_loaded : bool }.

Record Slot := {
  file : option WinFd; cloexec : bool; append : bool; is_tty : bool;
  path : str; dir : option DirCursor
}.

Definition empty : Slot :=
  {| file := None; cloexec := false; append := false; is_tty := false; path := []; dir := None |}.

Record FdTable := { slots : list Slot; next : nat }.

Definition desc (s : Slot) : option (WinFd * bool) := (fun f => (f, cloexec s)) <$> file s.

(** [Slot{file, cloexec}] and [Slot{file, cloexec, append, tty}]. *)
Definition slot2 (f : option WinFd) (c : bool) : Slot :=
  {| file := f; cloexec := c; append := false; is_tty := false; path := []; dir := None |}.
Definition slot4 (f : option WinFd) (c a y : bool) : Slot :=
  {| file := f; cloexec := c; append := a; is_tty := y; path := []; dir := None |}.

Definition host (t : FdTable) (g : Z) : option Z :=
  handle <$> (Slots.at_ (slots t) g ≫= file).

Definition install_at (t : FdTable) (g : nat) (s : Slot) : FdTable :=
  {| slots := Slots.put_at empty (slots t) g s; next := next t |}.

(** [FdTable()]: [dups fd] is the duplicated standard handle and whether it
    is a character device, if the host gave one. *)
Definition init (dups : nat -> option (Z * bool)) : FdTable :=
  fold_left (fun t g => match dups g with
                        | Some (d, tty) =>
                            {| slots := slots (install_at t g
                                 (slot4 (Some {| ptr := next t; handle := d |}) false false tty));
                               next := S (next t) |}
                        | None => install_at t g (slot2 None false)
                        end)
            [0; 1; 2]%nat {| slots := []; next := 0 |}.

Definition install (t : FdTable) (h : Z) (c : bool) : FdTable * Z :=
  let r := Slots.put_lowest desc (slots t) (slot2 (Some {| ptr := next t; handle := h |}) c) in
  ({| slots := r.1; next := S (next t) |}, r.2).

Definition close (t : FdTable) (g : Z) : FdTable * Z :=
  match host t g with
  | None => (t, -9)
  | Some _ => ({| slots := <[Z.to_nat g := empty]> (slots t); next := next t |}, 0)
  end.

Definition dup (t : FdTable) (g : Z) (to : option Z) (c : bool) : FdTable * Z :=
  match Slots.at_ (slots t) g with
  | Some src =>
      match file src with
      | None => (t, -9)
      | Some f =>
          match to with
          | None =>
              let r := Slots.put_lowest desc (slots t)
                         (slot4 (Some f) c (append src) (is_tty src)) in
              ({| slots := r.1; next := next t |}, r.2)
          | Some to =>
              if (to <? 0) || (Z.of_nat Posix.kMaxFds <=? to) then (t, -9)
              else if to =? g then (t, g)
              else (install_at t (Z.to_nat to) (slot4 (Some f) c (append src) (is_tty src)), to)
          end
      end
  | None => (t, -9)
  end.

(** The accessors [set_cloexec], [set_append], [set_tty], [set_path] and
    [dir] change one field of an occupied slot. *)
Definition update (t : FdTable) (g : Z) (f : Slot -> Slot) : FdTable :=
  match Slots.at_ (slots t) g with
  | Some s => if bool_decide (is_Some (file s))
              then {| slots := <[Z.to_nat g := f s]> (slots t); next := next t |} else t
  | None => t
  end.

Definition set_cloexec (t : FdTable) (g : Z) (on : bool) : FdTable :=
  update t g (fun s => {| file := file s; cloexec := on; append := append s;
                          is_tty := is_tty s; path := path s; dir := dir s |}).
Definition set_append (t : FdTable) (g : Z) (on : bool) : FdTable :=
  update t g (fun s => {| file := file s; cloexec := cloexec s; append := on;
                          is_tty := is_tty s; path := path s; dir := dir s |}).
Definition set_tty (t : FdTable) (g : Z) (on : bool) : FdTable :=
  update t g (fun s => {| file := file s; cloexec := cloexec s; append := append s;
                          is_tty := on; path := path s; dir := dir s |}).
Definition set_path (t : FdTable) (g : Z) (p : str) : FdTable :=
  update t g (fun s => {| file := file s; cloexec := cloexec s; append := append s;
                          is_tty := is_tty s; path := p; dir := dir s |}).

(** [dir(g)]: the cursor of an occupied slot, made on first use. *)
Definition get_dir (t : FdTable) (g : Z) : FdTable * option DirCursor :=
  match Slots.at_ (slots t) g with
  | Some s =>
      if bool_decide (is_Some (file s)) then
        let c := default {| dc_entries := []; dc_pos := 0; dc_loaded := false |} (dir s) in
        (update t g (fun s => {| file := file s; cloexec := cloexec s; append := append s;
                                 is_tty := is_tty s; path := path s; dir := Some c |}), Some c)
      else (t, None)
  | None => (t, None)
  end.

Definition get_path (t : FdTable) (g : Z) : str :=
  match Slots.at_ (slots t) g with
  | Some s => if bool_decide (is_Some (file s)) then path s else []
  | None => []
  end.

Definition on_exec (t : FdTable) : FdTable :=
  {| slots := map (fun s => if cloexec s then empty else s) (slots t); next := next t |}.

Definition count (t : FdTable) : Z :=
  fold_left (fun n s => if bool_decide (is_Some (file s)) then n + 1 else n) (slots t) 0.

End WindowsFd.

(** * The three tables implement the POSIX one *)

Module Instances.

(** A table whose operations act on its slot vector as [Slots] does. *)
Section of_slots.
Context {T H F S : Type} (slots : T -> list S) (desc : S -> option (F * bool)) (empty : S).
Context (new : T -> H -> F) (new_slot : F -> bool -> S) (dup_slot : bool -> S -> S)
        (cloexec_slot : bool -> S -> S) (exec_slot : S -> S).
Context (install : T -> H -> bool -> T * Z) (close : T -> Z -> T * Z)
        (dup : T -> Z -> bool -> T * Z) (dup2 : T -> Z -> Z -> bool -> T * Z)
        (set_cloexec : T -> Z -> bool -> T) (on_exec : T -> T).
Hypothesis desc_empty : desc empty = None.
Hypothesis desc_new : forall f c, desc (new_slot f c) = Some (f, c).
Hypothesis desc_dup : forall c s, desc (dup_slot c s) = (fun d => (d.1, c)) <$> desc s.
Hypothesis desc_cloexec : forall c s, desc (cloexec_slot c s) = (fun d => (d.1, c)) <$> desc s.
Hypothesis desc_exec : forall s,
  desc (exec_slot s) = desc s ≫= (fun d => if d.2 : bool then None else Some d).
Hypothesis install_eq : forall t h c,
  (slots (install t h c).1, (install t h c).2)
  = Slots.put_lowest desc (slots t) (new_slot (new t h) c).
Hypothesis close_eq : forall t g,
  (slots (close t g).1, (close t g).2) = Slots.close desc empty (slots t) g.
Hypothesis dup_eq : forall t g c,
  (slots (dup t g c).1, (dup t g c).2) = Slots.dup desc (slots t) g (dup_slot c).
Hypothesis dup2_eq : forall t g to c, 0 <= to < Z.of_nat Posix.kMaxFds ->
  (slots (dup2 t g to c).1, (dup2 t g to c).2)
  = Slots.dup2 desc empty (slots t) g to (dup_slot c).
Hypothesis set_cloexec_eq : forall t g on,
  slots (set_cloexec t g on) = Slots.update desc (slots t) g (cloexec_slot on).
Hypothesis on_exec_eq : forall t, slots (on_exec t) = map exec_slot (slots t).

#[refine] Definition of_slots : FdTable T H F := {|
  fds_view t := Slots.view desc (slots t);
  fds_wf t := (length (slots t) <= Posix.kMaxFds)%nat;
  fds_new := new; fds_install := install; fds_close := close; fds_dup := dup;
  fds_dup2 := dup2; fds_set_cloexec := set_cloexec; fds_on_exec := on_exec
|}.
Proof.
  - intros t h c Hw. pose proof (install_eq t h c) as E. simplify_eq/=.
    rewrite (surjective_pairing (Slots.put_lowest _ _ _)) in E. injection E as -> ->.
    split; [by apply Slots.put_lowest_length|by apply Slots.put_lowest_view].
  - intros t g Hw. pose proof (close_eq t g) as E.
    rewrite (surjective_pairing (Slots.close _ _ _ _)) in E. injection E as -> ->.
    destruct (Slots.close_view desc empty desc_empty (slots t) g) as [-> ->]. done.
  - intros t g c Hw. pose proof (dup_eq t g c) as E.
    rewrite (surjective_pairing (Slots.dup _ _ _ _)) in E. injection E as -> ->.
    by apply Slots.dup_view.
  - intros t g to c Hw Ht. pose proof (dup2_eq t g to c Ht) as E.
    rewrite (surjective_pairing (Slots.dup2 _ _ _ _ _ _)) in E. injection E as -> ->.
    by apply Slots.dup2_view.
  - intros t g on Hw. rewrite set_cloexec_eq.
    destruct (Slots.update_view desc (slots t) g _ _ (desc_cloexec on)) as [-> ->]. done.
  - intros t Hw. rewrite on_exec_eq, length_map. split; [done|]. by apply Slots.on_exec_view.
Defined.
End of_slots.

#[export, refine] Instance darwin_table : FdTable DarwinFd.FdTable Z DarwinFd.HostFd :=
  of_slots DarwinFd.slots DarwinFd.desc DarwinFd.empty
    (fun t h => DarwinFd.Build_HostFd (DarwinFd.next t) h)
    (fun f c => DarwinFd.Build_Slot (Some f) c None)
    (fun c s => DarwinFd.Build_Slot (DarwinFd.file s) c (DarwinFd.peer s))
    (fun c s => DarwinFd.Build_Slot (DarwinFd.file s) c (DarwinFd.peer s))
    (fun s => if DarwinFd.cloexec s then DarwinFd.empty else s)
    DarwinFd.install DarwinFd.close (fun t g c => DarwinFd.dup t g None c)
    (fun t g to c => DarwinFd.dup t g (Some to) c) DarwinFd.set_cloexec DarwinFd.on_exec
    _ _ _ _ _ _ _ _ _ _ _.
Proof.
  all: try done.
  - by intros c [[]].
  - by intros c [[]].
  - by intros [[] []].
  - intros t h c. unfold DarwinFd.install. by destruct (Slots.put_lowest _ _ _).
  - intros t g. unfold DarwinFd.close, DarwinFd.host, Slots.close.
    destruct (Slots.at_ _ g) as [[[]]|]; done.
  - intros t g c. unfold DarwinFd.dup, Slots.dup.
    destruct (Slots.at_ _ g) as [[[f|]]|]; simpl; try done. by destruct (Slots.put_lowest _ _ _).
  - intros t g to c Ht. unfold DarwinFd.dup, Slots.dup2.
    rewrite (proj2 (Z.ltb_ge to 0)), (proj2 (Z.leb_gt _ to)) by lia.
    destruct (Slots.at_ _ g) as [[[f|]]|]; simpl; try done. by destruct (to =? g).
  - intros t g on. unfold DarwinFd.set_cloexec, Slots.update.
    destruct (Slots.at_ _ g) as [[[f|]]|]; done.
Defined.

#[export, refine] Instance windows_table : FdTable WindowsFd.FdTable Z WindowsFd.WinFd :=
  of_slots WindowsFd.slots WindowsFd.desc WindowsFd.empty
    (fun t h => WindowsFd.Build_WinFd (WindowsFd.next t) h)
    (fun f c => WindowsFd.slot2 (Some f) c)
    (fun c s => WindowsFd.slot4 (WindowsFd.file s) c (WindowsFd.append s) (WindowsFd.is_tty s))
    (fun c s => WindowsFd.Build_Slot (WindowsFd.file s) c (WindowsFd.append s)
                  (WindowsFd.is_tty s) (WindowsFd.path s) (WindowsFd.dir s))
    (fun s => if WindowsFd.cloexec s then WindowsFd.empty else s)
    WindowsFd.install WindowsFd.close (fun t g c => WindowsFd.dup t g None c)
    (fun t g to c => WindowsFd.dup t g (Some to) c) WindowsFd.set_cloexec WindowsFd.on_exec
    _ _ _ _ _ _ _ _ _ _ _.
Proof.
  all: try done.
  - by intros c [[]].
  - by intros c [[]].
  - by intros [[] []].
  - intros t h c. unfold WindowsFd.install. by destruct (Slots.put_lowest _ _ _).
  - intros t g. unfold WindowsFd.close, WindowsFd.host, Slots.close.
    destruct (Slots.at_ _ g) as [[[]]|]; done.
  - intros t g c. unfold WindowsFd.dup, Slots.dup.
    destruct (Slots.at_ _ g) as [[[f|]]|]; simpl; try done. by destruct (Slots.put_lowest _ _ _).
  - intros t g to c Ht. unfold WindowsFd.dup, Slots.dup2.
    rewrite (proj2 (Z.ltb_ge to 0)), (proj2 (Z.leb_gt _ to)) by lia.
    destruct (Slots.at_ _ g) as [[[f|]]|]; simpl; try done. by destruct (to =? g).
  - intros t g on. unfold WindowsFd.set_cloexec, WindowsFd.update, Slots.update.
    destruct (Slots.at_ _ g) as [[[f|]]|]; done.
Defined.

(** The shared template, at any file and extra type. *)
#[refine] Definition slots_table {F E : Type} (e0 : E) : FdTable (list (FdSlots.Slot F E)) F F :=
  of_slots id FdSlots.desc (FdSlots.empty e0)
    (fun _ f => f)
    (fun f c => FdSlots.Build_Slot (Some f) c e0)
    (fun c s => FdSlots.Build_Slot (FdSlots.file s) c e0)
    (fun c s => FdSlots.Build_Slot (FdSlots.file s) c (FdSlots.extra s))
    (fun s => if FdSlots.occupied s && FdSlots.cloexec s then FdSlots.empty e0 else s)
    (fun t f c => FdSlots.install t f c e0) (FdSlots.close e0)
    (fun t g c => FdSlots.dup t g c e0) (fun t g to c => FdSlots.dup_to e0 t g to c e0)
    FdSlots.set_cloexec (FdSlots.on_exec e0)
    _ _ _ _ _ _ _ _ _ _ _.
Proof.
  all: try done.
  - by intros c [[]].
  - by intros c [[]].
  - by intros [[] []].
  - intros t h c. unfold FdSlots.install. by destruct (Slots.put_lowest _ _ _).
  - intros t g. unfold FdSlots.close, Slots.close.
    destruct (Slots.at_ _ g) as [[[]]|]; done.
  - intros t g c. unfold FdSlots.dup, Slots.dup, FdSlots.install.
    destruct (Slots.at_ _ g) as [[[f|]]|]; simpl; try done. by destruct (Slots.put_lowest _ _ _).
  - intros t g to c Ht. unfold FdSlots.dup_to, FdSlots.install_at, Slots.dup2.
    rewrite (proj2 (Z.ltb_ge to 0)) by lia. rewrite (Z.eqb_sym g to).
    destruct (Slots.at_ _ g) as [[[f|]]|]; simpl; try done.
    destruct (Z.eqb_spec to g) as [->|]; done.
  - intros t g on. unfold FdSlots.set_cloexec, Slots.update, FdSlots.occupied.
    destruct (Slots.at_ _ g) as [[[f|]]|]; done.
Defined.

End Instances.

(** * The fork handoff keeps descriptors and their sharing *)

Module Fork.
Import DarwinFd.

(** The number a reference is exported under, given every object seen. *)
Definition number (seen : list nat) (f : option HostFd) : Z :=
  match f with
  | None => -1
  | Some h => match find_ptr (ptr h) seen with Some i => Z.of_nat i | None => -1 end
  end.

(** The entries the export lists, given every object seen. *)
Fixpoint entries_of (seen : list nat) (g : nat) (l : list Slot) : list Exported :=
  match l with
  | [] => []
  | s :: l' =>
      match file s with
      | None => entries_of seen (S g) l'
      | Some _ => {| guest := g; group := number seen (file s);
                     peer_group := number seen (peer s); exp_cloexec := cloexec s |}
                  :: entries_of seen (S g) l'
      end
  end.

Lemma find_ptr_app p seen x i :
  find_ptr p seen = Some i -> find_ptr p (seen ++ x) = Some i.
Proof.
  revert i. induction seen as [|q seen IH]; intros i; simpl; [done|].
  destruct (p =? q)%nat; [done|]. destruct (find_ptr p seen); [|done].
  simpl. intros [= <-]. by rewrite (IH _ eq_refl).
Qed.

Lemma find_ptr_lookup p seen i : find_ptr p seen = Some i -> seen !! i = Some p.
Proof.
  revert i. induction seen as [|q seen IH]; intros i; simpl; [done|].
  destruct (Nat.eqb_spec p q) as [->|]; [by intros [= <-]|].
  destruct (find_ptr p seen) as [k|]; [|done]. intros [= <-]. by apply IH.
Qed.

Lemma find_ptr_new p seen :
  find_ptr p seen = None -> find_ptr p (seen ++ [p]) = Some (length seen).
Proof.
  induction seen as [|q seen IH]; simpl; [by rewrite Nat.eqb_refl|].
  destruct (p =? q)%nat; [done|]. destruct (find_ptr p seen); [done|].
  intros _. by rewrite (IH eq_refl).
Qed.

Lemma find_ptr_other p q seen :
  p <> q -> find_ptr p (seen ++ [q]) = find_ptr p seen.
Proof.
  intros Hn. induction seen as [|x seen IH]; simpl.
  - destruct (Nat.eqb_spec p q); done.
  - destruct (p =? x)%nat; [done|]. by rewrite IH.
Qed.

(** The host descriptor recorded for an object is that object's. *)
Definition seen_ok (objs : HostFd -> Prop) (st : seen_state) : Prop :=
  length st.2 = length st.1 /\
  forall h i, objs h -> find_ptr (ptr h) st.1 = Some i -> st.2 !! i = Some (fd h).

(** Objects with one identity are one object. *)
Definition coherent (objs : HostFd -> Prop) : Prop :=
  forall h h', objs h -> objs h' -> ptr h = ptr h' -> h = h'.

Lemma group_of_spec objs st f :
  coherent objs -> seen_ok objs st -> (forall h, f = Some h -> objs h) ->
  let r := group_of st f in
  seen_ok objs r.1 /\ (exists x, r.1.1 = st.1 ++ x) /\
  (forall x, number (r.1.1 ++ x) f = r.2) /\
  (forall h, f = Some h -> is_Some (find_ptr (ptr h) r.1.1)).
Proof.
  intros Hc [Hl Hs] Hf. destruct f as [h|]; cbn [group_of number].
  2:{ split_and!; [done|by exists []; rewrite app_nil_r|done|done]. }
  destruct (find_ptr (ptr h) st.1) as [i|] eqn:E; cbn [fst snd].
  - split_and!; [done|by exists []; rewrite app_nil_r| |intros ? [= <-]; by eauto].
    intros x. by rewrite (find_ptr_app _ _ _ _ E).
  - pose proof (find_ptr_new _ _ E) as En. split_and!.
    + split; cbn [fst snd]; [rewrite !length_app, Hl; done|].
      intros h' i Ho Hi. destruct (find_ptr (ptr h') st.1) as [j|] eqn:E'.
      * rewrite (find_ptr_app _ _ _ _ E') in Hi. simplify_eq.
        rewrite lookup_app_l; [by apply Hs|]. eapply lookup_lt_Some, Hs; done.
      * destruct (decide (ptr h' = ptr h)) as [Ep|Np].
        -- rewrite Ep, En in Hi. simplify_eq. rewrite <- Hl, list_lookup_middle by done.
           do 2 f_equal. by apply Hc; [apply Hf|..].
        -- rewrite find_ptr_other in Hi by done. congruence.
    + by exists [ptr h].
    + intros x. by rewrite (find_ptr_app _ _ _ _ En).
    + intros ? [= <-]. by eauto.
Qed.

(** The objects a slot vector refers to. *)
Definition refers (l : list Slot) (h : HostFd) : Prop :=
  exists s, s ∈ l /\ is_Some (file s) /\ (file s = Some h \/ peer s = Some h).

Lemma refers_cons s l h : refers l h -> refers (s :: l) h.
Proof. intros (s' & Hs & H). exists s'. split; [by right|done]. Qed.

Lemma export_from_spec objs l : forall g st,
  coherent objs -> seen_ok objs st -> (forall h, refers l h -> objs h) ->
  let r := export_from g l st in
  seen_ok objs r.2 /\ (exists x, r.2.1 = st.1 ++ x) /\
  (forall x, r.1 = entries_of (r.2.1 ++ x) g l) /\
  (forall h, refers l h -> is_Some (find_ptr (ptr h) r.2.1)).
Proof.
  induction l as [|s l IH]; intros g st Hc Hs Ho; cbn [export_from entries_of].
  { split_and!; [done|by exists []; rewrite app_nil_r|done|].
    intros h (s & Hin & _). by apply not_elem_of_nil in Hin. }
  assert (Ho' : forall h, refers l h -> objs h) by (intros h H; by apply Ho, refers_cons).
  destruct (file s) as [f|] eqn:Ef.
  2:{ destruct (IH (S g) st Hc Hs Ho') as (H1 & H2 & H3 & H4). split_and!; try done.
      intros h (s' & Hin & Hf & Hr). apply elem_of_cons in Hin as [->|Hin].
      - rewrite Ef in Hf. by destruct Hf.
      - apply H4. by exists s'. }
  assert (Hin : s ∈ s :: l) by by left.
  destruct (group_of_spec objs st (Some f) Hc Hs) as (A1 & [x1 A2] & A3 & A4).
  { intros h E. apply Ho. exists s. rewrite Ef. eauto. }
  destruct (group_of_spec objs _ (peer s) Hc A1) as (B1 & [x2 B2] & B3 & B4).
  { intros h E. apply Ho. exists s. rewrite Ef. eauto. }
  destruct (IH (S g) _ Hc B1 Ho') as (C1 & [x3 C2] & C3 & C4).
  cbn [fst snd]. split_and!; [done| | |].
  - exists (x1 ++ x2 ++ x3). by rewrite C2, B2, A2, !app_assoc.
  - intros x. f_equal; [|apply C3]. f_equal.
    + by rewrite C2, B2, <- !app_assoc, A3.
    + by rewrite C2, <- app_assoc, B3.
  - intros h (s' & Hi & Hf & Hr). apply elem_of_cons in Hi as [->|Hi]; [|apply C4; by exists s'].
    rewrite C2. destruct Hr as [E|E].
    + rewrite Ef in E. destruct (A4 h E) as [i Hi]. exists i.
      rewrite B2, <- app_assoc. by apply find_ptr_app.
    + destruct (B4 h E) as [i Hi]. exists i. by apply find_ptr_app.
Qed.

(** ** The import side *)

(** The object behind a group number. *)
Definition obj (files : list (option HostFd)) (gi : Z) : option HostFd :=
  if gi <? 0 then None else mjoin (files !! Z.to_nat gi).

(** The objects made so far own the host descriptor of their group, and are
    distinct. *)
Record files_ok (hs : list Z) (files : list (option HostFd)) (nxt : nat) : Prop := {
  fo_length : length files = length hs;
  fo_fd : forall i f, files !! i = Some (Some f) -> hs !! i = Some (fd f) /\ (ptr f < nxt)%nat;
  fo_inj : forall i j f f', files !! i = Some (Some f) -> files !! j = Some (Some f') ->
             ptr f = ptr f' -> i = j
}.

Definition extends (files files' : list (option HostFd)) : Prop :=
  forall i f, files !! i = Some (Some f) -> files' !! i = Some (Some f).

Lemma extends_obj files files' gi f :
  extends files files' -> obj files gi = Some f -> obj files' gi = Some f.
Proof.
  unfold obj. intros He. destruct (gi <? 0); [done|].
  destruct (files !! Z.to_nat gi) as [[f'|]|] eqn:E; simpl; intros [= ->].
  by rewrite (He _ _ E).
Qed.

Lemma file_for_spec hs files nxt gi :
  files_ok hs files nxt -> gi < Z.of_nat (length hs) ->
  let '(f, files', nxt') := file_for hs files nxt gi in
  files_ok hs files' nxt' /\ extends files files' /\ f = obj files' gi /\
  (0 <= gi -> is_Some f).
Proof.
  intros Hok Hgi. unfold file_for, obj. destruct (Z.ltb_spec gi 0) as [L|L].
  { split_and!; [done|by intros ?|done|lia]. }
  assert (Hi : (Z.to_nat gi < length hs)%nat) by lia.
  destruct (lookup_lt_is_Some_2 hs _ Hi) as [h Eh].
  destruct (lookup_lt_is_Some_2 files (Z.to_nat gi)) as [[f|] Ef].
  { by rewrite (fo_length _ _ _ Hok). }
  - rewrite Ef. split_and!; [done|by intros ?|by rewrite Ef|by eauto].
  - rewrite Ef, Eh. destruct Hok as [Hl Hfd Hinj].
    assert (Hlt : (Z.to_nat gi < length files)%nat) by (by rewrite Hl).
    split_and!.
    + split; [by rewrite length_insert| |].
      * intros i f Hf. destruct (decide (i = Z.to_nat gi)) as [->|Hne].
        -- rewrite list_lookup_insert_eq in Hf by done. simplify_eq/=. split; [done|lia].
        -- rewrite list_lookup_insert_ne in Hf by done.
           destruct (Hfd i f Hf). split; [done|lia].
      * intros i j f f' Hf Hf' Ep.
        destruct (decide (i = Z.to_nat gi)) as [->|Hi'], (decide (j = Z.to_nat gi)) as [->|Hj];
          [done| | |]; repeat first [rewrite list_lookup_insert_eq in Hf by done
                                    |rewrite list_lookup_insert_ne in Hf by done
                                    |rewrite list_lookup_insert_eq in Hf' by done
                                    |rewrite list_lookup_insert_ne in Hf' by done];
          simplify_eq/=.
        -- destruct (Hfd _ _ Hf'). lia.
        -- destruct (Hfd _ _ Hf). lia.
        -- by eapply Hinj.
    + intros i f Hf. rewrite list_lookup_insert_ne; [done|]. congruence.
    + by rewrite list_lookup_insert_eq by done.
    + by eauto.
Qed.

Lemma lookup_put_at l i s n :
  Slots.put_at empty l i s !! n =
  if decide (n = i) then Some s
  else match l !! n with Some x => Some x
       | None => if decide (n < i)%nat then Some empty else None end.
Proof.
  unfold Slots.put_at. destruct (decide (n = i)) as [->|Hn].
  { rewrite list_lookup_insert_eq; [done|]. rewrite length_app, length_replicate. lia. }
  rewrite list_lookup_insert_ne by done. destruct (l !! n) as [x|] eqn:E.
  { by apply lookup_app_l_Some. }
  apply lookup_ge_None in E. rewrite lookup_app_r by done.
  destruct (decide (n < i)%nat); [apply lookup_replicate_2; lia|].
  apply lookup_ge_None. rewrite length_replicate. lia.
Qed.

Definition entry_ok (n : nat) (e : Exported) : Prop :=
  0 <= group e < Z.of_nat n /\ peer_group e < Z.of_nat n.

(** The slot an entry becomes. *)
Definition entry_slot (files : list (option HostFd)) (e : Exported) : Slot :=
  {| file := obj files (group e); cloexec := exp_cloexec e; peer := obj files (peer_group e) |}.

Lemma import_loop_spec hs ins : forall files t,
  files_ok hs files (next t) -> Forall (entry_ok (length hs)) ins -> NoDup (guest <$> ins) ->
  let t' := import_loop hs ins files t in
  exists filesF,
    extends files filesF /\ files_ok hs filesF (next t') /\
    (forall e, e ∈ ins -> slots t' !! guest e = Some (entry_slot filesF e) /\
                          is_Some (obj filesF (group e)) /\
                          (0 <= peer_group e -> is_Some (obj filesF (peer_group e)))) /\
    (forall n, n ∉ (guest <$> ins) -> slots t' !! n ≫= desc = slots t !! n ≫= desc /\
               (forall s, slots t !! n = Some s -> slots t' !! n = Some s)).
Proof.
  induction ins as [|e ins IH]; intros files t Hok Hent Hnd; cbn [import_loop].
  { exists files. split_and!; [by intros ?|done| |done]. intros e He.
    by apply not_elem_of_nil in He. }
  apply Forall_cons in Hent as [[Hg Hp] Hent].
  rewrite fmap_cons in Hnd. apply NoDup_cons in Hnd as [Hnew Hnd].
  pose proof (file_for_spec hs files (next t) (group e) Hok ltac:(lia)) as H1.
  destruct (file_for hs files (next t) (group e)) as [[f files1] n1].
  destruct H1 as (Hok1 & Hx1 & -> & Hf). destruct (Hf ltac:(lia)) as [f Ef]. rewrite Ef.
  pose proof (file_for_spec hs files1 n1 (peer_group e) Hok1 Hp) as H2.
  destruct (file_for hs files1 n1 (peer_group e)) as [[q files2] n2].
  destruct H2 as (Hok2 & Hx2 & -> & Hq).
  destruct (IH files2 {| slots := slots (install_at t (guest e) (Some f) (exp_cloexec e)
                                           (obj files2 (peer_group e))); next := n2 |}
              Hok2 Hent Hnd) as (filesF & Hx & HokF & Hin & Hout).
  pose proof (extends_obj _ _ _ _ Hx (extends_obj _ _ _ _ Hx2 Ef)) as EfF.
  assert (Eq : obj filesF (peer_group e) = obj files2 (peer_group e)).
  { destruct (obj files2 (peer_group e)) as [q|] eqn:E; [by apply (extends_obj files2)|].
    destruct (Z.lt_ge_cases (peer_group e) 0) as [L|L].
    - unfold obj. by rewrite (proj2 (Z.ltb_lt _ _) L).
    - by destruct (Hq L). }
  exists filesF. split_and!; [intros i x Hi; by apply Hx, Hx2, Hx1|done| |].
  - intros e' [->|He']%elem_of_cons; [|by apply Hin].
    split_and!; [|by eauto|by rewrite Eq].
    destruct (Hout _ Hnew) as [_ Hs]. rewrite (Hs {| file := Some f; cloexec := exp_cloexec e;
        peer := obj files2 (peer_group e) |}).
    + unfold entry_slot. by rewrite EfF, Eq.
    + cbn [slots install_at]. rewrite lookup_put_at. by rewrite decide_True.
  - intros n Hn. rewrite fmap_cons in Hn. apply not_elem_of_cons in Hn as [Hne Hn].
    destruct (Hout n Hn) as [-> Hs]. cbn [slots install_at] in *.
    rewrite lookup_put_at in Hs |- *. rewrite decide_False in Hs |- * by done. split.
    + destruct (slots t !! n); [done|]. by destruct (decide (n < guest e)%nat).
    + intros s E. rewrite E in Hs. by apply Hs.
Qed.

(** What the entries say about each slot. *)
Lemma entries_of_guest seen l : forall g e,
  e ∈ entries_of seen g l ->
  exists i s f, guest e = (g + i)%nat /\ l !! i = Some s /\ file s = Some f /\
    e = {| guest := (g + i)%nat; group := number seen (file s);
           peer_group := number seen (peer s); exp_cloexec := cloexec s |}.
Proof.
  induction l as [|s l IH]; intros g e; cbn [entries_of].
  { intros H. by apply not_elem_of_nil in H. }
  assert (Hrec : e ∈ entries_of seen (S g) l -> exists i s' f, guest e = (g + i)%nat /\
    (s :: l) !! i = Some s' /\ file s' = Some f /\
    e = {| guest := (g + i)%nat; group := number seen (file s');
           peer_group := number seen (peer s'); exp_cloexec := cloexec s' |}).
  { intros (i & s' & f & H1 & H2 & H3 & H4)%IH. exists (S i), s', f.
    rewrite <- Nat.add_succ_comm. done. }
  destruct (file s) as [f|] eqn:Ef; [|done].
  intros [->|He]%elem_of_cons; [|by apply Hrec].
  exists 0%nat, s, f. rewrite Nat.add_0_r. by rewrite Ef.
Qed.

Lemma entries_of_slot seen l : forall g i s f,
  l !! i = Some s -> file s = Some f ->
  {| guest := (g + i)%nat; group := number seen (file s);
     peer_group := number seen (peer s); exp_cloexec := cloexec s |} ∈ entries_of seen g l.
Proof.
  induction l as [|x l IH]; intros g [|i] s f Hl Hf; simplify_eq/=.
  - rewrite Hf, Nat.add_0_r. by left.
  - rewrite <- Nat.add_succ_comm. destruct (file x); [right|]; by eapply IH.
Qed.

Lemma entries_of_NoDup seen l : forall g, NoDup (guest <$> entries_of seen g l).
Proof.
  induction l as [|s l IH]; intros g; cbn [entries_of]; [constructor|].
  destruct (file s); [|apply IH]. rewrite fmap_cons. apply NoDup_cons. split; [|apply IH].
  cbn [guest]. intros (e & E & He)%list_elem_of_fmap.
  apply entries_of_guest in He as (i & s' & f & Hg & _). lia.
Qed.

(** The image of an occupied slot under a renaming of the open files. *)
Definition rename_slot (ren : HostFd -> HostFd) (s : Slot) : Slot :=
  {| file := ren <$> file s; cloexec := cloexec s; peer := ren <$> peer s |}.

Definition occupied (l : list Slot) (n : nat) : option Slot :=
  s ← l !! n; if bool_decide (is_Some (file s)) then Some s else None.

Lemma occupied_some l n s f : l !! n = Some s -> file s = Some f -> occupied l n = Some s.
Proof. intros Hs Hf. unfold occupied. rewrite Hs. simpl. by rewrite Hf. Qed.

Lemma occupied_none l n : l !! n ≫= desc = None -> occupied l n = None.
Proof.
  unfold occupied. destruct (l !! n) as [s|]; [|done]. cbn. unfold desc.
  by destruct (file s).
Qed.

(** The export, summarised: each reference is numbered by the position of
    its object in the recorded host descriptors. *)
Lemma export_table_spec t :
  coherent (refers (slots t)) ->
  exists seen, entries (export_table t) = entries_of seen 0 (slots t) /\
    length (host_fds (export_table t)) = length seen /\
    forall h, refers (slots t) h -> exists i, find_ptr (ptr h) seen = Some i /\
      host_fds (export_table t) !! i = Some (fd h).
Proof.
  intros Hc.
  destruct (export_from_spec (refers (slots t)) (slots t) 0 ([], []) Hc)
    as ([Hl Hs] & _ & He & Hr); [by split|done|].
  exists (export_from 0 (slots t) ([], [])).2.1. split_and!; [|done|].
  - specialize (He []). by rewrite app_nil_r in He.
  - intros h Hh. destruct (Hr h Hh) as [i Hi]. exists i. split; [done|]. by apply Hs.
Qed.

Lemma import_table_spec t0 ins hs :
  Forall (entry_ok (length hs)) ins -> NoDup (guest <$> ins) ->
  let c := import_table t0 ins hs in
  exists files, files_ok hs files (next c) /\
    (forall e, e ∈ ins -> slots c !! guest e = Some (entry_slot files e) /\
                          is_Some (obj files (group e)) /\
                          (0 <= peer_group e -> is_Some (obj files (peer_group e)))) /\
    (forall n, n ∉ (guest <$> ins) -> slots c !! n ≫= desc = None).
Proof.
  intros He Hn.
  destruct (import_loop_spec hs ins (replicate (length hs) None) {| slots := []; next := next t0 |})
    as (files & _ & Hok & Hin & Hout); [|done|done|].
  { split; [by rewrite length_replicate| |];
      intros * Hf; apply lookup_replicate in Hf as [? _]; done. }
  exists files. split_and!; [done|done|]. intros n Hni. exact (proj1 (Hout n Hni)).
Qed.

Lemma number_obj hs seen files nxt h i :
  files_ok hs files nxt -> find_ptr (ptr h) seen = Some i ->
  is_Some (obj files (number seen (Some h))) ->
  exists f, obj files (number seen (Some h)) = Some f /\ files !! i = Some (Some f) /\
            hs !! i = Some (fd f).
Proof.
  intros Hok E [f Hf]. exists f. split; [done|]. revert Hf. unfold obj. cbn [number]. rewrite E.
  rewrite (proj2 (Z.ltb_ge _ 0)), Nat2Z.id by lia.
  destruct (files !! i) as [[f'|]|] eqn:Ef; simpl; intros [= ->].
  split; [done|]. by apply (fo_fd _ _ _ Hok).
Qed.

Lemma refers_entry seen l h :
  refers l h -> exists e, e ∈ entries_of seen 0 l /\
    (group e = number seen (Some h) \/ peer_group e = number seen (Some h)).
Proof.
  intros (s & Hs & [f Hf] & Hr). apply list_elem_of_lookup in Hs as [i Hi].
  eexists. split; [by apply (entries_of_slot seen l 0 i s f)|]. cbn [group peer_group].
  destruct Hr as [-> | ->]; [by left|by right].
Qed.

(** Every exported number is in range. *)
Lemma entries_ok seen l n :
  length seen = n -> (forall h, refers l h -> is_Some (find_ptr (ptr h) seen)) ->
  Forall (entry_ok n) (entries_of seen 0 l).
Proof.
  intros Hn Hr. apply Forall_forall. intros e He.
  apply entries_of_guest in He as (i & s & f & _ & Hs & Hf & ->).
  assert (Hnum : forall h, refers l h -> 0 <= number seen (Some h) < Z.of_nat n).
  { intros h Hh. destruct (Hr h Hh) as [k Hk]. cbn [number]. rewrite Hk.
    apply find_ptr_lookup, lookup_lt_Some in Hk. lia. }
  assert (Hin : s ∈ l) by by eapply list_elem_of_lookup_2.
  split; cbn [group peer_group].
  - rewrite Hf. apply Hnum. exists s. rewrite Hf. eauto.
  - destruct (peer s) as [q|] eqn:Eq; [|cbn [number]; lia].
    apply Hnum. exists s. rewrite Hf. eauto.
Qed.

(** The occupied slots of the child, given what each entry became. *)
Lemma occupied_image seen files l lc ren n :
  (forall e, e ∈ entries_of seen 0 l -> lc !! guest e = Some (entry_slot files e) /\
             is_Some (obj files (group e)) /\
             (0 <= peer_group e -> is_Some (obj files (peer_group e)))) ->
  (forall n, n ∉ (guest <$> entries_of seen 0 l) -> lc !! n ≫= desc = None) ->
  (forall h, refers l h -> obj files (number seen (Some h)) = Some (ren h)) ->
  occupied lc n = rename_slot ren <$> occupied l n.
Proof.
  intros Hin Hout Hobj.
  destruct (l !! n) as [s|] eqn:Es; [destruct (file s) as [f|] eqn:Ef|].
  - destruct (Hin _ (entries_of_slot seen l 0 n s f Es Ef)) as (H1 & H2 & _).
    change (lc !! n = Some (entry_slot files {| guest := n; group := number seen (file s);
      peer_group := number seen (peer s); exp_cloexec := cloexec s |})) in H1.
    assert (Hs : s ∈ l) by by eapply list_elem_of_lookup_2.
    assert (E1 : obj files (number seen (file s)) = Some (ren f)).
    { rewrite Ef. apply Hobj. exists s. rewrite Ef. eauto. }
    assert (E2 : obj files (number seen (peer s)) = ren <$> peer s).
    { destruct (peer s) as [q|] eqn:Eq; [|done]. apply Hobj. exists s. rewrite Ef. eauto. }
    assert (Ec : entry_slot files {| guest := n; group := number seen (file s);
      peer_group := number seen (peer s); exp_cloexec := cloexec s |} = rename_slot ren s).
    { unfold entry_slot, rename_slot. cbn [group peer_group exp_cloexec].
      by rewrite E1, E2, Ef. }
    rewrite (occupied_some l n s f), (occupied_some lc n (rename_slot ren s) (ren f)); try done.
    + by rewrite H1, Ec.
    + unfold rename_slot. cbn [file]. by rewrite Ef.
  - rewrite (occupied_none l n) by (rewrite Es; simpl; unfold desc; by rewrite Ef).
    apply (occupied_none lc n), Hout.
    intros (e & -> & He)%list_elem_of_fmap.
    apply entries_of_guest in He as (i & s' & f & Hg & Hs & Hf & _). cbn in Hg.
    rewrite Hg in Es. congruence.
  - rewrite (occupied_none l n) by by rewrite Es.
    apply (occupied_none lc n), Hout.
    intros (e & -> & He)%list_elem_of_fmap.
    apply entries_of_guest in He as (i & s' & f & Hg & Hs & Hf & _). cbn in Hg.
    rewrite Hg in Es. congruence.
Qed.

(** The handoff, for a table whose identities are those of distinct objects. *)
Lemma fork_handoff_coherent (t t0 : FdTable) (hs : list Z) :
  coherent (refers (slots t)) ->
  length hs = length (host_fds (export_table t)) ->
  let c := import_table t0 (entries (export_table t)) hs in
  exists ren : HostFd -> HostFd,
    (forall n, occupied (slots c) n = rename_slot ren <$> occupied (slots t) n) /\
    (forall h h', refers (slots t) h -> refers (slots t) h' ->
                  (ptr (ren h) = ptr (ren h') <-> ptr h = ptr h')) /\
    (forall h, refers (slots t) h ->
       exists i, host_fds (export_table t) !! i = Some (fd h) /\ hs !! i = Some (fd (ren h))).
Proof.
  intros Hc Hlen. destruct (export_table_spec t Hc) as (seen & Ee & El & Er).
  assert (Hr : forall h, refers (slots t) h -> is_Some (find_ptr (ptr h) seen))
    by (intros h Hh; destruct (Er h Hh) as (i & -> & _); by eauto).
  rewrite Ee.
  destruct (import_table_spec t0 (entries_of seen 0 (slots t)) hs)
    as (files & Hok & Hin & Hout); [apply entries_ok; [lia|done]|apply entries_of_NoDup|].
  pose (ren h := default h (obj files (number seen (Some h)))).
  assert (Hobj : forall h, refers (slots t) h -> exists i,
            find_ptr (ptr h) seen = Some i /\ obj files (number seen (Some h)) = Some (ren h) /\
            files !! i = Some (Some (ren h)) /\ hs !! i = Some (fd (ren h))).
  { intros h Hh. destruct (Hr h Hh) as [i Hi]. exists i. split; [done|].
    destruct (refers_entry seen _ h Hh) as (e & He & Hg).
    destruct (Hin e He) as (_ & H1 & H2).
    destruct (number_obj hs seen files _ h i Hok Hi) as (f & Hf & H3 & H4).
    - destruct Hg as [<- | Hg]; [done|]. rewrite <- Hg. apply H2. rewrite Hg.
      cbn [number]. rewrite Hi. lia.
    - unfold ren. rewrite Hf. done. }
  exists ren. split_and!.
  - intros n. apply occupied_image with (files := files) (seen := seen); try done.
    intros h Hh. by destruct (Hobj h Hh) as (i & _ & ? & _).
  - intros h h' Hh Hh'. destruct (Hobj h Hh) as (i & Hi & _ & Fi & _).
    destruct (Hobj h' Hh') as (i' & Hi' & _ & Fi' & _). split.
    + intros E. assert (i = i') as <- by (by eapply (fo_inj _ _ _ Hok)).
      apply find_ptr_lookup in Hi, Hi'. congruence.
    + intros E. by rewrite (Hc h h' Hh Hh' E).
  - intros h Hh. destruct (Hobj h Hh) as (i & Hi & _ & _ & H2).
    destruct (Er h Hh) as (i' & Hi' & H1). exists i. by simplify_eq.
Qed.

(** ** Tables built by the operations are coherent *)

(** Identities below [next], one object each. *)
Definition alloc_ok (t : FdTable) : Prop :=
  coherent (refers (slots t)) /\ forall h, refers (slots t) h -> (ptr h < next t)%nat.

(** An operation that keeps old references and adds objects with new,
    distinct identities. *)
Lemma alloc_ok_new t t' (new : list HostFd) :
  alloc_ok t -> (next t <= next t')%nat ->
  (forall h, refers (slots t') h -> refers (slots t) h \/ h ∈ new) ->
  (forall h, h ∈ new -> (next t <= ptr h < next t')%nat) ->
  (forall h h', h ∈ new -> h' ∈ new -> ptr h = ptr h' -> h = h') ->
  alloc_ok t'.
Proof.
  intros [Hc Hl] Hn Hr Hnew Hd. split.
  - intros h h' Hh Hh' E. destruct (Hr h Hh) as [A|A], (Hr h' Hh') as [B|B].
    + by apply Hc.
    + specialize (Hl h A). specialize (Hnew h' B). lia.
    + specialize (Hl h' B). specialize (Hnew h A). lia.
    + by apply Hd.
  - intros h Hh. destruct (Hr h Hh) as [A|A]; [specialize (Hl h A)|specialize (Hnew h A)]; lia.
Qed.

Lemma elem_of_put_lowest l s x : x ∈ (Slots.put_lowest desc l s).1 -> x ∈ l \/ x = s.
Proof.
  unfold Slots.put_lowest. destruct (Slots.scan desc l); cbn [fst].
  - intros (j & Hj)%list_elem_of_lookup. apply list_lookup_insert_Some in Hj as [(_ & -> & _)|[_ Hj]];
      [by right|left; by eapply list_elem_of_lookup_2].
  - destruct (_ <=? _)%nat; cbn [fst]; [by left|]. rewrite elem_of_app, list_elem_of_singleton. tauto.
Qed.

Lemma elem_of_put_at l i s x : x ∈ Slots.put_at empty l i s -> x ∈ l \/ x = s \/ x = empty.
Proof.
  unfold Slots.put_at. intros (j & Hj)%list_elem_of_lookup.
  apply list_lookup_insert_Some in Hj as [(_ & -> & _)|[_ Hj]]; [tauto|].
  apply list_elem_of_lookup_2, elem_of_app in Hj as [?|Hj]; [tauto|].
  apply elem_of_replicate in Hj as [-> _]. tauto.
Qed.

Lemma refers_slot l l' (srcs : list Slot) h :
  (forall x, x ∈ l' -> x ∈ l \/ x ∈ srcs \/ file x = None) ->
  refers l' h ->
  refers l h \/ exists s, s ∈ srcs /\ is_Some (file s) /\ (file s = Some h \/ peer s = Some h).
Proof.
  intros Hx (s & Hs & Hf & Hr). destruct (Hx s Hs) as [H|[H|H]].
  - left. by exists s.
  - right. by exists s.
  - rewrite H in Hf. by destruct Hf.
Qed.

Lemma install_alloc_ok t h c : alloc_ok t -> alloc_ok (install t h c).1.
Proof.
  intros Hok. apply (alloc_ok_new t _ [{| ptr := next t; fd := h |}]); [done|cbn; lia| | |].
  - intros x Hx. eapply (refers_slot (slots t) _
      [{| file := Some {| ptr := next t; fd := h |}; cloexec := c; peer := None |}])
      in Hx as [Hx|(s & Hs & _ & Hr)].
    + by left.
    + right. rewrite list_elem_of_singleton in Hs. subst s. cbn in Hr.
      destruct Hr; simplify_eq; by left.
    + intros y Hy. apply elem_of_put_lowest in Hy as [?| ->]; [by left|right; left; by left].
  - intros x [->|Hx%not_elem_of_nil]%elem_of_cons; [cbn; lia|done].
  - intros x y Hx%list_elem_of_singleton Hy%list_elem_of_singleton _. congruence.
Qed.

Lemma install_eventfd_alloc_ok t r w c : alloc_ok t -> alloc_ok (install_eventfd t r w c).1.
Proof.
  intros Hok. apply (alloc_ok_new t _ [{| ptr := next t; fd := r |}; {| ptr := S (next t); fd := w |}]);
    [done|cbn; lia| | |].
  - intros x Hx. eapply (refers_slot (slots t) _
      [{| file := Some {| ptr := next t; fd := r |}; cloexec := c;
          peer := Some {| ptr := S (next t); fd := w |} |}])
      in Hx as [Hx|(s & Hs & _ & Hr)].
    + by left.
    + right. rewrite list_elem_of_singleton in Hs. subst s. cbn in Hr.
      destruct Hr; simplify_eq; [by left|by right; left].
    + intros y Hy. apply elem_of_put_lowest in Hy as [?| ->]; [by left|right; left; by left].
  - intros x [->|[->|Hx%not_elem_of_nil]%elem_of_cons]%elem_of_cons; cbn; [lia|lia|done].
  - intros x y [->| ->%list_elem_of_singleton]%elem_of_cons [->| ->%list_elem_of_singleton]%elem_of_cons;
      cbn; intros; try done; lia.
Qed.

(** An operation whose slots are old ones, or refer to what an old one does. *)
Lemma alloc_ok_old t t' :
  alloc_ok t -> next t' = next t ->
  (forall x, x ∈ slots t' -> is_Some (file x) ->
             exists s, s ∈ slots t /\ file s = file x /\ peer s = peer x) ->
  alloc_ok t'.
Proof.
  intros Hok Hn Hx. apply (alloc_ok_new t _ []); [done|lia| | |].
  2:{ by intros h H%not_elem_of_nil. }
  2:{ by intros h h' H%not_elem_of_nil. }
  intros h (s & Hs & Hf & Hr). left. destruct (Hx s Hs Hf) as (s' & Hs' & Ef & Ep).
  exists s'. by rewrite Ef, Ep.
Qed.

Lemma close_alloc_ok t g : alloc_ok t -> alloc_ok (close t g).1.
Proof.
  intros Hok. unfold close. destruct (host t g); [|done]. apply (alloc_ok_old t); [done|done|].
  cbn. intros x (j & Hj)%list_elem_of_lookup [f Hf].
  apply list_lookup_insert_Some in Hj as [(_ & <- & _)|[_ Hj]]; [done|].
  exists x. split; [by eapply list_elem_of_lookup_2|done].
Qed.

Lemma dup_alloc_ok t g to c : alloc_ok t -> alloc_ok (dup t g to c).1.
Proof.
  intros Hok. unfold dup. destruct (Slots.at_ (slots t) g) as [src|] eqn:Es; [|done].
  assert (Hs : src ∈ slots t).
  { unfold Slots.at_ in Es. destruct (g <? 0); [done|]. by eapply list_elem_of_lookup_2. }
  destruct (file src) as [f|] eqn:Ef; [|done]. destruct to as [to|].
  - destruct (_ || _); [done|]. destruct (to =? g); [done|].
    apply (alloc_ok_old t); [done|done|]. cbn. intros x Hx [f' Hf].
    apply elem_of_put_at in Hx as [Hx|[-> | ->]]; [by exists x|by exists src|done].
  - apply (alloc_ok_old t); [done|done|]. cbn. intros x Hx [f' Hf].
    apply elem_of_put_lowest in Hx as [Hx| ->]; [by exists x|by exists src].
Qed.

Lemma set_cloexec_alloc_ok t g on : alloc_ok t -> alloc_ok (set_cloexec t g on).
Proof.
  intros Hok. unfold set_cloexec. destruct (Slots.at_ (slots t) g) as [src|] eqn:Es; [|done].
  assert (Hs : src ∈ slots t).
  { unfold Slots.at_ in Es. destruct (g <? 0); [done|]. by eapply list_elem_of_lookup_2. }
  case_bool_decide; [|done]. apply (alloc_ok_old t); [done|done|].
  cbn. intros x (j & Hj)%list_elem_of_lookup _.
  apply list_lookup_insert_Some in Hj as [(_ & <- & _)|[_ Hj]]; [by exists src|].
  exists x. split; [by eapply list_elem_of_lookup_2|done].
Qed.

Lemma on_exec_alloc_ok t : alloc_ok t -> alloc_ok (on_exec t).
Proof.
  intros Hok. apply (alloc_ok_old t); [done|done|]. cbn.
  intros x (s & -> & Hs)%list_elem_of_fmap [f Hf]. destruct (cloexec s); [done|]. by exists s.
Qed.

Lemma init_alloc_ok dups : alloc_ok (init dups).
Proof.
  assert (H : forall gs t, alloc_ok t -> alloc_ok (fold_left (fun t g =>
    let d := dups (Z.of_nat g) in
    if 0 <=? d then {| slots := slots (install_at t g (Some {| ptr := next t; fd := d |}) false None);
                       next := S (next t) |} else t) gs t)).
  { induction gs as [|g gs IH]; intros t Ht; [done|]. apply IH. cbn zeta.
    destruct (0 <=? _); [|done].
    apply (alloc_ok_new t _ [{| ptr := next t; fd := dups (Z.of_nat g) |}]); [done|cbn; lia| | |].
    - intros x Hx. eapply (refers_slot (slots t) _
        [{| file := Some {| ptr := next t; fd := dups (Z.of_nat g) |}; cloexec := false; peer := None |}])
        in Hx as [Hx|(s & Hs & _ & Hr)]; [by left| |].
      + right. rewrite list_elem_of_singleton in Hs. subst s. cbn in Hr.
        destruct Hr; simplify_eq; by left.
      + intros y Hy. apply elem_of_put_at in Hy as [?|[-> | ->]];
          [by left|right; left; by left|by right; right].
    - intros x [-> | Hx%not_elem_of_nil]%elem_of_cons; [cbn; lia|done].
    - intros x y Hx%list_elem_of_singleton Hy%list_elem_of_singleton _. congruence. }
  apply H. split; [intros h h' (s & Hs & _)|intros h (s & Hs & _)]; by apply not_elem_of_nil in Hs.
Qed.

(** The tables a guest can reach. *)
Inductive reachable : FdTable -> Prop :=
| r_init dups : reachable (init dups)
| r_install t h c : reachable t -> reachable (install t h c).1
| r_eventfd t r w c : reachable t -> reachable (install_eventfd t r w c).1
| r_close t g : reachable t -> reachable (close t g).1
| r_dup t g to c : reachable t -> reachable (dup t g to c).1
| r_cloexec t g on : reachable t -> reachable (set_cloexec t g on)
| r_exec t : reachable t -> reachable (on_exec t).

Lemma reachable_alloc_ok t : reachable t -> alloc_ok t.
Proof.
  induction 1; eauto using init_alloc_ok, install_alloc_ok, install_eventfd_alloc_ok,
    close_alloc_ok, dup_alloc_ok, set_cloexec_alloc_ok, on_exec_alloc_ok.
Qed.

(** C20. The fork handoff: exporting a reachable descriptor table and importing it in
    the child (where group [i] landed at the host descriptor [hs !! i])
    rebuilds the table up to a renaming of the open files.  The same numbers
    are open, with the same close-on-exec bits and event-fd write ends; two
    references share an open file in the child exactly when they did in the
    parent; and each open file is backed by the descriptor its parent's host
    descriptor was moved to. *)
Theorem fork_handoff (t t0 : FdTable) (hs : list Z) :
  reachable t ->
  length hs = length (host_fds (export_table t)) ->
  let c := import_table t0 (entries (export_table t)) hs in
  exists ren : HostFd -> HostFd,
    (forall n, occupied (slots c) n = rename_slot ren <$> occupied (slots t) n) /\
    (forall h h', refers (slots t) h -> refers (slots t) h' ->
                  (ptr (ren h) = ptr (ren h') <-> ptr h = ptr h')) /\
    (forall h, refers (slots t) h ->
       exists i, host_fds (export_table t) !! i = Some (fd h) /\ hs !! i = Some (fd (ren h))).
Proof. intros Hr. apply fork_handoff_coherent. by apply reachable_alloc_ok. Qed.

Lemma fork_handoff_witness :
  let t := (dup (install_eventfd (init (fun g => 10 + g)) 20 21 true).1 1 (Some 5) false).1 in
  let c := import_table (init (fun _ => -1)) (entries (export_table t)) [100; 101; 102; 103; 104] in
  exists ren : HostFd -> HostFd,
    forall n, occupied (slots c) n = rename_slot ren <$> occupied (slots t) n.
Proof.
  intros t c. destruct (fork_handoff t (init (fun _ => -1)) [100; 101; 102; 103; 104])
    as (ren & H & _); [apply r_dup, r_eventfd, r_init|reflexivity|].
  exists ren. exact H.
Defined.

End Fork.

(** * Properties *)

Module FdProps.
Import Client Instances.


(** [reserve_low_fds] makes the guest's own descriptors begin at 9: on
    any table with exactly 0, 1 and 2 open, when the host grants the six
    handles, the numbers 0..8 are then open and no other, and the next
    install returns 9. *)
Theorem low_fds_reserved {T H F : Type} `{FdTable T H F} (opens : Z -> option H) (t : T) (h : H) (c : bool) :
  fds_wf t -> (forall k, is_Some (opens k)) ->
  (forall k, is_Some (fds_view t !! k) <-> (k < 3)%nat) ->
  let t' := reserve_low_fds opens t in
  (forall k, is_Some (fds_view t' !! k) <-> (k < 9)%nat) /\ (fds_install t' h c).2 = 9.
Proof.
  intros Hw Ho Hd.
  assert (Hb : (3 + 6 <= Posix.kMaxFds)%nat) by (unfold Posix.kMaxFds; lia).
  destruct (reserve_from_dense 6 3 opens t Hw Hb Ho Hd) as [Hw' Hd']. split; [exact Hd'|].
  destruct (fds_install_law (reserve_low_fds opens t) h c Hw') as [_ E].
  rewrite (Posix.alloc_at _ _ 9) in E; [by injection E|unfold Posix.kMaxFds; lia| |].
  - apply eq_None_not_Some. intros L%Hd'. lia.
  - intros k Hk. apply Hd'. lia.
Qed.

Lemma low_fds_reserved_witness :
  (fds_install (reserve_low_fds (fun k => Some (50 + k)) (DarwinFd.init (fun g => 10 + g))) 77 false).2 = 9.
Proof.
  apply (low_fds_reserved (fun k => Some (50 + k)) (DarwinFd.init (fun g => 10 + g)) 77 false).
  - vm_compute. lia.
  - by eauto.
  - intros k. change (fds_view ?t) with (Slots.view DarwinFd.desc (DarwinFd.slots t)).
    rewrite Slots.lookup_view. destruct k as [|[|[|k]]]; split; intros Hk; try lia;
      try (eexists; reflexivity). by destruct Hk.
Defined.

(** On Windows a dup shares the open file, the append mode and the tty
    flag but drops the guest path: the new descriptor has no path, so a
    relative [openat] through it cannot be resolved. *)
Theorem windows_dup_drops_path (t : WindowsFd.FdTable) (g : Z) (c : bool) (src : WindowsFd.Slot) (f : WindowsFd.WinFd) :
  Slots.at_ (WindowsFd.slots t) g = Some src -> WindowsFd.file src = Some f ->
  let r := WindowsFd.dup t g None c in
  0 <= r.2 ->
  WindowsFd.host r.1 r.2 = WindowsFd.host t g /\ WindowsFd.get_path r.1 r.2 = [].
Proof.
  intros Hs Hf. unfold WindowsFd.dup. rewrite Hs, Hf. cbn [fst snd]. intros Hr.
  assert (E : Slots.at_ (Slots.put_lowest WindowsFd.desc (WindowsFd.slots t)
                (WindowsFd.slot4 (Some f) c (WindowsFd.append src) (WindowsFd.is_tty src))).1
                (Slots.put_lowest WindowsFd.desc (WindowsFd.slots t)
                (WindowsFd.slot4 (Some f) c (WindowsFd.append src) (WindowsFd.is_tty src))).2
              = Some (WindowsFd.slot4 (Some f) c (WindowsFd.append src) (WindowsFd.is_tty src)))
    by (by apply Slots.put_lowest_at).
  unfold WindowsFd.host, WindowsFd.get_path. cbn [WindowsFd.slots]. rewrite E, Hs. simpl.
  by rewrite Hf.
Qed.

Lemma windows_dup_drops_path_witness :
  let t := WindowsFd.set_path (WindowsFd.install (WindowsFd.init (fun _ => None)) 7 false).1 0
             (lit "/var/lib") in
  WindowsFd.get_path t 0 = lit "/var/lib" /\
  WindowsFd.get_path (WindowsFd.dup t 0 None false).1 (WindowsFd.dup t 0 None false).2 = [].
Proof.
  intros t. split; [reflexivity|].
  apply (windows_dup_drops_path t 0 false
           (WindowsFd.Build_Slot (Some (WindowsFd.Build_WinFd 0 7)) false false false (lit "/var/lib") None)
           (WindowsFd.Build_WinFd 0 7)); vm_compute; [reflexivity|reflexivity|discriminate].
Defined.

(** The template's [dup_to] does not bound its target: a negative one is
    returned as if it were a descriptor, with the table unchanged. *)
Lemma dup_to_negative {F E : Type} (e0 : E) (l : list (FdSlots.Slot F E)) from to c f :
  Slots.at_ l from ≫= FdSlots.file = Some f -> to < 0 -> 0 <= from ->
  FdSlots.dup_to e0 l from to c e0 = (l, to).
Proof.
  intros Hf Ht Hg. unfold FdSlots.dup_to, FdSlots.install_at. rewrite Hf.
  rewrite (proj2 (Z.eqb_neq from to)), (proj2 (Z.ltb_lt to 0)) by lia. done.
Qed.

End FdProps.
