(* ===== verification/Paths.v ===== *)
(** Guest path normalization ([include/linuxity/abi/wire/path.hpp]).

    [normalize_path] is the C++ loop on the remaining characters and the
    string built so far; each round consumes a character, so the length of
    the input is enough fuel ([norm_loop_fuel]).  The reference definition
    works on the list of components: [resolve] keeps a stack and [render]
    prints it.  [Canonical] is the shape every result has: an absolute path
    without empty, [.] or [..] components, which is what keeps a translated
    path below the root it is appended to. *)

From S2P Require Import Prelude.

Module Paths.

Definition dot : str := lit ".".
Definition dotdot : str := lit "..".

(** [while (i < p.size() && p[i] == '/') ++i]. *)
Fixpoint skip_slashes (p : str) : str :=
  match p with
  | c :: p' => if decide (c = slash) then skip_slashes p' else p
  | [] => []
  end.

(** [while (j < p.size() && p[j] != '/') ++j], and what follows. *)
Fixpoint span_comp (p : str) : str * str :=
  match p with
  | c :: p' => if decide (c = slash) then ([], p)
               else let r := span_comp p' in (c :: r.1, r.2)
  | [] => ([], [])
  end.

(** [std::string::rfind] of one character. *)
Fixpoint rfind (c : ascii) (s : str) : option nat :=
  match s with
  | [] => None
  | x :: s' => match rfind c s' with
               | Some n => Some (S n)
               | None => if decide (x = c) then Some 0%nat else None
               end
  end.

(** One component: skipped, popping, or appended.  [out] always holds a
    leading slash, so [rfind] finds one. *)
Definition push_comp (out comp : str) : str :=
  if decide (comp = dot) then out
  else if decide (comp = dotdot) then
    if (1 <? length out)%nat then
      match rfind slash out with
      | Some slash => take (if (slash =? 0)%nat then 1 else slash) out
      | None => out
      end
    else out
  else (if (1 <? length out)%nat then out ++ [slash] else out) ++ comp.

Fixpoint norm_loop (fuel : nat) (p out : str) : str :=
  match fuel, p with
  | S fuel', _ :: _ =>
      let r := span_comp (skip_slashes p) in
      norm_loop fuel' r.2 (if decide (r.1 = []) then out else push_comp out r.1)
  | _, _ => out
  end.

Definition normalize_path (p : str) : str :=
  let out := norm_loop (length p) p [slash] in
  if (1 <? length out)%nat && bool_decide (last out = Some slash)
  then take (length out - 1) out else out.

Definition absolutize_path (path cwd : str) : str :=
  match path with
  | [] => normalize_path cwd
  | c :: _ =>
      if decide (c = slash) then normalize_path path
      else
        let joined := match last cwd with
                      | Some l => if decide (l = slash) then cwd else cwd ++ [slash]
                      | None => cwd
                      end in
        normalize_path (joined ++ path)
  end.

(** * Reference definitions *)

Fixpoint split (p : str) : list str :=
  match p with
  | [] => [[]]
  | c :: p' => if decide (c = slash) then [] :: split p'
               else match split p' with [] => [[c]] | w :: ws => (c :: w) :: ws end
  end.

(** The non-empty components of a path. *)
Definition components (p : str) : list str := filter (fun c => c <> []) (split p).

(** Resolve [.] and [..] on a stack of components; [..] at the root stays
    there. *)
Definition resolve_step (stk : list str) (c : str) : list str :=
  if decide (c = dot) then stk
  else if decide (c = dotdot) then removelast stk
  else stk ++ [c].

Definition resolve (stk cs : list str) : list str := fold_left resolve_step cs stk.

Definition body (stk : list str) : str := flat_map (cons slash) stk.
Definition render (stk : list str) : str :=
  match stk with [] => [slash] | _ => body stk end.

Definition comp_ok (c : str) : Prop := c <> [] /\ slash ∉ c.
Definition canonical_comp (c : str) : Prop := comp_ok c /\ c <> dot /\ c <> dotdot.

(** A canonical absolute path. *)
Definition Canonical (p : str) : Prop :=
  exists stk, Forall canonical_comp stk /\ p = render stk.

(** * The loop refines the stack *)

Lemma span_comp_app p : p = (span_comp p).1 ++ (span_comp p).2.
Proof. induction p as [|c p IH]; simpl; [done|]. case_decide; simpl; [done|]. by rewrite <- IH. Qed.

Lemma span_comp_slash p : slash ∉ (span_comp p).1.
Proof.
  induction p as [|c p IH]; simpl; [set_solver|]. case_decide; simpl; set_solver.
Qed.

Lemma span_comp_rest p : (span_comp p).2 = [] \/ exists r, (span_comp p).2 = slash :: r.
Proof.
  induction p as [|c p IH]; simpl; [by left|]. case_decide; subst; simpl; [by right; eauto|done].
Qed.

Lemma skip_slashes_length p : (length (skip_slashes p) <= length p)%nat.
Proof. induction p; simpl; [lia|]. case_decide; simpl; lia. Qed.

(** Each round consumes a character. *)
Lemma round_length c p :
  (length (span_comp (skip_slashes (c :: p))).2 <= length p)%nat.
Proof.
  pose proof (span_comp_app (skip_slashes (c :: p))) as E.
  apply (f_equal length) in E. rewrite length_app in E.
  pose proof (skip_slashes_length p). simpl in *. case_decide as D; [lia|].
  simpl in *. rewrite decide_False in E |- * by done. simpl in *. lia.
Qed.

Lemma split_app c p :
  slash ∉ c -> (p = [] \/ exists r, p = slash :: r) ->
  split (c ++ p) = c :: tail (split p).
Proof.
  intros Hc Hp. induction c as [|x c IH]; simpl.
  - destruct Hp as [-> | [r ->]]; reflexivity.
  - rewrite decide_False by set_solver. rewrite IH by set_solver. done.
Qed.

Lemma components_slash p : components (slash :: p) = components p.
Proof. reflexivity. Qed.

Lemma components_skip p : components (skip_slashes p) = components p.
Proof.
  induction p as [|c p IH]; simpl; [done|]. case_decide as D; [|done]. subst c.
  by rewrite components_slash.
Qed.

Lemma components_tail p :
  (p = [] \/ exists r, p = slash :: r) ->
  filter (fun c => c <> []) (tail (split p)) = components p.
Proof.
  intros [-> | [r ->]]; reflexivity.
Qed.

Lemma components_comp c p :
  c <> [] -> slash ∉ c -> (p = [] \/ exists r, p = slash :: r) ->
  components (c ++ p) = c :: components p.
Proof.
  intros Hn Hc Hp. unfold components at 1. rewrite split_app by done.
  rewrite filter_cons_True by done. f_equal. by apply components_tail.
Qed.

(** The components of one round. *)
Lemma components_round p :
  components p =
  (if decide ((span_comp (skip_slashes p)).1 = []) then [] else [(span_comp (skip_slashes p)).1])
  ++ components (span_comp (skip_slashes p)).2.
Proof.
  rewrite <- components_skip. set (q := skip_slashes p).
  rewrite (span_comp_app q) at 1. case_decide as D; [by rewrite D|].
  rewrite components_comp; [done|done|apply span_comp_slash|apply span_comp_rest].
Qed.

Lemma body_app s t : body (s ++ t) = body s ++ body t.
Proof. unfold body. by rewrite flat_map_app. Qed.

Lemma render_snoc s c : render (s ++ [c]) = body s ++ slash :: c.
Proof.
  assert (E : render (s ++ [c]) = body (s ++ [c])) by by destruct s.
  rewrite E, body_app. unfold body at 2. simpl. by rewrite app_nil_r.
Qed.

Lemma rfind_app_last s c t :
  c ∉ t -> rfind c (s ++ c :: t) = Some (length s).
Proof.
  intros Ht. induction s as [|x s IH]; simpl.
  - assert (E : rfind c t = None).
    { clear -Ht. induction t as [|x t IH]; simpl; [done|].
      rewrite IH by set_solver. rewrite decide_False by set_solver. done. }
    by rewrite E, decide_True.
  - by rewrite IH.
Qed.

Lemma body_nil s : body s = [] -> s = [].
Proof. by destruct s. Qed.

(** One component, on the string and on the stack. *)
Lemma push_comp_render stk c :
  Forall comp_ok stk -> comp_ok c ->
  push_comp (render stk) c = render (resolve_step stk c).
Proof.
  intros Hs [Hc Hcs]. unfold push_comp, resolve_step.
  case_decide; [done|]. destruct stk as [|s0 stk0 _] using rev_ind.
  { case_decide; [done|]. unfold body. simpl. by rewrite app_nil_r. }
  apply Forall_app in Hs as [Hs [[Hne Hsl] _]%Forall_cons].
  rewrite render_snoc.
  assert (L : (1 <? length (body stk0 ++ slash :: s0))%nat = true).
  { apply Nat.ltb_lt. rewrite length_app. destruct s0; [done|simpl; lia]. }
  rewrite L. case_decide.
  - rewrite rfind_app_last by done. rewrite removelast_last.
    destruct (Nat.eqb_spec (length (body stk0)) 0) as [E|E].
    + apply nil_length_inv, body_nil in E. by subst.
    + rewrite take_app_length. destruct stk0; [done|]. done.
  - rewrite render_snoc, body_app. unfold body at 3. simpl. rewrite app_nil_r.
    by rewrite <- !app_assoc.
Qed.

Lemma resolve_step_ok stk c : Forall comp_ok stk -> comp_ok c -> Forall comp_ok (resolve_step stk c).
Proof.
  intros Hs Hc. unfold resolve_step. repeat case_decide; [done| |apply Forall_app; split; [done|by apply Forall_singleton]].
  destruct stk as [|s0 stk0 _] using rev_ind; [done|].
  rewrite removelast_last. by apply Forall_app in Hs as [? _].
Qed.

Lemma norm_loop_resolve fuel : forall p stk,
  (length p <= fuel)%nat -> Forall comp_ok stk ->
  norm_loop fuel p (render stk) = render (resolve stk (components p)) /\
  Forall comp_ok (resolve stk (components p)).
Proof.
  induction fuel as [|fuel IH]; intros p stk Hf Hs.
  { destruct p; [done|simpl in Hf; lia]. }
  destruct p as [|c p]; [done|]. cbn [norm_loop]. rewrite components_round.
  pose proof (round_length c p) as Hr. simpl in Hf.
  pose proof (span_comp_slash (skip_slashes (c :: p))) as Hsl.
  destruct (span_comp (skip_slashes (c :: p))) as [comp rest]. cbn [fst snd] in *.
  case_decide as D; cbn [app]; [apply IH; [lia|done]|].
  rewrite push_comp_render by (done || by split). unfold resolve. cbn [fold_left].
  apply IH; [lia|]. by apply resolve_step_ok.
Qed.

(** Enough fuel: more does not change the result. *)
Lemma norm_loop_fuel p k : norm_loop (length p + k) p [slash] = norm_loop (length p) p [slash].
Proof.
  change [slash] with (render []).
  rewrite (proj1 (norm_loop_resolve (length p + k) p [] ltac:(lia) (Forall_nil_2 _))).
  by rewrite (proj1 (norm_loop_resolve (length p) p [] ltac:(lia) (Forall_nil_2 _))).
Qed.

Lemma render_last stk : Forall comp_ok stk -> (1 < length (render stk))%nat -> last (render stk) <> Some slash.
Proof.
  intros Hs. destruct stk as [|s0 stk0 _] using rev_ind; [simpl; lia|]. intros _.
  apply Forall_app in Hs as [_ [[Hne Hsl] _]%Forall_cons]. rewrite render_snoc.
  destruct s0 as [|x s0 _] using rev_ind; [done|].
  rewrite app_comm_cons, app_assoc, last_snoc. intros [= ->]. apply Hsl. set_solver.
Qed.

Lemma normalize_resolve p :
  normalize_path p = render (resolve [] (components p)) /\
  Forall comp_ok (resolve [] (components p)).
Proof.
  destruct (norm_loop_resolve (length p) p [] (Nat.le_refl _) (Forall_nil_2 _)) as [E H].
  split; [|done]. unfold normalize_path. change [slash] with (render []). rewrite E.
  destruct (1 <? _)%nat eqn:L; [|done]. apply Nat.ltb_lt in L.
  rewrite bool_decide_eq_false_2 by (by apply render_last). done.
Qed.

Lemma resolve_canonical cs : forall stk,
  Forall canonical_comp stk -> Forall comp_ok cs -> Forall canonical_comp (resolve stk cs).
Proof.
  induction cs as [|c cs IH]; intros stk Hs Hc; [done|].
  apply Forall_cons in Hc as [Hc Hcs]. unfold resolve. cbn [fold_left].
  apply IH; [|done]. unfold resolve_step. repeat case_decide; [done| |].
  - destruct stk as [|s0 stk0 _] using rev_ind; [done|].
    rewrite removelast_last. by apply Forall_app in Hs as [? _].
  - apply Forall_app. split; [done|]. by apply Forall_singleton.
Qed.

Lemma components_ok p : Forall comp_ok (components p).
Proof.
  apply Forall_forall. intros c. unfold components. rewrite list_elem_of_filter.
  intros [Hn Hc]. split; [done|]. clear Hn. revert c Hc.
  induction p as [|x p IH]; simpl; intros c Hc.
  - apply list_elem_of_singleton in Hc as ->. set_solver.
  - case_decide as D.
    + apply elem_of_cons in Hc as [-> | Hc]; [set_solver|by apply IH].
    + destruct (split p) as [|w ws]; [apply list_elem_of_singleton in Hc as ->; set_solver|].
      apply elem_of_cons in Hc as [-> | Hc]; [|apply IH; by right].
      pose proof (IH w ltac:(by left)). set_solver.
Qed.

Lemma components_body stk : Forall comp_ok stk -> components (body stk) = stk.
Proof.
  induction stk as [|s stk IH]; intros H; [done|]. apply Forall_cons in H as [[Hn Hs] H].
  unfold body. cbn [flat_map]. fold (body stk). rewrite <- app_comm_cons, components_slash.
  rewrite components_comp; [by rewrite IH|done|done|]. destruct stk; [by left|by right; eauto].
Qed.

Lemma components_render stk : Forall comp_ok stk -> components (render stk) = stk.
Proof. destruct stk; [done|]. apply components_body. Qed.

(** A canonical stack resolves to itself. *)
Lemma resolve_id cs : forall stk, Forall canonical_comp cs -> resolve stk cs = stk ++ cs.
Proof.
  induction cs as [|c cs IH]; intros stk H; [by rewrite app_nil_r|].
  apply Forall_cons in H as [(_ & H1 & H2) H]. unfold resolve. cbn [fold_left].
  unfold resolve_step at 2. rewrite !decide_False by done.
  fold (resolve (stk ++ [c]) cs). rewrite IH by done. by rewrite <- app_assoc.
Qed.

Lemma canonical_comp_ok stk : Forall canonical_comp stk -> Forall comp_ok stk.
Proof. intros H. eapply Forall_impl; [exact H|]. by intros ? []. Qed.

Lemma normalize_canonical_id p : Canonical p -> normalize_path p = p.
Proof.
  intros (stk & Hs & ->). rewrite (proj1 (normalize_resolve _)), components_render
    by (by apply canonical_comp_ok). by rewrite resolve_id.
Qed.

Lemma normalize_Canonical p : Canonical (normalize_path p).
Proof.
  exists (resolve [] (components p)). split; [|apply normalize_resolve].
  apply resolve_canonical; [constructor|apply components_ok].
Qed.

(** Components of a joined path. *)
Lemma components_join d p :
  last d = Some slash \/ d = [] -> components (d ++ p) = components d ++ components p.
Proof.
  intros [Hl | ->]; [|done].
  destruct d as [|x d _] using rev_ind; [done|]. rewrite last_snoc in Hl. simplify_eq.
  remember (length d) as n eqn:Hn. revert d Hn. induction n as [n IH] using lt_wf_ind.
  intros d ->. destruct d as [|c d].
  { cbn [app]. by rewrite !components_slash. }
  destruct (decide (c = slash)) as [-> | Hc].
  { rewrite <- !app_comm_cons, !components_slash. apply (IH (length d)); [simpl; lia|done]. }
  (* a component first *)
  pose proof (span_comp_app (c :: d)) as E. pose proof (span_comp_slash (c :: d)) as Hs.
  pose proof (span_comp_rest (c :: d)) as Hr. cbn [span_comp] in E, Hs, Hr.
  rewrite decide_False in E, Hs, Hr by done. cbn [fst snd] in E, Hs, Hr.
  destruct (span_comp d) as [w rest]. cbn [fst snd] in *.
  rewrite E, <- !app_assoc.
  assert (Hl : forall q, rest ++ [slash] ++ q = [] \/ exists r, rest ++ [slash] ++ q = slash :: r).
  { intros q. right. destruct Hr as [-> | [r ->]]; eauto. }
  rewrite (components_comp (c :: w)) by (done || apply Hl).
  specialize (Hl []). rewrite app_nil_r in Hl.
  rewrite (components_comp (c :: w)) by done. cbn [app]. f_equal.
  rewrite <- (IH (length rest)); [by rewrite <- app_assoc| |done].
  apply (f_equal length) in E. rewrite length_app in E. simpl in *. lia.
Qed.

Lemma split_snoc_slash d : split (d ++ [slash]) = split d ++ [[]].
Proof.
  induction d as [|c d IH]; [done|]. rewrite <- app_comm_cons. cbn [split].
  rewrite IH. case_decide; [done|].
  destruct (split d) eqn:E; [|done]. exfalso.
  destruct d as [|x d]; cbn [split] in E; [done|]. case_decide; [done|].
  by destruct (split d).
Qed.

Lemma components_snoc_slash d : components (d ++ [slash]) = components d.
Proof.
  unfold components. rewrite split_snoc_slash, filter_app. by rewrite app_nil_r.
Qed.

Lemma resolve_app stk cs ds : resolve stk (cs ++ ds) = resolve (resolve stk cs) ds.
Proof. apply fold_left_app. Qed.

Lemma absolutize_resolve path cwd :
  absolutize_path path cwd =
  render (resolve (if bool_decide (head path = Some slash) then []
                   else resolve [] (components cwd)) (components path)).
Proof.
  destruct path as [|c path]; [by rewrite (proj1 (normalize_resolve _))|].
  unfold absolutize_path. case_decide as D.
  - rewrite bool_decide_eq_true_2 by (simpl; congruence). apply normalize_resolve.
  - rewrite bool_decide_eq_false_2 by (simpl; congruence).
    rewrite (proj1 (normalize_resolve _)), <- resolve_app. do 2 f_equal.
    destruct (last cwd) as [l|] eqn:El; [case_decide as Dl|].
    + subst l. by apply components_join; left.
    + rewrite components_join by (left; apply last_snoc). f_equal.
      destruct cwd as [|x cwd _] using rev_ind; [done|]. apply components_snoc_slash.
    + apply last_None in El as ->. done.
Qed.

(** * Properties *)

(** C4. Normalization is confinement: whatever the bytes of the guest path,
    the result is absolute and canonical, it has no empty, [.] or [..]
    component and no trailing slash, so appending it to a root directory
    cannot climb out of it; and a canonical path is left as it is. *)
Theorem normalize_confined (p : str) :
  Canonical (normalize_path p) /\ normalize_path (normalize_path p) = normalize_path p /\
  Forall canonical_comp (components (normalize_path p)).
Proof.
  pose proof (normalize_Canonical p) as H. split_and!; [done|by apply normalize_canonical_id|].
  destruct H as (stk & Hs & ->). by rewrite components_render by by apply canonical_comp_ok.
Qed.

(** The in-place string algorithm computes the textual resolution: split
    at slashes, drop empty and [.] components, let [..] pop (and stay at the
    root), and join.  A relative path is resolved on top of the resolved
    working directory, an absolute one ignores it, an empty one is it. *)
Theorem absolutize_is_resolution (path cwd : str) :
  absolutize_path path cwd =
  render (resolve (if bool_decide (head path = Some slash) then []
                   else resolve [] (components cwd)) (components path)).
Proof. apply absolutize_resolve. Qed.

End Paths.
