(* ===== verification/CText.v ===== *)
(** The part of C text input and output the journals use: [fprintf] of
    unsigned numbers, [sscanf] of them, [fgets] and C strings.

    A file is the list of its characters.  [scan_uint] follows [sscanf]'s
    [%u] and [%o]: leading white space, an optional sign, digits; the value
    is reduced modulo 2^32 as the assignment to [unsigned] does. *)

From S2P Require Import Prelude.

Module CText.

Definition space : ascii := " "%char.
Definition cr : ascii := "013"%char.
Definition nul : ascii := "000"%char.

(** [isspace] in the C locale. *)
Definition isspace (c : ascii) : bool :=
  let n := nat_of_ascii c in (n =? 32)%nat || ((9 <=? n)%nat && (n <=? 13)%nat).

Fixpoint skip_space (s : str) : str :=
  match s with c :: s' => if isspace c then skip_space s' else s | [] => [] end.

(** The text up to the terminating NUL. *)
Fixpoint c_str (s : str) : str :=
  match s with c :: s' => if decide (c = nul) then [] else c :: c_str s' | [] => [] end.

(** [while (!s.empty() && (s.back() == '\n' || s.back() == '\r')) s.pop_back()]. *)
Fixpoint drop_eol (s : str) : str :=
  match s with
  | c :: s' => if decide (c = nl) then drop_eol s' else if decide (c = cr) then drop_eol s' else s
  | [] => []
  end.
Definition strip_eol (s : str) : str := reverse (drop_eol (reverse s)).

(** ** Numbers *)

Definition digit_char (d : Z) : ascii := ascii_of_nat (48 + Z.to_nat d).

Definition digit_val (b : Z) (c : ascii) : option Z :=
  let v := Z.of_nat (nat_of_ascii c) - 48 in
  if (0 <=? v) && (v <? b) then Some v else None.

(** The digits of [n] in base [b], at most [fuel] of them. *)
Fixpoint print_base (fuel : nat) (b n : Z) : str :=
  match fuel with
  | O => []
  | S f => (if n / b =? 0 then [] else print_base f b (n / b)) ++ [digit_char (n mod b)]
  end.

(** [%o] and [%u] of a 32-bit number: eleven octal digits are 33 bits. *)
Definition print_oct (n : Z) : str := print_base 11 8 n.
Definition print_dec (n : Z) : str := print_base 11 10 n.

(** The longest run of digits: how many, its value, what follows. *)
Fixpoint scan_digits (b : Z) (s : str) (acc : Z) : nat * Z * str :=
  match s with
  | c :: s' => match digit_val b c with
               | Some d => let '(n, v, r) := scan_digits b s' (acc * b + d) in (S n, v, r)
               | None => (0%nat, acc, s)
               end
  | [] => (0%nat, acc, [])
  end.

Definition scan_uint (b : Z) (s : str) : option (Z * str) :=
  let s := skip_space s in
  let '(neg, s) := match s with
                   | c :: s' => if decide (c = "-"%char) then (true, s')
                                else if decide (c = "+"%char) then (false, s') else (false, s)
                   | [] => (false, [])
                   end in
  let '(n, v, r) := scan_digits b s 0 in
  if (n =? 0)%nat then None else Some (u32 (if neg then - v else v), r).

(** ** Lines *)

(** [fgets(line, k + 1, f)]: up to [k] characters, ending after a newline. *)
Fixpoint fgets (k : nat) (s : str) : str * str :=
  match k, s with
  | S k', c :: s' => if decide (c = nl) then ([c], s')
                     else let r := fgets k' s' in (c :: r.1, r.2)
  | _, _ => ([], s)
  end.

(** [while (fgets(line, k + 1, f))]: a round consumes a character. *)
Fixpoint lines_loop (fuel k : nat) (s : str) : list str :=
  match fuel, s with
  | S f, _ :: _ => let r := fgets k s in r.1 :: lines_loop f k r.2
  | _, _ => []
  end.

Definition read_lines (k : nat) (s : str) : list str := lines_loop (length s) k s.

(** * Lemmas *)

Lemma digit_char_val b d : 0 <= d < b -> b <= 10 -> digit_val b (digit_char d) = Some d.
Proof.
  intros Hd Hb. unfold digit_val, digit_char. rewrite nat_ascii_embedding by lia.
  replace (Z.of_nat (48 + Z.to_nat d) - 48) with d by lia.
  rewrite (proj2 (Z.leb_le 0 d)), (proj2 (Z.ltb_lt d b)) by lia. done.
Qed.

(** A run of digits followed by something else. *)
Definition stops (b : Z) (s : str) : Prop :=
  match s with c :: _ => digit_val b c = None | [] => True end.

Lemma scan_digits_stop b s acc : stops b s -> scan_digits b s acc = (0%nat, acc, s).
Proof. destruct s; simpl; [done|]. by intros ->. Qed.

Lemma scan_print b f : forall n acc rest,
  1 < b <= 10 -> 0 <= n < b ^ Z.of_nat f -> (0 < f)%nat ->
  scan_digits b (print_base f b n ++ rest) acc =
  let l := length (print_base f b n) in
  let '(k, v, r) := scan_digits b rest (acc * b ^ Z.of_nat l + n) in ((l + k)%nat, v, r).
Proof.
  induction f as [|f IH]; intros n acc rest Hb Hn Hf; [lia|]. cbn [print_base].
  rewrite Nat2Z.inj_succ, Z.pow_succ_r in Hn by lia.
  pose proof (Z.mod_pos_bound n b ltac:(lia)) as Hm.
  pose proof (Z.div_mod n b ltac:(lia)) as Hdm.
  destruct (Z.eqb_spec (n / b) 0) as [E|E].
  - cbn [app scan_digits length]. rewrite digit_char_val by lia.
    replace (acc * b ^ Z.of_nat 1 + n) with (acc * b + n mod b) by (change (Z.of_nat 1) with 1; nia).
    destruct (scan_digits b rest _) as [[k v] r]. done.
  - assert (Hdiv : 0 <= n / b < b ^ Z.of_nat f).
    { split; [apply Z.div_pos; lia|]. apply Z.div_lt_upper_bound; lia. }
    destruct f as [|f']; [simpl in Hdiv; lia|].
    rewrite <- app_assoc, IH by lia. cbn [app scan_digits]. rewrite digit_char_val by lia.
    rewrite length_app. cbn [length].
    set (l := length (print_base (S f') b (n / b))).
    replace ((acc * b ^ Z.of_nat l + n / b) * b + n mod b)
      with (acc * b ^ Z.of_nat (l + 1) + n)
      by (rewrite Nat2Z.inj_add, Z.pow_add_r by lia; change (b ^ Z.of_nat 1) with (b ^ 1);
          rewrite Z.pow_1_r; nia).
    destruct (scan_digits b rest _) as [[k v] r]. cbn zeta. do 2 f_equal. lia.
Qed.

Lemma print_base_ne f b n : (0 < f)%nat -> print_base f b n <> [].
Proof. destruct f; [lia|]. simpl. intros _ H%app_eq_nil. by destruct H. Qed.

Lemma digit_char_class d :
  0 <= d < 10 -> isspace (digit_char d) = false /\ digit_char d <> "-"%char /\
                 digit_char d <> "+"%char /\ digit_char d <> nl /\ digit_char d <> nul.
Proof.
  intros Hd. assert (H : forallb (fun d => negb (isspace (digit_char d))
     && bool_decide (digit_char d <> "-"%char /\ digit_char d <> "+"%char /\
                     digit_char d <> nl /\ digit_char d <> nul)) (seqZ 0 10) = true)
    by reflexivity.
  rewrite forallb_forall in H. specialize (H d (proj1 (list_elem_of_In _ _)
    (proj2 (elem_of_seqZ 0 10 d) ltac:(lia)))).
  apply andb_true_iff in H as [H1 H2]. apply bool_decide_eq_true in H2.
  split; [by apply negb_true_iff|done].
Qed.

Lemma print_base_digits f b n : forall c, 1 < b <= 10 -> c ∈ print_base f b n ->
  exists d, 0 <= d < 10 /\ c = digit_char d.
Proof.
  revert n. induction f as [|f IH]; intros n c Hb; simpl; [by intros H%not_elem_of_nil|].
  rewrite elem_of_app, list_elem_of_singleton. intros [H | ->].
  - destruct (n / b =? 0); [by apply not_elem_of_nil in H|]. by eapply IH.
  - exists (n mod b). split; [|done]. pose proof (Z.mod_pos_bound n b). lia.
Qed.

(** Scanning back what was printed. *)
Lemma scan_uint_print b n rest :
  (b = 8 \/ b = 10) -> 0 <= n < 2 ^ 32 -> stops b rest ->
  scan_uint b (print_base 11 b n ++ rest) = Some (n, rest).
Proof.
  intros Hb Hn Hr. unfold scan_uint.
  assert (Hlt : 0 <= n < b ^ Z.of_nat 11) by (destruct Hb as [-> | ->]; lia).
  pose proof (scan_print b 11 n 0 rest ltac:(lia) Hlt ltac:(lia)) as E.
  cbv zeta in E. rewrite (scan_digits_stop b rest) in E by done.
  pose proof (print_base_ne 11 b n ltac:(lia)) as Hne.
  destruct (print_base 11 b n) as [|c s] eqn:Ep; [done|].
  destruct (print_base_digits 11 b n c ltac:(lia)) as (d & Hd & ->); [rewrite Ep; by left|].
  destruct (digit_char_class d Hd) as (H1 & H2 & H3 & _).
  cbn [app skip_space]. rewrite H1. rewrite !decide_False by done.
  rewrite app_comm_cons, E. cbn -[Z.pow]. rewrite u32_small by lia. done.
Qed.

Lemma print_base_length f b n : (length (print_base f b n) <= f)%nat.
Proof.
  revert n. induction f as [|f IH]; intros n; simpl; [done|]. rewrite length_app. simpl.
  destruct (n / b =? 0); simpl; [lia|]. specialize (IH (n / b)). lia.
Qed.

(** Printed numbers hold neither a newline nor a NUL. *)
Lemma print_base_plain f b n c : 1 < b <= 10 -> c ∈ print_base f b n -> c <> nl /\ c <> nul.
Proof.
  intros Hb Hc. destruct (print_base_digits f b n c Hb Hc) as (d & Hd & ->).
  by destruct (digit_char_class d Hd) as (_ & _ & _ & ? & ?).
Qed.

Lemma stops_space b s : b <= 10 -> stops b (space :: s).
Proof. intros _. reflexivity. Qed.

Lemma scan_uint_space b s : scan_uint b (space :: s) = scan_uint b s.
Proof. reflexivity. Qed.

Lemma skip_space_digits b n rest :
  1 < b <= 10 -> skip_space (print_base 11 b n ++ rest) = print_base 11 b n ++ rest.
Proof.
  intros Hb. pose proof (print_base_ne 11 b n ltac:(lia)) as Hne.
  destruct (print_base 11 b n) as [|c s] eqn:Ep; [done|].
  destruct (print_base_digits 11 b n c Hb) as (d & Hd & ->); [rewrite Ep; by left|].
  destruct (digit_char_class d Hd) as (H1 & _). cbn [app skip_space]. by rewrite H1.
Qed.

(** ** Lines *)

Lemma fgets_line k l rest :
  nl ∉ l -> (length l < k)%nat -> (fgets k (l ++ nl :: rest) = (l ++ [nl], rest)).
Proof.
  revert k. induction l as [|c l IH]; intros [|k] Hl Hk; simpl in *; try lia.
  - done.
  - rewrite decide_False by set_solver. rewrite IH by (set_solver || lia). done.
Qed.

Lemma fgets_length k s : (length (fgets k s).2 <= length s)%nat.
Proof.
  revert k. induction s as [|c s IH]; intros [|k]; simpl; try lia.
  case_decide; simpl; [lia|]. specialize (IH k). lia.
Qed.

Lemma fgets_consumes k c s : (length (fgets (S k) (c :: s)).2 <= length s)%nat.
Proof. simpl. case_decide; simpl; [lia|apply fgets_length]. Qed.

Lemma lines_loop_fuel k f : forall g s,
  (length s <= f)%nat -> (length s <= g)%nat -> lines_loop f (S k) s = lines_loop g (S k) s.
Proof.
  induction f as [|f IH]; intros [|g] [|c s] Hf Hg; simpl in Hf, Hg; try lia; try done.
  cbn [lines_loop]. cbn zeta. f_equal. pose proof (fgets_consumes k c s). apply IH; lia.
Qed.

(** Lines that [fgets] returns whole. *)
Definition line_ok (k : nat) (l : str) : Prop :=
  exists b, l = b ++ [nl] /\ nl ∉ b /\ (length b < k)%nat.

Lemma read_lines_cons k l s :
  line_ok (S k) l -> read_lines (S k) (l ++ s) = l :: read_lines (S k) s.
Proof.
  intros (b & -> & Hb & Hl). unfold read_lines. rewrite <- app_assoc. cbn [app].
  destruct (b ++ nl :: s) as [|c q] eqn:E; [by destruct b|].
  cbn [length lines_loop]. rewrite <- E, fgets_line by done. cbn zeta. cbn [fst snd].
  f_equal. apply lines_loop_fuel; [|lia].
  apply (f_equal length) in E. rewrite length_app in E. simpl in E. lia.
Qed.

Lemma read_lines_concat k ls :
  Forall (line_ok (S k)) ls -> read_lines (S k) (concat ls) = ls.
Proof.
  induction 1 as [|l ls Hl Hls IH]; [done|]. simpl. by rewrite read_lines_cons, IH.
Qed.

Lemma c_str_id s : nul ∉ s -> c_str s = s.
Proof.
  induction s as [|c s IH]; intros H; simpl; [done|].
  rewrite decide_False by set_solver. rewrite IH by set_solver. done.
Qed.

Lemma drop_eol_id s : head s <> Some nl -> head s <> Some cr -> drop_eol s = s.
Proof. destruct s as [|c s]; simpl; [done|]. intros. by rewrite !decide_False by congruence. Qed.

(** Only the newline of a line is stripped when the text before it ends in
    neither a newline nor a carriage return. *)
Lemma strip_eol_line s :
  last s <> Some nl -> last s <> Some cr -> strip_eol (s ++ [nl]) = s.
Proof.
  intros H1 H2. unfold strip_eol. rewrite reverse_snoc. cbn [drop_eol].
  rewrite decide_True by done. rewrite drop_eol_id; [by rewrite reverse_involutive|..];
    by rewrite head_reverse.
Qed.

End CText.
