(* ===== verification/MetaStore.v ===== *)
(** The shadow metadata store ([include/linuxity/kernel/meta_store.hpp]):
    guest modes and owners the host cannot carry, kept in a table and in an
    append-only journal that is replayed at the next start.

    The journal is the text of its file, written with [fprintf] and read
    back with [fgets] and [sscanf] ([CText]).  Whether an [fopen] succeeds
    is the argument [io] of the operations that write; the host's [lstat] and
    the iteration order of the hash table are arguments of [attach]. *)

From S2P Require Import Prelude CText.
Import CText.

Module MetaStore.

(** [abi/wire/stat.hpp]. *)
Definition kFileTypeMask : Z := 0xF000.
Definition kPermMask : Z := 0xFFF.
Definition S_IFREG : Z := 0x8000.
Definition S_IFIFO : Z := 0x1000.
Definition S_IFLNK : Z := 0xA000.

Record MetaRecord := { mode : Z; uid : Z; gid : Z; nlink : Z; have : Z }.

Definition kMode : Z := 1.
Definition kUid : Z := 2.
Definition kGid : Z := 4.
Definition kNlink : Z := 8.
Definition kFifo : Z := 16.

Definition empty_record : MetaRecord := {| mode := 0; uid := 0; gid := 0; nlink := 0; have := 0 |}.

Definition has (r : MetaRecord) (k : Z) : bool := negb (Z.land (have r) k =? 0).

Definition with_have (r : MetaRecord) (h : Z) : MetaRecord :=
  {| mode := mode r; uid := uid r; gid := gid r; nlink := nlink r; have := h |}.

(** [r.have &= static_cast<std::uint8_t>(~k)]. *)
Definition clear_have (r : MetaRecord) (k : Z) : MetaRecord :=
  with_have r (Z.land (have r) (u8 (Z.lnot k))).
Definition set_have (r : MetaRecord) (k : Z) : MetaRecord := with_have r (Z.lor (have r) k).

Definition is_redundant (r : MetaRecord) : bool :=
  let owner_default := (negb (has r kUid) || (uid r =? 0)) && (negb (has r kGid) || (gid r =? 0)) in
  owner_default && negb (has r kMode) && negb (has r kNlink) && negb (has r kFifo).

Definition effective_mode (host_mode : Z) (r : MetaRecord) : Z :=
  let host_mode :=
    if has r kFifo && (Z.land host_mode kFileTypeMask =? S_IFREG)
    then Z.lor (Z.land host_mode (u32 (Z.lnot kFileTypeMask))) S_IFIFO else host_mode in
  if negb (has r kMode) then host_mode
  else Z.lor (Z.land host_mode kFileTypeMask) (Z.land (mode r) kPermMask).

(** The store: the table, whether a journal is attached, and the journal
    file ([None] when it does not exist). *)
Record Store := { table : gmap str MetaRecord; attached : bool; file : option str }.

Definition with_table (s : Store) (t : gmap str MetaRecord) : Store :=
  {| table := t; attached := attached s; file := file s |}.

(** ** The journal *)

Definition write_line (path : str) (r : MetaRecord) : str :=
  if has r kNlink then
    print_oct (mode r) ++ [space] ++ print_dec (uid r) ++ [space] ++ print_dec (gid r) ++ [space]
    ++ print_dec (have r) ++ [space] ++ print_dec (nlink r) ++ [space] ++ path ++ [nl]
  else
    print_oct (mode r) ++ [space] ++ print_dec (uid r) ++ [space] ++ print_dec (gid r) ++ [space]
    ++ print_dec (have r) ++ [space] ++ path ++ [nl].

(** [fopen(.., "a")], write, close. *)
Definition append_text (io : bool) (s : Store) (l : str) : Store :=
  if attached s && io
  then {| table := table s; attached := attached s; file := Some (default [] (file s) ++ l) |}
  else s.

Definition append (io : bool) (s : Store) (path : str) (r : MetaRecord) : Store :=
  append_text io s (write_line path r).

Definition tombstone_line (path : str) : str := lit "0 0 0 255 " ++ path ++ [nl].

Definition append_tombstone (io : bool) (s : Store) (path : str) : Store :=
  append_text io s (tombstone_line path).

(** [sscanf(line, "%o %u %u %u %n")]: the four numbers and the text at the
    offset, or nothing when fewer than four were read. *)
Definition parse_head (line : str) : option (Z * Z * Z * Z * str) :=
  '(m, s1) ← scan_uint 8 line;
  '(u, s2) ← scan_uint 10 s1;
  '(g, s3) ← scan_uint 10 s2;
  '(h, s4) ← scan_uint 10 s3;
  Some (m, u, g, h, skip_space s4).

(** One line of the replay loop. *)
Definition replay_line (t : gmap str MetaRecord) (line : str) : gmap str MetaRecord :=
  match parse_head (c_str line) with
  | None => t
  | Some (m, u, g, h, rest) =>
      let '(n, rest) :=
        if negb (h =? 255) && negb (Z.land h kNlink =? 0) then
          match scan_uint 10 rest with
          | Some (n, r) => (n, skip_space r)
          | None => (0, rest)
          end
        else (0, rest) in
      let path := strip_eol rest in
      if decide (path = []) then t
      else if h =? 255 then delete path t
      else
        let r := {| mode := m; uid := u; gid := g; nlink := n; have := u8 h |} in
        if is_redundant r then delete path t else <[path := r]> t
  end.

(** [char line[8192]]. *)
Definition line_max : nat := S (Z.to_nat 8190).

Definition replay (t : gmap str MetaRecord) (f : option str) : gmap str MetaRecord * nat :=
  match f with
  | None => (t, 0%nat)
  | Some text => let ls := read_lines line_max text in (fold_left replay_line ls t, length ls)
  end.

(** ** Operations *)

Definition no_host_mode : Z := 0xffffffff.

Definition set_mode (io : bool) (s : Store) (p : str) (m host_mode : Z) : Store :=
  if negb (host_mode =? no_host_mode) && (Z.land host_mode kPermMask =? Z.land m kPermMask) then
    match table s !! p with
    | None => s
    | Some r =>
        let r' := clear_have r kMode in
        if is_redundant r' then append_tombstone io (with_table s (delete p (table s))) p
        else append io (with_table s (<[p := r']> (table s))) p r'
    end
  else
    let r := default empty_record (table s !! p) in
    let r' := {| mode := Z.land m kPermMask; uid := uid r; gid := gid r; nlink := nlink r;
                 have := Z.lor (have r) kMode |} in
    append io (with_table s (<[p := r']> (table s))) p r'.

Definition keep_id : Z := 0xffffffff.

Definition set_owner (io : bool) (s : Store) (p : str) (u g : Z) : Store :=
  if bool_decide (table s !! p = None) && ((u =? 0) || (u =? keep_id)) && ((g =? 0) || (g =? keep_id))
  then s
  else
    let r := default empty_record (table s !! p) in
    let r := if negb (u =? keep_id)
             then {| mode := mode r; uid := u; gid := gid r; nlink := nlink r;
                     have := Z.lor (have r) kUid |} else r in
    let r := if negb (g =? keep_id)
             then {| mode := mode r; uid := uid r; gid := g; nlink := nlink r;
                     have := Z.lor (have r) kGid |} else r in
    if is_redundant r then append_tombstone io (with_table s (delete p (table s))) p
    else append io (with_table s (<[p := r]> (table s))) p r.

Definition set_fifo (io : bool) (s : Store) (p : str) : Store :=
  let r := set_have (default empty_record (table s !! p)) kFifo in
  append io (with_table s (<[p := r]> (table s))) p r.

Definition is_fifo (s : Store) (p : str) : bool :=
  match table s !! p with Some r => has r kFifo | None => false end.

Definition forget (io : bool) (s : Store) (p : str) : Store :=
  match table s !! p with
  | Some _ => append_tombstone io (with_table s (delete p (table s))) p
  | None => s
  end.

Definition rename (io : bool) (s : Store) (from to : str) : Store :=
  match table s !! from with
  | None => let s := forget io s to in with_table s (delete from (table s))
  | Some rec =>
      let s := with_table s (<[to := rec]> (delete from (table s))) in
      append io (append_tombstone io s from) to rec
  end.

Definition lookup_meta (s : Store) (p : str) : option MetaRecord := table s !! p.

(** ** Attach *)

(** The first host directory that has the path. *)
Fixpoint lstat_bases (lstat : str -> option Z) (bases : list str) (p : str) : option Z :=
  match bases with
  | [] => None
  | b :: bs => match lstat (b ++ p) with Some m => Some m | None => lstat_bases lstat bs p end
  end.

(** Compaction of one record: [None] when it is pruned. *)
Definition compact_record (lstat : str -> option Z) (bases : list str) (p : str) (r : MetaRecord) :
    option MetaRecord :=
  let r := if has r kMode then
             match lstat_bases lstat bases p with
             | Some st => if (Z.land st kFileTypeMask =? S_IFLNK) || (Z.land st kPermMask =? mode r)
                          then clear_have r kMode else r
             | None => r
             end
           else r in
  if is_redundant r then None else Some r.

Definition compact (lstat : str -> option Z) (bases : list str) (t : gmap str MetaRecord) :
    gmap str MetaRecord := map_imap (compact_record lstat bases) t.

(** [rewrite]: the whole table into a new file, moved over the journal when
    it could be written. *)
Definition rewrite (io : bool) (order : gmap str MetaRecord -> list (str * MetaRecord)) (s : Store) :
    Store :=
  if io then {| table := table s; attached := attached s;
                file := Some (concat (map (fun pr => write_line pr.1 pr.2) (order (table s)))) |}
  else s.

(** [attach] on an upper directory; [f] is the journal file found there. *)
Definition attach (io : bool) (order : gmap str MetaRecord -> list (str * MetaRecord))
    (lstat : str -> option Z) (bases : list str) (s : Store) (upper : str) (f : option str)
    (compacting : bool) : Store :=
  let upper := match last upper with
               | Some c => if decide (c = slash) then take (length upper - 1) upper else upper
               | None => upper
               end in
  if decide (upper = []) then {| table := table s; attached := attached s; file := file s |}
  else
    let '(t, lines) := replay (table s) f in
    let t' := if compacting then compact lstat bases t else t in
    let pruned := (size t - size t')%nat in
    let s := {| table := t'; attached := true; file := f |} in
    if compacting && (negb (pruned =? 0)%nat || ((1024 <? lines)%nat && (size t' * 4 <? lines)%nat))
    then rewrite io order s else s.

(** * Well-formed records and paths *)

Record record_ok (r : MetaRecord) : Prop := {
  ro_mode : 0 <= mode r < 2 ^ 32;
  ro_uid : 0 <= uid r < 2 ^ 32;
  ro_gid : 0 <= gid r < 2 ^ 32;
  ro_nlink : 0 <= nlink r < 2 ^ 32;
  ro_have : 0 <= have r < 32;
  ro_no_nlink : has r kNlink = false -> nlink r = 0
}.

(** A guest path the journal can carry: absolute, without a newline or a
    NUL, not ending in a carriage return, and short enough for one line. *)
Record path_ok (p : str) : Prop := {
  po_abs : head p = Some slash;
  po_nl : nl ∉ p;
  po_nul : nul ∉ p;
  po_cr : last p <> Some cr;
  po_len : (Z.of_nat (length p) <= 8000)
}.

#[export] Instance path_ok_dec p : Decision (path_ok p).
Proof.
  refine (cast_if (decide (head p = Some slash /\ nl ∉ p /\ nul ∉ p /\ last p <> Some cr /\
                           Z.of_nat (length p) <= 8000)));
    [abstract (split; naive_solver)|abstract (intros []; naive_solver)].
Defined.

(** Facts about the five bits, by evaluation. *)
Lemma have_cases (P : Z -> bool) :
  forallb P (seqZ 0 32) = true -> forall h, 0 <= h < 32 -> P h = true.
Proof.
  intros H h Hh. rewrite forallb_forall in H. apply H, list_elem_of_In, elem_of_seqZ. lia.
Qed.

Lemma have_range h k :
  0 <= h < 32 -> k ∈ [kMode; kUid; kGid; kFifo] ->
  0 <= Z.lor h k < 32 /\ 0 <= Z.land h (u8 (Z.lnot k)) < 32 /\
  Z.land (Z.lor h k) kNlink = Z.land h kNlink /\
  Z.land (Z.land h (u8 (Z.lnot k))) kNlink = Z.land h kNlink.
Proof.
  intros Hh Hk.
  assert (E : forallb (fun h => forallb (fun k =>
     (0 <=? Z.lor h k) && (Z.lor h k <? 32) && (0 <=? Z.land h (u8 (Z.lnot k)))
     && (Z.land h (u8 (Z.lnot k)) <? 32) && (Z.land (Z.lor h k) kNlink =? Z.land h kNlink)
     && (Z.land (Z.land h (u8 (Z.lnot k))) kNlink =? Z.land h kNlink))
     [kMode; kUid; kGid; kFifo]) (seqZ 0 32) = true) by (vm_compute; reflexivity).
  pose proof (have_cases _ E h Hh) as F. rewrite forallb_forall in F.
  specialize (F k (proj1 (list_elem_of_In _ _) Hk)). lia.
Qed.

(** The bits of one record, after another is set or cleared. *)
Lemma has_set h k j :
  0 <= h < 32 -> k ∈ [kMode; kUid; kGid; kFifo] -> j ∈ [kMode; kUid; kGid; kNlink; kFifo] ->
  (Z.land (Z.lor h k) j =? 0) = (if k =? j then false else Z.land h j =? 0) /\
  (Z.land (Z.land h (u8 (Z.lnot k))) j =? 0) = (if k =? j then true else Z.land h j =? 0).
Proof.
  intros Hh Hk Hj.
  assert (E : forallb (fun h => forallb (fun k => forallb (fun j =>
     eqb (Z.land (Z.lor h k) j =? 0) (if k =? j then false else Z.land h j =? 0)
     && eqb (Z.land (Z.land h (u8 (Z.lnot k))) j =? 0) (if k =? j then true else Z.land h j =? 0))
     [kMode; kUid; kGid; kNlink; kFifo]) [kMode; kUid; kGid; kFifo]) (seqZ 0 32) = true)
    by (vm_compute; reflexivity).
  pose proof (have_cases _ E h Hh) as F. rewrite forallb_forall in F.
  specialize (F k (proj1 (list_elem_of_In _ _) Hk)). rewrite forallb_forall in F.
  specialize (F j (proj1 (list_elem_of_In _ _) Hj)).
  apply andb_true_iff in F as [F1 F2]. split; by apply eqb_prop.
Qed.

(** * One journal line *)

(** The numbers of a line, before the path. *)
Definition line_head (r : MetaRecord) : str :=
  print_oct (mode r) ++ [space] ++ print_dec (uid r) ++ [space] ++ print_dec (gid r) ++ [space]
  ++ print_dec (have r) ++ [space]
  ++ (if has r kNlink then print_dec (nlink r) ++ [space] else []).

Lemma write_line_head p r : write_line p r = line_head r ++ p ++ [nl].
Proof. unfold write_line, line_head. destruct (has r kNlink); by rewrite <- ?app_assoc. Qed.

Lemma print_plain n b c : (b = 8 \/ b = 10) -> c ∈ print_base 11 b n -> c <> nl /\ c <> nul.
Proof. intros Hb. apply print_base_plain. lia. Qed.

Lemma line_head_plain r c : c ∈ line_head r -> c <> nl /\ c <> nul.
Proof.
  unfold line_head, print_oct, print_dec. rewrite !elem_of_app, !list_elem_of_singleton.
  intros H. repeat match goal with H : _ \/ _ |- _ => destruct H as [H|H] end;
    try (eapply print_plain; [|exact H]; tauto); try (by subst c).
  destruct (has r kNlink); [|by apply not_elem_of_nil in H].
  rewrite elem_of_app, list_elem_of_singleton in H. destruct H as [H | ->]; [|done].
  eapply print_plain; [|exact H]; tauto.
Qed.

Lemma line_head_length r : (length (line_head r) <= 60)%nat.
Proof.
  unfold line_head, print_oct, print_dec. rewrite !length_app.
  pose proof (print_base_length 11 8 (mode r)). pose proof (print_base_length 11 10 (uid r)).
  pose proof (print_base_length 11 10 (gid r)). pose proof (print_base_length 11 10 (have r)).
  pose proof (print_base_length 11 10 (nlink r)).
  destruct (has r kNlink); rewrite ?length_app; cbn [length]; lia.
Qed.

Lemma skip_space_id p : head p = Some slash -> skip_space p = p.
Proof. destruct p as [|c p]; [done|]. by intros [= ->]. Qed.

Lemma skip_space_space s : skip_space (space :: s) = skip_space s.
Proof. reflexivity. Qed.

(** The four numbers are read back. *)
Lemma parse_head_print m u g h rest :
  0 <= m < 2 ^ 32 -> 0 <= u < 2 ^ 32 -> 0 <= g < 2 ^ 32 -> 0 <= h < 2 ^ 32 ->
  parse_head (print_oct m ++ [space] ++ print_dec u ++ [space] ++ print_dec g ++ [space]
              ++ print_dec h ++ space :: rest) = Some (m, u, g, h, skip_space rest).
Proof.
  intros Hm Hu Hg Hh. unfold parse_head, print_oct, print_dec.
  cbn [app]. rewrite scan_uint_print by (auto || reflexivity). cbn -[scan_uint].
  rewrite (scan_uint_space 10 (print_base 11 10 u ++ _)).
  rewrite scan_uint_print by (auto || reflexivity). cbn -[scan_uint].
  rewrite (scan_uint_space 10 (print_base 11 10 g ++ _)).
  rewrite scan_uint_print by (auto || reflexivity). cbn -[scan_uint].
  rewrite (scan_uint_space 10 (print_base 11 10 h ++ _)).
  rewrite scan_uint_print by (auto || reflexivity). reflexivity.
Qed.

Lemma path_line_plain hd p :
  (forall c, c ∈ hd -> c <> nl /\ c <> nul) -> path_ok p ->
  c_str (hd ++ p ++ [nl]) = hd ++ p ++ [nl].
Proof.
  intros Hh Hp. apply c_str_id. rewrite !elem_of_app, list_elem_of_singleton.
  intros [H|[H|H]]; [by apply Hh in H as []|by destruct Hp|done].
Qed.

Lemma path_not_nl p : path_ok p -> last p <> Some nl.
Proof. intros Hp H. apply last_Some_elem_of in H. by apply (po_nl _ Hp). Qed.

Lemma path_ne p : path_ok p -> p <> [].
Proof. intros [H _ _ _ _] ->. done. Qed.

Lemma skip_path p : path_ok p -> skip_space (p ++ [nl]) = p ++ [nl].
Proof. intros [H _ _ _ _]. apply skip_space_id. by destruct p. Qed.

Lemma replay_write_line t p r :
  path_ok p -> record_ok r ->
  replay_line t (write_line p r) = if is_redundant r then delete p t else <[p := r]> t.
Proof.
  intros Hp Hr. unfold replay_line. rewrite write_line_head.
  rewrite path_line_plain by (done || apply line_head_plain).
  unfold line_head. rewrite <- !app_assoc. cbn [app].
  pose proof (parse_head_print (mode r) (uid r) (gid r) (have r)
    ((if has r kNlink then print_dec (nlink r) ++ [space] else []) ++ p ++ [nl])) as E.
  destruct Hr as [Hm Hu Hg Hn Hh Hnl]. cbn [app] in E. rewrite E by lia. clear E.
  rewrite (proj2 (Z.eqb_neq (have r) 255)) by lia. cbn [negb andb].
  fold (has r kNlink). unfold u8. rewrite (Z.mod_small (have r)) by lia.
  assert (Er : {| mode := mode r; uid := uid r; gid := gid r; nlink := nlink r; have := have r |} = r)
    by (by destruct r).
  destruct (has r kNlink) eqn:En.
  - rewrite <- app_assoc. unfold print_dec. rewrite skip_space_digits by lia.
    rewrite scan_uint_print by (auto || reflexivity). cbn [app].
    rewrite skip_space_space, skip_path, strip_eol_line
      by (done || by apply path_not_nl || by destruct Hp).
    rewrite decide_False by by apply path_ne. by rewrite Er.
  - cbn [app]. rewrite skip_path, strip_eol_line
      by (done || by apply path_not_nl || by destruct Hp).
    rewrite decide_False by by apply path_ne.
    rewrite (Hnl eq_refl) in Er. by rewrite Er.
Qed.

Lemma replay_tombstone t p : path_ok p -> replay_line t (tombstone_line p) = delete p t.
Proof.
  intros Hp. unfold replay_line, tombstone_line. rewrite path_line_plain;
    [|intros c Hc; split; intros ->; revert Hc; vm_compute; set_solver|done].
  pose proof (parse_head_print 0 0 0 255 (p ++ [nl])) as E. cbn [app] in E.
  change (lit "0 0 0 255 " ++ p ++ [nl]) with
    (print_oct 0 ++ space :: print_dec 0 ++ space :: print_dec 0 ++ space ::
     print_dec 255 ++ space :: p ++ [nl]).
  rewrite E by lia. cbn -[skip_space strip_eol].
  rewrite skip_path, strip_eol_line by (done || by apply path_not_nl || by destruct Hp).
  by rewrite decide_False by by apply path_ne.
Qed.

Lemma path_line_ok hd p :
  (forall c, c ∈ hd -> c <> nl /\ c <> nul) -> (length hd <= 60)%nat -> path_ok p ->
  line_ok line_max (hd ++ p ++ [nl]).
Proof.
  intros Hh Hl Hp. exists (hd ++ p). split; [by rewrite app_assoc|]. split.
  - rewrite elem_of_app. intros [H|H]; [by apply Hh in H as []|by apply (po_nl _ Hp)].
  - rewrite length_app. pose proof (po_len _ Hp). unfold line_max. lia.
Qed.

Lemma write_line_ok p r : path_ok p -> line_ok line_max (write_line p r).
Proof.
  intros Hp. rewrite write_line_head.
  apply path_line_ok; [apply line_head_plain|apply line_head_length|done].
Qed.

Lemma tombstone_line_ok p : path_ok p -> line_ok line_max (tombstone_line p).
Proof.
  intros Hp. apply path_line_ok; [|cbn; lia|done].
  intros c Hc; split; intros ->; revert Hc; vm_compute; set_solver.
Qed.

(** * The journal replays to the table *)

Record wf (s : Store) : Prop := {
  wf_rec : forall p r, table s !! p = Some r ->
             path_ok p /\ record_ok r /\ is_redundant r = false;
  wf_journal : attached s = true -> exists ls,
    Forall (line_ok line_max) ls /\ default [] (file s) = concat ls /\
    fold_left replay_line ls ∅ = table s
}.

(** An operation that changes the table and appends the matching line. *)
Lemma wf_append s t l :
  wf s ->
  (forall p r, t !! p = Some r -> path_ok p /\ record_ok r /\ is_redundant r = false) ->
  line_ok line_max l -> replay_line (table s) l = t ->
  wf (append_text true (with_table s t) l).
Proof.
  intros [Hrec Hj] Ht Hl Hr. unfold append_text, with_table. cbn [attached table file].
  destruct (attached s) eqn:Ea; cbn [andb].
  - destruct (Hj eq_refl) as (ls & Hls & Hf & Hfold). split; cbn [table file attached]; [done|].
    intros _. exists (ls ++ [l]). split_and!.
    + apply Forall_app. split; [done|]. by apply Forall_singleton.
    + cbn [default]. rewrite Hf, concat_app. cbn [concat]. by rewrite app_nil_r.
    + rewrite fold_left_app, Hfold. done.
  - split; cbn [table file attached]; done.
Qed.

Lemma wf_set s p r :
  wf s -> path_ok p -> record_ok r -> is_redundant r = false ->
  wf (append true (with_table s (<[p := r]> (table s))) p r).
Proof.
  intros Hw Hp Hr Hn. apply wf_append; [done| |by apply write_line_ok|].
  - intros q x. rewrite lookup_insert_Some. intros [[<- <-]|[_ H]]; [done|]. by apply (wf_rec _ Hw).
  - rewrite replay_write_line by done. by rewrite Hn.
Qed.

Lemma wf_delete s p :
  wf s -> path_ok p -> wf (append_tombstone true (with_table s (delete p (table s))) p).
Proof.
  intros Hw Hp. apply wf_append; [done| |by apply tombstone_line_ok|by apply replay_tombstone].
  intros q x. rewrite lookup_delete_Some. intros [_ H]. by apply (wf_rec _ Hw).
Qed.

Lemma record_ok_default s p : wf s -> record_ok (default empty_record (table s !! p)).
Proof.
  intros Hw. destruct (table s !! p) as [r|] eqn:E; [by apply (wf_rec _ Hw) in E as (_ & ? & _)|].
  split; cbn; try lia; done.
Qed.

(** Changing bits other than the link count keeps a record well formed. *)
Lemma record_ok_bits r m u g k :
  record_ok r -> 0 <= m < 2 ^ 32 -> 0 <= u < 2 ^ 32 -> 0 <= g < 2 ^ 32 ->
  k ∈ [kMode; kUid; kGid; kFifo] ->
  record_ok {| mode := m; uid := u; gid := g; nlink := nlink r; have := Z.lor (have r) k |} /\
  record_ok {| mode := m; uid := u; gid := g; nlink := nlink r;
               have := Z.land (have r) (u8 (Z.lnot k)) |}.
Proof.
  intros [] Hm Hu Hg Hk. destruct (have_range (have r) k) as (H1 & H2 & H3 & H4); [done|done|].
  split; split; cbn [mode uid gid nlink have]; try done; unfold has in *; cbn [have] in *;
    [rewrite H3|rewrite H4]; done.
Qed.

Lemma land_perm m : 0 <= Z.land m kPermMask < 4096.
Proof.
  unfold kPermMask. change 0xFFF with (Z.ones 12). rewrite Z.land_ones by lia.
  change 4096 with (2 ^ 12). apply Z.mod_pos_bound. lia.
Qed.

Lemma has_bit r k : is_redundant r = true -> k ∈ [kMode; kNlink; kFifo] -> has r k = false.
Proof.
  unfold is_redundant. rewrite !andb_true_iff, !negb_true_iff. intros (((_ & ?) & ?) & ?) Hk.
  repeat (apply elem_of_cons in Hk as [-> | Hk]; [done|]). by apply not_elem_of_nil in Hk.
Qed.

Lemma has_kept r k : has r k = true -> k ∈ [kMode; kNlink; kFifo] -> is_redundant r = false.
Proof.
  intros H Hk. destruct (is_redundant r) eqn:E; [|done].
  by rewrite (has_bit r k E Hk) in H.
Qed.

Lemma has_lor h m u g n k :
  0 <= h < 32 -> k ∈ [kMode; kUid; kGid; kFifo] ->
  has {| mode := m; uid := u; gid := g; nlink := n; have := Z.lor h k |} k = true.
Proof.
  intros Hh Hk. unfold has. cbn [have].
  rewrite (proj1 (has_set h k k Hh Hk ltac:(set_solver))). by rewrite Z.eqb_refl.
Qed.

Lemma set_mode_wf s p m hm : wf s -> path_ok p -> wf (set_mode true s p m hm).
Proof.
  intros Hw Hp. unfold set_mode. destruct (_ && _).
  - destruct (table s !! p) as [r|] eqn:E; [|done].
    pose proof (wf_rec _ Hw _ _ E) as (_ & Hr & _).
    assert (Hr' : record_ok (clear_have r kMode))
      by (apply (record_ok_bits r); [done|apply Hr|apply Hr|apply Hr|set_solver]).
    destruct (is_redundant _) eqn:Er; [by apply wf_delete|by apply wf_set].
  - pose proof (record_ok_default s p Hw) as Hr. pose proof (land_perm m).
    set (r := default _ _) in *. apply wf_set; [done|done| |].
    + apply (record_ok_bits r); [done|lia|apply Hr|apply Hr|set_solver].
    + apply has_kept with kMode; [|set_solver]. apply has_lor; [apply Hr|set_solver].
Qed.

Lemma set_owner_wf s p u g :
  wf s -> path_ok p -> 0 <= u < 2 ^ 32 -> 0 <= g < 2 ^ 32 -> wf (set_owner true s p u g).
Proof.
  intros Hw Hp Hu Hg. unfold set_owner. destruct (_ && _ && _); [done|].
  pose proof (record_ok_default s p Hw) as Hr. set (r := default _ _) in *.
  set (r1 := if negb (u =? keep_id) then _ else r).
  assert (Hr1 : record_ok r1).
  { unfold r1. destruct (negb (u =? keep_id)); [|done].
    apply (record_ok_bits r); [done|apply Hr|done|apply Hr|set_solver]. }
  set (r2 := if negb (g =? keep_id) then _ else r1).
  assert (Hr2 : record_ok r2).
  { unfold r2. destruct (negb (g =? keep_id)); [|done].
    apply (record_ok_bits r1); [done|apply Hr1|apply Hr1|done|set_solver]. }
  destruct (is_redundant r2) eqn:Er; [by apply wf_delete|by apply wf_set].
Qed.

Lemma set_fifo_wf s p : wf s -> path_ok p -> wf (set_fifo true s p).
Proof.
  intros Hw Hp. pose proof (record_ok_default s p Hw) as Hr. unfold set_fifo.
  set (r := default _ _) in *. apply wf_set; [done|done| |].
  - apply (record_ok_bits r); [done|apply Hr|apply Hr|apply Hr|set_solver].
  - apply has_kept with kFifo; [|set_solver]. apply has_lor; [apply Hr|set_solver].
Qed.

Lemma forget_wf s p : wf s -> path_ok p -> wf (forget true s p).
Proof. intros Hw Hp. unfold forget. destruct (table s !! p); [by apply wf_delete|done]. Qed.

Lemma rename_wf s p q : wf s -> path_ok p -> path_ok q -> wf (rename true s p q).
Proof.
  intros Hw Hp Hq. unfold rename. destruct (table s !! p) as [r|] eqn:E.
  - pose proof (wf_rec _ Hw _ _ E) as (_ & Hr & Hn).
    pose proof (wf_set _ q r (wf_delete s p Hw Hp) Hq Hr Hn) as H.
    unfold append, append_tombstone, append_text, with_table in *. cbn [table attached file] in *.
    destruct (attached s); exact H.
  - pose proof (forget_wf s q Hw Hq) as H.
    assert (Ed : delete p (table (forget true s q)) = table (forget true s q)).
    { apply delete_id. unfold forget. destruct (table s !! q); [|done].
      unfold append_tombstone, append_text, with_table. cbn [attached].
      destruct (attached s); cbn [andb table]; by apply lookup_delete_None; right. }
    rewrite Ed. unfold with_table. by destruct (forget true s q).
Qed.

(** * What the guest sees *)

(** The mode, owner and group a guest stat reports for an inode whose host
    mode is [st]. *)
Definition guest_view (st : Z) (o : option MetaRecord) : Z * Z * Z :=
  match o with
  | None => (st, 0, 0)
  | Some r => (effective_mode st r, if has r kUid then uid r else 0, if has r kGid then gid r else 0)
  end.

(** Splitting a 16-bit mode into type and permission bits. *)
Lemma mode_split st : 0 <= st < 2 ^ 16 ->
  Z.lor (Z.land st kFileTypeMask) (Z.land st kPermMask) = st.
Proof.
  intros H. rewrite <- Z.land_lor_distr_r. change (Z.lor kFileTypeMask kPermMask) with (Z.ones 16).
  rewrite Z.land_ones by lia. apply Z.mod_small. lia.
Qed.

(** The fifo rewrite of a host mode keeps its permission bits. *)
Definition fifo_mode (st : Z) : Z := Z.lor (Z.land st (u32 (Z.lnot kFileTypeMask))) S_IFIFO.

Lemma fifo_mode_perm st : Z.land (fifo_mode st) kPermMask = Z.land st kPermMask.
Proof.
  unfold fifo_mode. rewrite Z.land_lor_distr_l, <- Z.land_assoc.
  change (Z.land (u32 (Z.lnot kFileTypeMask)) kPermMask) with kPermMask.
  change (Z.land S_IFIFO kPermMask) with 0. apply Z.lor_0_r.
Qed.

Lemma fifo_mode_range st : 0 <= st < 2 ^ 16 -> 0 <= fifo_mode st < 2 ^ 16.
Proof.
  intros H. assert (E : fifo_mode st = Z.land (fifo_mode st) (Z.ones 16)).
  { unfold fifo_mode. rewrite Z.land_lor_distr_l, <- Z.land_assoc.
    rewrite (Z.land_comm (u32 _)), Z.land_assoc, Z.land_ones by lia.
    rewrite (Z.mod_small st) by lia. reflexivity. }
  rewrite E, Z.land_ones by lia. apply Z.mod_pos_bound. lia.
Qed.

Lemma effective_mode_perm st r : has r kMode = true ->
  Z.land (effective_mode st r) kPermMask = Z.land (mode r) kPermMask.
Proof.
  intros H. unfold effective_mode. rewrite H. cbn [negb].
  rewrite Z.land_lor_distr_l, <- !Z.land_assoc.
  change (Z.land kFileTypeMask kPermMask) with 0. change (Z.land kPermMask kPermMask) with kPermMask.
  by rewrite Z.land_0_r, Z.lor_0_l.
Qed.

Lemma effective_mode_perm_none st r : has r kMode = false ->
  Z.land (effective_mode st r) kPermMask = Z.land st kPermMask.
Proof.
  intros H. unfold effective_mode. rewrite H. cbn [negb].
  destruct (_ && _); [apply fifo_mode_perm|done].
Qed.

(** Clearing a recorded mode the inode already carries changes nothing. *)
Lemma effective_mode_clear st r :
  record_ok r -> 0 <= st < 2 ^ 16 -> Z.land st kPermMask = mode r ->
  effective_mode st (clear_have r kMode) = effective_mode st r.
Proof.
  intros Hr Hst Hm. destruct (has r kMode) eqn:E.
  - unfold effective_mode. rewrite E.
    unfold clear_have, with_have, has in *. cbn [have mode] in *.
    rewrite (proj2 (has_set (have r) kMode kMode (ro_have _ Hr) ltac:(set_solver) ltac:(set_solver))).
    rewrite (proj2 (has_set (have r) kMode kFifo (ro_have _ Hr) ltac:(set_solver) ltac:(set_solver))).
    change (kMode =? kMode) with true. change (kMode =? kFifo) with false. cbn [negb].
    assert (Hp : Z.land (mode r) kPermMask = Z.land st kPermMask)
      by (rewrite <- Hm, <- Z.land_assoc; reflexivity).
    rewrite Hp. destruct (_ && _).
    + fold (fifo_mode st). rewrite <- (fifo_mode_perm st).
      symmetry. by apply mode_split, fifo_mode_range.
    + symmetry. by apply mode_split.
  - assert (Eh : Z.land (have r) (u8 (Z.lnot kMode)) = have r);
      [|unfold clear_have; rewrite Eh; by destruct r].
    assert (F : forallb (fun h => implb (Z.land h kMode =? 0)
                  (Z.land h (u8 (Z.lnot kMode)) =? h)) (seqZ 0 32) = true)
      by (vm_compute; reflexivity).
    pose proof (have_cases _ F (have r) (ro_have _ Hr)) as G. cbn beta in G.
    unfold has in E. apply negb_false_iff in E. rewrite E in G. cbn [implb] in G. lia.
Qed.

Lemma guest_view_redundant st r : is_redundant r = true -> guest_view st (Some r) = (st, 0, 0).
Proof.
  intros H. cbn [guest_view]. unfold effective_mode.
  rewrite (has_bit r kMode H), (has_bit r kFifo H) by set_solver. cbn [negb andb].
  unfold is_redundant in H. rewrite !andb_true_iff in H. destruct H as ((([Hu Hg] & _) & _) & _).
  destruct (has r kUid), (has r kGid); cbn [negb orb] in *; repeat f_equal; lia.
Qed.

(** Compaction of one record is invisible. *)
Lemma compact_record_view lstat bases p r st :
  record_ok r -> lstat_bases lstat bases p = Some st -> 0 <= st < 2 ^ 16 ->
  Z.land st kFileTypeMask <> S_IFLNK ->
  guest_view st (compact_record lstat bases p r) = guest_view st (Some r).
Proof.
  intros Hr Hl Hst Hs. unfold compact_record. rewrite Hl.
  rewrite (proj2 (Z.eqb_neq _ _) Hs). cbn [orb].
  set (r' := if has r kMode then _ else r).
  assert (Hv : guest_view st (Some r') = guest_view st (Some r)).
  { unfold r'. destruct (has r kMode); [|done].
    destruct (Z.eqb_spec (Z.land st kPermMask) (mode r)) as [E|]; [|done].
    cbn [guest_view]. rewrite effective_mode_clear by done.
    unfold has, clear_have, with_have. cbn [have uid gid].
    rewrite (proj2 (has_set (have r) kMode kUid (ro_have _ Hr) ltac:(set_solver) ltac:(set_solver))).
    rewrite (proj2 (has_set (have r) kMode kGid (ro_have _ Hr) ltac:(set_solver) ltac:(set_solver))).
    reflexivity. }
  destruct (is_redundant r') eqn:E; [|done]. rewrite <- Hv, guest_view_redundant by done. done.
Qed.

Lemma compact_record_ok lstat bases p r r' :
  record_ok r -> compact_record lstat bases p r = Some r' ->
  record_ok r' /\ is_redundant r' = false.
Proof.
  intros Hr. unfold compact_record. set (x := if has r kMode then _ else r).
  assert (Hx : record_ok x).
  { unfold x. destruct (has r kMode); [|done]. destruct (lstat_bases _ _ _); [|done].
    destruct (_ || _); [|done].
    apply (record_ok_bits r); [done|apply Hr|apply Hr|apply Hr|set_solver]. }
  destruct (is_redundant x) eqn:E; [done|]. by intros [= <-].
Qed.

(** ** Rewriting the journal *)

Lemma fold_insert (l : list (str * MetaRecord)) : forall m : gmap str MetaRecord,
  NoDup l.*1 ->
  fold_left (fun m pr => <[pr.1 := pr.2]> m) l m = list_to_map l ∪ m.
Proof.
  induction l as [|[p r] l IH]; intros m Hn; simpl; [by rewrite map_empty_union|].
  rewrite fmap_cons in Hn. apply NoDup_cons in Hn as [Hp Hn]. rewrite IH by done.
  rewrite <- insert_union_r by (by apply not_elem_of_list_to_map_1).
  by rewrite <- insert_union_l.
Qed.

Lemma replay_lines_insert (l : list (str * MetaRecord)) : forall m : gmap str MetaRecord,
  Forall (fun pr => path_ok pr.1 /\ record_ok pr.2 /\ is_redundant pr.2 = false) l ->
  fold_left replay_line (map (fun pr => write_line pr.1 pr.2) l) m
  = fold_left (fun m pr => <[pr.1 := pr.2]> m) l m.
Proof.
  induction l as [|[p r] l IH]; intros m Hl; simpl; [done|].
  apply Forall_cons in Hl as [(Hp & Hr & Hn) Hl].
  rewrite replay_write_line by done. cbn [fst snd] in *. rewrite Hn. by apply IH.
Qed.

(** The iteration order of a hash table: some order of its entries. *)
Definition iterates (order : gmap str MetaRecord -> list (str * MetaRecord)) : Prop :=
  forall t, order t ≡ₚ map_to_list t.

Lemma rewrite_wf order s :
  iterates order ->
  (forall p r, table s !! p = Some r -> path_ok p /\ record_ok r /\ is_redundant r = false) ->
  wf (rewrite true order s).
Proof.
  intros Ho Hs. split; cbn [table rewrite attached file]; [done|]. intros _.
  assert (Hf : Forall (fun pr => path_ok pr.1 /\ record_ok pr.2 /\ is_redundant pr.2 = false)
                 (order (table s))).
  { rewrite (Ho (table s)). apply Forall_forall. intros [p r] H.
    apply elem_of_map_to_list in H. by apply Hs. }
  exists (map (fun pr => write_line pr.1 pr.2) (order (table s))). split_and!; [|done|].
  - apply Forall_map. eapply Forall_impl; [exact Hf|]. intros [p r] (Hp & _). by apply write_line_ok.
  - assert (Hn : NoDup (order (table s)).*1)
      by (rewrite (Ho (table s)); apply NoDup_fst_map_to_list).
    rewrite replay_lines_insert, fold_insert, map_union_empty by done.
    rewrite (list_to_map_proper _ _ Hn (Ho (table s))). apply list_to_map_to_list.
Qed.

(** ** Attaching to a journal *)

Definition fresh : Store := {| table := ∅; attached := false; file := None |}.

(** Replaying the journal of a well-formed store rebuilds its table. *)
Lemma replay_wf s : wf s -> attached s = true -> (replay ∅ (file s)).1 = table s.
Proof.
  intros [_ Hj] Ha. destruct (Hj Ha) as (ls & Hls & Hf & Hfold). unfold replay.
  destruct (file s) as [text|]; cbn in Hf; cbn [fst].
  - rewrite Hf. unfold line_max. by rewrite read_lines_concat.
  - destruct ls as [|l ls]; [done|]. apply Forall_cons in Hls as [(b & -> & _) _].
    by destruct b.
Qed.

Lemma compact_wf_rec lstat bases t :
  (forall p r, t !! p = Some r -> path_ok p /\ record_ok r /\ is_redundant r = false) ->
  forall p r, compact lstat bases t !! p = Some r ->
              path_ok p /\ record_ok r /\ is_redundant r = false.
Proof.
  intros Ht p r. unfold compact. rewrite map_lookup_imap.
  destruct (t !! p) as [r0|] eqn:E; [|done]. simpl. intros H.
  destruct (Ht p r0 E) as (Hp & Hr & _). split; [done|]. by eapply compact_record_ok.
Qed.

(** * Properties *)

(** The operations of a session, with the paths and ids they may carry. *)
Inductive op :=
| SetMode (p : str) (m host_mode : Z) | SetOwner (p : str) (u g : Z)
| SetFifo (p : str) | Forget (p : str) | Rename (p q : str).

Definition op_ok (o : op) : Prop :=
  match o with
  | SetMode p _ _ | SetFifo p | Forget p => path_ok p
  | SetOwner p u g => path_ok p /\ 0 <= u < 2 ^ 32 /\ 0 <= g < 2 ^ 32
  | Rename p q => path_ok p /\ path_ok q
  end.

Definition apply_op (s : Store) (o : op) : Store :=
  match o with
  | SetMode p m h => set_mode true s p m h
  | SetOwner p u g => set_owner true s p u g
  | SetFifo p => set_fifo true s p
  | Forget p => forget true s p
  | Rename p q => rename true s p q
  end.

Lemma apply_op_wf s o : wf s -> op_ok o -> wf (apply_op s o).
Proof.
  intros Hw. destruct o; cbn [op_ok apply_op]; intros Ho.
  - by apply set_mode_wf.
  - destruct Ho as (? & ? & ?). by apply set_owner_wf.
  - by apply set_fifo_wf.
  - by apply forget_wf.
  - destruct Ho. by apply rename_wf.
Qed.

Lemma attached_apply s o : attached (apply_op s o) = attached s.
Proof.
  destruct o; cbn [apply_op]; unfold set_mode, set_owner, set_fifo, forget, rename, forget, append,
    append_tombstone, append_text, with_table; repeat case_match; done.
Qed.

Lemma session_wf ops : forall s,
  wf s -> Forall op_ok ops ->
  wf (fold_left apply_op ops s) /\ attached (fold_left apply_op ops s) = attached s.
Proof.
  induction ops as [|o ops IH]; intros s Hw Ho; [done|]. apply Forall_cons in Ho as [H Ho].
  cbn [fold_left]. rewrite <- (attached_apply s o). apply IH; [|done]. by apply apply_op_wf.
Qed.

Lemma attached_empty_wf : wf {| table := ∅; attached := true; file := None |}.
Proof. split; [done|]. intros _. by exists []. Qed.



(** [attach] with compaction, summarised: the compacted table, and either
    the old journal or the rewritten one. *)
Lemma attach_compact io order lstat bases s upper :
  wf s -> attached s = true -> upper <> [] -> last upper <> Some slash ->
  let t' := compact lstat bases (table s) in
  let lines := (replay ∅ (file s)).2 in
  let s1 := {| table := t'; attached := true; file := file s |} in
  attach io order lstat bases fresh upper (file s) true =
  if (negb (size (table s) - size t' =? 0)%nat
      || ((1024 <? lines)%nat && (size t' * 4 <? lines)%nat)) && io
  then rewrite true order s1 else s1.
Proof.
  intros Hw Ha Hu Hl. unfold attach.
  assert (Eu : match last upper with
               | Some c => if decide (c = slash) then take (length upper - 1) upper else upper
               | None => upper end = upper).
  { destruct (last upper) as [c|]; [|done]. destruct (decide (c = slash)) as [-> |]; [|done].
    by destruct Hl. }
  rewrite Eu. destruct (decide (upper = [])) as [|_]; [done|].
  pose proof (replay_wf s Hw Ha) as E. cbn [table fresh].
  destruct (replay ∅ (file s)) as [t n]. cbn [fst snd] in *. subst t. cbn [andb].
  destruct (_ || _); [by destruct io|done].
Qed.

Lemma compact_view lstat bases t p st :
  (forall r, t !! p = Some r -> record_ok r) ->
  lstat_bases lstat bases p = Some st -> 0 <= st < 2 ^ 16 -> Z.land st kFileTypeMask <> S_IFLNK ->
  guest_view st (compact lstat bases t !! p) = guest_view st (t !! p).
Proof.
  intros Ht Hst Hr Hs. unfold compact. rewrite map_lookup_imap.
  destruct (t !! p) as [r|] eqn:E; [|done]. apply compact_record_view; auto.
Qed.

(** Compaction is invisible: attaching with compaction to the journal a
    session left, whatever [lstat] answers and in whatever order the table is
    rewritten, changes neither the mode nor the owner a guest stat reports
    for an existing file that is not a symbolic link, in memory and after a
    further replay of the journal it leaves. *)
Theorem compaction_invisible (ops : list op) (io : bool) order lstat bases (upper p : str) (st : Z) :
  Forall op_ok ops -> iterates order -> upper <> [] -> last upper <> Some slash ->
  lstat_bases lstat bases p = Some st -> 0 <= st < 2 ^ 16 -> Z.land st kFileTypeMask <> S_IFLNK ->
  let s := fold_left apply_op ops {| table := ∅; attached := true; file := None |} in
  let s' := attach io order lstat bases fresh upper (file s) true in
  guest_view st (table s' !! p) = guest_view st (table s !! p) /\
  guest_view st ((replay ∅ (file s')).1 !! p) = guest_view st (table s !! p).
Proof.
  intros Ho Hord Hu Hl Hst Hr Hs s.
  destruct (session_wf ops _ attached_empty_wf Ho) as [Hw Ha]. fold s in Hw, Ha.
  pose proof (compact_view lstat bases (table s) p st) as Hv.
  specialize (Hv (fun r E => proj1 (proj2 (wf_rec _ Hw p r E))) Hst Hr Hs).
  rewrite attach_compact by done. cbn zeta. destruct (_ && io) eqn:Er.
  - apply andb_true_iff in Er as [_ ->]. rewrite replay_wf; [done| |done].
    apply rewrite_wf; [done|]. cbn [table]. apply compact_wf_rec, Hw.
  - cbn [table file]. rewrite replay_wf by done. done.
Qed.

Lemma compaction_invisible_witness :
  let ops := [SetMode (lit "/bin/su") 2541 33261; SetOwner (lit "/bin/su") 0 7] in
  let s := fold_left apply_op ops {| table := ∅; attached := true; file := None |} in
  let s' := attach true map_to_list (fun _ => Some 35309) [lit "/r"] fresh (lit "/up") (file s) true in
  guest_view 35309 (table s' !! lit "/bin/su") = (35309, 0, 7) /\
  guest_view 35309 ((replay ∅ (file s')).1 !! lit "/bin/su") = (35309, 0, 7).
Proof.
  intros ops s s'.
  assert (Ho : Forall op_ok ops).
  { unfold ops. rewrite !Forall_cons, Forall_nil. cbn [op_ok]. split_and!;
      try lia; try exact I; apply (bool_decide_unpack _); vm_compute; exact I. }
  destruct (compaction_invisible ops true map_to_list (fun _ => Some 35309) [lit "/r"]
              (lit "/up") (lit "/bin/su") 35309 Ho (fun t => Permutation_refl _)
              ltac:(discriminate) ltac:(discriminate) eq_refl ltac:(lia) ltac:(discriminate)) as [H1 H2].
  fold s s' in H1, H2. rewrite H1, H2. split; vm_compute; reflexivity.
Defined.

Lemma table_append_text io s l : table (append_text io s l) = table s.
Proof. unfold append_text. by destruct (_ && _). Qed.

Lemma table_append io s t p r : table (append io (with_table s t) p r) = t.
Proof. unfold append, append_text. by destruct (_ && _). Qed.

Lemma table_append_tombstone io s t p : table (append_tombstone io (with_table s t) p) = t.
Proof. unfold append_tombstone, append_text. by destruct (_ && _). Qed.

Lemma set_mode_view io s p m hm st :
  wf s -> hm = st \/ hm = no_host_mode ->
  Z.land (guest_view st (table (set_mode io s p m hm) !! p)).1.1 kPermMask = Z.land m kPermMask.
Proof.
  intros Hw Hhm. unfold set_mode. destruct (negb (hm =? no_host_mode) && _) eqn:E.
  - apply andb_true_iff in E as [E1 E2]. apply negb_true_iff, Z.eqb_neq in E1.
    apply Z.eqb_eq in E2. destruct Hhm as [-> | ->]; [|done].
    destruct (table s !! p) as [r|] eqn:Er; [|by rewrite Er].
    destruct (is_redundant _) eqn:Ed.
    + rewrite table_append_tombstone, lookup_delete_eq. done.
    + rewrite table_append, lookup_insert_eq. cbn [guest_view fst].
      rewrite effective_mode_perm_none; [done|]. unfold has, clear_have, with_have. cbn [have].
      pose proof (wf_rec _ Hw _ _ Er) as (_ & Hr & _).
      rewrite (proj2 (has_set (have r) kMode kMode (ro_have _ Hr) ltac:(set_solver) ltac:(set_solver))).
      done.
  - rewrite table_append, lookup_insert_eq. cbn [guest_view fst].
    rewrite effective_mode_perm; [cbn [mode]; by rewrite <- Z.land_assoc|].
    apply has_lor; [|set_solver]. apply record_ok_default. done.
Qed.

(** The owner bits after one component is recorded. *)
Definition owner_of (r : MetaRecord) : Z * Z :=
  (if has r kUid then uid r else 0, if has r kGid then gid r else 0).

Lemma owner_set_uid r u :
  0 <= have r < 32 ->
  owner_of {| mode := mode r; uid := u; gid := gid r; nlink := nlink r; have := Z.lor (have r) kUid |}
  = (u, (owner_of r).2).
Proof.
  intros Hh. unfold owner_of, has. cbn [have uid gid fst snd].
  rewrite (proj1 (has_set (have r) kUid kUid Hh ltac:(set_solver) ltac:(set_solver))).
  rewrite (proj1 (has_set (have r) kUid kGid Hh ltac:(set_solver) ltac:(set_solver))). done.
Qed.

Lemma owner_set_gid r g :
  0 <= have r < 32 ->
  owner_of {| mode := mode r; uid := uid r; gid := g; nlink := nlink r; have := Z.lor (have r) kGid |}
  = ((owner_of r).1, g).
Proof.
  intros Hh. unfold owner_of, has. cbn [have uid gid fst snd].
  rewrite (proj1 (has_set (have r) kGid kUid Hh ltac:(set_solver) ltac:(set_solver))).
  rewrite (proj1 (has_set (have r) kGid kGid Hh ltac:(set_solver) ltac:(set_solver))). done.
Qed.

Lemma owner_redundant r : is_redundant r = true -> owner_of r = (0, 0).
Proof.
  intros H. pose proof (guest_view_redundant 0 r H) as E. unfold owner_of.
  cbn [guest_view] in E. congruence.
Qed.

Lemma set_owner_view io s p u g st :
  (forall r, table s !! p = Some r -> record_ok r) ->
  let '(_, u0, g0) := guest_view st (table s !! p) in
  let '(_, u1, g1) := guest_view st (table (set_owner io s p u g) !! p) in
  u1 = (if u =? keep_id then u0 else u) /\ g1 = (if g =? keep_id then g0 else g).
Proof.
  intros Hok.
  assert (Hd : record_ok (default empty_record (table s !! p))).
  { destruct (table s !! p) as [r|] eqn:E; [by apply Hok|]. split; cbn; lia || done. }
  assert (Ev : forall o, guest_view st o
     = ((guest_view st o).1.1, (owner_of (default empty_record o)).1, (owner_of (default empty_record o)).2))
    by (by intros [r|]).
  rewrite (Ev (table s !! p)), (Ev (table (set_owner io s p u g) !! p)). cbv beta iota.
  unfold set_owner. set (r := default empty_record (table s !! p)) in *.
  destruct (bool_decide _ && _ && _) eqn:Eb.
  - fold r. apply andb_true_iff in Eb as [Eb Eg]. apply andb_true_iff in Eb as [Eb Eu].
    apply bool_decide_eq_true in Eb. unfold r. rewrite Eb.
    change (owner_of (default empty_record None)) with (0, 0). cbn [fst snd].
    apply orb_true_iff in Eu, Eg. rewrite !Z.eqb_eq in Eu, Eg.
    destruct (Z.eqb_spec u keep_id), (Z.eqb_spec g keep_id); lia.
  - set (r1 := if negb (u =? keep_id) then _ else r).
    assert (H1 : owner_of r1 = (if u =? keep_id then (owner_of r).1 else u, (owner_of r).2) /\
                 0 <= have r1 < 32).
    { unfold r1. destruct (u =? keep_id); cbn [negb]; [by split; [destruct (owner_of r)|apply Hd]|].
      split; [by apply owner_set_uid, Hd|]. apply have_range; [apply Hd|set_solver]. }
    set (r2 := if negb (g =? keep_id) then _ else r1).
    assert (H2 : owner_of r2 = (if u =? keep_id then (owner_of r).1 else u,
                                if g =? keep_id then (owner_of r).2 else g)).
    { unfold r2. destruct H1 as [H1 Hh]. destruct (g =? keep_id); cbn [negb]; [done|].
      rewrite owner_set_gid by done. by rewrite H1. }
    destruct (is_redundant r2) eqn:Er.
    + rewrite table_append_tombstone, lookup_delete_eq. cbn [default].
      apply owner_redundant in Er. rewrite Er in H2.
      pose proof (f_equal fst H2) as E1. pose proof (f_equal snd H2) as E2.
      cbn [fst snd] in E1, E2. by rewrite <- E1, <- E2.
    + rewrite table_append, lookup_insert_eq.
      change (default empty_record (Some r2)) with r2. by rewrite H2.
Qed.

(** What chmod and chown record is what stat reports: after [set_mode]
    with the mode the host inode carries, or with none known, the guest sees
    the host's file type and exactly the requested permission bits; after
    [set_owner] it sees the new owner and group, the previous ones where the
    call said -1; no other path changes. *)
Theorem chmod_chown_visible (s : Store) (io : bool) (p : str) (m u g : Z) :
  wf s ->
  (forall st hm, hm = st \/ hm = no_host_mode ->
     Z.land (guest_view st (table (set_mode io s p m hm) !! p)).1.1 kPermMask = Z.land m kPermMask) /\
  (forall st, let '(_, u0, g0) := guest_view st (table s !! p) in
     let '(_, u1, g1) := guest_view st (table (set_owner io s p u g) !! p) in
     u1 = (if u =? keep_id then u0 else u) /\ g1 = (if g =? keep_id then g0 else g)) /\
  (forall q hm, q <> p -> table (set_mode io s p m hm) !! q = table s !! q /\
                          table (set_owner io s p u g) !! q = table s !! q).
Proof.
  intros Hw. split_and!.
  - intros st hm Hhm. by apply set_mode_view.
  - intros st. apply set_owner_view. intros r E. by apply (wf_rec _ Hw) in E as (_ & ? & _).
  - intros q hm Hq. unfold set_mode, set_owner. split; repeat case_match; try done;
      rewrite ?table_append, ?table_append_tombstone; cbn [table with_table];
      by rewrite ?lookup_insert_ne, ?lookup_delete_ne by done.
Qed.

Lemma chmod_chown_visible_witness :
  Z.land (guest_view 33188 (table (set_mode true fresh (lit "/x") 2541 33188) !! lit "/x")).1.1
    kPermMask = 2541.
Proof.
  destruct (chmod_chown_visible fresh true (lit "/x") 2541 0 0) as [H _]; [by split|].
  rewrite H by (by left). reflexivity.
Defined.

(** The journal is not robust against a newline in a guest file name: a
    chmod of a file whose name continues, after a newline, with the text of
    a record makes the next start believe in a record of another path.  Here
    a chmod of a file the guest named itself gives /etc/shadow to uid 1000. *)
Theorem newline_forges_record :
  let name := lit "/tmp/a" ++ [nl] ++ lit "0 1000 1000 6 /etc/shadow" in
  let s := set_mode true {| table := ∅; attached := true; file := None |} name 448 no_host_mode in
  table s !! lit "/etc/shadow" = None /\
  guest_view 33152 ((replay ∅ (file s)).1 !! lit "/etc/shadow") = (33152, 1000, 1000).
Proof. vm_compute. split; reflexivity. Qed.

(** Renaming a directory moves its own record only: a record below the old
    name stays there, and the file under the new name has none. *)
Lemma rename_leaves_children io s d e p :
  p <> d -> p <> e -> table (rename io s d e) !! p = table s !! p.
Proof.
  intros Hd He. unfold rename. destruct (table s !! d) as [r|] eqn:E.
  - unfold append, append_tombstone. rewrite !table_append_text. cbn [table with_table].
    by rewrite lookup_insert_ne, lookup_delete_ne.
  - cbn [table with_table]. rewrite lookup_delete_ne by done. unfold forget.
    destruct (table s !! e); [|done]. rewrite table_append_tombstone. by rewrite lookup_delete_ne.
Qed.

End MetaStore.
