(* ===== verification/LinkTable.v ===== *)
(** Emulated hardlinks ([include/linuxity/kernel/link_table.hpp]), and the
    two dispatcher operations that keep them in step with the host,
    [unlink_with_links] and [rename_with_links]
    ([include/linuxity/abi/syscall.hpp]).

    The table maps an alias to the backing file and a backing file to its
    aliases; both maps are modelled, with the journal text.  The iteration
    order of the hash map is the argument [order], [io] says whether the
    journal can be opened.  The host's file operations are the class
    [HostFiles]; [flat_files] is one instance.  [LinkTable] holds the table
    and its invariant, [LinkOps] the dispatcher operations, [LinkJournal] the
    restart theorem. *)

From S2P Require Import Prelude CText Abi.
Import CText.

Module LinkTable.

(** [alias_], [names_], and the journal ([None] when none is attached). *)
Record Links := {
  alias : gmap str str;
  names : gmap str (list str);
  journal : option str
}.

Definition is_empty (s : Links) : bool := bool_decide (alias s = ∅).

Definition backing_of (s : Links) (p : str) : option str := alias s !! p.

Definition resolve (s : Links) (p : str) : str := default p (backing_of s p).

Definition count (s : Links) (backing : str) : Z :=
  match names s !! backing with
  | None => 1
  | Some l => u32 (1 + u32 (Z.of_nat (length l)))
  end.

Definition has_aliases (s : Links) (backing : str) : bool :=
  match names s !! backing with
  | None => false
  | Some l => negb (bool_decide (l = []))
  end.

(** [p] is [from], or below it. *)
Definition moved (from to p : str) : option str :=
  if decide (p = from) then Some to
  else if (length from <? length p)%nat && bool_decide (take (length from) p = from)
          && bool_decide (p !! length from = Some slash)
  then Some (to ++ drop (length from) p)
  else None.

Definition under (p q : str) : bool :=
  bool_decide (q = p)
  || ((length p <? length q)%nat && bool_decide (take (length p) q = p)
      && bool_decide (q !! length p = Some slash)).

Section ops.
Context (io : bool) (order : gmap str str -> list (str * str)).

(** [log]. *)
Definition log_text (s : Links) (l : str) : Links :=
  match journal s with
  | Some text => if io then {| alias := alias s; names := names s; journal := Some (text ++ l) |}
                 else s
  | None => s
  end.

Definition add_line (a b : str) : str := "+"%char :: tab :: a ++ tab :: b ++ [nl].
Definition drop_line (a : str) : str := "-"%char :: tab :: a ++ [nl].

Definition erase_name (s : Links) (backing a : str) : Links :=
  match names s !! backing with
  | None => s
  | Some l =>
      let v := filter (fun x => x <> a) l in
      {| alias := alias s;
         names := if decide (v = []) then delete backing (names s) else <[backing := v]> (names s);
         journal := journal s |}
  end.

Definition add (s : Links) (a backing : str) : Links :=
  log_text {| alias := <[a := backing]> (alias s);
              names := <[backing := default [] (names s !! backing) ++ [a]]> (names s);
              journal := journal s |} (add_line a backing).

(** [erase_name] and the erasure from [alias_]. *)
Definition remove (s : Links) (a b : str) : Links :=
  let s := erase_name s b a in
  {| alias := delete a (alias s); names := names s; journal := journal s |}.

Definition drop_alias (s : Links) (a : str) : Links :=
  match alias s !! a with
  | None => s
  | Some b => log_text (remove s a b) (drop_line a)
  end.

(** The loop of [promote] over the remaining aliases. *)
Definition repoint (heir : str) (s : Links) (a : str) : Links :=
  log_text {| alias := <[a := heir]> (alias s);
              names := <[heir := default [] (names s !! heir) ++ [a]]> (names s);
              journal := journal s |} (add_line a heir).

Definition promote (s : Links) (backing : str) : Links * option str :=
  match names s !! backing with
  | Some (heir :: rest) =>
      let s := {| alias := delete heir (alias s); names := delete backing (names s);
                  journal := journal s |} in
      (fold_left (repoint heir) rest (log_text s (drop_line heir)), Some heir)
  | _ => (s, None)
  end.

Definition rename_prefix (s : Links) (from to : str) : Links :=
  let before := filter (fun ab => moved from to ab.1 <> None \/ moved from to ab.2 <> None)
                  (order (alias s)) in
  let after := map (fun ab => (default ab.1 (moved from to ab.1),
                               default ab.2 (moved from to ab.2))) before in
  let s := fold_left (fun s ab => log_text (remove s ab.1 ab.2) (drop_line ab.1)) before s in
  fold_left (fun s ab => add s ab.1 ab.2) after s.

Definition touches (s : Links) (p : str) : bool :=
  existsb (fun ab => under p ab.1 || under p ab.2) (order (alias s)).

(** ** Replay *)

(** One journal line. *)
Definition replay_line (t : gmap str str) (line : str) : gmap str str :=
  let s := c_str line in
  let s := match last s with
           | Some c => if decide (c = nl) then take (length s - 1) s else s
           | None => s
           end in
  match s with
  | op :: t1 :: c :: r =>
      if negb (bool_decide (t1 = tab)) then t
      else
        let rest := c :: r in
        if decide (op = "-"%char) then delete rest t
        else
          match list_find (fun x => x = tab) rest with
          | Some (i, _) =>
              if decide (op = "+"%char) then <[take i rest := drop (S i) rest]> t else t
          | None => t
          end
  | _ => t
  end.

Definition line_max : nat := S (Z.to_nat 8190).

Definition replay_state (text : str) : gmap str str :=
  fold_left replay_line (read_lines line_max text) ∅.

(** Keep the entries whose two files exist, then rewrite the journal. *)
Definition replay (exists_ : str -> bool) (s : Links) : Links :=
  match journal s with
  | None => s
  | Some text =>
      let state := replay_state text in
      let keep := filter (fun ab => exists_ ab.1 && exists_ ab.2 = true) (order state) in
      let s1 := fold_left (fun s ab =>
                  {| alias := <[ab.1 := ab.2]> (alias s);
                     names := <[ab.2 := default [] (names s !! ab.2) ++ [ab.1]]> (names s);
                     journal := journal s |}) keep
                  {| alias := ∅; names := ∅; journal := Some text |} in
      if io then {| alias := alias s1; names := names s1;
                    journal := Some (concat (map (fun ab => add_line ab.1 ab.2) (order (alias s1)))) |}
      else s1
  end.

(** [attach]: the journal file found in the upper directory, if any. *)
Definition attach (exists_ : str -> bool) (s : Links) (f : option str) : Links :=
  match f with
  | None => {| alias := alias s; names := names s; journal := Some [] |}
  | Some text => replay exists_ {| alias := alias s; names := names s; journal := Some text |}
  end.

End ops.

(** * The table's invariant *)

(** [names] is the inverse of [alias], without duplicates. *)
Record inverse (s : Links) : Prop := {
  inv_list : forall b l, names s !! b = Some l -> l <> [] /\ NoDup l;
  inv_iff : forall a b, alias s !! a = Some b <-> exists l, names s !! b = Some l /\ a ∈ l
}.

(** A backing file is not itself an alias. *)
Definition flat (s : Links) : Prop := forall a b, alias s !! a = Some b -> alias s !! b = None.

Record wf (s : Links) : Prop := { wf_inverse : inverse s; wf_flat : flat s }.

Definition same_tables (s s' : Links) : Prop := alias s = alias s' /\ names s = names s'.

Lemma inverse_same s s' : same_tables s s' -> inverse s -> inverse s'.
Proof.
  destruct s, s'. intros [E1 E2]. cbn in *. subst. by intros [H1 H2].
Qed.

Lemma log_same io s l : same_tables s (log_text io s l).
Proof. unfold log_text. by destruct (journal s), io. Qed.

Lemma alias_log io s l : alias (log_text io s l) = alias s.
Proof. by destruct (log_same io s l). Qed.

Lemma names_log io s l : names (log_text io s l) = names s.
Proof. by destruct (log_same io s l). Qed.

Lemma inverse_log io s l : inverse s -> inverse (log_text io s l).
Proof. apply inverse_same, log_same. Qed.

(** The names of a backing, as a list. *)
Definition aliases_of (s : Links) (b : str) : list str := default [] (names s !! b).

Lemma elem_aliases s a b : inverse s -> a ∈ aliases_of s b <-> alias s !! a = Some b.
Proof.
  intros H. unfold aliases_of. rewrite (inv_iff _ H). destruct (names s !! b) as [l|]; cbn.
  - naive_solver.
  - split; [by intros ?%not_elem_of_nil|naive_solver].
Qed.

Lemma aliases_NoDup s b : inverse s -> NoDup (aliases_of s b).
Proof.
  intros H. unfold aliases_of. destruct (names s !! b) as [l|] eqn:E; cbn; [|constructor].
  by apply (inv_list _ H b).
Qed.

(** Both maps rebuilt from the per-backing lists. *)
Lemma inverse_intro s :
  (forall b, names s !! b <> Some []) -> (forall b, NoDup (aliases_of s b)) ->
  (forall a b, a ∈ aliases_of s b <-> alias s !! a = Some b) -> inverse s.
Proof.
  intros Hn Hd Hi. split.
  - intros b l E. split; [intros ->; by apply (Hn b)|]. specialize (Hd b).
    unfold aliases_of in Hd. by rewrite E in Hd.
  - intros a b. rewrite <- Hi. unfold aliases_of. destruct (names s !! b) as [l|]; cbn.
    + naive_solver.
    + split; [by intros ?%not_elem_of_nil|naive_solver].
Qed.

Lemma add_inverse io s a b : inverse s -> alias s !! a = None -> inverse (add io s a b).
Proof.
  intros H Ha. apply inverse_log.
  assert (El : forall c, default [] (<[b := default [] (names s !! b) ++ [a]]> (names s) !! c)
             = if decide (c = b) then aliases_of s b ++ [a] else aliases_of s c).
  { intros c. destruct (decide (c = b)) as [-> | Hc].
    - by rewrite lookup_insert_eq.
    - by rewrite lookup_insert_ne. }
  apply inverse_intro; cbn [names alias]; unfold aliases_of at 1 || idtac; cbn [names].
  - intros c E. destruct (decide (c = b)) as [-> | Hc].
    + rewrite lookup_insert_eq in E. injection E as E. by destruct (default [] (names s !! b)).
    + rewrite lookup_insert_ne in E by done. by destruct (inv_list _ H c []).
  - intros c. rewrite El. case_decide; subst; [|by apply aliases_NoDup].
    apply NoDup_app. split_and!; [by apply aliases_NoDup| |apply NoDup_singleton].
    intros x Hx%(elem_aliases s) ->%list_elem_of_singleton; [congruence|done].
  - intros x c. rewrite El. destruct (decide (x = a)) as [-> | Hx].
    + rewrite lookup_insert_eq. case_decide; subst.
      * rewrite elem_of_app, list_elem_of_singleton. naive_solver.
      * rewrite elem_aliases by done. rewrite Ha. naive_solver.
    + rewrite lookup_insert_ne by done. case_decide; subst.
      * rewrite elem_of_app, list_elem_of_singleton, elem_aliases by done. naive_solver.
      * by apply elem_aliases.
Qed.

Lemma remove_inverse s a b : inverse s -> alias s !! a = Some b -> inverse (remove s a b).
Proof.
  intros H Ha. unfold remove, erase_name.
  destruct (proj1 (inv_iff _ H a b) Ha) as (l & El & Hl). rewrite El.
  set (v := filter (fun x => x <> a) l).
  assert (Ev : forall c, default [] ((if decide (v = []) then delete b (names s)
                                      else <[b := v]> (names s)) !! c)
             = if decide (c = b) then v else aliases_of s c).
  { intros c. destruct (decide (v = [])) as [E|E], (decide (c = b)) as [-> | Hc];
      rewrite ?lookup_delete_eq, ?lookup_insert_eq, ?lookup_delete_ne, ?lookup_insert_ne by done;
      by rewrite ?E. }
  apply inverse_intro; cbn [names alias]; unfold aliases_of at 1 || idtac; cbn [names].
  - intros c E. destruct (decide (v = [])) as [Hv|Hv], (decide (c = b)) as [-> | Hc];
      rewrite ?lookup_delete_eq, ?lookup_insert_eq, ?lookup_delete_ne, ?lookup_insert_ne in E by done;
      try done; try congruence; by destruct (inv_list _ H c []).
  - intros c. rewrite Ev. destruct (decide (c = b)); [|by apply aliases_NoDup].
    apply NoDup_filter. by apply (inv_list _ H b).
  - intros x c. rewrite Ev. destruct (decide (x = a)) as [-> | Hx].
    + rewrite lookup_delete_eq. destruct (decide (c = b)); subst.
      * unfold v. rewrite list_elem_of_filter. naive_solver.
      * rewrite elem_aliases by done. rewrite Ha. naive_solver.
    + rewrite lookup_delete_ne by done. destruct (decide (c = b)); subst.
      * unfold v. rewrite list_elem_of_filter. rewrite <- (elem_aliases s x b) by done.
        unfold aliases_of. rewrite El. cbn. naive_solver.
      * by apply elem_aliases.
Qed.

Lemma alias_remove s a b : alias (remove s a b) = delete a (alias s).
Proof. unfold remove, erase_name. by destruct (names s !! b). Qed.

(** ** Operations keep the invariant *)

Lemma add_wf io s a b :
  wf s -> alias s !! a = None -> alias s !! b = None -> names s !! a = None -> a <> b ->
  wf (add io s a b).
Proof.
  intros [Hi Hf] Ha Hb Hn Hab. split; [by apply add_inverse|].
  intros x y. unfold add. rewrite alias_log. cbn [alias]. rewrite lookup_insert_Some.
  intros [[<- <-]|[Hx E]]; [by rewrite lookup_insert_ne by done|].
  rewrite lookup_insert_ne; [by eapply Hf|]. intros <-.
  apply (inv_iff _ Hi) in E as (l & E & _). congruence.
Qed.

Lemma drop_wf io s a : wf s -> wf (drop_alias io s a).
Proof.
  intros [Hi Hf]. unfold drop_alias. destruct (alias s !! a) as [b|] eqn:E; [|done].
  split; [by apply inverse_log, remove_inverse|].
  intros x y. rewrite alias_log, alias_remove, lookup_delete_Some. intros [_ Ex].
  rewrite lookup_delete_None. right. by eapply Hf.
Qed.

(** ** Promotion *)

Lemma repoint_fold io h rest : forall s,
  (forall x, alias (fold_left (repoint io h) rest s) !! x
             = if decide (x ∈ rest) then Some h else alias s !! x) /\
  (forall c, aliases_of (fold_left (repoint io h) rest s) c
             = if decide (c = h) then aliases_of s h ++ rest else aliases_of s c) /\
  (forall c, names (fold_left (repoint io h) rest s) !! c = Some [] -> names s !! c = Some []).
Proof.
  induction rest as [|a rest IH]; intros s; cbn [fold_left].
  - split_and!; [|intros c; case_decide; subst; by rewrite ?app_nil_r|done].
    intros x. by rewrite decide_False by apply not_elem_of_nil.
  - destruct (IH (repoint io h s a)) as (H1 & H2 & H3).
    assert (Ea : forall c, aliases_of (repoint io h s a) c
               = if decide (c = h) then aliases_of s h ++ [a] else aliases_of s c).
    { intros c. unfold aliases_of, repoint. rewrite names_log. cbn [names]. case_decide; subst.
      - by rewrite lookup_insert_eq.
      - by rewrite lookup_insert_ne. }
    split_and!.
    + intros x. rewrite H1. unfold repoint. rewrite alias_log. cbn [alias].
      destruct (decide (x ∈ rest)); [by rewrite decide_True by (by right)|].
      destruct (decide (x = a)) as [-> | Hx].
      * rewrite lookup_insert_eq. by rewrite decide_True by (by left).
      * rewrite lookup_insert_ne by done. rewrite decide_False; [done|]. set_solver.
    + intros c. rewrite H2. destruct (decide (c = h)) as [-> | Hc]; rewrite Ea.
      * rewrite decide_True by done. by rewrite <- app_assoc.
      * by rewrite decide_False.
    + intros c E%H3. unfold repoint in E. rewrite names_log in E. cbn [names] in E.
      destruct (decide (c = h)) as [-> | Hc].
      * rewrite lookup_insert_eq in E. injection E as E. by destruct (default [] (names s !! h)).
      * by rewrite lookup_insert_ne in E.
Qed.

Lemma wf_names_alias s a b : wf s -> alias s !! a = Some b -> names s !! a = None.
Proof.
  intros [Hi Hf] Ha. destruct (names s !! a) as [l|] eqn:E; [|done].
  destruct (inv_list _ Hi a l E) as [Hn _]. destruct l as [|x l]; [done|].
  assert (Hx : alias s !! x = Some a) by (apply (inv_iff _ Hi); eexists; split; [done|by left]).
  apply Hf in Hx. congruence.
Qed.

(** What promotion does to the names. *)
Lemma promote_alias io s b h rest :
  wf s -> names s !! b = Some (h :: rest) ->
  forall x, alias (promote io s b).1 !! x
            = if decide (x = h) then None else if decide (x ∈ rest) then Some h else alias s !! x.
Proof.
  intros Hw E x. unfold promote. rewrite E. cbn [fst].
  rewrite (proj1 (repoint_fold io h rest _)), alias_log. cbn [alias].
  destruct (inv_list _ (wf_inverse _ Hw) b _ E) as [_ [Hh _]%NoDup_cons].
  destruct (decide (x = h)) as [-> | Hx].
  - rewrite decide_False by done. by rewrite lookup_delete_eq.
  - by rewrite lookup_delete_ne.
Qed.

Lemma promote_wf io s b : wf s -> wf (promote io s b).1.
Proof.
  intros Hw. destruct (names s !! b) as [[|h rest]|] eqn:E;
    [by unfold promote; rewrite E| |by unfold promote; rewrite E].
  pose proof (promote_alias io s b h rest Hw E) as Ha.
  pose proof (wf_inverse _ Hw) as Hi. pose proof (wf_flat _ Hw) as Hf.
  destruct (inv_list _ Hi b _ E) as [_ Hnd]. apply NoDup_cons in Hnd as [Hhr Hnd].
  assert (Hal : forall x, x ∈ h :: rest <-> alias s !! x = Some b).
  { intros x. rewrite <- (elem_aliases s x b Hi). unfold aliases_of. by rewrite E. }
  assert (Hbh : alias s !! h = Some b) by (apply Hal; by left).
  assert (Hnh : names s !! h = None) by (by apply (wf_names_alias s h b)).
  assert (Hnb : h <> b) by (intros ->; congruence).
  assert (Hl : forall c, aliases_of (promote io s b).1 c
             = if decide (c = h) then rest else if decide (c = b) then [] else aliases_of s c).
  { intros c. unfold promote. rewrite E. cbn [fst].
    rewrite (proj1 (proj2 (repoint_fold io h rest _))). unfold aliases_of. rewrite names_log.
    cbn [names]. case_decide as Dc; [by rewrite lookup_delete_ne, Hnh by done|].
    destruct (decide (c = b)) as [-> |]; [by rewrite lookup_delete_eq|by rewrite lookup_delete_ne]. }
  split.
  - apply inverse_intro.
    + intros c Ec. unfold promote in Ec. rewrite E in Ec. cbn [fst] in Ec.
      apply (proj2 (proj2 (repoint_fold io h rest _))) in Ec. rewrite names_log in Ec.
      cbn [names] in Ec. apply lookup_delete_Some in Ec as [_ Ec]. by destruct (inv_list _ Hi c []).
    + intros c. rewrite Hl. repeat case_decide; [done|constructor|by apply aliases_NoDup].
    + intros x c. rewrite Hl, Ha. pose proof (elem_aliases s x c Hi) as Hx.
      specialize (Hal x). rewrite elem_of_cons in Hal.
      assert (Hno : alias s !! x <> Some h).
      { intros Ex. apply (inv_iff _ Hi) in Ex as (l & El & _). congruence. }
      destruct (decide (x = h)) as [-> | Hxh]; [|destruct (decide (x ∈ rest)) as [Hr|Hr]].
      * split; [|done]. destruct (decide (c = h)); [done|].
        destruct (decide (c = b)); [by intros ?%not_elem_of_nil|]. rewrite Hx. congruence.
      * assert (Exb : alias s !! x = Some b) by (apply Hal; by right).
        destruct (decide (c = h)) as [-> |]; [done|].
        split; [|congruence]. destruct (decide (c = b)); [by intros ?%not_elem_of_nil|].
        rewrite Hx. congruence.
      * destruct (decide (c = h)) as [-> |]; [done|].
        destruct (decide (c = b)) as [-> |]; [|done].
        split; [by intros ?%not_elem_of_nil|]. rewrite <- Hal. by intros [|].
  - intros x y. rewrite !Ha. destruct (decide (x = h)) as [-> | Hxh]; [done|].
    destruct (decide (x ∈ rest)) as [Hr|Hr].
    + intros [= <-]. by rewrite decide_True.
    + intros Exy. destruct (decide (y = h)); [done|]. destruct (decide (y ∈ rest)) as [Hy|Hy].
      * exfalso. apply Hf in Exy.
        assert (alias s !! y = Some b) by (apply Hal; by right). congruence.
      * by eapply Hf.
Qed.

(** ** Renaming *)

Lemma remove_loop io l : forall s,
  inverse s -> NoDup l.*1 -> (forall a b, (a, b) ∈ l -> alias s !! a = Some b) ->
  let s' := fold_left (fun s ab => log_text io (remove s ab.1 ab.2) (drop_line ab.1)) l s in
  inverse s' /\ forall x, alias s' !! x = if decide (x ∈ l.*1) then None else alias s !! x.
Proof.
  induction l as [|[a b] l IH]; intros s Hi Hn Hl; cbn [fold_left].
  - split; [done|]. intros x. by rewrite decide_False by apply not_elem_of_nil.
  - rewrite fmap_cons in Hn. apply NoDup_cons in Hn as [Ha Hn]. cbn [fst snd] in *.
    destruct (IH (log_text io (remove s a b) (drop_line a))) as [Hi' Hx].
    + apply inverse_log, remove_inverse; [done|]. apply Hl. by left.
    + done.
    + intros x y Hxy. rewrite alias_log, alias_remove, lookup_delete_ne.
      * apply Hl. by right.
      * intros <-. apply Ha, list_elem_of_fmap. by exists (a, y).
    + split; [done|]. intros x. rewrite Hx, alias_log, alias_remove, fmap_cons. cbn [fst].
      destruct (decide (x ∈ l.*1)); [by rewrite decide_True by by right|].
      destruct (decide (x = a)) as [-> |]; [by rewrite lookup_delete_eq, decide_True by by left|].
      rewrite lookup_delete_ne by done. rewrite decide_False; [done|]. by intros [|]%elem_of_cons.
Qed.

Lemma add_loop io l : forall s,
  inverse s -> NoDup l.*1 -> (forall a, a ∈ l.*1 -> alias s !! a = None) ->
  let s' := fold_left (fun s ab => add io s ab.1 ab.2) l s in
  inverse s' /\ forall x y, alias s' !! x = Some y <-> (x, y) ∈ l \/ alias s !! x = Some y.
Proof.
  induction l as [|[a b] l IH]; intros s Hi Hn Hl; cbn [fold_left].
  - split; [done|]. intros x y. split; [by right|]. by intros [?%not_elem_of_nil|].
  - rewrite fmap_cons in Hn. apply NoDup_cons in Hn as [Ha Hn]. cbn [fst snd] in *.
    assert (Hfresh : alias s !! a = None) by (apply Hl; by left).
    destruct (IH (add io s a b)) as [Hi' Hx].
    + by apply add_inverse.
    + done.
    + intros x Hxl. unfold add. rewrite alias_log. cbn [alias].
      rewrite lookup_insert_ne; [apply Hl; by right|]. by intros ->.
    + split; [done|]. intros x y. rewrite Hx. unfold add. rewrite alias_log. cbn [alias].
      rewrite lookup_insert_Some, elem_of_cons. split.
      * intros [H|[[-> ->]|[_ H]]]; [by left; right|by left; left|by right].
      * intros [[[= -> ->]|H]|H]; [by right; left|by left|].
        right; right. split; [|done]. intros ->. congruence.
Qed.

(** The new name of a path. *)
Definition mv (from to p : str) : str := default p (moved from to p).

(** A name the table knows. *)
Definition known (s : Links) (x : str) : Prop :=
  is_Some (alias s !! x) \/ exists a, alias s !! a = Some x.

Lemma under_moved from to p : under from p = true <-> is_Some (moved from to p).
Proof.
  unfold under, moved. destruct (decide (p = from)) as [-> | Hp].
  - rewrite bool_decide_eq_true_2 by done. cbn. split; by eauto.
  - rewrite bool_decide_eq_false_2 by done. cbn [orb]. destruct (_ && _ && _);
      [split; by eauto|split; [done|by intros []]].
Qed.

(** What is moved, and where. *)
Lemma moved_spec from to p q :
  moved from to p = Some q <->
  (exists t, p = from ++ t /\ q = to ++ t /\ (t = [] \/ head t = Some slash)).
Proof.
  unfold moved. destruct (decide (p = from)) as [-> | Hp].
  - split.
    + intros [= <-]. exists []. rewrite !app_nil_r. by auto.
    + intros (t & E & -> & _). assert (t = []) as ->; [|by rewrite app_nil_r].
      apply (f_equal length) in E. rewrite length_app in E. destruct t; [done|simpl in E; lia].
  - destruct (_ && _ && _) eqn:E.
    + rewrite !andb_true_iff in E. destruct E as [[E1 E2] E3].
      apply Nat.ltb_lt in E1. apply bool_decide_eq_true in E2, E3. split.
      * intros [= <-]. exists (drop (length from) p). split_and!; [|done|].
        -- rewrite <- E2 at 1. by rewrite take_drop.
        -- right. by rewrite head_lookup, lookup_drop, Nat.add_0_r.
      * intros (t & -> & -> & _). by rewrite drop_app_length.
    + split; [done|]. intros (t & -> & -> & Ht). exfalso.
      destruct Ht as [-> | Ht]; [by rewrite app_nil_r in Hp|].
      destruct t as [|c t]; [done|]. injection Ht as ->.
      rewrite length_app, take_app_length, bool_decide_eq_true_2 in E by done.
      rewrite list_lookup_middle in E by done. rewrite bool_decide_eq_true_2 in E by done.
      rewrite !andb_true_r in E. apply Nat.ltb_ge in E. simpl in E. lia.
Qed.

(** Renaming does not merge two names, if the destination held none. *)
Lemma mv_inj from to s x y :
  (forall z, known s z -> under to z = true -> under from z = true) ->
  known s x -> known s y -> mv from to x = mv from to y -> x = y.
Proof.
  intros Hd Hx Hy. unfold mv.
  assert (Hun : forall z w, known s z -> moved from to z = None -> moved from to w = Some z -> False).
  { intros z w Hz Ez Ew. apply moved_spec in Ew as (t & -> & -> & Ht).
    assert (U : under to (to ++ t) = true).
    { apply (under_moved to to). exists (to ++ t). apply moved_spec. by exists t. }
    apply (Hd _ Hz), (under_moved from to) in U as [q Eq]. congruence. }
  destruct (moved from to x) as [x'|] eqn:Ex, (moved from to y) as [y'|] eqn:Ey; cbn; intros E; subst.
  - apply moved_spec in Ex as (t & -> & -> & _). apply moved_spec in Ey as (t' & -> & E & _).
    apply app_inv_head in E. by subst.
  - exfalso. by apply (Hun y x).
  - exfalso. by apply (Hun y' y).
  - done.
Qed.

(** The iteration order of a hash map: some order of its entries. *)
Definition iterates (order : gmap str str -> list (str * str)) : Prop :=
  forall t, order t ≡ₚ map_to_list t.

Section rename.
Context (io : bool) (order : gmap str str -> list (str * str)) (Hord : iterates order).
Context (s : Links) (from to : str) (Hw : wf s).
Context (Hdest : forall z, known s z -> under to z = true -> under from z = true).

Local Notation mv := (mv from to).
Let moves (ab : str * str) : Prop := moved from to ab.1 <> None \/ moved from to ab.2 <> None.
Let before : list (str * str) := filter moves (order (alias s)).
Let after : list (str * str) := map (fun ab => (mv ab.1, mv ab.2)) before.

Lemma elem_of_order a b : (a, b) ∈ order (alias s) <-> alias s !! a = Some b.
Proof. rewrite (Hord (alias s)). apply elem_of_map_to_list. Qed.

Lemma elem_before a b : (a, b) ∈ before <-> moves (a, b) /\ alias s !! a = Some b.
Proof. unfold before. by rewrite list_elem_of_filter, elem_of_order. Qed.

Lemma not_moves a b : ~ moves (a, b) -> mv a = a /\ mv b = b.
Proof.
  unfold moves, LinkTable.mv. cbn [fst snd]. intros H.
  destruct (moved from to a), (moved from to b); try done; exfalso; apply H; by auto.
Qed.

Lemma known_l a b : alias s !! a = Some b -> known s a.
Proof. left. by eauto. Qed.
Lemma known_r a b : alias s !! a = Some b -> known s b.
Proof. right. by eauto. Qed.

Lemma mv_inj' x y : known s x -> known s y -> mv x = mv y -> x = y.
Proof. by apply mv_inj. Qed.

Lemma before_keys x : x ∈ before.*1 -> exists b, moves (x, b) /\ alias s !! x = Some b.
Proof. intros ([a b] & -> & H)%list_elem_of_fmap. exists b. by apply elem_before. Qed.

Lemma NoDup_before : NoDup before.*1.
Proof.
  apply NoDup_fmap_2_strong.
  - intros [a b] [a' b'] [_ H]%elem_before [_ H']%elem_before E. cbn in E. subst. congruence.
  - apply NoDup_filter. rewrite (Hord (alias s)). apply NoDup_map_to_list.
Qed.

Lemma NoDup_after : NoDup after.*1.
Proof.
  assert (Ek : after.*1 = mv <$> before.*1).
  { unfold after. clear. induction before as [|ab l IH]; cbn; [done|]. by f_equal. }
  rewrite Ek.
  apply NoDup_fmap_2_strong; [|apply NoDup_before].
  intros x y (b & _ & Hx)%before_keys (b' & _ & Hy)%before_keys E.
  apply mv_inj'; [by eapply known_l|by eapply known_l|done].
Qed.

(** Renaming maps every entry to its new names. *)
Lemma rename_prefix_spec :
  let s' := rename_prefix io order s from to in
  inverse s' /\
  forall x y, alias s' !! x = Some y <-> exists a b, alias s !! a = Some b /\ x = mv a /\ y = mv b.
Proof.
  destruct (remove_loop io before s (wf_inverse _ Hw) NoDup_before) as [Hi1 Ha1].
  { intros a b H. by apply elem_before in H as [_ ?]. }
  set (s1 := fold_left _ before s) in *.
  destruct (add_loop io after s1 Hi1 NoDup_after) as [Hi2 Ha2].
  { intros x Hx. rewrite Ha1. case_decide as D; [done|].
    apply list_elem_of_fmap in Hx as (p & -> & Hp).
    apply list_elem_of_fmap in Hp as ([a b] & -> & Hab). cbn [fst snd] in *.
    apply elem_before in Hab as [Hm Hab]. destruct (alias s !! mv a) as [y|] eqn:E; [|done].
    exfalso. apply D. destruct (decide (moves (mv a, y))) as [Hm'|Hm'].
    - apply list_elem_of_fmap. exists (mv a, y). split; [done|]. by apply elem_before.
    - destruct (not_moves _ _ Hm') as [Em _].
      assert (mv a = a) as Ea.
      { apply mv_inj'; [by eapply known_l|by eapply known_l|done]. }
      apply list_elem_of_fmap. exists (a, b). rewrite Ea. split; [done|]. by apply elem_before. }
  split; [exact Hi2|]. intros x y. change (rename_prefix io order s from to) with
    (fold_left (fun s ab => add io s ab.1 ab.2) after s1). rewrite Ha2, Ha1. split.
  - intros [H|H].
    + apply list_elem_of_fmap in H as ([a b] & [= -> ->] & Hab). apply elem_before in Hab as [_ ?].
      by exists a, b.
    + case_decide as D; [done|]. exists x, y. split; [done|].
      destruct (decide (moves (x, y))) as [Hm|Hm]; [|by apply not_moves in Hm as [-> ->]].
      exfalso. apply D, list_elem_of_fmap. exists (x, y). split; [done|]. by apply elem_before.
  - intros (a & b & Hab & -> & ->). destruct (decide (moves (a, b))) as [Hm|Hm].
    + left. apply list_elem_of_fmap. exists (a, b). split; [done|]. by apply elem_before.
    + right. destruct (not_moves _ _ Hm) as [-> ->]. rewrite decide_False; [done|].
      intros (b' & Hm' & Hb')%before_keys. congruence.
Qed.

Lemma rename_prefix_wf : wf (rename_prefix io order s from to).
Proof.
  destruct rename_prefix_spec as [Hi Ha]. split; [done|].
  intros x y (a & b & Hab & -> & ->)%Ha. destruct (alias _ !! mv b) as [z|] eqn:E; [|done].
  apply Ha in E as (a' & b' & Hab' & E & _). exfalso.
  apply mv_inj' in E; [|by eapply known_r|by eapply known_l]. subst a'.
  apply (wf_flat _ Hw) in Hab. congruence.
Qed.

(** Resolution commutes with renaming. *)
Lemma rename_prefix_resolve x :
  known s x -> resolve (rename_prefix io order s from to) (mv x) = mv (resolve s x).
Proof.
  intros Hx. unfold resolve, backing_of.
  destruct (alias s !! x) as [b|] eqn:E.
  - rewrite (proj2 (proj2 rename_prefix_spec (mv x) (mv b))); [done|]. by exists x, b.
  - cbn. destruct (alias _ !! mv x) as [y|] eqn:E'; [|done].
    apply rename_prefix_spec in E' as (a & b & Hab & Em & _).
    apply mv_inj' in Em; [|done|by eapply known_l]. congruence.
Qed.

End rename.

End LinkTable.

(** * The dispatcher's operations on the host *)

(** What a host path holds: a file with its data, or a directory. *)
Inductive node := File (data : Z) | Dir.

(** The host's name operations; a result is 0 or an errno.  The laws are
    those of [unlink(2)], [rename(2)] and [open(2)] on a non-directory, on a
    host without hardlinks of its own. *)
Class HostFiles (FS : Type) := {
  hview : FS -> gmap str node;
  lstat_errno : FS -> str -> Z;
  hunlink : FS -> str -> FS * Z;
  hrename : FS -> str -> str -> FS * Z;
  hrenameat2 : FS -> str -> str -> Z -> FS * Z;
  hcreat : FS -> str -> FS * Z;
  hcreat_excl : FS -> str -> FS * Z;
  lstat_errno_pos fs p : hview fs !! p = None -> 0 < lstat_errno fs p;
  hunlink_ok fs p fs' : hunlink fs p = (fs', 0) -> hview fs' = delete p (hview fs);
  hunlink_err fs p fs' e : hunlink fs p = (fs', e) -> e <> 0 -> hview fs' = hview fs;
  hrename_ok fs p q fs' d : hrename fs p q = (fs', 0) -> hview fs !! p = Some (File d) ->
    hview fs' = <[q := File d]> (delete p (hview fs));
  hrename_err fs p q fs' e : hrename fs p q = (fs', e) -> e <> 0 -> hview fs' = hview fs;
  hcreat_ok fs p fs' e : hcreat fs p = (fs', e) ->
    hview fs' = hview fs \/ (hview fs !! p = None /\ hview fs' = <[p := File 0]> (hview fs));
  hcreat_excl_ok fs p fs' : hcreat_excl fs p = (fs', 0) ->
    hview fs !! p = None /\ hview fs' = <[p := File 0]> (hview fs);
  hcreat_excl_err fs p fs' e : hcreat_excl fs p = (fs', e) -> e <> 0 -> hview fs' = hview fs
}.

Module LinkOps.
Import LinkTable.

Section ops.
Context {FS : Type} `{HostFiles FS} (io : bool) (order : gmap str str -> list (str * str)).

(** [unlink_with_links]; the result register is 0 or a negated errno. *)
Definition unlink_with_links (lt : Links) (fs : FS) (name : str) : Links * FS * Z :=
  match backing_of lt name with
  | Some _ =>
      let '(fs', e) := hunlink fs name in
      if e =? 0 then (drop_alias io lt name, fs', 0) else (lt, fs', - e)
  | None =>
      match promote io lt name with
      | (lt', Some heir) =>
          let '(fs', e) := hrename fs name heir in
          if e =? 0 then (lt', fs', 0) else (lt', fs', - e)
      | (lt', None) =>
          let '(fs', e) := hunlink fs name in
          if e =? 0 then (lt', fs', 0) else (lt', fs', - e)
      end
  end.

Definition kNoReplace : Z := 1.
Definition kExchange : Z := 2.
Definition flag (flags k : Z) : bool := negb (Z.land flags k =? 0).

Definition is_dir (n : option node) : bool := match n with Some Dir => true | _ => false end.

(** The name no path can have, used while two names are exchanged. *)
Definition swap_mark (from : str) : str := from ++ "001"%char :: lit "lx-swap".

(** Undo of a promotion when the rename did not happen. *)
Definition demote (lt : Links) (heir to : str) : Links :=
  add io (rename_prefix io order lt heir to) heir to.

Definition rename_with_links (lt : Links) (fs : FS) (from to : str) (flags : Z) : Links * FS * Z :=
  match hview fs !! from with
  | None => (lt, fs, - lstat_errno fs from)
  | Some nf =>
      let nt := hview fs !! to in
      let to_exists := bool_decide (is_Some nt) in
      if flag flags kNoReplace && to_exists then (lt, fs, - Abi.errno_value Abi.eexist)
      else if to_exists && negb (flag flags kExchange)
              && bool_decide (resolve lt from = resolve lt to) then (lt, fs, 0)
      else
        let replaces := negb (flag flags kExchange) && to_exists && bool_decide (to <> from) in
        if replaces && is_dir (Some nf) && negb (is_dir nt)
        then (lt, fs, - Abi.errno_value Abi.enotdir)
        else
          let '(lt, heir) := if replaces && bool_decide (backing_of lt to = None)
                             then promote io lt to else (lt, None) in
          let '(fs, e) := match heir with Some h => hrename fs to h | None => (fs, 0) end in
          match heir, e =? 0 with
          | Some h, false => (demote lt h to, fs, - e)
          | _, _ =>
              let '(fs, e) := if flags =? 0 then hrename fs from to
                              else hrenameat2 fs from to flags in
              if negb (e =? 0) then
                match heir with
                | Some h => let fs := (hrename fs h to).1 in
                            let fs := (hcreat fs h).1 in
                            (demote lt h to, fs, - e)
                | None => (lt, fs, - e)
                end
              else
                let lt := if negb (flag flags kExchange) && to_exists
                             && bool_decide (backing_of lt to <> None)
                          then drop_alias io lt to else lt in
                if flag flags kExchange then
                  let mark := swap_mark from in
                  (rename_prefix io order
                     (rename_prefix io order (rename_prefix io order lt from mark) to from)
                     mark to, fs, 0)
                else (rename_prefix io order lt from to, fs, 0)
          end
  end.

(** The emulated [link]: a placeholder for the new name, then the table;
    [src] is already resolved. *)
Definition link_emulated (lt : Links) (fs : FS) (src dst : str) : Links * FS * Z :=
  match hview fs !! src with
  | None => (lt, fs, - lstat_errno fs src)
  | Some Dir => (lt, fs, - Abi.errno_value Abi.eperm)
  | Some (File _) =>
      let '(fs', e) := hcreat_excl fs dst in
      if e =? 0 then (add io lt dst src, fs', 0) else (lt, fs', - e)
  end.

(** ** What the guest sees *)

(** The file a guest name denotes: its alias is followed. *)
Definition read (lt : Links) (fs : FS) (p : str) : option node :=
  match hview fs !! p with
  | None => None
  | Some _ => hview fs !! resolve lt p
  end.

(** Every name of the table exists on the host, as a file. *)
Definition placed (lt : Links) (fs : FS) : Prop :=
  forall x, known lt x -> exists d, hview fs !! x = Some (File d).

(** No name of the table lies below [p]. *)
Definition leaf (lt : Links) (p : str) : Prop :=
  forall z, known lt z -> under p z = true -> z = p.

Lemma resolve_unknown lt x : alias lt !! x = None -> resolve lt x = x.
Proof. unfold resolve, backing_of. by intros ->. Qed.

Lemma resolve_alias lt x b : alias lt !! x = Some b -> resolve lt x = b.
Proof. unfold resolve, backing_of. by intros ->. Qed.

(** Two states in which a name denotes the same file. *)
Lemma read_eq lt fs lt' fs' p :
  hview fs' !! p = hview fs !! p ->
  hview fs' !! resolve lt' p = hview fs !! resolve lt p ->
  read lt' fs' p = read lt fs p.
Proof. unfold read. by intros -> ->. Qed.

(** ** Dropping an alias *)

Lemma alias_drop lt a x :
  alias (drop_alias io lt a) !! x = if decide (x = a) then None else alias lt !! x.
Proof.
  unfold drop_alias. destruct (alias lt !! a) as [b|] eqn:E.
  - rewrite alias_log, alias_remove. destruct (decide (x = a)) as [-> |];
      [by rewrite lookup_delete_eq|by rewrite lookup_delete_ne].
  - by destruct (decide (x = a)) as [-> |].
Qed.

Lemma known_drop lt a x : known (drop_alias io lt a) x -> known lt x.
Proof.
  intros [[b E]|[c E]]; rewrite alias_drop in E; case_decide; try done; [left|right]; by eauto.
Qed.

Lemma drop_unlink lt fs fs' a b :
  wf lt -> placed lt fs -> alias lt !! a = Some b -> hview fs' = delete a (hview fs) ->
  placed (drop_alias io lt a) fs' /\
  (forall p, p <> a -> read (drop_alias io lt a) fs' p = read lt fs p).
Proof.
  intros Hw Hp Ha Ev.
  assert (Hna : forall c, alias lt !! c <> Some a).
  { intros c Hc. apply (wf_flat _ Hw) in Hc. congruence. }
  split.
  - intros x Hx. rewrite Ev, lookup_delete_ne; [apply Hp; by eapply known_drop|].
    intros <-. destruct Hx as [[y Hx]|[c Hx]]; rewrite alias_drop in Hx; case_decide; try done.
    by eapply Hna.
  - intros p Hpa. apply read_eq; rewrite Ev; [by rewrite lookup_delete_ne|].
    unfold resolve, backing_of. rewrite alias_drop, decide_False by done.
    rewrite lookup_delete_ne; [done|]. intros E. destruct (alias lt !! p) as [c|] eqn:Ep; cbn in E.
    + subst c. by eapply Hna.
    + congruence.
Qed.

(** ** Moving a backing file onto an heir *)

Lemma promote_rename lt fs fs' b h rest d :
  wf lt -> placed lt fs -> names lt !! b = Some (h :: rest) ->
  hview fs !! b = Some (File d) -> hview fs' = <[h := File d]> (delete b (hview fs)) ->
  let lt' := (promote io lt b).1 in
  placed lt' fs' /\ ~ known lt' b /\
  (forall x, known lt' x -> known lt x) /\
  (forall p, p <> b -> read lt' fs' p = read lt fs p).
Proof.
  intros Hw Hp Hn Hb Ev. cbn zeta.
  pose proof (promote_alias io lt b h rest Hw Hn) as Ha.
  pose proof (wf_inverse _ Hw) as Hi.
  assert (Hal : forall x, x ∈ h :: rest <-> alias lt !! x = Some b).
  { intros x. rewrite <- (elem_aliases lt x b Hi). unfold aliases_of. by rewrite Hn. }
  assert (Hhb : alias lt !! h = Some b) by (apply Hal; by left).
  assert (Hbn : alias lt !! b = None) by (by eapply (wf_flat _ Hw)).
  assert (Hne : h <> b) by congruence.
  assert (Hk : forall x, known (promote io lt b).1 x -> known lt x /\ x <> b).
  { intros x [[y E]|[c E]]; rewrite Ha in E.
    - destruct (decide (x = h)); [done|]. destruct (decide (x ∈ rest)) as [Hr|].
      + assert (Ex : alias lt !! x = Some b) by (apply Hal; by right).
        split; [left; by eauto|congruence].
      + split; [left; by eauto|congruence].
    - destruct (decide (c = h)); [done|]. destruct (decide (c ∈ rest)) as [Hr|Hr].
      + injection E as <-. split; [left; by eauto|done].
      + split; [right; by eauto|]. intros ->. apply Hal, elem_of_cons in E as [?|?]; done. }
  split_and!.
  - intros x [Hx Hxb]%Hk. rewrite Ev. destruct (decide (x = h)) as [-> |].
    + rewrite lookup_insert_eq. by eauto.
    + rewrite lookup_insert_ne, lookup_delete_ne by done. by apply Hp.
  - by intros [_ ?]%Hk.
  - by intros x [? _]%Hk.
  - intros p Hpb. unfold read. rewrite Ev. unfold resolve, backing_of. rewrite Ha.
    destruct (decide (p = h)) as [-> | Hph].
    + rewrite Hhb. cbn. rewrite !lookup_insert_eq, Hb.
      destruct (Hp h) as [d' ->]; [left; by eauto|]. done.
    + rewrite lookup_insert_ne, lookup_delete_ne by done.
      destruct (hview fs !! p) as [np|]; [|done].
      destruct (decide (p ∈ rest)) as [Hr|Hr].
      * rewrite (proj1 (Hal p)) by (by right). cbn. by rewrite lookup_insert_eq, Hb.
      * destruct (alias lt !! p) as [c|] eqn:Ep; cbn.
        -- rewrite lookup_insert_ne, lookup_delete_ne; [done| |].
           ++ intros <-. apply Hal in Ep. set_solver.
           ++ intros <-. apply (wf_flat _ Hw) in Ep. congruence.
        -- by rewrite lookup_insert_ne, lookup_delete_ne.
Qed.

(** ** Renaming a name that has nothing below it *)

Lemma mv_leaf lt from to x : leaf lt from -> known lt x ->
  mv from to x = if decide (x = from) then to else x.
Proof.
  intros Hl Hx. unfold mv. destruct (decide (x = from)) as [-> | Hne].
  - unfold moved. by rewrite decide_True.
  - destruct (moved from to x) as [y|] eqn:E; [|done]. exfalso. apply Hne, Hl; [done|].
    apply (under_moved from to). by eauto.
Qed.

Section rename_leaf.
Context (Hord : iterates order) (lt : Links) (fs fs' : FS) (from to : str) (d : Z).
Context (Hw : wf lt) (Hp : placed lt fs) (Hlf : leaf lt from) (Hlt : leaf lt to)
        (Hto : ~ known lt to) (Hne : from <> to) (Hfrom : hview fs !! from = Some (File d))
        (Hfs : hview fs' = <[to := File d]> (delete from (hview fs))).

Let lt' : Links := rename_prefix io order lt from to.
Let f (x : str) : str := if decide (x = from) then to else x.

Lemma dest_free z : known lt z -> under to z = true -> under from z = true.
Proof. intros Hz Hu. destruct Hto. by rewrite <- (Hlt z Hz Hu). Qed.

Lemma alias_renamed x y :
  alias lt' !! x = Some y <-> exists a b, alias lt !! a = Some b /\ x = f a /\ y = f b.
Proof.
  unfold lt'. rewrite (proj2 (rename_prefix_spec io order Hord lt from to Hw dest_free) x y).
  split; intros (a & b & Hab & -> & ->); exists a, b; (split; [done|]);
    (rewrite (mv_leaf lt from to a), (mv_leaf lt from to b);
     [done|done|right; by eauto|done|left; by eauto]).
Qed.

Lemma known_ne_to x : known lt x -> x <> to.
Proof. by intros Hx ->. Qed.

Lemma resolve_other p : p <> from -> p <> to -> resolve lt' p = f (resolve lt p).
Proof.
  intros Hf Ht. unfold resolve, backing_of. destruct (alias lt !! p) as [b|] eqn:E.
  - assert (E' : alias lt' !! p = Some (f b)).
    { apply alias_renamed. exists p, b. unfold f. by rewrite (decide_False (P := p = from)). }
    by rewrite E'.
  - destruct (alias lt' !! p) as [y|] eqn:E'; [|cbn; unfold f; by rewrite decide_False].
    exfalso. apply alias_renamed in E' as (a & b & Hab & Ep & _). unfold f in Ep.
    case_decide; congruence.
Qed.

Lemma resolve_to : resolve lt' to = f (resolve lt from).
Proof.
  unfold resolve, backing_of. destruct (alias lt !! from) as [b|] eqn:E.
  - assert (E' : alias lt' !! to = Some (f b)).
    { apply alias_renamed. exists from, b. unfold f. by rewrite (decide_True (P := from = from)). }
    by rewrite E'.
  - destruct (alias lt' !! to) as [y|] eqn:E'; [|cbn; unfold f; by rewrite decide_True].
    exfalso. apply alias_renamed in E' as (a & b & Hab & Ep & _). unfold f in Ep. case_decide.
    + congruence.
    + destruct Hto. left. rewrite Ep. by eauto.
Qed.

(** The host after the rename, at the new name of a known or other path. *)
Lemma view_renamed x : x <> to -> hview fs' !! f x = hview fs !! x.
Proof.
  intros Hx. rewrite Hfs. unfold f. case_decide; subst.
  - by rewrite lookup_insert_eq.
  - by rewrite lookup_insert_ne, lookup_delete_ne.
Qed.

Lemma resolve_ne_to p : p <> to -> resolve lt p <> to.
Proof.
  intros Hpt. unfold resolve, backing_of. destruct (alias lt !! p) as [b|] eqn:E; [|done].
  cbn. apply known_ne_to. right. by eauto.
Qed.

Lemma rename_leaf_reads :
  wf lt' /\ placed lt' fs' /\ read lt' fs' to = read lt fs from /\ read lt' fs' from = None /\
  (forall p, p <> from -> p <> to -> read lt' fs' p = read lt fs p).
Proof.
  split_and!.
  - apply rename_prefix_wf; [done|done|]. apply dest_free.
  - intros x Hx. assert (exists z, known lt z /\ x = f z) as (z & Hz & ->).
    { destruct Hx as [[y E]|[a E]]; apply alias_renamed in E as (u & v & Huv & -> & ->);
        eexists; (split; [|done]); [left|right]; by eauto. }
    rewrite view_renamed by by apply known_ne_to. by apply Hp.
  - unfold read. rewrite Hfrom, resolve_to. rewrite Hfs at 1. rewrite lookup_insert_eq.
    apply view_renamed, resolve_ne_to. done.
  - unfold read. by rewrite Hfs, lookup_insert_ne, lookup_delete_eq by done.
  - intros p Hpf Hpt. apply read_eq.
    + by rewrite Hfs, lookup_insert_ne, lookup_delete_ne by done.
    + rewrite resolve_other by done. by apply view_renamed, resolve_ne_to.
Qed.

End rename_leaf.
End ops.
(** ** Properties *)

Section props.
Context {FS : Type} `{HostFiles FS}.

(** A name without aliases that is not one is unknown. *)
Lemma unknown_name lt b :
  wf lt -> alias lt !! b = None -> (forall h rest, names lt !! b <> Some (h :: rest)) -> ~ known lt b.
Proof.
  intros Hw Ha Hn [[x E]|[x E]]; [congruence|].
  apply (inv_iff _ (wf_inverse _ Hw)) in E as ([|h l] & El & Hx); [by apply not_elem_of_nil in Hx|].
  by apply (Hn h l).
Qed.

(** Deleting an unknown name. *)
Lemma unknown_unlink lt (fs fs' : FS) b :
  ~ known lt b -> placed lt fs -> hview fs' = delete b (hview fs) ->
  placed lt fs' /\ forall p, p <> b -> read lt fs' p = read lt fs p.
Proof.
  intros Hk Hp Ev. split.
  - intros x Hx. rewrite Ev, lookup_delete_ne by (by intros <-). by apply Hp.
  - intros p Hpb. apply read_eq; rewrite Ev; [by rewrite lookup_delete_ne|].
    rewrite lookup_delete_ne; [done|]. unfold resolve, backing_of.
    destruct (alias lt !! p) as [c|] eqn:E; cbn; [|done]. intros <-. apply Hk. right. by eauto.
Qed.

(** Promotion of a name that is not an alias: its heir, if it has one. *)
Lemma promote_cases io lt b :
  (exists h rest, names lt !! b = Some (h :: rest) /\ (promote io lt b).2 = Some h) \/
  ((forall h rest, names lt !! b <> Some (h :: rest)) /\ promote io lt b = (lt, None)).
Proof.
  unfold promote. destruct (names lt !! b) as [[|h rest]|]; [right|left|right]; [by split|by eauto|by split].
Qed.

(** Removing a name removes that name only: when [unlink_with_links]
    succeeds on a file, the name is gone and every other name still denotes
    the file it denoted, whether the removed name was an alias, a backing
    file whose data moves onto an heir, or neither; the table stays well
    formed and in step with the host. *)
Theorem unlink_keeps_other_names io lt lt' (fs fs' : FS) name d :
  wf lt -> placed lt fs -> hview fs !! name = Some (File d) ->
  unlink_with_links io lt fs name = (lt', fs', 0) ->
  wf lt' /\ placed lt' fs' /\ read lt' fs' name = None /\
  (forall p, p <> name -> read lt' fs' p = read lt fs p).
Proof.
  intros Hw Hp Hn. unfold unlink_with_links, backing_of.
  destruct (alias lt !! name) as [b|] eqn:Ea.
  - destruct (hunlink fs name) as [fs1 e] eqn:Eu. destruct (Z.eqb_spec e 0) as [-> |]; [|naive_solver lia].
    intros [= <- <-]. apply hunlink_ok in Eu.
    destruct (drop_unlink io lt fs fs1 name b Hw Hp Ea Eu) as [H1 H2].
    split_and!; [by apply drop_wf|done| |done]. unfold read. by rewrite Eu, lookup_delete_eq.
  - destruct (promote_cases io lt name) as [(h & rest & El & Eh)|[El Epr]].
    + destruct (promote io lt name) as [lt1 o] eqn:Epr. cbn in Eh. subst o.
      destruct (hrename fs name h) as [fs1 e] eqn:Er.
      destruct (Z.eqb_spec e 0) as [-> |]; [|naive_solver lia]. intros [= <- <-].
      apply (hrename_ok _ _ _ _ d) in Er; [|done].
      destruct (promote_rename io lt fs fs1 name h rest d Hw Hp El Hn Er) as (H1 & _ & _ & H4).
      pose proof (promote_wf io lt name Hw) as Hw'. rewrite Epr in *. cbn [fst] in *.
      split_and!; [done|done| |done].
      unfold read. rewrite Er, lookup_insert_ne, lookup_delete_eq; [done|]. intros ->.
      apply (wf_names_alias lt name name) in Hw; [congruence|].
      apply (inv_iff _ (wf_inverse _ Hw)). eexists. split; [done|by left].
    + rewrite Epr. destruct (hunlink fs name) as [fs1 e] eqn:Eu.
      destruct (Z.eqb_spec e 0) as [-> |]; [|naive_solver lia]. intros [= <- <-].
      apply hunlink_ok in Eu.
      destruct (unknown_unlink lt fs fs1 name (unknown_name lt name Hw Ea El) Hp Eu) as [H1 H2].
      split_and!; [done|done| |done]. unfold read. by rewrite Eu, lookup_delete_eq.
Qed.

(** The destination cleared: what is left to rename onto. *)
Lemma clear_destination io lt (fs : FS) to h rest fs1 d :
  wf lt -> placed lt fs -> names lt !! to = Some (h :: rest) -> hview fs !! to = Some (File d) ->
  hrename fs to h = (fs1, 0) ->
  let lt1 := (promote io lt to).1 in
  wf lt1 /\ placed lt1 fs1 /\ ~ known lt1 to /\ (forall x, known lt1 x -> known lt x) /\
  hview fs1 = <[h := File d]> (delete to (hview fs)) /\
  (forall p, p <> to -> read lt1 fs1 p = read lt fs p).
Proof.
  intros Hw Hp Hn Hto Er. apply (hrename_ok _ _ _ _ d) in Er; [|done].
  destruct (promote_rename io lt fs fs1 to h rest d Hw Hp Hn Hto Er) as (H1 & H2 & H3 & H4).
  split_and!; try done. by apply promote_wf.
Qed.

Lemma leaf_known lt lt1 p : (forall x, known lt1 x -> known lt x) -> leaf lt p -> leaf lt1 p.
Proof. intros Hk Hl z Hz. apply Hl, Hk, Hz. Qed.

Lemma unknown_alias lt b : ~ known lt b -> alias lt !! b = None.
Proof. intros Hk. destruct (alias lt !! b) eqn:E; [|done]. destruct Hk. left. by eauto. Qed.

(** Dropping the replaced alias, before the host moved anything. *)
Lemma drop_keeps io lt (fs : FS) a b :
  wf lt -> placed lt fs -> alias lt !! a = Some b ->
  let lt1 := drop_alias io lt a in
  wf lt1 /\ placed lt1 fs /\ (forall x, known lt1 x -> known lt x) /\ ~ known lt1 a /\
  (forall p, p <> a -> read lt1 fs p = read lt fs p).
Proof.
  intros Hw Hp Ha. cbn zeta. split_and!.
  - by apply drop_wf.
  - intros x Hx. apply Hp. by eapply known_drop.
  - intros x. apply known_drop.
  - intros [[y E]|[c E]]; rewrite alias_drop in E; case_decide; try done.
    apply (wf_flat _ Hw) in E. congruence.
  - intros p Hpa. unfold read, resolve, backing_of. by rewrite alias_drop, decide_False.
Qed.

(** What a successful rename leaves, seen through the table. *)
Definition renamed lt (fs : FS) lt' (fs' : FS) (from to : str) : Prop :=
  wf lt' /\ placed lt' fs' /\ read lt' fs' to = read lt fs from /\ read lt' fs' from = None /\
  (forall p, p <> from -> p <> to -> read lt' fs' p = read lt fs p).

(** The last step, from a state in which the destination is unknown. *)
Lemma finish_rename io order lt lt1 (fs fs1 fs2 : FS) from to d :
  iterates order -> wf lt1 -> placed lt1 fs1 -> leaf lt1 from -> leaf lt1 to -> ~ known lt1 to ->
  from <> to -> hview fs1 !! from = Some (File d) -> hrename fs1 from to = (fs2, 0) ->
  (forall p, p <> to -> read lt1 fs1 p = read lt fs p) ->
  renamed lt fs (rename_prefix io order lt1 from to) fs2 from to.
Proof.
  intros Hord Hw Hp Hlf Hlt Hto Hne Hd Er Hr. apply (hrename_ok _ _ _ _ d) in Er; [|done].
  destruct (rename_leaf_reads io order Hord lt1 fs1 fs2 from to d Hw Hp Hlf Hlt Hto Hne Hd Er)
    as (H1 & H2 & H3 & H4 & H5).
  split_and!; try done; [by rewrite H3, Hr|]. intros p Hpf Hpt. by rewrite H5, Hr.
Qed.

Section rename_cases.
Context (io : bool) (order : gmap str str -> list (str * str)).
Context (lt lt' : Links) (fs fs' : FS) (from to : str) (d dt : Z).
Hypothesis Hord : iterates order.
Hypothesis Hw : wf lt.
Hypothesis Hp : placed lt fs.
Hypothesis Hlf : leaf lt from.
Hypothesis Hlt : leaf lt to.
Hypothesis Hne : from <> to.
Hypothesis Hf : hview fs !! from = Some (File d).
Hypothesis Hrun : rename_with_links io order lt fs from to 0 = (lt', fs', 0).

Ltac open_rename H :=
  unfold rename_with_links in H; rewrite Hf in H;
  change (flag 0 kNoReplace) with false in H; change (flag 0 kExchange) with false in H;
  cbn [andb negb] in H.

Ltac last_rename E2 :=
  match goal with
  | H : context [hrename ?f from to] |- _ =>
      destruct (hrename f from to) as [fs2 e2] eqn:E2;
      destruct (Z.eqb_spec e2 0) as [-> |]; cbn [negb andb] in H; [|naive_solver lia]
  end.

Lemma rename_onto_alias b :
  hview fs !! to = Some (File dt) -> resolve lt from <> resolve lt to ->
  alias lt !! to = Some b -> renamed lt fs lt' fs' from to.
Proof using Hord Hw Hp Hlf Hlt Hne Hf Hrun.
  intros Et Er Ea. open_rename Hrun. rewrite Et in Hrun.
  rewrite (bool_decide_eq_true_2 (is_Some _)), (bool_decide_eq_false_2 (resolve _ _ = _)),
    (bool_decide_eq_true_2 (to <> from)), (bool_decide_eq_false_2 (backing_of lt to = None)) in Hrun
    by (done || by unfold backing_of; rewrite Ea).
  cbn [andb negb is_dir Z.eqb] in Hrun. last_rename E2.
  rewrite bool_decide_eq_true_2 in Hrun by (by unfold backing_of; rewrite Ea).
  injection Hrun as <- <-.
  destruct (drop_keeps io lt fs to b Hw Hp Ea) as (H1 & H2 & H3 & H4 & H5).
  by eapply (finish_rename io order lt (drop_alias io lt to) fs fs fs2 from to d); eauto using leaf_known.
Qed.

Lemma rename_onto_backing :
  hview fs !! to = Some (File dt) -> resolve lt from <> resolve lt to ->
  alias lt !! to = None -> renamed lt fs lt' fs' from to.
Proof using Hord Hw Hp Hlf Hlt Hne Hf Hrun.
  intros Et Er Ea. open_rename Hrun. rewrite Et in Hrun.
  rewrite (bool_decide_eq_true_2 (is_Some _)), (bool_decide_eq_false_2 (resolve _ _ = _)),
    (bool_decide_eq_true_2 (to <> from)), (bool_decide_eq_true_2 (backing_of lt to = None)) in Hrun
    by done.
  cbn [andb negb is_dir] in Hrun.
  destruct (promote_cases io lt to) as [(h & rest & El & Eh)|[El Epr]].
  - pose proof (clear_destination io lt fs to h rest) as Hc.
    destruct (promote io lt to) as [lt1 o] eqn:Epr. cbn in Eh. subst o. cbn [fst] in Hc.
    destruct (hrename fs to h) as [fs1 e1] eqn:E1.
    destruct (Z.eqb_spec e1 0) as [-> |]; [|naive_solver lia].
    destruct (Hc fs1 dt Hw Hp El Et eq_refl) as (H1 & H2 & H3 & H4 & H5 & H6).
    cbn [Z.eqb] in Hrun. last_rename E2.
    rewrite bool_decide_eq_false_2 in Hrun by (unfold backing_of; rewrite (unknown_alias lt1 to H3); naive_solver).
    injection Hrun as <- <-.
    assert (Hfh : from <> h).
    { intros ->. apply Er. rewrite (resolve_alias lt h to), (resolve_unknown lt to); try done.
      apply (inv_iff _ (wf_inverse _ Hw)). eexists. split; [done|by left]. }
    eapply (finish_rename io order lt lt1 fs fs1 fs2 from to d); eauto using leaf_known.
    by rewrite H5, lookup_insert_ne, lookup_delete_ne by done.
  - rewrite Epr in Hrun. cbn [Z.eqb] in Hrun. last_rename E2.
    rewrite bool_decide_eq_false_2 in Hrun by (unfold backing_of; rewrite Ea; naive_solver).
    injection Hrun as <- <-.
    eapply (finish_rename io order lt lt fs fs fs2 from to d); eauto. by apply unknown_name.
Qed.

Lemma rename_onto_nothing : hview fs !! to = None -> renamed lt fs lt' fs' from to.
Proof using Hord Hw Hp Hlf Hlt Hne Hf Hrun.
  intros Et. open_rename Hrun. rewrite Et in Hrun.
  rewrite (bool_decide_eq_false_2 (is_Some _)) in Hrun by (by intros []).
  cbn [andb Z.eqb] in Hrun. last_rename E2. injection Hrun as <- <-.
  eapply (finish_rename io order lt lt fs fs fs2 from to d); eauto.
  intros Hk. destruct (Hp to Hk). congruence.
Qed.
End rename_cases.

(** Renaming a file onto another name is what rename(2) does to hard
    links: when [rename_with_links] succeeds on two distinct names of
    different files, the new name denotes what the old one did, the old one
    is gone, and every other name is unaffected, in particular the other
    names of the file that was replaced keep its data; for two names of one
    file nothing happens at all. *)
Theorem rename_keeps_other_names io order lt lt' (fs fs' : FS) from to d :
  iterates order -> wf lt -> placed lt fs -> leaf lt from -> leaf lt to -> from <> to ->
  hview fs !! from = Some (File d) -> hview fs !! to <> Some Dir ->
  rename_with_links io order lt fs from to 0 = (lt', fs', 0) ->
  if decide (is_Some (hview fs !! to) /\ resolve lt from = resolve lt to)
  then lt' = lt /\ fs' = fs
  else renamed lt fs lt' fs' from to.
Proof.
  intros Hord Hw Hp Hlf Hlt Hne Hf Hnd Hrun.
  destruct (decide (is_Some (hview fs !! to) /\ _)) as [[Ht Er]|Hd].
  - unfold rename_with_links in Hrun. rewrite Hf in Hrun.
    change (flag 0 kNoReplace) with false in Hrun. change (flag 0 kExchange) with false in Hrun.
    rewrite (bool_decide_eq_true_2 (is_Some _)), (bool_decide_eq_true_2 (resolve _ _ = _)) in Hrun
      by done.
    cbn [andb negb] in Hrun. naive_solver.
  - destruct (hview fs !! to) as [[dt|]|] eqn:Et; [|done|].
    + assert (resolve lt from <> resolve lt to) by (intros E; apply Hd; split; eauto).
      destruct (alias lt !! to) as [b|] eqn:Ea;
        [by eapply rename_onto_alias|by eapply rename_onto_backing].
    + by eapply rename_onto_nothing.
Qed.

Lemma names_inhabited lt b l : wf lt -> names lt !! b = Some l -> l <> [] ->
  exists a, alias lt !! a = Some b.
Proof.
  intros Hw El Hl. destruct l as [|a l]; [done|]. exists a.
  apply (inv_iff _ (wf_inverse _ Hw)). exists (a :: l). split; [done|by left].
Qed.

Lemma count_add io lt a b :
  count (add io lt a b) b = u32 (1 + count lt b).
Proof.
  unfold count, add. rewrite names_log. cbn [names]. rewrite lookup_insert_eq.
  destruct (names lt !! b) as [l|]; cbn [default app]; [|done].
  unfold id. rewrite length_app, Nat2Z.inj_add. cbn [length Z.of_nat].
  unfold u32. rewrite !Zplus_mod_idemp_r, (Z.add_assoc 1 1), (Zplus_mod_idemp_r _ (1 + 1)).
  apply (f_equal (fun z => z mod 2 ^ 32)). lia.
Qed.

Lemma alias_add io lt a b q :
  alias (add io lt a b) !! q = if decide (q = a) then Some b else alias lt !! q.
Proof.
  unfold add. rewrite alias_log. cbn [alias].
  destruct (decide (q = a)) as [-> |]; [by rewrite lookup_insert_eq|by rewrite lookup_insert_ne].
Qed.

Lemma resolve_add io lt a b q : q <> a -> resolve (add io lt a b) q = resolve lt q.
Proof. intros Hq. unfold resolve at 1, backing_of. by rewrite alias_add, decide_False. Qed.

Lemma add_unknown_wf io lt a b :
  wf lt -> ~ known lt a -> alias lt !! b = None -> a <> b -> wf (add io lt a b).
Proof.
  intros Hw Hk Hb Hab. apply add_wf; try done; [by apply unknown_alias|].
  destruct (names lt !! a) as [l|] eqn:En; [|done]. destruct Hk. right.
  eapply names_inhabited; [done|done|]. by apply (inv_list _ (wf_inverse _ Hw) a).
Qed.

(** An emulated hardlink shares the inode: after linking [dst] to the
    file a guest name [p] denotes, [dst] denotes that file, both names have
    one backing path, its link count is one higher, and no other name
    changed. *)
Theorem link_shares_file io lt lt' (fs fs' : FS) p dst :
  wf lt -> placed lt fs ->
  link_emulated io lt fs (resolve lt p) dst = (lt', fs', 0) ->
  wf lt' /\ placed lt' fs' /\ read lt' fs' dst = read lt fs p /\
  resolve lt' dst = resolve lt' p /\
  count lt' (resolve lt' p) = u32 (1 + count lt (resolve lt p)) /\
  (forall q, q <> dst -> read lt' fs' q = read lt fs q).
Proof.
  intros Hw Hp. unfold link_emulated.
  destruct (hview fs !! resolve lt p) as [[d|]|] eqn:Es;
    [|intros [= ]; by vm_compute in *|].
  2: { intros [= <- <- E]. exfalso. pose proof (lstat_errno_pos fs _ Es). lia. }
  destruct (hcreat_excl fs dst) as [fs1 e] eqn:Ec.
  destruct (Z.eqb_spec e 0) as [-> |]; [|naive_solver lia]. intros [= <- <-].
  apply hcreat_excl_ok in Ec as [Ed Ev].
  assert (Hk : ~ known lt dst) by (intros Hk; destruct (Hp _ Hk); congruence).
  assert (Hds : dst <> resolve lt p) by congruence.
  assert (Hpd : p <> dst).
  { intros ->. apply Hds. symmetry. apply resolve_unknown, unknown_alias, Hk. }
  assert (Hsrc : alias lt !! resolve lt p = None).
  { unfold resolve, backing_of. destruct (alias lt !! p) as [b|] eqn:E; [|done].
    by eapply (wf_flat _ Hw). }
  split_and!.
  - by apply add_unknown_wf.
  - intros x Hx. rewrite Ev. destruct (decide (x = dst)) as [-> | Hx'];
      [rewrite lookup_insert_eq; by eauto|rewrite lookup_insert_ne by done].
    destruct Hx as [[b E]|[c E]]; rewrite alias_add in E; case_decide; simplify_eq; try by eauto.
    + apply Hp. left. by eauto.
    + apply Hp. right. by eauto.
  - unfold read. rewrite Ev, lookup_insert_eq, (resolve_alias _ dst (resolve lt p))
      by by rewrite alias_add, decide_True.
    rewrite lookup_insert_ne, Es by done. destruct (hview fs !! p) eqn:E; [done|].
    rewrite resolve_unknown in Es; [congruence|]. apply unknown_alias. intros Hkp.
    destruct (Hp _ Hkp). congruence.
  - by rewrite (resolve_add _ _ _ _ p), (resolve_alias _ dst (resolve lt p))
      by (done || by rewrite alias_add, decide_True).
  - rewrite resolve_add by done. apply count_add.
  - intros q Hq. apply read_eq; rewrite Ev, ?resolve_add, lookup_insert_ne; try done.
    intros E. unfold resolve, backing_of in E. destruct (alias lt !! q) as [b|] eqn:Eq; [|done].
    apply Hk. right. exists q. cbn in E. by subst.
Qed.

End props.
(** ** A host *)

(** A host with one directory level: a map from names to files. *)
Definition flat_unlink (fs : gmap str node) (p : str) : gmap str node * Z :=
  match fs !! p with
  | None => (fs, Abi.errno_value Abi.enoent)
  | Some Dir => (fs, Abi.errno_value Abi.eisdir)
  | Some (File _) => (delete p fs, 0)
  end.

Definition flat_rename (fs : gmap str node) (p q : str) : gmap str node * Z :=
  match fs !! p, fs !! q with
  | None, _ => (fs, Abi.errno_value Abi.enoent)
  | _, Some Dir => (fs, Abi.errno_value Abi.eisdir)
  | Some Dir, _ => (fs, Abi.errno_value Abi.enotdir)
  | Some (File d), _ => (<[q := File d]> (delete p fs), 0)
  end.

Definition flat_creat (fs : gmap str node) (p : str) : gmap str node * Z :=
  match fs !! p with
  | None => (<[p := File 0]> fs, 0)
  | Some _ => (fs, 0)
  end.

Definition flat_creat_excl (fs : gmap str node) (p : str) : gmap str node * Z :=
  match fs !! p with
  | None => (<[p := File 0]> fs, 0)
  | Some _ => (fs, Abi.errno_value Abi.eexist)
  end.

#[global] Program Instance flat_files : HostFiles (gmap str node) := {|
  hview fs := fs;
  lstat_errno _ _ := Abi.errno_value Abi.enoent;
  hunlink := flat_unlink;
  hrename := flat_rename;
  hrenameat2 fs _ _ _ := (fs, Abi.errno_value Abi.einval);
  hcreat := flat_creat;
  hcreat_excl := flat_creat_excl
|}.
Next Obligation. done. Qed.
Next Obligation. unfold flat_unlink. intros fs p fs'. destruct (fs !! p) as [[]|]; naive_solver. Qed.
Next Obligation. unfold flat_unlink. intros fs p fs' e. destruct (fs !! p) as [[]|]; naive_solver. Qed.
Next Obligation.
  unfold flat_rename. intros fs p q fs' d E Hd. rewrite Hd in E. destruct (fs !! q) as [[]|]; naive_solver.
Qed.
Next Obligation.
  unfold flat_rename. intros fs p q fs' e.
  destruct (fs !! p) as [[]|], (fs !! q) as [[]|]; naive_solver.
Qed.
Next Obligation. unfold flat_creat. intros fs p fs' e. destruct (fs !! p); naive_solver. Qed.
Next Obligation. unfold flat_creat_excl. intros fs p fs'. destruct (fs !! p); naive_solver. Qed.
Next Obligation. unfold flat_creat_excl. intros fs p fs' e. destruct (fs !! p); naive_solver. Qed.

(** Two names of one file, [a] the backing, and a third file. *)
Definition ex_links : Links :=
  add true {| alias := ∅; names := ∅; journal := None |} (lit "/b") (lit "/a").
Definition ex_fs : gmap str node :=
  <[lit "/a" := File 7]> (<[lit "/b" := File 0]> {[lit "/c" := File 9]}).

Lemma ex_wf : wf ex_links.
Proof.
  apply add_unknown_wf; [|by intros [[? E]|[? E]]|done|done].
  split; [split|]; cbn; [done| |done]. intros a b. split; [done|by intros (? & ? & _)].
Qed.

Lemma ex_placed : placed ex_links ex_fs.
Proof.
  intros x [[b E]|[a E]]; unfold ex_links in E; rewrite alias_add in E; case_decide; simplify_eq;
    [by eexists|by eexists].
Qed.

Lemma ex_leaf p : p = lit "/a" \/ p = lit "/b" \/ p = lit "/c" -> leaf ex_links p.
Proof.
  intros Hp z [[b E]|[a E]]; unfold ex_links in E; rewrite alias_add in E; case_decide; simplify_eq;
    destruct Hp as [-> |[-> | ->]]; intros Hu; try reflexivity; by vm_compute in Hu.
Qed.

Lemma unlink_keeps_other_names_witness :
  wf ex_links /\ placed ex_links ex_fs /\
  exists lt' fs', unlink_with_links true ex_links ex_fs (lit "/a") = (lt', fs', 0) /\
  read lt' fs' (lit "/a") = None /\ read lt' fs' (lit "/b") = Some (File 7).
Proof.
  split; [exact ex_wf|]. split; [exact ex_placed|]. eexists _, _. split; [reflexivity|].
  edestruct (unlink_keeps_other_names true ex_links _ ex_fs _ (lit "/a") 7 ex_wf ex_placed
    eq_refl eq_refl) as (_ & _ & H1 & H2).
  split; [exact H1|]. rewrite H2 by done. reflexivity.
Defined.

Lemma rename_keeps_other_names_witness :
  exists lt' fs', rename_with_links true map_to_list ex_links ex_fs (lit "/c") (lit "/a") 0
                  = (lt', fs', 0) /\ renamed ex_links ex_fs lt' fs' (lit "/c") (lit "/a").
Proof.
  eexists _, _. split; [reflexivity|].
  epose proof (rename_keeps_other_names true map_to_list ex_links _ ex_fs _ (lit "/c") (lit "/a") 9
    (fun _ => reflexivity _) ex_wf ex_placed (ex_leaf _ _) (ex_leaf _ _) _ _ _ eq_refl) as H.
  rewrite decide_False in H by (by intros []). exact H.
  Unshelve. all: tauto || done.
Defined.

Lemma link_shares_file_witness :
  exists lt' fs', link_emulated true ex_links ex_fs (resolve ex_links (lit "/b")) (lit "/d")
                  = (lt', fs', 0) /\
  read lt' fs' (lit "/d") = Some (File 7) /\ count lt' (resolve lt' (lit "/b")) = 3.
Proof.
  eexists _, _. split; [reflexivity|].
  edestruct (link_shares_file true ex_links _ ex_fs _ (lit "/b") (lit "/d") ex_wf ex_placed eq_refl)
    as (_ & _ & H1 & _ & H2 & _).
  split; [rewrite H1; reflexivity|rewrite H2; reflexivity].
Defined.

(** ** A failing host *)

(** A host whose names cannot be changed (a read-only file system). *)
Program Definition read_only_files : HostFiles (gmap str node) := {|
  hview fs := fs;
  lstat_errno _ _ := Abi.errno_value Abi.enoent;
  hunlink fs _ := (fs, Abi.errno_value Abi.erofs);
  hrename fs _ _ := (fs, Abi.errno_value Abi.erofs);
  hrenameat2 fs _ _ _ := (fs, Abi.errno_value Abi.erofs);
  hcreat fs _ := (fs, Abi.errno_value Abi.erofs);
  hcreat_excl fs _ := (fs, Abi.errno_value Abi.erofs)
|}.
Solve Obligations with (cbn; intros; first [done | naive_solver]).

(** The table is promoted before the host is asked: when the host refuses to
    move the backing file, the call answers EROFS and changes nothing on
    disk, yet the alias has become a file of its own, the empty placeholder. *)
Lemma failed_unlink_loses_alias :
  exists lt', @unlink_with_links _ read_only_files true ex_links ex_fs (lit "/a")
              = (lt', ex_fs, - Abi.errno_value Abi.erofs) /\
  read ex_links ex_fs (lit "/b") = Some (File 7) /\ read lt' ex_fs (lit "/b") = Some (File 0).
Proof. eexists. split; [reflexivity|]. by split. Qed.

End LinkOps.

(** * The journal *)

Module LinkJournal.
Import LinkTable.

(** A name the journal can hold: the line buffer takes two names of up to
    4093 characters. *)
Record path_ok (p : str) : Prop := {
  ok_ne : p <> [];
  ok_plain : forall c, c ∈ p -> c <> nl /\ c <> nul /\ c <> tab;
  ok_len : (length p <= Z.to_nat 4093)%nat
}.

Lemma plain_not p c : path_ok p -> (c = nl \/ c = nul \/ c = tab) -> c ∉ p.
Proof. intros Hp Hc Hin. apply (ok_plain _ Hp) in Hin. naive_solver. Qed.

Lemma add_line_ok a b : path_ok a -> path_ok b -> line_ok line_max (add_line a b).
Proof.
  intros Ha Hb. exists ("+"%char :: tab :: a ++ tab :: b). unfold add_line. split_and!.
  - cbn. by rewrite <- app_assoc.
  - rewrite !elem_of_cons, elem_of_app, elem_of_cons.
    pose proof (plain_not a nl Ha). pose proof (plain_not b nl Hb). naive_solver.
  - cbn [length]. rewrite length_app. cbn [length]. pose proof (ok_len _ Ha).
    pose proof (ok_len _ Hb). unfold line_max. lia.
Qed.

Lemma drop_line_ok a : path_ok a -> line_ok line_max (drop_line a).
Proof.
  intros Ha. exists ("-"%char :: tab :: a). unfold drop_line. split_and!; [done| |].
  - rewrite !elem_of_cons. pose proof (plain_not a nl Ha). naive_solver.
  - cbn [length]. pose proof (ok_len _ Ha). unfold line_max. lia.
Qed.

(** A line without its newline, as [replay_line] sees it. *)
Lemma replay_body t body op c r :
  body = op :: tab :: c :: r -> (forall x, x ∈ body -> x <> nul) ->
  replay_line t (body ++ [nl]) =
  if decide (op = "-"%char) then delete (c :: r) t
  else match list_find (fun x => x = tab) (c :: r) with
       | Some (i, _) => if decide (op = "+"%char) then <[take i (c :: r) := drop (S i) (c :: r)]> t else t
       | None => t
       end.
Proof.
  intros E Hn. unfold replay_line. rewrite c_str_id.
  2: { rewrite elem_of_app, list_elem_of_singleton. intros [H| H]; [by apply Hn in H|done]. }
  rewrite last_snoc, decide_True by done.
  replace (take (length (body ++ [nl]) - 1) (body ++ [nl])) with body.
  2: { rewrite length_app. cbn [length]. rewrite Nat.add_sub, take_app_length. done. }
  subst body. by rewrite bool_decide_eq_true_2.
Qed.

Lemma replay_drop t a : path_ok a -> replay_line t (drop_line a) = delete a t.
Proof.
  intros Ha. pose proof (ok_ne _ Ha). destruct a as [|c r]; [done|].
  change (drop_line (c :: r)) with (("-"%char :: tab :: c :: r) ++ [nl]).
  rewrite (replay_body t _ "-"%char c r eq_refl); [by rewrite decide_True|].
  intros x. rewrite !elem_of_cons. intros [-> |[-> | Hx]]; [done|done|].
  apply (ok_plain _ Ha). by apply elem_of_cons.
Qed.

Lemma find_tab a b : tab ∉ a -> list_find (fun x => x = tab) (a ++ tab :: b) = Some (length a, tab).
Proof.
  intros Ha. rewrite list_find_app_r; [|by apply list_find_None, Forall_forall; intros x Hx ->].
  cbn. by rewrite decide_True.
Qed.

Lemma replay_add t a b : path_ok a -> path_ok b -> replay_line t (add_line a b) = <[a := b]> t.
Proof.
  intros Ha Hb. pose proof (ok_ne _ Ha). destruct a as [|c r]; [done|].
  replace (add_line (c :: r) b) with (("+"%char :: tab :: c :: (r ++ tab :: b)) ++ [nl]).
  2: { unfold add_line. cbn. by rewrite <- app_assoc. }
  rewrite (replay_body t _ "+"%char c _ eq_refl).
  - rewrite decide_False by done. change (c :: (r ++ tab :: b)) with ((c :: r) ++ tab :: b).
    rewrite find_tab by (apply plain_not; [done|tauto]). rewrite decide_True by done.
    rewrite take_app_length, (cons_middle tab (c :: r) b), app_assoc.
    rewrite (drop_app_length' ((c :: r) ++ [tab]) b); [done|].
    rewrite length_app. cbn [length]. lia.
  - change (c :: (r ++ tab :: b)) with ((c :: r) ++ tab :: b).
    intros x. rewrite !elem_of_cons, elem_of_app, (elem_of_cons b).
    pose proof (plain_not _ nul Ha ltac:(tauto)). pose proof (plain_not _ nul Hb ltac:(tauto)).
    intros [-> |[-> |[Hx|[-> | Hx]]]]; try done; by intros ->.
Qed.

(** ** Every change is journalled *)

Record journalled (s : Links) : Prop := {
  jr_lines : exists ls, Forall (line_ok line_max) ls /\ journal s = Some (concat ls) /\
               fold_left replay_line ls ∅ = alias s;
  jr_paths : forall a b, alias s !! a = Some b -> path_ok a /\ path_ok b
}.

Lemma journal_remove s a b : journal (remove s a b) = journal s.
Proof. unfold remove, erase_name. by destruct (names s !! b). Qed.

(** A change of the tables and the line that records it. *)
Lemma journalled_log s s' l :
  journalled s -> journal s' = journal s -> line_ok line_max l ->
  replay_line (alias s) l = alias s' ->
  (forall a b, alias s' !! a = Some b -> path_ok a /\ path_ok b) ->
  journalled (log_text true s' l).
Proof.
  intros [(ls & Hls & Ej & Er) _] Ej' Hl Hr Hp. split; [|by rewrite alias_log].
  exists (ls ++ [l]). split_and!.
  - apply Forall_app. split; [done|]. by apply Forall_singleton.
  - unfold log_text. rewrite Ej', Ej, concat_app. cbn. by rewrite app_nil_r.
  - by rewrite fold_left_app, alias_log, Er.
Qed.

Lemma journalled_add s a b :
  journalled s -> path_ok a -> path_ok b -> journalled (add true s a b).
Proof.
  intros Hj Ha Hb. eapply journalled_log; [exact Hj|done|by apply add_line_ok| |].
  - by apply replay_add.
  - intros x y. cbn [alias]. rewrite lookup_insert_Some.
    intros [[<- <-]|[_ E]]; [done|by apply (jr_paths _ Hj)].
Qed.

Lemma journalled_delete s s' a :
  journalled s -> path_ok a -> journal s' = journal s -> alias s' = delete a (alias s) ->
  journalled (log_text true s' (drop_line a)).
Proof.
  intros Hj Ha Ej Ea. eapply journalled_log; [exact Hj|done|by apply drop_line_ok| |].
  - by rewrite replay_drop.
  - intros x y. rewrite Ea, lookup_delete_Some. intros [_ E]. by apply (jr_paths _ Hj).
Qed.

Lemma journalled_drop s a : journalled s -> journalled (drop_alias true s a).
Proof.
  intros Hj. unfold drop_alias. destruct (alias s !! a) as [b|] eqn:E; [|done].
  eapply journalled_delete; [done|by apply (jr_paths _ Hj a b)|apply journal_remove|apply alias_remove].
Qed.

Lemma journalled_promote s b : inverse s -> journalled s -> journalled (promote true s b).1.
Proof.
  intros Hi Hj. unfold promote. destruct (names s !! b) as [[|h rest]|] eqn:E; [done| |done].
  assert (Hok : forall x, x ∈ h :: rest -> path_ok x).
  { intros x Hx. apply (jr_paths _ Hj x b), (inv_iff _ Hi). by eauto. }
  assert (Hh : path_ok h) by (apply Hok; by left).
  cbn [fst]. assert (Hrest : forall x, x ∈ rest -> path_ok x) by (intros x Hx; apply Hok; by right).
  clear E Hok. set (s0 := log_text _ _ _).
  assert (H0 : journalled s0) by by eapply journalled_delete.
  clearbody s0. revert s0 H0. induction rest as [|x rest IH]; intros s0 H0; cbn [fold_left]; [done|].
  apply IH; [intros y Hy; apply Hrest; by right|].
  apply (journalled_add s0 x h); [done|apply Hrest; by left|done].
Qed.

Lemma journalled_rename order s from to :
  iterates order -> journalled s ->
  (forall x, known s x -> path_ok (mv from to x)) ->
  journalled (rename_prefix true order s from to).
Proof.
  intros Hord Hj Hm. unfold rename_prefix. cbv zeta.
  set (before := filter _ _).
  assert (Hb : forall ab, ab ∈ before -> alias s !! ab.1 = Some ab.2).
  { intros [a b] Hab. unfold before in Hab. apply list_elem_of_filter in Hab as [_ Hab].
    rewrite (Hord (alias s)) in Hab. by apply elem_of_map_to_list in Hab. }
  assert (Hba : forall ab, ab ∈ before -> path_ok ab.1).
  { intros ab Hab. by apply (jr_paths _ Hj ab.1 ab.2), Hb. }
  assert (Haf : Forall (fun ab => path_ok ab.1 /\ path_ok ab.2)
                  (map (fun ab => (default ab.1 (moved from to ab.1), default ab.2 (moved from to ab.2))) before)).
  { apply Forall_fmap, Forall_forall. intros ab Hab%Hb. cbn.
    split; apply Hm; [left|right]; by eauto. }
  clear Hb Hm. clearbody before. set (after := map _ _) in *. clearbody after.
  assert (H1 : journalled (fold_left (fun s ab => log_text true (remove s ab.1 ab.2) (drop_line ab.1)) before s)).
  { clear Haf. revert s Hj. induction before as [|ab before IH]; intros s Hj; cbn [fold_left]; [done|].
    apply IH; [intros x Hx; apply Hba; by right|].
    eapply journalled_delete; [done|apply Hba; by left|apply journal_remove|apply alias_remove]. }
  revert H1. generalize (fold_left (fun s ab => log_text true (remove s ab.1 ab.2) (drop_line ab.1)) before s).
  induction Haf as [|ab after [] _ IH]; intros s1 H1; cbn [fold_left]; [done|].
  apply IH. by apply journalled_add.
Qed.

(** ** Restart *)

Definition empty_links : Links := {| alias := ∅; names := ∅; journal := None |}.

(** The states of a table attached to a new upper directory, under the
    dispatcher's operations on names the journal can hold. *)
Inductive reachable (order : gmap str str -> list (str * str)) : Links -> Prop :=
| r_new : reachable order (attach true order (fun _ => true) empty_links None)
| r_add s a b : reachable order s -> path_ok a -> path_ok b -> ~ known s a ->
    alias s !! b = None -> a <> b -> reachable order (add true s a b)
| r_drop s a : reachable order s -> reachable order (drop_alias true s a)
| r_promote s b : reachable order s -> reachable order (promote true s b).1
| r_rename s from to : reachable order s ->
    (forall x, known s x -> path_ok (mv from to x)) ->
    (forall z, known s z -> under to z = true -> under from z = true) ->
    reachable order (rename_prefix true order s from to).

Lemma reachable_inv order s : iterates order -> reachable order s -> wf s /\ journalled s.
Proof.
  intros Hord. induction 1 as [|s a b _ [] Ha Hb Hk Hn Hab|s a _ []|s b _ []|s from to _ [] Hm Hd].
  - split; split; cbn; try done.
    + split; cbn; [done|]. intros a b. split; [done|by intros (? & ? & _)].
    + exists []. by split_and!.
  - split; [by apply LinkOps.add_unknown_wf|by apply journalled_add].
  - split; [by apply drop_wf|by apply journalled_drop].
  - split; [by apply promote_wf|apply journalled_promote; [by apply wf_inverse|done]].
  - split; [by apply rename_prefix_wf|by apply journalled_rename].
Qed.

Lemma replayed s : journalled s -> exists t, journal s = Some t /\ replay_state t = alias s.
Proof.
  intros [(ls & Hls & Ej & Er) _]. exists (concat ls). split; [done|].
  unfold replay_state, line_max. by rewrite read_lines_concat.
Qed.

(** The loop that refills the tables from the replayed state. *)
Lemma refill l : forall s,
  inverse s -> NoDup l.*1 -> (forall ab, ab ∈ l -> alias s !! ab.1 = None) ->
  let s1 := fold_left (fun s ab =>
              {| alias := <[ab.1 := ab.2]> (alias s);
                 names := <[ab.2 := default [] (names s !! ab.2) ++ [ab.1]]> (names s);
                 journal := journal s |}) l s in
  inverse s1 /\ alias s1 = list_to_map l ∪ alias s /\ journal s1 = journal s.
Proof.
  induction l as [|[a b] l IH]; intros s Hi Hd Hf; cbn [fold_left].
  - cbn. by rewrite (left_id_L ∅ (∪)).
  - apply NoDup_cons in Hd as [Ha Hd]. cbn [fst snd].
    assert (Hnew : inverse {| alias := <[a := b]> (alias s);
      names := <[b := default [] (names s !! b) ++ [a]]> (names s); journal := journal s |}).
    { pose proof (add_inverse false s a b Hi (Hf _ ltac:(by left))) as H.
      unfold add, log_text in H. cbn [journal] in H. by destruct (journal s). }
    destruct (IH _ Hnew Hd) as (H1 & H2 & H3).
    { intros ab Hab. cbn [alias]. rewrite lookup_insert_ne; [apply Hf; by right|].
      intros ->. apply Ha, list_elem_of_fmap. by exists ab. }
    split_and!; [done| |done]. cbn zeta in H2. rewrite H2, list_to_map_cons. cbn [alias].
    rewrite <- insert_union_l, insert_union_r; [done|].
    apply not_elem_of_list_to_map. done.
Qed.

Section rewritten.
Context (order : gmap str str -> list (str * str)) (Hord : iterates order).

Lemma order_to_map t : list_to_map (order t) = t.
Proof using Hord.
  rewrite <- (list_to_map_to_list t) at 2. apply list_to_map_proper; [|apply Hord].
  rewrite (Hord t). apply NoDup_fst_map_to_list.
Qed.

Lemma elem_iterated t a b : (a, b) ∈ order t <-> t !! a = Some b.
Proof using Hord. rewrite (Hord t). apply elem_of_map_to_list. Qed.

(** Nothing is filtered when every file exists. *)
Lemma keep_all s (exists_ : str -> bool) :
  (forall x, known s x -> exists_ x = true) ->
  filter (fun ab => exists_ ab.1 && exists_ ab.2 = true) (order (alias s)) = order (alias s).
Proof using Hord.
  intros Hx.
  assert (H : Forall (fun ab => exists_ ab.1 && exists_ ab.2 = true) (order (alias s))).
  { apply Forall_forall. intros [a b] Hab%elem_iterated. cbn.
    rewrite !Hx; [done|right; by eauto|left; by eauto]. }
  induction H as [|ab l E _ IH]; [done|]. by rewrite filter_cons_True, IH.
Qed.

Lemma replay_adds l : forall t,
  Forall (fun ab => path_ok ab.1 /\ path_ok ab.2) l -> NoDup l.*1 ->
  (forall ab, ab ∈ l -> t !! ab.1 = None) ->
  fold_left replay_line (map (fun ab => add_line ab.1 ab.2) l) t = list_to_map l ∪ t.
Proof.
  induction l as [|[a b] l IH]; intros t Hok Hd Hf; cbn [map fold_left].
  - cbn. by rewrite (left_id_L ∅ (∪)).
  - apply Forall_cons in Hok as [[Ha Hb] Hok]. apply NoDup_cons in Hd as [Hn Hd]. cbn [fst snd] in *.
    rewrite replay_add, IH by (done || (intros ab Hab; rewrite lookup_insert_ne;
      [apply Hf; by right|intros ->; apply Hn, list_elem_of_fmap; by exists ab])).
    rewrite list_to_map_cons, <- insert_union_l, insert_union_r; [done|].
    by apply not_elem_of_list_to_map.
Qed.

(** The compact journal [replay] writes. *)
Lemma rewritten_replays s :
  journalled s ->
  replay_state (concat (map (fun ab => add_line ab.1 ab.2) (order (alias s)))) = alias s.
Proof using Hord.
  intros Hj.
  assert (Hp : Forall (fun ab => path_ok ab.1 /\ path_ok ab.2) (order (alias s))).
  { apply Forall_forall. intros [a b] Hab%elem_iterated. by apply (jr_paths _ Hj). }
  unfold replay_state, line_max. rewrite read_lines_concat.
  - rewrite replay_adds; [|done| |done].
    + by rewrite order_to_map, (right_id_L ∅ (∪)).
    + rewrite (Hord (alias s)). apply NoDup_fst_map_to_list.
  - apply Forall_fmap. eapply Forall_impl; [exact Hp|]. intros ab []. by apply add_line_ok.
Qed.
End rewritten.

(** The link table survives a restart: replaying the journal of any
    reachable table whose files still exist gives back the same aliases, the
    same set of names for every backing file (hence the same link counts),
    and a rewritten journal from which the table can be recovered again. *)
Theorem links_restart order s exists_ :
  iterates order -> reachable order s -> (forall x, known s x -> exists_ x = true) ->
  let s' := attach true order exists_ empty_links (journal s) in
  alias s' = alias s /\ (forall b, aliases_of s' b ≡ₚ aliases_of s b) /\
  option_map replay_state (journal s') = Some (alias s).
Proof.
  intros Hord Hr Hx. destruct (reachable_inv order s Hord Hr) as [Hw Hj].
  destruct (replayed s Hj) as (t & Et & Es). unfold attach. rewrite Et. unfold replay.
  cbn [journal]. cbv zeta. rewrite Es.
  set (keep := filter _ (order (alias s))).
  assert (Hk : keep = order (alias s)) by by apply keep_all.
  destruct (refill keep {| alias := ∅; names := ∅; journal := Some t |}) as (Hi & Ha & _).
  { split; cbn; [done|]. intros a b. split; [done|by intros (? & ? & _)]. }
  { rewrite Hk, (Hord (alias s)). apply NoDup_fst_map_to_list. }
  { done. }
  rewrite Hk, order_to_map in Ha by done. cbn zeta in Hi, Ha. rewrite <- Hk in Ha.
  cbn [alias] in Ha. rewrite (right_id_L ∅ (∪)) in Ha.
  split_and!; cbn [alias journal]; [done| |].
  - intros b. apply NoDup_Permutation; [by apply (aliases_NoDup _ b Hi)|by apply aliases_NoDup, wf_inverse|].
    intros x. rewrite (elem_aliases _ x b Hi), Ha, elem_aliases by by apply wf_inverse. done.
  - cbn [option_map]. f_equal. rewrite Ha. by apply rewritten_replays.
Qed.

Lemma path_ok_check p :
  (bool_decide (p <> []) && forallb (fun c => bool_decide (c <> nl /\ c <> nul /\ c <> tab)) p
   && (length p <=? Z.to_nat 4093)%nat)%bool = true -> path_ok p.
Proof.
  rewrite !andb_true_iff, bool_decide_eq_true, Nat.leb_le, forallb_forall. intros [[H1 H2] H3].
  split; [done| |done]. intros c Hc%list_elem_of_In%H2. by apply bool_decide_eq_true in Hc.
Qed.

Lemma links_restart_witness :
  let s := rename_prefix true map_to_list
             (add true (attach true map_to_list (fun _ => true) empty_links None)
                (lit "/d/b") (lit "/a")) (lit "/d") (lit "/e") in
  reachable map_to_list s /\
  alias (attach true map_to_list (fun _ => true) empty_links (journal s)) = alias s /\
  alias s !! lit "/e/b" = Some (lit "/a").
Proof.
  intros s.
  assert (Hr : reachable map_to_list s).
  { assert (Hk : forall x, known (add true (attach true map_to_list (fun _ => true) empty_links None)
                (lit "/d/b") (lit "/a")) x -> x = lit "/d/b" \/ x = lit "/a").
    { intros x [[b E]|[a E]]; rewrite LinkOps.alias_add in E; case_decide; naive_solver. }
    apply r_rename; [apply r_add; [apply r_new|by apply path_ok_check|by apply path_ok_check| | |]| |];
      try done.
    - by intros [[b E]|[a E]].
    - intros x [-> | ->]%Hk; by apply path_ok_check.
    - intros z [-> | ->]%Hk; by vm_compute. }
  split; [exact Hr|]. split; [|reflexivity].
  exact (proj1 (links_restart map_to_list s (fun _ => true) (fun _ => reflexivity _) Hr (fun _ _ => eq_refl))).
Defined.

End LinkJournal.
