(* ===== verification/GuestMem.v ===== *)
(** Guest memory as the dispatcher sees it.

    [Syscalls] is a template over a memory backend with [copy_in] and
    [copy_out]; the class [GuestMem] is that interface with what its users
    rely on.  [put_u32] and its relatives are the accessors at the end of
    [include/linuxity/abi/syscall.hpp], [le_bytes] the [memcpy] of a
    little-endian integer. *)

From S2P Require Import Prelude.

Module Bytes.

(** The [n] bytes of an integer, least significant first, and back. *)
Fixpoint le_bytes (n : nat) (v : Z) : list Z :=
  match n with
  | O => []
  | S n' => v mod 256 :: le_bytes n' (v / 256)
  end.

Fixpoint le_val (bs : list Z) : Z :=
  match bs with
  | [] => 0
  | b :: bs' => b + 256 * le_val bs'
  end.

Definition is_byte (b : Z) : Prop := 0 <= b < 256.

Lemma le_bytes_length n : forall v, length (le_bytes n v) = n.
Proof. induction n as [|n IH]; intros v; cbn; [done|by rewrite IH]. Qed.

Lemma le_bytes_byte n : forall v, Forall is_byte (le_bytes n v).
Proof.
  induction n as [|n IH]; intros v; cbn; constructor; [|apply IH].
  apply Z.mod_pos_bound. lia.
Qed.

Lemma le_val_bytes n : forall v, 0 <= v < 256 ^ Z.of_nat n -> le_val (le_bytes n v) = v.
Proof.
  induction n as [|n IH]; intros v Hv; cbn [le_bytes le_val].
  - change (256 ^ Z.of_nat 0) with 1 in Hv. lia.
  - rewrite Nat2Z.inj_succ, Z.pow_succ_r in Hv by lia.
    rewrite IH; [|split; [apply Z.div_pos; lia|apply Z.div_lt_upper_bound; lia]].
    pose proof (Z.div_mod v 256 ltac:(lia)). lia.
Qed.

Lemma le_val_range bs : Forall is_byte bs -> 0 <= le_val bs < 256 ^ Z.of_nat (length bs).
Proof.
  induction 1 as [|b bs Hb _ IH]; cbn [le_val length]; [change (256 ^ Z.of_nat 0) with 1; lia|].
  rewrite Nat2Z.inj_succ, Z.pow_succ_r by lia. unfold is_byte in Hb. lia.
Qed.

Lemma le_bytes_val bs : Forall is_byte bs -> le_bytes (length bs) (le_val bs) = bs.
Proof.
  induction 1 as [|b bs Hb _ IH]; cbn [le_val le_bytes length]; [done|]. unfold is_byte in Hb.
  rewrite (Z.mul_comm 256), Z.mod_add, Z.mod_small by lia.
  rewrite Z.div_add, Z.div_small, Z.add_0_l by lia. by rewrite IH.
Qed.

(** Padding with zeros does not change the number. *)
Lemma le_bytes_zeros bs n :
  Forall is_byte bs -> le_bytes (length bs + n) (le_val bs) = bs ++ replicate n 0.
Proof.
  intros Hb. assert (Ev : le_val (bs ++ replicate n 0) = le_val bs).
  { clear Hb. induction bs as [|b bs IH]; cbn; [|by rewrite IH].
    induction n as [|n IH]; cbn; [done|]. rewrite IH. done. }
  rewrite <- Ev. replace (length bs + n)%nat with (length (bs ++ replicate n 0))
    by (rewrite length_app, length_replicate; done).
  apply le_bytes_val, Forall_app. split; [done|]. apply Forall_replicate. unfold is_byte. lia.
Qed.

End Bytes.
Export Bytes.

(** A read or a write of a range is all or nothing. *)
Class GuestMem (M : Type) := {
  copy_in : M -> Z -> nat -> option (list Z);
  copy_out : M -> Z -> list Z -> option M;
  copy_in_bytes m a n bs : copy_in m a n = Some bs -> length bs = n /\ Forall is_byte bs;
  copy_in_app m a n k :
    copy_in m a (n + k) = match copy_in m a n, copy_in m (a + Z.of_nat n) k with
                          | Some x, Some y => Some (x ++ y) | _, _ => None
                          end;
  copy_out_in m a bs m' :
    Forall is_byte bs -> copy_out m a bs = Some m' -> copy_in m' a (length bs) = Some bs;
  copy_out_keeps m a bs m' b n :
    copy_out m a bs = Some m' -> b + Z.of_nat n <= a \/ a + Z.of_nat (length bs) <= b ->
    copy_in m' b n = copy_in m b n;
  (** The mapped, writable ranges; a write does not change the mappings. *)
  can_write : M -> Z -> nat -> bool;
  copy_out_can m a bs : is_Some (copy_out m a bs) <-> can_write m a (length bs) = true;
  can_write_keeps m a bs m' b n : copy_out m a bs = Some m' -> can_write m' b n = can_write m b n;
  can_write_app m a n k : can_write m a (n + k) = can_write m a n && can_write m (a + Z.of_nat n) k
}.

Lemma can_write_prefix `{GuestMem M} (m : M) a n k :
  (k <= n)%nat -> can_write m a n = true -> can_write m a k = true.
Proof.
  intros Hk. replace n with (k + (n - k))%nat by lia. rewrite can_write_app. by intros [? _]%andb_true_iff.
Qed.

Lemma can_write_sub `{GuestMem M} (m : M) a n off k :
  (off + k <= n)%nat -> can_write m a n = true -> can_write m (a + Z.of_nat off) k = true.
Proof.
  intros Hk. replace n with (off + (n - off))%nat by lia. rewrite can_write_app.
  intros [_ ?]%andb_true_iff. eapply can_write_prefix; [|done]. lia.
Qed.

Module Access.
Section access.
Context {M : Type} `{GuestMem M}.

Definition put_u32 (m : M) (addr v : Z) : option M := copy_out m addr (le_bytes 4 v).

Definition get_u32 (m : M) (addr : Z) : Z :=
  match copy_in m addr 4 with
  | Some bs => le_val bs
  | None => 0
  end.

(** [put_u16] discards a failed write. *)
Definition put_u16 (m : M) (addr v : Z) : M := default m (copy_out m addr (le_bytes 2 v)).

Definition get_u16 (m : M) (addr : Z) : Z :=
  match copy_in m addr 2 with
  | Some bs => le_val bs
  | None => 0
  end.

Lemma get_put_u32 m m' addr v :
  0 <= v < 2 ^ 32 -> put_u32 m addr v = Some m' -> get_u32 m' addr = v.
Proof.
  intros Hv E. apply copy_out_in in E; [|apply le_bytes_byte].
  unfold get_u32. rewrite le_bytes_length in E. rewrite E. by apply le_val_bytes.
Qed.

Lemma get_u32_range m addr : 0 <= get_u32 m addr < 2 ^ 32.
Proof.
  unfold get_u32. destruct (copy_in m addr 4) as [bs|] eqn:E; [|lia].
  apply copy_in_bytes in E as [El Hb]. apply le_val_range in Hb. by rewrite El in Hb.
Qed.

Definition put_u64 (m : M) (addr v : Z) : option M := copy_out m addr (le_bytes 8 v).

(** ** Overwriting part of a buffer *)

Definition splice (bs : list Z) (off : nat) (ws : list Z) : list Z :=
  take off bs ++ ws ++ drop (off + length ws) bs.

Lemma copy_out_splice m m' a n bs off ws :
  copy_in m a n = Some bs -> Forall is_byte ws -> (off + length ws <= n)%nat ->
  copy_out m (a + Z.of_nat off) ws = Some m' -> copy_in m' a n = Some (splice bs off ws).
Proof.
  intros E Hw Hn Ho. pose proof (copy_out_in _ _ _ _ Hw Ho) as Ei. revert E.
  replace n with (off + (length ws + (n - off - length ws)))%nat by lia. rewrite !copy_in_app.
  rewrite (copy_out_keeps _ _ _ _ a off Ho) by lia.
  rewrite (copy_out_keeps _ _ _ _ _ (n - off - length ws) Ho) by lia. rewrite Ei. unfold splice.
  destruct (copy_in m a off) as [x|] eqn:Ex; [|done].
  destruct (copy_in m _ (length ws)) as [y|] eqn:Ey; [|done].
  destruct (copy_in m _ (n - _ - _)) as [z|]; [|done]. intros [= <-].
  apply copy_in_bytes in Ex as [Lx _]. apply copy_in_bytes in Ey as [Ly _].
  rewrite <- Lx, take_app_length, <- Ly, <- drop_drop, drop_app_length.
  by rewrite drop_app_length.
Qed.

(** A store whose failure is ignored. *)
Definition poke (m : M) (addr : Z) (ws : list Z) : M := default m (copy_out m addr ws).

Lemma poke_splice m a n bs off ws :
  copy_in m a n = Some bs -> can_write m a n = true -> Forall is_byte ws -> (off + length ws <= n)%nat ->
  let m' := poke m (a + Z.of_nat off) ws in
  copy_in m' a n = Some (splice bs off ws) /\ can_write m' a n = true /\
  forall b k, b + Z.of_nat k <= a \/ a + Z.of_nat n <= b -> copy_in m' b k = copy_in m b k.
Proof.
  intros E Hc Hw Hn. unfold poke.
  destruct (proj2 (copy_out_can m (a + Z.of_nat off) ws)) as [m' Eo]; [by eapply can_write_sub|].
  rewrite Eo. cbn [default]. split; [by eapply copy_out_splice|].
  split; [by rewrite (can_write_keeps _ _ _ _ _ _ Eo)|]. intros b k Hb.
  apply (copy_out_keeps _ _ _ _ _ _ Eo). lia.
Qed.

End access.
End Access.

(** ** A flat memory *)

Module Flat.

(** The mapped bytes. *)
Abbreviation t := (gmap Z Z).

Fixpoint read (m : t) (a : Z) (n : nat) : option (list Z) :=
  match n with
  | O => Some []
  | S n' => match m !! a, read m (a + 1) n' with
            | Some b, Some bs => Some (u8 b :: bs)
            | _, _ => None
            end
  end.

Fixpoint write (m : t) (a : Z) (bs : list Z) : option t :=
  match bs with
  | [] => Some m
  | b :: bs' => match m !! a with
                | Some _ => write (<[a := b]> m) (a + 1) bs'
                | None => None
                end
  end.

Fixpoint mapped (m : t) (a : Z) (n : nat) : bool :=
  match n with
  | O => true
  | S n' => bool_decide (is_Some (m !! a)) && mapped m (a + 1) n'
  end.

Lemma mapped_ext m m' n : forall a,
  (forall i, is_Some (m !! i) <-> is_Some (m' !! i)) -> mapped m a n = mapped m' a n.
Proof.
  induction n as [|n IH]; intros a Hi; cbn [mapped]; [done|]. rewrite (IH (a + 1) Hi). f_equal.
  by apply bool_decide_ext.
Qed.

Lemma write_mapped bs : forall m a, is_Some (write m a bs) <-> mapped m a (length bs) = true.
Proof.
  induction bs as [|b bs IH]; intros m a; cbn [write mapped length]; [split; by eauto|].
  rewrite andb_true_iff, bool_decide_eq_true. destruct (m !! a) eqn:E.
  - rewrite IH, (mapped_ext _ m); [naive_solver|]. intros i. rewrite lookup_insert_is_Some.
    destruct (decide (a = i)) as [<- |]; naive_solver.
  - split; [by intros []|by intros [[] _]].
Qed.

Lemma write_keeps bs : forall m a m' i,
  write m a bs = Some m' -> is_Some (m' !! i) <-> is_Some (m !! i).
Proof.
  induction bs as [|b bs IH]; intros m a m' i; cbn [write]; [by intros [= <-]|].
  destruct (m !! a) eqn:E; [|done]. intros Hw. rewrite (IH _ _ _ i Hw), lookup_insert_is_Some.
  destruct (decide (a = i)) as [<- |]; naive_solver.
Qed.

Lemma mapped_app m n : forall a k, mapped m a (n + k) = mapped m a n && mapped m (a + Z.of_nat n) k.
Proof.
  induction n as [|n IH]; intros a k; cbn [mapped Nat.add]; [by rewrite Z.add_0_r|].
  rewrite IH, andb_assoc. do 2 f_equal. lia.
Qed.

Lemma read_bytes m n : forall a bs, read m a n = Some bs -> length bs = n /\ Forall is_byte bs.
Proof.
  induction n as [|n IH]; intros a bs; cbn [read]; [by intros [= <-]|].
  destruct (m !! a); [|done]. destruct (read m (a + 1) n) as [bs'|] eqn:E; [|done].
  intros [= <-]. apply IH in E as [<- Hb]. split; [done|]. constructor; [|done].
  apply Z.mod_pos_bound. lia.
Qed.

Lemma read_app m n : forall a k,
  read m a (n + k) = match read m a n, read m (a + Z.of_nat n) k with
                     | Some x, Some y => Some (x ++ y) | _, _ => None
                     end.
Proof.
  induction n as [|n IH]; intros a k; cbn [read Nat.add].
  - rewrite Z.add_0_r. by destruct (read m a k).
  - destruct (m !! a); [|done]. rewrite IH. replace (a + 1 + Z.of_nat n) with (a + Z.of_nat (S n)) by lia.
    destruct (read m (a + 1) n); [|done]. by destruct (read m _ k).
Qed.

Lemma read_ext m m' n : forall a,
  (forall i, a <= i < a + Z.of_nat n -> m !! i = m' !! i) -> read m a n = read m' a n.
Proof.
  induction n as [|n IH]; intros a Hi; cbn [read]; [done|].
  rewrite (Hi a) by lia. rewrite (IH (a + 1)); [done|]. intros i Hr. apply Hi. lia.
Qed.

Lemma write_other bs : forall m a m' i,
  write m a bs = Some m' -> i < a \/ a + Z.of_nat (length bs) <= i -> m' !! i = m !! i.
Proof.
  induction bs as [|b bs IH]; intros m a m' i; cbn [write length]; [by intros [= <-]|].
  destruct (m !! a); [|done]. intros E Hi. rewrite (IH _ _ _ i E) by lia.
  by rewrite lookup_insert_ne by lia.
Qed.

Lemma write_read bs : forall m a m',
  Forall is_byte bs -> write m a bs = Some m' -> read m' a (length bs) = Some bs.
Proof.
  induction bs as [|b bs IH]; intros m a m' Hb; cbn [write length read]; [by intros _|].
  apply Forall_cons in Hb as [Hb Hbs]. destruct (m !! a); [|done]. intros E.
  rewrite (IH _ _ _ Hbs E), (write_other _ _ _ _ a E) by lia. rewrite lookup_insert_eq.
  by rewrite u8_small.
Qed.

#[export] Program Instance flat_memory : GuestMem t := {|
  copy_in := read;
  copy_out := write;
  can_write := mapped
|}.
Next Obligation. intros m a n bs. apply read_bytes. Qed.
Next Obligation. intros m a n k. apply read_app. Qed.
Next Obligation. intros m a bs m'. apply write_read. Qed.
Next Obligation.
  intros m a bs m' b n E Hr. cbn. apply read_ext. intros i Hi. eapply write_other; [done|lia].
Qed.
Next Obligation. intros m a bs. apply write_mapped. Qed.
Next Obligation. intros m a bs m' b n E. apply mapped_ext. intros i. by eapply write_keeps. Qed.
Next Obligation. intros m a n k. apply mapped_app. Qed.

(** A page of zero bytes. *)
Definition zeroed (a : Z) (n : nat) : t := list_to_map ((fun i => (a + i, 0)) <$> seqZ 0 (Z.of_nat n)).

Lemma read_mapped m n : forall a,
  (forall i, a <= i < a + Z.of_nat n -> is_Some (m !! i)) -> is_Some (read m a n).
Proof.
  induction n as [|n IH]; intros a Hm; cbn [read]; [by eauto|].
  destruct (Hm a) as [b ->]; [lia|]. destruct (IH (a + 1)) as [bs ->]; [|by eauto].
  intros i Hi. apply Hm. lia.
Qed.

Lemma zeroed_lookup a n i : a <= i < a + Z.of_nat n -> zeroed a n !! i = Some 0.
Proof.
  intros Hi. unfold zeroed. apply elem_of_list_to_map_1.
  - rewrite <- list_fmap_compose. apply NoDup_fmap; [|apply NoDup_seqZ].
    intros x y. cbn. lia.
  - apply list_elem_of_fmap. exists (i - a). split; [f_equal; lia|]. apply elem_of_seqZ. lia.
Qed.

End Flat.
