(* ===== verification/ProcessTable.v ===== *)
(** The virtual process table ([include/linuxity/kernel/process_table.hpp])
    and the events that drive it (the process part of [apply_proc_events],
    [include/linuxity/runtime/trap.hpp]).

    [find], [pgid_of] and [sid_of] recurse along parents, and nothing in the
    table bounds that recursion: the definitions take fuel and answer [None]
    when it runs out.  The theorems show that fuel one above the pid is
    enough when every parent has a smaller pid, which is how both backends
    number processes.  A returned pointer into [scratch_] is the value it
    points at: an entry is only ever overwritten by the same record. *)

From stdpp Require Import sorting.
From S2P Require Import Prelude.

Module ProcessTable.

Record ProcInfo := mkProc {
  p_pid : Z; p_ppid : Z; p_pgid : Z; p_sid : Z; p_ctty : Z;
  p_comm : str; p_cmdline : str; p_state : ascii;
  p_rss_pages : Z; p_vsize_bytes : Z; p_uid : Z; p_gid : Z;
  p_exe : str; p_threads : list Z; p_groups : list Z; p_groups_set : bool
}.

(** A default-constructed [ProcInfo]. *)
Definition default_info : ProcInfo :=
  {| p_pid := 1; p_ppid := 0; p_pgid := 0; p_sid := 0; p_ctty := -1;
     p_comm := lit "linuxity"; p_cmdline := lit "linuxity"; p_state := "R"%char;
     p_rss_pages := 256; p_vsize_bytes := Z.shiftl 16 20; p_uid := 0; p_gid := 0;
     p_exe := []; p_threads := []; p_groups := []; p_groups_set := false |}.

(** Field assignments. *)
Definition with_pid (v : Z) (p : ProcInfo) : ProcInfo :=
  mkProc v (p_ppid p) (p_pgid p) (p_sid p) (p_ctty p) (p_comm p) (p_cmdline p) (p_state p)
    (p_rss_pages p) (p_vsize_bytes p) (p_uid p) (p_gid p) (p_exe p) (p_threads p) (p_groups p)
    (p_groups_set p).
Definition with_ppid (v : Z) (p : ProcInfo) : ProcInfo :=
  mkProc (p_pid p) v (p_pgid p) (p_sid p) (p_ctty p) (p_comm p) (p_cmdline p) (p_state p)
    (p_rss_pages p) (p_vsize_bytes p) (p_uid p) (p_gid p) (p_exe p) (p_threads p) (p_groups p)
    (p_groups_set p).
Definition with_job (pgid sid : Z) (p : ProcInfo) : ProcInfo :=
  mkProc (p_pid p) (p_ppid p) pgid sid (p_ctty p) (p_comm p) (p_cmdline p) (p_state p)
    (p_rss_pages p) (p_vsize_bytes p) (p_uid p) (p_gid p) (p_exe p) (p_threads p) (p_groups p)
    (p_groups_set p).
Definition with_ctty (v : Z) (p : ProcInfo) : ProcInfo :=
  mkProc (p_pid p) (p_ppid p) (p_pgid p) (p_sid p) v (p_comm p) (p_cmdline p) (p_state p)
    (p_rss_pages p) (p_vsize_bytes p) (p_uid p) (p_gid p) (p_exe p) (p_threads p) (p_groups p)
    (p_groups_set p).
Definition with_image (comm cmdline exe : str) (p : ProcInfo) : ProcInfo :=
  mkProc (p_pid p) (p_ppid p) (p_pgid p) (p_sid p) (p_ctty p) comm cmdline (p_state p)
    (p_rss_pages p) (p_vsize_bytes p) (p_uid p) (p_gid p) exe (p_threads p) (p_groups p)
    (p_groups_set p).
Definition with_state (c : ascii) (p : ProcInfo) : ProcInfo :=
  mkProc (p_pid p) (p_ppid p) (p_pgid p) (p_sid p) (p_ctty p) (p_comm p) (p_cmdline p) c
    (p_rss_pages p) (p_vsize_bytes p) (p_uid p) (p_gid p) (p_exe p) (p_threads p) (p_groups p)
    (p_groups_set p).
Definition with_threads (l : list Z) (p : ProcInfo) : ProcInfo :=
  mkProc (p_pid p) (p_ppid p) (p_pgid p) (p_sid p) (p_ctty p) (p_comm p) (p_cmdline p) (p_state p)
    (p_rss_pages p) (p_vsize_bytes p) (p_uid p) (p_gid p) (p_exe p) l (p_groups p)
    (p_groups_set p).
Definition with_groups (l : list Z) (b : bool) (p : ProcInfo) : ProcInfo :=
  mkProc (p_pid p) (p_ppid p) (p_pgid p) (p_sid p) (p_ctty p) (p_comm p) (p_cmdline p) (p_state p)
    (p_rss_pages p) (p_vsize_bytes p) (p_uid p) (p_gid p) (p_exe p) (p_threads p) l b.
Definition with_sizes (vsize rss : Z) (p : ProcInfo) : ProcInfo :=
  mkProc (p_pid p) (p_ppid p) (p_pgid p) (p_sid p) (p_ctty p) (p_comm p) (p_cmdline p) (p_state p)
    rss vsize (p_uid p) (p_gid p) (p_exe p) (p_threads p) (p_groups p) (p_groups_set p).

(** [procs_]. *)
Abbreviation Table := (gmap Z ProcInfo).

Definition kInheritedPgid : Z := 0x7fff0000.

(** The constructor: pid 1 with the inherited group and session. *)
Definition initial : Table :=
  {[ 1 := with_job kInheritedPgid kInheritedPgid default_info ]}.

(** [procs_[pid]], which inserts a default record. *)
Definition slot (t : Table) (pid : Z) : ProcInfo := default default_info (t !! pid).

(** [if (p.pid == 0) p.pid = pid;] *)
Definition claim_pid (pid : Z) (p : ProcInfo) : ProcInfo :=
  if p_pid p =? 0 then with_pid pid p else p.

(** ** Reading *)

(** [LiveSource]: the backend's shared pid table. *)
Record LiveSource := { alive : Z -> bool; live_pids : list Z; info : Z -> ProcInfo }.

Section live.
Context (live : option LiveSource).

Definition is_alive (pid : Z) : option ProcInfo :=
  match live with
  | Some l => if alive l pid then Some (info l pid) else None
  | None => None
  end.

(** The identity refreshed from the live table. *)
Definition refresh (p l : ProcInfo) : ProcInfo :=
  let p := if bool_decide (p_exe l <> []) && bool_decide (p_exe l <> p_exe p)
           then with_image (p_comm l) (p_cmdline l) (p_exe l) p else p in
  if p_ppid l =? 0 then p else with_ppid (p_ppid l) p.

(** [find], given the recursive call to [pgid_of]; the outer option is the
    recursion's, the inner one is [nullptr]. *)
Definition find_with (pgid : Z -> option Z) (t : Table) (pid : Z) : option (option ProcInfo) :=
  match t !! pid with
  | Some p =>
      match is_alive pid with
      | Some l => Some (Some (refresh p l))
      | None => Some (Some p)
      end
  | None =>
      match is_alive pid with
      | Some l =>
          let p := with_pid pid l in
          if (p_pgid p =? 0) && negb (p_ppid p =? 0) && negb (p_ppid p =? pid) then
            match pgid (p_ppid p) with
            | Some g => Some (Some (with_job g (p_sid p) p))
            | None => None
            end
          else Some (Some p)
      | None => Some None
      end
  end.

Fixpoint pgid_fuel (fuel : nat) (t : Table) (pid : Z) : option Z :=
  match fuel with
  | O => None
  | S f =>
      if pid <=? 0 then Some pid
      else
        match find_with (pgid_fuel f t) t pid with
        | None => None
        | Some None => Some pid
        | Some (Some p) =>
            if negb (p_pgid p =? 0) then Some (p_pgid p)
            else if negb (p_ppid p =? 0) && negb (p_ppid p =? p_pid p)
            then pgid_fuel f t (p_ppid p) else Some (p_pid p)
        end
  end.

(** Enough for a parent chain that descends. *)
Definition fuel_of (pid : Z) : nat := S (Z.to_nat pid).

Definition pgid_of (t : Table) (pid : Z) : option Z := pgid_fuel (fuel_of pid) t pid.

Definition find (t : Table) (pid : Z) : option (option ProcInfo) :=
  find_with (pgid_of t) t pid.

Fixpoint sid_fuel (fuel : nat) (t : Table) (pid : Z) : option Z :=
  match fuel with
  | O => None
  | S f =>
      if pid <=? 0 then Some pid
      else
        match find t pid with
        | None => None
        | Some None => Some pid
        | Some (Some p) =>
            if negb (p_sid p =? 0) then Some (p_sid p)
            else if negb (p_ppid p =? 0) && negb (p_ppid p =? p_pid p)
            then sid_fuel f t (p_ppid p) else Some (p_pid p)
        end
  end.

Definition sid_of (t : Table) (pid : Z) : option Z := sid_fuel (fuel_of pid) t pid.

(** The loop of [ctty_of] that walks up inside the session [sess]. *)
Fixpoint ctty_walk (fuel : nat) (t : Table) (sess : Z) (cur : option ProcInfo) : option Z :=
  match cur with
  | None => Some (-1)
  | Some p =>
      match fuel with
      | O => None
      | S f =>
          match sid_of t (p_pid p) with
          | None => None
          | Some s =>
              if negb (s =? sess) then Some (-1)
              else if 0 <=? p_ctty p then Some (p_ctty p)
              else if (p_ppid p =? 0) || (p_ppid p =? p_pid p) then Some (-1)
              else match find t (p_ppid p) with
                   | None => None
                   | Some q => ctty_walk f t sess q
                   end
          end
      end
  end.

Definition ctty_of (t : Table) (pid : Z) : option Z :=
  if pid <=? 0 then Some (-1)
  else
    match sid_of t pid with
    | None => None
    | Some leader =>
        match find t leader with
        | None => None
        | Some l =>
            if match l with Some l => 0 <=? p_ctty l | None => false end
            then option_map p_ctty l
            else
              match find t pid with
              | None => None
              | Some p => ctty_walk (fuel_of pid) t leader p
              end
        end
    end.

Definition has (t : Table) (pid : Z) : option bool :=
  match find t pid with
  | Some o => Some (bool_decide (is_Some o))
  | None => None
  end.

Definition groups_of (t : Table) (pid : Z) : option (list Z) :=
  match find t pid with
  | Some (Some p) => Some (if p_groups_set p then p_groups p else [0])
  | Some None => Some [0]
  | None => None
  end.

(** [pids]: the map iterates in order, and the result is sorted. *)
Definition pids (t : Table) : list Z :=
  merge_sort Z.le (elements (dom t) ++
    match live with
    | Some l => filter (fun p => t !! p = None) (live_pids l)
    | None => []
    end).

Definition count (t : Table) : nat := length (pids t).

Fixpoint members_loop (t : Table) (pgid : Z) (l : list Z) : option (list Z) :=
  match l with
  | [] => Some []
  | p :: l' =>
      if match live with Some v => negb (alive v p) | None => false end
      then members_loop t pgid l'
      else
        match pgid_of t p, members_loop t pgid l' with
        | Some g, Some out => Some (if g =? pgid then p :: out else out)
        | _, _ => None
        end
  end.

Definition members_of (t : Table) (pgid : Z) : option (list Z) := members_loop t pgid (pids t).

(** ** Writing *)

Definition upsert (t : Table) (p : ProcInfo) : Table :=
  let cur := slot t (p_pid p) in
  let pg := if p_pgid p =? 0 then p_pgid cur else p_pgid p in
  let sd := if p_sid p =? 0 then p_sid cur else p_sid p in
  let q := with_job pg sd p in
  let q := if bool_decide (p_threads q = []) then with_threads (p_threads cur) q else q in
  let q := if p_groups_set q then q else with_groups (p_groups cur) (p_groups_set cur) q in
  <[p_pid p := q]> t.

Definition add_thread (t : Table) (pid tid : Z) : Table :=
  match t !! pid with
  | None => t
  | Some p =>
      if tid =? pid then t
      else if bool_decide (tid ∈ p_threads p) then t
      else <[pid := with_threads (p_threads p ++ [tid]) p]> t
  end.

Definition drop_thread (t : Table) (tid : Z) : Table :=
  (fun p => with_threads (filter (fun x => x <> tid) (p_threads p)) p) <$> t.

Definition set_comm (t : Table) (pid : Z) (comm : str) : Table :=
  let p := with_pid pid (slot t pid) in
  let cmdline := if bool_decide (p_cmdline p = []) then comm else p_cmdline p in
  <[pid := with_image comm cmdline (p_exe p) p]> t.

Definition add (t : Table) (pid ppid : Z) : option Table :=
  match pgid_of t ppid with
  | Some g => Some (<[pid := with_job g 0 (with_ppid ppid (with_pid pid default_info))]> t)
  | None => None
  end.

Definition set_sid (t : Table) (pid : Z) : Table :=
  <[pid := with_ctty (-1) (with_job pid pid (claim_pid pid (slot t pid)))]> t.

Definition set_ctty (t : Table) (pid n : Z) : option Table :=
  match sid_of t pid with
  | None => None
  | Some leader =>
      let t := <[leader := with_ctty n (claim_pid leader (slot t leader))]> t in
      Some (<[pid := with_ctty n (claim_pid pid (slot t pid))]> t)
  end.

(** The loop of [clear_ctty]; the session ids it reads do not depend on the
    terminals it clears. *)
Fixpoint clear_loop (t : Table) (leader : Z) (l : list (Z * ProcInfo)) : option Table :=
  match l with
  | [] => Some ∅
  | (who, p) :: l' =>
      match sid_of t who, clear_loop t leader l' with
      | Some s, Some out => Some (<[who := if s =? leader then with_ctty (-1) p else p]> out)
      | _, _ => None
      end
  end.

Definition clear_ctty (t : Table) (pid : Z) : option Table :=
  match sid_of t pid with
  | None => None
  | Some leader => clear_loop t leader (map_to_list t)
  end.

Definition set_pgid (t : Table) (pid pgid : Z) : Table :=
  let p := claim_pid pid (slot t pid) in
  <[pid := with_job (if pgid =? 0 then pid else pgid) (p_sid p) p]> t.

Definition remove (t : Table) (pid : Z) : Table := if pid =? 1 then t else delete pid t.

Definition set_groups (t : Table) (pid : Z) (g : list Z) : Table :=
  <[pid := with_groups g true (claim_pid pid (slot t pid))]> t.

(** ** Events *)

Inductive ProcEvent :=
| ev_spawn (pid ppid : Z)
| ev_exec (pid : Z) (comm cmdline : str)
| ev_thread (tid owner : Z)
| ev_stop (pid : Z)
| ev_cont (pid : Z)
| ev_reparent (pid ppid : Z)
| ev_reap (pid : Z).

(** The record of a freshly forked child. *)
Definition spawn_info (parent : option ProcInfo) (pid ppid : Z) : ProcInfo :=
  let pi := with_ppid ppid (with_pid pid default_info) in
  let pi := with_image (lit "(spawning)") (lit "(spawning)") (p_exe pi) pi in
  let pi := with_sizes (Z.shiftl 4 20) 256 pi in
  let pi := match parent with
            | Some pp =>
                with_groups (p_groups pp) (p_groups_set pp)
                  (with_sizes (p_vsize_bytes pp) (p_rss_pages pp)
                     (with_image (p_comm pp) (p_cmdline pp) (p_exe pi) pi))
            | None => pi
            end in
  with_state "R"%char pi.

(** The [ProcessTable] part of one round of [apply_proc_events]. *)
Definition apply_event (t : Table) (e : ProcEvent) : option Table :=
  match e with
  | ev_spawn pid ppid =>
      match find t ppid with
      | Some pp => Some (upsert t (spawn_info pp pid ppid))
      | None => None
      end
  | ev_exec pid comm cmdline =>
      match find t pid with
      | Some (Some pi) =>
          let np := if bool_decide (comm = []) then pi
                    else with_image comm (if bool_decide (cmdline = []) then comm else cmdline)
                           (p_exe pi) pi in
          Some (upsert t (with_state "R"%char np))
      | Some None => Some t
      | None => None
      end
  | ev_thread tid owner => Some (add_thread t owner tid)
  | ev_stop pid => Some (alter (with_state "T"%char) pid t)
  | ev_cont pid => Some (alter (with_state "R"%char) pid t)
  | ev_reparent pid ppid => Some (alter (with_ppid ppid) pid t)
  | ev_reap pid => let t := drop_thread t pid in Some (if pid =? 1 then t else remove t pid)
  end.

End live.

(** * Termination

    Every record has a smaller parent.  Its own [pid] field need not be the
    key it is filed under: [procs_[pid]] creates records that say pid 1. *)

Definition ordered (pid : Z) (p : ProcInfo) : Prop :=
  0 <= p_ppid p < pid /\ 0 <= p_sid p /\ 0 < p_pid p.

Definition wf (t : Table) : Prop := forall pid p, t !! pid = Some p -> ordered pid p.

Definition live_ok (live : option LiveSource) : Prop :=
  forall pid l, 0 < pid -> is_alive live pid = Some l -> 0 <= p_ppid l < pid /\ 0 <= p_sid l.

Lemma refresh_ordered pid p l : ordered pid p -> 0 <= p_ppid l < pid -> ordered pid (refresh p l).
Proof.
  intros (? & ? & ?) Hl. unfold refresh. destruct (_ && _), (Z.eqb_spec (p_ppid l) 0); split_and!; cbn; lia.
Qed.

Lemma pgid_fuel_S live f t pid :
  pgid_fuel live (S f) t pid =
  if pid <=? 0 then Some pid
  else match find_with live (pgid_fuel live f t) t pid with
       | None => None
       | Some None => Some pid
       | Some (Some p) =>
           if negb (p_pgid p =? 0) then Some (p_pgid p)
           else if negb (p_ppid p =? 0) && negb (p_ppid p =? p_pid p)
           then pgid_fuel live f t (p_ppid p) else Some (p_pid p)
       end.
Proof. done. Qed.

Section total.
Context (live : option LiveSource) (Hlive : live_ok live) (t : Table) (Hwf : wf t).

(** [find] asks for the group of smaller pids only, and what it finds is
    ordered. *)
Lemma find_with_ordered pg pid :
  0 < pid -> (forall q, 0 <= q < pid -> is_Some (pg q)) ->
  exists o, find_with live pg t pid = Some o /\ (forall p, o = Some p -> ordered pid p).
Proof using Hlive Hwf.
  intros Hpid Hpg. unfold find_with. destruct (t !! pid) as [p|] eqn:Et.
  - apply Hwf in Et. destruct (is_alive live pid) as [l|] eqn:El; eexists; (split; [done|]);
      intros q [= <-]; [|done]. apply refresh_ordered; [done|]. by apply Hlive.
  - destruct (is_alive live pid) as [l|] eqn:El; [|by eexists].
    destruct (Hlive pid l Hpid El) as [Hl Hs]. cbn [p_pgid p_ppid with_pid].
    destruct (_ && _).
    + destruct (Hpg (p_ppid l) Hl) as [g ->]. eexists. split; [done|]. by intros q [= <-].
    + eexists. split; [done|]. by intros q [= <-].
Qed.

Lemma find_with_ext pg pg' pid :
  0 < pid -> (forall q, 0 <= q < pid -> pg q = pg' q) ->
  find_with live pg t pid = find_with live pg' t pid.
Proof using Hlive.
  intros Hpid Hpg. unfold find_with. destruct (t !! pid); [done|].
  destruct (is_alive live pid) as [l|] eqn:El; [|done]. cbn [p_pgid p_ppid with_pid].
  by rewrite Hpg by by apply Hlive.
Qed.

Lemma pgid_fuel_total f : forall pid, (Z.to_nat pid < f)%nat -> is_Some (pgid_fuel live f t pid).
Proof using Hlive Hwf.
  induction f as [|f IH]; intros pid Hf; [lia|]. rewrite pgid_fuel_S.
  destruct (Z.leb_spec pid 0); [by eauto|].
  destruct (find_with_ordered (pgid_fuel live f t) pid) as ([p|] & -> & Ho); [lia|..|by eauto].
  { intros q Hq. apply IH. lia. }
  destruct (Ho p eq_refl). destruct (negb (p_pgid p =? 0)); [by eauto|].
  destruct (_ && _); [|by eauto]. apply IH. lia.
Qed.

Lemma pgid_fuel_enough f : forall g pid,
  (Z.to_nat pid < f)%nat -> (f <= g)%nat -> pgid_fuel live g t pid = pgid_fuel live f t pid.
Proof using Hlive Hwf.
  induction f as [|f IH]; intros [|g] pid Hf Hg; [lia..|]. rewrite !pgid_fuel_S.
  destruct (Z.leb_spec pid 0); [done|].
  rewrite (find_with_ext _ (pgid_fuel live f t)) by (lia || (intros q Hq; apply IH; lia)).
  destruct (find_with_ordered (pgid_fuel live f t) pid) as ([p|] & -> & Ho); [lia|..|done].
  { intros q Hq. apply pgid_fuel_total. lia. }
  destruct (Ho p eq_refl). destruct (negb (p_pgid p =? 0)); [done|].
  destruct (_ && _); [|done]. apply IH; lia.
Qed.

Lemma pgid_of_fuel f pid : (Z.to_nat pid < f)%nat -> pgid_fuel live f t pid = pgid_of live t pid.
Proof using Hlive Hwf. intros Hf. apply pgid_fuel_enough; unfold fuel_of; lia. Qed.

(** [pgid_of] is the recursion of the source. *)
Lemma pgid_of_eq pid :
  pgid_of live t pid =
  if pid <=? 0 then Some pid
  else match find live t pid with
       | None => None
       | Some None => Some pid
       | Some (Some p) =>
           if negb (p_pgid p =? 0) then Some (p_pgid p)
           else if negb (p_ppid p =? 0) && negb (p_ppid p =? p_pid p)
           then pgid_of live t (p_ppid p) else Some (p_pid p)
       end.
Proof using Hlive Hwf.
  unfold pgid_of at 1, fuel_of. rewrite pgid_fuel_S. destruct (Z.leb_spec pid 0); [done|].
  unfold find. rewrite (find_with_ext (pgid_fuel live (Z.to_nat pid) t) (pgid_of live t))
    by (lia || (intros q Hq; apply pgid_of_fuel; lia)).
  destruct (find_with_ordered (pgid_of live t) pid) as ([p|] & -> & Ho); [lia|..|done].
  { intros q Hq. apply pgid_fuel_total. unfold fuel_of. lia. }
  destruct (Ho p eq_refl). destruct (negb (p_pgid p =? 0)); [done|].
  destruct (_ && _); [|done]. apply pgid_of_fuel. lia.
Qed.

Lemma pgid_of_total pid : is_Some (pgid_of live t pid).
Proof using Hlive Hwf. apply pgid_fuel_total. unfold fuel_of. lia. Qed.

Lemma find_ordered pid :
  0 < pid -> exists o, find live t pid = Some o /\ (forall p, o = Some p -> ordered pid p).
Proof using Hlive Hwf. intros Hp. apply find_with_ordered; [done|]. intros q _. apply pgid_of_total. Qed.

Lemma sid_fuel_total f : forall pid, (Z.to_nat pid < f)%nat -> is_Some (sid_fuel live f t pid).
Proof using Hlive Hwf.
  induction f as [|f IH]; intros pid Hf; [lia|]. cbn [sid_fuel].
  destruct (Z.leb_spec pid 0); [by eauto|].
  destruct (find_ordered pid) as ([p|] & -> & Ho); [lia|..|by eauto].
  destruct (Ho p eq_refl). destruct (negb (p_sid p =? 0)); [by eauto|].
  destruct (_ && _); [|by eauto]. apply IH. lia.
Qed.

Lemma sid_fuel_enough f : forall g pid,
  (Z.to_nat pid < f)%nat -> (f <= g)%nat -> sid_fuel live g t pid = sid_fuel live f t pid.
Proof using Hlive Hwf.
  induction f as [|f IH]; intros [|g] pid Hf Hg; [lia..|]. cbn [sid_fuel].
  destruct (Z.leb_spec pid 0); [done|].
  destruct (find_ordered pid) as ([p|] & -> & Ho); [lia|..|done].
  destruct (Ho p eq_refl). destruct (negb (p_sid p =? 0)); [done|].
  destruct (_ && _); [|done]. apply IH; lia.
Qed.

Lemma sid_of_eq pid :
  sid_of live t pid =
  if pid <=? 0 then Some pid
  else match find live t pid with
       | None => None
       | Some None => Some pid
       | Some (Some p) =>
           if negb (p_sid p =? 0) then Some (p_sid p)
           else if negb (p_ppid p =? 0) && negb (p_ppid p =? p_pid p)
           then sid_of live t (p_ppid p) else Some (p_pid p)
       end.
Proof using Hlive Hwf.
  unfold sid_of at 1, fuel_of. cbn [sid_fuel]. destruct (Z.leb_spec pid 0); [done|].
  destruct (find_ordered pid) as ([p|] & -> & Ho); [lia|..|done].
  destruct (Ho p eq_refl). destruct (negb (p_sid p =? 0)); [done|].
  destruct (_ && _); [|done]. apply sid_fuel_enough; unfold fuel_of; lia.
Qed.

Lemma sid_of_total pid : is_Some (sid_of live t pid).
Proof using Hlive Hwf. apply sid_fuel_total. unfold fuel_of. lia. Qed.

Lemma ctty_walk_total f : forall sess pid p,
  ordered pid p -> (Z.to_nat pid <= f)%nat -> is_Some (ctty_walk live f t sess (Some p)).
Proof using Hlive Hwf.
  induction f as [|f IH]; intros sess pid p (? & ? & ?) Hf; [lia|]. cbn [ctty_walk].
  destruct (sid_of_total (p_pid p)) as [s ->]. destruct (negb _); [by eauto|].
  destruct (0 <=? p_ctty p); [by eauto|].
  destruct (Z.eqb_spec (p_ppid p) 0); cbn [orb]; [by eauto|].
  destruct (p_ppid p =? p_pid p); [by eauto|].
  destruct (find_ordered (p_ppid p)) as ([q|] & -> & Ho); [lia|..].
  - apply (IH sess (p_ppid p)); [by apply Ho|lia].
  - destruct f; cbn; by eauto.
Qed.

(** A session id may be any number, positive or not, so [find] has to be
    total on all of them. *)
Lemma find_total pid : is_Some (find live t pid).
Proof using Hlive Hwf.
  unfold find, find_with. destruct (t !! pid), (is_alive live pid) as [l|]; try by eauto.
  destruct (_ && _); [|by eauto]. destruct (pgid_of_total (p_ppid (with_pid pid l))) as [g ->].
  by eauto.
Qed.

Lemma ctty_of_total pid : is_Some (ctty_of live t pid).
Proof using Hlive Hwf.
  unfold ctty_of. destruct (Z.leb_spec pid 0); [by eauto|].
  destruct (sid_of_total pid) as [s ->]. destruct (find_total s) as [l ->].
  destruct l as [l|]; [destruct (0 <=? p_ctty l); [by eauto|]|];
    (destruct (find_ordered pid) as ([p|] & -> & Ho); [lia|..];
      [apply (ctty_walk_total _ _ pid); [by apply Ho|unfold fuel_of; lia]|by eauto]).
Qed.
End total.

(** * Every call returns and keeps the order *)

Lemma claim_ordered pid q p : ordered pid p -> claim_pid q p = p.
Proof. intros (_ & _ & H). unfold claim_pid. by destruct (Z.eqb_spec (p_pid p) 0); [lia|]. Qed.

(** The calls the dispatcher, the trap loop and [main] make. *)
Inductive call :=
| c_event (e : ProcEvent)
| c_upsert (p : ProcInfo)
| c_set_comm (pid : Z) (comm : str)
| c_set_sid (pid : Z)
| c_set_ctty (pid n : Z)
| c_clear_ctty (pid : Z)
| c_set_pgid (pid pgid : Z)
| c_set_groups (pid : Z) (g : list Z).

Definition apply_call (live : option LiveSource) (t : Table) (c : call) : option Table :=
  match c with
  | c_event e => apply_event live t e
  | c_upsert p => Some (upsert t p)
  | c_set_comm pid comm => Some (set_comm t pid comm)
  | c_set_sid pid => Some (set_sid t pid)
  | c_set_ctty pid n => set_ctty live t pid n
  | c_clear_ctty pid => clear_ctty live t pid
  | c_set_pgid pid pgid => Some (set_pgid t pid pgid)
  | c_set_groups pid g => Some (set_groups t pid g)
  end.

Fixpoint run (live : option LiveSource) (t : Table) (cs : list call) : option Table :=
  match cs with
  | [] => Some t
  | c :: cs' => match apply_call live t c with
                | Some t' => run live t' cs'
                | None => None
                end
  end.

(** A record that can be filed under its own [pid] field. *)
Definition sound (pid : Z) (p : ProcInfo) : Prop := ordered pid p /\ ordered (p_pid p) p.

Definition sound_table (t : Table) : Prop := forall pid p, t !! pid = Some p -> sound pid p.

(** Process numbers are positive, and a parent's is smaller. *)
Definition event_ok (t : Table) (e : ProcEvent) : Prop :=
  match e with
  | ev_spawn pid ppid => 0 < ppid < pid
  | ev_exec pid _ _ => 0 < pid
  | ev_reparent pid ppid => 0 <= ppid < pid /\ (forall p, t !! pid = Some p -> ppid < p_pid p)
  | _ => True
  end.

Definition call_ok (t : Table) (c : call) : Prop :=
  match c with
  | c_event e => event_ok t e
  | c_upsert p => ordered (p_pid p) p
  | c_set_comm pid _ | c_set_sid pid | c_set_ctty pid _ | c_clear_ctty pid
  | c_set_pgid pid _ | c_set_groups pid _ => 0 < pid
  end.

Lemma sid_of_pos live t pid s :
  live_ok live -> wf t -> 0 < pid -> sid_of live t pid = Some s -> 0 < s.
Proof.
  intros Hlive Hw. unfold sid_of. generalize (fuel_of pid) as f. intros f. revert pid.
  induction f as [|f IH]; intros pid Hp; cbn [sid_fuel]; [done|].
  destruct (Z.leb_spec pid 0); [lia|].
  destruct (find_ordered live Hlive t Hw pid Hp) as ([p|] & -> & Ho); [|by intros [= <-]].
  destruct (Ho p eq_refl) as (H1 & H2 & H3).
  destruct (Z.eqb_spec (p_sid p) 0); cbn [negb]; [|intros [= <-]; lia].
  destruct (Z.eqb_spec (p_ppid p) 0); cbn [negb andb]; [by intros [= <-]|].
  destruct (negb _); [apply IH; lia|by intros [= <-]].
Qed.

Lemma live_ok_none : live_ok None.
Proof. done. Qed.

Lemma sound_wf t : sound_table t -> wf t.
Proof. intros Hs pid p E. apply (Hs pid p E). Qed.

Lemma sound_insert t pid p : sound_table t -> sound pid p -> sound_table (<[pid := p]> t).
Proof.
  intros Hw Ho q r. rewrite lookup_insert_Some. intros [[<- <-]|[_ E]]; [done|by apply Hw].
Qed.

Lemma sound_alter t f pid :
  sound_table t -> (forall p, t !! pid = Some p -> sound pid p -> sound pid (f p)) ->
  sound_table (alter f pid t).
Proof.
  intros Hw Hf q r. rewrite lookup_alter_Some.
  intros [(<- & p & E & ->)|[_ E]]; [by apply Hf, Hw|by apply Hw].
Qed.

Lemma slot_sound t pid : sound_table t -> 0 < pid -> sound pid (slot t pid).
Proof.
  intros Hw Hp. unfold slot. destruct (t !! pid) as [p|] eqn:E; [by apply Hw in E|].
  split; split_and!; cbn; lia.
Qed.

(** Assigning fields the order does not mention. *)
Lemma sound_same pid p q :
  p_pid q = p_pid p -> p_ppid q = p_ppid p -> 0 <= p_sid q -> sound pid p -> sound pid q.
Proof. unfold sound, ordered. intros -> -> ?. tauto. Qed.

Lemma sound_sid pid p : sound pid p -> 0 <= p_sid p.
Proof. intros [(_ & ? & _) _]. done. Qed.

Lemma upsert_sound t p : sound_table t -> ordered (p_pid p) p -> sound_table (upsert t p).
Proof.
  intros Hw Ho. unfold upsert. apply sound_insert; [done|].
  pose proof (slot_sound t (p_pid p) Hw) as Hs. destruct Ho as (H1 & H2 & H3).
  pose proof (sound_sid _ _ (Hs ltac:(lia))) as H4.
  destruct (bool_decide _), (p_groups_set _), (Z.eqb_spec (p_sid p) 0);
    (split; split_and!; cbn; lia).
Qed.

Lemma clear_loop_sound t leader l :
  sound_table t -> (forall x, x ∈ l -> t !! x.1 = Some x.2) ->
  exists t', clear_loop None t leader l = Some t' /\ sound_table t'.
Proof.
  intros Hw. induction l as [|[who p] l IH]; intros Hl; cbn [clear_loop].
  - exists ∅. split; [done|]. by intros q r.
  - destruct (sid_of_total None live_ok_none t (sound_wf t Hw) who) as [s ->].
    destruct IH as (t' & -> & Ht'); [intros x Hx; apply Hl; by right|].
    eexists. split; [done|]. apply sound_insert; [done|].
    pose proof (Hw who p (Hl (who, p) ltac:(by left))) as Hp.
    destruct (s =? leader); [|done]. by apply (sound_same who p), Hp; [done|done|apply (sound_sid who)].
Qed.

Lemma spawn_info_ordered o pid ppid : 0 < ppid < pid -> ordered pid (spawn_info o pid ppid).
Proof. intros H. destruct o; split_and!; cbn; lia. Qed.

Lemma find_none t pid : find None t pid = Some (t !! pid).
Proof. unfold find, find_with. cbn. by destruct (t !! pid). Qed.

Lemma event_sound t e :
  sound_table t -> event_ok t e -> exists t', apply_event None t e = Some t' /\ sound_table t'.
Proof.
  intros Hw He.
  destruct e as [pid ppid|pid comm cmdline|tid owner|pid|pid|pid ppid|pid]; cbn [apply_event event_ok] in *;
    rewrite ?find_none.
  - eexists. split; [done|]. apply upsert_sound; [done|].
    pose proof (spawn_info_ordered (t !! ppid) pid ppid He). by destruct (t !! ppid).
  - destruct (t !! pid) as [p|] eqn:E; [|by eauto]. eexists. split; [done|].
    apply Hw in E as [_ E]. apply upsert_sound; [done|]. by destruct (bool_decide (comm = [])).
  - eexists. split; [done|]. unfold add_thread. destruct (t !! owner) as [p|] eqn:E; [|done].
    destruct (tid =? owner); [done|]. destruct (bool_decide _); [done|].
    apply sound_insert; [done|]. by apply Hw in E.
  - eexists. split; [done|]. by apply sound_alter.
  - eexists. split; [done|]. by apply sound_alter.
  - eexists. split; [done|]. apply sound_alter; [done|]. intros p E [(H1 & H2 & H3) _].
    destruct He as [He1 He2]. specialize (He2 p E). split; split_and!; cbn; lia.
  - eexists. split; [done|].
    assert (Hd : sound_table (drop_thread t pid)).
    { intros q r. unfold drop_thread. rewrite lookup_fmap_Some. intros (p & <- & E). by apply Hw in E. }
    unfold remove. destruct (pid =? 1); [done|]. intros q r. rewrite lookup_delete_Some.
    intros [_ E]. by apply Hd.
Qed.

Lemma call_sound t c :
  sound_table t -> call_ok t c -> exists t', apply_call None t c = Some t' /\ sound_table t'.
Proof.
  intros Hw Hc. destruct c as [e|p|pid comm|pid|pid n|pid|pid g|pid g]; cbn [apply_call call_ok] in *.
  1: by apply event_sound.
  1: eexists; split; [done|by apply upsert_sound].
  all: pose proof (slot_sound t pid Hw Hc) as Hs; pose proof (sound_sid _ _ Hs) as Hsid.
  all: try (eexists; (split; [done|])).
  - destruct Hs as [(H1 & H2 & H3) _]. apply sound_insert; [done|]. split; split_and!; cbn; lia.
  - unfold set_sid. rewrite (claim_ordered pid) by apply Hs. apply sound_insert; [done|].
    eapply sound_same, Hs; [done|done|cbn; lia].
  - unfold set_ctty. destruct (sid_of_total None live_ok_none t (sound_wf t Hw) pid) as [s Es].
    rewrite Es. apply sid_of_pos in Es; [|done|by apply sound_wf|done]. eexists. split; [done|].
    assert (Ht : sound_table (<[s := with_ctty n (claim_pid s (slot t s))]> t)).
    { pose proof (slot_sound t s Hw Es) as H. rewrite (claim_ordered s) by apply H.
      apply sound_insert; [done|]. eapply sound_same, H; [done|done|by apply (sound_sid s)]. }
    pose proof (slot_sound _ pid Ht Hc) as H. rewrite (claim_ordered pid) by apply H.
    apply sound_insert; [done|]. eapply sound_same, H; [done|done|by apply (sound_sid pid)].
  - unfold clear_ctty. destruct (sid_of_total None live_ok_none t (sound_wf t Hw) pid) as [s ->].
    apply clear_loop_sound; [done|]. intros [q r] Hx. by apply elem_of_map_to_list in Hx.
  - unfold set_pgid. cbv zeta. rewrite (claim_ordered pid) by apply Hs. apply sound_insert; [done|].
    by eapply sound_same, Hs.
  - unfold set_groups. rewrite (claim_ordered pid) by apply Hs. apply sound_insert; [done|].
    by eapply sound_same, Hs.
Qed.

Fixpoint calls_ok (t : Table) (cs : list call) : Prop :=
  match cs with
  | [] => True
  | c :: cs' => call_ok t c /\ (forall t', apply_call None t c = Some t' -> calls_ok t' cs')
  end.

Lemma run_sound cs : forall t,
  sound_table t -> calls_ok t cs -> exists t', run None t cs = Some t' /\ sound_table t'.
Proof.
  induction cs as [|c cs IH]; intros t Ht Hc; cbn [run]; [by eauto|].
  destruct Hc as [Hc Hcs]. destruct (call_sound t c Ht Hc) as (t1 & E & Ht1). rewrite E.
  apply IH; [done|by apply Hcs].
Qed.

Lemma initial_sound : sound_table initial.
Proof.
  intros pid p. unfold initial. rewrite lookup_singleton_Some. intros [<- <-].
  split; split_and!; cbn; unfold kInheritedPgid; lia.
Qed.

(** ** Without a live source *)

Section recorded.
Context (t : Table) (Ht : wf t).

Lemma pgid_of_none pid :
  pgid_of None t pid =
  if pid <=? 0 then Some pid
  else match t !! pid with
       | None => Some pid
       | Some p =>
           if negb (p_pgid p =? 0) then Some (p_pgid p)
           else if negb (p_ppid p =? 0) && negb (p_ppid p =? p_pid p)
           then pgid_of None t (p_ppid p) else Some (p_pid p)
       end.
Proof using Ht. rewrite (pgid_of_eq None live_ok_none t Ht), find_none. done. Qed.

Lemma sid_of_none pid :
  sid_of None t pid =
  if pid <=? 0 then Some pid
  else match t !! pid with
       | None => Some pid
       | Some p =>
           if negb (p_sid p =? 0) then Some (p_sid p)
           else if negb (p_ppid p =? 0) && negb (p_ppid p =? p_pid p)
           then sid_of None t (p_ppid p) else Some (p_pid p)
       end.
Proof using Ht. rewrite (sid_of_eq None live_ok_none t Ht), find_none. done. Qed.
End recorded.

(** The recursions of the process table terminate and are what the
    source writes: after any sequence of process events and dispatcher calls
    in which a parent has a smaller number than its child, every call has
    returned, and group, session and terminal of every pid are answered by
    the recursion along parents, without a bound. *)
Theorem process_table_answers cs :
  calls_ok initial cs ->
  exists t, run None initial cs = Some t /\
    forall pid, is_Some (ctty_of None t pid) /\
      exists g s, pgid_of None t pid = Some g /\ sid_of None t pid = Some s /\
      match t !! pid with
      | None => g = pid /\ s = pid
      | Some p =>
          (p_pgid p <> 0 -> g = p_pgid p) /\ (p_sid p <> 0 -> s = p_sid p) /\
          (p_pgid p = 0 -> p_ppid p <> 0 -> p_ppid p <> p_pid p ->
             pgid_of None t (p_ppid p) = Some g) /\
          (p_sid p = 0 -> p_ppid p <> 0 -> p_ppid p <> p_pid p ->
             sid_of None t (p_ppid p) = Some s)
      end.
Proof.
  intros Hcs. destruct (run_sound cs initial initial_sound Hcs) as (t & -> & Ht%sound_wf).
  exists t. split; [done|]. intros pid. split; [by apply (ctty_of_total None live_ok_none t)|].
  destruct (pgid_of_total None live_ok_none t Ht pid) as [g Eg].
  destruct (sid_of_total None live_ok_none t Ht pid) as [s Es]. exists g, s. split_and!; [done..|].
  rewrite (pgid_of_none t Ht) in Eg. rewrite (sid_of_none t Ht) in Es.
  destruct (t !! pid) as [p|] eqn:E.
  - destruct (Ht pid p E) as (Hp & _). destruct (Z.leb_spec pid 0); [lia|].
    destruct (Z.eqb_spec (p_pgid p) 0), (Z.eqb_spec (p_sid p) 0), (Z.eqb_spec (p_ppid p) 0),
      (Z.eqb_spec (p_ppid p) (p_pid p)); cbn [negb andb] in *; naive_solver.
  - destruct (pid <=? 0); naive_solver.
Qed.

(** ** Forking *)

(** A number nothing refers to. *)
Definition unused (t : Table) (pid : Z) : Prop :=
  t !! pid = None /\ forall q p, t !! q = Some p ->
    p_ppid p <> pid /\ p_pid p <> pid /\ p_sid p <> pid.

Section frame.
Context (t : Table) (pid : Z) (x : ProcInfo) (Hfresh : unused t pid).

Lemma pgid_frame f : forall q,
  q <> pid -> pgid_fuel None f (<[pid := x]> t) q = pgid_fuel None f t q.
Proof using Hfresh.
  induction f as [|f IH]; intros q Hq; [done|]. rewrite !pgid_fuel_S.
  destruct (q <=? 0); [done|]. unfold find_with. cbn [is_alive]. rewrite lookup_insert_ne by done.
  destruct (t !! q) as [p|] eqn:E; [|done]. destruct (negb (p_pgid p =? 0)); [done|].
  destruct (_ && _); [|done]. apply IH. by apply Hfresh in E as [? _].
Qed.

Lemma sid_frame f : forall q,
  q <> pid -> sid_fuel None f (<[pid := x]> t) q = sid_fuel None f t q.
Proof using Hfresh.
  induction f as [|f IH]; intros q Hq; cbn [sid_fuel]; [done|].
  destruct (q <=? 0); [done|]. rewrite !find_none, lookup_insert_ne by done.
  destruct (t !! q) as [p|] eqn:E; [|done]. destruct (negb (p_sid p =? 0)); [done|].
  destruct (_ && _); [|done]. apply IH. by apply Hfresh in E as [? _].
Qed.

Lemma ctty_walk_frame f : forall sess q p,
  t !! q = Some p ->
  ctty_walk None f (<[pid := x]> t) sess (Some p) = ctty_walk None f t sess (Some p).
Proof using Hfresh.
  induction f as [|f IH]; intros sess q p E; cbn [ctty_walk]; [done|].
  destruct (proj2 Hfresh q p E) as (H1 & H2 & _).
  unfold sid_of. rewrite (sid_frame _ (p_pid p)) by done.
  destruct (sid_fuel None (fuel_of (p_pid p)) t (p_pid p)); [|done].
  destruct (negb _); [done|]. destruct (0 <=? p_ctty p); [done|]. destruct (_ || _); [done|].
  rewrite !find_none, lookup_insert_ne by done.
  destruct (t !! p_ppid p) eqn:E'; [by eapply IH|]. by destruct f.
Qed.
End frame.

Lemma sid_unused t pid f : forall q s,
  unused t pid -> q <> pid -> sid_fuel None f t q = Some s -> s <> pid.
Proof.
  induction f as [|f IH]; intros q s Hu Hq; cbn [sid_fuel]; [done|].
  destruct (q <=? 0); [naive_solver|]. rewrite find_none.
  destruct (t !! q) as [p|] eqn:E; [|naive_solver].
  destruct (proj2 Hu q p E) as (H1 & H2 & H3).
  destruct (negb (p_sid p =? 0)); [naive_solver|]. destruct (_ && _); [by apply IH|naive_solver].
Qed.

(** More fuel does not change a walk. *)
Lemma ctty_walk_enough t f : forall g sess pid p,
  wf t -> ordered pid p -> (Z.to_nat pid <= f)%nat -> (f <= g)%nat ->
  ctty_walk None g t sess (Some p) = ctty_walk None f t sess (Some p).
Proof.
  induction f as [|f IH]; intros [|g] sess pid p Hw (H1 & H2 & H3) Hf Hg; [lia..|]. cbn [ctty_walk].
  destruct (sid_of None t (p_pid p)); [|done]. destruct (negb _); [done|].
  destruct (0 <=? p_ctty p); [done|].
  destruct (Z.eqb_spec (p_ppid p) 0); cbn [orb]; [done|].
  destruct (p_ppid p =? p_pid p); [done|]. rewrite find_none.
  destruct (t !! p_ppid p) as [q|] eqn:E; [|by destruct f, g].
  apply (IH _ _ (p_ppid p)); [done|by apply Hw|lia|lia].
Qed.

Definition groups_default (o : option ProcInfo) : list Z :=
  match o with
  | Some p => if p_groups_set p then p_groups p else [0]
  | None => [0]
  end.

Lemma groups_of_none t pid : groups_of None t pid = Some (groups_default (t !! pid)).
Proof. unfold groups_of. rewrite find_none. by destruct (t !! pid). Qed.

Lemma spawn_upsert t pid ppid pp :
  t !! pid = None ->
  exists c, upsert t (spawn_info (Some pp) pid ppid) = <[pid := c]> t /\
    p_pid c = pid /\ p_ppid c = ppid /\ p_pgid c = 0 /\ p_sid c = 0 /\ p_ctty c = -1 /\
    groups_default (Some c) = groups_default (Some pp).
Proof.
  intros E. unfold upsert, slot. cbn [spawn_info p_pid with_state with_groups with_sizes with_image
    with_ppid with_pid]. rewrite E. eexists. split; [done|].
  cbn. destruct (p_groups_set pp) eqn:Eg; cbn; rewrite ?Eg; by split_and!.
Qed.

(** The terminal of a child that has none of its own. *)
Lemma ctty_child t pid ppid pp c :
  wf t -> unused t pid -> t !! ppid = Some pp -> ppid < pid ->
  p_pid c = pid -> p_ppid c = ppid -> p_pgid c = 0 -> p_sid c = 0 -> p_ctty c = -1 ->
  wf (<[pid := c]> t) -> sid_of None (<[pid := c]> t) pid = sid_of None t ppid ->
  ctty_of None (<[pid := c]> t) pid = ctty_of None t ppid.
Proof.
  intros Hw Hu Hpp Hlt E1 E2 E3 E4 E5 Hw' Es. destruct (Hw ppid pp Hpp) as (Ho & _).
  unfold ctty_of. destruct (Z.leb_spec pid 0); [lia|]. destruct (Z.leb_spec ppid 0); [lia|].
  rewrite Es. destruct (sid_of None t ppid) as [s|] eqn:E; [|done].
  assert (Hs : s <> pid) by (eapply sid_unused; [done| |exact E]; lia).
  rewrite !find_none, lookup_insert_ne by done.
  destruct (match t !! s with Some l => 0 <=? p_ctty l | None => false end); [done|].
  rewrite lookup_insert_eq, Hpp. unfold fuel_of at 1. cbn [ctty_walk].
  rewrite E1, Es, E5, E2. rewrite Z.eqb_refl. cbn [negb Z.leb Z.compare].
  destruct (Z.eqb_spec ppid 0); [lia|]. destruct (Z.eqb_spec ppid pid); [lia|]. cbn [orb].
  rewrite find_none, lookup_insert_ne, Hpp by lia.
  rewrite (ctty_walk_frame t pid c Hu _ _ ppid) by done.
  assert (H1 : forall f, (Z.to_nat ppid <= f)%nat ->
    ctty_walk None f t s (Some pp) = ctty_walk None (Z.to_nat ppid) t s (Some pp)).
  { intros f Hf. apply (ctty_walk_enough t _ _ _ ppid); [done|by apply Hw|lia|lia]. }
  rewrite (H1 (Z.to_nat pid)) by lia. rewrite (H1 (fuel_of ppid)) by (unfold fuel_of; lia). done.
Qed.

(** A forked child inherits its parent's job control: after the spawn
    event of a new pid, the child has the parent's process group, session,
    controlling terminal and supplementary groups, and no other process
    changed group or session. *)
Theorem spawn_inherits t pid ppid pp :
  wf t -> unused t pid -> t !! ppid = Some pp -> ppid < pid ->
  exists t', apply_event None t (ev_spawn pid ppid) = Some t' /\
    pgid_of None t' pid = pgid_of None t ppid /\
    sid_of None t' pid = sid_of None t ppid /\
    ctty_of None t' pid = ctty_of None t ppid /\
    groups_of None t' pid = groups_of None t ppid /\
    (forall q, q <> pid -> pgid_of None t' q = pgid_of None t q /\ sid_of None t' q = sid_of None t q).
Proof.
  intros Hw Hu Hpp Hlt. cbn [apply_event]. rewrite find_none, Hpp. eexists. split; [done|].
  destruct (Hw ppid pp Hpp) as (Ho & _).
  destruct (spawn_upsert t pid ppid pp (proj1 Hu)) as (c & -> & E1 & E2 & E3 & E4 & E5 & E6).
  assert (Hw' : wf (<[pid := c]> t)).
  { intros q r. rewrite lookup_insert_Some. intros [[<- <-]|[_ E]]; [|by apply Hw].
    split_and!; rewrite ?E1, ?E2, ?E4; lia. }
  assert (Hfp : forall q, q <> pid -> pgid_of None (<[pid := c]> t) q = pgid_of None t q).
  { intros q Hq. by apply pgid_frame. }
  assert (Hfs : forall q, q <> pid -> sid_of None (<[pid := c]> t) q = sid_of None t q).
  { intros q Hq. by apply sid_frame. }
  assert (Es : sid_of None (<[pid := c]> t) pid = sid_of None t ppid).
  { rewrite (sid_of_none _ Hw'), lookup_insert_eq, E4, E2, E1.
    destruct (Z.leb_spec pid 0), (Z.eqb_spec ppid 0), (Z.eqb_spec ppid pid); try lia.
    cbn [negb andb]. by rewrite Z.eqb_refl, Hfs. }
  split_and!; [|done|by eapply ctty_child| |by intros q Hq; rewrite Hfp, Hfs].
  - rewrite (pgid_of_none _ Hw'), lookup_insert_eq, E3, E2, E1.
    destruct (Z.leb_spec pid 0), (Z.eqb_spec ppid 0), (Z.eqb_spec ppid pid); try lia.
    cbn [negb andb]. by rewrite Z.eqb_refl, Hfp.
  - by rewrite !groups_of_none, lookup_insert_eq, Hpp, E6.
Qed.

(** ** What a fork does not record *)

Definition two_children : list call :=
  [c_event (ev_spawn 2 1); c_set_pgid 2 2; c_event (ev_spawn 3 2)].

(** A child's group and session are looked up through its parent and not
    recorded at fork, so they do not survive the parent: process 3, forked
    in group 2, leaves that group when its parent 2 exits and it is handed
    to init, and group 2 is then empty, so a signal to it is lost.  In the
    same way a child changes session when its parent calls setsid.
    POSIX keeps both until the process itself changes them. *)
Theorem fork_does_not_record_group :
  option_map (fun t => (pgid_of None t 3, members_of None t 2)) (run None initial two_children)
  = Some (Some 2, Some [2; 3]) /\
  option_map (fun t => (pgid_of None t 3, members_of None t 2))
    (run None initial (two_children ++ [c_event (ev_reparent 3 1); c_event (ev_reap 2)]))
  = Some (Some kInheritedPgid, Some []) /\
  option_map (fun t => sid_of None t 3)
    (run None initial [c_event (ev_spawn 2 1); c_event (ev_spawn 3 2); c_set_sid 2])
  = Some (Some 2).
Proof. split_and!; vm_compute; reflexivity. Qed.

(** Seeding the controlling terminal of pid 1, as [main] does when it is
    started on a terminal, files a record under the stand-in session number:
    the process list then contains a process 2147418112 that was never
    created. *)
Theorem tty_seed_lists_phantom (n : N) :
  exists t, set_ctty None initial 1 (Z.of_N n) = Some t /\ pids None t = [1; kInheritedPgid] /\
    pids None initial = [1] /\ ctty_of None t 1 = Some (Z.of_N n).
Proof.
  eexists. split; [vm_compute; reflexivity|]. split_and!; [vm_compute; reflexivity..|].
  by destruct n; vm_compute.
Qed.

(** ** Witnesses *)

Lemma process_table_answers_witness :
  exists t, run None initial [c_event (ev_spawn 2 1); c_set_sid 2; c_event (ev_reparent 2 1)] = Some t /\
    is_Some (ctty_of None t 2).
Proof.
  destruct (process_table_answers [c_event (ev_spawn 2 1); c_set_sid 2; c_event (ev_reparent 2 1)])
    as (t & E & H).
  - split; [cbn; lia|]. intros t1 [= <-]. split; [cbn; lia|]. intros t2 [= <-]. split; [|done].
    split; [lia|]. intros p. vm_compute. by intros [= <-].
  - exists t. split; [exact E|]. apply (H 2).
Defined.

Lemma spawn_inherits_witness :
  exists t', apply_event None initial (ev_spawn 2 1) = Some t' /\
    pgid_of None t' 2 = Some kInheritedPgid.
Proof.
  destruct (spawn_inherits initial 2 1 (with_job kInheritedPgid kInheritedPgid default_info))
    as (t' & E & H & _).
  - exact (sound_wf _ initial_sound).
  - split; [reflexivity|]. intros q p. unfold initial. rewrite lookup_singleton_Some.
    intros [<- <-]. cbn. unfold kInheritedPgid. lia.
  - reflexivity.
  - lia.
  - exists t'. split; [exact E|]. rewrite H. reflexivity.
Defined.

End ProcessTable.
