(* ===== verification/JobControl.v ===== *)
(** Job control: the dispatcher's process-group, session, terminal and
    supplementary-group handlers ([include/linuxity/abi/syscall.hpp]) over
    the process table, for backends that do not model groups themselves.

    A handler takes the state and the registers and returns the new state
    and the fate, or [None] when a recursion of the process table did not
    return.  The guest path of a descriptor (the file namespace's), the link
    the host shows for it and the caller's identity are arguments. *)

From S2P Require Import Prelude CText Sysno Abi Dispatch GuestMem ProcessTable.
Import Abi Dispatch Access ProcessTable.

Module JobControl.

(** ** Terminal names ([vfs/pty_names.hpp], [pty_slave_of_fd]) *)

Definition pts_prefix : str := lit "/dev/pts/".

Definition is_digit (c : ascii) : bool :=
  bool_decide (48 <= Z.of_N (N_of_ascii c) <= 57).

Definition digit_of (c : ascii) : Z := Z.of_N (N_of_ascii c) - 48.

(** The text after [/dev/pts/] when it is a decimal number. *)
Definition pts_digits (p : str) : option str :=
  if bool_decide (take (length pts_prefix) p = pts_prefix) then
    let n := drop (length pts_prefix) p in
    if bool_decide (n = []) || negb (forallb is_digit n) then None else Some n
  else None.

(** [int v = v * 10 + (c - '0')]. *)
Definition pty_slave_number (host_path : str) : Z :=
  match pts_digits host_path with
  | None => -1
  | Some n => fold_left (fun v c => i32 (v * 10 + digit_of c)) n 0
  end.

(** [atoi] of a string of digits: [strtol] saturates, the cast truncates. *)
Definition atoi_digits (n : str) : Z :=
  i32 (Z.min (fold_left (fun v c => v * 10 + digit_of c) n 0) (2 ^ 63 - 1)).

Section handlers.
Context {M : Type} `{GuestMem M}.
Context (live : option LiveSource).
(** The caller, the guest path recorded for a descriptor (empty when there
    is none), and the target of the tracee's [/proc/<tid>/fd/<fd>]. *)
Context (ids : TaskIdentity) (path_of_fd : Z -> str) (fd_link : Z -> option str).

Definition pty_slave_of_fd (fd : Z) : Z :=
  match pts_digits (path_of_fd fd) with
  | None => -1
  | Some n => atoi_digits n
  end.

Definition host_fd_slave_no (fd : Z) : Z :=
  match fd_link fd with
  | None => -1
  | Some tgt => if bool_decide (tgt = []) then -1
                else pty_slave_number (CText.c_str (take 127 tgt))
  end.

(** The state: [procs_], [fg_pgrp_] and guest memory. *)
Record World := { procs : Table; fg_pgrp : gmap Z Z; mem : M }.

Definition with_procs (w : World) (t : Table) : World :=
  {| procs := t; fg_pgrp := fg_pgrp w; mem := mem w |}.
Definition with_fg (w : World) (f : gmap Z Z) : World :=
  {| procs := procs w; fg_pgrp := f; mem := mem w |}.
Definition with_mem (w : World) (m : M) : World :=
  {| procs := procs w; fg_pgrp := fg_pgrp w; mem := m |}.

Definition flat_pid_exists (w : World) (a : Z) : option bool :=
  if a =? 0 then Some true
  else
    let p := i32 a in
    if p <? 0 then Some false
    else if p =? pid ids then Some true
    else has live (procs w) p.

Definition flat_pgrp (w : World) : option Z := pgid_of live (procs w) (pid ids).

Definition do_kill (w : World) (r : Regs) : option Fate :=
  let p := i32 (arg r 0) in
  let s := i32 (arg r 1) in
  if (p =? 0) || (p <? -1) then
    g ← (if p =? 0 then flat_pgrp w else Some (i32 (- p)));
    m ← members_of live (procs w) g;
    Some (match m with
          | [] => error esrch
          | _ => raise_group p s m
          end)
  else Some (raise_at p s).

Definition do_getpgrp (w : World) : option Fate := g ← flat_pgrp w; Some (value g).

Definition do_getpgid (w : World) (r : Regs) : option Fate :=
  e ← flat_pid_exists w (arg r 0);
  if negb e then Some (error esrch)
  else
    g ← (if arg r 0 =? 0 then flat_pgrp w else pgid_of live (procs w) (i32 (arg r 0)));
    Some (value g).

Definition do_getsid (w : World) (r : Regs) : option Fate :=
  e ← flat_pid_exists w (arg r 0);
  if negb e then Some (error esrch)
  else
    s ← sid_of live (procs w) (if arg r 0 =? 0 then pid ids else i32 (arg r 0));
    Some (value s).

Definition do_setpgid (w : World) (r : Regs) : option (World * Fate) :=
  e ← flat_pid_exists w (arg r 0);
  if negb e then Some (w, error esrch)
  else
    let who := i32 (arg r 0) in
    let target := if who =? 0 then pid ids else who in
    let grp := i32 (arg r 1) in
    Some (with_procs w (set_pgid (procs w) target (if grp =? 0 then target else grp)), value 0).

Definition do_setsid (w : World) : option (World * Fate) :=
  g ← pgid_of live (procs w) (pid ids);
  if g =? pid ids then Some (w, error eperm)
  else Some (with_procs w (set_sid (procs w) (pid ids)), FVirtualize (mirrored (pid ids))).

(** [std::vector<std::uint32_t>] as the bytes it occupies. *)
Fixpoint words_of (n : nat) (bs : list Z) : list Z :=
  match n with
  | O => []
  | S n' => le_val (take 4 bs) :: words_of n' (drop 4 bs)
  end.

Definition bytes_of (g : list Z) : list Z := flat_map (le_bytes 4) g.

Definition do_setgroups (w : World) (r : Regs) : World * Fate :=
  let n := u64 (arg r 0) in
  if 65536 <? n then (w, error einval)
  else
    match (if n =? 0 then Some [] else copy_in (mem w) (arg r 1) (Z.to_nat (n * 4))) with
    | None => (w, error efault)
    | Some bs => (with_procs w (set_groups (procs w) (pid ids) (words_of (Z.to_nat n) bs)), value 0)
    end.

Definition do_getgroups (w : World) (r : Regs) : option (World * Fate) :=
  g ← groups_of live (procs w) (pid ids);
  let size := i32 (arg r 0) in
  let n := Z.of_nat (length g) in
  if size <? 0 then Some (w, error einval)
  else if size =? 0 then Some (w, value n)
  else if size <? n then Some (w, error einval)
  else
    match (if bool_decide (g = []) then Some (mem w) else copy_out (mem w) (arg r 1) (bytes_of g)) with
    | None => Some (w, error efault)
    | Some m => Some (with_mem w m, value n)
    end.

Definition fd_is_our_ctty (w : World) (fd : Z) : option bool :=
  have ← ctty_of live (procs w) (pid ids);
  let n := pty_slave_of_fd fd in
  Some (if 0 <=? n then have =? n else (0 <=? have) && (host_fd_slave_no fd =? have)).

Definition ctty_refusal (r : Regs) : Fate :=
  let fd := i32 (arg r 0) in
  if (0 <=? pty_slave_of_fd fd) || (0 <=? host_fd_slave_no fd) then forward else error enotty.

Definition kTIOCSCTTY : Z := 0x540E.
Definition kTIOCNOTTY : Z := 0x5422.
Definition kTIOCGPGRP : Z := 0x540F.
Definition kTIOCSPGRP : Z := 0x5410.
Definition kTIOCGSID : Z := 0x5429.
Definition kTCGETS : Z := 0x5401.
Definition kTCSETS : Z := 0x5402.
Definition kTCSETSW : Z := 0x5403.
Definition kTCSETSF : Z := 0x5404.
Definition kTCGETS2 : Z := 0x802c542a.
Definition kTCSETS2 : Z := 0x402c542b.
Definition kTCSETSW2 : Z := 0x402c542c.
Definition kTCSETSF2 : Z := 0x402c542d.

(** The classic request for a termios2 one, or 0. *)
Definition classic (request : Z) : Z :=
  if request =? kTCGETS2 then kTCGETS
  else if request =? kTCSETS2 then kTCSETS
  else if request =? kTCSETSW2 then kTCSETSW
  else if request =? kTCSETSF2 then kTCSETSF
  else 0.

Definition ioctl_sctty (w : World) (r : Regs) : option (World * Fate) :=
  let fd := i32 (arg r 0) in
  let n := pty_slave_of_fd fd in
  let n := if n <? 0 then host_fd_slave_no fd else n in
  if n <? 0 then Some (w, error enotty)
  else
    let me := pid ids in
    s ← sid_of live (procs w) me;
    if negb (s =? me) then Some (w, error eperm)
    else
      have ← ctty_of live (procs w) me;
      if (0 <=? have) && negb (have =? n) && negb (arg r 2 =? 1) then Some (w, error eperm)
      else
        t ← set_ctty live (procs w) me n;
        Some (with_fg (with_procs w t) (delete n (fg_pgrp w)), FVirtualize (mirrored 0)).

Definition ioctl_notty (w : World) (r : Regs) : option (World * Fate) :=
  have ← ctty_of live (procs w) (pid ids);
  if have <? 0 then Some (w, ctty_refusal r)
  else
    t ← clear_ctty live (procs w) (pid ids);
    Some (with_procs w t, FVirtualize (mirrored 0)).

Definition ioctl_gpgrp (w : World) (r : Regs) : option (World * Fate) :=
  ours ← fd_is_our_ctty w (i32 (arg r 0));
  if negb ours then Some (w, ctty_refusal r)
  else
    tty ← ctty_of live (procs w) (pid ids);
    fg ← match fg_pgrp w !! tty with
         | Some g => Some g
         | None => flat_pgrp w
         end;
    match put_u32 (mem w) (arg r 2) (u32 fg) with
    | None => Some (w, error efault)
    | Some m => Some (with_mem w m, value 0)
    end.

Definition ioctl_gsid (w : World) (r : Regs) : option (World * Fate) :=
  ours ← fd_is_our_ctty w (i32 (arg r 0));
  if negb ours then Some (w, ctty_refusal r)
  else
    s ← sid_of live (procs w) (pid ids);
    match put_u32 (mem w) (arg r 2) (u32 s) with
    | None => Some (w, error efault)
    | Some m => Some (with_mem w m, value 0)
    end.

Definition ioctl_spgrp (w : World) (r : Regs) : option (World * Fate) :=
  ours ← fd_is_our_ctty w (i32 (arg r 0));
  if negb ours then Some (w, ctty_refusal r)
  else
    let want := get_u32 (mem w) (arg r 2) in
    tty ← ctty_of live (procs w) (pid ids);
    Some (with_fg w (if want =? u32 kInheritedPgid then delete tty (fg_pgrp w)
                     else if negb (want =? 0) then <[tty := i32 want]> (fg_pgrp w)
                     else fg_pgrp w), value 0).

Definition do_ioctl (w : World) (r : Regs) : option (World * Fate) :=
  let request := Z.land (arg r 1) 0xffffffff in
  let c := classic request in
  if negb (c =? 0) then
    Some (w, FArgRewrite {| rw_arg := 1; rw_to := c;
                            convert := if request =? kTCGETS2 then termios_to_termios2 else convert_none;
                            rw_buf := arg r 2 |})
  else if request =? kTIOCSCTTY then ioctl_sctty w r
  else if request =? kTIOCNOTTY then ioctl_notty w r
  else if request =? kTIOCGPGRP then ioctl_gpgrp w r
  else if request =? kTIOCGSID then ioctl_gsid w r
  else if request =? kTIOCSPGRP then ioctl_spgrp w r
  else Some (w, forward).

(** The terminal part of [note_opened_fd]: a session leader without a
    terminal that opens one without O_NOCTTY takes it. *)
Definition note_opened_tty (w : World) (fd : Z) (opened : str) (flags : Z) : option World :=
  if bool_decide (take (length pts_prefix) opened = pts_prefix)
     && (Z.land flags (open_bits noctty) =? 0) then
    let me := pid ids in
    s ← sid_of live (procs w) me;
    have ← ctty_of live (procs w) me;
    if (s =? me) && (have <? 0) then
      let n := pty_slave_of_fd fd in
      if 0 <=? n then t ← set_ctty live (procs w) me n; Some (with_procs w t) else Some w
    else Some w
  else Some w.

End handlers.

(** * Properties

    For a backend without a live source, the one these handlers serve. *)

Section props.
Context {M : Type} `{GuestMem M}.
Implicit Types (w : World (M := M)).

(** The process an argument of [setpgid] or [getpgid] names. *)
Definition target_of (ids : TaskIdentity) (a : Z) : Z := if i32 a =? 0 then pid ids else i32 a.

Definition names_process (ids : TaskIdentity) w (a : Z) : Prop :=
  a = 0 \/ (0 <= i32 a /\ (i32 a = pid ids \/ is_Some (procs w !! i32 a))).

Lemma flat_pid_exists_spec ids w a :
  exists b, flat_pid_exists None ids w a = Some b /\ (b = true <-> names_process ids w a).
Proof.
  unfold flat_pid_exists, names_process, has. rewrite find_none.
  destruct (Z.eqb_spec a 0); [eexists; split; [done|]; tauto|].
  destruct (Z.ltb_spec (i32 a) 0); [eexists; split; [done|]; split; [done|lia]|].
  destruct (Z.eqb_spec (i32 a) (pid ids)); [eexists; split; [done|]; tauto|].
  eexists. split; [done|]. rewrite bool_decide_eq_true. naive_solver.
Qed.

Lemma names_target ids w a :
  wf (procs w) -> 0 < pid ids -> names_process ids w a ->
  0 < target_of ids a /\ (a <> 0 -> i32 a = target_of ids a).
Proof.
  intros Hw Hp Ha. unfold target_of. destruct (Z.eqb_spec (i32 a) 0) as [E|E].
  - split; [done|]. intros Ha0. destruct Ha as [Ha|(_ & [Ha|[q Ha]])]; [done|lia|].
    rewrite E in Ha. apply Hw in Ha as (? & _). lia.
  - split; [|done]. destruct Ha as [-> |(? & _)]; [by vm_compute in E|lia].
Qed.

(** A record with a group of its own answers it. *)
Lemma pgid_recorded t q p : 
  0 < q -> t !! q = Some p -> p_pgid p <> 0 -> pgid_of None t q = Some (p_pgid p).
Proof.
  intros Hq Hl Hp. unfold pgid_of, fuel_of. rewrite pgid_fuel_S. unfold find_with. cbn [is_alive].
  rewrite Hl. destruct (Z.leb_spec q 0); [lia|]. by destruct (Z.eqb_spec (p_pgid p) 0).
Qed.

Lemma sid_recorded t q p :
  0 < q -> t !! q = Some p -> p_sid p <> 0 -> sid_of None t q = Some (p_sid p).
Proof.
  intros Hq Hl Hp. unfold sid_of, fuel_of. cbn [sid_fuel]. rewrite find_none, Hl.
  destruct (Z.leb_spec q 0); [lia|]. by destruct (Z.eqb_spec (p_sid p) 0).
Qed.

(** setpgid and getpgid agree: on a pid that names no process setpgid
    answers ESRCH and changes nothing; otherwise it succeeds, getpgid of the
    same argument then reports the requested group (the target itself for
    0), and no process with a group of its own changes group. *)
Theorem setpgid_getpgid ids w r :
  wf (procs w) -> 0 < pid ids ->
  exists w' f, do_setpgid None ids w r = Some (w', f) /\
  (~ names_process ids w (arg r 0) -> w' = w /\ f = error esrch) /\
  (names_process ids w (arg r 0) ->
     let target := target_of ids (arg r 0) in
     f = value 0 /\
     (forall r', arg r' 0 = arg r 0 ->
        do_getpgid None ids w' r' =
        Some (value (if i32 (arg r 1) =? 0 then target else i32 (arg r 1)))) /\
     (forall q p, q <> target -> 0 < q -> procs w !! q = Some p -> p_pgid p <> 0 ->
        pgid_of None (procs w') q = pgid_of None (procs w) q)).
Proof.
  intros Hw Hp. unfold do_setpgid.
  destruct (flat_pid_exists_spec ids w (arg r 0)) as (b & -> & Hb). cbn [mbind option_bind].
  destruct b; cbn [negb]; eexists _, _; (split; [done|]); (split; intros Hn).
  1: by destruct Hn; apply Hb.
  2: done.
  2: by apply Hb in Hn.
  destruct (names_target ids w (arg r 0) Hw Hp Hn) as [Ht Hne].
  fold (target_of ids (arg r 0)). set (target := target_of ids (arg r 0)) in *.
  set (g := if i32 (arg r 1) =? 0 then target else i32 (arg r 1)).
  assert (Hg : g <> 0) by (unfold g; destruct (Z.eqb_spec (i32 (arg r 1)) 0); lia).
  split; [done|]. unfold set_pgid. cbv zeta. destruct (Z.eqb_spec g 0); [done|].
  split.
  - intros r' Er. unfold do_getpgid. rewrite Er.
    set (w' := with_procs w _).
    destruct (flat_pid_exists_spec ids w' (arg r 0)) as (b & -> & Hb'). cbn [mbind option_bind].
    assert (Eb : b = true).
    { apply Hb'. destruct Hn as [Hn|(Hn1 & Hn2)]; [by left|right]. split; [done|].
      destruct Hn2 as [Hn2|Hn2]; [by left|right]. cbn. apply lookup_insert_is_Some.
      destruct (decide (target = i32 (arg r 0))); [by left|by right]. }
    rewrite Eb. cbn [negb].
    assert (Hpg : pgid_of None (procs w') target = Some g).
    { unfold w'. cbn [procs with_procs]. 
      eapply eq_trans; [eapply pgid_recorded; [done|apply lookup_insert_eq|done]|done]. }
    destruct (Z.eqb_spec (arg r 0) 0) as [E|E].
    + unfold flat_pgrp. replace (pid ids) with target; [by rewrite Hpg|].
      unfold target, target_of. by rewrite E.
    + rewrite (Hne E), Hpg. done.
  - intros q p Hq Hq0 El Hpg. cbn [procs with_procs].
    rewrite (pgid_recorded _ q p); [|done|by rewrite lookup_insert_ne|done].
    by rewrite (pgid_recorded _ q p).
Qed.

(** ** Sessions *)

(** No older process is in a session named [me]. *)
Definition no_session (t : Table) (me : Z) : Prop :=
  forall q p, q < me -> t !! q = Some p -> p_sid p <> me /\ p_pid p < me.

Lemma sid_other t me f : forall q s,
  no_session t me -> wf t -> q < me -> sid_fuel None f t q = Some s -> s <> me.
Proof.
  induction f as [|f IH]; intros q s Hn Hw Hq; cbn [sid_fuel]; [done|].
  destruct (q <=? 0); [naive_solver lia|]. rewrite find_none.
  destruct (t !! q) as [p|] eqn:E; [|naive_solver lia].
  destruct (Hn q p Hq E) as [H1 H2]. destruct (Hw q p E) as (H3 & _).
  destruct (negb (p_sid p =? 0)); [naive_solver|]. destruct (_ && _); [|naive_solver lia].
  apply IH; [done|done|lia].
Qed.

(** A session leader without a terminal of its own has none. *)
Lemma leader_no_ctty t me p :
  wf t -> no_session t me -> t !! me = Some p -> p_pid p = me -> p_sid p = me -> p_ctty p = -1 ->
  ctty_of None t me = Some (-1).
Proof.
  intros Hw Hn Hp E1 E2 E3. destruct (Hw me p Hp) as (H1 & _).
  assert (Es : sid_of None t me = Some me).
  { rewrite <- E2 at 2. apply sid_recorded; [lia|done|lia]. }
  unfold ctty_of. rewrite Es, find_none, Hp, E3. destruct (Z.leb_spec me 0); [lia|].
  cbn [Z.leb Z.compare]. unfold fuel_of. cbn [ctty_walk].
  rewrite E1, Es, Z.eqb_refl, E3. cbn [negb Z.leb Z.compare].
  destruct (_ || _); [done|]. rewrite find_none.
  destruct (t !! p_ppid p) as [q|] eqn:E; [|by destruct (Z.to_nat me)].
  destruct (Z.to_nat me) eqn:Em; [lia|]. cbn [ctty_walk].
  destruct (Hn (p_ppid p) q) as [H2 H3]; [lia|done|].
  destruct (sid_of_total None live_ok_none t Hw (p_pid q)) as [s Eq]. rewrite Eq.
  destruct (Z.eqb_spec s me) as [-> |]; [|done]. exfalso.
  by apply (sid_other t me _ _ _ Hn Hw H3) in Eq.
Qed.

Lemma wf_update t q p : wf t -> ordered q p -> wf (<[q := p]> t).
Proof.
  intros Hw Ho x y. rewrite lookup_insert_Some. intros [[<- <-]|[_ E]]; [done|by apply Hw].
Qed.

(** The record [setsid] leaves. *)
Lemma set_sid_record t me p :
  t !! me = Some p -> p_pid p = me -> 0 < me ->
  set_sid t me = <[me := with_ctty (-1) (with_job me me p)]> t.
Proof.
  intros Hp E Hm. unfold set_sid, slot, claim_pid. rewrite Hp. cbn [default].
  unfold id. rewrite E. by destruct (Z.eqb_spec me 0); [lia|].
Qed.

Lemma set_ctty_leader t me q n :
  t !! me = Some q -> p_pid q = me -> 0 < me -> sid_of None t me = Some me ->
  set_ctty None t me n = Some (<[me := with_ctty n q]> t).
Proof.
  intros Hq E Hm Es. unfold set_ctty. rewrite Es. unfold slot at 2. rewrite Hq. cbn [default].
  unfold slot. rewrite lookup_insert_eq. cbn [default]. unfold id, claim_pid. cbn [p_pid with_ctty].
  rewrite E. destruct (Z.eqb_spec me 0); [lia|]. cbn [p_pid with_ctty]. rewrite E.
  destruct (Z.eqb_spec me 0); [lia|]. by rewrite insert_insert_eq.
Qed.

Lemma leader_ctty t me q :
  t !! me = Some q -> 0 < me -> p_sid q = me -> 0 <= p_ctty q -> ctty_of None t me = Some (p_ctty q).
Proof.
  intros Hq Hm Es Hc. unfold ctty_of. rewrite (sid_recorded t me q), Es by (done || lia).
  destruct (Z.leb_spec me 0); [lia|]. rewrite find_none, Hq.
  by destruct (Z.leb_spec 0 (p_ctty q)); [|lia].
Qed.

(** setsid makes a session: a group leader gets EPERM and nothing
    changes; any other recorded process becomes the leader of a new session
    and a new group, without a controlling terminal, so a further setsid is
    refused, and TIOCSCTTY on a terminal then succeeds and makes it the
    session's terminal. *)
Theorem setsid_new_session ids path_of_fd fd_link w p r :
  let me := pid ids in
  wf (procs w) -> no_session (procs w) me -> procs w !! me = Some p -> p_pid p = me ->
  Z.land (arg r 1) 0xffffffff = kTIOCSCTTY -> 0 <= pty_slave_of_fd path_of_fd (i32 (arg r 0)) ->
  exists w' f, do_setsid None ids w = Some (w', f) /\
  (pgid_of None (procs w) me = Some me -> w' = w /\ f = error eperm) /\
  (pgid_of None (procs w) me <> Some me ->
     f = FVirtualize (mirrored me) /\
     sid_of None (procs w') me = Some me /\ pgid_of None (procs w') me = Some me /\
     ctty_of None (procs w') me = Some (-1) /\
     do_setsid None ids w' = Some (w', error eperm) /\
     exists w2, do_ioctl None ids path_of_fd fd_link w' r = Some (w2, FVirtualize (mirrored 0)) /\
       ctty_of None (procs w2) me = Some (pty_slave_of_fd path_of_fd (i32 (arg r 0)))).
Proof.
  intros me Hw Hn Hp Ep Hr Hpty. destruct (Hw me p Hp) as (Hm & Hs & _). unfold do_setsid. fold me.
  destruct (pgid_of_total None live_ok_none (procs w) Hw me) as [g Eg]. rewrite Eg.
  cbn [mbind option_bind].
  destruct (Z.eqb_spec g me) as [-> |Hg]; eexists _, _; (split; [done|]); (split; [intros E|intros E]);
    [done|done|naive_solver|].
  rewrite (set_sid_record _ me p) by (done || lia). cbn [procs with_procs].
  set (q := with_ctty (-1) (with_job me me p)).
  assert (Hw' : wf (<[me := q]> (procs w))).
  { apply wf_update; [done|]. split_and!; cbn; lia. }
  assert (Hn' : no_session (<[me := q]> (procs w)) me).
  { intros x y Hx. rewrite lookup_insert_ne by lia. by apply Hn. }
  assert (Hl : (<[me := q]> (procs w)) !! me = Some q) by apply lookup_insert_eq.
  pose proof (sid_recorded _ me q ltac:(lia) Hl ltac:(cbn; lia)) as Es.
  pose proof (pgid_recorded _ me q ltac:(lia) Hl ltac:(cbn; lia)) as Egr.
  pose proof (leader_no_ctty _ me q Hw' Hn' Hl Ep eq_refl eq_refl) as Ec.
  split_and!; [done..| |].
  - unfold do_setsid. fold me. cbn [procs with_procs]. rewrite Egr. cbn. by rewrite Z.eqb_refl.
  - unfold do_ioctl. rewrite Hr. change (classic kTIOCSCTTY) with 0. cbn [Z.eqb negb].
    change (kTIOCSCTTY =? kTIOCSCTTY) with true. cbn [Z.eqb negb]. unfold ioctl_sctty.
    destruct (Z.ltb_spec (pty_slave_of_fd path_of_fd (i32 (arg r 0))) 0); [lia|].
    destruct (Z.ltb_spec (pty_slave_of_fd path_of_fd (i32 (arg r 0))) 0); [lia|].
    fold me. cbn [procs with_procs]. rewrite Es. cbn [mbind option_bind]. rewrite Z.eqb_refl.
    cbn [negb]. rewrite Ec. cbn [mbind option_bind Z.leb Z.compare andb].
    rewrite (set_ctty_leader _ me q) by (done || lia). cbn [mbind option_bind]. eexists. split; [done|].
    cbn [procs with_procs with_fg].
    apply (leader_ctty _ me (with_ctty (pty_slave_of_fd path_of_fd (i32 (arg r 0))) q));
      [apply lookup_insert_eq|lia|done|done].
Qed.

(** ** The foreground group *)

Lemma do_ioctl_gpgrp ids pf fl w r :
  Z.land (arg r 1) 0xffffffff = kTIOCGPGRP ->
  do_ioctl None ids pf fl w r = ioctl_gpgrp None ids pf fl w r.
Proof. intros E. unfold do_ioctl. by rewrite E. Qed.

Lemma do_ioctl_spgrp ids pf fl w r :
  Z.land (arg r 1) 0xffffffff = kTIOCSPGRP ->
  do_ioctl None ids pf fl w r = ioctl_spgrp None ids pf fl w r.
Proof. intros E. unfold do_ioctl. by rewrite E. Qed.

Lemma refusal_not_success pf fl r : ctty_refusal pf fl r <> value 0.
Proof. unfold ctty_refusal. by destruct (_ || _). Qed.

(** tcsetpgrp is read back by tcgetpgrp: once TIOCSPGRP has answered 0
    for a real group, TIOCGPGRP by any process on the same controlling
    terminal stores that group in the guest's buffer (EFAULT if it is not
    writable). *)
Theorem tcsetpgrp_tcgetpgrp ids ids' pf fl pf' fl' w w1 r r' :
  Z.land (arg r 1) 0xffffffff = kTIOCSPGRP -> Z.land (arg r' 1) 0xffffffff = kTIOCGPGRP ->
  let want := get_u32 (mem w) (arg r 2) in
  0 < want < 2 ^ 31 -> want <> kInheritedPgid ->
  do_ioctl None ids pf fl w r = Some (w1, value 0) ->
  ctty_of None (procs w) (pid ids') = ctty_of None (procs w) (pid ids) ->
  fd_is_our_ctty None ids' pf' fl' w (i32 (arg r' 0)) = Some true ->
  match put_u32 (mem w1) (arg r' 2) want with
  | None => do_ioctl None ids' pf' fl' w1 r' = Some (w1, error efault)
  | Some m => do_ioctl None ids' pf' fl' w1 r' = Some (with_mem w1 m, value 0) /\
              get_u32 m (arg r' 2) = want
  end.
Proof.
  intros Er Er' want Hwant Hinh Hset Htty Hours. rewrite do_ioctl_gpgrp by done.
  rewrite do_ioctl_spgrp in Hset by done. unfold ioctl_spgrp in Hset.
  destruct (fd_is_our_ctty None ids pf fl w (i32 (arg r 0))) as [[]|]; cbn in Hset;
    [|injection Hset as _ Hf; by apply refusal_not_success in Hf|done].
  destruct (ctty_of None (procs w) (pid ids)) as [tty|] eqn:Et; cbn [mbind option_bind] in Hset; [|done].
  fold want in Hset. injection Hset as <-.
  change (u32 kInheritedPgid) with kInheritedPgid.
  destruct (Z.eqb_spec want kInheritedPgid); [done|]. destruct (Z.eqb_spec want 0); [lia|].
  cbn [negb]. rewrite i32_small by lia. set (w1 := with_fg w _).
  unfold ioctl_gpgrp. change (fd_is_our_ctty None ids' pf' fl' w1 (i32 (arg r' 0)))
    with (fd_is_our_ctty None ids' pf' fl' w (i32 (arg r' 0))). rewrite Hours.
  cbn [mbind option_bind negb]. change (procs w1) with (procs w). rewrite Htty. cbn [mbind option_bind].
  change (fg_pgrp w1) with (<[tty := want]> (fg_pgrp w)). rewrite lookup_insert_eq.
  cbn [mbind option_bind]. rewrite u32_small by lia.
  destruct (put_u32 (mem w1) (arg r' 2) want) as [m|] eqn:Em; [|done].
  split; [done|]. eapply get_put_u32; [lia|exact Em].
Qed.

End props.

(** ** Witnesses *)

Import Flat.

(** Init, a child and a grandchild; the caller is process 2. *)
Definition ex_procs : Table :=
  default ∅ (run None initial [c_event (ev_spawn 2 1); c_event (ev_spawn 3 2)]).
Definition ex_ids : TaskIdentity := {| pid := 2; tid := 2; ppid := 1 |}.
Definition ex_mem : gmap Z Z := <[19 := 0]> (<[18 := 0]> (<[17 := 0]> {[16 := 3]})).
Definition ex_world : World (M := gmap Z Z) := {| procs := ex_procs; fg_pgrp := ∅; mem := ex_mem |}.
Definition ex_path (fd : Z) : str := lit "/dev/pts/4".

Lemma ex_procs_lookup q p : ex_procs !! q = Some p -> (q, p) ∈ map_to_list ex_procs.
Proof. apply elem_of_map_to_list. Qed.

Lemma ex_procs_wf : wf ex_procs.
Proof.
  intros q p Hq%ex_procs_lookup. vm_compute in Hq.
  repeat (apply elem_of_cons in Hq as [[= -> ->]|Hq]; [split_and!; cbn; lia|]).
  by apply not_elem_of_nil in Hq.
Qed.

Lemma setpgid_getpgid_witness :
  exists w', do_setpgid None ex_ids ex_world {| args := [3; 0]; regs_nr := 0 |} = Some (w', value 0) /\
    do_getpgid None ex_ids w' {| args := [3]; regs_nr := 0 |} = Some (value 3).
Proof.
  destruct (setpgid_getpgid ex_ids ex_world {| args := [3; 0]; regs_nr := 0 |}
              ex_procs_wf eq_refl) as (w' & f & E & _ & H2).
  destruct H2 as (-> & H3 & _).
  { right. split; [done|]. right. apply (bool_decide_unpack (is_Some _)). vm_compute. exact I. }
  exists w'. split; [exact E|]. rewrite H3 by reflexivity. vm_compute. reflexivity.
Defined.

Lemma setsid_new_session_witness :
  exists w', do_setsid None ex_ids ex_world = Some (w', FVirtualize (mirrored 2)) /\
    sid_of None (procs w') 2 = Some 2 /\
    exists w2, do_ioctl None ex_ids ex_path (fun _ => None) w'
                 {| args := [0; 0x540E; 0]; regs_nr := 0 |} = Some (w2, FVirtualize (mirrored 0)) /\
      ctty_of None (procs w2) 2 = Some 4.
Proof.
  destruct (setsid_new_session (H := Flat.flat_memory) ex_ids ex_path (fun _ => None) ex_world
              (slot ex_procs 2) {| args := [0; 0x540E; 0]; regs_nr := 0 |} ex_procs_wf)
    as (w' & f & E & _ & H2).
  - intros q p Hlt Hq%ex_procs_lookup. vm_compute in Hq.
    repeat (apply elem_of_cons in Hq as [[= -> ->]|Hq]; [vm_compute; by split|]).
    by apply not_elem_of_nil in Hq.
  - vm_compute; reflexivity.
  - vm_compute; reflexivity.
  - reflexivity.
  - vm_compute; discriminate.
  - destruct H2 as (-> & H3 & _ & _ & _ & w2 & H4 & H5); [vm_compute; discriminate|].
    exists w'. split; [exact E|]. split; [exact H3|]. exists w2. split; [exact H4|exact H5].
Defined.

(** Process 1 on terminal 4. *)
Definition tty_world : World (M := gmap Z Z) :=
  {| procs := default ∅ (set_ctty None initial 1 4); fg_pgrp := ∅; mem := ex_mem |}.
Definition init_ids : TaskIdentity := {| pid := 1; tid := 1; ppid := 0 |}.

Lemma tcsetpgrp_tcgetpgrp_witness :
  exists w1 w2, do_ioctl None init_ids ex_path (fun _ => None) tty_world
                  {| args := [0; 0x5410; 16]; regs_nr := 0 |} = Some (w1, value 0) /\
    do_ioctl None init_ids ex_path (fun _ => None) w1
      {| args := [0; 0x540F; 16]; regs_nr := 0 |} = Some (w2, value 0) /\
    get_u32 (H := Flat.flat_memory) (mem w2) 16 = 3.
Proof.
  eexists. 
  epose proof (tcsetpgrp_tcgetpgrp (H := Flat.flat_memory) init_ids init_ids ex_path (fun _ => None)
    ex_path (fun _ => None) tty_world _
    {| args := [0; 0x5410; 16]; regs_nr := 0 |} {| args := [0; 0x540F; 16]; regs_nr := 0 |}
    eq_refl eq_refl) as Hth.
  specialize (Hth ltac:(vm_compute; by split) ltac:(vm_compute; discriminate) eq_refl eq_refl eq_refl).
  match type of Hth with match ?m with _ => _ end => destruct m as [m'|] eqn:Em end;
    [|by vm_compute in Em].
  destruct Hth as [H1 H2]. eexists. split; [reflexivity|]. split; [exact H1|]. exact H2.
Defined.

End JobControl.
