(* ===== verification/Dirents.v ===== *)
(** Directory streams: the [linux_dirent64] encoder
    ([include/linuxity/abi/wire/dirent64.hpp]), the stream of a virtual or
    overlaid directory ([kernel/file_namespace.hpp]), and the handlers of
    [getdents64] and of [lseek] on such a stream
    ([include/linuxity/abi/syscall.hpp]).

    The union that builds an overlaid directory's entries on first use is
    the argument [overlay_dir_union].  [parse_dirents] is how a guest libc
    reads the records back. *)

From S2P Require Import Prelude Sysno Abi Dispatch GuestMem.
Import Abi Dispatch Access.

Module Dirents.

(** ** The encoder *)

Inductive DType := dt_unknown | dt_fifo | dt_chr | dt_dir | dt_blk | dt_regular | dt_symlink | dt_sock.

Definition dtype_value (t : DType) : Z :=
  match t with
  | dt_unknown => 0 | dt_fifo => 1 | dt_chr => 2 | dt_dir => 4
  | dt_blk => 6 | dt_regular => 8 | dt_symlink => 10 | dt_sock => 12
  end.

Definition kDirentHeader : Z := 19.
Definition kDirentAlign : Z := 8.

Definition dirent_reclen (namelen : Z) : Z :=
  Z.land (u64 (kDirentHeader + namelen + 1 + (kDirentAlign - 1))) (u64 (Z.lnot (kDirentAlign - 1))).

Record Dirent := { d_ino : Z; d_off : Z; d_type : DType; d_name : str }.

(** [out[off + i] = (v >> (8 * i)) & 0xff] for [i < n]. *)
Fixpoint put_loop (n i off : nat) (v : Z) (out : list Z) : list Z :=
  match n with
  | O => out
  | S n' => put_loop n' (S i) off v
              (<[(off + i)%nat := Z.land (Z.shiftr v (8 * Z.of_nat i)) 255]> out)
  end.

Definition byte_of (c : ascii) : Z := Z.of_N (N_of_ascii c).

(** [out[kDirentHeader + i] = name[i]]. *)
Fixpoint name_loop (i : nat) (name : str) (out : list Z) : list Z :=
  match name with
  | [] => out
  | c :: name' => name_loop (S i) name' (<[(Z.to_nat kDirentHeader + i)%nat := byte_of c]> out)
  end.

(** [encode_dirent64] on the span [out]: the new bytes and the count. *)
Definition encode_dirent64 (out : list Z) (e : Dirent) : list Z * Z :=
  let reclen := dirent_reclen (Z.of_nat (length (d_name e))) in
  if Z.of_nat (length out) <? reclen then (out, 0)
  else
    let n := Z.to_nat reclen in
    let out := replicate n 0 ++ drop n out in
    let out := put_loop 8 0 0 (d_ino e) out in
    let out := put_loop 8 0 8 (u64 (d_off e)) out in
    let out := put_loop 2 0 16 reclen out in
    let out := <[18%nat := dtype_value (d_type e)]> out in
    let out := name_loop 0 (d_name e) out in
    (out, reclen).

(** [enum class FileType] and [dtype_from_mode]. *)
Definition dtype_from_mode (mode : Z) : DType :=
  let t := Z.land mode 0xF000 in
  if t =? 0x4000 then dt_dir
  else if t =? 0x8000 then dt_regular
  else if t =? 0xA000 then dt_symlink
  else if t =? 0x2000 then dt_chr
  else if t =? 0x6000 then dt_blk
  else if t =? 0x1000 then dt_fifo
  else if t =? 0xC000 then dt_sock
  else dt_unknown.

(** ** The stream *)

Inductive VType := v_regular | v_dir | v_symlink.

Record VirtualDirent := { v_name : str; v_type : VType; v_ino : Z }.

Record DirStream := { entries : list VirtualDirent; pos : nat; lazy_dir : str; byte_off : Z }.

Definition reclen_of (e : VirtualDirent) : Z := dirent_reclen (Z.of_nat (length (v_name e))).

(** The entry handed to the encoder. *)
Definition dirent_of (e : VirtualDirent) (pos : nat) (byte_off : Z) : Dirent :=
  {| d_ino := if v_ino e =? 0 then Z.of_nat pos + 1 else v_ino e;
     d_off := i64 (u64 (byte_off + reclen_of e));
     d_type := match v_type e with
               | v_symlink => dt_symlink
               | v_dir => dt_dir
               | v_regular => dt_regular
               end;
     d_name := v_name e |}.

(** The loop of [do_getdents64] over the entries from [pos] on. *)
Fixpoint fill_loop (rest : list VirtualDirent) (pos : nat) (byte_off cap : Z) (out : list Z) :
    nat * Z * list Z :=
  match rest with
  | [] => (pos, byte_off, out)
  | e :: rest' =>
      let reclen := reclen_of e in
      if cap <? Z.of_nat (length out) + reclen then (pos, byte_off, out)
      else
        let '(bytes, n) := encode_dirent64 (replicate (Z.to_nat reclen) 0) (dirent_of e pos byte_off) in
        if n =? 0 then (pos, byte_off, out)
        else fill_loop rest' (S pos) (u64 (byte_off + reclen)) cap (out ++ bytes)
  end.

(** The loop of the [lseek] case: the entry whose record starts at [target]. *)
Fixpoint seek_loop (rest : list VirtualDirent) (idx : nat) (cur target : Z) : nat * Z :=
  match rest with
  | [] => (idx, cur)
  | e :: rest' => if target <=? cur then (idx, cur)
                  else seek_loop rest' (S idx) (u64 (cur + reclen_of e)) target
  end.

Section handlers.
Context {M : Type} `{GuestMem M}.
Context (overlay_dir_union : str -> list VirtualDirent).

(** The caller's directory streams, by descriptor, and guest memory. *)
Record World := { dirs : gmap Z DirStream; mem : M }.

Definition with_stream (w : World) (fd : Z) (ds : DirStream) : World :=
  {| dirs := <[fd := ds]> (dirs w); mem := mem w |}.

Definition dir_stream (w : World) (fd : Z) : World * option DirStream :=
  match dirs w !! fd with
  | None => (w, None)
  | Some ds =>
      if bool_decide (lazy_dir ds = []) then (w, Some ds)
      else
        match overlay_dir_union (lazy_dir ds) with
        | [] => ({| dirs := delete fd (dirs w); mem := mem w |}, None)
        | es => let ds := {| entries := es; pos := pos ds; lazy_dir := []; byte_off := byte_off ds |} in
                (with_stream w fd ds, Some ds)
        end
  end.

Definition do_getdents64 (w : World) (r : Regs) : World * Fate :=
  let fd := i32 (arg r 0) in
  match dir_stream w fd with
  | (w, None) => (w, forward)
  | (w, Some ds) =>
      let '(p, b, out) := fill_loop (drop (pos ds) (entries ds)) (pos ds) (byte_off ds) (arg r 2) [] in
      let ds := {| entries := entries ds; pos := p; lazy_dir := lazy_dir ds; byte_off := b |} in
      let w := with_stream w fd ds in
      if bool_decide (out = []) then
        (w, if (p <? length (entries ds))%nat then error einval else value 0)
      else
        match copy_out (mem w) (arg r 1) out with
        | None => (w, error efault)
        | Some m => ({| dirs := dirs w; mem := m |}, value (Z.of_nat (length out)))
        end
  end.

Definition do_lseek (w : World) (r : Regs) : World * Fate :=
  let fd := i32 (arg r 0) in
  match dir_stream w fd with
  | (w, None) => (w, forward)
  | (w, Some ds) =>
      let off := i64 (arg r 1) in
      let whence := i32 (arg r 2) in
      let target := if whence =? 0 then off
                    else if whence =? 1 then i64 (i64 (byte_off ds) + off) else -1 in
      if target <? 0 then (w, error einval)
      else
        let '(idx, cur) := seek_loop (entries ds) 0 0 target in
        let ds := {| entries := entries ds; pos := idx; lazy_dir := lazy_dir ds; byte_off := cur |} in
        (with_stream w fd ds, value (i64 cur))
  end.

End handlers.

(** ** How a guest reads the records *)

Record Seen := { s_ino : Z; s_off : Z; s_type : Z; s_name : list Z }.

Fixpoint until_nul (bs : list Z) : list Z :=
  match bs with
  | [] => []
  | b :: bs' => if b =? 0 then [] else b :: until_nul bs'
  end.

Definition parse_dirent (bs : list Z) : option (Z * Seen) :=
  if (length bs <? 20)%nat then None
  else Some (le_val (take 2 (drop 16 bs)),
             {| s_ino := le_val (take 8 bs); s_off := le_val (take 8 (drop 8 bs));
                s_type := default 0 (bs !! 18%nat); s_name := until_nul (drop 19 bs) |}).

(** Records follow each other at [d_reclen]; the fuel is the buffer's length. *)
Fixpoint parse_loop (fuel : nat) (bs : list Z) : option (list Seen) :=
  match fuel, bs with
  | _, [] => Some []
  | O, _ => None
  | S f, _ =>
      match parse_dirent bs with
      | None => None
      | Some (len, e) =>
          if (len <=? 0) || (Z.of_nat (length bs) <? len) then None
          else match parse_loop f (drop (Z.to_nat len) bs) with
               | Some es => Some (e :: es)
               | None => None
               end
      end
  end.

Definition parse_dirents (bs : list Z) : option (list Seen) := parse_loop (length bs) bs.

(** * Lemmas *)

Lemma reclen_spec n :
  0 <= n < 2 ^ 32 ->
  dirent_reclen n mod 8 = 0 /\ kDirentHeader + n + 1 <= dirent_reclen n < kDirentHeader + n + 1 + 8.
Proof.
  intros Hn. unfold dirent_reclen, kDirentHeader, kDirentAlign.
  rewrite (u64_small (19 + n + 1 + (8 - 1))) by lia.
  change (8 - 1) with (2 ^ 3 - 1). rewrite land_align by lia. change (2 ^ 3) with 8.
  split; [apply Z.mod_mul; lia|].
  pose proof (Z.div_mod (19 + n + 1 + (8 - 1)) 8). pose proof (Z.mod_pos_bound (19 + n + 1 + (8 - 1)) 8).
  lia.
Qed.

Lemma insert_mid {A} (pre : list A) x y post : <[length pre := y]> (pre ++ x :: post) = pre ++ y :: post.
Proof. by rewrite insert_app_r_alt, Nat.sub_diag by lia. Qed.

Lemma byte_at v i :
  0 <= v -> Z.land (Z.shiftr v (8 * Z.of_nat i)) 255 = (v / 256 ^ Z.of_nat i) mod 256.
Proof.
  intros Hv. change 255 with (Z.ones 8). rewrite Z.land_ones, Z.shiftr_div_pow2 by lia.
  rewrite Z.pow_mul_r by lia. done.
Qed.

Lemma put_loop_app n : forall i off v pre mid post,
  0 <= v -> length pre = (off + i)%nat -> length mid = n ->
  put_loop n i off v (pre ++ mid ++ post) = pre ++ le_bytes n (v / 256 ^ Z.of_nat i) ++ post.
Proof.
  induction n as [|n IH]; intros i off v pre mid post Hv Hp Hm; cbn [put_loop le_bytes].
  - by apply nil_length_inv in Hm as ->.
  - destruct mid as [|x mid]; [done|]. cbn [app]. rewrite <- Hp, insert_mid, byte_at by done.
    rewrite (cons_middle _ pre), app_assoc. rewrite (IH (S i) off).
    + rewrite <- app_assoc. cbn [app]. do 3 f_equal.
      rewrite Z.div_div, Nat2Z.inj_succ, Z.pow_succ_r by lia. by rewrite (Z.mul_comm 256).
    + done.
    + rewrite length_app, Hp. cbn. lia.
    + by injection Hm.
Qed.

Lemma name_loop_app name : forall i pre mid post,
  length pre = (19 + i)%nat -> length mid = length name ->
  name_loop i name (pre ++ mid ++ post) = pre ++ map byte_of name ++ post.
Proof.
  induction name as [|c name IH]; intros i pre mid post Hp Hm; cbn [name_loop map].
  - by apply nil_length_inv in Hm as ->.
  - destruct mid as [|x mid]; [done|]. cbn [app].
    change (Z.to_nat kDirentHeader) with 19%nat. rewrite <- Hp, insert_mid.
    rewrite (cons_middle _ pre), app_assoc, (IH (S i)).
    + by rewrite <- app_assoc.
    + rewrite length_app, Hp. cbn. lia.
    + by injection Hm.
Qed.

(** The bytes of one record. *)
Definition record (e : Dirent) : list Z :=
  let n := Z.of_nat (length (d_name e)) in
  le_bytes 8 (d_ino e) ++ le_bytes 8 (u64 (d_off e)) ++ le_bytes 2 (dirent_reclen n) ++
  [dtype_value (d_type e)] ++ map byte_of (d_name e) ++
  replicate (Z.to_nat (dirent_reclen n) - 19 - length (d_name e)) 0.

Lemma record_length e :
  Z.of_nat (length (d_name e)) < 2 ^ 32 ->
  Z.of_nat (length (record e)) = dirent_reclen (Z.of_nat (length (d_name e))).
Proof.
  intros Hn. pose proof (reclen_spec (Z.of_nat (length (d_name e))) ltac:(lia)) as [_ H].
  unfold kDirentHeader in H. unfold record.
  rewrite !length_app, !le_bytes_length, length_map, length_replicate. cbn [length]. lia.
Qed.

Lemma encode_record e k :
  Z.of_nat (length (d_name e)) < 2 ^ 32 -> 0 <= d_ino e ->
  Z.of_nat k = dirent_reclen (Z.of_nat (length (d_name e))) ->
  encode_dirent64 (replicate k 0) e = (record e, Z.of_nat k).
Proof.
  intros Hn Hi Hk. pose proof (reclen_spec (Z.of_nat (length (d_name e))) ltac:(lia)) as [_ Hr].
  unfold kDirentHeader in Hr. unfold encode_dirent64. rewrite length_replicate, <- Hk, Z.ltb_irrefl.
  rewrite Nat2Z.id, drop_ge, app_nil_r by (rewrite length_replicate; lia).
  set (m := length (d_name e)) in *. set (z := (k - 19 - m)%nat).
  replace (replicate k 0) with
    (replicate 8 0 ++ replicate 8 0 ++ replicate 2 0 ++ [0] ++ replicate m 0 ++ replicate z 0).
  2: { change [0] with (replicate 1 0). rewrite <- !replicate_add. f_equal. unfold z. lia. }
  pose proof (put_loop_app 8 0 0 (d_ino e) []) as P1. cbn [app] in P1.
  rewrite (P1 (replicate 8 0)) by done. rewrite Z.div_1_r.
  rewrite (put_loop_app 8 0 8) by (done || apply u64_range). rewrite Z.div_1_r.
  rewrite (app_assoc (le_bytes 8 (d_ino e))).
  rewrite (put_loop_app 2 0 16) by (done || lia). rewrite Z.div_1_r.
  rewrite (app_assoc _ (le_bytes 2 (Z.of_nat k))).
  set (pre := (_ ++ _) ++ le_bytes 2 (Z.of_nat k)).
  assert (Hl : length pre = 18%nat) by (unfold pre; by rewrite !length_app, !le_bytes_length).
  cbn [app]. rewrite <- Hl, insert_mid, (cons_middle _ pre), (app_assoc pre).
  rewrite (name_loop_app (d_name e) 0 (pre ++ _)).
  - unfold record. fold m. rewrite <- Hk, Nat2Z.id. unfold pre, z. rewrite <- !app_assoc. done.
  - rewrite length_app, Hl. done.
  - apply length_replicate.
Qed.

(** An entry the format can hold. *)
Record dirent_ok (e : Dirent) : Prop := {
  ok_ino : 0 <= d_ino e < 2 ^ 64;
  ok_name : forall c, c ∈ d_name e -> byte_of c <> 0;
  ok_len : Z.of_nat (length (d_name e)) < 60000
}.

Definition seen_of (e : Dirent) : Seen :=
  {| s_ino := d_ino e; s_off := u64 (d_off e); s_type := dtype_value (d_type e);
     s_name := map byte_of (d_name e) |}.

Lemma until_nul_app name rest :
  (forall c, c ∈ name -> byte_of c <> 0) ->
  until_nul (map byte_of name ++ 0 :: rest) = map byte_of name.
Proof.
  induction name as [|c name IH]; intros Hc; cbn; [done|].
  destruct (Z.eqb_spec (byte_of c) 0) as [E|_]; [by apply Hc in E; [|left]|].
  rewrite IH; [done|]. intros x Hx. apply Hc. by right.
Qed.

(** Reading back one record. *)
Lemma parse_record e rest :
  dirent_ok e ->
  parse_dirent (record e ++ rest)
  = Some (dirent_reclen (Z.of_nat (length (d_name e))), seen_of e).
Proof.
  intros [Hi Hn Hl]. pose proof (reclen_spec (Z.of_nat (length (d_name e))) ltac:(lia)) as [_ Hr].
  unfold kDirentHeader in Hr. pose proof (record_length e ltac:(lia)) as Hlen.
  unfold parse_dirent. rewrite length_app.
  destruct (Nat.ltb_spec (length (record e) + length rest) 20); [lia|].
  unfold record. rewrite <- !app_assoc.
  set (n := dirent_reclen _) in *.
  set (A := le_bytes 8 (d_ino e)). set (B := le_bytes 8 (u64 (d_off e))). set (C := le_bytes 2 n).
  assert (HA : length A = 8%nat) by apply le_bytes_length.
  assert (HB : length B = 8%nat) by apply le_bytes_length.
  assert (HC : length C = 2%nat) by apply le_bytes_length.
  pose proof (u64_range (d_off e)) as Ho.
  assert (VA : le_val A = d_ino e) by by apply le_val_bytes.
  assert (VB : le_val B = u64 (d_off e)) by by apply le_val_bytes.
  assert (VC : le_val C = n) by (apply le_val_bytes; change (256 ^ Z.of_nat 2) with (2 ^ 16); lia).
  clearbody A B C. set (tail := map byte_of (d_name e) ++ _).
  assert (Et : until_nul tail = map byte_of (d_name e)).
  { unfold tail. destruct (Z.to_nat n - 19 - length (d_name e))%nat eqn:E; [lia|].
    cbn [replicate app]. by apply until_nul_app. }
  rewrite (take_app_length' A) by lia.
  rewrite (drop_app_length' A _ 8) by lia. rewrite (take_app_length' B) by lia.
  replace (drop 16 (A ++ B ++ C ++ [dtype_value (d_type e)] ++ tail)) with
    (C ++ [dtype_value (d_type e)] ++ tail).
  2: { rewrite (app_assoc A). by rewrite (drop_app_length' (A ++ B)) by (rewrite length_app; lia). }
  rewrite (take_app_length' C) by lia.
  rewrite (app_assoc A), (app_assoc (A ++ B)).
  rewrite lookup_app_r by (rewrite !length_app; lia). rewrite !length_app, HA, HB, HC.
  replace (drop 19 (((A ++ B) ++ C) ++ [dtype_value (d_type e)] ++ tail)) with tail.
  2: { rewrite (app_assoc _ [_]).
       by rewrite drop_app_length' by (rewrite !length_app; cbn [length]; lia). }
  by rewrite Et, VA, VB, VC.
Qed.

Lemma parse_records es : forall f,
  Forall dirent_ok es -> (length (concat (map record es)) <= f)%nat ->
  parse_loop f (concat (map record es)) = Some (map seen_of es).
Proof.
  induction es as [|e es IH]; intros f Hok Hf; cbn [map concat] in *; [by destruct f|].
  apply Forall_cons in Hok as [He Hes]. pose proof (ok_len _ He) as Hl.
  pose proof (reclen_spec (Z.of_nat (length (d_name e))) ltac:(lia)) as [_ Hr].
  unfold kDirentHeader in Hr. pose proof (record_length e ltac:(lia)) as Hlen.
  rewrite length_app in Hf. destruct f as [|f]; [lia|]. cbn [parse_loop].
  destruct (record e ++ concat (map record es)) as [|b bs] eqn:E.
  { apply (f_equal length) in E. rewrite length_app in E. cbn in E. lia. }
  rewrite <- E, parse_record by done. rewrite length_app.
  destruct (Z.leb_spec (dirent_reclen (Z.of_nat (length (d_name e)))) 0); [lia|].
  destruct (Z.ltb_spec (Z.of_nat (length (record e) + length (concat (map record es))))
              (dirent_reclen (Z.of_nat (length (d_name e))))); [lia|]. cbn [orb].
  rewrite drop_app_length' by lia. by rewrite IH by (done || lia).
Qed.

(** ** Filling a buffer *)

Definition entry_ok (e : VirtualDirent) : Prop :=
  0 <= v_ino e < 2 ^ 64 /\ (forall c, c ∈ v_name e -> byte_of c <> 0) /\
  Z.of_nat (length (v_name e)) < 60000.

(** Bytes the records of a list take. *)
Fixpoint total (es : list VirtualDirent) : Z :=
  match es with
  | [] => 0
  | e :: es' => reclen_of e + total es'
  end.

(** The entries as they are encoded from a position and a byte offset on. *)
Fixpoint dirents_from (es : list VirtualDirent) (pos : nat) (off : Z) : list Dirent :=
  match es with
  | [] => []
  | e :: es' => dirent_of e pos off :: dirents_from es' (S pos) (off + reclen_of e)
  end.

Lemma reclen_pos e : entry_ok e -> 20 <= reclen_of e < 60100.
Proof.
  intros (_ & _ & H). unfold reclen_of. pose proof (reclen_spec _ ltac:(split; [apply Nat2Z.is_nonneg|];
    apply (Z.lt_trans _ 60000); [exact H|lia])) as [_ Hr]. unfold kDirentHeader in Hr. lia.
Qed.

Lemma total_nonneg es : Forall entry_ok es -> 0 <= total es.
Proof.
  induction 1 as [|e es He _ IH]; cbn [total]; [lia|]. apply reclen_pos in He. lia.
Qed.

Lemma total_app l1 l2 : total (l1 ++ l2) = total l1 + total l2.
Proof. induction l1 as [|e l1 IH]; cbn [app total]; [done|]. rewrite IH. lia. Qed.

Lemma total_take es k : Forall entry_ok es -> total (take k es) <= total es.
Proof.
  intros Hok. rewrite <- (take_drop k es) at 2. rewrite total_app.
  pose proof (total_nonneg (drop k es) ltac:(by apply Forall_drop)). lia.
Qed.

Lemma dirent_of_ok e pos off :
  entry_ok e -> Z.of_nat pos < 2 ^ 63 -> dirent_ok (dirent_of e pos off).
Proof.
  intros (H1 & H2 & H3) Hp. split; cbn; [|done|done]. destruct (v_ino e =? 0); lia.
Qed.

Lemma dirents_from_ok es : forall pos off,
  Forall entry_ok es -> Z.of_nat (pos + length es) < 2 ^ 63 ->
  Forall dirent_ok (dirents_from es pos off).
Proof.
  induction es as [|e es IH]; intros pos off Hok Hp; cbn [dirents_from length] in *; [constructor|].
  apply Forall_cons in Hok as [He Hes]. constructor; [apply dirent_of_ok; [done|lia]|].
  apply IH; [done|lia].
Qed.

Lemma records_length es : forall pos off,
  Forall entry_ok es -> Z.of_nat (length (concat (map record (dirents_from es pos off)))) = total es.
Proof.
  induction es as [|e es IH]; intros pos off Hok; cbn [dirents_from map concat total]; [done|].
  apply Forall_cons in Hok as [(H1 & H2 & H3) Hes]. rewrite length_app, Nat2Z.inj_add, IH by done.
  rewrite record_length; cbn [dirent_of d_name]; [done|lia].
Qed.

Lemma record_bytes e : Forall is_byte (record e).
Proof.
  unfold record. rewrite !Forall_app. split_and!; try apply le_bytes_byte.
  - constructor; [|constructor]. unfold is_byte. by destruct (d_type e).
  - apply Forall_fmap, Forall_true. intros c. unfold is_byte, byte_of. cbn.
    pose proof (N_ascii_bounded c). lia.
  - apply Forall_replicate. by unfold is_byte.
Qed.

Lemma records_bytes es : Forall is_byte (concat (map record es)).
Proof.
  induction es as [|e es IH]; cbn [map concat]; [constructor|]. apply Forall_app.
  split; [apply record_bytes|done].
Qed.

Lemma fill_loop_spec rest : forall pos off cap out,
  Forall entry_ok rest -> 0 <= off -> off + total rest < 2 ^ 63 ->
  exists k, (k <= length rest)%nat /\
    fill_loop rest pos off cap out
    = ((pos + k)%nat, off + total (take k rest),
       out ++ concat (map record (dirents_from (take k rest) pos off))) /\
    (k = length rest \/
     exists e, rest !! k = Some e /\ cap < Z.of_nat (length out) + total (take k rest) + reclen_of e) /\
    (Z.of_nat (length out) <= cap -> Z.of_nat (length out) + total (take k rest) <= cap).
Proof.
  induction rest as [|e rest IH]; intros pos off cap out Hok Ho Ht; cbn [fill_loop].
  - exists 0%nat. cbn. rewrite Nat.add_0_r, Z.add_0_r, app_nil_r. split_and!; [lia|done|by left|lia].
  - apply Forall_cons in Hok as [He Hr]. pose proof (reclen_pos e He) as Hrl.
    pose proof (total_nonneg rest Hr) as Htn. cbn [total] in Ht.
    destruct (Z.ltb_spec cap (Z.of_nat (length out) + reclen_of e)) as [Hc|Hc].
    { exists 0%nat. cbn. rewrite Nat.add_0_r, Z.add_0_r, app_nil_r. split_and!; [lia|done| |lia].
      right. exists e. split; [done|lia]. }
    rewrite encode_record; [|cbn; destruct He as (_ & _ & ?); lia
      |cbn; destruct He as (? & _ & _); destruct (v_ino e =? 0); lia|cbn; unfold reclen_of in *; lia].
    destruct (Z.eqb_spec (Z.of_nat (Z.to_nat (reclen_of e))) 0); [lia|].
    rewrite u64_small by lia.
    destruct (IH (S pos) (off + reclen_of e) cap (out ++ record (dirent_of e pos off)))
      as (k & Hk & Ef & Hstop & Hfit); [done|lia|lia|].
    rewrite length_app, Nat2Z.inj_add, record_length in Hstop, Hfit
      by (cbn; destruct He as (_ & _ & ?); lia).
    change (dirent_reclen (Z.of_nat (length (d_name (dirent_of e pos off))))) with (reclen_of e) in *.
    exists (S k). rewrite Ef. cbn [take total dirents_from map concat length]. split_and!; [lia| | |].
    + by rewrite <- app_assoc, Nat.add_succ_r, Z.add_assoc.
    + destruct Hstop as [-> |(x & Ex & Hx)]; [by left|right]. exists x. split; [done|lia].
    + lia.
Qed.

(** ** Reading a directory *)

Section reading.
Context {M : Type} `{GuestMem M} (overlay_dir_union : str -> list VirtualDirent).
Implicit Types (w : World (M := M)).

(** A guest reading a directory: getdents64 until it answers 0. *)
Fixpoint list_dir (fuel : nat) w (r : Regs) : option (list Seen) :=
  match fuel with
  | O => None
  | S f =>
      match do_getdents64 overlay_dir_union w r with
      | (w', FVirtualize v) =>
          if ret v =? 0 then Some []
          else if ret v <? 0 then None
          else
            match copy_in (mem w') (arg r 1) (Z.to_nat (ret v)) with
            | None => None
            | Some bs =>
                match parse_dirents bs, list_dir f w' r with
                | Some es, Some rest => Some (es ++ rest)
                | _, _ => None
                end
            end
      | _ => None
      end
  end.

(** A stream whose cursor is at the start of a record. *)
Record stream_ok (ds : DirStream) : Prop := {
  st_entries : Forall entry_ok (entries ds);
  st_total : total (entries ds) < 2 ^ 63;
  st_pos : (pos ds <= length (entries ds))%nat;
  st_off : byte_off ds = total (take (pos ds) (entries ds))
}.

Lemma dir_stream_built w fd w1 ds :
  dir_stream overlay_dir_union w fd = (w1, Some ds) ->
  dirs w1 !! fd = Some ds /\ lazy_dir ds = [] /\ mem w1 = mem w.
Proof.
  unfold dir_stream. destruct (dirs w !! fd) as [d|] eqn:E; [|done].
  case_bool_decide as Hl; [by intros [= <- <-]|].
  destruct (overlay_dir_union (lazy_dir d)) eqn:Eu; [done|]. intros [= <- <-]. cbn.
  by rewrite lookup_insert_eq.
Qed.

Lemma dir_stream_again w fd ds :
  dirs w !! fd = Some ds -> lazy_dir ds = [] -> dir_stream overlay_dir_union w fd = (w, Some ds).
Proof. intros E El. unfold dir_stream. rewrite E. by rewrite bool_decide_eq_true_2. Qed.

Lemma total_length es : Forall entry_ok es -> Z.of_nat (length es) <= total es.
Proof. induction 1 as [|e es He _ IH]; cbn [length total]; [lia|]. apply reclen_pos in He. lia. Qed.

(** One call: it stops at the end or before a record that does not fit. *)
Lemma getdents_step w w1 r ds :
  dir_stream overlay_dir_union w (i32 (arg r 0)) = (w1, Some ds) -> stream_ok ds ->
  0 <= arg r 2 -> (forall e, e ∈ entries ds -> reclen_of e <= arg r 2) ->
  can_write (mem w) (arg r 1) (Z.to_nat (arg r 2)) = true ->
  let rest := drop (pos ds) (entries ds) in
  exists k ds' w' m,
    (k <= length rest)%nat /\ (rest = [] \/ (0 < k)%nat) /\
    w' = {| dirs := <[i32 (arg r 0) := ds']> (dirs w1); mem := m |} /\
    ds' = {| entries := entries ds; pos := (pos ds + k)%nat; lazy_dir := [];
             byte_off := byte_off ds + total (take k rest) |} /\
    let out := concat (map record (dirents_from (take k rest) (pos ds) (byte_off ds))) in
    do_getdents64 overlay_dir_union w r = (w', value (Z.of_nat (length out))) /\
    (out <> [] -> copy_in m (arg r 1) (length out) = Some out) /\
    can_write m (arg r 1) (Z.to_nat (arg r 2)) = true.
Proof.
  intros Hd Hs H0 Hcap Hwr rest. destruct (dir_stream_built w _ w1 ds Hd) as (Hl & Hz & Hm).
  pose proof (st_entries _ Hs) as Hok. pose proof (st_off _ Hs) as Hoff.
  pose proof (take_drop (pos ds) (entries ds)) as Hsplit. fold rest in Hsplit.
  assert (Htot : byte_off ds + total rest = total (entries ds)).
  { rewrite Hoff, <- total_app, Hsplit. done. }
  assert (Hrest : Forall entry_ok rest) by by apply Forall_drop.
  assert (Hb : 0 <= byte_off ds) by (rewrite Hoff; by apply total_nonneg, Forall_take).
  pose proof (st_total _ Hs) as Htt.
  destruct (fill_loop_spec rest (pos ds) (byte_off ds) (arg r 2) [] Hrest Hb ltac:(lia))
    as (k & Hk & Ef & Hstop & Hfit).
  cbn [length] in Hstop, Hfit.
  unfold do_getdents64. rewrite Hd. fold rest. rewrite Ef. cbn [app].
  set (out := concat _). rewrite Hz.
  set (ds' := {| entries := entries ds; pos := (pos ds + k)%nat; lazy_dir := [];
                 byte_off := byte_off ds + total (take k rest) |}).
  assert (Hlen : Z.of_nat (length out) = total (take k rest)).
  { apply records_length. by apply Forall_take. }
  assert (Hk0 : rest = [] \/ (0 < k)%nat).
  { destruct Hstop as [-> |(e & Ee & He)]; [destruct rest; [by left|right; cbn; lia]|].
    right. destruct k; [|lia]. rewrite take_0 in He. change (total []) with 0 in He.
    assert (e ∈ entries ds) as Hin%Hcap.
    { rewrite <- Hsplit. apply elem_of_app. right. by eapply list_elem_of_lookup_2. }
    lia. }
  destruct (decide (out = [])) as [Eo|Eo].
  - rewrite bool_decide_eq_true_2 by done. exists k, ds', (with_stream w1 (i32 (arg r 0)) ds'), (mem w1).
    assert (rest = []) as Er.
    { destruct Hk0 as [? | Hk0]; [done|]. rewrite Eo in Hlen. cbn in Hlen.
      pose proof (total_length (take k rest) ltac:(by apply Forall_take)). rewrite length_take in *. lia. }
    assert (Hpos : (pos ds + k <? length (entries ds))%nat = false).
    { apply Nat.ltb_ge. rewrite <- Hsplit, Er, app_nil_r, length_take. lia. }
    change (entries ds') with (entries ds). rewrite Hpos. cbv zeta. fold out.
    split_and!; try done; [by rewrite Eo|by rewrite Hm].
  - rewrite bool_decide_eq_false_2 by done. cbn [mem with_stream].
    destruct (copy_out (mem w1) (arg r 1) out) as [m|] eqn:Ec.
    + exists k, ds', {| dirs := <[i32 (arg r 0) := ds']> (dirs w1); mem := m |}, m.
      split_and!; try done.
      * intros _. eapply copy_out_in; [|exact Ec]. apply records_bytes.
      * rewrite (can_write_keeps _ _ _ _ _ _ Ec). by rewrite Hm.
    + exfalso. assert (Hs' : is_Some (copy_out (mem w1) (arg r 1) out)); [|rewrite Ec in Hs'; by destruct Hs'].
      apply copy_out_can. rewrite Hm. eapply can_write_prefix; [|exact Hwr]. lia.
Qed.

Lemma dirents_from_app l1 : forall l2 pos off,
  dirents_from (l1 ++ l2) pos off
  = dirents_from l1 pos off ++ dirents_from l2 (pos + length l1)%nat (off + total l1).
Proof.
  induction l1 as [|e l1 IH]; intros l2 pos off; cbn [app dirents_from length total].
  - by rewrite Nat.add_0_r, Z.add_0_r.
  - by rewrite IH, Nat.add_succ_r, Z.add_assoc.
Qed.

Lemma stream_advance ds k :
  stream_ok ds -> (k <= length (drop (pos ds) (entries ds)))%nat ->
  stream_ok {| entries := entries ds; pos := (pos ds + k)%nat; lazy_dir := [];
               byte_off := byte_off ds + total (take k (drop (pos ds) (entries ds))) |}.
Proof.
  intros [H1 H2 H3 H4] Hk. rewrite length_drop in Hk. split; cbn; try done; [lia|].
  rewrite H4, <- total_app. f_equal. by rewrite take_take_drop.
Qed.

Lemma parse_out ds k pos0 off :
  stream_ok ds -> pos0 = pos ds ->
  let es := take k (drop (pos ds) (entries ds)) in
  parse_dirents (concat (map record (dirents_from es pos0 off)))
  = Some (map seen_of (dirents_from es pos0 off)).
Proof.
  intros [H1 H2 H3 H4] -> es. apply parse_records; [|done].
  pose proof (total_length (entries ds) H1). apply dirents_from_ok.
  - unfold es. by apply Forall_take, Forall_drop.
  - unfold es. rewrite length_take, length_drop. lia.
Qed.

Lemma list_dir_spec r f : forall w w1 ds,
  dir_stream overlay_dir_union w (i32 (arg r 0)) = (w1, Some ds) -> stream_ok ds ->
  0 <= arg r 2 -> (forall e, e ∈ entries ds -> reclen_of e <= arg r 2) ->
  can_write (mem w) (arg r 1) (Z.to_nat (arg r 2)) = true ->
  (length (drop (pos ds) (entries ds)) < f)%nat ->
  list_dir f w r
  = Some (map seen_of (dirents_from (drop (pos ds) (entries ds)) (pos ds) (byte_off ds))).
Proof.
  induction f as [|f IH]; intros w w1 ds Hd Hs H0 Hcap Hwr Hf; [lia|]. cbn [list_dir].
  destruct (getdents_step w w1 r ds Hd Hs H0 Hcap Hwr) as
    (k & ds' & w' & m & Hk & Hk0 & Ew & Eds & Eg & Hin & Hwr').
  cbv zeta in Eg, Hin. set (rest := drop (pos ds) (entries ds)) in *.
  set (out := concat _) in *. rewrite Eg. cbn [value ret virtualize].
  assert (Hlen : Z.of_nat (length out) = total (take k rest)).
  { apply records_length, Forall_take, Forall_drop, st_entries, Hs. }
  pose proof (total_length (take k rest)
    ltac:(apply Forall_take, Forall_drop, st_entries, Hs)) as Htl. rewrite length_take in Htl.
  destruct (Z.eqb_spec (Z.of_nat (length out)) 0) as [E|E].
  { destruct Hk0 as [-> | Hk0]; [done|lia]. }
  destruct (Z.ltb_spec (Z.of_nat (length out)) 0); [lia|].
  rewrite Nat2Z.id, Ew. cbn [mem]. rewrite Hin by (intros ->; done).
  unfold out, rest. rewrite parse_out by done. fold rest. rewrite (IH _ w' ds').
  - f_equal. subst ds'. cbn [entries pos byte_off]. rewrite <- map_app.
    rewrite <- (take_drop k rest) at 3. rewrite dirents_from_app, length_take, Nat.min_l by done.
    unfold rest. by rewrite drop_drop.
  - subst w'. apply dir_stream_again; [by cbn; rewrite lookup_insert_eq|by subst ds'].
  - subst ds'. by apply stream_advance.
  - done.
  - by subst ds'.
  - done.
  - subst ds'. cbn [entries pos]. rewrite <- drop_drop. fold rest. rewrite length_drop.
    destruct Hk0 as [Er|Hk0]; [|lia].
    exfalso. apply E. rewrite Hlen, Er. by destruct k.
Qed.

(** C33. Reading a directory lists it: with a writable buffer large enough
    for its longest entry, calling getdents64 until it answers 0 returns, and
    the records a guest parses out of its buffer are exactly the entries from
    the stream's position on, in order, each once, with their names, types
    and inode numbers, and with offsets that continue the stream's. *)
Theorem getdents_lists_all w w1 r ds :
  dir_stream overlay_dir_union w (i32 (arg r 0)) = (w1, Some ds) -> stream_ok ds ->
  0 <= arg r 2 -> (forall e, e ∈ entries ds -> reclen_of e <= arg r 2) ->
  can_write (mem w) (arg r 1) (Z.to_nat (arg r 2)) = true ->
  list_dir (S (length (drop (pos ds) (entries ds)))) w r
  = Some (map seen_of (dirents_from (drop (pos ds) (entries ds)) (pos ds) (byte_off ds))).
Proof. intros Hd Hs H0 Hcap Hwr. apply (list_dir_spec r _ w w1); [done..|lia]. Qed.

(** ** Seeking *)

Lemma seek_loop_spec es : forall k idx cur,
  Forall entry_ok es -> 0 <= cur -> cur + total es < 2 ^ 63 -> (k <= length es)%nat ->
  seek_loop es idx cur (cur + total (take k es)) = ((idx + k)%nat, cur + total (take k es)).
Proof.
  induction es as [|e es IH]; intros k idx cur Hok Hc Ht Hk; cbn [seek_loop].
  - replace k with 0%nat by (cbn in Hk; lia). cbn. by rewrite Nat.add_0_r, Z.add_0_r.
  - apply Forall_cons in Hok as [He Hes]. pose proof (reclen_pos e He) as Hr.
    pose proof (total_nonneg es Hes) as Htn. cbn [total length] in Ht, Hk.
    destruct k as [|k]; cbn [take total].
    + destruct (Z.leb_spec (cur + 0) cur); [|lia]. by rewrite Nat.add_0_r, Z.add_0_r.
    + pose proof (total_nonneg (take k es) ltac:(by apply Forall_take)).
      destruct (Z.leb_spec (cur + (reclen_of e + total (take k es))) cur); [lia|].
      rewrite u64_small, Z.add_assoc by lia. rewrite IH by (done || lia).
      by rewrite Nat.add_succ_r.
Qed.

(** The cookie of an entry is the offset of the next one. *)
Lemma cookie_spec es : forall j pos off c,
  Forall entry_ok es -> 0 <= off -> off + total es < 2 ^ 63 ->
  map s_off (map seen_of (dirents_from es pos off)) !! j = Some c ->
  (j < length es)%nat /\ c = off + total (take (S j) es).
Proof.
  induction es as [|e es IH]; intros j pos off c Hok Ho Ht; cbn [dirents_from map]; [done|].
  apply Forall_cons in Hok as [He Hes]. pose proof (reclen_pos e He) as Hr.
  pose proof (total_nonneg es Hes) as Htn. cbn [total length] in *.
  destruct j as [|j]; cbn [lookup list_lookup].
  - intros [= <-]. split; [lia|]. cbn [dirent_of d_off take total].
    rewrite (u64_small (off + reclen_of e)), i64_small, u64_small by lia.
    destruct es; cbn [take total]; lia.
  - intros Hj. apply IH in Hj as [Hj ->]; [|done|lia|lia]. split; [lia|].
    cbn [take total]. lia.
Qed.

(** seekdir resumes where telldir was: seeking a directory stream to the
    d_off that was reported for an entry succeeds with that offset, and
    reading on from there lists exactly the entries that follow it; seeking
    to 0 lists the whole directory again. *)
Theorem seekdir_resumes w w1 rs r ds k :
  dir_stream overlay_dir_union w (i32 (arg rs 0)) = (w1, Some ds) -> stream_ok ds ->
  i32 (arg rs 2) = 0 -> 0 <= arg rs 1 < 2 ^ 63 ->
  (k = 0%nat /\ arg rs 1 = 0 \/
   exists j, k = S j /\
     map s_off (map seen_of (dirents_from (entries ds) 0 0)) !! j = Some (arg rs 1)) ->
  arg r 0 = arg rs 0 -> 0 <= arg r 2 -> (forall e, e ∈ entries ds -> reclen_of e <= arg r 2) ->
  can_write (mem w) (arg r 1) (Z.to_nat (arg r 2)) = true ->
  exists w2, do_lseek overlay_dir_union w rs = (w2, value (arg rs 1)) /\
    list_dir (S (length (entries ds))) w2 r
    = Some (map seen_of (dirents_from (drop k (entries ds)) k (arg rs 1))).
Proof.
  intros Hd Hs Hwh Hoff Hk Hfd H0 Hcap Hwr.
  destruct (dir_stream_built w _ w1 ds Hd) as (Hl & Hz & Hm).
  pose proof (st_entries _ Hs) as Hok. pose proof (st_total _ Hs) as Htt.
  assert (Hc : (k <= length (entries ds))%nat /\ arg rs 1 = total (take k (entries ds))).
  { destruct Hk as [[-> ->]|(j & -> & Hj)]; [split; [lia|done]|].
    apply cookie_spec in Hj as [Hj ->]; [|done|lia|lia]. split; [lia|done]. }
  destruct Hc as [Hkl Hc]. unfold do_lseek. rewrite Hd, Hwh. cbn [Z.eqb].
  rewrite (i64_small (arg rs 1)) by lia. destruct (Z.ltb_spec (arg rs 1) 0); [lia|].
  pose proof (seek_loop_spec (entries ds) k 0 0 Hok ltac:(lia) ltac:(lia) Hkl) as Hseek.
  rewrite !Z.add_0_l in Hseek. cbn [Nat.add] in Hseek. rewrite Hc, Hseek, i64_small
    by (rewrite <- Hc; lia). rewrite <- Hc.
  eexists. split; [done|].
  match goal with |- list_dir _ ?w2 _ = _ =>
    rewrite (list_dir_spec r _ w2 w2 {| entries := entries ds; pos := k; lazy_dir := lazy_dir ds;
                                        byte_off := arg rs 1 |}) end;
    [done|..]; cbn [entries pos byte_off]; try done.
  - apply dir_stream_again; [|done]. cbn [with_stream dirs]. by rewrite Hfd, lookup_insert_eq.
  - cbn [with_stream mem]. by rewrite Hm.
  - rewrite length_drop. lia.
Qed.

End reading.
(** ** Witnesses *)

Import Flat.

Definition ex_entries : list VirtualDirent :=
  [{| v_name := lit "."; v_type := v_dir; v_ino := 0 |};
   {| v_name := lit "maps"; v_type := v_regular; v_ino := 77 |};
   {| v_name := lit "exe"; v_type := v_symlink; v_ino := 0 |}].
Definition ex_stream : DirStream :=
  {| entries := ex_entries; pos := 0; lazy_dir := []; byte_off := 0 |}.
Definition ex_dirs : World (M := gmap Z Z) := {| dirs := {[3 := ex_stream]}; mem := zeroed 4096 48 |}.
Definition ex_read : Regs := {| args := [3; 4096; 48]; regs_nr := 0 |}.

Lemma ex_stream_ok : stream_ok ex_stream.
Proof.
  split; [|vm_compute; done|cbn; lia|done]. cbn [entries ex_stream ex_entries].
  repeat constructor; cbn; try lia; intros c Hc;
    repeat (apply elem_of_cons in Hc as [-> | Hc]; [vm_compute; discriminate|]);
    by apply not_elem_of_nil in Hc.
Qed.

Lemma ex_cap e : e ∈ entries ex_stream -> reclen_of e <= arg ex_read 2.
Proof.
  intros Hc. cbn [entries ex_stream ex_entries] in Hc.
  repeat (apply elem_of_cons in Hc as [-> | Hc]; [vm_compute; discriminate|]).
  by apply not_elem_of_nil in Hc.
Qed.

Lemma getdents_lists_all_witness :
  option_map (map s_name) (list_dir (fun _ => []) 4 ex_dirs ex_read)
  = Some (map (fun e => map byte_of (v_name e)) ex_entries).
Proof.
  rewrite (getdents_lists_all (fun _ => []) ex_dirs ex_dirs ex_read ex_stream eq_refl ex_stream_ok);
    [vm_compute; reflexivity|vm_compute; discriminate|exact ex_cap|vm_compute; reflexivity].
Defined.

Lemma seekdir_resumes_witness :
  exists w2, do_lseek (fun _ => []) ex_dirs {| args := [3; 24; 0]; regs_nr := 0 |} = (w2, value 24) /\
    option_map (map s_name) (list_dir (fun _ => []) 4 w2 ex_read)
    = Some (map (fun e => map byte_of (v_name e)) (drop 1 ex_entries)).
Proof.
  destruct (seekdir_resumes (fun _ => []) ex_dirs ex_dirs {| args := [3; 24; 0]; regs_nr := 0 |} ex_read
              ex_stream 1 eq_refl ex_stream_ok) as (w2 & H1 & H2).
  - reflexivity.
  - vm_compute. split; [discriminate|reflexivity].
  - right. exists 0%nat. split; [reflexivity|vm_compute; reflexivity].
  - reflexivity.
  - vm_compute; discriminate.
  - exact ex_cap.
  - vm_compute; reflexivity.
  - exists w2. split; [exact H1|]. change 4%nat with (S (length (entries ex_stream))).
    rewrite H2. vm_compute. reflexivity.
Defined.

(** The cursor moves before the copy: a call that answers EFAULT has already
    passed the entries it did not deliver. *)
Lemma failed_getdents_skips :
  exists w', do_getdents64 (fun _ => []) ex_dirs {| args := [3; 0; 4096]; regs_nr := 0 |}
             = (w', error efault) /\
    list_dir (fun _ => []) 4 w' ex_read = Some [].
Proof. eexists. split; [vm_compute; reflexivity|vm_compute; reflexivity]. Qed.

End Dirents.
