(* ===== verification/HostFs.v ===== *)
(** The host file system, as the portable core uses it.

    The core calls [lstat], [stat], [readlink], [opendir], [mkdir], [chmod],
    [open], [read], [write], [unlink] and [rmdir] on the machine it runs on.
    [HostFs] is that interface, [HostLaws] what POSIX promises of it and the
    theorems rely on, [HostIo] what it promises of [read], [write] and
    [chmod], which may all fail or fall short.

    [Tree] is one host: directories keyed by their component lists, paths
    walked a component at a time with symbolic links followed, which shows
    that the laws can hold and lets examples run. *)

From S2P Require Import Prelude Abi Paths.
Import Abi Paths.

Module HostFs.

Inductive Kind := KReg | KDir | KLnk (target : str) | KOther.

(** What [lstat] reports: the kind, the permission bits, the inode. *)
Record Node := { n_kind : Kind; n_mode : Z; n_ino : Z }.

#[global] Instance Kind_eq_dec : EqDecision Kind.
Proof. solve_decision. Defined.
#[global] Instance Node_eq_dec : EqDecision Node.
Proof. solve_decision. Defined.

Definition is_link (nd : Node) : bool := match n_kind nd with KLnk _ => true | _ => false end.
Definition is_directory (nd : Node) : bool := bool_decide (n_kind nd = KDir).

(** [d_type] of a directory entry, as far as the code tells it apart. *)
Inductive EntType := DT_LNK | DT_DIR | DT_REG | DT_OTHER.

Record HostEnt := { he_name : str; he_type : EntType; he_ino : Z }.

(** A call gives a value ([inl]) or an [errno] ([inr]). *)
Class HostFs (F : Type) := {
  Handle : Type;
  lstat : F -> str -> Node + Z;
  stat : F -> str -> Node + Z;
  root_dir : F -> Handle + Z;
  open_dir_at : F -> Handle -> str -> Handle + Z;
  lstat_at : F -> Handle -> str -> Node + Z;
  stat_at : F -> Handle -> str -> Node + Z;
  opendir : F -> str -> list HostEnt + Z;
  opendir_at : F -> Handle -> str -> list HostEnt + Z;
  mkdir : F -> str -> Z -> F * bool;
  chmod : F -> str -> Z -> F;
  open_in : F -> str -> option Z;
  open_out : F -> str -> Z -> F * option Z;
  read : F -> Z -> nat -> nat -> list Z;
  write : F -> Z -> list Z -> F * Z;
  bytes : F -> Z -> list Z;
  unlink : F -> str -> F;
  rmdir : F -> str -> F
}.

Definition ENOENT : Z := errno_value enoent.
Definition EINVAL : Z := errno_value einval.
Definition ENOTDIR : Z := errno_value enotdir.
Definition ELOOP : Z := errno_value eloop.
Definition ENAMETOOLONG : Z := errno_value enametoolong.

(** [readlink] into a buffer of 4096 bytes, one kept free. *)
Definition link_text (r : Node + Z) : str + Z :=
  match r with
  | inl nd => match n_kind nd with KLnk t => inl (take 4095 t) | _ => inr EINVAL end
  | inr e => inr e
  end.

Definition readlink `{HostFs F} (f : F) (p : str) : str + Z := link_text (lstat f p).

(** ** Laws *)

(** Every file of [f] is in [f'], with its bytes. *)
Definition keeps `{HostFs F} (f f' : F) : Prop :=
  forall q nd, lstat f q = inl nd -> lstat f' q = inl nd /\ bytes f' (n_ino nd) = bytes f (n_ino nd).

(** No path of [f] leads to inode [i]. *)
Definition fresh `{HostFs F} (f : F) (i : Z) : Prop :=
  forall q nd, lstat f q = inl nd -> n_ino nd <> i.

Class HostLaws (F : Type) `{HostFs F} : Prop := {
  stat_lstat : forall f p nd, lstat f p = inl nd -> is_link nd = false -> stat f p = inl nd;
  mkdir_fails : forall f p m f', mkdir f p m = (f', false) -> f' = f;
  mkdir_makes : forall f p m f', mkdir f p m = (f', true) ->
    keeps f f' /\ exists nd, lstat f' p = inl nd /\ n_kind nd = KDir /\ fresh f (n_ino nd);
  chmod_others : forall f p m nd, lstat f p = inl nd -> is_link nd = false ->
    forall q nd', lstat f q = inl nd' -> n_ino nd' <> n_ino nd ->
    lstat (chmod f p m) q = inl nd' /\ bytes (chmod f p m) (n_ino nd') = bytes f (n_ino nd');
  open_in_stat : forall f p i, open_in f p = Some i ->
    exists nd, stat f p = inl nd /\ n_ino nd = i;
  open_out_fails : forall f p m f' e, lstat f p = inr e -> open_out f p m = (f', None) -> f' = f;
  open_out_makes : forall f p m f' i e, lstat f p = inr e -> open_out f p m = (f', Some i) ->
    keeps f f' /\ bytes f' i = [] /\ fresh f i /\
    exists nd, lstat f' p = inl nd /\ n_kind nd = KReg /\ n_ino nd = i;
  write_others : forall f i bs q nd, lstat f q = inl nd ->
    lstat (write f i bs).1 q = inl nd /\
    (n_ino nd <> i -> bytes (write f i bs).1 (n_ino nd) = bytes f (n_ino nd))
}.

(** Input and output on an open file: [read] gives a first part of what is
    there (nothing at the end, and on an error), [write] takes a first part of
    what it is given (nothing on an error), a mode change takes or fails. *)
Class HostIo (F : Type) `{HostFs F} : Prop := {
  read_part : forall f i off n, read f i off n `prefix_of` take n (drop off (bytes f i));
  write_part : forall f i bs f' r, write f i bs = (f', r) ->
    r <= Z.of_nat (length bs) /\ bytes f' i = bytes f i ++ take (Z.to_nat r) bs;
  chmod_may : forall f p m nd, lstat f p = inl nd -> is_link nd = false ->
    (forall i, bytes (chmod f p m) i = bytes f i) /\
    exists m', lstat (chmod f p m) p = inl {| n_kind := n_kind nd; n_mode := m'; n_ino := n_ino nd |} /\
               (m' = m \/ m' = n_mode nd)
}.

Lemma keeps_refl `{HostFs F} (f : F) : keeps f f.
Proof. by intros q nd Hq. Qed.

Lemma keeps_trans `{HostFs F} (f g h : F) : keeps f g -> keeps g h -> keeps f h.
Proof.
  intros H1 H2 q nd Hq. destruct (H1 q nd Hq) as [Hg Eg]. destruct (H2 q nd Hg) as [Hh Eh].
  split; [done|]. by rewrite Eh, Eg.
Qed.

#[global] Instance keeps_preorder `{HostFs F} : PreOrder (@keeps F _).
Proof. split; [exact keeps_refl|exact keeps_trans]. Qed.

End HostFs.

(** * A host with symbolic links *)

Module Tree.
Import HostFs.

Record Tree := { nodes : gmap (list str) Node; data : gmap Z (list Z) }.

Definition root_node : Node := {| n_kind := KDir; n_mode := 493; n_ino := 1 |}.

Definition get (t : Tree) (k : list str) : option Node :=
  match nodes t !! k with
  | Some nd => Some nd
  | None => if decide (k = []) then Some root_node else None
  end.

(** The walk: the key of the last component, which may be absent.  [n]
    bounds the components visited; running out is [ELOOP]. *)
Fixpoint walk (n : nat) (t : Tree) (at_ cs : list str) (follow : bool) : list str + Z :=
  match n, cs with
  | _, [] => inl at_
  | O, _ => inr ELOOP
  | S n', c :: cs' =>
      match get t at_ with
      | None => inr ENOENT
      | Some nd =>
          if negb (is_directory nd) then inr ENOTDIR
          else if decide (c = dot) then walk n' t at_ cs' follow
          else if decide (c = dotdot) then walk n' t (removelast at_) cs' follow
          else
            let k := at_ ++ [c] in
            match get t k with
            | None => if decide (cs' = []) then inl k else inr ENOENT
            | Some nd' =>
                match n_kind nd' with
                | KLnk target =>
                    if negb follow && bool_decide (cs' = []) then inl k
                    else walk n' t (if decide (head target = Some slash) then [] else at_)
                           (components target ++ cs') follow
                | _ => walk n' t k cs' follow
                end
            end
      end
  end.

Definition walk_fuel : nat := 200.

Definition locate (t : Tree) (at_ : list str) (p : str) (follow : bool) : list str + Z :=
  if (4095 <? Z.of_nat (length p)) then inr ENAMETOOLONG
  else if decide (p = []) then inr ENOENT
  else walk walk_fuel t at_ (components p) follow.

Definition node_at (t : Tree) (at_ : list str) (p : str) (follow : bool) : Node + Z :=
  match locate t at_ p follow with
  | inl k => match get t k with Some nd => inl nd | None => inr ENOENT end
  | inr e => inr e
  end.

Definition dir_at (t : Tree) (at_ : list str) (p : str) : list str + Z :=
  match locate t at_ p true with
  | inl k => match get t k with
             | Some nd => if is_directory nd then inl k else inr ENOTDIR
             | None => inr ENOENT
             end
  | inr e => inr e
  end.

Definition ent_type (nd : Node) : EntType :=
  match n_kind nd with KLnk _ => DT_LNK | KDir => DT_DIR | KReg => DT_REG | KOther => DT_OTHER end.

Definition entries (t : Tree) (k : list str) : list HostEnt :=
  omap (fun '(q, nd) =>
          match last q with
          | Some c => if decide (q = k ++ [c])
                      then Some {| he_name := c; he_type := ent_type nd; he_ino := n_ino nd |}
                      else None
          | None => None
          end) (map_to_list (nodes t)).

Definition list_at (t : Tree) (at_ : list str) (p : str) : list HostEnt + Z :=
  match dir_at t at_ p with inl k => inl (entries t k) | inr e => inr e end.

Definition new_ino (t : Tree) : Z := map_fold (fun _ nd a => Z.max (n_ino nd) a) 1 (nodes t) + 1.

Definition put (t : Tree) (k : list str) (nd : Node) : Tree :=
  {| nodes := <[k := nd]> (nodes t); data := data t |}.

Definition mkdir_tree (t : Tree) (p : str) (m : Z) : Tree * bool :=
  match locate t [] p false with
  | inl k => match get t k with
             | Some _ => (t, false)
             | None => (put t k {| n_kind := KDir; n_mode := m; n_ino := new_ino t |}, true)
             end
  | inr _ => (t, false)
  end.

Definition chmod_tree (t : Tree) (p : str) (m : Z) : Tree :=
  match locate t [] p true with
  | inl k => match get t k with
             | Some nd => put t k {| n_kind := n_kind nd; n_mode := m; n_ino := n_ino nd |}
             | None => t
             end
  | inr _ => t
  end.

Definition open_in_tree (t : Tree) (p : str) : option Z :=
  match node_at t [] p true with
  | inl nd => if is_directory nd then None else Some (n_ino nd)
  | inr _ => None
  end.

Definition open_out_tree (t : Tree) (p : str) (m : Z) : Tree * option Z :=
  match locate t [] p true with
  | inl k =>
      match get t k with
      | Some nd => if is_directory nd then (t, None)
                   else ({| nodes := nodes t; data := <[n_ino nd := []]> (data t) |}, Some (n_ino nd))
      | None => let i := new_ino t in
                ({| nodes := <[k := {| n_kind := KReg; n_mode := m; n_ino := i |}]> (nodes t);
                    data := <[i := []]> (data t) |}, Some i)
      end
  | inr _ => (t, None)
  end.

Definition bytes_tree (t : Tree) (i : Z) : list Z := default [] (data t !! i).

Definition write_tree (t : Tree) (i : Z) (bs : list Z) : Tree * Z :=
  ({| nodes := nodes t; data := <[i := bytes_tree t i ++ bs]> (data t) |}, Z.of_nat (length bs)).

Definition unlink_tree (t : Tree) (p : str) : Tree :=
  match locate t [] p false with
  | inl k => match get t k with
             | Some nd => if is_directory nd then t
                          else {| nodes := delete k (nodes t); data := data t |}
             | None => t
             end
  | inr _ => t
  end.

Definition rmdir_tree (t : Tree) (p : str) : Tree :=
  match locate t [] p false with
  | inl k => match get t k, entries t k with
             | Some nd, [] => if is_directory nd
                              then {| nodes := delete k (nodes t); data := data t |} else t
             | _, _ => t
             end
  | inr _ => t
  end.

#[global] Instance tree_host : HostFs Tree := {
  Handle := list str;
  lstat t p := node_at t [] p false;
  stat t p := node_at t [] p true;
  root_dir t := inl [];
  open_dir_at t h p := dir_at t h p;
  lstat_at t h p := node_at t h p false;
  stat_at t h p := node_at t h p true;
  opendir t p := list_at t [] p;
  opendir_at t h p := list_at t h p;
  mkdir := mkdir_tree;
  chmod := chmod_tree;
  open_in := open_in_tree;
  open_out := open_out_tree;
  read t i off n := take n (drop off (bytes_tree t i));
  write := write_tree;
  bytes := bytes_tree;
  unlink := unlink_tree;
  rmdir := rmdir_tree
}.

(** ** The tree satisfies the laws *)

(** The kinds of [t]'s nodes are those of [t'], so walks of [t] that end on a
    node are walks of [t']. *)
Definition sub_kinds (t t' : Tree) : Prop :=
  forall k nd, get t k = Some nd -> exists nd', get t' k = Some nd' /\ n_kind nd' = n_kind nd.

Lemma walk_mono n : forall t t' a cs fl k nd,
  sub_kinds t t' -> walk n t a cs fl = inl k -> get t k = Some nd -> walk n t' a cs fl = inl k.
Proof.
  induction n as [|n IH]; intros t t' a [|c cs] fl k nd Hs; cbn [walk]; try done.
  destruct (get t a) as [na|] eqn:Ea; [|done].
  destruct (Hs _ _ Ea) as (na' & Ea' & Ka). rewrite Ea'. unfold is_directory. rewrite Ka.
  destruct (negb _); [done|]. destruct (decide (c = dot)); [by eauto|].
  destruct (decide (c = dotdot)); [by eauto|].
  destruct (get t (a ++ [c])) as [nc|] eqn:Ec.
  - destruct (Hs _ _ Ec) as (nc' & Ec' & Kc). rewrite Ec', Kc.
    destruct (n_kind nc); eauto. destruct (negb fl && _); eauto.
  - destruct (decide (cs = [])); [|done]. intros [= <-]. congruence.
Qed.

(** With the same nodes of the same kinds, every walk is the same. *)
Lemma walk_same n : forall t t' a cs fl,
  (forall k, option_map n_kind (get t' k) = option_map n_kind (get t k)) ->
  walk n t' a cs fl = walk n t a cs fl.
Proof.
  induction n as [|n IH]; intros t t' a [|c cs] fl Hs; cbn [walk]; try done.
  pose proof (Hs a) as Ea. pose proof (Hs (a ++ [c])) as Ec. unfold is_directory.
  destruct (get t' a) as [na'|], (get t a) as [na|]; try done. cbn in Ea. injection Ea as ->.
  destruct (negb _); [done|]. destruct (decide (c = dot)); [by eauto|].
  destruct (decide (c = dotdot)); [by eauto|].
  destruct (get t' (a ++ [c])) as [nc'|], (get t (a ++ [c])) as [nc|]; try done. cbn in Ec.
  injection Ec as ->. destruct (n_kind nc); eauto. destruct (negb fl && _); eauto.
Qed.

(** Following the last component makes no difference unless it is a link. *)
Lemma walk_follow n : forall t a cs,
  match walk n t a cs false with
  | inl k => match get t k with
             | Some nd => is_link nd = false -> walk n t a cs true = inl k
             | None => walk n t a cs true = inl k
             end
  | inr e => walk n t a cs true = inr e
  end.
Proof.
  induction n as [|n IH]; intros t a [|c cs]; cbn [walk]; try done.
  1,2: by destruct (get t a).
  destruct (get t a) as [na|]; [|done]. destruct (negb (is_directory na)); [done|].
  destruct (decide (c = dot)); [apply IH|]. destruct (decide (c = dotdot)); [apply IH|].
  destruct (get t (a ++ [c])) as [nc|] eqn:Ec.
  - destruct (n_kind nc) as [| |tgt|] eqn:Kc; try apply IH. cbn [negb andb].
    destruct (decide (cs = [])) as [-> | Hc].
    + rewrite bool_decide_eq_true_2 by done. rewrite Ec. unfold is_link. by rewrite Kc.
    + rewrite bool_decide_eq_false_2 by done. apply IH.
  - destruct (decide (cs = [])); [|done]. by rewrite Ec.
Qed.

Lemma get_put t k nd q : get (put t k nd) q = if decide (q = k) then Some nd else get t q.
Proof.
  unfold get, put. cbn [nodes]. destruct (decide (q = k)) as [-> | Hq].
  - by rewrite lookup_insert_eq.
  - by rewrite lookup_insert_ne.
Qed.

Lemma get_some_ino t k nd : get t k = Some nd -> n_ino nd < new_ino t.
Proof.
  unfold get, new_ino.
  assert (H : forall m : gmap (list str) Node, 1 <= map_fold (fun _ nd a => Z.max (n_ino nd) a) 1 m /\
    (forall q x, m !! q = Some x -> n_ino x <= map_fold (fun _ nd a => Z.max (n_ino nd) a) 1 m)).
  { intros m. apply (map_fold_weak_ind (fun r m => 1 <= r /\ forall q x, m !! q = Some x -> n_ino x <= r)).
    - split; [done|]. intros q x. by rewrite lookup_empty.
    - intros i x m' r Hi [H1 H2]. split; [lia|]. intros q y. rewrite lookup_insert_Some.
      intros [[_ ->]|[_ Hy]]; [lia|]. specialize (H2 _ _ Hy). lia. }
  destruct (H (nodes t)) as [H1 H2]. destruct (nodes t !! k) as [x|] eqn:E.
  - intros [= <-]. specialize (H2 _ _ E). lia.
  - case_decide; [|done]. intros [= <-]. cbn. lia.
Qed.

Lemma lstat_some t p nd :
  lstat t p = inl nd <-> exists k, locate t [] p false = inl k /\ get t k = Some nd.
Proof.
  cbn. unfold node_at. destruct (locate t [] p false) as [k|e].
  - split.
    + destruct (get t k) eqn:E; [|done]. intros [= ->]. eauto.
    + by intros (k' & [= <-] & ->).
  - split; [done|naive_solver].
Qed.

Lemma locate_mono t t' a p fl k nd :
  sub_kinds t t' -> locate t a p fl = inl k -> get t k = Some nd -> locate t' a p fl = inl k.
Proof.
  unfold locate. destruct (_ <? _); [done|]. destruct (decide (p = [])); [done|].
  apply walk_mono.
Qed.

(** Adding a node where there was none keeps every file. *)
Lemma add_keeps t t' k nd :
  get t k = None -> nodes t' = <[k := nd]> (nodes t) ->
  (forall i, i < new_ino t -> bytes_tree t' i = bytes_tree t i) -> keeps t t'.
Proof.
  intros Ek En Hb.
  assert (Hg : forall q, get t' q = if decide (q = k) then Some nd else get t q).
  { intros q. rewrite <- get_put. unfold get, put. cbn. by rewrite En. }
  intros q n. rewrite lstat_some. intros (kq & Eq & Eg). split.
  - apply lstat_some. exists kq. split.
    + eapply locate_mono; [|done|done]. intros k' n' Ek'. exists n'. split; [|done].
      rewrite Hg. case_decide; [congruence|done].
    + rewrite Hg. case_decide; [congruence|done].
  - apply Hb. by eapply get_some_ino.
Qed.

(** The new node is where the path leads. *)
Lemma walk_put n : forall t a cs fl k nd,
  get t k = None -> walk n t a cs fl = inl k -> is_link nd = false ->
  walk n (put t k nd) a cs fl = inl k.
Proof.
  induction n as [|n IH]; intros t a [|c cs] fl k nd Hk; cbn [walk]; try done.
  destruct (get t a) as [na|] eqn:Ea; [|done].
  rewrite get_put. rewrite (decide_False (P := a = k)) by congruence. rewrite Ea.
  destruct (negb _); [done|]. destruct (decide (c = dot)); [by eauto|].
  destruct (decide (c = dotdot)); [by eauto|].
  rewrite get_put. destruct (get t (a ++ [c])) as [nc|] eqn:Ec.
  - rewrite (decide_False (P := a ++ [c] = k)) by congruence. destruct (n_kind nc); eauto. destruct (negb fl && _); eauto.
  - destruct (decide (cs = [])) as [-> |]; [|done]. intros [= <-] Hl. rewrite (decide_True (P := a ++ [c] = a ++ [c])) by done.
    unfold is_link in Hl. destruct (n_kind nd); [destruct n; done..|done|destruct n; done].
Qed.

Lemma locate_put t a p fl k nd :
  get t k = None -> locate t a p fl = inl k -> is_link nd = false ->
  locate (put t k nd) a p fl = inl k.
Proof.
  unfold locate. destruct (_ <? _); [done|]. destruct (decide (p = [])); [done|]. apply walk_put.
Qed.

Lemma locate_same t t' a p fl :
  (forall k, option_map n_kind (get t' k) = option_map n_kind (get t k)) ->
  locate t' a p fl = locate t a p fl.
Proof.
  intros E. unfold locate. destruct (_ <? _); [done|]. destruct (decide (p = [])); [done|].
  by apply walk_same.
Qed.

Lemma locate_follow t p :
  match locate t [] p false with
  | inl k => match get t k with
             | Some nd => is_link nd = false -> locate t [] p true = inl k
             | None => locate t [] p true = inl k
             end
  | inr e => locate t [] p true = inr e
  end.
Proof.
  unfold locate. destruct (_ <? _); [done|]. destruct (decide (p = [])); [done|].
  apply walk_follow.
Qed.

Lemma tree_fresh t : fresh t (new_ino t).
Proof. intros q nd. rewrite lstat_some. intros (k & _ & E) Hi. apply get_some_ino in E. lia. Qed.

Lemma chmod_at t p m nd k :
  locate t [] p false = inl k -> get t k = Some nd -> is_link nd = false ->
  chmod t p m = put t k {| n_kind := n_kind nd; n_mode := m; n_ino := n_ino nd |}.
Proof.
  intros Ek Eg Hl. pose proof (locate_follow t p) as H. rewrite Ek, Eg in H.
  cbn. unfold chmod_tree. by rewrite (H Hl), Eg.
Qed.

(** A mode change keeps the kinds, hence every walk. *)
Lemma chmod_walks t k nd m a p fl :
  get t k = Some nd ->
  locate (put t k {| n_kind := n_kind nd; n_mode := m; n_ino := n_ino nd |}) a p fl = locate t a p fl.
Proof.
  intros E. apply locate_same. intros q. rewrite get_put. case_decide; subst; [by rewrite E|done].
Qed.

Lemma open_out_absent t p m e f' r :
  lstat t p = inr e -> open_out t p m = (f', r) ->
  (f' = t /\ r = None) \/
  exists k, locate t [] p false = inl k /\ get t k = None /\ r = Some (new_ino t) /\
    f' = {| nodes := <[k := {| n_kind := KReg; n_mode := m; n_ino := new_ino t |}]> (nodes t);
            data := <[new_ino t := []]> (data t) |}.
Proof.
  cbn. unfold node_at, open_out_tree. pose proof (locate_follow t p) as H.
  destruct (locate t [] p false) as [k|e'].
  - destruct (get t k) eqn:Eg; [done|]. rewrite H, Eg. intros _ [= <- <-]. right. eauto.
  - rewrite H. intros _ [= <- <-]. by left.
Qed.

Lemma lstat_nodes t t' p : nodes t' = nodes t -> lstat t' p = lstat t p.
Proof.
  intros E. assert (Hg : forall k, get t' k = get t k) by (intros k; unfold get; by rewrite E).
  cbn. unfold node_at. rewrite (locate_same t t') by (intros k; by rewrite Hg).
  destruct (locate t [] p false); [by rewrite Hg|done].
Qed.

#[global] Instance tree_laws : HostLaws Tree.
Proof.
  split.
  - intros t p nd. rewrite lstat_some. intros (k & Ek & Eg) Hl. cbn. unfold node_at.
    pose proof (locate_follow t p) as H. rewrite Ek, Eg in H. by rewrite (H Hl), Eg.
  - intros t p m t'. cbn. unfold mkdir_tree.
    destruct (locate t [] p false) as [k|]; [|by intros [= <-]].
    destruct (get t k); by intros [= <-].
  - intros t p m t'. cbn. unfold mkdir_tree. destruct (locate t [] p false) as [k|] eqn:Ek; [|done].
    destruct (get t k) eqn:Eg; [done|]. intros [= <-]. split; [by eapply add_keeps|].
    exists {| n_kind := KDir; n_mode := m; n_ino := new_ino t |}.
    split; [|split; [done|apply tree_fresh]]. apply lstat_some. exists k.
    split; [by apply locate_put|]. by rewrite get_put, decide_True.
  - intros t p m nd. rewrite lstat_some. intros (k & Ek & Eg) Hl q nd'. rewrite lstat_some.
    intros (kq & Eq & Egq) Hi. rewrite (chmod_at t p m nd k) by done. split; [|done].
    apply lstat_some. exists kq. split; [by rewrite chmod_walks|].
    rewrite get_put, decide_False; [done|]. intros ->. congruence.
  - intros t p i. cbn. unfold open_in_tree. destruct (node_at t [] p true) as [nd|]; [|done].
    destruct (is_directory nd); [done|]. intros [= <-]. eauto.
  - intros t p m f' e He Ho. destruct (open_out_absent t p m e f' None He Ho) as [[? _]|H]; [done|].
    by destruct H as (k & _ & _ & [=] & _).
  - intros t p m f' i e He Ho.
    destruct (open_out_absent t p m e f' (Some i) He Ho) as [[_ [=]]|(k & Ek & Eg & [= ->] & ->)].
    split; [|split; [|split; [apply tree_fresh|]]].
    + eapply add_keeps; [done|reflexivity|]. intros i Hi. unfold bytes_tree. cbn [data].
      by rewrite lookup_insert_ne by lia.
    + cbn. unfold bytes_tree. cbn [data]. by rewrite lookup_insert_eq.
    + set (nd := {| n_kind := KReg; n_mode := m; n_ino := new_ino t |}). exists nd.
      rewrite (lstat_nodes (put t k nd)) by done. split; [|done]. apply lstat_some. exists k.
      split; [by apply locate_put|]. by rewrite get_put, decide_True.
  - intros t i bs q nd Hq. split; [by rewrite (lstat_nodes t)|]. intros Hi. cbn. unfold bytes_tree.
    cbn [data]. by rewrite lookup_insert_ne.
Qed.

#[global] Instance tree_io : HostIo Tree.
Proof.
  split.
  - done.
  - intros t i bs f' r [= <- <-]. split; [done|]. cbn. unfold bytes_tree at 1. cbn [data].
    rewrite lookup_insert_eq, Nat2Z.id, firstn_all. done.
  - intros t p m nd. rewrite lstat_some. intros (k & Ek & Eg) Hl.
    rewrite (chmod_at t p m nd k) by done. split; [done|]. exists m. split; [|by left]. apply lstat_some. exists k.
    split; [by rewrite chmod_walks|]. by rewrite get_put, decide_True.
Qed.

End Tree.
