(* ===== verification/Whiteouts.v ===== *)
(** The whiteout set of the overlay and its journal
    ([add_whiteout], [clear_whiteout], [load_whiteouts], [rewrite_whiteouts]
    in [include/linuxity/kernel/file_namespace.hpp]).

    A file that lives only in the read-only lower layer is removed by
    recording its guest path.  The set is kept in memory and journalled to a
    file of the upper layer: a line per removal, a line prefixed with [!] per
    re-creation.  [io] says whether the journal can be opened; the iteration
    order of the hash set is the argument [order]. *)

From S2P Require Import Prelude CText.
Import CText.

Module Whiteouts.

(** [whiteouts_] and the text of the journal ([None] when none is attached). *)
Record Whiteouts := { wset : gset str; wjournal : option str }.

Definition is_whiteout (s : Whiteouts) (p : str) : bool := bool_decide (p ∈ wset s).

Definition bang : ascii := "!"%char.

(** Append to the journal: [fopen(.., "a")], [fputs], [fclose]. *)
Definition append_line (io : bool) (s : Whiteouts) (l : str) : Whiteouts :=
  match wjournal s with
  | Some text => if io then {| wset := wset s; wjournal := Some (text ++ l) |} else s
  | None => s
  end.

Definition add_whiteout (io : bool) (s : Whiteouts) (p : str) : Whiteouts :=
  if is_whiteout s p then s
  else append_line io {| wset := {[ p ]} ∪ wset s; wjournal := wjournal s |} (c_str p ++ [nl]).

Definition clear_whiteout (io : bool) (s : Whiteouts) (p : str) : Whiteouts :=
  if is_whiteout s p
  then append_line io {| wset := wset s ∖ {[ p ]}; wjournal := wjournal s |} (bang :: c_str p ++ [nl])
  else s.

Definition clear_whiteout_if_any (io : bool) (s : Whiteouts) (p : str) : Whiteouts :=
  if bool_decide (wset s = ∅) then s else clear_whiteout io s p.

(** One line of the journal. *)
Definition load_line (t : gset str) (line : str) : gset str :=
  match strip_eol (c_str line) with
  | [] => t
  | c :: s => if decide (c = bang) then t ∖ {[ s ]} else {[ c :: s ]} ∪ t
  end.

Definition wline_max : nat := S (Z.to_nat 4094).

(** [load_whiteouts]: the set and the number of lines; [f] is the journal's
    text when the file can be opened. *)
Definition load_whiteouts (s : Whiteouts) (f : option str) : Whiteouts * Z :=
  match f with
  | None => (s, 0)
  | Some text =>
      let ls := read_lines wline_max text in
      ({| wset := fold_left load_line ls (wset s); wjournal := Some text |}, Z.of_nat (length ls))
  end.

(** [rewrite_whiteouts]: the journal becomes the live set. *)
Definition rewrite_whiteouts (io : bool) (order : gset str -> list str) (s : Whiteouts) : Whiteouts :=
  if io then {| wset := wset s; wjournal := Some (concat (map (fun p => c_str p ++ [nl]) (order (wset s)))) |}
  else s.

(** The part of [mount_host] that attaches the journal found in the upper
    layer; only the root process compacts. *)
Definition attach (io is_root : bool) (order : gset str -> list str) (s : Whiteouts) (f : option str) :
    Whiteouts :=
  let s := {| wset := wset s; wjournal := Some [] |} in
  let '(s, wl) := load_whiteouts s f in
  if is_root && (1024 <? wl) && (Z.of_nat (size (wset s)) * 4 <? wl)
  then rewrite_whiteouts io order s else s.

(** What happens to the set while a guest runs. *)
Inductive Change := Removed (p : str) | Created (p : str).

Definition change_path (c : Change) : str := match c with Removed p | Created p => p end.

Definition apply (io : bool) (s : Whiteouts) (c : Change) : Whiteouts :=
  match c with Removed p => add_whiteout io s p | Created p => clear_whiteout_if_any io s p end.

(** A path the journal's line format can hold: absolute, of a length
    [fgets] returns whole, without NUL or newline, not ending in a carriage
    return. *)
Definition recordable (p : str) : Prop :=
  head p = Some slash /\ (length p < 4094)%nat /\ nl ∉ p /\ nul ∉ p /\ last p <> Some cr.

#[global] Instance recordable_dec p : Decision (recordable p).
Proof. unfold recordable. apply _. Defined.

(** * Replay *)

Lemma recordable_line p :
  recordable p -> c_str p = p /\ strip_eol (p ++ [nl]) = p /\ line_ok wline_max (p ++ [nl])
                  /\ line_ok wline_max (bang :: p ++ [nl]).
Proof.
  intros (Hh & Hlen & Hnl & Hnul & Hcr). split; [by apply c_str_id|]. split; [|split].
  - apply strip_eol_line; [|done]. intros E. apply Hnl. apply last_Some in E as [l ->]. apply elem_of_app; right; by apply list_elem_of_singleton.
  - exists p. split; [done|]. split; [done|]. unfold wline_max. lia.
  - exists (bang :: p). split; [done|]. split; [|unfold wline_max; cbn [length]; lia].
    rewrite not_elem_of_cons. by split; [done|].
Qed.

Lemma load_removed t p : recordable p -> load_line t (p ++ [nl]) = {[ p ]} ∪ t.
Proof.
  intros Hp. destruct (recordable_line p Hp) as (_ & Es & _ & _). destruct Hp as (Hh & _ & _ & Hn & _).
  unfold load_line. rewrite c_str_id, Es by (rewrite elem_of_app, list_elem_of_singleton; naive_solver).
  destruct p as [|c p]; [done|]. injection Hh as ->. by rewrite decide_False.
Qed.

Lemma load_created t p : recordable p -> load_line t (bang :: p ++ [nl]) = t ∖ {[ p ]}.
Proof.
  intros Hp. destruct Hp as (Hh & Hlen & Hnl & Hn & Hcr). unfold load_line.
  rewrite c_str_id by (rewrite elem_of_cons, elem_of_app, list_elem_of_singleton; naive_solver).
  rewrite app_comm_cons, (strip_eol_line (bang :: p)); [by rewrite decide_True| |];
    (destruct p as [|c p]; [done|]; rewrite last_cons_cons).
  - intros E. apply Hnl. apply last_Some in E as [l ->]. apply elem_of_app; right; by apply list_elem_of_singleton.
  - done.
Qed.

(** The journal says what the set holds. *)
Definition in_step (s : Whiteouts) : Prop :=
  exists ls, wjournal s = Some (concat ls) /\ Forall (line_ok wline_max) ls /\
             fold_left load_line ls ∅ = wset s.

Lemma append_in_step s t l :
  in_step s -> line_ok wline_max l -> load_line (wset s) l = t ->
  in_step (append_line true {| wset := t; wjournal := wjournal s |} l).
Proof.
  intros (ls & Ej & Hl & Ef) Hok Et. unfold append_line. cbn [wjournal wset]. rewrite Ej.
  exists (ls ++ [l]). cbn [wjournal wset]. rewrite concat_app, fold_left_app, Ef. cbn [concat fold_left].
  rewrite app_nil_r. split; [done|]. split; [|done]. apply Forall_app. by auto.
Qed.

Lemma apply_in_step s c : in_step s -> recordable (change_path c) -> in_step (apply true s c).
Proof.
  intros Hs Hc. destruct c as [p|p]; cbn in *; destruct (recordable_line p Hc) as (Ec & _ & H1 & H2).
  - unfold add_whiteout. destruct (is_whiteout s p); [done|]. rewrite Ec.
    apply append_in_step; [done..|]. by apply load_removed.
  - unfold clear_whiteout_if_any, clear_whiteout. case_bool_decide; [done|].
    destruct (is_whiteout s p); [|done]. rewrite Ec.
    apply append_in_step; [done..|]. by apply load_created.
Qed.

Lemma in_step_load s : in_step s ->
  exists text, wjournal s = Some text /\
    forall j, (load_whiteouts {| wset := ∅; wjournal := j |} (Some text)).1
              = {| wset := wset s; wjournal := Some text |}.
Proof.
  intros (ls & Ej & Hl & Ef). exists (concat ls). split; [done|]. intros j.
  unfold load_whiteouts, wline_max. cbn [fst wset]. by rewrite read_lines_concat, Ef by done.
Qed.

Lemma load_live ps : forall t,
  Forall recordable ps -> fold_left load_line (map (fun p => c_str p ++ [nl]) ps) t = list_to_set ps ∪ t.
Proof.
  induction ps as [|p ps IH]; intros t Hps; cbn; [set_solver|]. inversion_clear Hps as [|? ? Hp Hps'].
  destruct (recordable_line p Hp) as (Ec & _). rewrite Ec, load_removed, IH by done. set_solver.
Qed.

Section restart.
Context (order : gset str -> list str).
Context (order_set : forall t, list_to_set (order t) = t).

Lemma rewrite_in_step s :
  set_Forall recordable (wset s) -> in_step (rewrite_whiteouts true order s).
Proof.
  intros Hs. exists (map (fun p => c_str p ++ [nl]) (order (wset s))). cbn. split; [done|].
  assert (Ho : Forall recordable (order (wset s))).
  { apply Forall_forall. intros p Hp. apply Hs. rewrite <- (order_set (wset s)).
    by apply elem_of_list_to_set. }
  split.
  - apply Forall_map. eapply Forall_impl; [exact Ho|]. intros p Hp. cbn.
    by destruct (recordable_line p Hp) as (-> & _ & ? & _).
  - rewrite load_live by done. rewrite order_set. set_solver.
Qed.

Lemma attach_in_step r s0 s :
  in_step s -> set_Forall recordable (wset s) -> wset s0 = ∅ ->
  in_step (attach true r order s0 (wjournal s)) /\
  wset (attach true r order s0 (wjournal s)) = wset s.
Proof.
  intros Hs Hr H0. destruct (in_step_load s Hs) as (text & Ej & El). unfold attach. rewrite H0, Ej.
  specialize (El (Some [])).
  destruct (load_whiteouts {| wset := ∅; wjournal := Some [] |} (Some text)) as [s1 wl]. cbn in El. subst s1.
  assert (Hin : in_step {| wset := wset s; wjournal := Some text |}).
  { destruct Hs as (ls & Ej' & ? & ?). exists ls. cbn. split_and!; [congruence|done..]. }
  destruct (r && _ && _); [|done]. split; [by apply rewrite_in_step|done].
Qed.

End restart.

Lemma apply_recordable s cs :
  set_Forall recordable (wset s) -> Forall (fun c => recordable (change_path c)) cs ->
  set_Forall recordable (wset (fold_left (apply true) cs s)).
Proof.
  revert s. induction cs as [|c cs IH]; intros s Hs Hcs; [done|]. inversion_clear Hcs as [|? ? Hc Hcs'].
  apply IH; [|done]. destruct c as [p|p]; cbn in *;
    unfold add_whiteout, clear_whiteout_if_any, clear_whiteout, append_line.
  - destruct (is_whiteout s p); [done|]. cbn. destruct (wjournal s); cbn; set_solver.
  - case_bool_decide; [done|]. destruct (is_whiteout s p); [|done]. cbn.
    destruct (wjournal s); cbn; set_solver.
Qed.

Lemma apply_all_in_step cs : forall s,
  in_step s -> Forall (fun c => recordable (change_path c)) cs -> in_step (fold_left (apply true) cs s).
Proof.
  induction cs as [|c cs IH]; intros s Hs Hcs; [done|]. inversion_clear Hcs.
  cbn. apply IH; [|done]. by apply apply_in_step.
Qed.

Definition no_whiteouts : Whiteouts := {| wset := ∅; wjournal := None |}.

(** Removals of lower-layer files survive a restart: after any sequence
    of removals and re-creations of recordable paths on a freshly attached
    upper layer, the next run that attaches the journal left behind has the
    same whiteout set, whether or not it compacts the journal, and its own
    journal says the same again. *)
Theorem whiteouts_restart (order : gset str -> list str) (r : bool) (cs : list Change)
    (Hord : forall t, list_to_set (order t) = t)
    (Hcs : Forall (fun c => recordable (change_path c)) cs) :
  let s := fold_left (apply true) cs (attach true r order no_whiteouts None) in
  let s' := attach true r order no_whiteouts (wjournal s) in
  wset s' = wset s /\
  wset (attach true r order no_whiteouts (wjournal s')) = wset s.
Proof.
  intros s s'.
  assert (H0 : in_step (attach true r order no_whiteouts None)).
  { unfold attach. cbn. rewrite andb_false_r. exists []. cbn. done. }
  assert (R0 : set_Forall recordable (wset (attach true r order no_whiteouts None))).
  { unfold attach. cbn. rewrite andb_false_r. cbn. set_solver. }
  pose proof (apply_all_in_step cs _ H0 Hcs) as Hs. pose proof (apply_recordable _ cs R0 Hcs) as Hr.
  destruct (attach_in_step order Hord r no_whiteouts s Hs Hr eq_refl) as [Hs' Es'].
  split; [exact Es'|]. fold s' in Hs', Es'.
  destruct (attach_in_step order Hord r no_whiteouts s' Hs') as [_ E]; [by rewrite Es'|done|congruence].
Qed.

(** Two removals, one of them undone. *)
Lemma whiteouts_restart_witness :
  let cs := [Removed (lit "/etc/motd"); Removed (lit "/etc/issue"); Created (lit "/etc/motd")] in
  wset (attach true true elements no_whiteouts
          (wjournal (fold_left (apply true) cs (attach true true elements no_whiteouts None))))
  = {[ lit "/etc/issue" ]}.
Proof.
  intros cs.
  destruct (whiteouts_restart elements true cs list_to_set_elements_L) as [-> _];
    [|apply (bool_decide_unpack _); vm_compute; exact I].
  apply (bool_decide_unpack _). vm_compute. exact I.
Defined.

End Whiteouts.
