(* ===== verification/Namespace.v ===== *)
(** The guest's file namespace ([class FileNamespace] in
    [include/linuxity/kernel/file_namespace.hpp]): the mount table, the
    translation of a guest path to a host path, the copy-on-write overlay
    and the chase of symbolic links.

    - [Mounts]: the table, longest-prefix lookup, the lexical translations in
      both directions;
    - [Overlay]: the host probes, copy-up, [classify] and its recursion.  A
      re-classification costs one of eight levels and a chase has forty
      hops, the limits of the source, so both recursions are structural.

    The host file system is a parameter ([HostFs]).  The journals of the
    metadata store, the link table and the whiteouts are carried by those
    components as text, apart from the host's files; [io] says whether they
    can be opened. *)

From S2P Require Import Prelude Sysno Abi Dispatch Paths CText MetaStore LinkTable HostFs Whiteouts Dirents.
Import Abi Paths HostFs Whiteouts.

Module Mounts.

Inductive Realm2 := host_backed | virtual_file | absent.

Record PathClass := {
  realm : Realm2;
  host_path : str;
  pc_error : Errno;
  virtual_path : str;
  whiteout_lower : bool
}.

(** The four-argument brace initialisers of the source. *)
Definition path_class (r : Realm2) (hp : str) (e : Errno) (vp : str) : PathClass :=
  {| realm := r; host_path := hp; pc_error := e; virtual_path := vp; whiteout_lower := false |}.

Definition backed (hp : str) : PathClass := path_class host_backed hp enoent [].
Definition gone (e : Errno) : PathClass := path_class absent [] e [].

Record VirtualFile := {
  vf_bytes : list Z;
  vf_is_dir : bool;
  vf_entries : list Dirents.VirtualDirent;
  redirect_host : str;
  symlink_target : str
}.

Definition Producer : Type := str -> Result VirtualFile.

Record Mount := {
  prefix : str; host_base : str; upper : str; producer : option Producer
}.

Definition normalize (p : str) : str := normalize_path p.

(** [starts_with], followed by the end of the path or a separator. *)
Definition at_or_below (pre p : str) : bool :=
  bool_decide (take (length pre) p = pre)
  && (bool_decide (length p = length pre) || bool_decide (p !! length pre = Some slash)).

Definition matches (m : Mount) (abs : str) : bool :=
  if decide (prefix m = [slash]) then true else at_or_below (prefix m) abs.

(** The loop of [deepest]: the index of the best mount so far and the length
    of its prefix. *)
Fixpoint deepest_loop (ms : list Mount) (i : nat) (abs : str) (best : option nat) (best_len : nat) :
    option nat :=
  match ms with
  | [] => best
  | m :: ms' =>
      if matches m abs && (best_len <=? length (prefix m))%nat
      then deepest_loop ms' (S i) abs (Some i) (length (prefix m))
      else deepest_loop ms' (S i) abs best best_len
  end.

Definition deepest (ms : list Mount) (abs : str) : option nat := deepest_loop ms 0 abs None 0.

Definition join_host (base rel : str) : str :=
  match rel with
  | [] => base
  | _ => (match last base with
          | Some c => if decide (c = slash) then base else base ++ [slash]
          | None => base
          end) ++ rel
  end.

(** The path below the mount's prefix, without leading separators. *)
Definition rel_of (m : Mount) (abs : str) : str :=
  skip_slashes (drop (if decide (prefix m = [slash]) then 0 else length (prefix m)) abs).

Definition host_to_guest_at (m : Mount) (base host : str) : option str :=
  if bool_decide (base <> []) && bool_decide (take (length base) host = base) then
    let rel := drop (length base) host in
    let out := if decide (prefix m = [slash]) then [] else prefix m in
    let out := match rel with
               | c :: _ => if decide (c = slash) then out else out ++ [slash]
               | [] => out
               end ++ rel in
    Some (match out with [] => [slash] | _ => out end)
  else None.

Definition host_to_guest (m : Mount) (host : str) : str :=
  match host_to_guest_at m (upper m) host with
  | Some g => g
  | None => default host (host_to_guest_at m (host_base m) host)
  end.

Definition produce (ms : list Mount) (abs : str) : Result VirtualFile :=
  match deepest ms abs ≫= (fun i => ms !! i) with
  | Some m => match producer m with Some prod => prod abs | None => inr enoent end
  | None => inr enoent
  end.

Definition under_virtual_mount (ms : list Mount) (abs : str) : bool :=
  existsb (fun m => bool_decide (is_Some (producer m)) && at_or_below (prefix m) abs) ms.

(** [under] of [guest_path_of]. *)
Definition host_under (base host : str) : bool :=
  bool_decide (base <> []) && at_or_below base host.

Record Best := { b_mount : Mount; b_len : nat; via_upper : bool }.

Definition best_len (b : option Best) : nat := match b with Some b => b_len b | None => 0 end.

Definition guest_step (host : str) (b : option Best) (m : Mount) : option Best :=
  let b := if host_under (upper m) host && (best_len b <? length (upper m))%nat
           then Some {| b_mount := m; b_len := length (upper m); via_upper := true |} else b in
  if host_under (host_base m) host && (best_len b <? length (host_base m))%nat
  then Some {| b_mount := m; b_len := length (host_base m); via_upper := false |} else b.

Definition guest_path_of (ms : list Mount) (host : str) : str :=
  match fold_left (guest_step host) ms None with
  | None => []
  | Some b =>
      let m := b_mount b in
      let base := if via_upper b then upper m else host_base m in
      let rel := drop (length base) host in
      if decide (prefix m = [slash])
      then match rel with [] => [slash] | _ => rel end
      else match rel with [] => prefix m | _ => prefix m ++ rel end
  end.

Definition is_mount_point (ms : list Mount) (abs : str) : bool :=
  existsb (fun m => bool_decide (prefix m = normalize abs)) ms.

(** [under] of [is_host_side_path]. *)
Definition strictly_under (base abs : str) : bool :=
  if ((length base <? 2)%nat || bool_decide (base = [slash])) then false
  else if (length abs <=? length base)%nat then false
  else if negb (bool_decide (take (length base) abs = base)) then false
  else bool_decide (abs !! length base = Some slash).

Definition is_host_side_path (ms : list Mount) (abs : str) : bool :=
  existsb (fun m => strictly_under (host_base m) abs || strictly_under (upper m) abs) ms.

(** A host path made absolute against the supervisor's directory. *)
Definition absolute_host (host_cwd p : str) : str :=
  match p with
  | [] => p
  | c :: _ =>
      if decide (c = slash) then normalize p
      else
        let base := match host_cwd with [] => [slash] | _ => host_cwd end in
        let base := match last base with
                    | Some l => if decide (l = slash) then base else base ++ [slash]
                    | None => base
                    end in
        normalize (base ++ p)
  end.

(** [if (s.size() > 1 && s.back() == '/') s.pop_back()]. *)
Definition chop_slash (s : str) : str :=
  if (1 <? length s)%nat && bool_decide (last s = Some slash) then take (length s - 1) s else s.

End Mounts.

Module Overlay.
Import Mounts.

(** The write intents are the ones the dispatcher's cases name. *)
Abbreviation WriteIntent := Dispatch.WriteIntent.
Abbreviation copy_leaf := Dispatch.copy_leaf.
Abbreviation parents_only := Dispatch.parents_only.
Abbreviation remove := Dispatch.remove.

#[global] Instance WriteIntent_eq_dec : EqDecision WriteIntent.
Proof. solve_decision. Defined.

Section host.
Context {F : Type} `{HostFs F}.

(** ** Probing the host *)

(** The loop of [at_long_parent] over the components of the parent. *)
Fixpoint open_chain (f : F) (h : Handle + Z) (cs : list str) : Handle + Z :=
  match h, cs with
  | inl d, c :: cs' => open_chain f (open_dir_at f d c) cs'
  | _, _ => h
  end.

(** [at_long_parent]: what [fn] answers at the parent directory, or the
    [errno] of the walk. *)
Definition at_long_parent {A} (f : F) (p : str) (fn : Handle -> str -> A + Z) : A + Z :=
  match rfind slash p with
  | None => inr ENAMETOOLONG
  | Some cut =>
      if (length p <=? cut + 1)%nat then inr ENAMETOOLONG
      else
        match open_chain f (root_dir f) (components (take cut p)) with
        | inl d => fn d (drop (cut + 1) p)
        | inr e => inr e
        end
  end.

Definition is_ok {A} (r : A + Z) : bool := match r with inl _ => true | inr _ => false end.

Definition exists_ (f : F) (p : str) : bool :=
  match lstat f p with
  | inl _ => true
  | inr e => if negb (e =? ENAMETOOLONG) then false
             else is_ok (at_long_parent f p (fun d leaf => lstat_at f d leaf))
  end.

Definition is_dir (f : F) (p : str) : bool :=
  match stat f p with
  | inl nd => is_directory nd
  | inr e => if negb (e =? ENAMETOOLONG) then false
             else match at_long_parent f p (fun d leaf => stat_at f d leaf) with
                  | inl nd => is_directory nd
                  | inr _ => false
                  end
  end.

Inductive Probe := p_symlink (target : str) | p_present | p_absent | p_notdir.

Definition probe_link (f : F) (p : str) : Probe :=
  let r := match readlink f p with
           | inr e => if e =? ENAMETOOLONG
                      then at_long_parent f p (fun d leaf => link_text (lstat_at f d leaf))
                      else inr e
           | r => r
           end in
  match r with
  | inl t => p_symlink t
  | inr e => if e =? EINVAL then p_present else if e =? ENOTDIR then p_notdir else p_absent
  end.

(** ** Copy-up *)

(** What was widened: the characters of [up] after the entry, the real mode. *)
Definition Widened : Type := list (nat * Z).

(** The prefixes of [dir] that end a component: [i] from 1 with
    [i == dir.size()] or [dir[i] == '/']. *)
Definition cuts (dir : str) : list nat :=
  filter (fun i => i = length dir \/ dir !! i = Some slash) (seq 1 (length dir)).

(** The mode of the lower counterpart of [take i dir]. *)
Definition lower_mode (f : F) (lo_dir : str) (tail : nat) : Z :=
  match lo_dir with
  | [] => 493
  | _ => if (tail <=? length lo_dir)%nat then
           match stat f (take (length lo_dir - tail) lo_dir) with
           | inl nd => if is_directory nd then n_mode nd else 493
           | inr _ => 493
           end
         else 493
  end.

Definition mirror_step (up lo_dir dir : str) (s : F * Widened) (i : nat) : F * Widened :=
  let '(f, widened) := s in
  let sub := take i dir in
  let real := lower_mode f lo_dir (length dir - i) in
  let mode := Z.lor real 448 in
  let '(f, made) := mkdir f sub mode in
  if negb made then (f, widened)
  else
    (chmod f sub mode,
     if real =? mode then widened else widened ++ [((length up - length sub)%nat, real)]).

Definition mirror_parents_from_lower (f : F) (up lo : str) : F * Widened :=
  match rfind slash up with
  | None | Some O => (f, [])
  | Some slash_ =>
      let lo_dir := match rfind slash lo with None => [] | Some k => take k lo end in
      let dir := take slash_ up in
      fold_left (mirror_step up lo_dir dir) (cuts dir) (f, [])
  end.

(** Write [bs] to [out]: a short [write] goes on with the rest, a failed one
    abandons the chunk. *)
Fixpoint write_chunk (fuel : nat) (f : F) (out : Z) (bs : list Z) : F :=
  match fuel, bs with
  | S fuel', _ :: _ =>
      let '(f, w) := write f out bs in
      if w <=? 0 then f else write_chunk fuel' f out (drop (Z.to_nat w) bs)
  | _, _ => f
  end.

Definition chunk : nat := Z.to_nat 65536.

(** The copy loop; [fuel] bounds the chunks read. *)
Fixpoint copy_loop (fuel : nat) (f : F) (in_ out : Z) (off : nat) : F :=
  match fuel with
  | O => f
  | S fuel' =>
      match read f in_ off chunk with
      | [] => f
      | bs => copy_loop fuel' (write_chunk (length bs) f out bs) in_ out (off + length bs)
      end
  end.

(** A round that goes on has read a byte, so a file of [n] bytes is copied
    in at most [n + 1] rounds. *)
Definition copy_file (f : F) (in_ out : Z) : F := copy_loop (S (length (bytes f in_))) f in_ out 0.

Definition copy_up (f : F) (up lo : str) : F * Widened :=
  let '(f, widened) := mirror_parents_from_lower f up lo in
  if exists_ f up then (f, widened)
  else
    let have_mode := is_ok (stat f lo) in
    let lmode := match stat f lo with inl nd => n_mode nd | inr _ => 0 end in
    let dir := is_dir f lo in
    let host_mode := if negb have_mode then (if dir then 493 else 420)
                     else Z.lor lmode (if dir then 448 else 384) in
    let widened := if have_mode && negb (host_mode =? lmode) then widened ++ [(0%nat, lmode)]
                   else widened in
    if dir then
      let '(f, made) := mkdir f up host_mode in
      (if made then chmod f up host_mode else f, widened)
    else
      match open_in f lo with
      | None => (f, widened)
      | Some in_ =>
          match open_out f up host_mode with
          | (f, None) => (f, widened)
          | (f, Some out) => (chmod (copy_file f in_ out) up host_mode, widened)
          end
      end.

(** ** Classification *)

(** The namespace and the host it runs on. *)
Record World := {
  mounts : list Mount;
  whites : Whiteouts;
  meta : MetaStore.Store;
  links : LinkTable.Links;
  host : F
}.

Definition with_host (w : World) (f : F) : World :=
  {| mounts := mounts w; whites := whites w; meta := meta w; links := links w; host := f |}.
Definition with_meta (w : World) (s : MetaStore.Store) : World :=
  {| mounts := mounts w; whites := whites w; meta := s; links := links w; host := host w |}.
Definition with_whites (w : World) (s : Whiteouts) : World :=
  {| mounts := mounts w; whites := s; meta := meta w; links := links w; host := host w |}.

Context (io : bool).

(** Record the real mode of everything widened. *)
Definition record_widened (abs : str) (s : MetaStore.Store) (e : nat * Z) : MetaStore.Store :=
  if (e.1 <=? length abs)%nat
  then MetaStore.set_mode io s (take (length abs - e.1) abs) e.2 MetaStore.no_host_mode
  else s.

(** The [for_write] half of the overlay branch, other than removal. *)
Definition overlay_write (w : World) (abs up lo : str) (wi : WriteIntent) : PathClass * World :=
  let '(f, widened) := if decide (wi = parents_only) then mirror_parents_from_lower (host w) up lo
                       else copy_up (host w) up lo in
  let w := with_meta (with_host w f) (fold_left (record_widened abs) widened (meta w)) in
  (backed up, with_whites w (clear_whiteout_if_any io (whites w) abs)).

(** Its removal case. *)
Definition overlay_remove (w : World) (abs up lo : str) : PathClass :=
  if exists_ (host w) up then
    {| realm := host_backed; host_path := up; pc_error := enoent; virtual_path := [];
       whiteout_lower := exists_ (host w) lo |}
  else if is_whiteout (whites w) abs || negb (exists_ (host w) lo) then gone enoent
  else {| realm := absent; host_path := []; pc_error := enoent; virtual_path := [];
          whiteout_lower := true |}.

(** What a deeper classification does; [None] at the depth limit. *)
Definition Deeper : Type := option (World -> str -> PathClass * World).

(** The loop of [chase_prefix]: walk up from [head], [tail] re-attached. *)
Fixpoint chase_loop (fuel : nat) (w : World) (m : Mount) (deeper : World -> str -> PathClass * World)
    (head tail : str) : option (PathClass * World) :=
  match fuel with
  | O => None
  | S fuel' =>
      match rfind slash head with
      | None | Some O => None
      | Some cut =>
          let tail := drop cut head ++ tail in
          let head := take cut head in
          match readlink (host w) head with
          | inr e => if e =? ENOENT then chase_loop fuel' w m deeper head tail
                     else if e =? ELOOP then Some (gone eloop, w)
                     else None
          | inl target =>
              let next :=
                if decide (List.hd_error target = Some slash) then target
                else host_to_guest m (match rfind slash head with
                                      | Some k => take (k + 1) head | None => [] end ++ target) in
              Some (deeper w (normalize (next ++ tail)))
          end
      end
  end.

Definition chase_prefix (w : World) (m : Mount) (deeper : Deeper) (host_ : str) (spent : bool) :
    option (PathClass * World) :=
  match deeper with
  | Some d => if spent then Some (gone eloop, w)
              else chase_loop (S (length host_)) w m d host_ []
  | None => Some (gone eloop, w)
  end.

(** The guest path a link at [host_] with target [target] points to. *)
Definition link_guest (m : Mount) (host_ target : str) : str :=
  if decide (List.hd_error target = Some slash) then normalize target
  else
    let base := match upper m with
                | [] => host_base m
                | _ => if bool_decide (take (length (upper m)) host_ = upper m)
                       then upper m else host_base m
                end in
    let relhost := drop (length base) host_ in
    let guest_link := if decide (prefix m = [slash]) then relhost else prefix m ++ relhost in
    let dir := match rfind slash guest_link with None => [slash] | Some k => take k guest_link end in
    normalize (dir ++ [slash] ++ target).

(** The next hop of a chase inside the mount: where to read, and the target
    when the probe of the upper layer already read it; or the end. *)
Definition next_hop (f : F) (m : Mount) (guest_abs : str) : (str * str) + PathClass :=
  let rel := rel_of m guest_abs in
  let lo := join_host (host_base m) rel in
  match upper m with
  | [] => inl (lo, [])
  | _ =>
      let up := join_host (upper m) rel in
      match probe_link f up with
      | p_symlink next => inl (up, next)
      | p_present | p_notdir => inr (backed up)
      | p_absent => inl (lo, [])
      end
  end.

(** [follow_from]: [left] hops remain of the forty. *)
Fixpoint follow_from (left : nat) (w : World) (i : nat) (m : Mount) (deeper : Deeper)
    (host_ pre : str) : PathClass * World :=
  match left with
  | O => (gone eloop, w)
  | S left' =>
      let step target :=
        let guest_abs := link_guest m host_ target in
        if negb (bool_decide (deepest (mounts w) guest_abs = Some i)) then
          match deeper with
          | None => (gone eloop, w)
          | Some d => d w guest_abs
          end
        else
          match next_hop (host w) m guest_abs with
          | inr pc => (pc, w)
          | inl (host_, pre) => follow_from left' w i m deeper host_ pre
          end in
      match pre with
      | _ :: _ => step pre
      | [] =>
          match readlink (host w) host_ with
          | inl target => step target
          | inr e =>
              match (if (e =? ENOENT) || (e =? ELOOP)
                     then chase_prefix w m deeper host_ (left <=? 1)%nat else None) with
              | Some r => r
              | None => (backed host_, w)
              end
          end
      end
  end.

Definition max_hops : nat := 40.
Definition max_depth : nat := 8.

(** One level of [classify_impl]. *)
Definition classify_at (deeper : Deeper) (w : World) (abs : str) (for_write follow : bool)
    (wi : WriteIntent) : PathClass * World :=
  match deepest (mounts w) abs with
  | None => (gone enoent, w)
  | Some i =>
      match mounts w !! i with
      | None => (gone enoent, w)
      | Some m =>
          match producer m with
          | Some prod =>
              match prod abs with
              | inr e => (gone e, w)
              | inl vf => match redirect_host vf with
                          | [] => (path_class virtual_file [] enoent abs, w)
                          | hp => (backed hp, w)
                          end
              end
          | None =>
              let rel := rel_of m abs in
              let lo := join_host (host_base m) rel in
              match upper m with
              | [] => if follow then follow_from max_hops w i m deeper lo [] else (backed lo, w)
              | _ =>
                  let up := join_host (upper m) rel in
                  if for_write then
                    if decide (wi = remove) then (overlay_remove w abs up lo, w)
                    else overlay_write w abs up lo wi
                  else
                    match probe_link (host w) up with
                    | p_absent =>
                        if negb (bool_decide (wset (whites w) = ∅)) && is_whiteout (whites w) abs
                        then (gone enoent, w)
                        else if follow then follow_from max_hops w i m deeper lo []
                        else (backed lo, w)
                    | p_symlink target =>
                        if follow then follow_from max_hops w i m deeper up target
                        else (backed up, w)
                    | p_present | p_notdir => (backed up, w)
                    end
              end
          end
      end
  end.

(** [classify_impl]: [left] is [8 - depth]. *)
Fixpoint classify_impl (left : nat) (w : World) (abs : str) (for_write follow : bool)
    (wi : WriteIntent) : PathClass * World :=
  classify_at (match left with
               | O => None
               | S left' => Some (fun w p => classify_impl left' w p for_write true wi)
               end) w abs for_write follow wi.

Definition classify_name (w : World) (abs : str) (for_write follow : bool) (wi : WriteIntent) :
    PathClass * World :=
  classify_impl max_depth w abs for_write follow wi.

(** [classify]: an emulated hardlink resolves to the file that backs it. *)
Definition classify (w : World) (abs : str) (for_write follow : bool) (wi : WriteIntent) :
    PathClass * World :=
  let '(pc, w) := classify_impl max_depth w abs for_write follow wi in
  match realm pc with
  | host_backed =>
      if negb (LinkTable.is_empty (links w)) && negb (bool_decide (wi = remove)) then
        match LinkTable.backing_of (links w) (host_path pc) with
        | Some b => ({| realm := host_backed; host_path := b; pc_error := pc_error pc;
                        virtual_path := virtual_path pc; whiteout_lower := whiteout_lower pc |}, w)
        | None => (pc, w)
        end
      else (pc, w)
  | _ => (pc, w)
  end.

(** ** Frames *)

(** A step that leaves every existing host file alone, and the mounts and
    links. *)
Record quiet (w w' : World) : Prop := {
  q_keeps : keeps (host w) (host w');
  q_mounts : mounts w' = mounts w;
  q_links : links w' = links w
}.

Lemma quiet_refl w : quiet w w.
Proof. split; [reflexivity|done|done]. Qed.

Lemma quiet_trans w1 w2 w3 : quiet w1 w2 -> quiet w2 w3 -> quiet w1 w3.
Proof. intros [K1 M1 L1] [K2 M2 L2]. split; [by etrans|congruence..]. Qed.

Section laws.
Context `{!HostLaws F}.

(** Files other than inode [i] keep their name, mode and bytes. *)
Definition keeps_but (i : Z) (f f' : F) : Prop :=
  forall q nd, lstat f q = inl nd -> n_ino nd <> i ->
  lstat f' q = inl nd /\ bytes f' (n_ino nd) = bytes f (n_ino nd).

Lemma keeps_but_fresh i f g h : keeps f g -> fresh f i -> keeps_but i g h -> keeps f h.
Proof.
  intros K Fr B q nd Hq. destruct (K q nd Hq) as [Hg Eg].
  destruct (B q nd Hg (Fr q nd Hq)) as [Hh Eh]. split; [done|congruence].
Qed.

Lemma keeps_but_trans i f g h : keeps_but i f g -> keeps_but i g h -> keeps_but i f h.
Proof.
  intros H1 H2 q nd Hq Hi. destruct (H1 q nd Hq Hi) as [Hg Eg]. destruct (H2 q nd Hg Hi) as [Hh Eh].
  split; [done|congruence].
Qed.

Lemma write_keeps_but i f bs : keeps_but i f (write f i bs).1.
Proof. intros q nd Hq Hi. destruct (write_others f i bs q nd Hq) as [? E]. auto. Qed.

Lemma write_chunk_but fuel : forall f i bs,
  keeps_but i f (write_chunk fuel f i bs) /\
  forall q nd, lstat f q = inl nd -> lstat (write_chunk fuel f i bs) q = inl nd.
Proof.
  induction fuel as [|fuel IH]; intros f i [|b bs]; cbn [write_chunk]; try by split.
  pose proof (write_keeps_but i f (b :: bs)) as K.
  pose proof (fun q nd Hq => proj1 (write_others f i (b :: bs) q nd Hq)) as L.
  destruct (write f i (b :: bs)) as [f' n]. cbn [fst] in K, L. destruct (n <=? 0); [by split|].
  destruct (IH f' i (drop (Z.to_nat n) (b :: bs))) as [K' L'].
  split; [by eapply keeps_but_trans|eauto].
Qed.

Lemma copy_loop_but fuel : forall f in_ i off,
  keeps_but i f (copy_loop fuel f in_ i off) /\
  forall q nd, lstat f q = inl nd -> lstat (copy_loop fuel f in_ i off) q = inl nd.
Proof.
  induction fuel as [|fuel IH]; intros f in_ i off; cbn [copy_loop]; [by split|].
  destruct (read f in_ off chunk) as [|b bs]; [by split|].
  destruct (write_chunk_but (length (b :: bs)) f i (b :: bs)) as [K L].
  destruct (IH (write_chunk (length (b :: bs)) f i (b :: bs)) in_ i (off + length (b :: bs))%nat)
    as [K' L']. split; [by eapply keeps_but_trans|eauto].
Qed.

Lemma chmod_keeps_but f p m nd :
  lstat f p = inl nd -> is_link nd = false -> keeps_but (n_ino nd) f (chmod f p m).
Proof. intros Hp Hl q nd' Hq Hi. by eapply chmod_others. Qed.

(** [mkdir], then [chmod] of what it made. *)
Lemma mkdir_keeps f p m f' made :
  mkdir f p m = (f', made) -> keeps f (if made then chmod f' p m else f').
Proof.
  destruct made; intros E; [|by apply mkdir_fails in E as ->].
  apply mkdir_makes in E as (K & nd & Hp & Kd & Fr).
  eapply keeps_but_fresh; [exact K|exact Fr|]. apply chmod_keeps_but; [done|].
  unfold is_link. by rewrite Kd.
Qed.

Lemma mirror_step_keeps up lo_dir dir s i : keeps s.1 (mirror_step up lo_dir dir s i).1.
Proof.
  destruct s as [f wd]. unfold mirror_step. destruct (mkdir f _ _) as [f' made] eqn:E.
  apply mkdir_keeps in E. by destruct made.
Qed.

Lemma mirror_keeps f up lo : keeps f (mirror_parents_from_lower f up lo).1.
Proof.
  unfold mirror_parents_from_lower. destruct (rfind slash up) as [[|k]|]; [done| |done].
  generalize (match rfind slash lo with Some k => take k lo | None => [] end). intros lo_dir.
  assert (Hf : forall l s, keeps s.1 (fold_left (mirror_step up lo_dir (take (S k) up)) l s).1).
  { induction l as [|i l IH]; intros s; [reflexivity|]. cbn [fold_left].
    etrans; [apply mirror_step_keeps|apply IH]. }
  apply (Hf _ (f, [])).
Qed.

Lemma copied_keeps f up m in_ i f' e :
  lstat f up = inr e -> open_out f up m = (f', Some i) -> keeps f (chmod (copy_file f' in_ i) up m).
Proof.
  intros He Ho. apply (open_out_makes f up m f' i e He) in Ho as (K & _ & Fr & nd & Hp & Kd & <-).
  destruct (copy_loop_but (S (length (bytes f' in_))) f' in_ (n_ino nd) 0) as [B L].
  eapply keeps_but_fresh; [exact K|exact Fr|]. eapply keeps_but_trans; [exact B|].
  apply chmod_keeps_but; [by apply L|]. unfold is_link. by rewrite Kd.
Qed.

Lemma copy_up_keeps f up lo : keeps f (copy_up f up lo).1.
Proof.
  unfold copy_up. pose proof (mirror_keeps f up lo) as K.
  destruct (mirror_parents_from_lower f up lo) as [f1 wd]. cbn [fst] in K.
  unfold exists_. destruct (lstat f1 up) as [nd|e] eqn:El; [done|].
  destruct (if negb (e =? ENAMETOOLONG) then false else _); [done|].
  cbv zeta. destruct (is_dir f1 lo).
  - destruct (mkdir f1 up _) as [f2 made] eqn:Em. apply mkdir_keeps in Em.
    etrans; [exact K|]. by destruct made.
  - destruct (open_in f1 lo) as [in_|]; [|done].
    destruct (open_out f1 up _) as [f2 [i|]] eqn:Eo.
    + etrans; [exact K|]. by eapply copied_keeps.
    + by apply (open_out_fails f1 up _ f2 e El) in Eo as ->.
Qed.

Lemma overlay_write_quiet w abs up lo wi : quiet w (overlay_write w abs up lo wi).2.
Proof.
  unfold overlay_write. destruct (decide (wi = parents_only)).
  - pose proof (mirror_keeps (host w) up lo) as K.
    destruct (mirror_parents_from_lower (host w) up lo) as [f wd]. by split.
  - pose proof (copy_up_keeps (host w) up lo) as K. destruct (copy_up (host w) up lo) as [f wd].
    by split.
Qed.

(** ** Frames of a classification

    Whatever reflexive relation the copy-up of an overlay respects holds
    between the worlds before and after. *)

Section frame.
Context (R : World -> World -> Prop) (R_refl : forall w, R w w).

Definition deeper_in (d : Deeper) : Prop :=
  match d with Some d => forall w p, R w (d w p).2 | None => True end.

Lemma chase_loop_in fuel : forall w m d head tail r,
  (forall w p, R w (d w p).2) -> chase_loop fuel w m d head tail = Some r -> R w r.2.
Proof.
  induction fuel as [|fuel IH]; intros w m d head tail r Hd; cbn [chase_loop]; [done|].
  destruct (rfind slash head) as [[|k]|]; [done| |done].
  destruct (readlink (host w) _) as [t|e].
  - intros [= <-]. apply Hd.
  - destruct (e =? ENOENT); [by apply IH|]. destruct (e =? ELOOP); [|done].
    intros [= <-]. apply R_refl.
Qed.

Lemma chase_prefix_in w m d h spent r :
  deeper_in d -> chase_prefix w m d h spent = Some r -> R w r.2.
Proof.
  unfold chase_prefix. destruct d as [d|]; cbn [deeper_in].
  - intros Hd. destruct spent; [intros [= <-]; apply R_refl|by apply chase_loop_in].
  - intros _ [= <-]. apply R_refl.
Qed.

Lemma follow_from_in left : forall w i m d h pre,
  deeper_in d -> R w (follow_from left w i m d h pre).2.
Proof.
  induction left as [|left IH]; intros w i m d h pre Hd; cbn [follow_from]; [apply R_refl|].
  assert (Hs : forall t, R w
    (if negb (bool_decide (deepest (mounts w) (link_guest m h t) = Some i)) then
       match d with None => (gone eloop, w) | Some d => d w (link_guest m h t) end
     else match next_hop (host w) m (link_guest m h t) with
          | inr pc => (pc, w) | inl (h, pre) => follow_from left w i m d h pre end).2).
  { intros t. destruct (negb _).
    - destruct d as [d|]; [apply Hd|apply R_refl].
    - destruct (next_hop _ _ _) as [[h' pre']|pc]; [by apply IH|apply R_refl]. }
  destruct pre; [|apply Hs]. destruct (readlink (host w) h) as [t|e]; [apply Hs|].
  destruct ((e =? ENOENT) || (e =? ELOOP)); [|apply R_refl].
  destruct (chase_prefix w m d h _) as [r|] eqn:E; [|apply R_refl].
  by eapply chase_prefix_in.
Qed.

Lemma classify_at_in d w abs fw fo wi :
  (fw = true -> forall w abs up lo, R w (overlay_write w abs up lo wi).2) ->
  deeper_in d -> R w (classify_at d w abs fw fo wi).2.
Proof.
  intros Ho Hd. unfold classify_at.
  destruct (deepest (mounts w) abs) as [i|]; [|apply R_refl].
  destruct (mounts w !! i) as [m|]; [|apply R_refl].
  destruct (producer m) as [prod|];
    [destruct (prod abs) as [vf|e]; [destruct (redirect_host vf)|]; apply R_refl|].
  destruct (upper m); destruct fo, fw;
    repeat first [ apply R_refl | by apply Ho | by apply follow_from_in | case_match ].
Qed.

Lemma classify_impl_in left : forall w abs fw fo wi,
  (fw = true -> forall w abs up lo, R w (overlay_write w abs up lo wi).2) ->
  R w (classify_impl left w abs fw fo wi).2.
Proof.
  induction left as [|left IH]; intros w abs fw fo wi Ho; cbn [classify_impl];
    apply classify_at_in; cbn; auto.
Qed.

End frame.

Lemma classify_impl_quiet left w abs fw fo wi : quiet w (classify_impl left w abs fw fo wi).2.
Proof. apply (classify_impl_in quiet quiet_refl). intros _ w' abs' up lo. apply overlay_write_quiet. Qed.

End laws.

(** A read changes nothing. *)
Lemma classify_read_world w abs fo wi : (classify w abs false fo wi).2 = w.
Proof.
  unfold classify. pose proof (classify_impl_in (fun w w' => w' = w) ltac:(done) max_depth w abs false fo wi) as E.
  destruct (classify_impl _ _ _ _ _ _) as [pc w']. cbn in E. rewrite E by done.
  repeat case_match; done.
Qed.

End host.
End Overlay.
