(* ===== verification/NamespaceSafety.v ===== *)
(** Safety of the file namespace: what [classify] can hand to the host, and
    what it leaves alone.

    [inside] describes the host paths a mount table can produce: a mount's
    directory followed by canonical components.  The theorems hold for any
    host file system with the POSIX laws of [HostLaws]; the witnesses run on
    the tree host. *)

From S2P Require Import Prelude Abi Paths CText MetaStore LinkTable HostFs Whiteouts Dirents Namespace.
Import Abi Paths HostFs Whiteouts Mounts Overlay.

Module NamespaceSafety.

(** ** Canonical paths below a prefix *)

(** Components joined without a leading separator. *)
Definition rel_str (stk : list str) : str :=
  match stk with [] => [] | c :: r => c ++ body r end.

Lemma skip_slashes_body stk : Forall comp_ok stk -> skip_slashes (body stk) = rel_str stk.
Proof.
  destruct stk as [|[|x c] r]; [done|by intros [[? _] _]%Forall_cons|].
  intros [[Hn Hc] _]%Forall_cons. unfold body. cbn [flat_map app skip_slashes].
  rewrite decide_True by done. rewrite decide_False; [done|]. intros ->. apply Hc. by left.
Qed.

Lemma body_render stk : stk <> [] -> render stk = body stk.
Proof. by destruct stk. Qed.

Lemma body_take_app s rest :
  Forall comp_ok s -> (rest = [] \/ exists r, rest = slash :: r) ->
  components (body s ++ rest) = s ++ components rest.
Proof.
  intros Hs Hr. destruct Hr as [-> | [r ->]]; [by rewrite !app_nil_r, components_body|].
  rewrite (cons_middle slash), app_assoc, components_join by (left; apply last_snoc).
  by rewrite components_snoc_slash, components_body.
Qed.

Lemma at_or_below_split pre p :
  at_or_below pre p = true -> exists rest, p = pre ++ rest /\ (rest = [] \/ exists r, rest = slash :: r).
Proof.
  unfold at_or_below. intros [H1%bool_decide_eq_true H2]%andb_true_iff.
  exists (drop (length pre) p). split; [by rewrite <- H1 at 1; rewrite take_drop|].
  apply orb_true_iff in H2 as [H2|H2]; apply bool_decide_eq_true in H2.
  - left. apply drop_ge. lia.
  - right. rewrite (drop_S p slash) by done. eauto.
Qed.

(** A canonical path at or below a canonical prefix is the prefix followed by
    canonical components. *)
Lemma below_canonical pre abs :
  Canonical pre -> pre <> [slash] -> Canonical abs -> at_or_below pre abs = true ->
  exists t, Forall canonical_comp t /\ abs = pre ++ body t.
Proof.
  intros (s & Hs & ->) Hne (a & Ha & ->) Hm.
  destruct s as [|s0 s]; [done|]. rewrite (body_render (s0 :: s)) in * by done.
  destruct (at_or_below_split _ _ Hm) as (rest & E & Hr).
  assert (Ha0 : a <> []) by (intros ->; destruct s0; cbn in E; [|done];
    apply Forall_cons in Hs as [[[? _] _] _]; done).
  rewrite (body_render a) in * by done.
  pose proof (f_equal components E) as Ec.
  rewrite body_take_app, components_body in Ec by (try apply canonical_comp_ok; done).
  subst a. apply Forall_app in Ha as [_ Ha]. exists (components rest). split; [done|].
  rewrite E. f_equal. by rewrite body_app in E; apply app_inv_head in E.
Qed.

Definition mount_ok (m : Mount) : Prop := Canonical (prefix m).

Lemma rel_of_canonical m abs :
  mount_ok m -> matches m abs = true -> Canonical abs ->
  exists t, Forall canonical_comp t /\ rel_of m abs = rel_str t /\
            abs = if decide (prefix m = [slash]) then render t else prefix m ++ body t.
Proof.
  intros Hm Hma Ha. unfold rel_of, matches in *. destruct (decide (prefix m = [slash])) as [E|E].
  - destruct Ha as (t & Ht & ->). exists t. split; [done|]. split; [|done]. rewrite drop_0.
    destruct t as [|c t]; [done|]. rewrite body_render by done.
    by apply skip_slashes_body, canonical_comp_ok.
  - destruct (below_canonical _ _ Hm E Ha Hma) as (t & Ht & ->). exists t. split; [done|]. split; [|done].
    rewrite drop_app_length. by apply skip_slashes_body, canonical_comp_ok.
Qed.

Lemma join_host_body base t :
  base <> [] -> last base <> Some slash -> Forall canonical_comp t ->
  join_host base (rel_str t) = base ++ body t.
Proof.
  intros Hb Hl Ht. destruct t as [|c t]; [by cbn; rewrite app_nil_r|].
  apply Forall_cons in Ht as [[[Hn _] _] _]. destruct c as [|x c]; [done|].
  unfold join_host. cbn [rel_str app]. destruct (last base) as [l|] eqn:El; [|by apply last_None in El].
  rewrite decide_False by congruence. unfold body. cbn [flat_map]. by rewrite <- app_assoc.
Qed.

(** ** The mount found *)

Lemma deepest_loop_spec ms : forall i abs best len r,
  deepest_loop ms i abs best len = Some r ->
  best = Some r \/ exists m, (i <= r)%nat /\ ms !! (r - i)%nat = Some m /\ matches m abs = true.
Proof.
  induction ms as [|m ms IH]; intros i abs best len r; cbn [deepest_loop]; [by left|].
  destruct (matches m abs && _) eqn:E; intros H; apply IH in H.
  - destruct H as [[= ->]|(m' & Hi & Hl & Hm)].
    + right. exists m. rewrite Nat.sub_diag. split; [done|]. split; [done|].
      by apply andb_true_iff in E as [? _].
    + right. exists m'. split; [lia|]. split; [|done].
      replace (r - i)%nat with (S (r - S i)) by lia. done.
  - destruct H as [->|(m' & Hi & Hl & Hm)]; [by left|]. right. exists m'. split; [lia|].
    split; [|done]. replace (r - i)%nat with (S (r - S i)) by lia. done.
Qed.

Lemma deepest_matches ms abs i m :
  deepest ms abs = Some i -> ms !! i = Some m -> matches m abs = true.
Proof.
  intros H Hm. apply deepest_loop_spec in H as [?|(m' & _ & Hl & ?)]; [done|].
  rewrite Nat.sub_0_r in Hl. congruence.
Qed.

Lemma deepest_lookup ms abs i : deepest ms abs = Some i -> exists m, ms !! i = Some m.
Proof.
  intros H. apply deepest_loop_spec in H as [?|(m' & _ & Hl & ?)]; [done|].
  rewrite Nat.sub_0_r in Hl. eauto.
Qed.

(** ** Confinement *)

(** The host paths a mount table can produce: a layer of a host mount
    followed by canonical components, or the device a virtual file names. *)
Definition inside (ms : list Mount) (hp : str) : Prop :=
  (exists m t, m ∈ ms /\ producer m = None /\ Forall canonical_comp t /\
     (hp = join_host (host_base m) (rel_str t) \/
      upper m <> [] /\ hp = join_host (upper m) (rel_str t))) \/
  (exists m prod abs vf, m ∈ ms /\ producer m = Some prod /\ prod abs = inl vf /\
     hp = redirect_host vf).

(** The ones a call that writes may be given: not the lower layer of an
    overlay. *)
Definition inside_for (fw : bool) (ms : list Mount) (hp : str) : Prop :=
  (exists m t, m ∈ ms /\ producer m = None /\ Forall canonical_comp t /\
     ((fw = false \/ upper m = []) /\ hp = join_host (host_base m) (rel_str t) \/
      upper m <> [] /\ hp = join_host (upper m) (rel_str t))) \/
  (exists m prod abs vf, m ∈ ms /\ producer m = Some prod /\ prod abs = inl vf /\
     hp = redirect_host vf).

Lemma inside_for_inside fw ms hp : inside_for fw ms hp -> inside ms hp.
Proof. intros [(m & t & Hm & Hp & Ht & Hh)|Hd]; [left; exists m, t; naive_solver|by right]. Qed.

Lemma inside_inside_for ms hp : inside ms hp -> inside_for false ms hp.
Proof. intros [(m & t & Hm & Hp & Ht & Hh)|Hd]; [left; exists m, t; naive_solver|by right]. Qed.

Definition confined (fw : bool) (ms : list Mount) (pc : PathClass) : Prop :=
  (realm pc = host_backed /\ inside_for fw ms (host_path pc)) \/
  (realm pc <> host_backed /\ host_path pc = []).

Lemma gone_confined fw ms e : confined fw ms (gone e).
Proof. by right. Qed.

Lemma backed_confined fw ms hp : inside_for fw ms hp -> confined fw ms (backed hp).
Proof. by left. Qed.

Section confinement.
Context {F : Type} `{HostFs F} (io fw : bool).

(** The two layers' paths of a guest path below a host mount. *)
Lemma layers_inside ms i m abs :
  Forall mount_ok ms -> ms !! i = Some m -> producer m = None ->
  deepest ms abs = Some i -> Canonical abs ->
  ((fw = false \/ upper m = []) -> inside_for fw ms (join_host (host_base m) (rel_of m abs))) /\
  (upper m <> [] -> inside_for fw ms (join_host (upper m) (rel_of m abs))).
Proof.
  intros Hms Hi Hp Hd Ha. pose proof (list_elem_of_lookup_2 _ _ _ Hi) as Hin.
  destruct (rel_of_canonical m abs) as (t & Ht & -> & _); [by eapply Forall_forall|
    by eapply deepest_matches|done|]. split; intros Hu; left; exists m, t; auto 7.
Qed.

Definition deeper_confined (ms : list Mount) (d : Deeper (F := F)) : Prop :=
  match d with
  | Some d => forall (w : World (F := F)) p, mounts w = ms -> Canonical p -> confined fw ms (d w p).1
  | None => True
  end.

Lemma chase_loop_confined fuel : forall ms w m d head tail r,
  (forall (w : World (F := F)) p, mounts w = ms -> Canonical p -> confined fw ms (d w p).1) ->
  mounts w = ms -> chase_loop fuel w m d head tail = Some r -> confined fw ms r.1.
Proof.
  induction fuel as [|fuel IH]; intros ms w m d head tail r Hd Hw; cbn [chase_loop]; [done|].
  destruct (rfind slash head) as [[|k]|]; [done| |done].
  destruct (readlink (host w) _) as [t|e].
  - intros [= <-]. apply Hd; [done|apply normalize_Canonical].
  - destruct (e =? ENOENT); [by apply IH|]. destruct (e =? ELOOP); [|done].
    intros [= <-]. apply gone_confined.
Qed.

Lemma chase_prefix_confined ms w m d h spent r :
  deeper_confined ms d -> mounts w = ms -> chase_prefix w m d h spent = Some r -> confined fw ms r.1.
Proof.
  unfold chase_prefix. destruct d as [d|]; cbn [deeper_confined].
  - intros Hd Hw. destruct spent; [intros [= <-]; apply gone_confined|by apply chase_loop_confined].
  - intros _ _ [= <-]. apply gone_confined.
Qed.

Lemma link_guest_canonical m h t : Canonical (link_guest m h t).
Proof. unfold link_guest. destruct (decide _); apply normalize_Canonical. Qed.

Lemma follow_from_confined left : forall (w : World (F := F)) i m d h pre,
  Forall mount_ok (mounts w) -> mounts w !! i = Some m -> producer m = None ->
  deeper_confined (mounts w) d -> (fw = false \/ upper m = []) -> inside_for fw (mounts w) h ->
  confined fw (mounts w) (follow_from left w i m d h pre).1.
Proof.
  induction left as [|left IH]; intros w i m d h pre Hms Hi Hp Hd Hlo Hh; cbn [follow_from];
    [apply gone_confined|].
  assert (Hs : forall t, confined fw (mounts w)
    (if negb (bool_decide (deepest (mounts w) (link_guest m h t) = Some i)) then
       match d with None => (gone eloop, w) | Some d => d w (link_guest m h t) end
     else match next_hop (host w) m (link_guest m h t) with
          | inr pc => (pc, w) | inl (h, pre) => follow_from left w i m d h pre end).1).
  { intros t. case_bool_decide as D; cbn [negb].
    - destruct (layers_inside (mounts w) i m _ Hms Hi Hp D (link_guest_canonical m h t)) as [Hl Hu].
      specialize (Hl Hlo). unfold next_hop. destruct (upper m) as [|c u] eqn:Eu; [apply IH; auto|].
      specialize (Hu ltac:(done)). rewrite <- Eu in Hlo.
      destruct (probe_link (host w) _); [by apply IH|by apply backed_confined|by apply IH|
        by apply backed_confined].
    - destruct d as [d|]; [|apply gone_confined]. apply Hd; [done|apply link_guest_canonical]. }
  destruct pre; [|apply Hs]. destruct (readlink (host w) h) as [t|e]; [apply Hs|].
  destruct ((e =? ENOENT) || (e =? ELOOP)); [|by apply backed_confined].
  destruct (chase_prefix w m d h _) as [r|] eqn:E; [|by apply backed_confined].
  by eapply chase_prefix_confined.
Qed.

Lemma classify_at_confined d w abs fo wi :
  Forall mount_ok (mounts w) -> deeper_confined (mounts w) d -> Canonical abs ->
  confined fw (mounts w) (classify_at io d w abs fw fo wi).1.
Proof.
  intros Hms Hdp Ha. unfold classify_at.
  destruct (deepest (mounts w) abs) as [i|] eqn:Hd; [|apply gone_confined].
  destruct (mounts w !! i) as [m|] eqn:Hi; [|apply gone_confined].
  destruct (producer m) as [prod|] eqn:Hp.
  - destruct (prod abs) as [vf|e] eqn:Ev; [|apply gone_confined].
    destruct (redirect_host vf) as [|c hp] eqn:Er; [by right|]. apply backed_confined. right.
    exists m, prod, abs, vf. rewrite Er. eauto using list_elem_of_lookup_2.
  - destruct (layers_inside (mounts w) i m abs Hms Hi Hp Hd Ha) as [Hl Hu].
    cbv zeta. destruct (upper m) as [|c u] eqn:Eu.
    { specialize (Hl ltac:(by right)). destruct fo; [apply follow_from_confined; auto|by apply backed_confined]. }
    specialize (Hu ltac:(done)). destruct fw eqn:Ef.
    + unfold overlay_remove, overlay_write.
      repeat first [ by apply backed_confined | apply gone_confined | by left | by right | case_match ];
        simplify_eq; by left.
    + specialize (Hl ltac:(by left)).
      assert (Hf : forall h pre, inside_for fw (mounts w) h ->
        confined false (mounts w) (follow_from max_hops w i m d h pre).1).
      { intros h pre Hh. rewrite <- Ef. apply follow_from_confined; auto. }
      rewrite Ef in Hf.
      repeat first [ by apply backed_confined | apply gone_confined | by apply Hf | case_match ].
Qed.

Lemma classify_impl_confined left : forall w abs fo wi,
  Forall mount_ok (mounts w) -> Canonical abs ->
  confined fw (mounts w) (classify_impl io left w abs fw fo wi).1.
Proof.
  induction left as [|left IH]; intros w abs fo wi Hms Ha; cbn [classify_impl];
    apply classify_at_confined; cbn; try done. intros w' p E Hp. rewrite <- E.
  apply IH; [by rewrite E|done].
Qed.

(** ** Chains of links *)

(** Where the link at guest path [g] of mount [m] points, if [g] is one. *)
Definition hop (f : F) (m : Mount) (g : str) : option str :=
  match next_hop f m g with
  | inl (h, []) => match readlink f h with inl t => Some (link_guest m h t) | inr _ => None end
  | inl (h, t) => Some (link_guest m h t)
  | inr _ => None
  end.

(** The host file of [g], when it is there and not a link. *)
Definition settled (f : F) (m : Mount) (g : str) : option str :=
  match next_hop f m g with
  | inl (h, []) => match readlink f h with
                   | inr e => if e =? EINVAL then Some h else None
                   | inl _ => None
                   end
  | inl _ => None
  | inr pc => Some (host_path pc)
  end.

(** A read of a path that is not whited out starts at the first hop. *)
Definition start (w : World (F := F)) (i : nat) (m : Mount) (d : Deeper) (left : nat) (g : str) :
    PathClass * World :=
  match next_hop (host w) m g with
  | inr pc => (pc, w)
  | inl (h, pre) => follow_from left w i m d h pre
  end.

Lemma classify_start d (w : World (F := F)) abs i m wi :
  deepest (mounts w) abs = Some i -> mounts w !! i = Some m -> producer m = None ->
  is_whiteout (whites w) abs = false ->
  classify_at io d w abs false true wi = start w i m d max_hops abs.
Proof.
  intros Hd Hi Hp Hw. unfold classify_at, start, next_hop. rewrite Hd, Hi, Hp. cbv zeta.
  destruct (upper m); [done|]. destruct (probe_link (host w) _); try done.
  by rewrite Hw, andb_false_r.
Qed.

Lemma start_step (w : World (F := F)) i m d left g g' :
  hop (host w) m g = Some g' -> deepest (mounts w) g' = Some i ->
  start w i m d (S left) g = start w i m d left g'.
Proof.
  unfold hop, start. destruct (next_hop (host w) m g) as [[h pre]|pc]; [|done].
  cbn [follow_from]. destruct pre as [|c pre].
  - destruct (readlink (host w) h) as [t|e]; [|done]. intros [= <-] Hd.
    by rewrite bool_decide_eq_true_2.
  - intros [= <-] Hd. by rewrite bool_decide_eq_true_2.
Qed.

Lemma start_cycle (w : World (F := F)) i m d (S_ : str -> Prop) left : forall g,
  (forall g, S_ g -> exists g', hop (host w) m g = Some g' /\ deepest (mounts w) g' = Some i /\ S_ g') ->
  S_ g -> start w i m d left g = (gone eloop, w).
Proof.
  induction left as [|left IH]; intros g Hc Hg; destruct (Hc g Hg) as (g' & Hh & Hd & Hg').
  - unfold hop, start in *. by destruct (next_hop (host w) m g) as [[h pre]|pc].
  - rewrite (start_step w i m d left g g') by done. by apply IH.
Qed.

Lemma next_hop_end f m g pc : next_hop f m g = inr pc -> pc = backed (host_path pc).
Proof.
  unfold next_hop. destruct (upper m); [done|].
  destruct (probe_link f _); try done; by intros [= <-].
Qed.

Lemma start_settled (w : World (F := F)) i m d left g hp :
  settled (host w) m g = Some hp -> start w i m d (S left) g = (backed hp, w).
Proof.
  unfold settled, start. destruct (next_hop (host w) m g) as [[h [|c pre]]|pc] eqn:En; try done.
  - cbn [follow_from]. destruct (readlink (host w) h) as [t|e]; [done|].
    destruct (Z.eqb_spec e EINVAL) as [-> |]; [|done]. by intros [= ->].
  - intros [= <-]. by rewrite <- (next_hop_end _ _ _ _ En).
Qed.

(** [n] links lead from [g] to [g'], all below the mount. *)
Fixpoint chain (w : World (F := F)) (i : nat) (m : Mount) (n : nat) (g g' : str) : Prop :=
  match n with
  | O => g = g'
  | S n' => exists g1, hop (host w) m g = Some g1 /\ deepest (mounts w) g1 = Some i /\
                       chain w i m n' g1 g'
  end.

Lemma start_chain (w : World (F := F)) i m d hp n : forall left g g',
  chain w i m n g g' -> settled (host w) m g' = Some hp -> (n < left)%nat ->
  start w i m d left g = (backed hp, w).
Proof.
  induction n as [|n IH]; intros left g g' Hch Hs Hl; (destruct left as [|left]; [lia|]).
  - cbn in Hch. subst. by apply start_settled.
  - destruct Hch as (g1 & Hh & Hd & Hch). rewrite (start_step w i m d left g g1) by done.
    apply (IH left g1 g'); [done|done|lia].
Qed.

End confinement.

(** The upper layer's path for a guest path. *)
Definition upper_path (m : Mount) (abs : str) : str := join_host (upper m) (rel_of m abs).

(** * Properties *)

Section properties.
Context {F : Type} `{HostFs F} `{!HostLaws F} (io : bool).

(** C13. Resolving a guest path never damages the host: whatever the path, the
    intent and the mounts, every host file that existed before [classify] has
    the same kind, mode, inode and bytes afterwards under every name it had,
    so the lower layer of an overlay stays pristine; and when the path lies
    on an overlay, a write intent is answered with the path in the upper
    layer or with no host path at all. *)
Theorem classify_pristine (w : World (F := F)) (abs : str) (fw fo : bool) (wi : WriteIntent) :
  let '(pc, w') := classify_name io w abs fw fo wi in
  keeps (host w) (host w') /\ mounts w' = mounts w /\ links w' = links w /\
  forall i m, deepest (mounts w) abs = Some i -> mounts w !! i = Some m -> producer m = None ->
    upper m <> [] -> fw = true ->
    host_path pc = upper_path m abs \/ host_path pc = [].
Proof.
  unfold classify_name. pose proof (classify_impl_quiet io max_depth w abs fw fo wi) as [K M L].
  destruct (classify_impl io max_depth w abs fw fo wi) as [pc w'] eqn:E.
  split_and!; [done..|]. intros i m Hd Hi Hp Hu ->. revert E. cbn [classify_impl max_depth].
  unfold upper_path, classify_at. rewrite Hd, Hi, Hp.
  destruct (upper m) as [|c u] eqn:Eu; [done|]. cbv zeta. destruct (decide (wi = remove)); unfold overlay_remove, overlay_write.
  - repeat case_match; intros [= <- <-]; cbn; auto.
  - case_match; intros [= <- <-]. by left.
Qed.

(** C12. Translation is confined: with canonical mount points and a canonical
    guest path, every host path [classify] hands out is a mount's own
    directory (or its upper layer, and never the lower one when the call
    writes) followed by components none of which is
    empty, [.] or [..], through any chain of links and across mounts; the
    only others are the device a virtual file names and the file that backs
    an emulated hard link with such a name. *)
Theorem classify_confined (w : World (F := F)) (abs : str) (fw fo : bool) (wi : WriteIntent) :
  Forall mount_ok (mounts w) -> Canonical abs ->
  let pc := (classify io w abs fw fo wi).1 in
  realm pc = host_backed ->
  inside_for fw (mounts w) (host_path pc) \/
  exists name, inside_for fw (mounts w) name /\ LinkTable.backing_of (links w) name = Some (host_path pc).
Proof.
  intros Hms Ha. unfold classify.
  pose proof (classify_impl_confined io fw max_depth w abs fo wi Hms Ha) as Hc.
  pose proof (classify_impl_quiet io max_depth w abs fw fo wi) as [_ _ L].
  destruct (classify_impl io max_depth w abs fw fo wi) as [pc w']. cbn [fst snd] in *.
  destruct (realm pc) eqn:Er; cbn; try congruence.
  destruct Hc as [[_ Hc]|[? _]]; [|congruence]. destruct (negb _ && _); [|by auto]. rewrite L.
  destruct (LinkTable.backing_of (links w) (host_path pc)) as [b|] eqn:Eb; [|by auto].
  cbn. intros _. right. exists (host_path pc). auto.
Qed.


End properties.

(** * An example

    A host with a root file system in [/lower] (a file, a chain and a cycle
    of links), an upper layer holding a link the guest made, and a file of
    the host's own. *)

Import Tree.

Definition dir_node (i : Z) : Node := {| n_kind := KDir; n_mode := 493; n_ino := i |}.
Definition file_node (m i : Z) : Node := {| n_kind := KReg; n_mode := m; n_ino := i |}.
Definition link_node (t : string) (i : Z) : Node := {| n_kind := KLnk (lit t); n_mode := 511; n_ino := i |}.

Definition ex_tree : Tree := {|
  nodes := list_to_map
    [([lit "lower"], dir_node 2); ([lit "lower"; lit "etc"], dir_node 3);
     ([lit "lower"; lit "etc"; lit "passwd"], file_node 292 4);
     ([lit "lower"; lit "a"], link_node "b" 5); ([lit "lower"; lit "b"], link_node "/a" 6);
     ([lit "lower"; lit "c"], link_node "/d" 7); ([lit "lower"; lit "d"], link_node "etc/passwd" 8);
     ([lit "upper"], dir_node 9); ([lit "upper"; lit "h"], link_node "/etc" 10);
     ([lit "etc"], dir_node 11); ([lit "etc"; lit "shadow"], file_node 384 12)];
  data := list_to_map [(4, [114; 111; 111; 116]); (12, [120])]
|}.

Definition ex_root : Mount :=
  {| prefix := lit "/"; host_base := lit "/lower"; upper := lit "/upper"; producer := None |}.

Definition ex_world : World := {|
  mounts := [ex_root]; whites := no_whiteouts;
  meta := {| MetaStore.table := ∅; MetaStore.attached := false; MetaStore.file := None |};
  links := {| LinkTable.alias := ∅; LinkTable.names := ∅; LinkTable.journal := None |};
  host := ex_tree
|}.

Lemma canonical_by p : normalize p = p -> Canonical p.
Proof. intros <-. apply normalize_Canonical. Qed.

Lemma ex_mounts_ok : Forall mount_ok (mounts ex_world).
Proof. repeat constructor. by exists []. Qed.

(** A write open of [/etc/passwd] creates the copy in the upper layer and
    leaves the original as it was. *)
Lemma classify_pristine_witness :
  let '(pc, w') := classify_name true ex_world (lit "/etc/passwd") true true copy_leaf in
  host_path pc = lit "/upper/etc/passwd" /\ exists_ (host w') (lit "/upper/etc/passwd") = true /\
  lstat (host w') (lit "/lower/etc/passwd") = inl (file_node 292 4) /\
  bytes (host w') 4 = bytes ex_tree 4.
Proof.
  pose proof (classify_pristine true ex_world (lit "/etc/passwd") true true copy_leaf) as H.
  destruct (classify_name true ex_world _ true true copy_leaf) as [pc w'] eqn:E.
  destruct H as (K & _). assert (Ew : (host_path pc, exists_ (host w') (lit "/upper/etc/passwd"))
    = (lit "/upper/etc/passwd", true)).
  { change pc with (pc, w').1. change w' with (pc, w').2 at 2. rewrite <- E. vm_compute. reflexivity. }
  injection Ew as E1 E2. split; [done|]. split; [done|].
  apply (K (lit "/lower/etc/passwd") (file_node 292 4)). vm_compute. reflexivity.
Defined.

Lemma classify_confined_witness :
  inside (mounts ex_world) (host_path (classify true ex_world (lit "/c") false true copy_leaf).1) /\
  host_path (classify true ex_world (lit "/c") false true copy_leaf).1 = lit "/lower/etc/passwd".
Proof.
  split; [|vm_compute; reflexivity].
  destruct (classify_confined true ex_world (lit "/c") false true copy_leaf ex_mounts_ok) as [H|H].
  - by apply canonical_by.
  - vm_compute. reflexivity.
  - by eapply inside_for_inside.
  - destruct H as (name & _ & H).
    change (LinkTable.backing_of _ name) with ((∅ : gmap str str) !! name) in H.
    by rewrite lookup_empty in H.
Defined.


(** Confinement is about the text of the path.  The host resolves the links
    inside it, and those are not chased when the leaf exists: with a link to
    [/etc] that the guest made in its own root, [/h/shadow] is answered with
    a path below the upper layer at which the host finds its own file. *)
Lemma prefix_link_escapes :
  let '(pc, w') := classify true ex_world (lit "/h/shadow") false true copy_leaf in
  host_path pc = lit "/upper/h/shadow" /\
  lstat (host w') (host_path pc) = lstat ex_tree (lit "/etc/shadow").
Proof. vm_compute. split; reflexivity. Qed.

(** The same for a write intent. *)
Lemma prefix_link_escapes_write :
  let '(pc, w') := classify true ex_world (lit "/h/shadow") true true copy_leaf in
  lstat (host w') (host_path pc) = lstat ex_tree (lit "/etc/shadow").
Proof. vm_compute. reflexivity. Qed.

End NamespaceSafety.
