(* ===== verification/CopyUp.v ===== *)
(** Copy-up and the inverse translation.

    [copy_up] and [mirror_parents_from_lower] give linuxity, an ordinary host
    user, at least owner access to what it copies into the upper layer; the
    real mode goes to the metadata store.  [copied_faithful] shows that the
    guest sees the file it saw before.  [guest_path_of] is [classify] the
    other way around. *)

From S2P Require Import Prelude Abi Paths CText MetaStore LinkTable HostFs Whiteouts Dirents Namespace NamespaceSafety.
Import Abi Paths HostFs Whiteouts Mounts Overlay NamespaceSafety.

Module CopyUp.

Section copy.
Context {F : Type} `{HostFs F} `{!HostLaws F} `{!HostIo F} (io : bool).

(** ** The bytes *)

(** Whether no [write] of a chunk fails; it may be short. *)
Fixpoint chunk_clean (fuel : nat) (f : F) (out : Z) (bs : list Z) : bool :=
  match fuel, bs with
  | S fuel', _ :: _ => let '(f, w) := write f out bs in (0 <? w) && chunk_clean fuel' f out (drop (Z.to_nat w) bs)
  | _, _ => true
  end.

(** Whether no call of the copy fails: no [write], and a [read] gives nothing
    only at the end of the file. *)
Fixpoint copy_clean (fuel : nat) (f : F) (in_ out : Z) (off : nat) : bool :=
  match fuel with
  | O => true
  | S fuel' =>
      match read f in_ off chunk with
      | [] => (length (bytes f in_) <=? off)%nat
      | bs => chunk_clean (length bs) f out bs &&
              copy_clean fuel' (write_chunk (length bs) f out bs) in_ out (off + length bs)
      end
  end.

(** However the writes are cut up, the chunk is written. *)
Lemma write_chunk_all out : forall fuel f bs,
  (length bs <= fuel)%nat -> chunk_clean fuel f out bs = true -> bytes (write_chunk fuel f out bs) out = bytes f out ++ bs.
Proof.
  induction fuel as [|fuel IH]; intros f [|b bs] Hl; cbn [chunk_clean write_chunk]; try (by rewrite app_nil_r); [cbn in Hl; lia|].
  destruct (write f out (b :: bs)) as [f' w] eqn:E. destruct (write_part f out (b :: bs) f' w E) as [Hw Eb].
  intros [Hpos Hc]%andb_true_iff. apply Z.ltb_lt in Hpos. destruct (Z.leb_spec w 0); [lia|].
  rewrite IH, Eb, <- app_assoc, take_drop; [done| |done]. rewrite length_drop. cbn [length] in *. lia.
Qed.

Lemma copy_loop_all lo nd (B : list Z) out fuel : forall f off,
  lstat f lo = inl nd -> n_ino nd <> out -> bytes f (n_ino nd) = B -> bytes f out = take off B ->
  (length B < fuel + off)%nat -> copy_clean fuel f (n_ino nd) out off = true ->
  bytes (copy_loop fuel f (n_ino nd) out off) out = B.
Proof.
  induction fuel as [|fuel IH]; intros f off Hl Hne HB Ho Hf; cbn [copy_loop copy_clean].
  - intros _. rewrite Ho. apply take_ge. lia.
  - destruct (read_part f (n_ino nd) off chunk) as [rest Er]. rewrite HB in *.
    destruct (read f (n_ino nd) off chunk) as [|b bs] eqn:E.
    + intros Hend%Nat.leb_le. rewrite Ho. by apply take_ge.
    + intros [Hc Hcl]%andb_true_iff. set (d := b :: bs) in *.
      assert (Ed : d = take (length d) (drop off B)).
      { assert (Hd : (length d <= chunk)%nat).
        { apply (f_equal length) in Er. rewrite length_take, length_app in Er. lia. }
        apply (f_equal (take (length d))) in Er. rewrite take_app_length, take_take, Nat.min_l in Er by done. by symmetry. }
      destruct (write_chunk_but (length d) f out d) as [K L]. destruct (K lo nd Hl Hne) as [_ Hb'].
      apply IH; [by apply L|done|by rewrite Hb'| |unfold d; cbn [length]; lia|done].
      rewrite write_chunk_all, Ho by done. rewrite Ed at 1. by rewrite take_take_drop.
Qed.

Lemma copy_file_all f lo nd out :
  lstat f lo = inl nd -> n_ino nd <> out -> bytes f out = [] ->
  copy_clean (S (length (bytes f (n_ino nd)))) f (n_ino nd) out 0 = true ->
  bytes (copy_file f (n_ino nd) out) out = bytes f (n_ino nd).
Proof.
  intros Hl Hne Ho Hc. unfold copy_file. apply (copy_loop_all lo nd); [done..|lia|done].
Qed.

(** A disk that is full: the copy stays empty, and nobody is told. *)
Lemma full_disk_truncates f in_ out :
  (forall bs, write f out bs = (f, -1)) -> bytes (copy_file f in_ out) out = bytes f out.
Proof.
  intros Hw. unfold copy_file. generalize 0%nat. induction (S _) as [|fuel IH]; intros off; cbn [copy_loop]; [done|].
  destruct (read f in_ off chunk) as [|b bs]; [done|]. cbn [length write_chunk]. rewrite Hw. cbn [Z.leb Z.compare]. apply IH.
Qed.

(** ** The recorded modes *)

Lemma set_mode_others s p m hm q :
  q <> p -> MetaStore.table (MetaStore.set_mode io s p m hm) !! q = MetaStore.table s !! q.
Proof.
  intros Hq. unfold MetaStore.set_mode. repeat case_match; try done;
    rewrite ?MetaStore.table_append, ?MetaStore.table_append_tombstone;
    by rewrite ?lookup_insert_ne, ?lookup_delete_ne by done.
Qed.

(** Entries above the path record nothing for the path itself. *)
Lemma record_above abs wd : forall s,
  abs <> [] -> Forall (fun e => (0 < e.1)%nat) wd ->
  MetaStore.table (fold_left (record_widened io abs) wd s) !! abs = MetaStore.table s !! abs.
Proof.
  induction wd as [|[k m] wd IH]; intros s Ha Hw; [done|]. apply Forall_cons in Hw as [Hk Hw].
  cbn [fold_left]. rewrite IH by done. unfold record_widened. cbn [fst snd] in *.
  destruct (Nat.leb_spec k (length abs)) as [L|L]; [|done]. apply set_mode_others. intros E.
  apply (f_equal length) in E. rewrite length_take in E. lia.
Qed.

Lemma mirror_above f up lo : Forall (fun e => (0 < e.1)%nat) (mirror_parents_from_lower f up lo).2.
Proof.
  unfold mirror_parents_from_lower. destruct (rfind slash up) as [[|k]|] eqn:Er; [done| |done].
  assert (Hk : (S k < length up)%nat).
  { clear -Er. revert Er. generalize (S k). clear k.
    induction up as [|c up IH]; intros k; cbn; [done|]. destruct (rfind slash up) as [n|].
    - intros [= <-]. specialize (IH n eq_refl). lia.
    - destruct (decide (c = slash)); [|done]. intros [= <-]. lia. }
  generalize (match rfind slash lo with Some k => take k lo | None => [] end). intros lo_dir.
  assert (Hf : forall l s, Forall (fun e => (0 < e.1)%nat) s.2 ->
    Forall (fun e => (0 < e.1)%nat) (fold_left (mirror_step up lo_dir (take (S k) up)) l s).2).
  { induction l as [|i l IH]; intros s Hs; [done|]. cbn [fold_left]. apply IH.
    destruct s as [f' wd]. unfold mirror_step. destruct (mkdir f' _ _) as [f2 made].
    destruct made; [|done]. cbn [negb snd]. case_match; [done|]. apply Forall_app. split; [done|].
    apply Forall_singleton. cbn [fst]. rewrite !length_take. lia. }
  by apply Hf.
Qed.

Lemma perm_merge x y :
  Z.land (Z.lor (Z.land x MetaStore.kFileTypeMask) (Z.land y MetaStore.kPermMask)) MetaStore.kPermMask
  = Z.land y MetaStore.kPermMask.
Proof.
  rewrite Z.land_lor_distr_l, <- !Z.land_assoc.
  change (Z.land MetaStore.kFileTypeMask MetaStore.kPermMask) with 0.
  change (Z.land MetaStore.kPermMask MetaStore.kPermMask) with MetaStore.kPermMask.
  by rewrite Z.land_0_r.
Qed.

(** Without a recorded mode the permission bits are the host's. *)
Lemma perm_unrecorded st o :
  (forall r, o = Some r -> MetaStore.has r MetaStore.kMode = false) ->
  Z.land (MetaStore.guest_view st o).1.1 MetaStore.kPermMask = Z.land st MetaStore.kPermMask.
Proof.
  intros Hr. destruct o as [r|]; [|done]. cbn [MetaStore.guest_view fst].
  unfold MetaStore.effective_mode. rewrite (Hr r eq_refl). cbn [negb].
  destruct (_ && _); [|done]. rewrite Z.land_lor_distr_l, <- Z.land_assoc.
  change (Z.land MetaStore.S_IFIFO MetaStore.kPermMask) with 0. by rewrite Z.lor_0_r.
Qed.

Lemma recorded_has m u g n h :
  MetaStore.has {| MetaStore.mode := m; MetaStore.uid := u; MetaStore.gid := g; MetaStore.nlink := n;
                   MetaStore.have := Z.lor h MetaStore.kMode |} MetaStore.kMode = true.
Proof.
  unfold MetaStore.has. cbn [MetaStore.have]. rewrite Z.land_lor_distr_l.
  destruct (Z.eqb_spec (Z.lor (Z.land h MetaStore.kMode) (Z.land MetaStore.kMode MetaStore.kMode)) 0)
    as [E|_]; [|done]. by apply Z.lor_eq_0_iff in E as [_ ?].
Qed.

(** A recorded mode is the one the guest sees. *)
Lemma perm_recorded st s p m :
  Z.land (MetaStore.guest_view st
    (MetaStore.table (MetaStore.set_mode io s p m MetaStore.no_host_mode) !! p)).1.1 MetaStore.kPermMask
  = Z.land m MetaStore.kPermMask.
Proof.
  unfold MetaStore.set_mode. cbn [negb andb Z.eqb]. rewrite Z.eqb_refl. cbn [negb andb].
  rewrite MetaStore.table_append, lookup_insert_eq. cbn [MetaStore.guest_view fst].
  unfold MetaStore.effective_mode. rewrite recorded_has. cbn [negb MetaStore.mode]. cbv zeta.
  rewrite perm_merge, <- Z.land_assoc. done.
Qed.

(** ** Copy-up *)

(** Whether the host does all that [copy_up] asks of it for a regular file:
    both opens succeed, the copy is clean and the mode change takes. *)
Definition copy_up_clean (f : F) (up lo : str) (host_mode : Z) : bool :=
  let f := (mirror_parents_from_lower f up lo).1 in
  match open_in f lo, open_out f up host_mode with
  | Some in_, (f, Some out) =>
      copy_clean (S (length (bytes f in_))) f in_ out 0 &&
      match lstat (chmod (copy_file f in_ out) up host_mode) up with
      | inl nd => n_mode nd =? host_mode
      | inr _ => false
      end
  | _, _ => false
  end.

(** What [copy_up] then leaves of a regular lower file. *)
Lemma copy_up_file f up lo nd :
  lstat f lo = inl nd -> n_kind nd = KReg ->
  lstat (mirror_parents_from_lower f up lo).1 up = inr ENOENT ->
  let hm := Z.lor (n_mode nd) 384 in
  copy_up_clean f up lo hm = true ->
  exists wd, Forall (fun e => (0 < e.1)%nat) wd /\
  (copy_up f up lo).2 = (if hm =? n_mode nd then wd else wd ++ [(0%nat, n_mode nd)]) /\
  exists nd', lstat (copy_up f up lo).1 up = inl nd' /\
    n_kind nd' = KReg /\ n_mode nd' = hm /\
    bytes (copy_up f up lo).1 (n_ino nd') = bytes f (n_ino nd).
Proof.
  intros Hl Hk Hup hm. pose proof (mirror_keeps f up lo) as K.
  pose proof (mirror_above f up lo) as Hwd. unfold copy_up, copy_up_clean.
  destruct (mirror_parents_from_lower f up lo) as [f1 wd]. cbn [fst snd] in *.
  destruct (K lo nd Hl) as [Hl1 Eb1].
  assert (Hs1 : stat f1 lo = inl nd) by (apply stat_lstat; [done|unfold is_link; by rewrite Hk]).
  unfold exists_. rewrite Hup. change (negb (ENOENT =? ENAMETOOLONG)) with true.
  cbv iota. unfold is_dir. rewrite Hs1. cbn [is_ok]. unfold is_directory. rewrite Hk.
  rewrite bool_decide_eq_false_2 by done. cbn [negb andb]. fold hm.
  destruct (open_in f1 lo) as [in_|] eqn:Ei; [|done].
  destruct (open_in_stat f1 lo in_ Ei) as (nd1 & E1 & <-). rewrite Hs1 in E1. injection E1 as <-.
  destruct (open_out f1 up hm) as [f2 [out|]] eqn:Eo; [|done]. intros [Hcl Hch]%andb_true_iff. exists wd. cbn [fst snd].
  split; [done|]. split; [by destruct (hm =? n_mode nd)|].
  destruct (open_out_makes f1 up hm f2 out _ Hup Eo) as (K2 & Hz & Fr & no & Ho & Kr & <-).
  destruct (K2 lo nd Hl1) as [Hl2 Eb2]. pose proof (Fr lo nd Hl1) as Hne.
  destruct (copy_loop_but (S (length (bytes f2 (n_ino nd)))) f2 (n_ino nd) (n_ino no) 0) as [_ L].
  fold (copy_file f2 (n_ino nd) (n_ino no)) in L. specialize (L up no Ho).
  destruct (chmod_may (copy_file f2 (n_ino nd) (n_ino no)) up hm no L) as [Hb (m' & Hc & _)];
    [unfold is_link; by rewrite Kr|].
  rewrite Hc in Hch |- *. eexists. split; [done|]. cbn [n_mode n_kind n_ino] in *. apply Z.eqb_eq in Hch. split_and!; [done|done|].
  by rewrite Hb, (copy_file_all f2 lo nd), Eb2, Eb1.
Qed.

(** The permission bits stat reports for a regular file at guest path [abs]
    whose host file has mode [m]. *)
Definition guest_perm (w : World (F := F)) (abs : str) (m : Z) : Z :=
  Z.land (MetaStore.guest_view (Z.lor MetaStore.S_IFREG m) (MetaStore.table (meta w) !! abs)).1.1
    MetaStore.kPermMask.

Lemma classify_write d (w : World (F := F)) abs i m fo :
  deepest (mounts w) abs = Some i -> mounts w !! i = Some m -> producer m = None -> upper m <> [] ->
  classify_at io d w abs true fo copy_leaf =
  overlay_write io w abs (join_host (upper m) (rel_of m abs)) (join_host (host_base m) (rel_of m abs)) copy_leaf.
Proof.
  intros Hd Hi Hp Hu. unfold classify_at. rewrite Hd, Hi, Hp. destruct (upper m); [done|].
  cbv zeta. by rewrite decide_False.
Qed.

Lemma cleared (s : Whiteouts) p : is_whiteout (clear_whiteout_if_any io s p) p = false.
Proof.
  unfold is_whiteout. apply bool_decide_eq_false_2.
  unfold clear_whiteout_if_any, clear_whiteout, is_whiteout, append_line.
  case_bool_decide as D; [rewrite D; set_solver|]. case_bool_decide; [|done].
  cbn. destruct (wjournal s), io; set_solver.
Qed.

(** C14. Copy-up is invisible when the host does what it is asked: when the
    guest opens a regular file of the read-only lower layer for writing, the
    file is not in the upper layer and its mode is not on record, and no call
    of the copy fails (reads and writes may be short), a file appears in the
    upper layer that has the same bytes, and the permission bits the guest
    sees for it are those of the original, although the host file was given
    owner access as well; the path is not whited out afterwards, whatever the
    host does.  ([full_disk_truncates] is a copy that fails.) *)
Theorem copy_up_transparent (w : World (F := F)) (abs : str) (i : nat) (m : Mount) (nd : Node) (fo : bool) :
  let up := join_host (upper m) (rel_of m abs) in
  let lo := join_host (host_base m) (rel_of m abs) in
  deepest (mounts w) abs = Some i -> mounts w !! i = Some m -> producer m = None -> upper m <> [] ->
  abs <> [] -> lstat (host w) lo = inl nd -> n_kind nd = KReg -> 0 <= n_mode nd < 4096 ->
  lstat (mirror_parents_from_lower (host w) up lo).1 up = inr ENOENT ->
  (forall r, MetaStore.table (meta w) !! abs = Some r -> MetaStore.has r MetaStore.kMode = false) ->
  let '(pc, w') := classify_name io w abs true fo copy_leaf in
  host_path pc = up /\ is_whiteout (whites w') abs = false /\
  (copy_up_clean (host w) up lo (Z.lor (n_mode nd) 384) = true ->
   exists nd', lstat (host w') up = inl nd' /\
    n_kind nd' = KReg /\ bytes (host w') (n_ino nd') = bytes (host w) (n_ino nd) /\
    guest_perm w' abs (n_mode nd') = n_mode nd).
Proof.
  intros up lo Hd Hi Hp Hu Ha Hl Hk Hm Hup Hr. unfold classify_name. cbn [classify_impl max_depth].
  rewrite (classify_write _ w abs i m fo) by done. fold up lo.
  pose proof (copy_up_file (host w) up lo nd Hl Hk Hup) as Hfile.
  unfold overlay_write. rewrite decide_False by done.
  destruct (copy_up (host w) up lo) as [f wd']. cbn [fst snd] in *.
  split; [done|]. split; [apply cleared|]. intros Hcl. destruct (Hfile Hcl) as (wd & Hwd & -> & nd' & Hnd' & K' & M' & B').
  exists nd'. split; [done|]. split; [done|]. split; [done|]. unfold guest_perm. cbn [meta with_whites with_meta]. rewrite M'.
  assert (Ep : Z.land (n_mode nd) MetaStore.kPermMask = n_mode nd).
  { change MetaStore.kPermMask with (Z.ones 12). rewrite Z.land_ones by lia. by apply Z.mod_small. }
  destruct (Z.eqb_spec (Z.lor (n_mode nd) 384) (n_mode nd)) as [E|E].
  - rewrite perm_unrecorded by (rewrite record_above by done; exact Hr). rewrite E.
    rewrite Z.land_lor_distr_l, Ep. done.
  - rewrite fold_left_app. cbn [fold_left]. unfold record_widened at 1. cbn [fst snd].
    change (0 <=? length abs)%nat with true. cbv iota.
    rewrite Nat.sub_0_r, firstn_all, perm_recorded. done.
Qed.

End copy.

(** ** The inverse translation *)

(** A layer of a mount: its upper directory or its base. *)
Definition layer_dir (L : Mount * bool) : str := if L.2 then upper L.1 else host_base L.1.

Definition layers (ms : list Mount) : list (Mount * bool) := flat_map (fun m => [(m, true); (m, false)]) ms.

Definition best_of (L : Mount * bool) : Best :=
  {| b_mount := L.1; b_len := length (layer_dir L); via_upper := L.2 |}.

Definition layer_step (host : str) (b : option Best) (L : Mount * bool) : option Best :=
  if host_under (layer_dir L) host && (best_len b <? length (layer_dir L))%nat
  then Some (best_of L) else b.

Lemma guest_steps host ms : forall b,
  fold_left (guest_step host) ms b = fold_left (layer_step host) (layers ms) b.
Proof. induction ms as [|m ms IH]; intros b; [done|]. cbn [fold_left layers flat_map app]. apply IH. Qed.

(** [L] is the deepest layer that holds the host path. *)
Definition owns (ms : list Mount) (L : Mount * bool) (host : str) : Prop :=
  forall L', L' ∈ layers ms -> host_under (layer_dir L') host = true ->
  L' = L \/ (length (layer_dir L') < length (layer_dir L))%nat.

Lemma fold_owner host L ls : forall b,
  host_under (layer_dir L) host = true ->
  (forall L', L' ∈ ls -> host_under (layer_dir L') host = true ->
     L' = L \/ (length (layer_dir L') < length (layer_dir L))%nat) ->
  (b = Some (best_of L) \/ (best_len b < length (layer_dir L))%nat /\ L ∈ ls) ->
  fold_left (layer_step host) ls b = Some (best_of L).
Proof.
  induction ls as [|L' ls IH]; intros b Hu Ho Hb; cbn [fold_left].
  - destruct Hb as [Hb|[_ Hb]]; [done|by apply not_elem_of_nil in Hb].
  - apply IH; [done|intros; apply Ho; [by right|done]|]. unfold layer_step.
    destruct (host_under (layer_dir L') host) eqn:Eu; cbn [andb].
    + specialize (Ho L' ltac:(by left) Eu). destruct Hb as [-> |[Hb Hin]].
      * left. cbn [best_len best_of b_len]. destruct (Nat.ltb_spec (length (layer_dir L)) (length (layer_dir L')));
          [|done]. destruct Ho as [-> |]; [done|lia].
      * destruct Ho as [-> |Ho].
        { left. by rewrite (proj2 (Nat.ltb_lt _ _) Hb). }
        apply elem_of_cons in Hin as [<- |Hin]; [lia|]. right. split; [|done].
        destruct (_ <? _)%nat; [cbn; lia|done].
    + destruct Hb as [-> |[Hb Hin]]; [by left|]. right. split; [done|].
      apply elem_of_cons in Hin as [<- |Hin]; [congruence|done].
Qed.

Lemma under_self base t :
  base <> [] -> host_under base (base ++ body t) = true.
Proof.
  intros Hb. unfold host_under, at_or_below. rewrite bool_decide_eq_true_2 by done.
  rewrite take_app_length, bool_decide_eq_true_2 by done. cbn [andb].
  destruct t as [|c t]; [by rewrite app_nil_r, bool_decide_eq_true_2|].
  apply orb_true_iff. right. apply bool_decide_eq_true_2.
  rewrite lookup_app_r by done. by rewrite Nat.sub_diag.
Qed.

Lemma guest_path_of_layer ms m abs v :
  m ∈ ms -> mount_ok m -> matches m abs = true -> Canonical abs ->
  let hp := join_host (layer_dir (m, v)) (rel_of m abs) in
  layer_dir (m, v) <> [] -> last (layer_dir (m, v)) <> Some slash -> owns ms (m, v) hp ->
  guest_path_of ms hp = abs.
Proof.
  intros Hin Hm Hma Ha hp Hb Hl. subst hp.
  destruct (rel_of_canonical m abs Hm Hma Ha) as (t & Ht & -> & Eabs).
  rewrite join_host_body by done. intros Ho. unfold guest_path_of. rewrite guest_steps.
  rewrite (fold_owner _ (m, v)); [|by apply under_self|exact Ho|].
  - cbn [b_mount via_upper best_of fst snd]. fold (layer_dir (m, v)).
    change (if v then upper m else host_base m) with (layer_dir (m, v)).
    rewrite drop_app_length, Eabs. destruct (decide (prefix m = [slash])); destruct t; try done.
    cbn. by rewrite app_nil_r.
  - right. split; [by destruct (layer_dir (m, v)); cbn; [|lia]|]. unfold layers.
    apply list_elem_of_In, in_flat_map. exists m. split; [by apply list_elem_of_In|].
    destruct v; cbn; auto.
Qed.

(** The guest's name for a host file is the one it used: a path that is
    translated without following a final link, for reading, writing or
    removal, is recovered by [guest_path_of] from the host path, whichever
    layer of the overlay it was found in, as long as no mount's directory
    lies between that layer and the file. *)
Theorem guest_path_round_trip {F : Type} `{HostFs F} (io : bool) (w : World (F := F)) (abs : str)
    (fw : bool) (wi : WriteIntent) (i : nat) (m : Mount) :
  mount_ok m -> Canonical abs ->
  deepest (mounts w) abs = Some i -> mounts w !! i = Some m -> producer m = None -> host_base m <> [] ->
  (forall v, layer_dir (m, v) <> [] -> last (layer_dir (m, v)) <> Some slash /\
     owns (mounts w) (m, v) (join_host (layer_dir (m, v)) (rel_of m abs))) ->
  let pc := (classify_name io w abs fw false wi).1 in
  realm pc = host_backed -> guest_path_of (mounts w) (host_path pc) = abs.
Proof.
  intros Hm Ha Hd Hi Hp Hb Hl. pose proof (list_elem_of_lookup_2 _ _ _ Hi) as Hin.
  pose proof (deepest_matches _ _ _ _ Hd Hi) as Hma.
  assert (Hv : forall v, layer_dir (m, v) <> [] ->
    guest_path_of (mounts w) (join_host (layer_dir (m, v)) (rel_of m abs)) = abs).
  { intros v Hne. destruct (Hl v Hne). by apply guest_path_of_layer. }
  pose proof (Hv true) as Hup. pose proof (Hv false Hb) as Hlo. cbn in Hup, Hlo.
  unfold classify_name. cbn [classify_impl max_depth]. unfold classify_at. rewrite Hd, Hi, Hp. cbv zeta.
  destruct (upper m) as [|c u] eqn:Eu; [done|]. specialize (Hup ltac:(done)).
  unfold overlay_remove, overlay_write. destruct fw; repeat case_match; by intros.
Qed.

(** * Examples *)

Import Tree.

(** The file of mode 0444 is copied with owner write access; the guest still
    sees 0444. *)
Lemma copy_up_transparent_witness :
  let '(_, w') := classify_name true ex_world (lit "/etc/passwd") true true copy_leaf in
  exists nd', lstat (host w') (lit "/upper/etc/passwd") = inl nd' /\ n_mode nd' = 420 /\
    bytes (host w') (n_ino nd') = [114; 111; 111; 116] /\
    guest_perm w' (lit "/etc/passwd") 420 = 292.
Proof.
  pose proof (copy_up_transparent true ex_world (lit "/etc/passwd") 0 ex_root (file_node 292 4) true) as H.
  destruct (classify_name true ex_world (lit "/etc/passwd") true true copy_leaf) as [pc w'] eqn:E.
  destruct H as (_ & _ & H);
    [vm_compute; reflexivity|reflexivity|reflexivity|discriminate|discriminate|vm_compute; reflexivity
    |reflexivity|cbn; lia|vm_compute; reflexivity|intros r; cbn; by rewrite lookup_empty|].
  destruct H as (nd' & El' & _ & Hb & Hm); [vm_compute; reflexivity|].
  assert (El : lstat (host w') (lit "/upper/etc/passwd") = inl {| n_kind := KReg; n_mode := 420; n_ino := 14 |}).
  { change w' with (pc, w').2. rewrite <- E. vm_compute. reflexivity. }
  change (lstat (host w') (lit "/upper/etc/passwd") = inl nd') in El'. rewrite El in El'. injection El' as <-.
  eexists. split; [exact El|]. split; [done|]. split; [|exact Hm].
  rewrite Hb. vm_compute. reflexivity.
Defined.

Lemma guest_path_round_trip_witness :
  guest_path_of (mounts ex_world)
    (host_path (classify_name true ex_world (lit "/etc/passwd") false false copy_leaf).1)
  = lit "/etc/passwd".
Proof.
  apply (guest_path_round_trip true ex_world (lit "/etc/passwd") false copy_leaf 0 ex_root);
    [by exists []|by apply canonical_by|vm_compute; reflexivity|reflexivity|reflexivity|discriminate| |].
  - intros v _. split; [by destruct v|]. intros L' HL Hu.
    apply elem_of_cons in HL as [-> |HL]; [|apply list_elem_of_singleton in HL as ->];
      destruct v; try (left; reflexivity); vm_compute in Hu; discriminate.
  - vm_compute. reflexivity.
Defined.

(** A whiteout hides a lower file from its own name, but not from a link: the
    chase takes the lower layer without asking. *)
Lemma link_reaches_whiteout :
  let w := with_whites ex_world (add_whiteout true (whites ex_world) (lit "/etc/passwd")) in
  (classify_name true w (lit "/etc/passwd") false true copy_leaf).1 = gone enoent /\
  (classify_name true w (lit "/c") false true copy_leaf).1 = backed (lit "/lower/etc/passwd").
Proof. vm_compute. split; reflexivity. Qed.

End CopyUp.
