(* ===== verification/ProcState.v ===== *)
(** The per-process part of the file namespace
    ([include/linuxity/kernel/file_namespace.hpp]): each guest process's
    working directory and the paths and directory streams bound to its
    descriptors, how a new process gets them, and the byte format in which a
    fork on macOS carries them to a fresh host process.

    [unordered_map::operator[]] creates an empty table for a process that has
    none, so even a lookup ([fds], [path_of_fd]) returns the state.  The
    iteration order of the hash map is the argument [order]. *)

From S2P Require Import Prelude Paths GuestMem Dirents.
Import Paths Dirents.

Module ProcState.

(** [struct FdTable]. *)
Record FdTable := { paths : gmap Z str; streams : gmap Z DirStream }.

Definition no_fds : FdTable := {| paths := ∅; streams := ∅ |}.

(** [copy_for_fork] rebuilds every stream with its own position. *)
Definition copy_for_fork (t : FdTable) : FdTable :=
  {| paths := paths t;
     streams := (fun d => {| entries := entries d; pos := pos d; lazy_dir := lazy_dir d;
                             byte_off := byte_off d |}) <$> streams t |}.

Record Procs := {
  cwds : gmap Z str;
  cur_pid : Z;
  seeded_pid : Z;
  inherited_cwd : str;
  last_cwd : str;
  fd_tables : gmap Z FdTable;
  inherited_fds : FdTable;
  have_inherited_fds : bool;
  last_pid : Z
}.

(** A namespace just constructed. *)
Definition init : Procs :=
  {| cwds := ∅; cur_pid := 1; seeded_pid := 0; inherited_cwd := lit "/"; last_cwd := lit "/";
     fd_tables := ∅; inherited_fds := no_fds; have_inherited_fds := false; last_pid := 0 |}.

Definition cwd_of (s : Procs) (pid : Z) : str := default (lit "/") (cwds s !! pid).
Definition cwd (s : Procs) : str := cwd_of s (cur_pid s).

Definition set_cwd (s : Procs) (c : str) : Procs :=
  {| cwds := <[cur_pid s := normalize_path c]> (cwds s); cur_pid := cur_pid s;
     seeded_pid := seeded_pid s; inherited_cwd := inherited_cwd s; last_cwd := normalize_path c;
     fd_tables := fd_tables s; inherited_fds := inherited_fds s;
     have_inherited_fds := have_inherited_fds s; last_pid := last_pid s |}.

(** What a process seen for the first time starts with. *)
Definition seed (s : Procs) (pid ppid : Z) : Procs :=
  match cwds s !! pid with
  | Some _ => s
  | None =>
      let it := cwds s !! ppid in
      let from := match it with Some _ => ppid | None => last_pid s end in
      let s := {| cwds := <[pid := default (last_cwd s) it]> (cwds s); cur_pid := cur_pid s;
                  seeded_pid := seeded_pid s; inherited_cwd := inherited_cwd s;
                  last_cwd := last_cwd s; fd_tables := fd_tables s;
                  inherited_fds := inherited_fds s; have_inherited_fds := have_inherited_fds s;
                  last_pid := last_pid s |} in
      if have_inherited_fds s then
        {| cwds := cwds s; cur_pid := cur_pid s; seeded_pid := seeded_pid s;
           inherited_cwd := inherited_cwd s; last_cwd := last_cwd s;
           fd_tables := <[pid := inherited_fds s]> (fd_tables s);
           inherited_fds := no_fds; have_inherited_fds := false; last_pid := last_pid s |}
      else
        match fd_tables s !! from with
        | Some t => {| cwds := cwds s; cur_pid := cur_pid s; seeded_pid := seeded_pid s;
                       inherited_cwd := inherited_cwd s; last_cwd := last_cwd s;
                       fd_tables := <[pid := copy_for_fork t]> (fd_tables s);
                       inherited_fds := inherited_fds s;
                       have_inherited_fds := have_inherited_fds s; last_pid := last_pid s |}
        | None => s
        end
  end.

Definition set_current_pid (s : Procs) (pid ppid : Z) : Procs :=
  let s := {| cwds := cwds s; cur_pid := pid; seeded_pid := seeded_pid s;
              inherited_cwd := inherited_cwd s; last_cwd := last_cwd s; fd_tables := fd_tables s;
              inherited_fds := inherited_fds s; have_inherited_fds := have_inherited_fds s;
              last_pid := last_pid s |} in
  if pid =? seeded_pid s then s
  else
    let s := seed s pid ppid in
    let c := default [] (cwds s !! pid) in
    {| cwds := <[pid := c]> (cwds s); cur_pid := cur_pid s; seeded_pid := pid;
       inherited_cwd := inherited_cwd s; last_cwd := match c with [] => last_cwd s | _ => c end;
       fd_tables := fd_tables s; inherited_fds := inherited_fds s;
       have_inherited_fds := have_inherited_fds s; last_pid := pid |}.

Definition with_cwds (s : Procs) (m : gmap Z str) : Procs :=
  {| cwds := m; cur_pid := cur_pid s; seeded_pid := seeded_pid s; inherited_cwd := inherited_cwd s;
     last_cwd := last_cwd s; fd_tables := fd_tables s; inherited_fds := inherited_fds s;
     have_inherited_fds := have_inherited_fds s; last_pid := last_pid s |}.

Definition inherit_cwd (s : Procs) (child parent : Z) : Procs :=
  with_cwds s (<[child := default (lit "/") (cwds s !! parent)]> (cwds s)).

Definition forget_pid (s : Procs) (pid : Z) : Procs :=
  let s := with_cwds s (delete pid (cwds s)) in
  if pid =? seeded_pid s then
    {| cwds := cwds s; cur_pid := cur_pid s; seeded_pid := 0; inherited_cwd := inherited_cwd s;
       last_cwd := last_cwd s; fd_tables := fd_tables s; inherited_fds := inherited_fds s;
       have_inherited_fds := have_inherited_fds s; last_pid := last_pid s |}
  else s.

(** ** Descriptor bindings *)

Definition with_table (s : Procs) (t : FdTable) : Procs :=
  {| cwds := cwds s; cur_pid := cur_pid s; seeded_pid := seeded_pid s;
     inherited_cwd := inherited_cwd s; last_cwd := last_cwd s;
     fd_tables := <[cur_pid s := t]> (fd_tables s); inherited_fds := inherited_fds s;
     have_inherited_fds := have_inherited_fds s; last_pid := last_pid s |}.

(** [fds()]: the caller's table, created if missing. *)
Definition fds (s : Procs) : FdTable * Procs :=
  let t := default no_fds (fd_tables s !! cur_pid s) in (t, with_table s t).

Definition bind_fd (s : Procs) (fd : Z) (abs : str) : Procs :=
  let '(t, s) := fds s in with_table s {| paths := <[fd := abs]> (paths t); streams := streams t |}.

Definition unbind_fd (s : Procs) (fd : Z) : Procs :=
  let '(t, s) := fds s in
  with_table s {| paths := delete fd (paths t); streams := delete fd (streams t) |}.

Definition mirror_fd (s : Procs) (from to : Z) : Procs :=
  if from =? to then s
  else
    let '(t, s) := fds s in
    with_table s
      {| paths := match paths t !! from with Some p => <[to := p]> (paths t) | None => paths t end;
         streams := match streams t !! from with
                    | Some d => <[to := {| entries := entries d; pos := 0; lazy_dir := lazy_dir d;
                                           byte_off := 0 |}]> (streams t)
                    | None => streams t
                    end |}.

Definition path_of_fd (s : Procs) (fd : Z) : str * Procs :=
  let '(t, s) := fds s in (default [] (paths t !! fd), s).

Definition bind_dir (s : Procs) (fd : Z) (es : list VirtualDirent) : Procs :=
  let '(t, s) := fds s in
  with_table s {| paths := paths t;
                  streams := <[fd := {| entries := es; pos := 0; lazy_dir := []; byte_off := 0 |}]> (streams t) |}.

Definition bind_lazy_dir (s : Procs) (fd : Z) (abs : str) : Procs :=
  let '(t, s) := fds s in
  with_table s {| paths := paths t;
                  streams := <[fd := {| entries := []; pos := 0; lazy_dir := abs; byte_off := 0 |}]> (streams t) |}.

Definition is_virtual_dir_fd (s : Procs) (fd : Z) : bool * Procs :=
  let '(t, s) := fds s in (bool_decide (is_Some (streams t !! fd)), s).

(** ** The fork handoff *)

Definition char_of (b : Z) : ascii := ascii_of_N (Z.to_N b).
Definition text_of (bs : list Z) : str := map char_of bs.

(** [put]: the length, then the bytes. *)
Definition put (p : str) : list Z := le_bytes 4 (u32 (Z.of_nat (length p))) ++ map byte_of p.

Definition export_process_state (order : gmap Z str -> list (Z * str)) (s : Procs) : list Z * Procs :=
  let '(t, s') := fds s in
  (put (cwd s)
   ++ le_bytes 4 (u32 (Z.of_nat (size (paths t))))
   ++ concat (map (fun e => le_bytes 4 (u32 e.1) ++ put e.2) (order (paths t))), s').

(** The cursor: [u32()] reads four bytes if they are there and advances. *)
Definition get32 (inp : list Z) (at_ : nat) : Z * nat :=
  (if (at_ + 4 <=? length inp)%nat then le_val (take 4 (drop at_ inp)) else 0, (at_ + 4)%nat).

Definition get_str (inp : list Z) (at_ : nat) : str * nat :=
  let '(n, at_) := get32 inp at_ in
  (text_of (take (Z.to_nat n) (drop at_ inp)), (at_ + Z.to_nat n)%nat).

(** The loop of [import_process_state], [n] entries from [at_]. *)
Fixpoint import_loop (n : nat) (inp : list Z) (at_ : nat) (m : gmap Z str) : gmap Z str :=
  match n with
  | O => m
  | S n' =>
      if (at_ <? length inp)%nat then
        let fd := i32 (le_val (take 4 (drop at_ inp))) in
        let '(p, at_) := get_str inp (at_ + 4)%nat in
        import_loop n' inp at_ (<[fd := p]> m)
      else m
  end.

Definition import_process_state (s : Procs) (inp : list Z) : Procs :=
  let '(c, at_) := get_str inp 0 in
  let c := normalize_path c in
  let c := match c with [] => lit "/" | _ => c end in
  let '(n, at_) := get32 inp at_ in
  {| cwds := ∅; cur_pid := cur_pid s; seeded_pid := 0; inherited_cwd := c; last_cwd := last_cwd s;
     fd_tables := ∅;
     inherited_fds := {| paths := import_loop (Z.to_nat n) inp at_ ∅; streams := ∅ |};
     have_inherited_fds := true; last_pid := last_pid s |}.

(** ** A run *)

(** What a process does to its own state. *)
Inductive Op :=
| OChdir (c : str) | OBind (fd : Z) (p : str) | OUnbind (fd : Z) | OMirror (from to : Z)
| ODir (fd : Z) (es : list VirtualDirent) | OLazy (fd : Z) (p : str).

Definition do_op (s : Procs) (o : Op) : Procs :=
  match o with
  | OChdir c => set_cwd s c
  | OBind fd p => bind_fd s fd p
  | OUnbind fd => unbind_fd s fd
  | OMirror a b => mirror_fd s a b
  | ODir fd es => bind_dir s fd es
  | OLazy fd p => bind_lazy_dir s fd p
  end.

(** One syscall of process [pid], child of [ppid], as the dispatcher does it. *)
Record Call := { c_pid : Z; c_ppid : Z; c_op : Op }.

Definition do_call (s : Procs) (c : Call) : Procs :=
  do_op (set_current_pid s (c_pid c) (c_ppid c)) (c_op c).

(** The fast path of [set_current_pid] is taken only for a process that has
    a record. *)
Definition wf (s : Procs) : Prop := seeded_pid s = 0 \/ is_Some (cwds s !! seeded_pid s).

(** * Lemmas *)

(** The state process [q] sees. *)
Definition view (s : Procs) (q : Z) : option str * option FdTable := (cwds s !! q, fd_tables s !! q).

Lemma cur_do_op s o : cur_pid (do_op s o) = cur_pid s.
Proof. destruct o; cbn; try done. unfold mirror_fd. by destruct (_ =? _). Qed.

Lemma seeded_do_op s o : seeded_pid (do_op s o) = seeded_pid s.
Proof. destruct o; cbn; try done. unfold mirror_fd. by destruct (_ =? _). Qed.

Lemma view_do_op s o q : q <> cur_pid s -> view (do_op s o) q = view s q.
Proof.
  intros Hq. unfold view. destruct o; cbn; rewrite ?lookup_insert_ne by done; try done.
  unfold mirror_fd. destruct (_ =? _); [done|]. cbn. by rewrite !lookup_insert_ne by done.
Qed.

Lemma view_seed s pid ppid q : q <> pid -> view (seed s pid ppid) q = view s q.
Proof.
  intros Hq. unfold view, seed. destruct (cwds s !! pid); [done|]. cbv zeta. cbn.
  destruct (have_inherited_fds s); cbn; [by rewrite !lookup_insert_ne|].
  case_match; cbn; by rewrite !lookup_insert_ne.
Qed.

Lemma view_set_current s pid ppid q : q <> pid -> view (set_current_pid s pid ppid) q = view s q.
Proof.
  intros Hq. unfold set_current_pid. cbn. destruct (pid =? seeded_pid s); [done|].
  unfold view at 1. cbn. rewrite lookup_insert_ne by done.
  match goal with |- (cwds (seed ?x _ _) !! _, _) = _ => apply (view_seed x pid ppid q Hq) end.
Qed.

Lemma cur_seed s pid ppid : cur_pid (seed s pid ppid) = cur_pid s.
Proof. unfold seed. repeat case_match; done. Qed.

Lemma cur_set_current s pid ppid : cur_pid (set_current_pid s pid ppid) = pid.
Proof. unfold set_current_pid. cbn. destruct (_ =? _); [done|]. cbn. by rewrite cur_seed. Qed.

Lemma view_do_call s c q : q <> c_pid c -> view (do_call s c) q = view s q.
Proof.
  intros Hq. unfold do_call. rewrite view_do_op by by rewrite cur_set_current.
  by apply view_set_current.
Qed.

Lemma view_calls cs : forall s q,
  Forall (fun c => c_pid c <> q) cs -> view (fold_left do_call cs s) q = view s q.
Proof.
  induction cs as [|c cs IH]; intros s q Hc; [done|]. apply Forall_cons in Hc as [H1 H2].
  cbn. rewrite IH by done. by apply view_do_call.
Qed.

(** ** The invariant *)

Lemma wf_init : wf init.
Proof. by left. Qed.

Lemma wf_do_op s o : wf s -> wf (do_op s o).
Proof.
  unfold wf. rewrite seeded_do_op. intros [H|H]; [by left|right].
  destruct (decide (seeded_pid s = cur_pid s)) as [E|E].
  - destruct o; cbn; try done.
    + rewrite E, lookup_insert_eq. done.
    + unfold mirror_fd. by destruct (_ =? _).
  - pose proof (f_equal fst (view_do_op s o (seeded_pid s) E)) as Ev. cbn in Ev. by rewrite Ev.
Qed.

Lemma wf_set_current s pid ppid : wf s -> wf (set_current_pid s pid ppid).
Proof.
  intros H. unfold set_current_pid. cbn. destruct (pid =? seeded_pid s); [done|].
  right. cbn. by rewrite lookup_insert_eq.
Qed.

Lemma wf_inherit s c p : wf s -> wf (inherit_cwd s c p).
Proof.
  intros [H|H]; [by left|right]. cbn. destruct (decide (seeded_pid s = c)) as [-> |].
  - by rewrite lookup_insert_eq.
  - by rewrite lookup_insert_ne.
Qed.

Lemma wf_forget s p : wf s -> wf (forget_pid s p).
Proof.
  intros H. unfold forget_pid. cbn. destruct (Z.eqb_spec p (seeded_pid s)) as [-> |Hp]; [by left|].
  destruct H as [H|H]; [by left|right]. cbn. by rewrite lookup_delete_ne.
Qed.

(** ** A child's first call *)

Lemma copy_for_fork_id t : copy_for_fork t = t.
Proof.
  destruct t as [p d]. unfold copy_for_fork. cbn. f_equal.
  rewrite <- (map_fmap_id d) at 2. apply map_fmap_ext. by intros i [].
Qed.

Lemma first_call s child parent c t :
  wf s -> child <> 0 -> cwds s !! child = None -> cwds s !! parent = Some c ->
  fd_tables s !! parent = Some t -> have_inherited_fds s = false ->
  view (set_current_pid s child parent) child = (Some c, Some t).
Proof.
  intros Hw Hc0 Hc Hp Ht Hi. unfold set_current_pid. cbn.
  destruct (Z.eqb_spec child (seeded_pid s)) as [E|E].
  { destruct Hw as [Hw|[x Hw]]; congruence. }
  unfold view. cbn. unfold seed. cbn. rewrite Hc, Hp, Hi, Ht. cbn.
  by rewrite !lookup_insert_eq, copy_for_fork_id.
Qed.

(** ** The handoff's byte format *)

Lemma text_of_bytes p : text_of (map byte_of p) = p.
Proof.
  unfold text_of. rewrite map_map. rewrite <- (map_id p) at 2. apply map_ext. intros c.
  unfold char_of, byte_of. by rewrite N2Z.id, ascii_N_embedding.
Qed.

Lemma get32_at pre v rest :
  0 <= v < 2 ^ 32 -> get32 (pre ++ le_bytes 4 v ++ rest) (length pre) = (v, (length pre + 4)%nat).
Proof.
  intros Hv. unfold get32. rewrite !length_app, le_bytes_length.
  rewrite (proj2 (Nat.leb_le _ _)) by lia. rewrite drop_app_length.
  rewrite take_app_length' by by rewrite le_bytes_length. by rewrite le_val_bytes.
Qed.

Lemma get_str_at pre p rest :
  Z.of_nat (length p) < 2 ^ 32 ->
  get_str (pre ++ put p ++ rest) (length pre) = (p, length (pre ++ put p)).
Proof.
  intros Hp. unfold get_str, put. rewrite u32_small by lia. rewrite <- app_assoc.
  rewrite get32_at by lia. rewrite Nat2Z.id. rewrite !length_app, le_bytes_length, length_map.
  f_equal; [|lia]. rewrite app_assoc.
  rewrite drop_app_length' by by rewrite length_app, le_bytes_length.
  rewrite take_app_length' by by rewrite length_map. apply text_of_bytes.
Qed.

(** An entry of the table: a descriptor and its path. *)
Definition entry (e : Z * str) : list Z := le_bytes 4 (u32 e.1) ++ put e.2.
Definition entry_ok (e : Z * str) : Prop :=
  - 2 ^ 31 <= e.1 < 2 ^ 31 /\ Z.of_nat (length e.2) < 2 ^ 32.

Lemma i32_u32 z : - 2 ^ 31 <= z < 2 ^ 31 -> i32 (u32 z) = z.
Proof. intros Hz. unfold i32, u32. rewrite Z.mod_mod by lia. apply i32_small, Hz. Qed.

Lemma import_entries l : forall pre m,
  Forall entry_ok l ->
  import_loop (length l) (pre ++ concat (map entry l)) (length pre) m
  = fold_left (fun m e => <[e.1 := e.2]> m) l m.
Proof.
  induction l as [|[fd p] l IH]; intros pre m Hl; [done|]. apply Forall_cons in Hl as [[Hf Hp] Hl].
  cbn [length import_loop map concat fold_left fst snd] in *.
  assert (Hlt : (length pre < length (pre ++ entry (fd, p) ++ concat (map entry l)))%nat) by (unfold entry at 1; rewrite !length_app, le_bytes_length; lia).
  rewrite (proj2 (Nat.ltb_lt _ _) Hlt).
  change (entry (fd, p)) with (le_bytes 4 (u32 fd) ++ put p).
  rewrite drop_app_length. rewrite <- !app_assoc.
  rewrite take_app_length' by by rewrite le_bytes_length.
  rewrite le_val_bytes by apply Z.mod_pos_bound, eq_refl. rewrite i32_u32 by done.
  rewrite (app_assoc pre). replace (length pre + 4)%nat with (length (pre ++ le_bytes 4 (u32 fd)))
    by (by rewrite length_app, le_bytes_length).
  rewrite get_str_at by done. rewrite (app_assoc (pre ++ _)). apply IH. done.
Qed.

Section handoff.
Context (order : gmap Z str -> list (Z * str)).
Context (order_perm : forall m, order m ≡ₚ map_to_list m).

Lemma fold_order m : fold_left (fun m (e : Z * str) => <[e.1 := e.2]> m) (order m) ∅ = m.
Proof.
  rewrite <- (fold_left_rev_right (fun (e : Z * str) m => <[e.1 := e.2]> m)).
  change (list_to_map (rev (order m)) = m). etrans; [|apply list_to_map_to_list].
  assert (Hp : rev (order m) ≡ₚ map_to_list m) by (rewrite <- Permutation_rev; apply order_perm).
  apply list_to_map_proper; [|done]. rewrite Hp. apply NoDup_fst_map_to_list.
Qed.

Lemma order_length m : length (order m) = size m.
Proof. rewrite order_perm. by rewrite length_map_to_list. Qed.

Lemma import_export s s0 :
  Z.of_nat (length (cwd s)) < 2 ^ 32 ->
  let t := default no_fds (fd_tables s !! cur_pid s) in
  Z.of_nat (size (paths t)) < 2 ^ 32 -> (forall fd p, paths t !! fd = Some p -> entry_ok (fd, p)) ->
  let s' := import_process_state s0 (export_process_state order s).1 in
  paths (inherited_fds s') = paths t /\ streams (inherited_fds s') = ∅ /\
  inherited_cwd s' = normalize_path (cwd s) /\ have_inherited_fds s' = true /\
  cwds s' = ∅ /\ last_cwd s' = last_cwd s0 /\ seeded_pid s' = 0 /\ fd_tables s' = ∅.
Proof.
  intros Hc t Ht He. unfold export_process_state. cbn [fds fst]. fold t. cbv zeta.
  unfold import_process_state.
  pose proof (fun rest => get_str_at [] (cwd s) rest Hc) as Eg. cbn [app length] in Eg.
  rewrite Eg. clear Eg. cbv zeta.
  rewrite get32_at by (rewrite u32_small; lia). rewrite u32_small by lia.
  cbn [paths streams inherited_fds inherited_cwd have_inherited_fds cwds last_cwd seeded_pid fd_tables].
  split; [|split_and!; try done].
  - rewrite app_assoc, Nat2Z.id, <- order_length.
    change (fun e : Z * str => le_bytes 4 (u32 e.1) ++ put e.2) with entry.
    replace (length (put (cwd s)) + 4)%nat with (length (put (cwd s) ++ le_bytes 4 (Z.of_nat (length (order (paths t))))))
      by by rewrite length_app, le_bytes_length.
    rewrite import_entries; [apply fold_order|]. apply Forall_forall. intros [fd p].
    rewrite order_perm, elem_of_map_to_list. apply He.
  - destruct (normalize_path (cwd s)) eqn:E; [|done].
    pose proof (normalize_Canonical (cwd s)) as (stk & _ & En). rewrite E in En. by destruct stk.
Qed.

End handoff.

(** * Properties *)

(** Processes do not see each other's directories and descriptors: a
    child of a known parent starts with the parent's working directory and
    descriptor bindings, and then no sequence of calls of other processes
    (chdir, opening, closing, duplicating), the child's included, changes
    the directory or any binding of a process. *)
Theorem processes_isolated (s : Procs) (child parent : Z) (c : str) (t : FdTable) (cs : list Call) :
  wf s -> child <> 0 -> child <> parent -> cwds s !! child = None ->
  cwds s !! parent = Some c -> fd_tables s !! parent = Some t -> have_inherited_fds s = false ->
  let s1 := set_current_pid s child parent in
  view s1 child = (Some c, Some t) /\ wf s1 /\
  (forall q, Forall (fun x => c_pid x <> q) cs -> view (fold_left do_call cs s1) q = view s1 q) /\
  (Forall (fun x => c_pid x <> parent) cs -> view (fold_left do_call cs s1) parent = (Some c, Some t)).
Proof.
  intros Hw H0 Hne Hc Hp Ht Hi s1. split; [by apply first_call|]. split; [by apply wf_set_current|].
  split; [intros q; apply view_calls|]. intros Hcs. rewrite view_calls by done.
  unfold s1. rewrite view_set_current by done. unfold view. congruence.
Qed.

Definition ex_parent : Procs := bind_fd (set_cwd (set_current_pid init 1 0) (lit "/src")) 5 (lit "/etc").

Lemma processes_isolated_witness :
  let s := set_current_pid ex_parent 2 1 in
  let cs := [{| c_pid := 2; c_ppid := 1; c_op := OChdir (lit "/tmp") |};
             {| c_pid := 2; c_ppid := 1; c_op := OUnbind 5 |}] in
  (view s 2).1 = Some (lit "/src") /\ (view (fold_left do_call cs s) 1).1 = Some (lit "/src").
Proof.
  intros s cs.
  destruct (processes_isolated ex_parent 2 1 (lit "/src")
    {| paths := {[ 5 := lit "/etc" ]}; streams := ∅ |} cs) as (H1 & _ & _ & H2);
    [right; exists (lit "/src"); vm_compute; reflexivity|discriminate|discriminate
    |vm_compute; reflexivity..|].
  fold s in H1, H2. rewrite H1, H2; [split; reflexivity|]. repeat constructor; discriminate.
Defined.

(** The macOS fork handoff carries the descriptors and loses the
    directory: after a fresh process has imported the exported state, the
    child's first call finds every descriptor of the parent bound to the same
    path, but the working directory of the child is [/], whatever the
    parent's was: [inherited_cwd_], where the import files it, is read by
    nothing. *)
Theorem handoff_loses_cwd (order : gmap Z str -> list (Z * str)) (s : Procs) (pid ppid : Z) :
  (forall m, order m ≡ₚ map_to_list m) -> pid <> 0 ->
  let t := default no_fds (fd_tables s !! cur_pid s) in
  Z.of_nat (length (cwd s)) < 2 ^ 32 -> Z.of_nat (size (paths t)) < 2 ^ 32 ->
  (forall fd p, paths t !! fd = Some p -> entry_ok (fd, p)) ->
  let s' := import_process_state init (export_process_state order s).1 in
  inherited_cwd s' = normalize_path (cwd s) /\
  view (set_current_pid s' pid ppid) pid = (Some (lit "/"), Some {| paths := paths t; streams := ∅ |}).
Proof.
  intros Ho H0 t Hc Ht He s'.
  destruct (import_export order Ho s init Hc Ht He) as (E1 & E2 & E3 & E4 & E5 & E6 & E7 & E8).
  fold s' in E1, E2, E3, E4, E5, E6, E7, E8. fold t in E1.
  clearbody s' t. split; [done|]. unfold set_current_pid. cbn. rewrite E7.
  destruct (Z.eqb_spec pid 0); [done|]. unfold view. cbn. unfold seed. cbn.
  rewrite E5, !lookup_empty, E4, E6. cbn. rewrite !lookup_insert_eq. cbn.
  by rewrite <- E1, <- E2; destruct (inherited_fds s').
Qed.

Lemma handoff_loses_cwd_witness :
  let s' := import_process_state init (export_process_state map_to_list ex_parent).1 in
  inherited_cwd s' = lit "/src" /\ (view (set_current_pid s' 2 1) 2).1 = Some (lit "/").
Proof.
  intros s'.
  destruct (handoff_loses_cwd map_to_list ex_parent 2 1) as [H1 H2];
    [reflexivity|discriminate|vm_compute; reflexivity|vm_compute; reflexivity| |].
  - intros fd p. replace (paths _) with ({[ 5 := lit "/etc" ]} : gmap Z str) by (vm_compute; reflexivity).
    rewrite lookup_singleton_Some. intros [<- <-]. split; cbn; lia.
  - fold s' in H1, H2. rewrite H1, H2. split; [vm_compute|]; reflexivity.
Defined.

(** On the tracing backend a fork event is applied before the child's
    first call, and recording the child's directory then makes that call
    skip the inheritance of descriptors: whatever the parent had open, the
    child's table is left as it was, for a new process number missing. *)
Theorem spawned_child_loses_fds (s : Procs) (child parent : Z) :
  wf s -> child <> 0 -> cwds s !! child = None -> fd_tables s !! child = None ->
  let s' := set_current_pid (inherit_cwd s child parent) child parent in
  cwd_of s' child = cwd_of s parent /\ fd_tables s' !! child = None /\
  forall fd, (path_of_fd s' fd).1 = [].
Proof.
  intros Hw H0 Hc Hf s'. unfold s', set_current_pid, inherit_cwd. cbn.
  destruct (Z.eqb_spec child (seeded_pid s)) as [E|E].
  { destruct Hw as [Hw|[x Hw]]; congruence. }
  unfold seed. cbn. rewrite lookup_insert_eq. unfold cwd_of, path_of_fd. cbn.
  rewrite !lookup_insert_eq, Hf. cbn. split_and!; [done|done|]. intros fd. by rewrite lookup_empty.
Qed.

Lemma spawned_child_loses_fds_witness :
  (path_of_fd ex_parent 5).1 = lit "/etc" /\
  (path_of_fd (set_current_pid (inherit_cwd ex_parent 2 1) 2 1) 5).1 = [].
Proof.
  split; [vm_compute; reflexivity|].
  apply (spawned_child_loses_fds ex_parent 2 1); [right; exists (lit "/src"); vm_compute; reflexivity|discriminate
    |vm_compute; reflexivity..].
Defined.

End ProcState.
