(* ===== verification/OverlayDir.v ===== *)
(** Directories of the overlay ([overlay_dir_union], [merge_dir],
    [repair_pacman_db] and [remove_tree] in
    [include/linuxity/kernel/file_namespace.hpp]).

    The union of the two layers is built in a hash map, whose iteration order
    is the argument [order].  [listing_matches_lookup] relates the listing to
    [classify]: a name is listed exactly when looking it up finds a file. *)

From S2P Require Import Prelude Abi Paths HostFs Whiteouts Dirents MetaStore LinkTable Namespace NamespaceSafety.
Import Abi Paths HostFs Whiteouts Dirents Mounts Overlay NamespaceSafety.

Module OverlayDir.

Record DirEntryInfo := { info_type : VType; info_ino : Z }.

(** [NameMap]. *)
Abbreviation NameMap := (gmap str DirEntryInfo).

Section host.
Context {F : Type} `{HostFs F}.

(** The type and inode recorded for an entry: [d_type], or an [lstat]. *)
Definition entry_info (f : F) (host_dir : str) (e : HostEnt) : DirEntryInfo :=
  match he_type e with
  | DT_LNK => {| info_type := v_symlink; info_ino := he_ino e |}
  | DT_DIR => {| info_type := v_dir; info_ino := he_ino e |}
  | DT_REG => {| info_type := v_regular; info_ino := he_ino e |}
  | DT_OTHER =>
      match lstat f (host_dir ++ slash :: he_name e) with
      | inl nd => {| info_type := match n_kind nd with
                                  | KLnk _ => v_symlink | KDir => v_dir | _ => v_regular end;
                     info_ino := n_ino nd |}
      | inr _ => {| info_type := v_regular; info_ino := he_ino e |}
      end
  end.

(** One [readdir] record. *)
Definition merge_entry (f : F) (host_dir : str) (seen : NameMap) (e : HostEnt) : NameMap :=
  if decide (he_name e = dot) then seen
  else if decide (he_name e = dotdot) then seen
  else match seen !! he_name e with
       | Some _ => seen
       | None => <[he_name e := entry_info f host_dir e]> seen
       end.

(** [opendir], or through the parent when the path is too long. *)
Definition read_dir (f : F) (host_dir : str) : list HostEnt + Z :=
  match opendir f host_dir with
  | inr e => if e =? ENAMETOOLONG
             then at_long_parent f host_dir (fun d leaf => opendir_at f d leaf) else inr e
  | r => r
  end.

Definition merge_dir (f : F) (host_dir : str) (seen : NameMap) : NameMap * bool :=
  match read_dir f host_dir with
  | inr _ => (seen, false)
  | inl es => (fold_left (merge_entry f host_dir) es seen, true)
  end.

(** The implementation files of the upper layer. *)
Definition hidden : list str :=
  [lit ".linuxity-meta"; lit ".linuxity-links"; lit ".linuxity-whiteout"].

(** The guest path of a child, and its path in the upper layer. *)
Definition child_path (abs name : str) : str :=
  let dir := if bool_decide (abs <> [slash]) && bool_decide (last abs = Some slash)
             then take (length abs - 1) abs else abs in
  (if decide (dir = [slash]) then [slash] else dir ++ [slash]) ++ name.

Definition drop_whiteouts (w : World (F := F)) (abs up : str) (seen : NameMap) : NameMap :=
  filter (fun e => is_whiteout (whites w) (child_path abs e.1) = false \/
                   exists_ (host w) (up ++ slash :: e.1) = true) seen.

Definition overlay_dir_union (order : NameMap -> list (str * DirEntryInfo)) (w : World (F := F))
    (abs : str) : list VirtualDirent :=
  match deepest (mounts w) abs ≫= (fun i => mounts w !! i) with
  | None => []
  | Some m =>
      match producer m, upper m with
      | Some _, _ | None, [] => []
      | None, _ =>
          let rel := rel_of m abs in
          let lo := join_host (host_base m) rel in
          let up := join_host (upper m) rel in
          let '(seen, had_up) := merge_dir (host w) up ∅ in
          let '(seen, had_lo) := merge_dir (host w) lo seen in
          if negb had_up && negb had_lo then []
          else
            let seen := foldl (fun s h => delete h s) seen hidden in
            let seen := if bool_decide (wset (whites w) = ∅) then seen
                        else drop_whiteouts w abs up seen in
            {| v_name := dot; v_type := v_dir; v_ino := 0 |}
            :: {| v_name := dotdot; v_type := v_dir; v_ino := 0 |}
            :: map (fun '(name, i) => {| v_name := name; v_type := info_type i; v_ino := info_ino i |})
                 (order seen)
      end
  end.

(** ** Repair of pacman's database *)

(** [remove_tree]; [fuel] bounds the depth of the recursion. *)
Fixpoint remove_tree (fuel : nat) (f : F) (path : str) : F :=
  match fuel with
  | O => f
  | S fuel' =>
      let f := match opendir f path with
               | inr _ => f
               | inl es =>
                   fold_left (fun f e =>
                     if decide (he_name e = dot) then f
                     else if decide (he_name e = dotdot) then f
                     else let child := path ++ slash :: he_name e in
                          if is_dir f child then remove_tree fuel' f child else unlink f child) es f
               end in
      rmdir f path
  end.

Definition repair_pacman_db (fuel : nat) (f : F) (upper : str) : F :=
  let lck := upper ++ lit "/var/lib/pacman/db.lck" in
  let f := if exists_ f lck then unlink f lck else f in
  let localdir := upper ++ lit "/var/lib/pacman/local" in
  match opendir f localdir with
  | inr _ => f
  | inl es =>
      fold_left (fun f e =>
        if decide (he_name e = dot) then f
        else if decide (he_name e = dotdot) then f
        else
          let entry := localdir ++ slash :: he_name e in
          if negb (is_dir f entry) then f
          else if exists_ f (entry ++ lit "/desc") then f
          else remove_tree fuel f entry) es f
  end.

(** ** The merged map *)

(** A name found in a host directory. *)
Definition found (f : F) (dir n : str) : Prop := exists nd, lstat f (dir ++ slash :: n) = inl nd.

(** The directory can be read and searched, or is not there: its listing is
    what looking up names finds. *)
Definition coherent (f : F) (dir : str) (es : list HostEnt) : Prop :=
  forall n, canonical_comp n -> Z.of_nat (length (dir ++ slash :: n)) <= 4095 ->
  if decide (n ∈ map he_name es) then found f dir n else lstat f (dir ++ slash :: n) = inr ENOENT.

Definition layer_ok (f : F) (dir : str) : Prop :=
  (exists es, opendir f dir = inl es /\ coherent f dir es) \/
  (opendir f dir = inr ENOENT /\ coherent f dir []).

Lemma merge_entries f dir es : forall seen n, n <> dot -> n <> dotdot ->
  is_Some (fold_left (merge_entry f dir) es seen !! n) <-> is_Some (seen !! n) \/ n ∈ map he_name es.
Proof.
  induction es as [|e es IH]; intros seen n H1 H2; cbn [fold_left map].
  - split; [by left|]. intros [?|?%not_elem_of_nil]; done.
  - rewrite IH by done. rewrite elem_of_cons. unfold merge_entry.
    destruct (decide (he_name e = dot)); [naive_solver|].
    destruct (decide (he_name e = dotdot)); [naive_solver|].
    destruct (seen !! he_name e) as [i|] eqn:E; [naive_solver|].
    destruct (decide (n = he_name e)) as [-> |Hn].
    + rewrite lookup_insert_eq. naive_solver.
    + rewrite lookup_insert_ne by done. naive_solver.
Qed.

Lemma merge_no_dots f dir es n : n = dot \/ n = dotdot -> forall seen,
  seen !! n = None -> fold_left (merge_entry f dir) es seen !! n = None.
Proof.
  intros Hn. induction es as [|e es IH]; intros seen Hs; [done|]. cbn [fold_left]. apply IH.
  unfold merge_entry. destruct (decide (he_name e = dot)); [done|].
  destruct (decide (he_name e = dotdot)); [done|]. destruct (seen !! he_name e); [done|].
  rewrite lookup_insert_ne; [done|]. naive_solver.
Qed.

Lemma read_dir_ok f dir es : opendir f dir = inl es -> read_dir f dir = inl es.
Proof. unfold read_dir. by intros ->. Qed.

Lemma merge_dir_found f dir seen n :
  layer_ok f dir -> canonical_comp n -> Z.of_nat (length (dir ++ slash :: n)) <= 4095 ->
  (is_Some ((merge_dir f dir seen).1 !! n) <-> is_Some (seen !! n) \/ found f dir n) /\
  (found f dir n \/ lstat f (dir ++ slash :: n) = inr ENOENT) /\
  ((merge_dir f dir seen).2 = false -> ~ found f dir n).
Proof.
  intros Hl Hn Hlen. destruct Hn as (Hc & Hd & Hdd). unfold merge_dir.
  destruct Hl as [(es & Eo & Hco)|[Eo Hco]]; specialize (Hco n ltac:(done) Hlen).
  - rewrite (read_dir_ok f dir es Eo). cbn [fst snd]. rewrite merge_entries by done.
    destruct (decide (n ∈ map he_name es)); [naive_solver|].
    unfold found in *. rewrite Hco. naive_solver.
  - unfold read_dir. rewrite Eo. change (ENOENT =? ENAMETOOLONG) with false. cbn [fst snd].
    rewrite decide_False in Hco by apply not_elem_of_nil. unfold found. rewrite Hco. naive_solver.
Qed.

Lemma merge_dir_no_dots f dir seen n :
  n = dot \/ n = dotdot -> seen !! n = None -> (merge_dir f dir seen).1 !! n = None.
Proof. intros Hn Hs. unfold merge_dir. destruct (read_dir f dir); [by apply merge_no_dots|done]. Qed.

Lemma hidden_lookup (seen : NameMap) n :
  n ∉ hidden -> foldl (fun s h => delete h s) seen hidden !! n = seen !! n.
Proof.
  intros Hn. unfold hidden in *. cbn [foldl]. rewrite !lookup_delete_ne by set_solver. done.
Qed.

(** ** Children *)

Lemma child_canonical s n :
  Forall canonical_comp s -> canonical_comp n -> child_path (render s) n = render (s ++ [n]).
Proof.
  intros Hs Hn. unfold child_path. destruct s as [|c s].
  - rewrite bool_decide_eq_false_2 by naive_solver. cbn [andb]. rewrite decide_True by done.
    cbn. by rewrite app_nil_r.
  - rewrite (bool_decide_eq_false_2 (last _ = _)).
    + rewrite andb_false_r. rewrite decide_False.
      * rewrite !body_render by (by destruct s). rewrite body_app. cbn. by rewrite app_nil_r, <- app_assoc.
      * intros E. apply (f_equal components) in E.
        rewrite components_render in E by by apply canonical_comp_ok. done.
    + apply render_last; [by apply canonical_comp_ok|]. apply Forall_cons in Hs as [[[Hc _] _] _].
      destruct c; [done|]. cbn. lia.
Qed.

Lemma body_inj s t : Forall comp_ok s -> Forall comp_ok t -> body s = body t -> s = t.
Proof. intros Hs Ht E. by rewrite <- (components_body s), E, components_body. Qed.

(** The layers' paths of a child are the layers' paths of the directory
    followed by the name. *)
Lemma child_layer m abs n base :
  mount_ok m -> Canonical abs -> canonical_comp n ->
  matches m abs = true -> matches m (child_path abs n) = true ->
  base <> [] -> last base <> Some slash ->
  join_host base (rel_of m (child_path abs n)) = join_host base (rel_of m abs) ++ slash :: n.
Proof.
  intros Hm (s & Hs & ->) Hn H1 H2 Hb Hl. rewrite child_canonical in * by done.
  assert (Hsn : Forall canonical_comp (s ++ [n])) by (apply Forall_app; auto).
  destruct (rel_of_canonical m (render s) Hm H1) as (t & Ht & -> & E1); [by exists s|].
  destruct (rel_of_canonical m (render (s ++ [n])) Hm H2) as (t' & Ht' & -> & E2); [by exists (s ++ [n])|].
  rewrite !join_host_body by done. rewrite <- app_assoc. f_equal.
  assert (Et : t' = t ++ [n]); [|by rewrite Et, body_app; cbn; rewrite app_nil_r].
  destruct (decide (prefix m = [slash])).
  - apply (f_equal components) in E1, E2.
    rewrite !components_render in E1, E2 by by apply canonical_comp_ok. congruence.
  - apply body_inj; [by apply canonical_comp_ok|apply canonical_comp_ok, Forall_app; auto|].
    rewrite body_app. apply (app_inv_head (prefix m)). rewrite <- E2, app_assoc, <- E1.
    rewrite render_snoc. cbn. rewrite app_nil_r. destruct s as [|c s]; [|done].
    exfalso. destruct Hm as (p & Hp & Ep). rewrite Ep in E1.
    destruct p as [|c p]; [done|]. destruct c as [|x c]; cbn in E1.
    + apply Forall_cons in Hp as [[[? _] _] _]. done.
    + done.
Qed.

(** ** Listing and lookup *)

(** The two layers of a directory, merged and filtered. *)
Definition merged (w : World (F := F)) (abs up lo : str) : NameMap :=
  let seen := foldl (fun s h => delete h s)
    (merge_dir (host w) lo (merge_dir (host w) up ∅).1).1 hidden in
  if bool_decide (wset (whites w) = ∅) then seen else drop_whiteouts w abs up seen.

Lemma union_merged order (w : World (F := F)) abs i m :
  deepest (mounts w) abs = Some i -> mounts w !! i = Some m -> producer m = None -> upper m <> [] ->
  let lo := join_host (host_base m) (rel_of m abs) in
  let up := join_host (upper m) (rel_of m abs) in
  overlay_dir_union order w abs =
  if negb (merge_dir (host w) up ∅).2 && negb (merge_dir (host w) lo (merge_dir (host w) up ∅).1).2 then []
  else {| v_name := dot; v_type := v_dir; v_ino := 0 |}
       :: {| v_name := dotdot; v_type := v_dir; v_ino := 0 |}
       :: map (fun '(name, i) => {| v_name := name; v_type := info_type i; v_ino := info_ino i |})
            (order (merged w abs up lo)).
Proof.
  intros Hd Hi Hp Hu. unfold overlay_dir_union, merged. rewrite Hd. cbn [mbind option_bind]. rewrite Hi, Hp.
  destruct (upper m) as [|c u] eqn:Eu; [done|]. cbv zeta.
  destruct (merge_dir (host w) (join_host (c :: u) (rel_of m abs)) ∅) as [s1 b1].
  cbn [fst snd]. by destruct (merge_dir (host w) _ s1) as [s2 b2].
Qed.

Lemma exists_found f dir n :
  found f dir n \/ lstat f (dir ++ slash :: n) = inr ENOENT ->
  exists_ f (dir ++ slash :: n) = true <-> found f dir n.
Proof.
  unfold exists_, found. intros [[nd ->]| ->]; [naive_solver|].
  change (negb (ENOENT =? ENAMETOOLONG)) with true. naive_solver.
Qed.

Lemma merged_found (w : World (F := F)) abs up lo n :
  layer_ok (host w) up -> layer_ok (host w) lo -> canonical_comp n -> n ∉ hidden ->
  Z.of_nat (length (up ++ slash :: n)) <= 4095 -> Z.of_nat (length (lo ++ slash :: n)) <= 4095 ->
  is_Some (merged w abs up lo !! n) <->
  found (host w) up n \/ found (host w) lo n /\ is_whiteout (whites w) (child_path abs n) = false.
Proof.
  intros Hup Hlo Hn Hh L1 L2.
  destruct (merge_dir_found (host w) up ∅ n Hup Hn L1) as (M1 & X1 & _).
  destruct (merge_dir_found (host w) lo (merge_dir (host w) up ∅).1 n Hlo Hn L2) as (M2 & _).
  rewrite M1, lookup_empty in M2.
  assert (M : is_Some (foldl (fun s h => delete h s)
    (merge_dir (host w) lo (merge_dir (host w) up ∅).1).1 hidden !! n)
    <-> found (host w) up n \/ found (host w) lo n).
  { rewrite hidden_lookup by done. rewrite M2. split; [intros [[[x ?]|?]|?]; auto; done|naive_solver]. }
  unfold merged. case_bool_decide as Dw.
  - rewrite M. unfold is_whiteout. rewrite Dw.
    rewrite (bool_decide_eq_false_2 (_ ∈ ∅)) by set_solver. naive_solver.
  - assert (E : forall x, drop_whiteouts w abs up (foldl (fun s h => delete h s)
      (merge_dir (host w) lo (merge_dir (host w) up ∅).1).1 hidden) !! n = Some x <->
      foldl (fun s h => delete h s) (merge_dir (host w) lo (merge_dir (host w) up ∅).1).1 hidden !! n = Some x /\
      (is_whiteout (whites w) (child_path abs n) = false \/ exists_ (host w) (up ++ slash :: n) = true)).
    { intros x. unfold drop_whiteouts. by rewrite map_lookup_filter_Some. }
    pose proof (exists_found (host w) up n X1) as Hex. unfold is_Some in M |- *. split.
    + intros [x [Hx Hw]%E]. destruct (proj1 M) as [Hf|Hf]; [by exists x|by left|].
      destruct Hw as [Hw|Hw]; [by right|left; by apply Hex].
    + intros Hf. destruct (proj2 M) as [x Hx]; [naive_solver|]. exists x. apply E. split; [done|].
      destruct Hf as [Hf|[_ Hw]]; [right; by apply Hex|by left].
Qed.

Lemma merged_no_dots (w : World (F := F)) abs up lo n :
  n = dot \/ n = dotdot -> merged w abs up lo !! n = None.
Proof.
  intros Hn. assert (E : foldl (fun s h => delete h s)
    (merge_dir (host w) lo (merge_dir (host w) up ∅).1).1 hidden !! n = None).
  { rewrite hidden_lookup by (destruct Hn as [-> | ->]; unfold hidden; set_solver).
    apply merge_dir_no_dots; [done|]. apply merge_dir_no_dots; [done|]. apply lookup_empty. }
  unfold merged. case_bool_decide; [done|]. unfold drop_whiteouts.
  apply map_lookup_filter_None. by left.
Qed.

(** The lookup of a name finds a file. *)
Definition visible (f : F) (pc : PathClass) : Prop :=
  realm pc = host_backed /\ exists nd, lstat f (host_path pc) = inl nd.

Lemma lookup_found (io : bool) (w : World (F := F)) p i m wi up lo n :
  deepest (mounts w) p = Some i -> mounts w !! i = Some m -> producer m = None -> upper m <> [] ->
  join_host (upper m) (rel_of m p) = up ++ slash :: n ->
  join_host (host_base m) (rel_of m p) = lo ++ slash :: n ->
  found (host w) up n \/ lstat (host w) (up ++ slash :: n) = inr ENOENT ->
  visible (host w) (classify_name io w p false false wi).1 <->
  found (host w) up n \/ found (host w) lo n /\ is_whiteout (whites w) p = false.
Proof.
  intros Hd Hi Hp Hu Eup Elo Hf. unfold classify_name. cbn [classify_impl max_depth].
  unfold classify_at. rewrite Hd, Hi, Hp. rewrite Eup, Elo. cbv zeta.
  destruct (upper m) as [|c u]; [done|]. unfold probe_link, readlink, visible, found.
  destruct Hf as [[nd E]|E].
  - rewrite E. cbn [link_text]. destruct (n_kind nd);
      (split; [intros _; left; by exists nd|]); intros _; cbn; (split; [done|]); by exists nd.
  - rewrite E. cbn [link_text]. change (ENOENT =? ENAMETOOLONG) with false. cbv iota.
    change (ENOENT =? EINVAL) with false. change (ENOENT =? ENOTDIR) with false. cbv iota.
    assert (Ew : negb (bool_decide (wset (whites w) = ∅)) && is_whiteout (whites w) p = is_whiteout (whites w) p).
    { case_bool_decide as D; [|done]. unfold is_whiteout. rewrite D. by rewrite bool_decide_eq_false_2 by set_solver. }
    rewrite Ew. destruct (is_whiteout (whites w) p); cbn; naive_solver.
Qed.

End host.

Section listed.
Context (order : NameMap -> list (str * DirEntryInfo)).
Context (order_perm : forall s, order s ≡ₚ map_to_list s).

Lemma listed_names (seen : NameMap) n :
  n ∈ map v_name (map (fun '(name, i) =>
        {| v_name := name; v_type := info_type i; v_ino := info_ino i |}) (order seen))
  <-> is_Some (seen !! n).
Proof.
  rewrite map_map. rewrite list_elem_of_fmap. split.
  - intros ([m i] & -> & Hin). rewrite order_perm, elem_of_map_to_list in Hin. by exists i.
  - intros [i Hi]. exists (n, i). split; [done|]. by rewrite order_perm, elem_of_map_to_list.
Qed.

Lemma listed_NoDup (seen : NameMap) :
  NoDup (map v_name (map (fun '(name, i) =>
    {| v_name := name; v_type := info_type i; v_ino := info_ino i |}) (order seen))).
Proof.
  rewrite map_map. replace (map _ (order seen)) with ((order seen).*1).
  - rewrite order_perm. apply NoDup_fst_map_to_list.
  - apply list_fmap_ext. by intros ? [].
Qed.

End listed.

(** C15. What a directory of the overlay lists is what can be looked up: the
    listing names every file once, and names a file exactly when [classify]
    of its path finds one, in the upper layer or, unless it was removed, in
    the lower; the namespace's own journals apart. *)
Theorem listing_matches_lookup {F : Type} `{HostFs F} (io : bool)
    (order : NameMap -> list (str * DirEntryInfo)) (w : World (F := F)) (abs : str) (i : nat) (m : Mount)
    (wi : WriteIntent) :
  (forall s, order s ≡ₚ map_to_list s) -> mount_ok m -> Canonical abs ->
  deepest (mounts w) abs = Some i -> mounts w !! i = Some m -> producer m = None ->
  Forall (fun b => b <> [] /\ last b <> Some slash) [upper m; host_base m] ->
  let up := join_host (upper m) (rel_of m abs) in
  let lo := join_host (host_base m) (rel_of m abs) in
  layer_ok (host w) up -> layer_ok (host w) lo ->
  NoDup (map v_name (overlay_dir_union order w abs)) /\
  forall n, canonical_comp n -> n ∉ hidden -> deepest (mounts w) (child_path abs n) = Some i ->
    Z.of_nat (length (up ++ slash :: n)) <= 4095 -> Z.of_nat (length (lo ++ slash :: n)) <= 4095 ->
    n ∈ map v_name (overlay_dir_union order w abs) <->
    visible (host w) (classify_name io w (child_path abs n) false false wi).1.
Proof.
  intros Ho Hm Ha Hd Hi Hp Hb up lo Hup Hlo. apply Forall_cons in Hb as [[Hu Hul] Hb].
  apply Forall_singleton in Hb as [Hb Hbl]. rewrite (union_merged order w abs i m) by done. fold up lo.
  destruct (negb _ && negb _) eqn:Eg.
  - split; [constructor|]. intros n Hn Hh Hdc L1 L2. cbn [map].
    apply andb_true_iff in Eg as [E1%negb_true_iff E2%negb_true_iff].
    destruct (merge_dir_found (host w) up ∅ n Hup Hn L1) as (_ & X1 & N1).
    destruct (merge_dir_found (host w) lo (merge_dir (host w) up ∅).1 n Hlo Hn L2) as (_ & _ & N2).
    rewrite (lookup_found io w _ i m wi up lo n); try done.
    + split; [by intros ?%not_elem_of_nil|]. intros [?|[? _]]; exfalso; [by apply N1|by apply N2].
    + apply child_layer; eauto using deepest_matches.
    + apply child_layer; eauto using deepest_matches.
  - clear Eg. split.
    + cbn [map v_name]. rewrite !NoDup_cons, !elem_of_cons, !(listed_names order Ho).
      rewrite !merged_no_dots by auto. split_and!; [intros [?|[? ?]]; done|by intros [? ?]|].
      by apply listed_NoDup.
    + intros n Hn Hh Hdc L1 L2. destruct (merge_dir_found (host w) up ∅ n Hup Hn L1) as (_ & X1 & _).
      cbn [map v_name]. rewrite !elem_of_cons, (listed_names order Ho).
      rewrite merged_found by done. rewrite (lookup_found io w _ i m wi up lo n); try done.
      * destruct Hn as (_ & ? & ?). naive_solver.
      * apply child_layer; eauto using deepest_matches.
      * apply child_layer; eauto using deepest_matches.
Qed.

(** * The tree host lists what it finds *)

Import Tree.

Lemma walk_cons n t a c cs fl :
  walk (S n) t a (c :: cs) fl =
  match get t a with
  | None => inr ENOENT
  | Some nd =>
      if negb (is_directory nd) then inr ENOTDIR
      else if decide (c = dot) then walk n t a cs fl
      else if decide (c = dotdot) then walk n t (removelast a) cs fl
      else match get t (a ++ [c]) with
           | None => if decide (cs = []) then inl (a ++ [c]) else inr ENOENT
           | Some nd' =>
               match n_kind nd' with
               | KLnk target =>
                   if negb fl && bool_decide (cs = []) then inl (a ++ [c])
                   else walk n t (if decide (head target = Some slash) then [] else a)
                          (components target ++ cs) fl
               | _ => walk n t (a ++ [c]) cs fl
               end
           end
  end.
Proof. done. Qed.

(** One more component, not followed. *)
Lemma walk_snoc n : forall t a cs k nd c,
  walk n t a cs true = inl k -> get t k = Some nd -> n_kind nd = KDir -> canonical_comp c ->
  walk (S n) t a (cs ++ [c]) false = inl (k ++ [c]).
Proof.
  assert (Hlast : forall n t k nd c, get t k = Some nd -> n_kind nd = KDir -> canonical_comp c ->
    walk (S n) t k [c] false = inl (k ++ [c])).
  { intros m t k nd c Hg Hk (_ & H1 & H2). rewrite walk_cons, Hg. unfold is_directory. rewrite Hk.
    rewrite bool_decide_eq_true_2 by done. cbn [negb]. rewrite !decide_False by done.
    destruct (get t (k ++ [c])) as [nc|]; [|done]. destruct (n_kind nc); cbn; try done; by destruct m. }
  induction n as [|n IH]; intros t a [|c0 cs] k nd c Hw Hg Hk Hc; try done;
    try (assert (a = k) as -> by (cbn in Hw; congruence); cbn [app]; by eapply Hlast).
  cbn [app]. rewrite walk_cons in Hw |- *.
  destruct (get t a) as [na|]; [|done]. destruct (negb _); [done|].
  destruct (decide (c0 = dot)); [by eapply IH|]. destruct (decide (c0 = dotdot)); [by eapply IH|].
  destruct (get t (a ++ [c0])) as [nc|] eqn:E0.
  - destruct (n_kind nc); try by eapply IH. cbn [negb andb] in *.
    rewrite bool_decide_eq_false_2 by (by destruct cs). rewrite app_assoc. by eapply IH.
  - destruct (decide (cs = [])) as [-> |]; [|done]. injection Hw as <-. congruence.
Qed.

Lemma entries_names t k n :
  n ∈ map he_name (Tree.entries t k) <-> is_Some (nodes t !! (k ++ [n])).
Proof.
  unfold Tree.entries. rewrite list_elem_of_fmap. split.
  - intros (e & -> & He). apply list_elem_of_omap in He as ([q nd] & Hq & E).
    apply elem_of_map_to_list in Hq. destruct (last q) as [c|]; [|done].
    case_decide as D; [|done]. injection E as <-. cbn. rewrite <- D. by exists nd.
  - intros [nd Hn]. eexists. split; [|apply list_elem_of_omap; exists (k ++ [n], nd); split;
      [by apply elem_of_map_to_list|cbn; rewrite last_snoc, decide_True by done; reflexivity]]. done.
Qed.

(** A directory reached within the walk's bound is coherent. *)
Lemma tree_coherent t p k nd :
  walk (walk_fuel - 1) t [] (components p) true = inl k -> get t k = Some nd -> n_kind nd = KDir ->
  coherent t p (Tree.entries t k).
Proof.
  intros Hw Hg Hk n Hn Hlen.
  assert (El : lstat t (p ++ slash :: n) =
    match nodes t !! (k ++ [n]) with Some nd => inl nd | None => inr ENOENT end).
  { cbn [lstat tree_host]. unfold node_at, locate. rewrite (proj2 (Z.ltb_ge _ _)) by lia.
    rewrite decide_False by (by destruct p). change (slash :: n) with ([slash] ++ n).
    rewrite app_assoc, components_join by (left; apply last_snoc). rewrite components_snoc_slash.
    destruct Hn as [[Hn1 Hn2] Hn3].
    assert (En : components n = [n]).
    { rewrite <- (app_nil_r n) at 1. by rewrite components_comp by auto. }
    rewrite En. change walk_fuel with (S (walk_fuel - 1)).
    rewrite (walk_snoc _ t [] (components p) k nd n) by done. unfold get.
    destruct (nodes t !! (k ++ [n])); [done|]. by rewrite decide_False by (by destruct k). }
  unfold found. rewrite El. destruct (decide (n ∈ _)) as [Hin|Hin]; rewrite entries_names in Hin.
  - destruct Hin as [x ->]. by exists x.
  - destruct (nodes t !! (k ++ [n])); [|done]. by destruct Hin.
Qed.
(** The root of the example world after [/c] was removed. *)
Definition ex_removed : World :=
  with_whites ex_world (add_whiteout true (whites ex_world) (lit "/c")).

Definition canonical_by_name (n : str) : bool :=
  bool_decide (n <> [] /\ slash ∉ n /\ n <> dot /\ n <> dotdot /\ n ∉ hidden).

Lemma canonical_by_name_ok n : canonical_by_name n = true -> canonical_comp n /\ n ∉ hidden.
Proof. intros (? & ? & ? & ? & ?)%bool_decide_eq_true. done. Qed.

Lemma listing_matches_lookup_witness :
  let names := map v_name (overlay_dir_union map_to_list ex_removed (lit "/")) in
  lit "a" ∈ names /\ lit "h" ∈ names /\ lit "c" ∉ names.
Proof.
  intros names.
  destruct (listing_matches_lookup true map_to_list ex_removed (lit "/") 0 ex_root copy_leaf)
    as [_ Hl]; [reflexivity|exists []; by split|exists []; by split|vm_compute; reflexivity|reflexivity|reflexivity
    |repeat constructor; discriminate| | |].
  { left. exists (Tree.entries ex_tree [lit "upper"]). split; [vm_compute; reflexivity|].
    apply (tree_coherent ex_tree _ [lit "upper"] (dir_node 9)); vm_compute; reflexivity. }
  { left. exists (Tree.entries ex_tree [lit "lower"]). split; [vm_compute; reflexivity|].
    apply (tree_coherent ex_tree _ [lit "lower"] (dir_node 2)); vm_compute; reflexivity. }
  fold names in Hl.
  assert (Hc : forall n, n = lit "a" \/ n = lit "h" \/ n = lit "c" -> canonical_comp n /\ n ∉ hidden).
  { intros n Hn. assert (Hb : canonical_by_name n = true) by (destruct Hn as [-> |[-> | ->]]; vm_compute; reflexivity).
    by apply canonical_by_name_ok. }
  split; [|split].
  - apply Hl; [apply Hc; auto|apply Hc; auto|vm_compute; reflexivity|vm_compute; discriminate
      |vm_compute; discriminate|]. split; [vm_compute; reflexivity|]. eexists. vm_compute. reflexivity.
  - apply Hl; [apply Hc; auto|apply Hc; auto|vm_compute; reflexivity|vm_compute; discriminate
      |vm_compute; discriminate|]. split; [vm_compute; reflexivity|]. eexists. vm_compute. reflexivity.
  - rewrite Hl; [|apply Hc; auto|apply Hc; auto|vm_compute; reflexivity|vm_compute; discriminate
      |vm_compute; discriminate]. intros [Hr _]. vm_compute in Hr. discriminate.
Defined.

(** * Repair follows links

    [is_dir] asks [stat], which follows links, so an entry of the package
    database that is a link to a directory without a [desc] file is emptied
    through the link. *)

Definition repair_tree_example : Tree := {|
  nodes := list_to_map
    [([lit "upper"], dir_node 2); ([lit "upper"; lit "var"], dir_node 3);
     ([lit "upper"; lit "var"; lit "lib"], dir_node 4);
     ([lit "upper"; lit "var"; lit "lib"; lit "pacman"], dir_node 5);
     ([lit "upper"; lit "var"; lit "lib"; lit "pacman"; lit "local"], dir_node 6);
     ([lit "upper"; lit "var"; lit "lib"; lit "pacman"; lit "local"; lit "x"], link_node "/home" 7);
     ([lit "home"], dir_node 8); ([lit "home"; lit "notes"], file_node 384 9)];
  data := ∅
|}.

(** Starting linuxity can delete files of the host outside the upper
    layer: with a link [x] to [/home] that the guest left in the package
    database of its own upper layer, the repair that runs when the layer is
    attached removes the files in [/home]. *)
Theorem repair_deletes_through_links :
  lstat repair_tree_example (lit "/home/notes") = inl (file_node 384 9) /\
  lstat (repair_pacman_db 10 repair_tree_example (lit "/upper")) (lit "/home/notes") = inr ENOENT.
Proof. vm_compute. split; reflexivity. Qed.

End OverlayDir.
