(* ===== verification/PathResolve.v ===== *)
(** From the path in a syscall's register to an absolute guest path
    ([absolutize], [resolve_dotdot] and [physical_if_symlink] in
    [include/linuxity/kernel/file_namespace.hpp]).

    [..] after a symbolic link goes to the parent of the link's target, so
    resolving a path asks the namespace for links.  A [None] is the
    [std::length_error] that [cur.resize(cur.rfind('/'))] throws when there
    is no separator left to find; nothing catches it.  A chase of links is
    bounded by the depth of 40 the source checks. *)

From S2P Require Import Prelude Sysno Abi Dispatch Paths HostFs Whiteouts MetaStore LinkTable Dirents Namespace NamespaceSafety.
Import Abi Paths HostFs Whiteouts Mounts Overlay NamespaceSafety.

Module PathResolve.

(** ** [resolve_dotdot] *)

Section dotdot.
(** The link a canonical path is, resolved; empty when it is none. *)
Context (phys : str -> option str).

(** The loop over the components; [cur] empty is the root. *)
Fixpoint dotdot_loop (cs : list str) (cur : str) : option str :=
  match cs with
  | [] => Some cur
  | c :: cs' =>
      if decide (c = dot) then dotdot_loop cs' cur
      else if decide (c <> dotdot) then dotdot_loop cs' (cur ++ slash :: c)
      else if decide (cur = []) then dotdot_loop cs' cur
      else
        match phys cur with
        | None => None
        | Some ph =>
            let cur := match ph with
                       | [] => cur
                       | _ => if decide (ph = [slash]) then [] else ph
                       end in
            match rfind slash cur with
            | None => None
            | Some k => dotdot_loop cs' (take k cur)
            end
        end
  end.

(** [p.find("..") != npos]. *)
Fixpoint has_dotdot (p : str) : bool :=
  match p with
  | [] => false
  | c :: p' => bool_decide (take 2 p = dotdot) || has_dotdot p'
  end.

Definition resolve_dotdot (p : str) : option str :=
  if negb (has_dotdot p) then Some (normalize p)
  else match dotdot_loop (components p) [] with
       | None => None
       | Some [] => Some [slash]
       | Some cur => Some cur
       end.

End dotdot.

Section links.
Context {F : Type} `{HostFs F} (io : bool).

(** [physical_if_symlink]: [left] is [41 - depth]. *)
Fixpoint physical_if_symlink (left : nat) (w : World (F := F)) (abs : str) : option str :=
  match left with
  | O => Some []
  | S left' =>
      let lc := (classify io w abs false false copy_leaf).1 in
      match realm lc, host_path lc with
      | host_backed, c :: hp =>
          match readlink (host w) (c :: hp) with
          | inr _ | inl [] => Some []
          | inl t =>
              let next := if decide (List.hd_error t = Some slash) then t
                          else match rfind slash abs with
                               | Some k => take k abs | None => abs end ++ slash :: t in
              match resolve_dotdot (physical_if_symlink left' w) next with
              | None => None
              | Some next =>
                  match physical_if_symlink left' w next with
                  | None => None
                  | Some [] => Some next
                  | Some deeper => Some deeper
                  end
              end
          end
      | _, _ => Some []
      end
  end.

Definition max_links : nat := 41.

(** [absolutize]; [cwd] is the caller's directory, [dir_path] the path bound
    to the dirfd or empty. *)
Definition absolutize (w : World (F := F)) (cwd path dir_path : str) : option str :=
  let resolve := resolve_dotdot (physical_if_symlink max_links w) in
  if decide (List.hd_error path = Some slash) then resolve path
  else
    let base := match dir_path with [] => cwd | _ => dir_path end in
    let base := match base with [] => [slash] | _ => base end in
    let base := match last base with
                | Some c => if decide (c = slash) then base else base ++ [slash]
                | None => base
                end in
    resolve (base ++ path).

End links.

(** * The walk on stacks of components *)

(** What a component does: [..] leaves the link's target, if the path so far
    is a link. *)
Definition walk_step (phys : str -> option str) (stk : list str) (c : str) : option (list str) :=
  if decide (c = dot) then Some stk
  else if decide (c <> dotdot) then Some (stk ++ [c])
  else match stk with
       | [] => Some []
       | _ => match phys (body stk) with
              | None => None
              | Some [] => Some (removelast stk)
              | Some p => match components p with
                          | [] => None
                          | s => Some (removelast s)
                          end
              end
       end.

Fixpoint walk_steps (phys : str -> option str) (stk cs : list str) : option (list str) :=
  match cs with
  | [] => Some stk
  | c :: cs' => match walk_step phys stk c with None => None | Some stk => walk_steps phys stk cs' end
  end.

(** The oracle answers with canonical paths. *)
Definition canonical_answers (phys : str -> option str) : Prop :=
  forall p q, phys p = Some q -> q = [] \/ Canonical q.

Lemma rfind_body s c : Forall comp_ok (s ++ [c]) -> rfind slash (body (s ++ [c])) = Some (length (body s)).
Proof.
  intros [_ Hc]%Forall_app. rewrite Forall_singleton in Hc. rewrite body_app. cbn. rewrite app_nil_r.
  apply rfind_app_last. apply Hc.
Qed.

Lemma pop_body stk : stk <> [] -> Forall comp_ok stk ->
  exists k, rfind slash (body stk) = Some k /\ take k (body stk) = body (removelast stk).
Proof.
  intros Hne Hs. destruct stk as [|c stk _] using rev_ind; [done|].
  exists (length (body stk)). split; [by apply rfind_body|].
  rewrite removelast_last, body_app. by rewrite take_app_length.
Qed.

Lemma walk_step_canonical phys stk c stk' :
  canonical_answers phys -> Forall canonical_comp stk -> comp_ok c ->
  walk_step phys stk c = Some stk' -> Forall canonical_comp stk'.
Proof.
  intros Hp Hs Hc. unfold walk_step. destruct (decide (c = dot)); [by intros [= <-]|].
  destruct (decide (c <> dotdot)).
  - intros [= <-]. apply Forall_app. split; [done|]. by apply Forall_singleton.
  - assert (Hr : forall s, Forall canonical_comp s -> Forall canonical_comp (removelast s)).
    { intros s H. destruct s as [|x s _] using rev_ind; [done|]. rewrite removelast_last.
      by apply Forall_app in H as [? _]. }
    destruct stk as [|x stk]; [by intros [= <-]|].
    destruct (phys (body (x :: stk))) as [[|y q]|] eqn:E; [intros [= <-]; by apply (Hr (x :: stk))| |done].
    destruct (Hp _ _ E) as [?|(s & Hs' & Eq)]; [done|]. rewrite Eq, components_render by by apply canonical_comp_ok.
    destruct s as [|z s]; [done|]. intros [= <-]. by apply (Hr (z :: s)).
Qed.

Lemma dotdot_loop_walk phys cs : forall stk,
  canonical_answers phys -> Forall comp_ok cs -> Forall canonical_comp stk ->
  dotdot_loop phys cs (body stk) = option_map body (walk_steps phys stk cs).
Proof.
  induction cs as [|c cs IH]; intros stk Hp Hcs Hs; [done|]. apply Forall_cons in Hcs as [Hc Hcs].
  cbn [dotdot_loop walk_steps]. pose proof (walk_step_canonical phys stk c) as Hw.
  unfold walk_step in *. destruct (decide (c = dot)); [by apply IH|].
  destruct (decide (c <> dotdot)).
  - rewrite <- IH; [by rewrite body_app; cbn; rewrite app_nil_r|done..|]. by eapply Hw.
  - destruct stk as [|x stk]; [cbn [body flat_map]; by apply (IH [])|].
    rewrite decide_False by done.
    destruct (phys (body (x :: stk))) as [[|y q]|] eqn:E; [| |done].
    + destruct (pop_body (x :: stk)) as (k & -> & ->); [done|by apply canonical_comp_ok|].
      apply IH; [done..|]. by eapply Hw.
    + destruct (Hp _ _ E) as [?|(s & Hs' & Eq)]; [done|]. rewrite Eq in *.
      rewrite components_render in * by by apply canonical_comp_ok.
      destruct s as [|z s]; [done|]. rewrite decide_False.
      * destruct (pop_body (z :: s)) as (k & Er & Et); [done|by apply canonical_comp_ok|].
        rewrite (body_render (z :: s)) in * by done. rewrite Er, Et. apply IH; [done..|]. by eapply Hw.
      * intros Ez. apply (f_equal components) in Ez.
        rewrite components_render in Ez by by apply canonical_comp_ok. done.
Qed.

(** ** The whole path *)

Lemma split_infix p : forall w, w ∈ split p -> exists a b, p = a ++ w ++ b.
Proof.
  induction p as [|c p IH]; cbn [split]; intros w Hw.
  - apply list_elem_of_singleton in Hw as ->. by exists [], [].
  - case_decide as D.
    + apply elem_of_cons in Hw as [-> |Hw]; [by exists [], (c :: p)|].
      destruct (IH w Hw) as (a & b & ->). by exists (c :: a), b.
    + destruct (split p) as [|v ws] eqn:Es.
      * apply list_elem_of_singleton in Hw as ->. by exists [], p.
      * apply elem_of_cons in Hw as [-> |Hw].
        -- assert (Ev : exists b, p = v ++ b).
           { clear IH. revert v ws Es. induction p as [|x p IHp]; cbn [split]; intros v ws.
             - intros [= <- <-]. by exists [].
             - case_decide; [intros [= <- <-]; by exists (x :: p)|].
               destruct (split p) as [|v' ws'] eqn:Ep; intros [= <- <-]; [by exists p|].
               destruct (IHp v' ws' eq_refl) as [b ->]. by exists b. }
           destruct Ev as [b ->]. by exists [], b.
        -- destruct (IH w) as (a & b & ->); [by right|]. by exists (c :: a), b.
Qed.

Lemma has_dotdot_infix a b : has_dotdot (a ++ dotdot ++ b) = true.
Proof.
  induction a as [|c a IH]; [done|]. cbn [app has_dotdot]. rewrite IH. apply orb_true_r.
Qed.

Lemma no_dotdot_components p : has_dotdot p = false -> dotdot ∉ components p.
Proof.
  intros Hp Hin. unfold components in Hin. apply list_elem_of_filter in Hin as [_ Hin].
  destruct (split_infix p dotdot Hin) as (a & b & ->). by rewrite has_dotdot_infix in Hp.
Qed.

(** Without [..], or without links, the walk is the lexical resolution. *)
Lemma walk_lexical phys cs : forall stk,
  (dotdot ∉ cs \/ forall p, phys p = Some []) -> walk_steps phys stk cs = Some (resolve stk cs).
Proof.
  induction cs as [|c cs IH]; intros stk Hcs; [done|]. cbn [walk_steps].
  assert (Es : walk_step phys stk c = Some (resolve_step stk c)).
  { unfold walk_step, resolve_step. destruct (decide (c = dot)); [done|].
    destruct (decide (c <> dotdot)) as [Hd|Hd]; [by rewrite decide_False|].
    apply dec_stable in Hd. subst. rewrite decide_True by done.
    destruct Hcs as [Hcs|Hcs]; [set_solver|]. destruct stk; [done|]. by rewrite Hcs. }
  rewrite Es, IH; [done|]. destruct Hcs as [Hcs|Hcs]; [left; set_solver|by right].
Qed.

Lemma resolve_dotdot_walk phys p :
  canonical_answers phys ->
  resolve_dotdot phys p = option_map render (walk_steps phys [] (components p)).
Proof.
  intros Hp. unfold resolve_dotdot. destruct (has_dotdot p) eqn:E; cbn [negb].
  - change [] with (body []) at 1. rewrite dotdot_loop_walk; [|done|apply components_ok|done].
    destruct (walk_steps phys [] (components p)) as [[|c stk]|]; done.
  - rewrite walk_lexical by (left; by apply no_dotdot_components). cbn.
    f_equal. apply normalize_resolve.
Qed.

Lemma walk_steps_canonical phys cs : forall stk stk',
  canonical_answers phys -> Forall canonical_comp stk -> Forall comp_ok cs ->
  walk_steps phys stk cs = Some stk' -> Forall canonical_comp stk'.
Proof.
  induction cs as [|c cs IH]; intros stk stk' Hp Hs Hcs; cbn [walk_steps]; [by intros [= <-]|].
  apply Forall_cons in Hcs as [Hc Hcs]. destruct (walk_step phys stk c) as [s|] eqn:E; [|done].
  apply IH; [done| |done]. by eapply walk_step_canonical.
Qed.

Lemma resolve_dotdot_canonical phys p q :
  canonical_answers phys -> resolve_dotdot phys p = Some q -> Canonical q.
Proof.
  intros Hp. rewrite resolve_dotdot_walk by done.
  destruct (walk_steps phys [] (components p)) as [stk|] eqn:E; [|done]. intros [= <-].
  exists stk. split; [|done]. eapply walk_steps_canonical; [done|constructor|apply components_ok|done].
Qed.

Section resolved.
Context {F : Type} `{HostFs F} (io : bool).

Lemma physical_canonical left : forall (w : World (F := F)), canonical_answers (physical_if_symlink io left w).
Proof.
  induction left as [|left IH]; intros w p q; cbn [physical_if_symlink]; [intros [= <-]; by left|].
  destruct (realm _); [|intros [= <-]; by left..].
  destruct (host_path _) as [|c hp]; [intros [= <-]; by left|].
  destruct (readlink (host w) _) as [[|x t]|]; [intros [= <-]; by left| |intros [= <-]; by left].
  cbv zeta. destruct (resolve_dotdot _ _) as [next|] eqn:En; [|done].
  apply resolve_dotdot_canonical in En; [|apply IH].
  destruct (physical_if_symlink io left w next) as [[|y d]|] eqn:Ed; [intros [= <-]; by right| |done].
  intros [= <-]. by apply (IH w next).
Qed.

(** The path a syscall resolves: the path itself, or joined to its base. *)
Definition joined (cwd path dir_path : str) : list str :=
  if decide (List.hd_error path = Some slash) then components path
  else components (match dir_path with [] => cwd | _ => dir_path end) ++ components path.

Lemma absolutize_walk (w : World (F := F)) cwd path dir_path :
  absolutize io w cwd path dir_path =
  option_map render (walk_steps (physical_if_symlink io max_links w) [] (joined cwd path dir_path)).
Proof.
  unfold absolutize, joined. destruct (decide (List.hd_error path = Some slash)).
  - apply resolve_dotdot_walk, physical_canonical.
  - rewrite resolve_dotdot_walk by apply physical_canonical. do 2 f_equal.
    set (b := match dir_path with [] => cwd | _ => dir_path end). clearbody b.
    destruct b as [|x b]; [done|]. destruct (last (x :: b)) as [l|] eqn:El; [|by apply last_None in El].
    case_decide as D.
    + subst l. apply components_join. by left.
    + rewrite components_join by (left; apply last_snoc). by rewrite components_snoc_slash.
Qed.

End resolved.

(** * Properties *)

(** C17. Paths are resolved the way the kernel walks them: whenever
    [absolutize] returns, it returns the canonical path obtained by taking
    the components of the base directory and of the path in order, skipping
    [.], staying at the root for [..] there, and letting [..] after a link
    leave the link's target; and if no link is met it returns, and the result
    is the lexical resolution. *)
Theorem absolutize_walks {F : Type} `{HostFs F} (io : bool) (w : World (F := F)) (cwd path dir_path : str) :
  let phys := physical_if_symlink io max_links w in
  (forall p, absolutize io w cwd path dir_path = Some p ->
     Canonical p /\ exists stk, walk_steps phys [] (joined cwd path dir_path) = Some stk /\ p = render stk) /\
  ((forall p, phys p = Some []) ->
     absolutize io w cwd path dir_path = Some (render (resolve [] (joined cwd path dir_path)))).
Proof.
  intros phys. rewrite absolutize_walk. fold phys. split.
  - intros p. destruct (walk_steps phys [] _) as [stk|] eqn:E; [|done]. intros [= <-].
    split; [|by exists stk]. exists stk. split; [|done].
    eapply walk_steps_canonical; [apply physical_canonical|constructor| |exact E].
    unfold joined. destruct (decide _); [apply components_ok|]. apply Forall_app.
    split; apply components_ok.
  - intros Hp. rewrite walk_lexical by auto. done.
Qed.

Import Tree.

(** Over the example world: [/c] is a link over [/d] to [/etc/passwd]. *)
Lemma absolutize_walks_witness :
  exists p, absolutize true ex_world (lit "/etc") (lit "../c/../shadow") [] = Some p /\
  Canonical p /\ p = lit "/etc/shadow".
Proof.
  destruct (absolutize_walks true ex_world (lit "/etc") (lit "../c/../shadow") []) as [Hp _].
  assert (E : absolutize true ex_world (lit "/etc") (lit "../c/../shadow") [] = Some (lit "/etc/shadow"))
    by (vm_compute; reflexivity).
  exists (lit "/etc/shadow"). split; [exact E|]. split; [|reflexivity]. by apply Hp.
Defined.

(** A [..] after a link to the root ends the whole run: when a canonical
    guest path is a symbolic link that resolves to [/], resolving that path
    followed by [/..] does not return a path; the C++ throws
    [std::length_error], which nothing catches. *)
Theorem dotdot_after_root_link_throws {F : Type} `{HostFs F} (io : bool) (w : World (F := F))
    (stk : list str) (cwd : str) :
  Forall canonical_comp stk -> stk <> [] ->
  physical_if_symlink io max_links w (body stk) = Some [slash] ->
  absolutize io w cwd (body stk ++ lit "/..") [] = None.
Proof.
  intros Hs Hne Hp. rewrite absolutize_walk.
  assert (Ej : joined cwd (body stk ++ lit "/..") [] = stk ++ [dotdot]).
  { unfold joined. destruct stk as [|c stk]; [done|]. cbn [body flat_map app List.hd_error].
    rewrite decide_True by done. fold (body stk).
    change (slash :: (c ++ body stk) ++ lit "/..") with (body (c :: stk) ++ slash :: dotdot).
    rewrite body_take_app; [done|by apply canonical_comp_ok|right; by exists dotdot]. }
  rewrite Ej.
  assert (Hw : forall s t, Forall canonical_comp t ->
    walk_steps (physical_if_symlink io max_links w) s (t ++ [dotdot]) =
    walk_steps (physical_if_symlink io max_links w) (s ++ t) [dotdot]).
  { intros s t. revert s. induction t as [|c t IH]; intros s Ht; [by rewrite app_nil_r|].
    apply Forall_cons in Ht as [(_ & H1 & H2) Ht]. cbn [app walk_steps]. unfold walk_step at 1.
    rewrite decide_False, decide_True by done. rewrite IH by done. by rewrite <- app_assoc. }
  rewrite Hw by done. cbn [app walk_steps]. unfold walk_step.
  rewrite decide_False, decide_False by (discriminate || (intros X; by apply X)).
  destruct stk as [|c stk]; [done|]. by rewrite Hp.
Qed.

(** A host with the link [/r] to [/]. *)
Definition root_link_world : World :=
  with_host ex_world {| nodes := <[[lit "lower"; lit "r"] := link_node "/" 20]> (nodes ex_tree); data := ∅ |}.

Lemma dotdot_after_root_link_throws_witness :
  absolutize true root_link_world (lit "/") (lit "/r/..") [] = None.
Proof.
  apply (dotdot_after_root_link_throws true root_link_world [lit "r"] (lit "/")).
  - repeat constructor; try discriminate. apply (bool_decide_unpack _). vm_compute. exact I.
  - discriminate.
  - vm_compute. reflexivity.
Defined.

End PathResolve.
