(* ===== verification/RunLoop.v ===== *)
(** The run loop ([include/linuxity/runtime/trap.hpp], with the contracts of
    [include/linuxity/runtime/backend.hpp]): it takes the next trapped
    syscall from the trap backend, has the dispatcher decide its fate, and
    carries the fate out with the backend's primitives.

    The C++ class is a template over the backend and the dispatcher; so are
    the definitions here, with the classes [Backend] and [Syscalls].  A
    callback handed to a primitive is a function on the loop's state, which
    the backend may run.  A callback the backend keeps until a later trap
    ([redirect_deferred]) is a token, and [b_next] reports the tokens whose
    call has finished.  The loop has no bound of its own; [loop] takes the
    number of traps to serve.

    [one_answer_per_syscall] is the protocol between loop and backend. *)

From S2P Require Import Prelude Sysno Abi Dispatch Paths GuestMem ProcessTable Dirents ProcState.
Import Abi Dispatch Bytes ProcessTable.

Module RunLoop.

Record TrapFrame := { regs : Regs; pc : Z }.

(** What the loop asks of a backend type with [requires]. *)
Record Capabilities := {
  forwards_sync : bool; sockets : bool; exec_interp : bool; signals : bool;
  arg_rewrite : bool; proc_events : bool;
  redirects_deferred : bool; sets_ret_now : bool; waits_then_retries : bool; forwards_then_sets : bool
}.

(** The backend.  [T] is its state, with the guest's memory.  A primitive
    that takes a callback gets it with the state [S] the callback works on. *)
Class Backend (T : Type) := {
  caps : Capabilities;
  b_start : T -> Z -> Z -> Result unit * T;
  b_next : T -> list (nat * Z) * Result (option TrapFrame) * T;
  b_exit_code : T -> Z;
  b_resume : T -> Z -> Result unit * T;
  b_forward : T -> Result Z * T;
  b_redirect {S : Type} : (Z -> S -> T -> S * T) -> S -> T -> Z -> str -> Z -> str -> Result Z * S * T;
  b_redirect_deferred : T -> Z -> str -> nat -> Result unit * T;
  b_forward_sync {S : Type} : (Z -> S -> T -> S * T) -> S -> T -> Result Z * S * T;
  b_forward_sync_then_set : T -> Z -> Result Z * T;
  b_rewrite_sockaddr : T -> Z -> str -> Z -> Z -> Result unit * T;
  b_deliver_signal : T -> Z -> Z -> Z * T;
  b_exec_through_interp : T -> Z -> str -> str -> list str -> list str -> Result Z * T;
  b_rewrite_arg {S : Type} : (Z -> S -> T -> S * T) -> S -> T -> Z -> Z -> Result Z * S * T;
  b_wait_then_retry : T -> Z -> Result unit * T;
  b_set_ret_now : T -> Z -> T;
  b_drain_proc_events : T -> list ProcEvent * T;
  b_copy_in : T -> Z -> nat -> option (list Z);
  b_copy_out : T -> Z -> list Z -> option T
}.

Arguments caps T {_}.

(** The kernel: the process table, the per-process file state, and what else
    the dispatcher works on. *)
Record Kernel (K : Type) := { procs : Table; files : ProcState.Procs; other : K }.
Arguments procs {K}.
Arguments files {K}.
Arguments other {K}.

Definition with_files {K} (k : Kernel K) (s : ProcState.Procs) : Kernel K :=
  {| procs := procs k; files := s; other := other k |}.

(** The dispatcher, which reads and writes guest memory as well. *)
Class Syscalls (K T : Type) := {
  dispatch : Kernel K -> T -> Regs -> Fate * Kernel K * T;
  note_opened_fd : Kernel K -> T -> Z -> Kernel K * T;
  PendingOpen : Type;
  take_pending_open : Kernel K -> T -> PendingOpen * Kernel K;
  finish_pending_open : Kernel K -> T -> PendingOpen -> Z -> Kernel K * T;
  rebase_on_dirfd : Kernel K -> T -> Regs -> Z -> str -> option str * Kernel K;
  scrub_ids : Kernel K -> T -> Scrub -> Kernel K * T
}.

(** Temporary files on the host. *)
Class HostTmp (F : Type) := {
  TmpFd : Type;
  mkstemp : F -> option (str * TmpFd) * F;
  tmp_write : F -> TmpFd -> list Z -> Z * F;
  mkdtemp : F -> option str * F;
  remove_file : F -> str -> F;
  remove_dir : F -> str -> F;
  make_dir : F -> str -> Z -> F
}.

(** [Step]. *)
Inductive Step := step_next | step_again | step_done (exit_status : Z) | step_fail.

Section loop.
Context {T K F : Type} `{Backend T} `{!Syscalls K T} `{HostTmp F} (live : option LiveSource).

Record State := {
  trap : T; kernel : Kernel K; host : F; temps : list str;
  deferred : gmap nat PendingOpen; next_token : nat
}.

Definition with_trap (s : State) (t : T) : State :=
  {| trap := t; kernel := kernel s; host := host s; temps := temps s;
     deferred := deferred s; next_token := next_token s |}.
Definition with_kernel (s : State) (k : Kernel K) (t : T) : State :=
  {| trap := t; kernel := k; host := host s; temps := temps s;
     deferred := deferred s; next_token := next_token s |}.
Definition with_host (s : State) (f : F) : State :=
  {| trap := trap s; kernel := kernel s; host := f; temps := temps s;
     deferred := deferred s; next_token := next_token s |}.
Definition with_temps (s : State) (l : list str) : State :=
  {| trap := trap s; kernel := kernel s; host := host s; temps := l;
     deferred := deferred s; next_token := next_token s |}.
Definition with_deferred (s : State) (d : gmap nat PendingOpen) (n : nat) : State :=
  {| trap := trap s; kernel := kernel s; host := host s; temps := temps s;
     deferred := d; next_token := n |}.

(** ** Host files *)

(** The write loop of [materialize]; a write of at least one byte each round. *)
Fixpoint write_all (fuel : nat) (f : F) (fd : TmpFd) (bs : list Z) : F :=
  match fuel, bs with
  | O, _ | _, [] => f
  | S fuel', _ =>
      let '(n, f) := tmp_write f fd bs in
      if n <=? 0 then f else write_all fuel' f fd (drop (Z.to_nat n) bs)
  end.

Definition materialize (f : F) (bs : list Z) : str * F :=
  match mkstemp f with
  | (None, f) => ([], f)
  | (Some (name, fd), f) => (name, write_all (length bs) f fd bs)
  end.

Definition materialize_dir (f : F) : str * F :=
  match mkdtemp f with
  | (Some name, f) => (name, f)
  | (None, f) => ([], f)
  end.

Definition cleanup_temps (s : State) : State :=
  with_temps (with_host s (foldl (fun f t => remove_dir (remove_file f t) t) (host s) (temps s))) [].

(** The prefixes of [dir] that [make_host_parents] creates, shortest first. *)
Definition segments (dir : str) : list str :=
  omap (fun p => if bool_decide (p = length dir) || bool_decide (dir !! p = Some slash)
                 then Some (take p dir) else None) (seq 1 (length dir)).

Definition make_host_parents (f : F) (host_path : str) : F :=
  match Paths.rfind slash host_path with
  | None | Some O => f
  | Some i => foldl (fun f seg => make_dir f seg 493) f (segments (take i host_path))
  end.

(** ** Recovery *)

Definition recover (s : State) (e : Errno) : Step * State :=
  if decide (e = esrch) then (step_again, s)
  else match b_resume (trap s) (- errno_value e) with
       | (inl _, t) => (step_again, with_trap s t)
       | (inr _, t) => (step_fail, with_trap s t)
       end.

(** Answer the guest; failing to is fatal. *)
Definition answer (s : State) (v : Z) : Step * State :=
  match b_resume (trap s) v with
  | (inl _, t) => (step_next, with_trap s t)
  | (inr _, t) => (step_fail, with_trap s t)
  end.

(** A primitive whose value the loop does not use. *)
Definition finish {A} (s : State) (r : Result A * T) : Step * State :=
  match r with
  | (inl _, t) => (step_next, with_trap s t)
  | (inr e, t) => recover (with_trap s t) e
  end.

(** ** [termios] *)

Definition baud_of (code : Z) : Z :=
  match code with
  | 0x1 => 50 | 0x2 => 75 | 0x3 => 110 | 0x4 => 134 | 0x5 => 150 | 0x6 => 200 | 0x7 => 300
  | 0x8 => 600 | 0x9 => 1200 | 0xa => 1800 | 0xb => 2400 | 0xc => 4800 | 0xd => 9600
  | 0xe => 19200 | 0xf => 38400
  | 0x1001 => 57600 | 0x1002 => 115200 | 0x1003 => 230400 | 0x1004 => 460800
  | 0x1005 => 500000 | 0x1006 => 576000 | 0x1007 => 921600 | 0x1008 => 1000000
  | 0x1009 => 1152000 | 0x100a => 1500000 | 0x100b => 2000000 | 0x100c => 2500000
  | 0x100d => 3000000 | 0x100e => 3500000 | 0x100f => 4000000
  | _ => 0
  end.

Definition kTermios : nat := 36.
Definition kCbaud : Z := 0x100f.
Definition kBother : Z := 0x1000.

Definition widen_termios (t : T) (buf : Z) : T :=
  match b_copy_in t buf kTermios with
  | None => t
  | Some bs =>
      let cflag := le_val (take 4 (drop 8 bs)) in
      let speed := baud_of (Z.land cflag kCbaud) in
      let v := if Z.land cflag kCbaud =? kBother then 0 else speed in
      default t (b_copy_out t (u64 (buf + Z.of_nat kTermios)) (le_bytes 4 v ++ le_bytes 4 v))
  end.

(** ** The fates *)

Definition do_inject (s : State) (i : Inject) : Step * State :=
  let '(tmp, f) := if is_dir i then materialize_dir (host s) else materialize (host s) (content i) in
  let s := with_host s f in
  match b_redirect (fun _ (u : unit) t => (u, t)) tt (trap s) (inj_path_arg i) tmp (-1) [] with
  | (inr e, _, t) => recover (with_trap s t) e
  | (inl fd, _, t) =>
      let s := if bool_decide (tmp = []) then s else with_temps s (temps s ++ [tmp]) in
      let '(k, t) := note_opened_fd (kernel s) t fd in (step_next, with_kernel s k t)
  end.

(** The post-exit callback of a redirect. *)
Definition redirect_hook (rd : Redirect) (rc : Z) (k : Kernel K) (t : T) : Kernel K * T :=
  let '(k, t) := match scrub rd with
                 | Some sc => if rc =? 0 then scrub_ids k t sc else (k, t)
                 | None => (k, t)
                 end in
  match force_ret rd with
  | Some v => if sets_ret_now (caps T) then (k, b_set_ret_now t v) else (k, t)
  | None => (k, t)
  end.

Definition hp2_of (rd : Redirect) : Z * str :=
  match second rd with Some p => (pa_arg p, pa_host_path p) | None => (-1, []) end.

Definition do_redirect (s : State) (r : Regs) (rd : Redirect) : Step * State :=
  let '(arg2, hp2) := hp2_of rd in
  let s := if make_parents rd then
             let f := make_host_parents (host s) (pa_host_path (first rd)) in
             with_host s (if bool_decide (is_Some (second rd)) then make_host_parents f hp2 else f)
           else s in
  let '(fit1, k) := rebase_on_dirfd (kernel s) (trap s) r (pa_arg (first rd)) (pa_host_path (first rd)) in
  let '(fit2, k) := if bool_decide (is_Some (second rd)) then rebase_on_dirfd k (trap s) r arg2 hp2
                    else (None, k) in
  match b_redirect (redirect_hook rd) k (trap s) (pa_arg (first rd))
          (default (pa_host_path (first rd)) fit1) arg2 (default hp2 fit2) with
  | (inr e, k, t) => recover (with_kernel s k t) e
  | (inl v, k, t) =>
      match force_ret rd with
      | Some _ => (step_next, with_kernel s k t)
      | None => let '(k, t) := note_opened_fd k t v in (step_next, with_kernel s k t)
      end
  end.

Definition do_deferred (s : State) (rd : Redirect) : Step * State :=
  let s := if make_parents rd then with_host s (make_host_parents (host s) (pa_host_path (first rd))) else s in
  let '(po, k) := take_pending_open (kernel s) (trap s) in
  let s := with_kernel s k (trap s) in
  match b_redirect_deferred (trap s) (pa_arg (first rd)) (pa_host_path (first rd)) (next_token s) with
  | (inr e, t) => recover (with_trap s t) e
  | (inl _, t) =>
      (step_next, with_deferred (with_trap s t) (<[next_token s := po]> (deferred s)) (S (next_token s)))
  end.

(** The signal of a group: delivered to any member is success, otherwise
    the first error. *)
Fixpoint deliver_all (t : T) (sig : Z) (ms : list Z) (delivered : nat) (first_err : Z) : nat * Z * T :=
  match ms with
  | [] => (delivered, first_err, t)
  | m :: ms' =>
      let '(rc, t) := b_deliver_signal t m sig in
      if rc =? 0 then deliver_all t sig ms' (S delivered) first_err
      else deliver_all t sig ms' delivered (if first_err =? 0 then rc else first_err)
  end.

Definition raise_ret (t : T) (k : Raise) : Z * T :=
  if negb (signals (caps T)) then (- errno_value eperm, t)
  else if grouped k then
    let '(delivered, first_err, t) := deliver_all t (signum k) (members k) 0 0 in
    (match delivered with
     | O => if first_err =? 0 then - errno_value esrch else first_err
     | S _ => 0
     end, t)
  else b_deliver_signal t (guest_pid k) (signum k).

(** The bindings of a duplicated descriptor. *)
Definition mirror_hook (m : DupMirror) (ret : Z) (k : Kernel K) (t : T) : Kernel K * T :=
  if ret <? 0 then (k, t)
  else
    let f := if (0 <=? close_first m) && negb (close_first m =? dup_from m)
             then ProcState.unbind_fd (files k) (close_first m) else files k in
    (with_files k (ProcState.mirror_fd f (dup_from m) (i32 ret)), t).

Definition convert_hook (c : Convert) (buf : Z) (ret : Z) (u : unit) (t : T) : unit * T :=
  if ret <? 0 then (u, t)
  else match c with
       | termios_to_termios2 => (u, widen_termios t buf)
       | convert_none => (u, t)
       end.

Definition do_sock_rewrite (s : State) (sr : SockRewrite) : Step * State :=
  let s := with_host s (make_host_parents (host s) (sock_host_path sr)) in
  if sockets (caps T)
  then finish s (b_rewrite_sockaddr (trap s) (path_addr sr) (sock_host_path sr) (len_arg sr) (new_len sr))
  else answer s (- errno_value enotsup).

Definition do_raise (s : State) (k : Raise) : Step * State :=
  let '(v, t) := raise_ret (trap s) k in answer (with_trap s t) v.

Definition do_exec_interp (s : State) (ei : ExecInterp) : Step * State :=
  if exec_interp (caps T)
  then finish s (b_exec_through_interp (trap s) (exec_path_arg ei) (interp_host ei) (prog_guest ei)
                   (exec_prefix ei) (extra_args ei))
  else answer s (- errno_value enoexec).

Definition do_forward (s : State) (mirror : option DupMirror) : Step * State :=
  match mirror with
  | Some m =>
      if forwards_sync (caps T) then
        match b_forward_sync (mirror_hook m) (kernel s) (trap s) with
        | (inl _, k, t) => (step_next, with_kernel s k t)
        | (inr e, k, t) => recover (with_kernel s k t) e
        end
      else finish s (b_forward (trap s))
  | None => finish s (b_forward (trap s))
  end.

Definition do_arg_rewrite (s : State) (ar : ArgRewrite) : Step * State :=
  if arg_rewrite (caps T) then
    match b_rewrite_arg (convert_hook (convert ar) (rw_buf ar)) tt (trap s) (rw_arg ar) (rw_to ar) with
    | (inl _, _, t) => (step_next, with_trap s t)
    | (inr e, _, t) => recover (with_trap s t) e
    end
  else finish s (b_forward (trap s)).

Definition do_virtualize (s : State) (v : Virtualize) : Step * State :=
  if waits_then_retries (caps T) && (0 <? retry_ns v) then finish s (b_wait_then_retry (trap s) (retry_ns v))
  else if forwards_then_sets (caps T) && mirror_host v
  then finish s (b_forward_sync_then_set (trap s) (ret v))
  else answer s (ret v).

(** The match on the fate. *)
Definition act (s : State) (r : Regs) (o : Fate) : Step * State :=
  match o with
  | FExited code => (step_done code, s)
  | FInject i => do_inject s i
  | FRedirect rd =>
      if is_noop rd then finish s (b_forward (trap s))
      else if redirects_deferred (caps T) && may_block rd && negb (bool_decide (is_Some (second rd)))
              && negb (bool_decide (is_Some (scrub rd)))
      then do_deferred s rd
      else do_redirect s r rd
  | FSockRewrite sr => do_sock_rewrite s sr
  | FRaise k => do_raise s k
  | FExecInterp ei => do_exec_interp s ei
  | FForward mirror => do_forward s mirror
  | FArgRewrite ar => do_arg_rewrite s ar
  | FVirtualize v => do_virtualize s v
  end.

(** ** Process events *)

(** One round of [apply_proc_events]; [None] when a walk of the process
    table does not end. *)
Definition apply_proc_event (k : Kernel K) (e : ProcEvent) : option (Kernel K) :=
  match apply_event live (procs k) e with
  | None => None
  | Some t =>
      Some {| procs := t;
              files := match e with
                       | ev_spawn pid ppid => ProcState.inherit_cwd (files k) pid ppid
                       | ev_reap pid => if pid =? 1 then files k else ProcState.forget_pid (files k) pid
                       | _ => files k
                       end;
              other := other k |}
  end.

Fixpoint apply_proc_events (k : Kernel K) (es : list ProcEvent) : option (Kernel K) :=
  match es with
  | [] => Some k
  | e :: es' => match apply_proc_event k e with Some k => apply_proc_events k es' | None => None end
  end.

(** The callbacks of deferred calls that have finished. *)
Definition run_deferred (s : State) (fired : nat * Z) : State :=
  match deferred s !! fired.1 with
  | None => s
  | Some po =>
      let '(k, t) := finish_pending_open (kernel s) (trap s) po fired.2 in
      with_deferred (with_kernel s k t) (delete fired.1 (deferred s)) (next_token s)
  end.

(** ** [run] *)

Inductive Run := running (s : State) | finished (r : Result Z) (s : State) | diverges.

Fixpoint loop (traps : nat) (s : State) : Run :=
  match traps with
  | O => running s
  | S traps' =>
      let '(fired, r, t) := b_next (trap s) in
      let s := foldl run_deferred (with_trap s t) fired in
      match r with
      | inr e => finished (inr e) s
      | inl frame =>
          let '(es, t) := if proc_events (caps T) then b_drain_proc_events (trap s) else ([], trap s) in
          match apply_proc_events (kernel s) es with
          | None => diverges
          | Some k =>
              let s := with_kernel s k t in
              match frame with
              | None => finished (inl (b_exit_code (trap s))) (cleanup_temps s)
              | Some f =>
                  let '(o, k, t) := dispatch (kernel s) (trap s) (regs f) in
                  match act (with_kernel s k t) (regs f) o with
                  | (step_done v, s) => finished (inl v) (cleanup_temps s)
                  | (step_fail, s) => finished (inr eio) (cleanup_temps s)
                  | (step_again, s) | (step_next, s) => loop traps' s
                  end
              end
          end
      end
  end.

Definition run (traps : nat) (s : State) (entry sp : Z) : Run :=
  match b_start (trap s) entry sp with
  | (inr e, t) => finished (inr e) (with_trap s t)
  | (inl _, t) => loop traps (with_trap s t)
  end.

End loop.

Arguments State T K F {_}.
Arguments Run T K F {_}.

(** * The protocol *)

(** What the backend sees: the calls of [b_next], and the primitives that end
    a stop of the guest, with the error they give. *)
Inductive Prim := p_resume (v : Z) | p_run.
Inductive Ev := ev_next (r : Result bool) | ev_prim (p : Prim) (e : option Errno).

Definition prim {A} (p : Prim) (r : Result A) : Ev :=
  ev_prim p (match r with inl _ => None | inr e => Some e end).

Section logged.
Context {T K : Type} `{Backend T} `{!Syscalls K T}.

(** A callback of the loop over the logged backend, run by the backend. *)
Definition unlogged {S} (hook : Z -> S -> T * list Ev -> S * (T * list Ev)) (rc : Z) (s : S) (t : T) : S * T :=
  let '(s, (t, _)) := hook rc s (t, []) in (s, t).

(** Any backend, with a log of its calls. *)
#[global] Instance logged : Backend (T * list Ev) := {
  caps := caps T;
  b_start '(t, l) entry sp := let '(r, t) := b_start t entry sp in (r, (t, l));
  b_next '(t, l) :=
    let '(fired, r, t) := b_next t in
    (fired, r, (t, l ++ [ev_next (match r with inl (Some _) => inl true | inl None => inl false | inr e => inr e end)]));
  b_exit_code '(t, _) := b_exit_code t;
  b_resume '(t, l) v := let '(r, t) := b_resume t v in (r, (t, l ++ [prim (p_resume v) r]));
  b_forward '(t, l) := let '(r, t) := b_forward t in (r, (t, l ++ [prim p_run r]));
  b_redirect _ hook s '(t, l) a p a2 p2 :=
    let '(r, s, t) := b_redirect (unlogged hook) s t a p a2 p2 in (r, s, (t, l ++ [prim p_run r]));
  b_redirect_deferred '(t, l) a p n :=
    let '(r, t) := b_redirect_deferred t a p n in (r, (t, l ++ [prim p_run r]));
  b_forward_sync _ hook s '(t, l) :=
    let '(r, s, t) := b_forward_sync (unlogged hook) s t in (r, s, (t, l ++ [prim p_run r]));
  b_forward_sync_then_set '(t, l) v :=
    let '(r, t) := b_forward_sync_then_set t v in (r, (t, l ++ [prim p_run r]));
  b_rewrite_sockaddr '(t, l) a p la n :=
    let '(r, t) := b_rewrite_sockaddr t a p la n in (r, (t, l ++ [prim p_run r]));
  b_deliver_signal '(t, l) p sig := let '(v, t) := b_deliver_signal t p sig in (v, (t, l));
  b_exec_through_interp '(t, l) a i p pre ex :=
    let '(r, t) := b_exec_through_interp t a i p pre ex in (r, (t, l ++ [prim p_run r]));
  b_rewrite_arg _ hook s '(t, l) a v :=
    let '(r, s, t) := b_rewrite_arg (unlogged hook) s t a v in (r, s, (t, l ++ [prim p_run r]));
  b_wait_then_retry '(t, l) ns := let '(r, t) := b_wait_then_retry t ns in (r, (t, l ++ [prim p_run r]));
  b_set_ret_now '(t, l) v := (b_set_ret_now t v, l);
  b_drain_proc_events '(t, l) := let '(es, t) := b_drain_proc_events t in (es, (t, l));
  b_copy_in '(t, _) a n := b_copy_in t a n;
  b_copy_out '(t, l) a bs := match b_copy_out t a bs with Some t => Some (t, l) | None => None end
}.

(** The dispatcher only sees the backend. *)
#[global] Instance logged_syscalls : Syscalls K (T * list Ev) := {
  dispatch k '(t, l) r := let '(o, k, t) := dispatch k t r in (o, k, (t, l));
  note_opened_fd k '(t, l) fd := let '(k, t) := note_opened_fd k t fd in (k, (t, l));
  PendingOpen := PendingOpen;
  take_pending_open k '(t, _) := take_pending_open k t;
  finish_pending_open k '(t, l) po v := let '(k, t) := finish_pending_open k t po v in (k, (t, l));
  rebase_on_dirfd k '(t, _) r a p := rebase_on_dirfd k t r a p;
  scrub_ids k '(t, l) sc := let '(k, t) := scrub_ids k t sc in (k, (t, l))
}.

End logged.

(** Where a stop of the guest is: none, one that is owed an answer, one whose
    primitive failed, or the run is over. *)
Inductive Phase := idle | owed | failed (e : Errno) | over.

Definition after_error (e : Errno) : Phase := if decide (e = esrch) then idle else failed e.

Definition advance (ph : Phase) (ev : Ev) : option Phase :=
  match ph, ev with
  | idle, ev_next (inl true) => Some owed
  | idle, ev_next _ => Some over
  | owed, ev_prim _ None => Some idle
  | owed, ev_prim (p_resume _) (Some _) => Some over
  | owed, ev_prim p_run (Some e) => Some (after_error e)
  | failed e, ev_prim (p_resume v) r =>
      if v =? - errno_value e then Some (match r with None => idle | Some _ => over end) else None
  | _, _ => None
  end.

Definition follow (ph : Phase) (l : list Ev) : option Phase :=
  foldl (fun o ev => o ≫= (fun ph => advance ph ev)) (Some ph) l.

Arguments follow : simpl never.

Lemma follow_snoc ph l ev : follow ph (l ++ [ev]) = follow ph l ≫= (fun p => advance p ev).
Proof. unfold follow. by rewrite foldl_app. Qed.

Section protocol.
Context {T K F : Type} `{Backend T} `{!Syscalls K T} `{HostTmp F} (live : option LiveSource).

Definition at_phase (ph : Phase) (s : State (T * list Ev) K F) : Prop :=
  follow idle (trap s).2 = Some ph.

Definition good (r : Step * State (T * list Ev) K F) : Prop :=
  match r.1 with
  | step_next | step_again => at_phase idle r.2
  | step_done _ => at_phase owed r.2
  | step_fail => at_phase over r.2
  end.

Lemma recover_good s e : at_phase (after_error e) s -> good (recover s e).
Proof.
  unfold recover, at_phase, after_error. destruct (decide (e = esrch)); [done|]. intros Hs.
  destruct (trap s) as [t l] eqn:Et. cbn. destruct (b_resume t _) as [[u|e'] t'];
    unfold good, at_phase; cbn; rewrite follow_snoc; cbn in Hs; rewrite Hs; cbn; by rewrite Z.eqb_refl.
Qed.

Lemma answer_good s v : at_phase owed s -> good (answer s v).
Proof.
  unfold answer, at_phase. intros Hs. destruct (trap s) as [t l] eqn:Et. cbn.
  destruct (b_resume t v) as [[u|e'] t']; unfold good, at_phase; cbn; rewrite follow_snoc;
    cbn in Hs; by rewrite Hs.
Qed.

Lemma finish_good {A} s (r : Result A) (t : T) :
  at_phase owed s -> good (finish s (r, (t, (trap s).2 ++ [prim p_run r]))).
Proof.
  intros Hs. unfold finish. destruct r as [v|e].
  - unfold good, at_phase. cbn. by rewrite follow_snoc, Hs.
  - apply recover_good. unfold at_phase. cbn. by rewrite follow_snoc, Hs.
Qed.

(** A primitive with a callback, and what the loop does on success. *)
Ltac after_primitive Hs :=
  unfold at_phase in Hs; cbn in Hs;
  match goal with
  | |- context [b_redirect ?h ?s ?t ?a ?p ?b ?q] => destruct (b_redirect h s t a p b q) as [[[] ?] ?]
  | |- context [b_forward_sync ?h ?s ?t] => destruct (b_forward_sync h s t) as [[[] ?] ?]
  | |- context [b_rewrite_arg ?h ?s ?t ?a ?v] => destruct (b_rewrite_arg h s t a v) as [[[] ?] ?]
  | |- context [b_redirect_deferred ?t ?a ?p ?n] => destruct (b_redirect_deferred t a p n) as [[] ?]
  | |- context [b_forward ?t] => destruct (b_forward t) as [[] ?]
  | |- context [b_forward_sync_then_set ?t ?v] => destruct (b_forward_sync_then_set t v) as [[] ?]
  | |- context [b_wait_then_retry ?t ?v] => destruct (b_wait_then_retry t v) as [[] ?]
  | |- context [b_rewrite_sockaddr ?t ?a ?p ?b ?c] => destruct (b_rewrite_sockaddr t a p b c) as [[] ?]
  | |- context [b_exec_through_interp ?t ?a ?p ?q ?b ?c] =>
      destruct (b_exec_through_interp t a p q b c) as [[] ?]
  end; cbn;
  repeat match goal with
  | |- context [note_opened_fd ?a ?b ?c] => destruct (note_opened_fd a b c); cbn
  | |- context [match force_ret ?rd with Some _ => _ | None => _ end] => destruct (force_ret rd); cbn
  end;
  try (apply recover_good); unfold good, at_phase; cbn; by rewrite follow_snoc, Hs.

Lemma inject_good s i : at_phase owed s -> good (do_inject s i).
Proof.
  intros Hs. unfold do_inject. destruct (if is_dir i then _ else _) as [tmp f].
  destruct s as [[t l] k h tm d n]. cbn. case_bool_decide; after_primitive Hs.
Qed.

Lemma redirect_good s r rd : at_phase owed s -> good (do_redirect s r rd).
Proof.
  intros Hs. unfold do_redirect. destruct (hp2_of rd) as [a2 hp2].
  set (s' := if make_parents rd then _ else _).
  assert (Hs' : at_phase owed s') by (unfold s'; destruct (make_parents rd); [case_bool_decide|]; done).
  clearbody s'. clear Hs s. destruct s' as [[t l] k h tm d n]. cbn [kernel trap].
  destruct (rebase_on_dirfd k (t, l) r _ _) as [fit1 k1].
  destruct (if bool_decide _ then _ else _) as [fit2 k2]. cbn [b_redirect logged].
  after_primitive Hs'.
Qed.

Lemma deferred_good s rd : at_phase owed s -> good (do_deferred s rd).
Proof.
  intros Hs. unfold do_deferred. set (s' := if make_parents rd then _ else _).
  assert (Hs' : at_phase owed s') by (unfold s'; by destruct (make_parents rd)).
  clearbody s'. clear Hs s. destruct s' as [[t l] k h tm d n]. cbn [kernel trap].
  destruct (take_pending_open k (t, l)) as [po k1]. cbn [b_redirect_deferred logged trap with_kernel].
  after_primitive Hs'.
Qed.

Lemma deliver_log (l : list Ev) sig ms : forall (t : T) n e, (deliver_all (t, l) sig ms n e).2.2 = l.
Proof.
  induction ms as [|m ms IH]; intros t n e; cbn; [done|].
  destruct (b_deliver_signal t m sig) as [rc t']. by destruct (rc =? 0); rewrite IH.
Qed.

Lemma raise_log (t : T) (l : list Ev) k : (raise_ret (t, l) k).2.2 = l.
Proof.
  unfold raise_ret. destruct (negb _); [done|]. destruct (grouped k).
  - pose proof (deliver_log l (signum k) (members k) t 0 0) as E.
    by destruct (deliver_all (t, l) _ _ _ _) as [[? ?] [? ?]].
  - cbn. by destruct (b_deliver_signal t _ _).
Qed.

(** The arms that call a single primitive. *)
Ltac single_primitive Hs :=
  unfold finish;
  match type of Hs with at_phase _ ?s => destruct s as [[? ?] ? ? ? ? ?] end;
  cbn; after_primitive Hs.

Lemma raise_good s k : at_phase owed s -> good (do_raise s k).
Proof.
  intros Hs. unfold do_raise. destruct s as [[t l] k0 h tm d n]. cbn [trap].
  pose proof (raise_log t l k) as E. destruct (raise_ret (t, l) k) as [v [t' l']].
  cbn in E. subst l'. by apply answer_good.
Qed.

Lemma act_good s r o : at_phase owed s -> good (act s r o).
Proof.
  intros Hs. destruct o as [v|m|rd|i|k|e|sr|a|code]; cbn [act].
  - unfold do_virtualize. destruct (_ && _); [|destruct (_ && _)]; [| |by apply answer_good];
      single_primitive Hs.
  - unfold do_forward. destruct m as [m|]; [destruct (forwards_sync _)|]; single_primitive Hs.
  - destruct (is_noop rd); [single_primitive Hs|].
    destruct (_ && _); [by apply deferred_good|by apply redirect_good].
  - by apply inject_good.
  - by apply raise_good.
  - unfold do_exec_interp. destruct (exec_interp _); [|by apply answer_good]. single_primitive Hs.
  - unfold do_sock_rewrite. destruct (sockets _); [|by apply answer_good]. single_primitive Hs.
  - unfold do_arg_rewrite. destruct (arg_rewrite _); single_primitive Hs.
  - done.
Qed.

Lemma run_deferred_phase ph fired : forall s, at_phase ph s -> at_phase ph (foldl run_deferred s fired).
Proof.
  induction fired as [|[n v] fired IH]; intros s Hs; [done|]. apply IH. unfold run_deferred. cbn [fst snd].
  destruct s as [[t l] k h tm d m]. cbn [deferred]. destruct (d !! n) as [po|]; [|done].
  cbn. by destruct (finish_pending_open k t po v).
Qed.

(** How a run that is over ends, and one that is not goes on. *)
Definition ends_well (r : Run (T * list Ev) K F) : Prop :=
  match r with
  | running s => at_phase idle s
  | finished (inl _) s => at_phase over s \/ at_phase owed s
  | finished (inr _) s => at_phase over s
  | diverges => True
  end.

Lemma loop_ends_well traps : forall s, at_phase idle s -> ends_well (loop live traps s).
Proof.
  induction traps as [|traps IH]; intros s Hs; [done|]. destruct s as [[t l] k h tm d n].
  cbn [loop]. cbn [b_next logged trap]. destruct (b_next t) as [[fired r] t1].
  set (s1 := foldl run_deferred _ _).
  assert (H1 : at_phase (match r with inl (Some _) => owed | _ => over end) s1).
  { unfold s1. apply run_deferred_phase. unfold at_phase in *. cbn in *.
    rewrite follow_snoc, Hs. by destruct r as [[|]|]. }
  clearbody s1. clear Hs. destruct r as [frame|e]; [|done].
  destruct s1 as [[t2 l2] k2 h2 tm2 d2 n2]. cbn [trap kernel].
  destruct (if proc_events _ then _ else _) as [es t3] eqn:Ee.
  assert (E3 : t3.2 = l2).
  { destruct (proc_events _); [cbn in Ee; destruct (b_drain_proc_events t2)|]; by injection Ee as <- <-. }
  destruct t3 as [t3 l3]. cbn in E3. subst l3.
  destruct (apply_proc_events live k2 es) as [k3|]; [|done]. destruct frame as [f|]; [|by left].
  cbn [with_kernel kernel trap dispatch logged_syscalls]. destruct (dispatch k3 t3 (regs f)) as [[o k4] t4].
  match goal with |- ends_well (match act ?s _ _ with _ => _ end) =>
    assert (Hg : good (act s (regs f) o)) by (by apply act_good);
    destruct (act s (regs f) o) as [[] s'] end; cbn in Hg; [by apply IH|by apply IH|by right|done].
Qed.

End protocol.

(** * Signals to a group *)

(** What the members answer, in order. *)
Fixpoint codes {T} `{Backend T} (t : T) (sig : Z) (ms : list Z) : list Z :=
  match ms with
  | [] => []
  | m :: ms' => let '(rc, t) := b_deliver_signal t m sig in rc :: codes t sig ms'
  end.

Lemma deliver_all_codes {T} `{Backend T} sig ms : forall (t : T) n e,
  let '(n', e', _) := deliver_all t sig ms n e in
  (n' = O <-> n = O /\ 0 ∉ codes t sig ms) /\
  (0 ∉ codes t sig ms -> e' = if e =? 0 then default 0 (head (codes t sig ms)) else e).
Proof.
  induction ms as [|m ms IH]; intros t n e; cbn.
  { split; [set_solver|]. intros _. by destruct (Z.eqb_spec e 0). }
  destruct (b_deliver_signal t m sig) as [rc t'] eqn:E.
  destruct (Z.eqb_spec rc 0) as [-> |Hrc].
  - specialize (IH t' (S n) e). destruct (deliver_all t' sig ms (S n) e) as [[n' e'] t''].
    destruct IH as [H1 _]. split; [|intros Hn; set_solver].
    split; [intros Hn; apply H1 in Hn as [? _]; done|intros [_ Hn]; set_solver].
  - specialize (IH t' n (if e =? 0 then rc else e)).
    destruct (deliver_all t' sig ms n _) as [[n' e'] t'']. destruct IH as [H1 H2]. split.
    + rewrite H1. split; intros [? Hn]; (split; [done|]); set_solver.
    + intros Hn. rewrite H2 by set_solver. cbn. destruct (Z.eqb_spec e 0); [|by apply Z.eqb_neq in n0 as ->].
      by apply Z.eqb_neq in Hrc as ->.
Qed.

(** * Properties *)

(** C5. Every trapped syscall is answered exactly once.  Over any backend,
    dispatcher and host, whatever they answer, the calls the loop makes
    follow the protocol: after a trap, one primitive is called; if it fails
    because the task is gone nothing more is; if it fails otherwise the guest
    is resumed with that error; if resuming fails the run ends, and so it
    does when there is no next trap; nothing is called after the end, and no
    trap is asked for while a guest waits.  A run that returns an exit code
    ended because the guest is gone or because the dispatcher said it
    exited. *)
Theorem one_answer_per_syscall {T K F : Type} `{Backend T} `{!Syscalls K T} `{HostTmp F}
    (live : option LiveSource) (traps : nat) (s : State (T * list Ev) K F) (t : T) (entry sp : Z) :
  match run live traps (with_trap s (t, [])) entry sp with
  | running s' => follow idle (trap s').2 = Some idle
  | finished (inl _) s' =>
      follow idle (trap s').2 = Some over \/ follow idle (trap s').2 = Some owed
  | finished (inr _) s' => follow idle (trap s').2 = Some over \/ (trap s').2 = []
  | diverges => True
  end.
Proof.
  unfold run. cbn [b_start logged trap with_trap]. destruct (b_start t entry sp) as [[u|e] t']; [|by right].
  pose proof (loop_ends_well live traps (with_trap (with_trap s (t, [])) (t', []))) as Hl.
  destruct (loop live traps _) as [s'|[v|e] s'|]; cbn in Hl; try (by apply Hl).
  left. by apply Hl.
Qed.

(** A signal to a group is answered as [kill(2)] does: success if any
    member takes it, [ESRCH] for an empty group, otherwise the error of the
    first member. *)
Theorem raise_group_answer {T : Type} `{Backend T} (t : T) (k : Raise) :
  signals (caps T) = true -> grouped k = true ->
  let cs := codes t (signum k) (members k) in
  (raise_ret t k).1 = if bool_decide (0 ∈ cs) then 0 else default (- errno_value esrch) (head cs).
Proof.
  intros Hc Hg cs. unfold raise_ret. rewrite Hc, Hg. cbn [negb].
  pose proof (deliver_all_codes (signum k) (members k) t 0 0) as Hd.
  destruct (deliver_all t (signum k) (members k) 0 0) as [[n e] t']. fold cs in Hd.
  destruct Hd as [H1 H2]. cbn [fst]. case_bool_decide as Hin.
  - destruct n; [|done]. by apply H1 in Hin as [].
  - destruct n as [|n]; [|assert (S n = O) by (apply H1; by split); done]. specialize (H2 Hin). cbn in H2. subst e.
    destruct cs as [|c cs']; [done|]. cbn. destruct (Z.eqb_spec c 0) as [-> |]; [|done].
    destruct Hin. by left.
Qed.

(** A recycled process number starts in its parent's directory, but with
    the descriptor bindings of the dead process: the end of a process drops
    its directory and not its table of descriptors, and the fork event that
    reuses the number makes the first call of the new process skip the copy
    of its parent's table. *)
Theorem pid_reuse {K : Type} (live : option LiveSource) (k k' : Kernel K) (pid ppid : Z) :
  pid <> 0 -> pid <> 1 -> pid <> ppid ->
  apply_proc_events live k [ev_reap pid; ev_spawn pid ppid] = Some k' ->
  let s := ProcState.set_current_pid (files k') pid ppid in
  ProcState.cwd_of s pid = ProcState.cwd_of (files k) ppid /\
  ProcState.fd_tables s !! pid = ProcState.fd_tables (files k) !! pid.
Proof.
  intros H0 H1 Hp. unfold apply_proc_events, apply_proc_event.
  destruct (apply_event live (procs k) _) as [t1|]; [|done]. cbn [procs files].
  destruct (apply_event live t1 _) as [t2|]; [|done]. intros [= <-]. cbn [files].
  apply Z.eqb_neq in H1. rewrite H1. unfold ProcState.forget_pid. cbn.
  destruct (pid =? ProcState.seeded_pid (files k)) eqn:Es; cbn;
    unfold ProcState.set_current_pid, ProcState.inherit_cwd; cbn; rewrite ?Es.
  - apply Z.eqb_neq in H0. rewrite H0. unfold ProcState.seed. cbn. rewrite lookup_insert_eq.
    unfold ProcState.cwd_of. cbn. by rewrite !lookup_insert_eq, lookup_delete_ne by done.
  - unfold ProcState.seed. cbn. rewrite lookup_insert_eq.
    unfold ProcState.cwd_of. cbn. by rewrite !lookup_insert_eq, lookup_delete_ne by done.
Qed.

(** ** A backend with three processes, one of them gone *)

(** Which guest pids take a signal. *)
Definition demo_caps : Capabilities := {|
  forwards_sync := false; sockets := false; exec_interp := false; signals := true;
  arg_rewrite := false; proc_events := false; redirects_deferred := false; sets_ret_now := false;
  waits_then_retries := false; forwards_then_sets := false
|}.

(** Its state is the traps to come. *)
#[local] Instance demo : Backend (list TrapFrame) := {
  caps := demo_caps;
  b_start t _ _ := (inl tt, t);
  b_next t := match t with [] => ([], inl None, []) | f :: t' => ([], inl (Some f), t') end;
  b_exit_code _ := 0;
  b_resume t _ := (inl tt, t);
  b_forward t := (inr efault, t);
  b_redirect _ _ s t _ _ _ _ := (inr esrch, s, t);
  b_redirect_deferred t _ _ _ := (inr enosys, t);
  b_forward_sync _ _ s t := (inr enosys, s, t);
  b_forward_sync_then_set t _ := (inr enosys, t);
  b_rewrite_sockaddr t _ _ _ _ := (inr enosys, t);
  b_deliver_signal t pid _ := (if pid =? 7 then - errno_value esrch else 0, t);
  b_exec_through_interp t _ _ _ _ _ := (inr enosys, t);
  b_rewrite_arg _ _ s t _ _ := (inr enosys, s, t);
  b_wait_then_retry t _ := (inr enosys, t);
  b_set_ret_now t _ := t;
  b_drain_proc_events t := ([], t);
  b_copy_in _ _ _ := None;
  b_copy_out _ _ _ := None
}.

Lemma raise_group_answer_witness :
  (raise_ret ([] : list TrapFrame) {| guest_pid := -5; signum := 15; members := [7; 5]; grouped := true |}).1 = 0 /\
  (raise_ret ([] : list TrapFrame) {| guest_pid := -5; signum := 15; members := [7]; grouped := true |}).1 = -3.
Proof.
  split.
  - etransitivity; [apply raise_group_answer; reflexivity|vm_compute; reflexivity].
  - etransitivity; [apply raise_group_answer; reflexivity|vm_compute; reflexivity].
Defined.

(** Process 2 opens [/etc] as descriptor 5 and ends; its number goes to a
    child of 1 that never opened anything. *)
Definition reuse_kernel : Kernel unit := {|
  procs := initial;
  files := ProcState.bind_fd (ProcState.set_current_pid
             (ProcState.set_cwd (ProcState.set_current_pid ProcState.init 1 0) (lit "/src")) 2 1) 5 (lit "/etc");
  other := tt
|}.

Lemma pid_reuse_witness :
  exists k', apply_proc_events None reuse_kernel [ev_reap 2; ev_spawn 2 1] = Some k' /\
  let s := ProcState.set_current_pid (files k') 2 1 in
  ProcState.cwd_of s 2 = lit "/src" /\ (ProcState.path_of_fd s 5).1 = lit "/etc".
Proof.
  destruct (apply_proc_events None reuse_kernel [ev_reap 2; ev_spawn 2 1]) as [k'|] eqn:E.
  - exists k'. split; [reflexivity|]. intros s.
    destruct (pid_reuse None reuse_kernel k' 2 1) as [H1 H2]; [discriminate..|exact E|].
    fold s in H1, H2. split.
    + rewrite H1. vm_compute. reflexivity.
    + unfold ProcState.path_of_fd, ProcState.fds. cbn [fst snd].
      assert (Ec : ProcState.cur_pid s = 2) by apply ProcState.cur_set_current.
      rewrite Ec, H2. vm_compute. reflexivity.
  - vm_compute in E. discriminate.
Defined.

End RunLoop.
