(* ===== verification/PtraceMem.v ===== *)
(** Registers and memory of a traced guest
    ([include/linuxity/runtime/linux/ptrace_regs.hpp] and the memory half of
    [include/linuxity/runtime/linux/ptrace_trap.hpp]).

    [RegView] is the struct [Regs], of which there is one per architecture;
    [Ptrace] the system calls that reach a stopped task, with the laws of
    ptrace(2) and process_vm_writev(2) the code relies on.  [place] is the
    first half of [PtraceTrap::redirect], up to the point where the task runs
    its system call, and [build_argv] that of [exec_through_interp].

    Addresses are words.  The theorems take a stack pointer far enough from
    zero for the scratch area below it not to wrap. *)

From S2P Require Import Prelude Sysno Abi GuestMem Dirents.
Import Abi Bytes Dirents.

Module PtraceMem.

(** * Registers *)

Class RegView (R : Type) := {
  nr : R -> Z;
  sp : R -> Z;
  pc : R -> Z;
  ret : R -> Z;
  arg : R -> Z -> Z;
  set_arg : R -> Z -> Z -> R;
  set_ret : R -> Z -> R;
  skip_call : R -> R;
  set_nr : R -> Z -> R;
  rewind_to_syscall : R -> R;
  (** What [commit_skip] and [commit_nr] write to [NT_ARM_SYSTEM_CALL]. *)
  skip_code : R -> option Z;
  nr_code : R -> option Z
}.

Class RegLaws (R : Type) `{RegView R} := {
  arg_set_arg r i j v : 0 <= i < 6 -> arg (set_arg r i v) j = if j =? i then v else arg r j;
  sp_set_arg r i v : sp (set_arg r i v) = sp r;
  nr_set_arg r i v : nr (set_arg r i v) = nr r;
  pc_set_arg r i v : pc (set_arg r i v) = pc r;
  ret_set_ret r v : ret (set_ret r v) = u64 v
}.

Record X86 := mkX86 {
  rdi : Z; rsi : Z; rdx : Z; r10 : Z; r8 : Z; r9 : Z; rax : Z; orig_rax : Z; rsp : Z; rip : Z
}.

Definition x86_arg (r : X86) (i : Z) : Z :=
  match i with
  | 0 => rdi r | 1 => rsi r | 2 => rdx r | 3 => r10 r | 4 => r8 r | 5 => r9 r | _ => 0
  end.

Definition x86_set_arg (r : X86) (i v : Z) : X86 :=
  let '(mkX86 a b c d e f x o s p) := r in
  match i with
  | 0 => mkX86 v b c d e f x o s p
  | 1 => mkX86 a v c d e f x o s p
  | 2 => mkX86 a b v d e f x o s p
  | 3 => mkX86 a b c v e f x o s p
  | 4 => mkX86 a b c d v f x o s p
  | 5 => mkX86 a b c d e v x o s p
  | _ => r
  end.

Definition x86_set_rax (r : X86) (v : Z) : X86 :=
  mkX86 (rdi r) (rsi r) (rdx r) (r10 r) (r8 r) (r9 r) v (orig_rax r) (rsp r) (rip r).
Definition x86_set_orig (r : X86) (v : Z) : X86 :=
  mkX86 (rdi r) (rsi r) (rdx r) (r10 r) (r8 r) (r9 r) (rax r) v (rsp r) (rip r).
Definition x86_set_rip (r : X86) (v : Z) : X86 :=
  mkX86 (rdi r) (rsi r) (rdx r) (r10 r) (r8 r) (r9 r) (rax r) (orig_rax r) (rsp r) v.

#[global] Instance x86_view : RegView X86 := {
  nr := orig_rax; sp := rsp; pc := rip; ret := rax; arg := x86_arg; set_arg := x86_set_arg;
  set_ret r v := x86_set_rax r (u64 v);
  skip_call r := x86_set_orig r (u64 (-1));
  set_nr r n := x86_set_orig r n;
  rewind_to_syscall r := x86_set_rax (x86_set_rip r (u64 (rip r - 2))) (orig_rax r);
  skip_code _ := None;
  nr_code _ := None
}.

(** [x0] to [x5], [x8] and the two private members. *)
Record A64 := mkA64 {
  x0 : Z; x1 : Z; x2 : Z; x3 : Z; x4 : Z; x5 : Z; x8 : Z; a_sp : Z; a_pc : Z; skip_ : bool; nr_ : Z
}.

Definition a64_arg (r : A64) (i : Z) : Z :=
  match i with
  | 0 => x0 r | 1 => x1 r | 2 => x2 r | 3 => x3 r | 4 => x4 r | 5 => x5 r | _ => 0
  end.

Definition a64_set_arg (r : A64) (i v : Z) : A64 :=
  let '(mkA64 a b c d e f n s p k m) := r in
  match i with
  | 0 => mkA64 v b c d e f n s p k m
  | 1 => mkA64 a v c d e f n s p k m
  | 2 => mkA64 a b v d e f n s p k m
  | 3 => mkA64 a b c v e f n s p k m
  | 4 => mkA64 a b c d v f n s p k m
  | 5 => mkA64 a b c d e v n s p k m
  | _ => r
  end.

Definition a64_mark (r : A64) (n : Z) (k : bool) (m p : Z) : A64 :=
  mkA64 (x0 r) (x1 r) (x2 r) (x3 r) (x4 r) (x5 r) n (a_sp r) p k m.

#[global] Instance a64_view : RegView A64 := {
  nr := x8; sp := a_sp; pc := a_pc; ret := x0; arg := a64_arg; set_arg := a64_set_arg;
  set_ret r v := a64_set_arg r 0 (u64 v);
  skip_call r := a64_mark r (x8 r) true (nr_ r) (a_pc r);
  set_nr r n := a64_mark r n (skip_ r) (i32 n) (a_pc r);
  rewind_to_syscall r := a64_mark r (x8 r) (skip_ r) (nr_ r) (u64 (a_pc r - 4));
  skip_code r := if skip_ r then Some (-1) else None;
  nr_code r := if nr_ r <? 0 then None else Some (nr_ r)
}.

Lemma six i : 0 <= i < 6 -> i = 0 \/ i = 1 \/ i = 2 \/ i = 3 \/ i = 4 \/ i = 5.
Proof. lia. Qed.

(** The six registers, and an index that is none of them. *)
Ltac by_index i j :=
  repeat match goal with H : 0 <= i < 6 |- _ => apply six in H end;
  destruct (Z.eqb_spec j i) as [-> |];
  [by intuition subst|];
  intuition subst; destruct j as [|[[[]|[]|]|[[]|[]|]|]|]; try done; exfalso; lia.

#[global] Instance x86_laws : RegLaws X86.
Proof.
  split; try done.
  - intros [] i j v Hi. cbn. by_index i j.
  - intros [] i v. cbn. by destruct i as [|[[[]|[]|]|[[]|[]|]|]|].
  - intros [] i v. cbn. by destruct i as [|[[[]|[]|]|[[]|[]|]|]|].
  - intros [] i v. cbn. by destruct i as [|[[[]|[]|]|[[]|[]|]|]|].
Qed.

#[global] Instance a64_laws : RegLaws A64.
Proof.
  split.
  - intros [] i j v Hi. cbn. by_index i j.
  - intros [] i v. cbn. by destruct i as [|[[[]|[]|]|[[]|[]|]|]|].
  - intros [] i v. cbn. by destruct i as [|[[[]|[]|]|[[]|[]|]|]|].
  - intros [] i v. cbn. by destruct i as [|[[[]|[]|]|[[]|[]|]|]|].
  - by intros [].
Qed.

(** * Reaching a stopped task *)

(** The contents of an address space with [bs] at [a]. *)
Definition written (f : Z -> Z) (a : Z) (bs : list Z) (b : Z) : Z :=
  if a <=? b then default (f b) (bs !! Z.to_nat (b - a)) else f b.

(** [ptrace] and [process_vm_readv]/[process_vm_writev] on task [t].
    [mem] is what the task's memory holds.  An error is the errno. *)
Class Ptrace (P R : Type) := {
  getregs : P -> Z -> option R;
  setregs : P -> Z -> R -> option Z * P;
  set_system_call : P -> Z -> Z -> option Z * P;
  peek : P -> Z -> Z -> option Z;
  poke : P -> Z -> Z -> Z -> bool * P;
  vm_readv : P -> Z -> Z -> nat -> option (list Z);
  vm_writev : P -> Z -> Z -> list Z -> Z * P;
  mem : P -> Z -> Z -> Z
}.

Definition bytes_of (f : Z -> Z) (a : Z) (n : nat) : list Z := f <$> seqZ a (Z.of_nat n).

Class PtraceLaws (P R : Type) `{Ptrace P R} := {
  mem_byte p t a : is_byte (mem p t a);
  peek_word p t a w : peek p t a = Some w -> w = le_val (bytes_of (mem p t) a 8);
  poke_word p t a w b :
    mem (poke p t a w).2 t b = if (poke p t a w).1 then written (mem p t) a (le_bytes 8 w) b else mem p t b;
  poke_regs p t a w : getregs (poke p t a w).2 t = getregs p t;
  vm_read p t a n bs : vm_readv p t a n = Some bs -> bs = bytes_of (mem p t) a n;
  vm_write p t a bs b :
    Forall is_byte bs ->
    mem (vm_writev p t a bs).2 t b = written (mem p t) a (take (Z.to_nat (vm_writev p t a bs).1) bs) b;
  vm_write_regs p t a bs : getregs (vm_writev p t a bs).2 t = getregs p t;
  setregs_get p t r : (setregs p t r).1 = None -> getregs (setregs p t r).2 t = Some r;
  setregs_mem p t r b : mem (setregs p t r).2 t b = mem p t b
}.

Section memory.
Context {P R : Type} `{Ptrace P R}.

(** ** Reading *)

(** The loop of [peek_in]; [fuel] is the number of bytes left. *)
Fixpoint peek_in (fuel : nat) (p : P) (t at_ : Z) (n : nat) : option (list Z) :=
  match fuel, n with
  | _, O => Some []
  | O, S _ => None
  | S fuel', S _ =>
      match peek p t at_ with
      | None => None
      | Some w =>
          match peek_in fuel' p t (u64 (at_ + 8)) (n - 8) with
          | None => None
          | Some bs => Some (take n (le_bytes 8 w) ++ bs)
          end
      end
  end.

Definition copy_in (p : P) (t src : Z) (n : nat) : option (list Z) :=
  match vm_readv p t src n with
  | Some bs => Some bs
  | None => peek_in n p t src n
  end.

(** ** Writing *)

(** The loops of [copy_out] and [poke_bytes]: a word is read, overlaid with
    the bytes, and written back. *)
Fixpoint poke_merge (fuel : nat) (p : P) (t at_ : Z) (bs : list Z) : bool * P :=
  match fuel, bs with
  | _, [] => (true, p)
  | O, _ => (false, p)
  | S fuel', _ =>
      match peek p t at_ with
      | None => (false, p)
      | Some w =>
          let chunk := take 8 bs in
          let '(wrote, p) := poke p t at_ (le_val (chunk ++ drop (length chunk) (le_bytes 8 w))) in
          if wrote then poke_merge fuel' p t (u64 (at_ + 8)) (drop 8 bs) else (false, p)
      end
  end.

Definition copy_out (p : P) (t dst : Z) (src : list Z) : bool * P :=
  let '(n, p) := vm_writev p t dst src in
  if n =? Z.of_nat (length src) then (true, p) else poke_merge (length src) p t dst src.

(** A string with its NUL. *)
Definition cstr (s : str) : list Z := map byte_of s ++ [0].

Definition poke_bytes (p : P) (t at_ : Z) (s : str) : bool * P :=
  poke_merge (length (cstr s)) p t at_ (cstr s).

(** [poke_scratch]: whole words, padded with zeros. *)
Fixpoint poke_words (fuel : nat) (p : P) (t at_ : Z) (bs : list Z) : bool * P :=
  match fuel, bs with
  | _, [] => (true, p)
  | O, _ => (false, p)
  | S fuel', _ =>
      let '(wrote, p) := poke p t at_ (le_val (take 8 bs)) in
      if wrote then poke_words fuel' p t (u64 (at_ + 8)) (drop 8 bs) else (false, p)
  end.

Definition poke_scratch (p : P) (t at_ : Z) (s : str) : bool * P :=
  poke_words (length (cstr s)) p t at_ (cstr s).

Definition poke_path (p : P) (t at_ : Z) (s : str) (dead_scratch : bool) : bool * P :=
  let '(wrote, p) := if dead_scratch then poke_scratch p t at_ s else poke_bytes p t at_ s in
  if wrote then (true, p) else copy_out p t at_ (cstr s).

Definition write_cstr (p : P) (t at_ : Z) (s : str) : bool * P := copy_out p t at_ (cstr s).

End memory.

(** * Placing translated paths *)

(** [(sp - 256 - need) & ~15]. *)
Definition scratch_below (a need : Z) : Z := Z.land (u64 (a - 256 - need)) (u64 (Z.lnot 15)).

Section place.
Context {P R : Type} `{Ptrace P R} `{RegView R}.

(** [redirect] up to [step_to_exit]: [inl true] when the call will run on the
    translated paths, [inl false] when it will run unmodified, and an error;
    with the errno of the register store. *)
Definition place (p : P) (t : Z) (r : R) (path_arg : Z) (host_path : str) (path_arg2 : Z)
    (host_path2 : str) : Result bool * option Z * P :=
  let scratch := scratch_below (sp r) (Z.of_nat (length host_path) + 1) in
  let '(wrote, p) := poke_path p t scratch host_path true in
  if negb wrote then let '(e, p) := setregs p t r in (inl false, e, p)
  else
    let r' := set_arg r path_arg scratch in
    if (0 <=? path_arg2) && bool_decide (host_path2 <> []) then
      let scratch2 := scratch_below scratch (Z.of_nat (length host_path2) + 1) in
      let '(wrote, p) := poke_path p t scratch2 host_path2 true in
      if negb wrote then (inr efault, None, p)
      else let '(e, p) := setregs p t (set_arg r' path_arg2 scratch2) in (inl true, e, p)
    else let '(e, p) := setregs p t r' in (inl true, e, p).

(** [rewrite_sockaddr] up to the resume. *)
Definition place_sockaddr (p : P) (t : Z) (r : R) (path_addr : Z) (host_path : str) (len_arg new_len : Z)
    : Result unit * option Z * P :=
  let '(wrote, p) := poke_path p t path_addr host_path false in
  if negb wrote then (inr efault, None, p)
  else let '(e, p) := setregs p t (set_arg r len_arg new_len) in (inl tt, e, p).

End place.

(** * Running an interpreter *)

Definition kChunk : nat := 512.
Definition kMaxArgs : nat := Z.to_nat (Z.shiftl 1 21).

(** The words of a buffer. *)
Fixpoint words (n : nat) (bs : list Z) : list Z :=
  match n with
  | O => []
  | S n' => le_val (take 8 bs) :: words n' (drop 8 bs)
  end.

(** The entries before a NULL, and whether there is one. *)
Fixpoint until_null (ws : list Z) : list Z * bool :=
  match ws with
  | [] => ([], false)
  | w :: ws' => if w =? 0 then ([], true) else let '(l, d) := until_null ws' in (w :: l, d)
  end.

(** How many entries are read at a time: up to a page's end. *)
Definition chunk_size (at_ : Z) : nat :=
  let to_page := Z.to_nat ((4096 - Z.land at_ 4095) / 8) in
  Nat.min kChunk (match to_page with O => kChunk | _ => to_page end).

(** The addresses of consecutive strings. *)
Fixpoint addresses (a : Z) (ss : list str) : list Z :=
  match ss with
  | [] => []
  | s :: ss' => a :: addresses (u64 (a + Z.of_nat (length s) + 1)) ss'
  end.

Definition str_bytes (ss : list str) : Z :=
  fold_right (fun s n => Z.of_nat (length s) + 1 + n) 0 ss.

Section argv.
Context {P R : Type} `{Ptrace P R} `{RegView R}.

Fixpoint read_argv (fuel : nat) (p : P) (t argv_ptr : Z) (orig : list Z) : list Z :=
  match fuel with
  | O => orig
  | S fuel' =>
      if (kMaxArgs <=? length orig)%nat then orig
      else
        let at_ := u64 (argv_ptr + 8 * Z.of_nat (length orig)) in
        let n := chunk_size at_ in
        match copy_in p t at_ (8 * n) with
        | None => orig
        | Some bs =>
            let '(l, finished) := until_null (words n bs) in
            if finished then orig ++ l else read_argv fuel' p t argv_ptr (orig ++ l)
        end
  end.

(** [write_cstr] of each string in turn. *)
Fixpoint put_strings (p : P) (t a : Z) (ss : list str) : bool * P :=
  match ss with
  | [] => (true, p)
  | s :: ss' =>
      let '(wrote, p) := write_cstr p t a s in
      if wrote then put_strings p t (u64 (a + Z.of_nat (length s) + 1)) ss' else (false, p)
  end.

(** [exec_through_interp] up to the resume. *)
Definition build_argv (p : P) (t : Z) (r : R) (path_arg : Z) (interp_host prog_guest : str)
    (prefix extra_args : list str) : Result unit * option Z * P :=
  let orig := read_argv kMaxArgs p t (arg r (path_arg + 1)) [] in
  let ss := interp_host :: prefix ++ prog_guest :: extra_args in
  let narg := Z.of_nat (2 + length prefix + (length orig - 1) + length extra_args) in
  let block := str_bytes ss + (narg + 1) * 8 + 64 in
  let base := Z.land (u64 (sp r - 512 - block)) (u64 (Z.lnot 15)) in
  let '(wrote, p) := put_strings p t base ss in
  if negb wrote then (inr efault, None, p)
  else
    let at_ := addresses base ss in
    let named := S (S (length prefix)) in
    let arr := Z.land (u64 (base + str_bytes ss + 15)) (u64 (Z.lnot 15)) in
    let ptrs := take named at_ ++ drop 1 orig ++ drop named at_ ++ [0] in
    let '(wrote, p) := copy_out p t arr (concat (map (le_bytes 8) ptrs)) in
    if negb wrote then (inr efault, None, p)
    else let '(e, p) := setregs p t (set_arg (set_arg r path_arg base) (path_arg + 1) arr) in (inl tt, e, p).

End argv.

(** * What the memory holds afterwards *)

Section written.

Lemma written_nil f a b : written f a [] b = f b.
Proof. unfold written. by destruct (a <=? b). Qed.

Lemma written_out f a bs b : ~ a <= b < a + Z.of_nat (length bs) -> written f a bs b = f b.
Proof.
  intros Hb. unfold written. destruct (Z.leb_spec a b); [|done]. by rewrite lookup_ge_None_2 by lia.
Qed.

Lemma written_app f a xs ys b :
  written f a (xs ++ ys) b = written (written f a xs) (a + Z.of_nat (length xs)) ys b.
Proof.
  unfold written. destruct (Z.leb_spec a b) as [Hab|Hab].
  - destruct (Z.leb_spec (a + Z.of_nat (length xs)) b) as [Hx|Hx].
    + rewrite lookup_app_r by lia.
      replace (Z.to_nat (b - a) - length xs)%nat with (Z.to_nat (b - (a + Z.of_nat (length xs)))) by lia.
      rewrite (lookup_ge_None_2 xs) by lia. done.
    + by rewrite lookup_app_l by lia.
  - destruct (Z.leb_spec (a + Z.of_nat (length xs)) b); [lia|done].
Qed.

Lemma written_ext f g a bs b : (forall b, f b = g b) -> written f a bs b = written g a bs b.
Proof. intros E. unfold written. by rewrite !E. Qed.

Lemma bytes_of_length f a n : length (bytes_of f a n) = n.
Proof. unfold bytes_of. by rewrite length_fmap, length_seqZ, Nat2Z.id. Qed.

Lemma bytes_of_lookup f a n i : (i < n)%nat -> bytes_of f a n !! i = Some (f (a + Z.of_nat i)).
Proof. intros Hi. unfold bytes_of. rewrite list_lookup_fmap, lookup_seqZ_lt by lia. done. Qed.

Lemma bytes_of_written f a bs : bytes_of (written f a bs) a (length bs) = bs.
Proof.
  apply list_eq_same_length with (n := length bs); [done|by rewrite bytes_of_length|].
  intros i x y Hi. rewrite bytes_of_lookup by done. intros Hx Hy. injection Hx as <-.
  unfold written. destruct (Z.leb_spec a (a + Z.of_nat i)); [|lia].
  replace (Z.to_nat (a + Z.of_nat i - a)) with i by lia. by rewrite Hy.
Qed.

(** Overlaying the words one reads writes the bytes alone. *)
Lemma written_merge f a bs b :
  (length bs <= 8)%nat -> written f a (bs ++ drop (length bs) (bytes_of f a 8)) b = written f a bs b.
Proof.
  intros Hl. rewrite written_app. unfold written at 1.
  destruct (Z.leb_spec (a + Z.of_nat (length bs)) b) as [Hb|]; [|done].
  rewrite lookup_drop. set (i := (length bs + Z.to_nat (b - (a + Z.of_nat (length bs))))%nat).
  destruct (decide (i < 8)%nat) as [Hi|Hi].
  - rewrite bytes_of_lookup by done. cbn [default from_option].
    replace (a + Z.of_nat i) with b by (unfold i; lia). by rewrite written_out by lia.
  - by rewrite lookup_ge_None_2 by (rewrite bytes_of_length; lia).
Qed.

End written.

Section specs.
Context {P R : Type} `{PtraceLaws P R} (t : Z).

(** The state after writing [bs] at [a], where [slack] bytes past them may
    change too. *)
Definition placed (p p' : P) (a : Z) (bs : list Z) (slack : Z) (wrote : bool) : Prop :=
  getregs p' t = getregs p t /\
  (forall b, bs = [] \/ ~ a <= b < a + Z.of_nat (length bs) + slack -> mem p' t b = mem p t b) /\
  (wrote = true -> forall b, a <= b < a + Z.of_nat (length bs) -> mem p' t b = written (mem p t) a bs b).

Lemma placed_refl p a slack wrote : placed p p a [] slack wrote.
Proof. split_and!; [done|done|]. intros _ b Hb. cbn in Hb. lia. Qed.

Lemma placed_refused p p' a bs slack :
  getregs p' t = getregs p t ->
  (forall b, mem p' t b = mem p t b) -> placed p p' a bs slack false.
Proof. done. Qed.

(** One word, then the rest. *)
Lemma placed_step p p1 p2 a bs slack wrote :
  0 <= slack -> bs <> [] -> ((length bs < 8)%nat -> 8 - Z.of_nat (length bs) <= slack \/
    forall b, mem p1 t b = written (mem p t) a bs b) ->
  getregs p1 t = getregs p t ->
  (forall b, ~ a <= b < a + 8 -> mem p1 t b = mem p t b) ->
  (forall b, a <= b < a + Z.of_nat (length (take 8 bs)) -> mem p1 t b = written (mem p t) a (take 8 bs) b) ->
  placed p1 p2 (a + 8) (drop 8 bs) slack wrote -> placed p p2 a bs slack wrote.
Proof.
  intros Hs Hne Hshort Hr Hf Hw (Hr2 & Hf2 & Hw2). rewrite length_drop in Hf2, Hw2.
  rewrite length_take in Hw. split_and!; [congruence| |].
  - intros b [Hb|Hb]; [done|]. destruct (decide (length bs < 8)%nat) as [Hl|Hl].
    2:{ rewrite Hf2 by (right; lia). apply Hf. lia. }
    rewrite Hf2 by (left; apply drop_ge; lia).
    destruct (Hshort Hl) as [Hsl|Hall]; [apply Hf; lia|]. rewrite Hall. apply written_out. lia.
  - intros Ht b Hb. destruct (decide (a + 8 <= b)) as [Hb8|Hb8].
    + rewrite Hw2 by (done || lia). unfold written.
      destruct (Z.leb_spec (a + 8) b), (Z.leb_spec a b); try lia. rewrite lookup_drop.
      replace (8 + Z.to_nat (b - (a + 8)))%nat with (Z.to_nat (b - a)) by lia.
      destruct (lookup_lt_is_Some_2 bs (Z.to_nat (b - a))) as [x ->]; [lia|done].
    + rewrite Hf2 by (right; lia). rewrite Hw by lia. unfold written. destruct (Z.leb_spec a b); [|lia].
      by rewrite lookup_take_lt by lia.
Qed.

Lemma bytes_of_byte p a n : Forall is_byte (bytes_of (mem p t) a n).
Proof. apply Forall_fmap, Forall_forall. intros i _. apply mem_byte. Qed.

(** The bytes of a word that was read. *)
Lemma le_word p a : le_bytes 8 (le_val (bytes_of (mem p t) a 8)) = bytes_of (mem p t) a 8.
Proof. apply (le_bytes_val (bytes_of (mem p t) a 8)), bytes_of_byte. Qed.

Lemma poke_merge_spec fuel : forall p a bs,
  (length bs <= fuel)%nat -> 0 <= a -> a + Z.of_nat (length bs) + 8 <= 2 ^ 64 -> Forall is_byte bs ->
  placed p (poke_merge fuel p t a bs).2 a bs 0 (poke_merge fuel p t a bs).1.
Proof.
  induction fuel as [|fuel IH]; intros p a bs Hl Ha Hmax Hb; destruct bs as [|x bs];
    try (apply placed_refl); [cbn in Hl; lia|].
  cbn [poke_merge]. remember (x :: bs) as l eqn:El. assert (Hne : l <> []) by by subst. clear El x bs.
  assert (Hll : (0 < length l)%nat) by (destruct l; [done|cbn; lia]).
  destruct (peek p t a) as [w|] eqn:Ew; [|by apply placed_refused]. apply peek_word in Ew. subst w.
  rewrite le_word.
  set (ws := take 8 l ++ drop (length (take 8 l)) (bytes_of (mem p t) a 8)).
  assert (Hws : le_bytes 8 (le_val ws) = ws).
  { replace 8%nat with (length ws) at 1; [apply le_bytes_val|].
    - apply Forall_app. split; [by apply Forall_take|apply Forall_drop, bytes_of_byte].
    - unfold ws. rewrite length_app, length_drop, bytes_of_length, length_take. lia. }
  destruct (poke p t a (le_val ws)) as [w p1] eqn:Ep.
  assert (Hp : forall b, mem p1 t b = if w then written (mem p t) a (take 8 l) b else mem p t b).
  { intros b. pose proof (poke_word p t a (le_val ws) b) as Hw. rewrite Ep in Hw.
    cbn [fst snd] in Hw. rewrite Hw, Hws.
    destruct w; [|done]. apply written_merge. rewrite length_take. lia. }
  assert (Hr : getregs p1 t = getregs p t) by (pose proof (poke_regs p t a (le_val ws)) as Hx; by rewrite Ep in Hx).
  destruct w; [|by apply placed_refused].
  rewrite u64_small by lia. eapply placed_step with (p1 := p1); [lia|done| |done| | |].
  - intros Hs. right. intros b. rewrite Hp. by rewrite take_ge by lia.
  - intros b Hb'. rewrite Hp. apply written_out. rewrite length_take. lia.
  - intros b _. apply Hp.
  - destruct (decide (length l <= 8)%nat).
    { rewrite drop_ge by done. destruct fuel; apply placed_refl. }
    apply IH; rewrite ?length_drop; [lia|lia|lia|by apply Forall_drop].
Qed.

Lemma poke_words_spec fuel : forall p a bs,
  (length bs <= fuel)%nat -> 0 <= a -> a + Z.of_nat (length bs) + 8 <= 2 ^ 64 -> Forall is_byte bs ->
  placed p (poke_words fuel p t a bs).2 a bs 7 (poke_words fuel p t a bs).1.
Proof.
  induction fuel as [|fuel IH]; intros p a bs Hl Ha Hmax Hb; destruct bs as [|x bs];
    try (apply placed_refl); [cbn in Hl; lia|].
  cbn [poke_words]. remember (x :: bs) as l eqn:El. assert (Hne : l <> []) by by subst. clear El x bs.
  assert (Hll : (0 < length l)%nat) by (destruct l; [done|cbn; lia]).
  destruct (poke p t a (le_val (take 8 l))) as [w p1] eqn:Ep.
  assert (Hr : getregs p1 t = getregs p t)
    by (pose proof (poke_regs p t a (le_val (take 8 l))) as Hx; by rewrite Ep in Hx).
  assert (Hp : forall b, mem p1 t b = if w then written (mem p t) a (le_bytes 8 (le_val (take 8 l))) b else mem p t b)
    by (intros b; pose proof (poke_word p t a (le_val (take 8 l)) b) as Hx; by rewrite Ep in Hx).
  destruct w; [|by apply placed_refused].
  rewrite u64_small by lia. eapply placed_step with (p1 := p1); [lia|done|intros; left; lia|done| | |].
  - intros b Hb'. rewrite Hp. apply written_out. rewrite le_bytes_length. lia.
  - intros b Hb'. rewrite Hp.
    assert (Ek : le_bytes 8 (le_val (take 8 l)) = take 8 l ++ replicate (8 - length (take 8 l)) 0).
    { rewrite <- (le_bytes_zeros (take 8 l) (8 - length (take 8 l))) by (by apply Forall_take).
      f_equal. rewrite length_take. lia. }
    rewrite Ek, written_app. apply written_out. lia.
  - destruct (decide (length l <= 8)%nat).
    { rewrite drop_ge by done. destruct fuel; apply placed_refl. }
    apply IH; rewrite ?length_drop; [lia|lia|lia|by apply Forall_drop].
Qed.

Lemma placed_weaken p p' a bs slack slack' wrote :
  slack <= slack' -> placed p p' a bs slack wrote -> placed p p' a bs slack' wrote.
Proof.
  intros Hs (Hr & Hf & Hw). split_and!; [done| |done]. intros b [Hb|Hb]; apply Hf; [by left|right; lia].
Qed.

(** A second attempt after a first that failed. *)
Lemma placed_retry p p1 p2 a bs slack w1 w2 :
  placed p p1 a bs slack w1 -> placed p1 p2 a bs 0 w2 -> 0 <= slack -> placed p p2 a bs slack w2.
Proof.
  intros (Hr1 & Hf1 & _) (Hr2 & Hf2 & Hw2) Hs. split_and!; [congruence| |].
  - intros b Hb. rewrite Hf2 by (destruct Hb; [by left|right; lia]). by apply Hf1.
  - intros Hw b Hb. rewrite Hw2 by done. unfold written. destruct (Z.leb_spec a b); [|lia].
    destruct (lookup_lt_is_Some_2 bs (Z.to_nat (b - a))) as [x ->]; [lia|done].
Qed.

Lemma copy_out_spec p a bs :
  0 <= a -> a + Z.of_nat (length bs) + 8 <= 2 ^ 64 -> Forall is_byte bs ->
  placed p (copy_out p t a bs).2 a bs 0 (copy_out p t a bs).1.
Proof.
  intros Ha Hmax Hb. unfold copy_out. destruct (vm_writev p t a bs) as [n p1] eqn:Ev.
  pose proof (vm_write_regs p t a bs) as Hr. rewrite Ev in Hr. cbn [fst snd] in Hr.
  assert (Hm : forall b, mem p1 t b = written (mem p t) a (take (Z.to_nat n) bs) b)
    by (intros b; pose proof (vm_write p t a bs b Hb) as Hx; by rewrite Ev in Hx).
  destruct (Z.eqb_spec n (Z.of_nat (length bs))) as [-> |Hn].
  - split_and!; [done| |].
    + intros b [-> |Hb']; rewrite Hm; [by rewrite take_nil, written_nil|].
      apply written_out. rewrite length_take. lia.
    + intros _ b _. rewrite Hm. by rewrite take_ge by lia.
  - apply (placed_retry _ p1 _ _ _ _ false); [|by apply poke_merge_spec|lia].
    split_and!; [done| |done]. intros b [-> |Hb']; rewrite Hm; [by rewrite take_nil, written_nil|].
    apply written_out. rewrite length_take. lia.
Qed.

Lemma cstr_byte s : Forall is_byte (cstr s).
Proof.
  apply Forall_app. split; [|repeat constructor; lia]. apply Forall_fmap, Forall_forall. intros c _.
  unfold compose, is_byte, byte_of. pose proof (N_ascii_bounded c). lia.
Qed.

Lemma cstr_length s : length (cstr s) = S (length s).
Proof. unfold cstr. rewrite length_app, length_map. cbn. lia. Qed.

Lemma poke_path_spec p a s dead :
  0 <= a -> a + Z.of_nat (length s) + 9 <= 2 ^ 64 ->
  placed p (poke_path p t a s dead).2 a (cstr s) 7 (poke_path p t a s dead).1.
Proof.
  intros Ha Hmax. unfold poke_path. destruct (if dead then _ else _) as [w p1] eqn:Ep.
  assert (H1 : placed p p1 a (cstr s) 7 w).
  { destruct dead.
    - pose proof (poke_words_spec (length (cstr s)) p a (cstr s)) as Hx.
      unfold poke_scratch in Ep. rewrite Ep in Hx. apply Hx; [done|done| |apply cstr_byte].
      rewrite cstr_length. lia.
    - pose proof (poke_merge_spec (length (cstr s)) p a (cstr s)) as Hx.
      unfold poke_bytes in Ep. rewrite Ep in Hx. apply (placed_weaken _ _ _ _ 0); [lia|].
      apply Hx; [done|done| |apply cstr_byte]. rewrite cstr_length. lia. }
  destruct w; [done|]. apply (placed_retry _ p1 _ _ _ _ false); [done| |lia].
  apply copy_out_spec; [done| |apply cstr_byte]. rewrite cstr_length. lia.
Qed.

(** Two writes in a row. *)
Lemma placed_app p p1 p2 a xs ys wrote :
  placed p p1 a xs 0 true -> placed p1 p2 (a + Z.of_nat (length xs)) ys 0 wrote ->
  placed p p2 a (xs ++ ys) 0 wrote.
Proof.
  intros (Hr1 & Hf1 & Hw1) (Hr2 & Hf2 & Hw2). split_and!; [congruence| |].
  - intros b Hb. rewrite length_app in Hb.
    assert (Hb' : (xs = [] /\ ys = []) \/ ~ a <= b < a + Z.of_nat (length xs + length ys)).
    { destruct Hb as [Hb|Hb]; [left; by apply app_eq_nil|right; lia]. }
    rewrite Hf2, Hf1; [done| |]; destruct Hb' as [[-> ->]|Hb']; (by left) || (right; lia).
  - intros Hw b Hb. rewrite length_app in Hb. rewrite written_app.
    destruct (decide (b < a + Z.of_nat (length xs))).
    + rewrite (written_out (written _ _ _)) by lia. rewrite Hf2 by (right; lia). apply Hw1; [done|lia].
    + rewrite Hw2 by (done || lia). unfold written at 1 2.
      destruct (Z.leb_spec (a + Z.of_nat (length xs)) b); [|lia].
      destruct (lookup_lt_is_Some_2 ys (Z.to_nat (b - (a + Z.of_nat (length xs))))) as [x ->]; [lia|done].
Qed.

Lemma put_strings_spec ss : forall p a,
  0 <= a -> a + str_bytes ss + 8 <= 2 ^ 64 ->
  (put_strings p t a ss).1 = true ->
  placed p (put_strings p t a ss).2 a (concat (map cstr ss)) 0 true.
Proof.
  induction ss as [|s ss IH]; intros p a Ha Hmax; cbn [put_strings map concat]; [intros _; apply placed_refl|].
  cbn [str_bytes fold_right] in Hmax. fold (str_bytes ss) in Hmax.
  assert (Hss : 0 <= str_bytes ss) by (clear; induction ss; cbn; [done|]; fold (str_bytes ss); lia).
  unfold write_cstr. pose proof (copy_out_spec p a (cstr s) Ha) as Hc. rewrite cstr_length in Hc.
  specialize (Hc ltac:(lia) (cstr_byte s)). destruct (copy_out p t a (cstr s)) as [w p1]. cbn [fst snd] in Hc.
  destruct w; [|done]. intros Hw. eapply placed_app; [exact Hc|]. rewrite cstr_length.
  rewrite u64_small in * by lia.
  replace (a + Z.of_nat (S (length s))) with (a + Z.of_nat (length s) + 1) by lia. apply IH; [lia|lia|done].
Qed.

(** What the kernel reads back. *)
Lemma placed_bytes p p' a bs slack :
  placed p p' a bs slack true -> bytes_of (mem p' t) a (length bs) = bs.
Proof.
  intros (_ & _ & Hw). rewrite <- (bytes_of_written (mem p t) a bs) at 2. unfold bytes_of.
  apply list_fmap_ext. intros i b Hb. apply lookup_seqZ in Hb as [-> Hi]. apply Hw; [done|lia].
Qed.

Lemma peek_in_spec fuel : forall p a n bs,
  0 <= a -> a + Z.of_nat n + 8 <= 2 ^ 64 -> peek_in fuel p t a n = Some bs -> bs = bytes_of (mem p t) a n.
Proof.
  induction fuel as [|fuel IH]; intros p a [|n] bs Ha Hmax; try (by intros [= <-]).
  cbn [peek_in]. destruct (peek p t a) as [w|] eqn:Ew; [|done]. apply peek_word in Ew as ->.
  remember (S n) as k eqn:Ek. rewrite u64_small by lia.
  destruct (peek_in fuel p t (a + 8) (k - 8)) as [bs'|] eqn:Er; [|done]. intros Es. apply Some_inj in Es as <-.
  assert (Er' : bs' = bytes_of (mem p t) (a + 8) (k - 8)).
  { destruct (decide (8 < k)%nat); [apply IH in Er; [done|lia|lia]|].
    replace (k - 8)%nat with 0%nat in * by lia. by destruct fuel; injection Er as <-. }
  rewrite le_word, Er'. unfold bytes_of. rewrite <- fmap_take, <- fmap_app. f_equal.
  destruct (decide (8 <= k)%nat).
  - rewrite take_ge by (rewrite length_seqZ; lia). rewrite <- seqZ_app by lia. f_equal. lia.
  - replace (k - 8)%nat with 0%nat by lia. rewrite app_nil_r.
    replace (Z.of_nat 8) with (Z.of_nat k + (8 - Z.of_nat k)) by lia. rewrite seqZ_app by lia.
    rewrite take_app_length'; [done|]. rewrite length_seqZ. lia.
Qed.

Lemma copy_in_spec p a n bs :
  0 <= a -> a + Z.of_nat n + 8 <= 2 ^ 64 -> copy_in p t a n = Some bs -> bs = bytes_of (mem p t) a n.
Proof.
  intros Ha Hmax. unfold copy_in. destruct (vm_readv p t a n) as [l|] eqn:E.
  - intros [= <-]. by eapply vm_read.
  - by apply peek_in_spec.
Qed.

End specs.

(** ** Translated paths *)

Lemma scratch_range a need :
  0 < need -> need + 272 <= a < 2 ^ 64 ->
  a - 271 - need <= scratch_below a need <= a - 256 - need /\ 0 <= scratch_below a need.
Proof.
  intros Hn Ha. unfold scratch_below. rewrite u64_small by lia.
  change (Z.lnot 15) with (Z.lnot (2 ^ 4 - 1)). rewrite land_align by lia.
  assert (E : a - 256 - need - 16 < (a - 256 - need) / 2 ^ 4 * 2 ^ 4 <= a - 256 - need)
    by (change (2 ^ 4) with 16; Z.div_mod_to_equations; lia).
  split; [lia|]. apply Z.mul_nonneg_nonneg; [apply Z.div_pos; lia|lia].
Qed.

Section placing.
Context {P R : Type} `{PtraceLaws P R} `{!RegView R} `{!RegLaws R}.

(** A path in the scratch area below [a]. *)
Lemma scratch_spec p p' t a s w :
  Z.of_nat (length s) + 273 <= a < 2 ^ 64 ->
  let c := scratch_below a (Z.of_nat (length s) + 1) in
  poke_path p t c s true = (w, p') ->
  getregs p' t = getregs p t /\
  (forall b, b < c \/ a - 249 <= b -> mem p' t b = mem p t b) /\
  (w = true -> bytes_of (mem p' t) c (S (length s)) = cstr s) /\
  0 <= c <= a - 257 - Z.of_nat (length s).
Proof.
  intros Ha c Ep. pose proof (scratch_range a (Z.of_nat (length s) + 1) ltac:(lia) ltac:(lia)) as Hc.
  fold c in Hc. pose proof (poke_path_spec t p c s true ltac:(lia) ltac:(lia)) as Hs. rewrite Ep in Hs.
  cbn [fst snd] in Hs. split_and!; [by apply Hs| | |lia|lia].
  - intros b Hb. apply Hs. right. rewrite cstr_length. lia.
  - intros ->. rewrite <- cstr_length. by eapply placed_bytes.
Qed.

Lemma set_path_arg r i v : 0 <= i < 6 -> arg (set_arg r i v) i = v.
Proof. intros Hi. rewrite arg_set_arg by done. by rewrite Z.eqb_refl. Qed.

(** The registers of a call whose arguments [a1] and, if there is a second
    path, [a2] were rewritten. *)
Definition only_paths (r r' : R) (a1 a2 : Z) (hp2 : str) : Prop :=
  nr r' = nr r /\ sp r' = sp r /\ pc r' = pc r /\
  forall i, i <> a1 -> (i <> a2 \/ hp2 = []) -> arg r' i = arg r i.

Lemma place_two p t r a1 hp1 a2 hp2 p' :
  0 <= a1 < 6 -> 0 <= a2 < 6 -> a1 <> a2 -> hp2 <> [] ->
  Z.of_nat (length hp1) + Z.of_nat (length hp2) + 1024 <= sp r < 2 ^ 64 ->
  place p t r a1 hp1 a2 hp2 = (inl true, None, p') ->
  exists r', getregs p' t = Some r' /\ only_paths r r' a1 a2 hp2 /\
    bytes_of (mem p' t) (arg r' a1) (S (length hp1)) = cstr hp1 /\
    bytes_of (mem p' t) (arg r' a2) (S (length hp2)) = cstr hp2 /\
    (forall b, sp r - 128 <= b -> mem p' t b = mem p t b).
Proof.
  intros H1 H2 Hne Hhp Hsp. unfold place. set (c1 := scratch_below (sp r) _).
  destruct (poke_path p t c1 hp1 true) as [w1 p1] eqn:E1.
  assert (Hroom : Z.of_nat (length hp1) + 273 <= sp r < 2 ^ 64) by lia.
  destruct (scratch_spec p p1 t (sp r) hp1 w1 Hroom E1) as (_ & Hf1 & Hb1 & Hc1). fold c1 in Hf1, Hb1, Hc1.
  destruct w1; cbn [negb]; [|by destruct (setregs p1 t r)].
  rewrite (proj2 (Z.leb_le 0 a2)), bool_decide_true by (done || lia). cbn [andb].
  set (c2 := scratch_below c1 _). destruct (poke_path p1 t c2 hp2 true) as [w2 p2] eqn:E2.
  assert (Hc1' : Z.of_nat (length hp2) + 273 <= c1 < 2 ^ 64).
  { assert (Hx : sp r - 271 - (Z.of_nat (length hp1) + 1) <= c1) by (apply scratch_range; lia). lia. }
  destruct (scratch_spec p1 p2 t c1 hp2 w2 Hc1' E2) as (_ & Hf2 & Hb2 & Hc2). fold c2 in Hf2, Hb2, Hc2.
  destruct w2; cbn [negb]; [|done]. set (r' := set_arg (set_arg r a1 c1) a2 c2).
  destruct (setregs p2 t r') as [e p3] eqn:Es. intros [= -> ->].
  pose proof (setregs_get p2 t r') as Hg. pose proof (setregs_mem p2 t r') as Hm. rewrite Es in Hg, Hm.
  cbn [fst snd] in Hg, Hm. exists r'. split; [by apply Hg|].
  assert (Ea1 : arg r' a1 = c1) by (unfold r'; rewrite arg_set_arg by done;
    rewrite (proj2 (Z.eqb_neq a1 a2)) by done; by apply set_path_arg).
  assert (Ea2 : arg r' a2 = c2) by (by apply set_path_arg).
  rewrite Ea1, Ea2. split_and!.
  - unfold only_paths, r'. rewrite !nr_set_arg, !sp_set_arg, !pc_set_arg. split_and!; try done.
    intros i Hi [Hi2|?]; [|done]. rewrite !arg_set_arg by done. by rewrite !(proj2 (Z.eqb_neq _ _)) by done.
  - rewrite <- (Hb1 eq_refl). apply list_fmap_ext. intros k b Hb. apply lookup_seqZ in Hb as [-> Hk].
    rewrite Hm. apply Hf2. lia.
  - rewrite <- (Hb2 eq_refl). apply list_fmap_ext. intros k b _. apply Hm.
  - intros b Hb. rewrite Hm, Hf2 by lia. apply Hf1. lia.
Qed.

Lemma place_one p t r a1 hp1 a2 hp2 p' :
  0 <= a1 < 6 -> a2 < 0 \/ hp2 = [] ->
  Z.of_nat (length hp1) + 1024 <= sp r < 2 ^ 64 ->
  place p t r a1 hp1 a2 hp2 = (inl true, None, p') ->
  exists r', getregs p' t = Some r' /\ only_paths r r' a1 a2 [] /\
    bytes_of (mem p' t) (arg r' a1) (S (length hp1)) = cstr hp1 /\
    (forall b, sp r - 128 <= b -> mem p' t b = mem p t b).
Proof.
  intros H1 H2 Hsp. unfold place. set (c1 := scratch_below (sp r) _).
  destruct (poke_path p t c1 hp1 true) as [w1 p1] eqn:E1.
  assert (Hroom : Z.of_nat (length hp1) + 273 <= sp r < 2 ^ 64) by lia.
  destruct (scratch_spec p p1 t (sp r) hp1 w1 Hroom E1) as (_ & Hf1 & Hb1 & Hc1). fold c1 in Hf1, Hb1, Hc1.
  destruct w1; cbn [negb]; [|by destruct (setregs p1 t r)].
  assert (Ec : (0 <=? a2) && bool_decide (hp2 <> []) = false).
  { destruct H2 as [H2| ->]; [by rewrite (proj2 (Z.leb_gt 0 a2))|]. apply andb_false_r. }
  rewrite Ec. set (r' := set_arg r a1 c1). destruct (setregs p1 t r') as [e p2] eqn:Es. intros [= -> ->].
  pose proof (setregs_get p1 t r') as Hg. pose proof (setregs_mem p1 t r') as Hm. rewrite Es in Hg, Hm.
  cbn [fst snd] in Hg, Hm. exists r'. split; [by apply Hg|].
  assert (Ea1 : arg r' a1 = c1) by (by apply set_path_arg). rewrite Ea1. split_and!.
  - unfold only_paths, r'. rewrite !nr_set_arg, !sp_set_arg, !pc_set_arg. split_and!; try done.
    intros i Hi _. rewrite !arg_set_arg by done. by rewrite !(proj2 (Z.eqb_neq _ _)) by done.
  - rewrite <- (Hb1 eq_refl). apply list_fmap_ext. intros k b _. apply Hm.
  - intros b Hb. rewrite Hm. apply Hf1. lia.
Qed.

End placing.

(** ** The argument vector *)

Lemma bytes_of_app f a n m : bytes_of f a (n + m) = bytes_of f a n ++ bytes_of f (a + Z.of_nat n) m.
Proof. unfold bytes_of. rewrite Nat2Z.inj_add, seqZ_app by lia. apply fmap_app. Qed.

Lemma words_bytes f n : forall a,
  words n (bytes_of f a (8 * n)) = (fun i => le_val (bytes_of f (a + 8 * i) 8)) <$> seqZ 0 (Z.of_nat n).
Proof.
  induction n as [|n IH]; intros a; [done|]. cbn [words].
  replace (8 * S n)%nat with (8 + 8 * n)%nat by lia. rewrite bytes_of_app.
  rewrite take_app_length', drop_app_length' by (by rewrite bytes_of_length).
  rewrite (seqZ_cons 0) by lia. rewrite fmap_cons. f_equal; [by rewrite Z.add_0_r|].
  rewrite IH. replace (Z.pred (Z.of_nat (S n))) with (Z.of_nat n) by lia.
  change (Z.succ 0) with (1 + 0). rewrite <- fmap_add_seqZ, <- list_fmap_compose.
  apply list_fmap_ext. intros k i _. cbn. do 2 f_equal. lia.
Qed.

Lemma until_null_full l : 0 ∉ l -> until_null l = (l, false).
Proof.
  induction l as [|w l IH]; intros Hl; cbn; [done|]. destruct (Z.eqb_spec w 0); [set_solver|].
  by rewrite IH by set_solver.
Qed.

Lemma until_null_stop l l' : 0 ∉ l -> until_null (l ++ 0 :: l') = (l, true).
Proof.
  induction l as [|w l IH]; intros Hl; cbn; [done|]. destruct (Z.eqb_spec w 0); [set_solver|].
  by rewrite IH by set_solver.
Qed.

(** A chunk at an aligned address ends with its page. *)
Lemma chunk_size_page a :
  0 <= a -> a mod 8 = 0 ->
  (0 < chunk_size a <= 512)%nat /\ a mod 4096 + 8 * Z.of_nat (chunk_size a) <= 4096.
Proof.
  intros Ha Hm. unfold chunk_size, kChunk. change 4095 with (Z.ones 12). rewrite Z.land_ones by lia.
  change (2 ^ 12) with 4096. destruct (Z.to_nat _) eqn:E; Z.div_mod_to_equations; lia.
Qed.

Section vector.
Context {P R : Type} `{PtraceLaws P R} `{!RegView R} `{!RegLaws R}.

(** [ws] at [a], as an array of pointers. *)
Definition array (f : Z -> Z) (a : Z) (ws : list Z) : Prop :=
  forall i w, ws !! i = Some w -> le_val (bytes_of f (a + 8 * Z.of_nat i) 8) = w.

Lemma array_prefix f a ws n :
  array f a ws -> (n <= length ws)%nat ->
  (fun i => le_val (bytes_of f (a + 8 * i) 8)) <$> seqZ 0 (Z.of_nat n) = take n ws.
Proof.
  intros Ha Hn. apply list_eq_same_length with (n := n);
    [rewrite length_take; lia|rewrite length_fmap, length_seqZ; lia|].
  intros i x y Hi. rewrite list_lookup_fmap, lookup_seqZ_lt by lia.
  rewrite lookup_take_lt by lia. intros Hx Hy. apply Some_inj in Hx as <-. rewrite <- (Ha i y Hy).
  do 2 f_equal.
Qed.

(** The guest's own vector, however long, is read to its end. *)
Lemma read_argv_spec fuel : forall p t a orig rest,
  (length rest < fuel)%nat -> 0 ∉ rest -> array (mem p t) a (orig ++ rest ++ [0]) ->
  (length orig + length rest < kMaxArgs)%nat -> 0 <= a ->
  a + 8 * Z.of_nat (length orig + length rest) + 4112 <= 2 ^ 64 ->
  a mod 8 = 0 ->
  (forall b n, a <= b <= a + 8 * Z.of_nat (length orig + length rest) ->
     b mod 4096 + Z.of_nat n <= 4096 -> is_Some (copy_in p t b n)) ->
  read_argv fuel p t a orig = orig ++ rest.
Proof.
  induction fuel as [|fuel IH]; intros p t a orig rest Hf Hz Ha Hl Hpos Hmax Hal Hread; [lia|].
  cbn [read_argv]. rewrite (proj2 (Nat.leb_gt _ _)) by lia. rewrite u64_small by lia.
  set (b := a + 8 * Z.of_nat (length orig)). 
  destruct (chunk_size_page b) as [Hc Hpage];
    [unfold b; lia|unfold b; rewrite (Z.mul_comm 8), Z.mod_add by lia; done|].
  set (n := chunk_size b) in *. destruct (Hread b (8 * n)%nat) as [bs Hbs]; [lia|lia|]. rewrite Hbs.
  apply copy_in_spec in Hbs; [|lia|lia]. subst bs. rewrite words_bytes.
  assert (Hb : array (mem p t) b (rest ++ [0])).
  { intros i w Hi. unfold b. replace (a + 8 * Z.of_nat (length orig) + 8 * Z.of_nat i)
      with (a + 8 * Z.of_nat (length orig + i)) by lia. apply Ha. by rewrite lookup_app_r, Nat.add_comm, Nat.add_sub by lia. }
  destruct (decide (n <= length rest)%nat) as [Hn|Hn].
  - rewrite (array_prefix _ _ _ _ Hb) by (rewrite length_app; lia). rewrite take_app_le by lia.
    rewrite until_null_full by (intros Hin; apply Hz; rewrite <- (take_drop n rest); apply elem_of_app; by left).
    rewrite (IH p t a (orig ++ take n rest) (drop n rest)).
    + by rewrite <- app_assoc, take_drop.
    + rewrite length_drop. lia.
    + intros Hin. apply Hz. rewrite <- (take_drop n rest). apply elem_of_app. by right.
    + by rewrite <- app_assoc, (app_assoc (take n rest)), take_drop.
    + rewrite length_app, length_take, length_drop. lia.
    + done.
    + rewrite length_app, length_take, length_drop. lia.
    + done.
    + intros b' n' Hb'. apply Hread. rewrite length_app, length_take, length_drop in Hb'. lia.
  - assert (El : exists junk, (fun i => le_val (bytes_of (mem p t) (b + 8 * i) 8)) <$> seqZ 0 (Z.of_nat n)
                              = rest ++ 0 :: junk).
    { replace (Z.of_nat n) with (Z.of_nat (length rest + 1) + Z.of_nat (n - length rest - 1)) by lia.
      rewrite seqZ_app, fmap_app by lia. rewrite (array_prefix _ _ _ _ Hb) by (rewrite length_app; cbn; lia).
      rewrite take_ge by (rewrite length_app; cbn; lia). eexists. by rewrite <- app_assoc. }
    destruct El as [junk ->]. by rewrite until_null_stop.
Qed.

Lemma concat_cstr_length ss : Z.of_nat (length (concat (map cstr ss))) = str_bytes ss.
Proof.
  induction ss as [|s ss IH]; [done|]. cbn [map concat str_bytes fold_right]. fold (str_bytes ss).
  rewrite length_app, cstr_length. lia.
Qed.

Lemma str_bytes_pos ss : 0 <= str_bytes ss.
Proof. rewrite <- concat_cstr_length. lia. Qed.

(** Strings one after the other, at their addresses. *)
Lemma strings_at f ss : forall a,
  0 <= a -> a + str_bytes ss < 2 ^ 64 ->
  bytes_of f a (length (concat (map cstr ss))) = concat (map cstr ss) ->
  Forall2 (fun a s => bytes_of f a (S (length s)) = cstr s) (addresses a ss) ss.
Proof.
  induction ss as [|s ss IH]; intros a Ha Hmax; cbn [map concat addresses]; [by intros _; constructor|].
  rewrite length_app, bytes_of_app, cstr_length. cbn [str_bytes fold_right] in Hmax. fold (str_bytes ss) in Hmax.
  pose proof (str_bytes_pos ss). intros E. apply app_inj_1 in E as [E1 E2];
    [|by rewrite bytes_of_length, cstr_length].
  constructor; [done|]. rewrite u64_small by lia. apply IH; [lia|lia|]. rewrite <- E2 at 2.
  f_equal. lia.
Qed.

Lemma concat_words_length ws : length (concat (map (le_bytes 8) ws)) = (8 * length ws)%nat.
Proof.
  induction ws as [|w ws IH]; [done|]. cbn [map concat]. rewrite length_app, le_bytes_length, IH. cbn. lia.
Qed.

Lemma array_of_bytes f ws : forall a,
  Forall (fun w => 0 <= w < 2 ^ 64) ws ->
  bytes_of f a (8 * length ws) = concat (map (le_bytes 8) ws) -> array f a ws.
Proof.
  induction ws as [|w ws IH]; intros a Hw E i x Hi; [done|]. apply Forall_cons in Hw as [Hw Hws].
  cbn [map concat] in E. replace (8 * length (w :: ws))%nat with (8 + 8 * length ws)%nat in E by (cbn; lia).
  rewrite bytes_of_app in E. apply app_inj_1 in E as [E1 E2]; [|by rewrite bytes_of_length, le_bytes_length].
  destruct i as [|i].
  - injection Hi as <-. rewrite Z.mul_0_r, Z.add_0_r, E1. apply le_val_bytes. exact Hw.
  - replace (a + 8 * Z.of_nat (S i)) with (a + Z.of_nat 8 + 8 * Z.of_nat i) by lia. by apply (IH _ Hws E2).
Qed.

Lemma addresses_range ss : forall a,
  0 <= a -> a + str_bytes ss < 2 ^ 64 -> Forall (fun w => 0 <= w < 2 ^ 64) (addresses a ss).
Proof.
  induction ss as [|s ss IH]; intros a Ha Hmax; cbn [addresses]; [done|].
  cbn [str_bytes fold_right] in Hmax. fold (str_bytes ss) in Hmax. pose proof (str_bytes_pos ss).
  constructor; [lia|]. rewrite u64_small by lia. apply IH; lia.
Qed.

Lemma array_range p t a ws : array (mem p t) a ws -> Forall (fun w => 0 <= w < 2 ^ 64) ws.
Proof.
  intros Ha. apply Forall_lookup. intros i w Hi. apply Ha in Hi. subst w.
  pose proof (le_val_range _ (bytes_of_byte t p (a + 8 * Z.of_nat i) 8)) as Hr.
  rewrite bytes_of_length in Hr. exact Hr.
Qed.

(** The block of strings and the array above it. *)
Lemma put_block p p1 p2 t base ss arr ptrs :
  0 <= base -> base + str_bytes ss <= arr -> arr + 8 * Z.of_nat (length ptrs) + 8 <= 2 ^ 64 ->
  Forall (fun w => 0 <= w < 2 ^ 64) ptrs ->
  put_strings p t base ss = (true, p1) ->
  copy_out p1 t arr (concat (map (le_bytes 8) ptrs)) = (true, p2) ->
  Forall2 (fun a s => bytes_of (mem p2 t) a (S (length s)) = cstr s) (addresses base ss) ss /\
  array (mem p2 t) arr ptrs /\
  (forall b, arr + 8 * Z.of_nat (length ptrs) <= b -> mem p2 t b = mem p t b).
Proof.
  intros Hb Ha Hmax Hp E1 E2. pose proof (str_bytes_pos ss).
  pose proof (put_strings_spec t ss p base Hb ltac:(lia)) as S1. rewrite E1 in S1. specialize (S1 eq_refl).
  assert (Hbytes : Forall is_byte (concat (map (le_bytes 8) ptrs))).
  { apply Forall_concat, Forall_fmap, Forall_forall. intros w _. apply le_bytes_byte. }
  pose proof (copy_out_spec t p1 arr (concat (map (le_bytes 8) ptrs)) ltac:(lia)) as S2.
  rewrite concat_words_length, E2 in S2. specialize (S2 ltac:(lia) Hbytes). cbn [fst snd] in S1, S2.
  pose proof (placed_bytes _ _ _ _ _ _ S1) as B1. pose proof (placed_bytes _ _ _ _ _ _ S2) as B2.
  destruct S1 as (_ & F1 & _). destruct S2 as (_ & F2 & _).
  assert (F2' : forall b, b < arr \/ arr + 8 * Z.of_nat (length ptrs) <= b -> mem p2 t b = mem p1 t b).
  { intros b Hb'. apply F2. right. rewrite concat_words_length. lia. }
  split_and!.
  - apply strings_at; [done|lia|]. rewrite <- B1 at 2. apply list_fmap_ext. intros k b Hk.
    apply lookup_seqZ in Hk as [-> Hk]. pose proof (concat_cstr_length ss). apply F2'. lia.
  - apply array_of_bytes; [done|]. by rewrite concat_words_length in B2.
  - intros b Hb'. rewrite F2' by (right; lia). apply F1. right. rewrite concat_cstr_length. lia.
Qed.

Lemma bytes_of_ext f g a n : (forall b, f b = g b) -> bytes_of f a n = bytes_of g a n.
Proof. intros E. apply list_fmap_ext. intros k b _. apply E. Qed.

Lemma addresses_length ss : forall a, length (addresses a ss) = length ss.
Proof. induction ss as [|s ss IH]; intros a; cbn; [done|by rewrite IH]. Qed.

(** Where the block and the array are, below [top]. *)
Lemma block_layout top sb na :
  0 <= sb -> 0 <= na -> sb + 8 * na + 640 <= top < 2 ^ 64 ->
  let base := Z.land (u64 (top - 512 - (sb + (na + 1) * 8 + 64))) (u64 (Z.lnot 15)) in
  let arr := Z.land (u64 (base + sb + 15)) (u64 (Z.lnot 15)) in
  0 <= base /\ base + sb <= arr /\ arr + 8 * (na + 1) + 8 <= top - 512.
Proof.
  intros Hs Hn Ht base arr. change (Z.lnot 15) with (Z.lnot (2 ^ 4 - 1)) in *.
  assert (Hb : 0 <= base /\ base <= top - 512 - (sb + (na + 1) * 8 + 64)).
  { unfold base. rewrite u64_small by lia. rewrite land_align by lia. change (2 ^ 4) with 16.
    split; [|Z.div_mod_to_equations; lia]. apply Z.mul_nonneg_nonneg; [apply Z.div_pos; lia|lia]. }
  assert (Ha : base + sb <= arr <= base + sb + 15).
  { unfold arr. rewrite u64_small by lia. rewrite land_align by lia. change (2 ^ 4) with 16.
    Z.div_mod_to_equations; lia. }
  lia.
Qed.

End vector.

(** ** A task whose memory is a map *)

Module Sim.

Record Sim (R : Type) := { regs : option R; cells : Flat.t }.
Arguments regs {R}.
Arguments cells {R}.

Definition content (m : Flat.t) (a : Z) : Z := u8 (default 0 (m !! a)).

#[export] Instance sim_ptrace {R} : Ptrace (Sim R) R := {
  getregs p _ := regs p;
  setregs p _ r := (None, {| regs := Some r; cells := cells p |});
  set_system_call p _ _ := (None, p);
  peek p _ a := le_val <$> Flat.read (cells p) a 8;
  poke p _ a w := match Flat.write (cells p) a (le_bytes 8 w) with
                  | Some m => (true, {| regs := regs p; cells := m |})
                  | None => (false, p)
                  end;
  vm_readv p _ a n := Flat.read (cells p) a n;
  vm_writev p _ a bs := match Flat.write (cells p) a bs with
                        | Some m => (Z.of_nat (length bs), {| regs := regs p; cells := m |})
                        | None => (-1, p)
                        end;
  mem p _ a := content (cells p) a
}.

Lemma content_write bs : forall m a m' b,
  Forall is_byte bs -> Flat.write m a bs = Some m' -> content m' b = written (content m) a bs b.
Proof.
  induction bs as [|x bs IH]; intros m a m' b Hb; cbn [Flat.write].
  { intros [= <-]. by rewrite written_nil. }
  apply Forall_cons in Hb as [Hx Hb]. destruct (m !! a); [|done]. intros E.
  rewrite (IH _ _ _ b Hb E). change (x :: bs) with ([x] ++ bs). rewrite written_app. cbn [length].
  apply written_ext. intros c. unfold content, written.
  destruct (Z.leb_spec a c); [destruct (decide (c = a)) as [-> |]|].
  - rewrite lookup_insert_eq, Z.sub_diag. cbn. by apply u8_small.
  - rewrite lookup_insert_ne by done. destruct (Z.to_nat (c - a)) as [|k] eqn:Ek; [exfalso; lia|done].
  - by rewrite lookup_insert_ne by lia.
Qed.

Lemma content_read n : forall m a bs, Flat.read m a n = Some bs -> bs = bytes_of (content m) a n.
Proof.
  induction n as [|n IH]; intros m a bs; cbn [Flat.read]; [by intros [= <-]|].
  destruct (m !! a) as [x|] eqn:E; [|done]. destruct (Flat.read m (a + 1) n) as [bs'|] eqn:Er; [|done].
  intros [= <-]. apply IH in Er as ->. unfold bytes_of. rewrite (seqZ_cons a) by lia.
  rewrite fmap_cons, Nat2Z.inj_succ, Z.pred_succ, <- Z.add_1_r. f_equal. unfold content. by rewrite E.
Qed.

#[export] Instance sim_laws {R} : PtraceLaws (Sim R) R.
Proof.
  split; cbn -[le_bytes le_val Flat.read Flat.write bytes_of].
  - intros p _ a. apply Z.mod_pos_bound. lia.
  - intros p _ a w. destruct (Flat.read (cells p) a 8) as [bs|] eqn:E; [|done]. intros [= <-].
    by rewrite (content_read _ _ _ _ E).
  - intros p _ a w b. destruct (Flat.write (cells p) a (le_bytes 8 w)) as [m|] eqn:E; [|done].
    apply content_write; [apply le_bytes_byte|exact E].
  - intros p _ a w. by destruct (Flat.write (cells p) a (le_bytes 8 w)).
  - intros p _ a n bs. apply content_read.
  - intros p _ a bs b Hb. destruct (Flat.write (cells p) a bs) as [m|] eqn:E; cbn.
    + rewrite Nat2Z.id, take_ge by done. by apply content_write.
    + by rewrite written_nil.
  - intros p _ a bs. by destruct (Flat.write (cells p) a bs).
  - done.
  - done.
Qed.

Lemma copy_in_mapped {R} (p : Sim R) t a n :
  (forall i, a <= i < a + Z.of_nat n -> is_Some (cells p !! i)) -> is_Some (copy_in p t a n).
Proof.
  intros Hm. unfold copy_in. cbn [vm_readv sim_ptrace].
  destruct (Flat.read_mapped (cells p) n a Hm) as [bs ->]. by eauto.
Qed.

End Sim.

(** * Properties *)

(** C8. A redirected call runs on the translated paths and disturbs nothing
    the guest can hold there: if the paths could be written, then when the
    task enters its system call every register but the path arguments is the
    guest's, each path argument points to the NUL-terminated host path, and
    no byte from the red zone of the stack upwards has changed. *)
Theorem redirect_translates {P R : Type} `{PtraceLaws P R} `{!RegView R} `{!RegLaws R}
    (p p' : P) (t : Z) (r : R) (a1 a2 : Z) (hp1 hp2 : str) :
  0 <= a1 < 6 -> a2 < 6 -> a1 <> a2 ->
  Z.of_nat (length hp1) + Z.of_nat (length hp2) + 1024 <= sp r < 2 ^ 64 ->
  place p t r a1 hp1 a2 hp2 = (inl true, None, p') ->
  exists r', getregs p' t = Some r' /\ only_paths r r' a1 a2 (if 0 <=? a2 then hp2 else []) /\
    bytes_of (mem p' t) (arg r' a1) (S (length hp1)) = cstr hp1 /\
    (0 <= a2 -> hp2 <> [] -> bytes_of (mem p' t) (arg r' a2) (S (length hp2)) = cstr hp2) /\
    (forall b, sp r - 128 <= b -> mem p' t b = mem p t b).
Proof.
  intros H1 H2 Hne Hsp Hp. destruct (decide (0 <= a2 /\ hp2 <> [])) as [[Ha Hh]|Hno].
  - destruct (place_two _ _ _ _ _ _ _ _ H1 (conj Ha H2) Hne Hh Hsp Hp) as (r' & Hg & Ho & Hb1 & Hb2 & Hf).
    exists r'. rewrite (proj2 (Z.leb_le 0 a2)) by done. by split_and!.
  - assert (Hd : a2 < 0 \/ hp2 = []) by (destruct (decide (0 <= a2)); [right; apply dec_stable; intros ?; by apply Hno|left; lia]).
    assert (Hsp' : Z.of_nat (length hp1) + 1024 <= sp r < 2 ^ 64) by lia.
    destruct (place_one _ _ _ _ _ _ _ _ H1 Hd Hsp' Hp) as (r' & Hg & Ho & Hb1 & Hf).
    exists r'. split_and!; [done| |done| |done].
    + by destruct Hd as [Hd| ->]; [rewrite (proj2 (Z.leb_gt 0 a2)) by done|destruct (0 <=? a2)].
    + intros Ha Hh. destruct Hno. by split.
Qed.

(** A redirect whose path cannot be written runs the guest's own call on
    the host: the registers the task enters the kernel with are the guest's,
    path pointer included, and the memory above its stack pointer, where
    that pointer leads, is untouched. *)
Theorem redirect_falls_back {P R : Type} `{PtraceLaws P R} `{!RegView R} `{!RegLaws R}
    (p p' : P) (t : Z) (r : R) (a1 a2 : Z) (hp1 hp2 : str) :
  Z.of_nat (length hp1) + 1024 <= sp r < 2 ^ 64 ->
  place p t r a1 hp1 a2 hp2 = (inl false, None, p') ->
  getregs p' t = Some r /\ forall b, sp r - 128 <= b -> mem p' t b = mem p t b.
Proof.
  intros Hsp. unfold place. set (c1 := scratch_below (sp r) _).
  destruct (poke_path p t c1 hp1 true) as [w1 p1] eqn:E1.
  assert (Hroom : Z.of_nat (length hp1) + 273 <= sp r < 2 ^ 64) by lia.
  destruct (scratch_spec p p1 t (sp r) hp1 w1 Hroom E1) as (_ & Hf1 & _). fold c1 in Hf1.
  destruct w1; cbn [negb].
  { destruct (_ && _); [destruct (poke_path p1 t _ hp2 true) as [[] p2]|]; cbn [negb];
      repeat match goal with |- context [setregs ?a ?b ?c] => destruct (setregs a b c) end; done. }
  destruct (setregs p1 t r) as [e p2] eqn:Es. intros [= -> ->].
  pose proof (setregs_get p1 t r) as Hg. pose proof (setregs_mem p1 t r) as Hm. rewrite Es in Hg, Hm.
  split; [by apply Hg|]. intros b Hb. rewrite Hm. apply Hf1. lia.
Qed.

(** C31. A dynamic guest program is run through its interpreter with the
    argument vector the guest gave: if the vector could be written, then when
    the task enters [execve] the path is the interpreter's host path, and the
    vector is the interpreter, the prefix arguments, the program, the guest's
    arguments after the first, the extra arguments, and NULL; no byte from
    512 below the stack pointer upwards has changed, which is where the
    guest's own strings are. *)
Theorem exec_builds_argv {P R : Type} `{PtraceLaws P R} `{!RegView R} `{!RegLaws R}
    (p p' : P) (t : Z) (r : R) (path_arg : Z) (interp prog : str) (prefix extra : list str) (argv : list Z) :
  let vec := arg r (path_arg + 1) in
  let ss := interp :: prefix ++ prog :: extra in
  0 <= path_arg < 5 ->
  0 ∉ argv -> array (mem p t) vec (argv ++ [0]) -> (length argv < kMaxArgs)%nat ->
  0 <= vec -> vec + 8 * Z.of_nat (length argv) + 4112 <= 2 ^ 64 ->
  vec mod 8 = 0 ->
  (forall b n, vec <= b <= vec + 8 * Z.of_nat (length argv) ->
     b mod 4096 + Z.of_nat n <= 4096 -> is_Some (copy_in p t b n)) ->
  str_bytes ss + 8 * Z.of_nat (length prefix + length argv + length extra) + 1024 <= sp r < 2 ^ 64 ->
  build_argv p t r path_arg interp prog prefix extra = (inl tt, None, p') ->
  exists r' named added, getregs p' t = Some r' /\
    bytes_of (mem p' t) (arg r' path_arg) (S (length interp)) = cstr interp /\
    array (mem p' t) (arg r' (path_arg + 1)) (named ++ drop 1 argv ++ added ++ [0]) /\
    Forall2 (fun a s => bytes_of (mem p' t) a (S (length s)) = cstr s) named (interp :: prefix ++ [prog]) /\
    Forall2 (fun a s => bytes_of (mem p' t) a (S (length s)) = cstr s) added extra /\
    (forall b, sp r - 512 <= b -> mem p' t b = mem p t b).
Proof.
  intros vec ss Hpa Hz Harr Hlen Hv Hmax Hal Hread Hsp. unfold build_argv. fold vec ss.
  rewrite (read_argv_spec kMaxArgs p t vec [] argv) by done. cbn [app].
  set (narg := Z.of_nat (2 + length prefix + (length argv - 1) + length extra)).
  assert (Hnarg : narg <= Z.of_nat (length prefix + length argv + length extra) + 2) by (unfold narg; lia).
  pose proof (str_bytes_pos ss) as Hss.
  assert (Hnarg0 : 0 <= narg) by (unfold narg; lia).
  assert (Hroom : str_bytes ss + 8 * narg + 640 <= sp r < 2 ^ 64) by lia.
  destruct (block_layout (sp r) (str_bytes ss) narg Hss Hnarg0 Hroom) as (Hbase & Harr1 & Harr2).
  set (base := Z.land (u64 (sp r - 512 - _)) _) in *.
  set (arr := Z.land (u64 (base + str_bytes ss + 15)) _) in *.
  destruct (put_strings p t base ss) as [w1 p1] eqn:E1. destruct w1; cbn [negb]; [|done].
  set (ptrs := take _ _ ++ _). destruct (copy_out p1 t arr _) as [w2 p2] eqn:E2. destruct w2; cbn [negb]; [|done].
  destruct (setregs p2 t _) as [e p3] eqn:Es. intros [= -> ->].
  set (r' := set_arg (set_arg r path_arg base) (path_arg + 1) arr) in *.
  pose proof (setregs_get p2 t r') as Hg. pose proof (setregs_mem p2 t r') as Hm. rewrite Es in Hg, Hm.
  assert (Hss2 : length ss = (2 + length prefix + length extra)%nat)
    by (unfold ss; cbn; rewrite length_app; cbn; lia).
  assert (Hptrs : Z.of_nat (length ptrs) = narg + 1).
  { unfold ptrs, narg. rewrite !length_app, length_take, !length_drop, addresses_length, Hss2. cbn. lia. }
  assert (Hrange : Forall (fun w => 0 <= w < 2 ^ 64) ptrs).
  { pose proof (addresses_range ss base Hbase ltac:(lia)) as Hr. apply array_range in Harr.
    apply Forall_app in Harr as [Harr H00]. unfold ptrs.
    repeat (apply Forall_app; split); auto using Forall_take, Forall_drop. }
  destruct (put_block p p1 p2 t base ss arr ptrs Hbase Harr1 ltac:(lia) Hrange E1 E2) as (Hst & Hpt & Hfr).
  exists r', (take (S (S (length prefix))) (addresses base ss)), (drop (S (S (length prefix))) (addresses base ss)).
  assert (Hst' : Forall2 (fun a s => bytes_of (mem p' t) a (S (length s)) = cstr s) (addresses base ss) ss).
  { eapply Forall2_impl; [exact Hst|]. intros a s0 <-. by apply bytes_of_ext. }
  split; [by apply Hg|]. split; [|split; [|split; [|split]]].
  - replace (arg r' path_arg) with base; [by inversion Hst'|].
    unfold r'. rewrite arg_set_arg by lia. rewrite (proj2 (Z.eqb_neq path_arg _)) by lia.
    symmetry. apply set_path_arg. lia.
  - replace (arg r' (path_arg + 1)) with arr by (symmetry; apply set_path_arg; lia).
    intros i w Hi. rewrite <- (Hpt i w Hi). f_equal. by apply bytes_of_ext.
  - apply (Forall2_take _ _ _ (S (S (length prefix)))) in Hst'. unfold ss in Hst' at 2. cbn [take] in Hst'.
    rewrite take_app_ge in Hst' by lia. by replace (S (length prefix) - length prefix)%nat with 1%nat in Hst' by lia.
  - apply (Forall2_drop _ _ _ (S (S (length prefix)))) in Hst'. unfold ss in Hst' at 2. cbn [drop] in Hst'.
    rewrite drop_app_ge in Hst' by lia. by replace (S (length prefix) - length prefix)%nat with 1%nat in Hst' by lia.
  - intros b Hb. rewrite Hm. apply Hfr. lia.
Qed.

Import Sim.

(** An [openat] whose path is at 9000, with a stack, and one with its stack
    pointer in unmapped memory. *)
Definition open_regs (stack : Z) : X86 := mkX86 (u64 (-100)) 9000 0 0 0 0 (u64 (-38)) 257 stack 4096.
Definition open_task (stack : Z) : Sim X86 :=
  {| regs := Some (open_regs stack);
     cells := default ∅ (Flat.write (Flat.zeroed 7680 96 ∪ Flat.zeroed 9000 12) 9000 (cstr (lit "/etc/shadow"))) |}.

Lemma redirect_translates_witness :
  let '(r, _, p') := place (open_task 8000) 7 (open_regs 8000) 1 (lit "/root/etc/shadow") (-1) [] in
  r = inl true /\ exists r', getregs p' 7 = Some r' /\
  bytes_of (mem p' 7) (arg r' 1) 17 = cstr (lit "/root/etc/shadow").
Proof.
  destruct (place (open_task 8000) 7 (open_regs 8000) 1 (lit "/root/etc/shadow") (-1) []) as [[r e] p'] eqn:E.
  assert (E2 : (place (open_task 8000) 7 (open_regs 8000) 1 (lit "/root/etc/shadow") (-1) []).1 = (inl true, None))
    by (vm_compute; reflexivity).
  rewrite E in E2. injection E2 as -> ->. split; [reflexivity|].
  destruct (redirect_translates (open_task 8000) p' 7 (open_regs 8000) 1 (-1) (lit "/root/etc/shadow") [])
    as (r' & Hg & _ & Hb & _); [lia|lia|lia|cbn; lia|exact E|].
  exists r'. split; [exact Hg|exact Hb].
Defined.

(** The host kernel is asked to open the guest's [/etc/shadow]. *)
Lemma redirect_falls_back_witness :
  let '(r, _, p') := place (open_task 4000) 7 (open_regs 4000) 1 (lit "/root/etc/shadow") (-1) [] in
  r = inl false /\ getregs p' 7 = Some (open_regs 4000) /\
  bytes_of (mem p' 7) (arg (open_regs 4000) 1) 12 = cstr (lit "/etc/shadow").
Proof.
  destruct (place (open_task 4000) 7 (open_regs 4000) 1 (lit "/root/etc/shadow") (-1) []) as [[r e] p'] eqn:E.
  assert (E2 : (place (open_task 4000) 7 (open_regs 4000) 1 (lit "/root/etc/shadow") (-1) []).1 = (inl false, None))
    by (vm_compute; reflexivity).
  rewrite E in E2. injection E2 as -> ->. split; [reflexivity|].
  destruct (redirect_falls_back (open_task 4000) p' 7 (open_regs 4000) 1 (-1) (lit "/root/etc/shadow") [])
    as [Hg Hm]; [cbn; lia|exact E|].
  split; [exact Hg|]. change (arg (open_regs 4000) 1) with 9000.
  transitivity (bytes_of (mem (open_task 4000) 7) 9000 12); [|vm_compute; reflexivity].
  apply list_fmap_ext. intros k b Hb. apply lookup_seqZ in Hb as [-> Hk]. apply Hm. cbn. lia.
Defined.

(** An [execve] with the vector of two arguments at the end of a page. *)
Definition exec_regs : X86 := mkX86 9000 12264 0 0 0 0 (u64 (-38)) 59 2000 4096.
Definition exec_cells : option Flat.t :=
  Flat.write (Flat.zeroed 1344 80 ∪ Flat.zeroed 12264 24) 12264 (le_bytes 8 9000 ++ le_bytes 8 9100).
Definition exec_task : Sim X86 := {| regs := Some exec_regs; cells := default ∅ exec_cells |}.

Lemma exec_cells_mapped m i : exec_cells = Some m -> 12264 <= i < 12288 -> is_Some (m !! i).
Proof.
  intros Hm Hi. apply (Flat.write_keeps _ _ _ _ i Hm). apply lookup_union_is_Some. right.
  rewrite Flat.zeroed_lookup by lia. by eexists.
Qed.

Lemma exec_cells_some : is_Some exec_cells.
Proof. apply Flat.write_mapped. vm_compute. reflexivity. Qed.

Lemma exec_task_mapped i : 12264 <= i < 12288 -> is_Some (cells exec_task !! i).
Proof.
  intros Hi. destruct exec_cells_some as [m Hm]. unfold exec_task. cbn [cells]. rewrite Hm.
  exact (exec_cells_mapped m i Hm Hi).
Qed.

Lemma exec_builds_argv_witness :
  let '(e, p') := build_argv exec_task 7 exec_regs 0 (lit "/root/lib/ld.so") (lit "/bin/sh") [lit "--argv0"] [] in
  e = (inl tt, None) /\ exists r' a0 a1 a2, getregs p' 7 = Some r' /\
  array (mem p' 7) (arg r' 1) [a0; a1; a2; 9100; 0] /\
  bytes_of (mem p' 7) a2 8 = cstr (lit "/bin/sh").
Proof.
  destruct (build_argv exec_task 7 exec_regs 0 _ _ _ _) as [e p'] eqn:E.
  assert (E2 : (build_argv exec_task 7 exec_regs 0 (lit "/root/lib/ld.so") (lit "/bin/sh") [lit "--argv0"] []).1
    = (inl tt, None)) by (vm_compute; reflexivity).
  rewrite E in E2. cbn [fst] in E2. subst e. split; [reflexivity|].
  destruct (exec_builds_argv exec_task p' 7 exec_regs 0 (lit "/root/lib/ld.so") (lit "/bin/sh") [lit "--argv0"] []
    [9000; 9100]) as (r' & named & added & Hg & _ & Ha & Hn & Hx & _);
    [lia|intros Hin; repeat (apply elem_of_cons in Hin as [Hin|Hin]; [discriminate|]); by apply not_elem_of_nil in Hin
    | | | | |reflexivity| | |exact E|].
  - intros i w Hi. destruct i as [|[|[|i]]]; [injection Hi as <-; vm_compute; reflexivity..|discriminate].
  - apply Nat.ltb_lt. vm_compute. reflexivity.
  - vm_compute. discriminate.
  - vm_compute. discriminate.
  - change (arg exec_regs (0 + 1)) with 12264. intros b n Hb Hn.
    apply copy_in_mapped.
    intros i Hi. apply exec_task_mapped. change (Z.of_nat (length [9000; 9100])) with 2 in Hb.
    assert (Em : b mod 4096 = b - 8192) by (clear -Hb; Z.div_mod_to_equations; lia). lia.
  - cbn. lia.
  - inversion Hx; subst added. inversion Hn as [|a0 s0 l0 l1 _ Hn1]; subst. inversion Hn1 as [|a1 s1 l2 l3 _ Hn2]; subst.
    inversion Hn2 as [|a2 s2 l4 l5 Ha2 Hn3]; subst. inversion Hn3; subst.
    exists r', a0, a1, a2. split; [exact Hg|]. split; [exact Ha|exact Ha2].
Defined.

End PtraceMem.
