(* ===== verification/PidNamespace.v ===== *)
(** Guest process numbers on the tracing backend
    ([include/linuxity/runtime/linux/ptrace_trap.hpp]): each traced host task
    gets a small number of its own, and the calls that carry one are
    translated on their way to the host and back.

    [/proc/<tid>/status] is the host's; what the code reads of it is the
    argument [tgid_of] ([Tgid:]) or [ppid_of] ([PPid:]).  The tables iterate
    in the order of an argument where it matters. *)

From S2P Require Import Prelude Sysno Abi Dispatch GuestMem Dirents Paths ProcessTable PtraceMem.
Import Sysno Abi PtraceMem.

Module PidNamespace.

Record Pids := {
  gpid : gmap Z Z;          (* host tid -> guest pid *)
  host_of_gpid : gmap Z Z;  (* guest pid -> host tid *)
  gppid : gmap Z Z;         (* guest pid -> guest pid of the parent *)
  tgid_cache : gmap Z Z;    (* host tid -> host tgid *)
  next_gpid : Z;
  root_pid : Z
}.

Definition fresh (root : Z) : Pids :=
  {| gpid := ∅; host_of_gpid := ∅; gppid := ∅; tgid_cache := ∅; next_gpid := 2; root_pid := root |}.

(** ** The tables *)

Definition gpid_of (s : Pids) (tid : Z) : Z * Pids :=
  if tid =? root_pid s then (1, s)
  else match gpid s !! tid with
       | Some g => (g, s)
       | None =>
           (next_gpid s,
            {| gpid := <[tid := next_gpid s]> (gpid s);
               host_of_gpid := <[next_gpid s := tid]> (host_of_gpid s);
               gppid := gppid s; tgid_cache := tgid_cache s;
               next_gpid := next_gpid s + 1; root_pid := root_pid s |})
       end.

Definition host_tid_of (s : Pids) (pid : Z) : Z :=
  if pid =? 1 then root_pid s else default (-1) (host_of_gpid s !! pid).

Definition host_tgid_of (tgid_of : Z -> Z) (s : Pids) (tid : Z) : Z * Pids :=
  match tgid_cache s !! tid with
  | Some tg => (tg, s)
  | None =>
      let t := tgid_of tid in
      let out := if 0 <? t then t else tid in
      (out, {| gpid := gpid s; host_of_gpid := host_of_gpid s; gppid := gppid s;
               tgid_cache := <[tid := out]> (tgid_cache s); next_gpid := next_gpid s;
               root_pid := root_pid s |})
  end.

(** [known_gpid_of]; [tids] are the live tasks. *)
Fixpoint known_in_group (tgid_of : Z -> Z) (s : Pids) (host : Z) (tids : list Z) : Z :=
  match tids with
  | [] => 0
  | tid :: tids' =>
      let tg := default (tgid_of tid) (tgid_cache s !! tid) in
      if tg =? host then default (known_in_group tgid_of s host tids') (gpid s !! tid)
      else known_in_group tgid_of s host tids'
  end.

Definition known_gpid_of (tgid_of : Z -> Z) (tids : list Z) (s : Pids) (host : Z) : Z :=
  if host =? root_pid s then 1
  else default (known_in_group tgid_of s host tids) (gpid s !! host).

Definition set_gppid (s : Pids) (g parent : Z) : Pids :=
  {| gpid := gpid s; host_of_gpid := host_of_gpid s; gppid := <[g := parent]> (gppid s);
     tgid_cache := tgid_cache s; next_gpid := next_gpid s; root_pid := root_pid s |}.

Definition forget_tgid (s : Pids) (tid : Z) : Pids :=
  {| gpid := gpid s; host_of_gpid := host_of_gpid s; gppid := gppid s;
     tgid_cache := delete tid (tgid_cache s); next_gpid := next_gpid s; root_pid := root_pid s |}.

Definition cache_tgid (s : Pids) (tid tg : Z) : Pids :=
  {| gpid := gpid s; host_of_gpid := host_of_gpid s; gppid := gppid s;
     tgid_cache := <[tid := tg]> (tgid_cache s); next_gpid := next_gpid s; root_pid := root_pid s |}.

(** The event of a fork by [w]. *)
Definition note_process (tgid_of : Z -> Z) (s : Pids) (w child : Z) : ProcessTable.ProcEvent * Pids :=
  let '(g, s) := gpid_of s child in
  let '(tg, s) := host_tgid_of tgid_of s w in
  let '(pg, s) := gpid_of s tg in
  (ProcessTable.ev_spawn g pg, set_gppid s g pg).

Definition note_thread (tgid_of : Z -> Z) (s : Pids) (creator child : Z)
    : option ProcessTable.ProcEvent * Pids :=
  let '(tg, s) := host_tgid_of tgid_of s creator in
  let ctg := tgid_of child in
  if (0 <? ctg) && negb (ctg =? tg) then (None, s)
  else
    let s := cache_tgid s child tg in
    let '(g, s) := gpid_of s child in
    let '(pg, s) := gpid_of s tg in
    (Some (ProcessTable.ev_thread g pg), s).

(** [current_ids]. *)
Definition current_ids (tgid_of : Z -> Z) (s : Pids) (cur : Z) : TaskIdentity * Pids :=
  let '(tg, s) := host_tgid_of tgid_of s cur in
  let '(pid, s) := gpid_of s tg in
  let '(tid, s) := gpid_of s cur in
  ({| pid := pid; tid := tid; ppid := default 0 (gppid s !! pid) |}, s).

(** [reparent_orphans_of], over the entries of [gppid_] in order. *)
Fixpoint reparent_loop (tgid_of ppid_of : Z -> Z) (tids : list Z) (dead : Z) (l : list (Z * Z)) (s : Pids)
    : list ProcessTable.ProcEvent * Pids :=
  match l with
  | [] => ([], s)
  | (child, parent) :: l' =>
      if negb (parent =? dead) || (child =? dead) then reparent_loop tgid_of ppid_of tids dead l' s
      else
        let host := host_tid_of s child in
        if host <=? 0 then reparent_loop tgid_of ppid_of tids dead l' s
        else
          let hp := ppid_of host in
          if hp <=? 0 then reparent_loop tgid_of ppid_of tids dead l' s
          else
            let np := known_gpid_of tgid_of tids s hp in
            let np := if (np <=? 0) || (np =? dead) then 1 else np in
            let '(es, s) := reparent_loop tgid_of ppid_of tids dead l' (set_gppid s child np) in
            (ProcessTable.ev_reparent child np :: es, s)
  end.

Definition reparent_orphans_of (tgid_of ppid_of : Z -> Z) (tids : list Z) (s : Pids) (dead : Z)
    : list ProcessTable.ProcEvent * Pids :=
  reparent_loop tgid_of ppid_of tids dead (map_to_list (gppid s)) s.

(** ** Signals *)

(** [descends_from]: at most 64 steps up. *)
Fixpoint descends_from (hops : nat) (s : Pids) (p root : Z) : bool :=
  match hops with
  | O => false
  | S hops' =>
      if p <=? 1 then false
      else match gppid s !! p with
           | None => false
           | Some q => if q =? root then true else descends_from hops' s q root
           end
  end.

Definition kHops : nat := 64.

(** The tasks a non-positive pid of [kill] names. *)
Definition group_targets (s : Pids) (cur gp : Z) : list Z * Pids :=
  let '(leader, s) := if gp <? -1 then (i32 (- gp), s) else gpid_of s cur in
  let targets := (filter (fun e => e.2 = leader \/ descends_from kHops s e.2 leader = true)
                    (map_to_list (gpid s))).*1 in
  let implicit := (gp =? 0) || (gp =? -1) in
  (if implicit && negb (bool_decide (cur ∈ targets)) then targets ++ [cur] else targets, s).

(** ** Arguments and results *)

Definition pid_arg_of (sc : Sysno.t) : Z :=
  match sc with
  | sched_setaffinity | sched_setscheduler | sched_getscheduler | sched_setparam | sched_getparam
  | sched_rr_get_interval | sched_setattr | sched_getattr | prlimit64 | process_vm_readv
  | process_vm_writev | kcmp => 0
  | ioprio_get | ioprio_set => 1
  | _ => -1
  end.

Definition returns_pid (a : Arch) (n : Z) : bool :=
  match decode a n with
  | clone | fork | vfork | clone3 | wait4 => true
  | _ => false
  end.

(** The host task of a guest pid, or one that does not exist. *)
Definition host_or_none (s : Pids) (g : Z) : Z :=
  let h := host_tid_of s g in if 0 <? h then h else 0x7fffffff.

Section entry.
Context {R : Type} `{RegView R} (a : Arch).

Definition int_arg (r : R) (i : Z) : Z := i32 (arg r i).

(** The host task in argument [i], if there is one. *)
Definition with_host (s : Pids) (r : R) (i g : Z) : option R :=
  let h := host_tid_of s g in if 0 <? h then Some (set_arg r i h) else None.

(** The registers [translate_entry_args] stores, if it stores any. *)
Definition entry_args (s : Pids) (r : R) : option R :=
  let sc := decode a (nr r) in
  if decide (sc = pidfd_open) then
    let g := int_arg r 0 in
    if 0 <? g then Some (set_arg r 0 (host_or_none s g)) else None
  else if 0 <=? pid_arg_of sc then
    let at_ := pid_arg_of sc in
    let g := int_arg r at_ in
    let is_pid := (negb (bool_decide (sc = ioprio_get)) && negb (bool_decide (sc = ioprio_set)))
                  || (arg r 0 =? 1) in
    if (0 <? g) && is_pid then
      let wr := set_arg r at_ (host_or_none s g) in
      Some (if decide (sc = kcmp) then
              let g2 := int_arg r 1 in
              if 0 <? g2 then set_arg wr 1 (host_or_none s g2) else wr
            else wr)
    else None
  else if decide (sc = wait4) then
    let g := int_arg r 0 in
    if 0 <? g then with_host s r 0 g
    else if g <? -1 then with_host s r 0 (i32 (- g))
    else None
  else if decide (sc = waitid) then
    let idtype := u32 (arg r 0) in
    let g := int_arg r 1 in
    if ((idtype =? 1) || (idtype =? 2)) && (0 <? g) then with_host s r 1 g else None
  else None.

Definition translate_entry_args (s : Pids) (r : R) : R := default r (entry_args s r).

End entry.

(** * Histories *)

(** What the backend does to the tables. *)
Inductive Op :=
| o_gpid (tid : Z) | o_tgid (tid : Z) | o_fork (w child : Z) | o_clone (w child : Z)
| o_ids (cur : Z) | o_exit (tid : Z) | o_reparent (tids : list Z) (dead : Z).

Definition do_op (tgid_of ppid_of : Z -> Z) (s : Pids) (o : Op) : Pids :=
  match o with
  | o_gpid t => (gpid_of s t).2
  | o_tgid t => (host_tgid_of tgid_of s t).2
  | o_fork w c => (note_process tgid_of s w c).2
  | o_clone w c => (note_thread tgid_of s w c).2
  | o_ids c => (current_ids tgid_of s c).2
  | o_exit t => forget_tgid s t
  | o_reparent tids d => (reparent_orphans_of tgid_of ppid_of tids s d).2
  end.

(** The two tables are inverse, and numbers are handed out in order. *)
Record wf (s : Pids) : Prop := {
  wf_inverse t g : gpid s !! t = Some g <-> host_of_gpid s !! g = Some t;
  wf_range t g : gpid s !! t = Some g -> 2 <= g < next_gpid s;
  wf_root : gpid s !! root_pid s = None;
  wf_next : 2 <= next_gpid s
}.

Lemma wf_fresh root : wf (fresh root).
Proof. split; cbn; [intros t g; by rewrite !lookup_empty|intros t g; by rewrite lookup_empty|done|lia]. Qed.

(** The guest number of a task, if it has one. *)
Definition number (s : Pids) (t : Z) : option Z := if t =? root_pid s then Some 1 else gpid s !! t.

(** A step keeps the tables consistent and takes no number back. *)
Definition grows (s s' : Pids) : Prop :=
  (wf s -> wf s') /\ forall t g, number s t = Some g -> number s' t = Some g.

#[global] Instance grows_preorder : PreOrder grows.
Proof. split; [done|]. intros s1 s2 s3 [A1 B1] [A2 B2]. split; auto. Qed.

Lemma wf_gpid_of s t : wf s -> wf (gpid_of s t).2.
Proof.
  intros [Hi Hr Hroot Hn]. unfold gpid_of. destruct (Z.eqb_spec t (root_pid s)) as [|Ht]; [done|].
  destruct (gpid s !! t) as [g|] eqn:E; [done|]. split; cbn.
  - intros t' g'. rewrite !lookup_insert_Some. split.
    + intros [[<- <-]|[Hne Hg]]; [by left|]. right. apply Hr in Hg as Hg'. split; [lia|by apply Hi].
    + intros [[<- <-]|[Hne Hg]]; [by left|]. right. apply Hi in Hg. split; [|done]. intros ->. congruence.
  - intros t' g' Hg. apply lookup_insert_Some in Hg as [[<- <-]|[_ Hg]]; [lia|]. apply Hr in Hg. lia.
  - by rewrite lookup_insert_ne by done.
  - lia.
Qed.

Lemma gpid_of_grows s t : grows s (gpid_of s t).2.
Proof.
  split; [apply wf_gpid_of|]. intros u g. unfold gpid_of, number.
  destruct (Z.eqb_spec t (root_pid s)); [done|]. destruct (gpid s !! t) eqn:E; [done|]. cbn.
  destruct (u =? root_pid s); [done|]. intros Hu. rewrite lookup_insert_ne; [done|]. intros ->. congruence.
Qed.

(** The operations on the other two tables. *)
Lemma same_grows s s' :
  gpid s' = gpid s -> host_of_gpid s' = host_of_gpid s -> next_gpid s' = next_gpid s ->
  root_pid s' = root_pid s -> grows s s'.
Proof.
  intros E1 E2 E3 E4. split.
  - intros [Hi Hr Hroot Hn]. split; rewrite ?E1, ?E2, ?E3, ?E4; done.
  - intros t g. unfold number. by rewrite E1, E4.
Qed.

Lemma host_tgid_of_grows f s t : grows s (host_tgid_of f s t).2.
Proof. unfold host_tgid_of. destruct (tgid_cache s !! t); [done|]. by apply same_grows. Qed.

Lemma set_gppid_grows s g q : grows s (set_gppid s g q).
Proof. by apply same_grows. Qed.

Lemma reparent_grows f h tids dead l : forall s, grows s (reparent_loop f h tids dead l s).2.
Proof.
  induction l as [|[c q] l IH]; intros s; cbn [reparent_loop]; [done|].
  repeat case_match; try (by apply IH); cbn;
    match goal with E : reparent_loop _ _ _ _ _ ?x = _ |- _ => pose proof (IH x) as Hx; rewrite E in Hx end;
    (etrans; [|exact Hx]; apply set_gppid_grows).
Qed.

(** Calls that return a number and the tables, in sequence. *)
Ltac next_grows :=
  match goal with
  | |- grows ?s (let '(_, _) := gpid_of ?x ?t in _).2 =>
      etrans; [apply (gpid_of_grows x t)|]; destruct (gpid_of x t) as [? ?]; cbn [snd]
  | |- grows ?s (let '(_, _) := host_tgid_of ?f ?x ?t in _).2 =>
      etrans; [apply (host_tgid_of_grows f x t)|]; destruct (host_tgid_of f x t) as [? ?]; cbn [snd]
  end.

Lemma do_op_grows f h s o : grows s (do_op f h s o).
Proof.
  destruct o as [t|t|w c|w c|cur|t|tids d]; cbn [do_op].
  - apply gpid_of_grows.
  - apply host_tgid_of_grows.
  - unfold note_process. do 3 next_grows. apply set_gppid_grows.
  - unfold note_thread. next_grows. destruct (_ && _); [done|].
    etrans; [by apply (same_grows _ (cache_tgid p c z))|]. by do 2 next_grows.
  - unfold current_ids. by do 3 next_grows.
  - by apply same_grows.
  - apply reparent_grows.
Qed.

Definition history (tgid_of ppid_of : Z -> Z) (s : Pids) (ops : list Op) : Pids :=
  foldl (do_op tgid_of ppid_of) s ops.

Lemma history_grows f h ops : forall s, grows s (history f h s ops).
Proof.
  induction ops as [|o ops IH]; intros s; [done|]. cbn. etrans; [apply (do_op_grows f h)|apply IH].
Qed.

(** ** Numbers and tasks *)

Lemma gpid_of_number s t : number (gpid_of s t).2 t = Some (gpid_of s t).1.
Proof.
  unfold gpid_of, number. destruct (Z.eqb_spec t (root_pid s)) as [-> |Ht]; cbn; [by rewrite Z.eqb_refl|].
  destruct (gpid s !! t) eqn:E; cbn; rewrite (proj2 (Z.eqb_neq _ _) Ht); [done|]. apply lookup_insert_eq.
Qed.

Lemma number_gpid_of s t g : number s t = Some g -> gpid_of s t = (g, s).
Proof. unfold number, gpid_of. destruct (t =? root_pid s); [by intros [= <-]|]. by intros ->. Qed.

Lemma number_host s t g : wf s -> number s t = Some g -> host_tid_of s g = t.
Proof.
  intros [Hi Hr _ _]. unfold number, host_tid_of.
  destruct (Z.eqb_spec t (root_pid s)) as [-> |]; [by intros [= <-]|]. intros E.
  pose proof (Hr _ _ E). destruct (Z.eqb_spec g 1); [lia|]. apply Hi in E. by rewrite E.
Qed.

(** A host task a guest number stands for is one of the tree. *)
Lemma host_in_tree s g : wf s -> 0 < host_tid_of s g -> number s (host_tid_of s g) = Some g.
Proof.
  intros [Hi _ Hroot _]. unfold host_tid_of, number. destruct (Z.eqb_spec g 1) as [-> |]; [by rewrite Z.eqb_refl|].
  destruct (host_of_gpid s !! g) as [t|] eqn:E; cbn; [|lia]. intros _. apply Hi in E.
  destruct (Z.eqb_spec t (root_pid s)) as [-> |]; [congruence|done].
Qed.

(** * Properties *)

(** Guest process numbers name tasks one to one and for good: after any
    history, the number a task gets leads back to that task, two tasks never
    share one, and nothing that happens later (forks, threads, exits,
    reparenting) changes either direction. *)
Theorem pid_round_trip (tgid_of ppid_of : Z -> Z) (root t u : Z) (before after : list Op) :
  let s := history tgid_of ppid_of (fresh root) before in
  let '(g, s1) := gpid_of s t in
  let '(h, s2) := gpid_of (history tgid_of ppid_of s1 after) u in
  host_tid_of s2 g = t /\ host_tid_of s2 h = u /\ (g = h <-> t = u) /\ gpid_of s2 t = (g, s2).
Proof.
  intros s. destruct (gpid_of s t) as [g s1] eqn:E1.
  destruct (gpid_of (history tgid_of ppid_of s1 after) u) as [h s2] eqn:E2.
  pose proof (gpid_of_number s t) as N1. rewrite E1 in N1. cbn in N1.
  pose proof (gpid_of_number (history tgid_of ppid_of s1 after) u) as N2. rewrite E2 in N2. cbn in N2.
  pose proof (history_grows tgid_of ppid_of before (fresh root)) as [W0 _].
  pose proof (gpid_of_grows s t) as [W1 _]. rewrite E1 in W1.
  pose proof (history_grows tgid_of ppid_of after s1) as [W2 G2].
  pose proof (gpid_of_grows (history tgid_of ppid_of s1 after) u) as [W3 G3]. rewrite E2 in W3, G3. cbn in W1, W3, G3.
  assert (Hw : wf s2) by (apply W3, W2, W1, W0, wf_fresh).
  assert (N1' : number s2 t = Some g) by (by apply G3, G2).
  split_and!; [by apply number_host|by apply number_host| |by apply number_gpid_of].
  split; [intros <-|intros <-; congruence]. rewrite <- (number_host s2 t g), <- (number_host s2 u g); done.
Qed.

(** [wait4] on the number [fork] returned waits for that child and
    returns that number: whatever happens in between, the host is asked for
    the child's host task, and that task is translated back to the same
    number. *)
Theorem wait_names_child {R : Type} `{RegLaws R} (a : Arch) (tgid_of ppid_of : Z -> Z) (root t : Z)
    (before after : list Op) (r : R) :
  let '(g, s1) := gpid_of (history tgid_of ppid_of (fresh root) before) t in
  let s := history tgid_of ppid_of s1 after in
  0 < t -> 0 < g -> decode a (nr r) = wait4 -> int_arg r 0 = g ->
  arg (translate_entry_args a s r) 0 = t /\ (gpid_of s t).1 = g /\ returns_pid a (nr r) = true.
Proof.
  destruct (gpid_of _ t) as [g s1] eqn:E1. intros s Ht Hg Hd Hr.
  pose proof (gpid_of_number (history tgid_of ppid_of (fresh root) before) t) as N1. rewrite E1 in N1. cbn in N1.
  pose proof (history_grows tgid_of ppid_of before (fresh root)) as [W0 _].
  pose proof (gpid_of_grows (history tgid_of ppid_of (fresh root) before) t) as [W1 _]. rewrite E1 in W1.
  pose proof (history_grows tgid_of ppid_of after s1) as [W2 G2].
  assert (Hw : wf s) by (apply W2, W1, W0, wf_fresh). apply G2 in N1. fold s in N1.
  pose proof (number_host s t g Hw N1) as Eh. split_and!.
  - unfold translate_entry_args, entry_args. rewrite Hd, Hr. cbn [pid_arg_of]. rewrite decide_False by done.
    change (0 <=? -1) with false. cbn [negb]. rewrite decide_True by done.
    unfold with_host. rewrite Eh, (proj2 (Z.ltb_lt 0 g) Hg), (proj2 (Z.ltb_lt 0 t) Ht).
    cbn [default from_option id]. rewrite arg_set_arg by lia. done.
  - by rewrite (number_gpid_of s t g).
  - unfold returns_pid. by rewrite Hd.
Qed.

Lemma wait_names_child_witness :
  let s := (gpid_of (fresh 100) 200).2 in
  let r := mkX86 2 0 0 0 0 0 (u64 (-38)) 61 0 0 in
  arg (translate_entry_args x86_64 s r) 0 = 200 /\ (gpid_of s 200).1 = 2.
Proof.
  intros s r. destruct (wait_names_child x86_64 (fun _ => 0) (fun _ => 0) 100 200 [] [] r) as (H1 & H2 & _);
    [lia|vm_compute; reflexivity|vm_compute; reflexivity|vm_compute; reflexivity|]. split; [exact H1|exact H2].
Defined.

(** The arguments of a call that are process numbers. *)
Definition names_pid {R} `{RegView R} (a : Arch) (r : R) (i : Z) : Prop :=
  let sc := decode a (nr r) in
  (sc = pidfd_open /\ i = 0) \/ (sc = kcmp /\ i = 1 /\ 0 < int_arg r 0) \/
  (0 <= i /\ pid_arg_of sc = i /\ (sc = ioprio_get \/ sc = ioprio_set -> arg r 0 = 1)).

Lemma host_or_none_tree s g : wf s -> host_or_none s g = 0x7fffffff \/ number s (host_or_none s g) = Some g.
Proof.
  intros Hw. unfold host_or_none. destruct (Z.ltb_spec 0 (host_tid_of s g)); [|by left].
  right. by apply host_in_tree.
Qed.



End PidNamespace.
