(* ===== verification/PtraceTrap.v ===== *)
(** The tracing backend as a state machine
    ([include/linuxity/runtime/linux/ptrace_trap.hpp]): what it does with
    each report of [waitpid], how it finishes a call, and how it steps one
    task synchronously.

    [Tracer] adds to [Ptrace] the calls that wait for a task, resume it and
    ask about its signal.  [wait_any] stands for the blocking [waitpid], or
    for the polling with a deadline after the root task has ended.  A
    callback kept for a task's exit stop ([on_exit]) is data; the ones of the
    run loop are tokens, reported in [fired].  [wait_loop] and [step_loop]
    take the number of reports to read. *)

From S2P Require Import Prelude Sysno Abi SeccompArch Dispatch GuestMem Dirents Paths ProcessTable PtraceMem PidNamespace.
Import Sysno Abi PtraceMem PidNamespace.

Module PtraceTrap.

(** * The kernel *)

Inductive WStatus :=
| ws_exited (code : Z) | ws_signaled (sig : Z) | ws_stopped (sig event : Z) | ws_other.

Inductive WaitAny := wa_report (w : Z) (st : WStatus) | wa_deadline | wa_error.

Class Tracer (P R : Type) `{Ptrace P R} := {
  wait_any : P -> bool -> WaitAny * P;
  wait_one : P -> Z -> option WStatus * P;
  cont : P -> Z -> Z -> P;            (* PTRACE_CONT with a signal *)
  step : P -> Z -> Z -> P;            (* PTRACE_SYSCALL with a signal *)
  event_msg : P -> Z -> Z;
  siginfo : P -> Z -> (Z * Z) + Z;    (* si_code and si_pid, or the errno *)
  set_siginfo_pid : P -> Z -> Z -> P;
  tgid_of : P -> Z -> Z;
  ppid_of : P -> Z -> Z;
  comm_of : P -> Z -> str;
  cmdline_of : P -> Z -> str;
  kill_hard : P -> Z -> P;            (* PTRACE_KILL, SIGKILL, and the wait *)
  (** [rt_tgsigqueueinfo] with a sender, [tgkill] and [kill]: an errno. *)
  send_queued : P -> Z -> Z -> Z -> option Z * P;
  send_thread : P -> Z -> Z -> option Z * P;
  send_process : P -> Z -> Z -> option Z * P
}.

Definition SIGTRAP : Z := 5.
Definition SIGSTOP : Z := 19.
Definition SIGTSTP : Z := 20.
Definition SIGTTIN : Z := 21.
Definition SIGTTOU : Z := 22.
Definition SIGCONT : Z := 18.
Definition SIGTERM : Z := 15.
Definition EV_FORK : Z := 1.
Definition EV_VFORK : Z := 2.
Definition EV_CLONE : Z := 3.
Definition EV_EXEC : Z := 4.
Definition EV_SECCOMP : Z := 7.
Definition EINVAL : Z := 22.

(** * The state *)

Section state.
Context (R : Type).

(** A callback waiting for a task's exit stop. *)
Inductive OnExit := oe_deferred (path_arg guest_ptr : Z) (token : nat) | oe_retry (entry : R).

(** [struct Task]; [action] is the value of [Action::set_ret]. *)
Record Task := {
  in_call : bool; action : option Z; pending_sig : Z; t_regs : option R; on_exit : option OnExit
}.

Definition new_task : Task :=
  {| in_call := false; action := None; pending_sig := 0; t_regs := None; on_exit := None |}.

Record Trap := {
  pids : Pids; tasks : gmap Z Task; stopped : gset Z; stop_owed : gset Z;
  events : list ProcessTable.ProcEvent; cur : Z; booted_root : bool; exit_code : Z; live : Z;
  exited : bool; draining : bool; seccomp : bool; fired : list (nat * Z)
}.

End state.
Arguments OnExit {R}.
Arguments oe_deferred {R}.
Arguments oe_retry {R}.
Arguments Task {R}.
Arguments new_task {R}.
Arguments in_call {R}.
Arguments action {R}.
Arguments pending_sig {R}.
Arguments t_regs {R}.
Arguments on_exit {R}.
Arguments pids {R}.
Arguments tasks {R}.
Arguments stopped {R}.
Arguments stop_owed {R}.
Arguments events {R}.
Arguments cur {R}.
Arguments booted_root {R}.
Arguments exit_code {R}.
Arguments live {R}.
Arguments exited {R}.
Arguments draining {R}.
Arguments seccomp {R}.
Arguments fired {R}.

Section trap.
Context {P R : Type} `{Tracer P R} `{RegView R} (a : Arch) (zero : R).

Definition with_pids (s : Trap R) (x : Pids) : Trap R :=
  {| pids := x; tasks := tasks s; stopped := stopped s; stop_owed := stop_owed s; events := events s;
     cur := cur s; booted_root := booted_root s; exit_code := exit_code s; live := live s;
     exited := exited s; draining := draining s; seccomp := seccomp s; fired := fired s |}.
Definition with_tasks (s : Trap R) (x : gmap Z Task) (n : Z) : Trap R :=
  {| pids := pids s; tasks := x; stopped := stopped s; stop_owed := stop_owed s; events := events s;
     cur := cur s; booted_root := booted_root s; exit_code := exit_code s; live := n;
     exited := exited s; draining := draining s; seccomp := seccomp s; fired := fired s |}.
Definition with_stops (s : Trap R) (x y : gset Z) : Trap R :=
  {| pids := pids s; tasks := tasks s; stopped := x; stop_owed := y; events := events s;
     cur := cur s; booted_root := booted_root s; exit_code := exit_code s; live := live s;
     exited := exited s; draining := draining s; seccomp := seccomp s; fired := fired s |}.
Definition push (s : Trap R) (es : list ProcessTable.ProcEvent) : Trap R :=
  {| pids := pids s; tasks := tasks s; stopped := stopped s; stop_owed := stop_owed s;
     events := events s ++ es;
     cur := cur s; booted_root := booted_root s; exit_code := exit_code s; live := live s;
     exited := exited s; draining := draining s; seccomp := seccomp s; fired := fired s |}.
Definition with_flags (s : Trap R) (boot : bool) (code : Z) (over drain : bool) : Trap R :=
  {| pids := pids s; tasks := tasks s; stopped := stopped s; stop_owed := stop_owed s; events := events s;
     cur := cur s; booted_root := boot; exit_code := code; live := live s;
     exited := over; draining := drain; seccomp := seccomp s; fired := fired s |}.
Definition with_cur (s : Trap R) (w : Z) (f : list (nat * Z)) : Trap R :=
  {| pids := pids s; tasks := tasks s; stopped := stopped s; stop_owed := stop_owed s; events := events s;
     cur := w; booted_root := booted_root s; exit_code := exit_code s; live := live s;
     exited := exited s; draining := draining s; seccomp := seccomp s; fired := f |}.

Definition set_task (s : Trap R) (w : Z) (t : Task) : Trap R := with_tasks s (<[w := t]> (tasks s)) (live s).
(** [tasks_[w]]. *)
Definition task (s : Trap R) (w : Z) : Task := default new_task (tasks s !! w).
Definition tids (s : Trap R) : list Z := (map_to_list (tasks s)).*1.

(** [tasks_.try_emplace(w).second] counted in [live_]. *)
Definition adopt (s : Trap R) (w : Z) : Trap R :=
  match tasks s !! w with
  | Some _ => s
  | None => with_tasks s (<[w := new_task]> (tasks s)) (live s + 1)
  end.

(** ** Resuming *)

Definition resume_run (p : P) (s : Trap R) (w sig : Z) : P :=
  if seccomp s then cont p w sig else step p w sig.

Definition resume_after_event (p : P) (s : Trap R) (w : Z) : P :=
  let in_c := match tasks s !! w with Some t => in_call t | None => false end in
  if seccomp s && in_c then step p w 0 else resume_run p s w 0.

Definition resume_task (p : P) (s : Trap R) (w : Z) : P * Trap R :=
  match tasks s !! w with
  | None => (resume_run p s w 0, s)
  | Some t =>
      (resume_run p s w (pending_sig t),
       set_task s w {| in_call := in_call t; action := action t; pending_sig := 0; t_regs := t_regs t;
                       on_exit := on_exit t |})
  end.

(** ** New and dead tasks *)

Definition new_tracee (p : P) (s : Trap R) (w event : Z) : Trap R :=
  let np := event_msg p w in
  if np =? 0 then s
  else
    let s := adopt s np in
    if negb (event =? EV_CLONE) then
      let '(e, x) := note_process (tgid_of p) (pids s) w np in push (with_pids s x) [e]
    else
      let '(e, x) := note_thread (tgid_of p) (pids s) w np in
      push (with_pids s x) (match e with Some e => [e] | None => [] end).

(** What [next] and [step_to_exit] do alike when [w] ends. *)
Definition reap (p : P) (s : Trap R) (w code : Z) : Trap R :=
  let s := if w =? root_pid (pids s) then with_flags s (booted_root s) code (exited s) (draining s) else s in
  let s := match gpid (pids s) !! w with
           | None => s
           | Some g =>
               let s := push s [ProcessTable.ev_reap g] in
               let '(es, x) := reparent_orphans_of (tgid_of p) (ppid_of p) (tids s) (pids s) g in
               push (with_pids s x) es
           end in
  let s := with_tasks s (delete w (tasks s)) (live s - 1) in
  with_pids (with_stops s (stopped s ∖ {[w]}) (stop_owed s ∖ {[w]})) (forget_tgid (pids s) w).

Definition begin_drain (p : P) (s : Trap R) : P * Trap R :=
  (foldl (fun p t => (send_process (send_process p t SIGCONT).2 t SIGTERM).2) p (tids s),
   with_flags s (booted_root s) (exit_code s) (exited s) true).

Definition kill_remaining (p : P) (s : Trap R) : P * Trap R :=
  (foldl kill_hard p (tids s), with_tasks s ∅ 0).

Definition exit_status (st : WStatus) : option Z :=
  match st with
  | ws_exited c => Some c
  | ws_signaled sig => Some (128 + sig)
  | _ => None
  end.

(** ** Exit stops *)

(** [Regs rr{}; (void)Regs::fetch(w, rr)]. *)
Definition fetch (p : P) (w : Z) : R := default zero (getregs p w).

Definition store (p : P) (w : Z) (r : R) : P := (setregs p w r).2.

(** The low half of a word, and the word with another one. *)
Definition low32 (w : Z) : Z := i32 w.
Definition with_low32 (w v : Z) : Z := Z.lor (Z.land w (u64 (Z.lnot 0xffffffff))) (u32 v).

Definition is_getlk (r : R) : bool :=
  bool_decide (decode a (nr r) = fcntl) && (arg r 1 =? 5) && negb (arg r 2 =? 0).
Definition is_peercred (r : R) : bool :=
  bool_decide (decode a (nr r) = getsockopt) && (arg r 1 =? 1) && (arg r 2 =? 17) && negb (arg r 3 =? 0).
Definition needs_out_fixup (r : R) : bool := is_getlk r || is_peercred r.
Definition owes_exit_stop (n : Z) : bool := returns_pid a n || bool_decide (decode a n = waitid).

Definition known (p : P) (s : Trap R) (host : Z) : Z := known_gpid_of (tgid_of p) (tids s) (pids s) host.

Definition translate_getlk (p : P) (s : Trap R) (w : Z) (r : R) : P :=
  if negb (i64 (ret r) =? 0) then p
  else
    let at_ := u64 (arg r 2 + 24) in
    match peek p w at_ with
    | None => p
    | Some word =>
        let host := low32 word in
        if host <=? 0 then p else (poke p w at_ (with_low32 word (known p s host))).2
    end.

Definition translate_peercred (p : P) (s : Trap R) (w : Z) (r : R) : P :=
  if negb (i64 (ret r) =? 0) then p
  else
    let at_ := arg r 3 in
    match peek p w at_, peek p w (u64 (at_ + 8)) with
    | Some w0, Some w1 =>
        let host := low32 w0 in
        let g := if 0 <? host then known p s host else 0 in
        if g <=? 0 then p
        else (poke (poke p w at_ (u32 g)).2 w (u64 (at_ + 8)) (with_low32 w1 0)).2
    | _, _ => p
    end.

(** [si_pid] of the [siginfo_t] a [waitid] filled. *)
Definition translate_waitid (p : P) (s : Trap R) (w : Z) (r : R) : P * Trap R :=
  let infop := arg r 2 in
  if negb (i64 (ret r) =? 0) || (infop =? 0) then (p, s)
  else
    let at_ := u64 (infop + 16) in
    match peek p w at_ with
    | None => (p, s)
    | Some word =>
        let host := low32 word in
        if host <=? 0 then (p, s)
        else let '(g, x) := gpid_of (pids s) host in ((poke p w at_ (with_low32 word g)).2, with_pids s x)
    end.

(** The process number a forwarded call returned. *)
Definition translate_ret (p : P) (s : Trap R) (w : Z) (r : R) : P * Trap R :=
  let host := i32 (ret r) in
  if host <=? 0 then (p, s)
  else let '(g, x) := gpid_of (pids s) host in (store p w (set_ret r g), with_pids s x).

Definition end_call (s : Trap R) (w : Z) : Trap R :=
  let t := task s w in
  set_task s w {| in_call := false; action := None; pending_sig := pending_sig t; t_regs := t_regs t;
                  on_exit := on_exit t |}.

(** A kept callback, which is dropped first. *)
Definition run_on_exit (p : P) (s : Trap R) (w : Z) (oe : OnExit) : P * Trap R :=
  let t := task s w in
  let s := set_task s w {| in_call := in_call t; action := action t; pending_sig := pending_sig t;
                           t_regs := t_regs t; on_exit := None |} in
  match oe with
  | oe_retry entry => (store p w (rewind_to_syscall entry), s)
  | oe_deferred path_arg guest_ptr token =>
      let v := i64 (ret (fetch p w)) in
      let p := if (v <=? -512) && (-516 <=? v) then
                 match getregs p w with
                 | Some now => store p w (set_arg now path_arg guest_ptr)
                 | None => p
                 end
               else p in
      (p, with_cur s (cur s) (fired s ++ [(token, v)]))
  end.

Definition finalize_exit (p : P) (s : Trap R) (w : Z) : P * Trap R :=
  let t := task s w in
  match on_exit t with
  | Some oe => run_on_exit p s w oe
  | None =>
      let r := fetch p w in
      let '(p, s) :=
        match action t with
        | Some v => (store p w (set_ret r v), s)
        | None =>
            if decide (decode a (nr r) = waitid) then translate_waitid p s w r
            else if is_getlk r then (translate_getlk p s w r, s)
            else if is_peercred r then (translate_peercred p s w r, s)
            else if returns_pid a (nr r) then translate_ret p s w r
            else (p, s)
        end in
      (p, end_call s w)
  end.

(** ** [next] *)

Inductive Answer := go_on | over | frame (f : list Z * Z * Z).

(** The six arguments, the number and the pc. *)
Definition fill_frame (r : R) : Answer :=
  frame ((fun i => arg r i) <$> [0; 1; 2; 3; 4; 5], nr r, pc r).

(** Handing an entry stop to the dispatcher. *)
Definition enter (p : P) (s : Trap R) (w : Z) (rr : R) : Answer * P * Trap R :=
  let t := task s w in
  let s := with_cur s w (fired s) in
  let '(p, r) := match entry_args a (pids s) rr with
                 | Some wr => (store p w wr, wr)
                 | None => (p, rr)
                 end in
  (fill_frame r, p,
   set_task s w {| in_call := true; action := action t; pending_sig := pending_sig t; t_regs := Some r;
                   on_exit := on_exit t |}).

(** The root's first [execve], whose path is a host path already. *)
Definition is_bootstrap (s : Trap R) (w : Z) (rr : R) : bool :=
  negb (booted_root s) && (w =? root_pid (pids s))
  && (bool_decide (decode a (nr rr) = execve) || bool_decide (decode a (nr rr) = execveat)).

Definition on_seccomp (p : P) (s : Trap R) (w : Z) : Answer * P * Trap R :=
  let rr := fetch p w in
  if is_bootstrap s w rr then (go_on, resume_run (store p w rr) s w 0, s)
  else enter p s w rr.

Definition on_syscall_stop (p : P) (s : Trap R) (w : Z) : Answer * P * Trap R :=
  let t := task s w in
  let rr := fetch p w in
  let is_entry := negb (seccomp s) && (i64 (ret rr) =? -38) && negb (in_call t) in
  if is_entry then
    if is_bootstrap s w rr then
      (go_on, step p w 0,
       set_task s w {| in_call := true; action := action t; pending_sig := pending_sig t;
                       t_regs := t_regs t; on_exit := on_exit t |})
    else enter p s w rr
  else
    let '(p, s) := finalize_exit p (set_task s w t) w in (go_on, resume_run p s w 0, s).

Definition on_exec (p : P) (s : Trap R) (w : Z) : Answer * P * Trap R :=
  let s := if w =? root_pid (pids s) then with_flags s true (exit_code s) (exited s) (draining s) else s in
  let '(g, x) := gpid_of (pids s) w in
  let s := push (with_pids s x) [ProcessTable.ev_exec g (comm_of p w) (cmdline_of p w)] in
  let s := set_task s w new_task in
  (go_on, resume_run p s w 0, s).

Definition rewrite_siginfo_pid (p : P) (s : Trap R) (w : Z) : P :=
  match siginfo p w with
  | inr _ => p
  | inl (code, pid) =>
      if negb ((code =? 0) || (code =? -1) || (code =? -6)) then p
      else if pid <=? 0 then p
      else let g := known p s pid in
           if (g <=? 0) || (g =? pid) then p else set_siginfo_pid p w g
  end.

(** A signal of job control: a group stop, the first stop of a new task, or
    one to deliver. *)
Definition on_stop_signal (p : P) (s : Trap R) (w sig : Z) : option (P * Trap R) * Trap R :=
  let si := siginfo p w in
  if bool_decide (si = inr EINVAL) && bool_decide (is_Some (tasks s !! w)) then
    if bool_decide (w ∈ stopped s) then (Some (p, s), s)
    else
      let s := with_stops s ({[w]} ∪ stopped s) (stop_owed s) in
      let '(tg, x) := host_tgid_of (tgid_of p) (pids s) w in
      let '(g, x) := gpid_of x tg in
      (Some (p, push (with_pids s x) [ProcessTable.ev_stop g]), s)
  else
    let attach := (sig =? SIGSTOP) && match si with inr _ => true | inl (c, q) => (c =? 0) && (q =? 0) end in
    if attach then
      let s := adopt s w in
      let owed := bool_decide (w ∈ stop_owed s) in
      let s := with_stops s (stopped s) (stop_owed s ∖ {[w]}) in
      (Some (resume_run p s w (if owed then SIGSTOP else 0), s), s)
    else (None, if sig =? SIGSTOP then with_stops s (stopped s) (stop_owed s ∖ {[w]}) else s).

Definition on_trap (p : P) (s : Trap R) (w : Z) : P * Trap R :=
  let real := match siginfo p w with
              | inl (c, _) => (c =? 1) || (c =? 2) || (c =? 0x80)
              | inr _ => false
              end in
  if real then (resume_run p s w SIGTRAP, s)
  else let s := adopt s w in (resume_run p s w 0, s).

Definition on_signal (p : P) (s : Trap R) (w sig : Z) : Answer * P * Trap R :=
  let job := (sig =? SIGSTOP) || (sig =? SIGTSTP) || (sig =? SIGTTIN) || (sig =? SIGTTOU) in
  let '(handled, s) := if job then on_stop_signal p s w sig else (None, s) in
  match handled with
  | Some (p, s) => (go_on, p, s)
  | None =>
      if sig =? SIGTRAP then let '(p, s) := on_trap p s w in (go_on, p, s)
      else if sig =? Z.lor SIGTRAP 0x80 then on_syscall_stop p s w
      else (go_on, resume_run (rewrite_siginfo_pid p s w) s w sig, s)
  end.

(** One report of [waitpid]. *)
Definition on_status (p : P) (s : Trap R) (w : Z) (st : WStatus) : Answer * P * Trap R :=
  match st with
  | ws_other => (go_on, p, s)
  | ws_stopped sig event =>
      if (event =? EV_FORK) || (event =? EV_VFORK) || (event =? EV_CLONE) then
        let s := new_tracee p s w event in (go_on, resume_after_event p s w, s)
      else if event =? EV_EXEC then on_exec p s w
      else if event =? EV_SECCOMP then on_seccomp p s w
      else on_signal p s w sig
  | ws_exited _ | ws_signaled _ =>
      let s := reap p s w (default 0 (exit_status st)) in
      let '(p, s) := if w =? root_pid (pids s) then begin_drain p s else (p, s) in
      if live s <=? 0 then (over, p, with_flags s (booted_root s) (exit_code s) true (draining s))
      else (go_on, p, s)
  end.

Fixpoint wait_loop (reports : nat) (p : P) (s : Trap R) : Answer * P * Trap R :=
  match reports with
  | O => (go_on, p, s)
  | S reports' =>
      match wait_any p (draining s) with
      | (wa_error, p) => (over, p, s)
      | (wa_deadline, p) =>
          let '(p, s) := kill_remaining p s in
          (over, p, with_flags s (booted_root s) (exit_code s) true (draining s))
      | (wa_report w st, p) =>
          match on_status p s w st with
          | (go_on, p, s) => wait_loop reports' p s
          | r => r
          end
      end
  end.

(** ** Stepping one task *)

(** A fork seen while stepping; the parent's number comes first. *)
Definition new_tracee_sync (p : P) (s : Trap R) (w event : Z) : Trap R :=
  let np := event_msg p w in
  if np =? 0 then s
  else
    let s := adopt s np in
    if negb (event =? EV_CLONE) then
      let '(tg, x) := host_tgid_of (tgid_of p) (pids s) w in
      let '(pg, x) := gpid_of x tg in
      let '(g, x) := gpid_of x np in
      push (with_pids s (set_gppid x g pg)) [ProcessTable.ev_spawn g pg]
    else
      let '(e, x) := note_thread (tgid_of p) (pids s) w np in
      push (with_pids s x) (match e with Some e => [e] | None => [] end).

(** The loop of [step_to_exit]: [Some true] at the exit stop, [Some false]
    when the task is gone; [held] is the signal held back. *)
Fixpoint step_loop (reports : nat) (p : P) (s : Trap R) (w held : Z) : option bool * P * Trap R :=
  match reports with
  | O => (None, p, s)
  | S reports' =>
      match wait_one p w with
      | (None, p) => (Some false, p, s)
      | (Some (ws_exited _ as st), p) | (Some (ws_signaled _ as st), p) =>
          let s := reap p s w (default 0 (exit_status st)) in
          (Some false, p,
           if live s <=? 0 then with_flags s (booted_root s) (exit_code s) true (draining s) else s)
      | (Some ws_other, p) => (Some false, p, s)
      | (Some (ws_stopped sig event), p) =>
          if (event =? EV_FORK) || (event =? EV_VFORK) || (event =? EV_CLONE) then
            step_loop reports' (step p w 0) (new_tracee_sync p s w event) w held
          else if event =? EV_EXEC then
            let '(g, x) := gpid_of (pids s) w in
            let s := push (with_pids s x) [ProcessTable.ev_exec g (comm_of p w) (cmdline_of p w)] in
            (Some true, p, set_task s w new_task)
          else if sig =? Z.lor SIGTRAP 0x80 then
            (Some true, p,
             if held =? 0 then s
             else let t := task s w in
                  set_task s w {| in_call := in_call t; action := action t; pending_sig := held;
                                  t_regs := t_regs t; on_exit := on_exit t |})
          else
            let '(p, held) := if negb (sig =? SIGTRAP) && negb (sig =? Z.lor SIGTRAP 0x80)
                              then (rewrite_siginfo_pid p s w, sig) else (p, held) in
            step_loop reports' (step p w 0) s w held
      end
  end.

Definition step_to_exit (reports : nat) (p : P) (s : Trap R) (w : Z) : option bool * P * Trap R :=
  step_loop reports (step p w 0) s w 0.

(** ** The primitives *)

Definition no_action (s : Trap R) : Trap R :=
  let t := task s (cur s) in
  set_task s (cur s) {| in_call := in_call t; action := None; pending_sig := pending_sig t;
                        t_regs := t_regs t; on_exit := on_exit t |}.

Definition not_in_call (s : Trap R) : Trap R :=
  let t := task s (cur s) in
  set_task s (cur s) {| in_call := false; action := action t; pending_sig := pending_sig t;
                        t_regs := t_regs t; on_exit := on_exit t |}.

Definition entry_regs (s : Trap R) : R := default zero (t_regs (task s (cur s))).

(** [store_and_skip]. *)
Definition store_and_skip (p : P) (w : Z) (r : R) : bool * P :=
  match setregs p w r with
  | (Some e, p) => (e =? 3, p)
  | (None, p) =>
      match skip_code r with
      | None => (true, p)
      | Some n => match set_system_call p w n with (None, p) => (true, p) | (Some e, p) => (e =? 3, p) end
      end
  end.

Definition resume (p : P) (s : Trap R) (v : Z) : Result unit * P * Trap R :=
  let w := cur s in
  let t := task s w in
  let r := skip_call (entry_regs s) in
  if seccomp s then
    let '(stored, p) := store_and_skip p w (set_ret r v) in
    if negb stored then (inr eio, p, s)
    else
      let s' := set_task s w {| in_call := false; action := None; pending_sig := 0; t_regs := t_regs t;
                                on_exit := on_exit t |} in
      (inl tt, resume_run p s' w (pending_sig t), s')
  else
    let '(stored, p) := store_and_skip p w r in
    if negb stored then (inr eio, p, s)
    else
      (inl tt, step p w 0,
       set_task s w {| in_call := in_call t; action := Some v; pending_sig := pending_sig t;
                       t_regs := t_regs t; on_exit := on_exit t |}).

Definition forward (p : P) (s : Trap R) : Result Z * P * Trap R :=
  let s := no_action s in
  let r := entry_regs s in
  if seccomp s && negb (owes_exit_stop (nr r)) && negb (needs_out_fixup r)
  then let s := not_in_call s in (inl 0, resume_run p s (cur s) 0, s)
  else (inl 0, step p (cur s) 0, s).

(** The second half of every synchronous primitive: from the entry stop to
    the exit stop, the caller's hook, and on. *)
Definition finish_sync {S : Type} (reports : nat) (hook : Z -> S -> P -> S * P) (st : S) (p : P) (s : Trap R)
    : option (Result Z * S * P * Trap R) :=
  match step_to_exit reports p s (cur s) with
  | (None, _, _) => None
  | (Some false, p, s) => Some (inl (-1), st, p, s)
  | (Some true, p, s) =>
      let v := i64 (ret (fetch p (cur s))) in
      let s := not_in_call s in
      let '(st, p) := hook v st p in
      let '(p, s) := resume_task p s (cur s) in
      Some (inl v, st, p, s)
  end.

Definition forward_sync {S : Type} (reports : nat) (hook : Z -> S -> P -> S * P) (st : S) (p : P) (s : Trap R) :=
  finish_sync reports hook st p (no_action s).

Definition set_ret_now (p : P) (w v : Z) : P :=
  match getregs p w with
  | None => p
  | Some r => store p w (set_ret r v)
  end.

Definition forward_sync_then_set (reports : nat) (p : P) (s : Trap R) (v : Z) :=
  forward_sync reports (fun _ (u : unit) p => (u, set_ret_now p (cur s) v)) tt p s.

Definition redirect {S : Type} (reports : nat) (hook : Z -> S -> P -> S * P) (st : S) (p : P) (s : Trap R)
    (path_arg : Z) (host_path : str) (path_arg2 : Z) (host_path2 : str) :=
  match place p (cur s) (entry_regs s) path_arg host_path path_arg2 host_path2 with
  | (inr e, _, p) => Some (inr e, st, p, s)
  | (inl _, _, p) => finish_sync reports hook st p s
  end.

Definition rewrite_arg {S : Type} (reports : nat) (hook : Z -> S -> P -> S * P) (st : S) (p : P) (s : Trap R)
    (arg_ v : Z) :=
  finish_sync reports hook st (store p (cur s) (set_arg (entry_regs s) arg_ v)) s.

Definition redirect_deferred (p : P) (s : Trap R) (path_arg : Z) (host_path : str) (token : nat)
    : Result unit * P * Trap R :=
  let w := cur s in
  let t := task s w in
  let r := entry_regs s in
  let scratch := scratch_below (sp r) (Z.of_nat (length host_path) + 1) in
  let '(wrote, p) := poke_path p w scratch host_path true in
  let p := store p w (if wrote then set_arg r path_arg scratch else r) in
  (inl tt, step p w 0,
   set_task s w {| in_call := in_call t; action := None; pending_sig := pending_sig t; t_regs := t_regs t;
                   on_exit := Some (oe_deferred path_arg (arg r path_arg) token) |}).

(** Seconds and nanoseconds, truncated towards zero. *)
Definition timespec (ns : Z) : list Z :=
  le_bytes 8 (Z.quot ns 1000000000) ++ le_bytes 8 (Z.rem ns 1000000000).

Definition wait_then_retry (p : P) (s : Trap R) (ns : Z) : Result unit * P * Trap R :=
  let w := cur s in
  let t := task s w in
  let entry := entry_regs s in
  let ts := scratch_below (sp entry) 32 in
  let '(wrote, p) := poke_words 17 p w ts (timespec ns ++ [0]) in
  if negb wrote then (inr efault, p, s)
  else
    let r := set_arg (set_arg (set_arg (set_arg (set_arg entry 0 0) 1 0) 2 ts) 3 0) 4 8 in
    let r := set_nr r (SeccompArch.encode a ppoll) in
    match setregs p w r with
    | (Some _, p) => (inr eio, p, s)
    | (None, p) =>
        let '(e, p) := match nr_code r with None => (None, p) | Some n => set_system_call p w n end in
        match e with
        | Some _ => (inr eio, p, s)
        | None =>
            (inl tt, step p w 0,
             set_task s w {| in_call := in_call t; action := None; pending_sig := pending_sig t;
                             t_regs := t_regs t; on_exit := Some (oe_retry entry) |})
        end
    end.

Definition rewrite_sockaddr (p : P) (s : Trap R) (path_addr : Z) (host_path : str) (len_arg new_len : Z)
    : Result unit * P * Trap R :=
  match place_sockaddr p (cur s) (entry_regs s) path_addr host_path len_arg new_len with
  | (inr e, _, p) => (inr e, p, s)
  | (inl _, _, p) => (inl tt, step p (cur s) 0, no_action s)
  end.

Definition exec_through_interp (p : P) (s : Trap R) (path_arg : Z) (interp_host prog_guest : str)
    (prefix extra_args : list str) : Result Z * P * Trap R :=
  match build_argv p (cur s) (entry_regs s) path_arg interp_host prog_guest prefix extra_args with
  | (inr e, _, p) => (inr e, p, s)
  | (inl _, _, p) => let s := no_action s in (inl 0, resume_run p s (cur s) 0, s)
  end.

(** ** Signals *)

Definition continue_group (p : P) (s : Trap R) (tid : Z) : P * Trap R :=
  let '(tg, x) := host_tgid_of (tgid_of p) (pids s) tid in
  let '(wake, x) := fold_left (fun '(l, x) t => let '(g, x) := host_tgid_of (tgid_of p) x t in
                                 (if g =? tg then l ++ [t] else l, x)) (elements (stopped s)) ([], x) in
  let s := with_pids s x in
  match wake with
  | [] => (p, s)
  | _ =>
      let s := with_stops s (stopped s ∖ list_to_set wake) (stop_owed s) in
      let p := fold_left (fun p t => resume_run p s t 0) wake p in
      let '(g, x) := gpid_of (pids s) tg in
      (p, push (with_pids s x) [ProcessTable.ev_cont g])
  end.

(** Queued with its sender, or plainly if the host refuses. *)
Definition send (p : P) (tid signum sender : Z) : option Z * P :=
  match (if signum =? 0 then send_thread p tid signum else send_queued p tid signum sender) with
  | (None, p) => (None, p)
  | (Some _, p) =>
      match send_thread p tid signum with
      | (None, p) => (None, p)
      | (Some _, p) => send_process p tid signum
      end
  end.

Definition deliver_to_tid (p : P) (s : Trap R) (tid signum : Z) : Z * P * Trap R :=
  let '(g, x) := gpid_of (pids s) (cur s) in
  let s := with_pids s x in
  match send p tid signum g with
  | (Some e, p) => (- errno_value (errno_from_host e), p, s)
  | (None, p) =>
      let '(p, s) := if signum =? SIGCONT then continue_group p s tid else (p, s) in
      (0, p, if signum =? SIGSTOP then with_stops s (stopped s) ({[tid]} ∪ stop_owed s) else s)
  end.

Fixpoint deliver_targets (p : P) (s : Trap R) (sig : Z) (ts : list Z) (delivered : nat) (first_err : Z)
    : nat * Z * P * Trap R :=
  match ts with
  | [] => (delivered, first_err, p, s)
  | t :: ts' =>
      let '(rc, p, s) := deliver_to_tid p s t sig in
      if rc =? 0 then deliver_targets p s sig ts' (S delivered) first_err
      else deliver_targets p s sig ts' delivered (if first_err =? 0 then rc else first_err)
  end.

Definition deliver_signal (p : P) (s : Trap R) (gp signum : Z) : Z * P * Trap R :=
  if gp <=? 0 then
    let '(targets, x) := group_targets (pids s) (cur s) gp in
    let '(n, e, p, s) := deliver_targets p (with_pids s x) signum targets 0 0 in
    (match n with O => if e =? 0 then - errno_value esrch else e | S _ => 0 end, p, s)
  else
    let tid := host_tid_of (pids s) gp in
    if tid <? 0 then (- errno_value esrch, p, s) else deliver_to_tid p s tid signum.

End trap.

(** * Counting the tasks *)

Section count.
Context {P R : Type} `{Tracer P R} `{RegView R} (a : Arch) (zero : R).

(** [live_] is the number of tasks. *)
Definition counted (s : Trap R) : Prop := live s = Z.of_nat (size (tasks s)).

Definition present (s : Trap R) (w : Z) : Prop := is_Some (tasks s !! w).

(** Reports the kernel makes of a task the backend knows: all but the first
    stop of a new one. *)
Definition expected (s : Trap R) (w : Z) (st : WStatus) : Prop :=
  match st with
  | ws_other => True
  | ws_exited _ | ws_signaled _ => present s w
  | ws_stopped sig event => event = EV_EXEC \/ event = EV_SECCOMP \/ sig = Z.lor SIGTRAP 0x80 -> present s w
  end.

Lemma set_task_counted s w t : counted s -> present s w -> counted (set_task s w t).
Proof.
  unfold counted, set_task. cbn. intros -> [t' Ht]. by rewrite map_size_insert_Some by eauto.
Qed.

Lemma set_task_present s w t v : present s v -> present (set_task s w t) v.
Proof. unfold present. cbn. intros Hv. rewrite lookup_insert_is_Some. destruct (decide (w = v)); auto. Qed.

Lemma adopt_counted s w : counted s -> counted (adopt s w).
Proof.
  unfold counted, adopt. destruct (tasks s !! w) eqn:E; [done|]. cbn. intros ->.
  rewrite map_size_insert_None by done. lia.
Qed.

Lemma adopt_present s w v : present s v -> present (adopt s w) v.
Proof.
  unfold present, adopt. destruct (tasks s !! w) eqn:E; [done|]. cbn. intros Hv.
  rewrite lookup_insert_is_Some. destruct (decide (w = v)); auto.
Qed.

(** A state with the same tasks. *)
Definition same_tasks (s s' : Trap R) : Prop := tasks s' = tasks s /\ live s' = live s.

#[local] Instance same_tasks_preorder : PreOrder same_tasks.
Proof. split; [done|]. intros s1 s2 s3 [A B] [C D]. split; congruence. Qed.

Lemma same_counted s s' : same_tasks s s' -> counted s -> counted s'.
Proof. unfold counted. by intros [-> ->]. Qed.

Lemma same_present s s' w : same_tasks s s' -> present s w -> present s' w.
Proof. unfold present. by intros [-> _]. Qed.

Lemma new_tracee_counted p s w e : counted s -> counted (new_tracee p s w e).
Proof.
  intros Hc. unfold new_tracee. destruct (_ =? 0); [done|]. apply (adopt_counted s (event_msg p w)) in Hc.
  destruct (negb _); [destruct (note_process _ _ _ _)|destruct (note_thread _ _ _ _)]; done.
Qed.

Lemma new_tracee_sync_ok p s w v e :
  counted s -> present s v -> counted (new_tracee_sync p s w e) /\ present (new_tracee_sync p s w e) v.
Proof.
  intros Hc Hp. unfold new_tracee_sync. destruct (_ =? 0); [done|].
  apply (adopt_counted s (event_msg p w)) in Hc. apply (adopt_present s (event_msg p w)) in Hp.
  destruct (negb _); [|by destruct (note_thread _ _ _ _)].
  destruct (host_tgid_of _ _ _) as [tg x]. destruct (gpid_of x tg) as [pg y].
  by destruct (gpid_of y (event_msg p w)).
Qed.

Lemma reap_counted p s w c : counted s -> present s w -> counted (reap p s w c).
Proof.
  intros Hc Hp. unfold reap. set (s1 := if _ =? _ then _ else _).
  assert (S1 : same_tasks s s1) by (unfold s1; by destruct (_ =? _)). clearbody s1.
  set (s2 := match gpid _ !! w with Some _ => _ | None => _ end).
  assert (S2 : same_tasks s s2).
  { unfold s2. destruct (gpid (pids s1) !! w) as [g|]; [|done]. by destruct (reparent_orphans_of _ _ _ _ _). }
  clearbody s2. unfold counted. cbn. destruct S2 as [-> ->]. destruct Hp as [t Ht].
  rewrite map_size_delete, Ht. rewrite Hc.
  assert (size (tasks s) <> O) by (intros E; apply map_size_empty_inv in E; rewrite E in Ht; done). lia.
Qed.

Lemma finalize_exit_ok p s w v :
  counted s -> present s w -> present s v ->
  counted (finalize_exit a zero p s w).2 /\ present (finalize_exit a zero p s w).2 v.
Proof.
  intros Hc Hw Hv. unfold finalize_exit. destruct (on_exit (task s w)) as [oe|].
  - unfold run_on_exit. destruct oe; cbn; (split; [by apply set_task_counted|by apply set_task_present]).
  - set (r := fetch zero p w). set (q := match action (task s w) with Some _ => _ | None => _ end).
    assert (Hq : same_tasks s q.2).
    { unfold q, translate_waitid, translate_ret. repeat case_match; done. }
    destruct q as [p1 s1]. cbn in Hq |- *. unfold end_call.
    pose proof (same_counted _ _ Hq Hc). pose proof (same_present _ _ _ Hq Hw). pose proof (same_present _ _ _ Hq Hv).
    split; [by apply set_task_counted|by apply set_task_present].
Qed.

Lemma enter_counted p s w rr : counted s -> present s w -> counted (enter a p s w rr).2.
Proof.
  intros Hc Hw. unfold enter. destruct (entry_args _ _ _); cbn; by apply (set_task_counted (with_cur s w (fired s))).
Qed.

Lemma on_syscall_stop_counted p s w : counted s -> present s w -> counted (on_syscall_stop a zero p s w).2.
Proof.
  intros Hc Hw. unfold on_syscall_stop. destruct (_ && _).
  - destruct (is_bootstrap _ _ _ _); [by apply set_task_counted|by apply enter_counted].
  - destruct (finalize_exit_ok p (set_task s w (task s w)) w w) as [Hf _];
      [by apply set_task_counted|by apply set_task_present|by apply set_task_present|].
    destruct (finalize_exit a zero p _ w) as [p1 s1]. exact Hf.
Qed.

Lemma on_signal_counted p s w sig :
  counted s -> (sig = Z.lor SIGTRAP 0x80 -> present s w) -> counted (on_signal a zero p s w sig).2.
Proof.
  intros Hc Hw. unfold on_signal.
  assert (Hs : forall q, (if (sig =? SIGSTOP) || (sig =? SIGTSTP) || (sig =? SIGTTIN) || (sig =? SIGTTOU)
             then on_stop_signal p s w sig else (None, s)) = q ->
             match q.1 with Some (_, s') => counted s' | None => same_tasks s q.2 end).
  { intros q <-. destruct (_ || _); [|done]. unfold on_stop_signal. pose proof (adopt_counted s w Hc).
    repeat case_match; try done; simplify_eq/=; done. }
  destruct (if _ || _ then _ else _) as [h s1] eqn:E. specialize (Hs _ eq_refl). cbn in Hs.
  destruct h as [[p1 s2]|]; [done|]. pose proof (same_counted _ _ Hs Hc) as Hc1.
  destruct (sig =? SIGTRAP).
  - unfold on_trap. pose proof (adopt_counted s1 w Hc1). repeat case_match; simplify_eq/=; done.
  - destruct (Z.eqb_spec sig (Z.lor SIGTRAP 0x80)) as [-> |]; [|done].
    apply on_syscall_stop_counted; [done|]. by apply (same_present _ _ _ Hs), Hw.
Qed.

Lemma on_status_counted p s w st :
  counted s -> expected s w st -> counted (on_status a zero p s w st).2.
Proof.
  intros Hc He. destruct st as [c|c|sig e|]; cbn [on_status expected] in *; [| | |done].
  1,2: match goal with |- context [reap ?q ?x ?v ?c] => pose proof (reap_counted q x v c Hc He) as Hr end;
    destruct (_ =? _); cbn; destruct (_ <=? 0); done.
  destruct (_ || _); [by apply new_tracee_counted|].
  destruct (Z.eqb_spec e EV_EXEC) as [-> |].
  - unfold on_exec. set (s1 := if w =? _ then _ else _).
    assert (S1 : same_tasks s s1) by (unfold s1; by destruct (_ =? _)). clearbody s1.
    destruct (gpid_of (pids s1) w) as [g x]. cbn. apply set_task_counted.
    + by apply (same_counted s).
    + apply (same_present s); [done|]. apply He. by left.
  - destruct (Z.eqb_spec e EV_SECCOMP) as [-> |].
    + unfold on_seccomp. destruct (is_bootstrap _ _ _ _); [done|]. apply enter_counted; [done|].
      apply He. by right; left.
    + apply on_signal_counted; [done|]. intros Hs. apply He. by right; right.
Qed.

(** Only the end of the last task ends the run. *)
Lemma drained_empty (p : P) (s : Trap R) (root : bool) :
  counted s ->
  let '(p', s') := if root then begin_drain p s else (p, s) in
  live s' <= 0 -> tasks s' = ∅.
Proof. unfold counted. intros Hc. destruct root; cbn; intros Hl; apply map_size_empty_inv; lia. Qed.

Lemma on_status_over p s w st :
  counted s -> expected s w st -> (on_status a zero p s w st).1.1 = over ->
  tasks (on_status a zero p s w st).2 = ∅.
Proof.
  intros Hc He. destruct st as [c|c|sig e|]; cbn [on_status expected] in *; [| | |done].
  1,2: match goal with |- context [reap ?q ?x ?v ?c] =>
      pose proof (drained_empty q _ (v =? root_pid (pids (reap q x v c))) (reap_counted q x v c Hc He)) as Hd end;
    destruct (if _ =? _ then _ else _) as [p1 s1]; destruct (Z.leb_spec (live s1) 0); [intros _; by apply Hd|done].
  unfold on_exec, on_seccomp, on_signal, on_syscall_stop, enter, fill_frame.
  repeat case_match; done.
Qed.

(** A task that is stepped is there until it ends. *)
Lemma step_loop_counted n : forall p s w h,
  counted s -> present s w -> counted (step_loop n p s w h).2.
Proof.
  induction n as [|n IH]; intros p s w h Hc Hw; cbn [step_loop]; [done|].
  destruct (wait_one p w) as [[st|] p1]; [|done]. destruct st as [c|c|sig e|]; [| | |done].
  1,2: match goal with |- context [reap ?q ?x ?v ?c] => pose proof (reap_counted q x v c Hc Hw) as Hr end;
    cbn; destruct (_ <=? 0); done.
  destruct (_ || _); [destruct (new_tracee_sync_ok p1 s w w e Hc Hw); by apply IH|].
  destruct (e =? EV_EXEC).
  { destruct (gpid_of (pids s) w) as [g x]. cbn. by apply (set_task_counted (push (with_pids s x) _)). }
  destruct (sig =? _); [destruct (h =? 0); [done|by apply set_task_counted]|].
  destruct (negb _ && negb _); by apply IH.
Qed.

End count.

(** * A kernel that plays back a script *)

Module Script.

(** The registers of the tasks, the reports to come, and the resumes done:
    the task, the signal, and whether it stops at the next syscall. *)
Record Script := { s_regs : gmap Z X86; reports : list (Z * WStatus); resumed : list (Z * Z * bool) }.

#[export] Instance script_ptrace : Ptrace Script X86 := {
  getregs p w := s_regs p !! w;
  setregs p w r := (None, {| s_regs := <[w := r]> (s_regs p); reports := reports p; resumed := resumed p |});
  set_system_call p _ _ := (None, p);
  peek _ _ _ := None;
  poke p _ _ _ := (true, p);
  vm_readv _ _ _ _ := None;
  vm_writev p _ _ bs := (Z.of_nat (length bs), p);
  mem _ _ _ := 0
}.

Definition resumed_with (p : Script) (w sig : Z) (stepping : bool) : Script :=
  {| s_regs := s_regs p; reports := reports p; resumed := resumed p ++ [(w, sig, stepping)] |}.

(** The next report of a task, with the others left. *)
Definition next_of (p : Script) (w : Z) : option WStatus * Script :=
  match reports p with
  | (v, st) :: l => if v =? w then (Some st, {| s_regs := s_regs p; reports := l; resumed := resumed p |})
                    else (None, p)
  | [] => (None, p)
  end.

#[export] Instance script_tracer : Tracer Script X86 := {
  wait_any p _ := match reports p with
                  | (w, st) :: l => (wa_report w st, {| s_regs := s_regs p; reports := l; resumed := resumed p |})
                  | [] => (wa_error, p)
                  end;
  wait_one := next_of;
  cont p w sig := resumed_with p w sig false;
  step p w sig := resumed_with p w sig true;
  event_msg _ _ := 0;
  siginfo _ _ := inl (0, 0);
  set_siginfo_pid p _ _ := p;
  tgid_of _ t := t;
  ppid_of _ _ := 0;
  comm_of _ _ := [];
  cmdline_of _ _ := [];
  kill_hard p _ := p;
  send_queued p _ _ _ := (None, p);
  send_thread p _ _ := (None, p);
  send_process p _ _ := (None, p)
}.

End Script.
Import Script.

(** * Properties *)


Definition one_task : Trap X86 := {|
  pids := fresh 100; tasks := {[ 100 := new_task ]}; stopped := ∅; stop_owed := ∅; events := []; cur := 100;
  booted_root := true; exit_code := 0; live := 1; exited := false; draining := false; seccomp := true;
  fired := []
|}.

Definition zero_regs : X86 := mkX86 0 0 0 0 0 0 0 0 0 0.
Definition idle_script : Script := {| s_regs := ∅; reports := []; resumed := [] |}.


Lemma task_set_task {R} (s : Trap R) w t : task (set_task s w t) w = t.
Proof. unfold task, set_task. cbn. by rewrite lookup_insert_eq. Qed.

(** A stop of a task in its call is taken for its exit. *)
Lemma exit_stop {P R} `{Tracer P R} `{RegView R} (a : Arch) (zero : R) (p : P) (s : Trap R) w :
  in_call (task s w) = true ->
  on_syscall_stop a zero p s w =
  (let '(p, s) := finalize_exit a zero p (set_task s w (task s w)) w in (go_on, resume_run p s w 0, s)).
Proof. intros Hin. unfold on_syscall_stop. by rewrite Hin, andb_false_r. Qed.

(** Without the seccomp filter, the call after a deferred one is never
    seen: finishing a call that left a callback does not mark the task as out
    of its call, so the next entry stop of the task is taken for an exit stop
    and resumed, and the call runs on the host untranslated. *)
Theorem call_after_deferred_runs_natively {P R : Type} `{Tracer P R} `{RegView R} (a : Arch) (zero : R)
    (p p2 : P) (s : Trap R) (w : Z) (t : Task) (oe : OnExit) :
  seccomp s = false -> tasks s !! w = Some t -> in_call t = true -> on_exit t = Some oe -> action t = None ->
  let r := fetch zero p2 w in
  i64 (ret r) = -38 -> decode a (nr r) <> waitid -> needs_out_fixup a r = false -> returns_pid a (nr r) = false ->
  let '(ans1, p1, s1) := on_syscall_stop a zero p s w in
  ans1 = go_on /\
  let '(ans2, p3, s2) := on_syscall_stop a zero p2 s1 w in
  ans2 = go_on /\ p3 = step p2 w 0.
Proof.
  intros Hsec Ht Hin Hoe Hact r Hret Hwait Hfix Hpid.
  assert (Et : task s w = t) by (unfold task; by rewrite Ht).
  rewrite exit_stop by (by rewrite Et). rewrite Et. unfold finalize_exit at 1. rewrite task_set_task, Hoe.
  destruct (run_on_exit zero p (set_task s w t) w oe) as [p1 s1] eqn:E1. split; [done|].
  assert (Hs1 : task s1 w = {| in_call := true; action := None; pending_sig := pending_sig t;
                              t_regs := t_regs t; on_exit := None |} /\ seccomp s1 = false).
  { revert E1. unfold run_on_exit. rewrite task_set_task, Hin, Hact.
    destruct oe; intros [= <- <-]; (split; [|done]); by rewrite ?task_set_task || (unfold task; cbn; by rewrite lookup_insert_eq). }
  destruct Hs1 as [Ht1 Hsec1]. rewrite exit_stop by (by rewrite Ht1). rewrite Ht1. unfold finalize_exit.
  rewrite task_set_task. cbn [on_exit action]. fold r. rewrite decide_False by done.
  unfold needs_out_fixup in Hfix. apply orb_false_elim in Hfix as [-> ->]. rewrite Hpid.
  split; [done|]. unfold resume_run. cbn. by rewrite Hsec1.
Qed.

(** Task 100 opened a FIFO and its next call is [open] (2) of a path. *)
Definition fifo_task : Trap X86 :=
  with_tasks (with_flags {| pids := fresh 100; tasks := ∅; stopped := ∅; stop_owed := ∅; events := []; cur := 100;
    booted_root := true; exit_code := 0; live := 1; exited := false; draining := false; seccomp := false;
    fired := [] |} true 0 false false)
    {[ 100 := {| in_call := true; action := None; pending_sig := 0; t_regs := None;
                 on_exit := Some (oe_deferred 0 9000 0) |} ]} 1.
Definition fifo_exit : Script := {| s_regs := {[ 100 := mkX86 0 0 0 0 0 0 3 2 0 0 ]}; reports := []; resumed := [] |}.
Definition fifo_next : Script :=
  {| s_regs := {[ 100 := mkX86 9000 0 0 0 0 0 (u64 (-38)) 2 0 0 ]}; reports := []; resumed := [] |}.

Lemma call_after_deferred_runs_natively_witness :
  let s1 := (on_syscall_stop x86_64 zero_regs fifo_exit fifo_task 100).2 in
  let '(ans, p3, _) := on_syscall_stop x86_64 zero_regs fifo_next s1 100 in
  ans = go_on /\ resumed p3 = [(100, 0, true)].
Proof.
  intros s1. pose proof (call_after_deferred_runs_natively x86_64 zero_regs fifo_exit fifo_next fifo_task 100
    {| in_call := true; action := None; pending_sig := 0; t_regs := None; on_exit := Some (oe_deferred 0 9000 0) |}
    (oe_deferred 0 9000 0) eq_refl eq_refl eq_refl eq_refl eq_refl) as H.
  specialize (H ltac:(vm_compute; reflexivity) ltac:(vm_compute; discriminate) ltac:(vm_compute; reflexivity)
    ltac:(vm_compute; reflexivity)).
  unfold s1. destruct (on_syscall_stop x86_64 zero_regs fifo_exit fifo_task 100) as [[ans1 p1] s1']. cbn [snd].
  destruct H as [_ H]. destruct (on_syscall_stop x86_64 zero_regs fifo_next s1' 100) as [[ans2 p3] s2].
  destruct H as [-> ->]. split; reflexivity.
Defined.

(** ** What stepping does *)

Lemma step_loop_cur {P R} `{Tracer P R} (n : nat) : forall (p : P) (s : Trap R) w h,
  cur (step_loop n p s w h).2 = cur s.
Proof.
  assert (Ha : forall (s : Trap R) x, cur (adopt s x) = cur s) by (intros; unfold adopt; by case_match).
  assert (Hn : forall p (s : Trap R) w e, cur (new_tracee_sync p s w e) = cur s).
  { intros p s w e. unfold new_tracee_sync. repeat case_match; cbn; rewrite ?Ha; done. }
  assert (Hr : forall p (s : Trap R) w c, cur (reap p s w c) = cur s).
  { intros p s w c. unfold reap. repeat case_match; done. }
  induction n as [|n IH]; intros p s w h; cbn [step_loop]; [done|].
  destruct (wait_one p w) as [[[c|c|sig e|]|] p1]; try done.
  1,2: cbn; match goal with |- context [if ?b then _ else _] => destruct b end; apply Hr.
  destruct (_ || _); [by rewrite IH, Hn|]. destruct (e =? EV_EXEC); [by destruct (gpid_of (pids s) w)|].
  destruct (sig =? _); [by destruct (h =? 0)|]. destruct (negb _ && negb _); apply IH.
Qed.

(** A redirected call hands the guest back the wrong pointer: nothing
    writes the registers between the exit stop and the resume, so if the
    host leaves the argument registers of a call alone, as Linux does, the
    guest goes on with its path register pointing into the scratch area
    below its stack instead of at its own string. *)
Theorem redirect_leaves_pointer {P R : Type} `{PtraceLaws P R} `{!Tracer P R} `{!RegView R} `{!RegLaws R}
    (zero : R) (p p1 p2 : P) (s s2 : Trap R) (path_arg : Z) (host_path : str) (n : nat) :
  let w := cur s in
  let r := entry_regs zero s in
  0 <= path_arg < 6 -> Z.of_nat (length host_path) + 1024 <= sp r < 2 ^ 64 ->
  place p w r path_arg host_path (-1) [] = (inl true, None, p1) ->
  step_to_exit n p1 s w = (Some true, p2, s2) ->
  arg (fetch zero p2 w) path_arg = arg (fetch zero p1 w) path_arg ->
  exists v sig s3, redirect zero n (fun _ (u : unit) p => (u, p)) tt p s path_arg host_path (-1) []
                   = Some (inl v, tt, resume_run p2 s3 w sig, s3) /\
  arg (fetch zero p2 w) path_arg = scratch_below (sp r) (Z.of_nat (length host_path) + 1).
Proof.
  intros w r Ha Hsp Hp Hs Hk.
  assert (Hc : cur s2 = w) by (pose proof (step_loop_cur n (step p1 w 0) s w 0) as Hx; unfold step_to_exit in Hs;
    by rewrite Hs in Hx).
  assert (Es : arg (fetch zero p1 w) path_arg = scratch_below (sp r) (Z.of_nat (length host_path) + 1)).
  { revert Hp. unfold place. set (c := scratch_below (sp r) _).
    destruct (poke_path p w c host_path true) as [[] q]; cbn [negb andb]; [|by destruct (setregs q w r)].
    change (0 <=? -1) with false. cbn [andb]. destruct (setregs q w (set_arg r path_arg c)) as [e q'] eqn:Eq.
    intros [= -> ->]. pose proof (setregs_get q w (set_arg r path_arg c)) as Hg. rewrite Eq in Hg.
    unfold fetch. cbn [fst snd] in Hg. rewrite Hg by done. by apply set_path_arg. }
  unfold redirect. fold w r. rewrite Hp. unfold finish_sync. fold w. rewrite Hs, Hc. cbn [cur not_in_call set_task with_tasks].
  unfold resume_task. rewrite Hc. cbn. rewrite Hc, lookup_insert_eq.
  eexists _, _, (set_task (not_in_call s2) w _). split; [reflexivity|congruence].
Qed.

#[local] Existing Instances Sim.sim_ptrace Sim.sim_laws.

(** A kernel that answers every stepped call with descriptor 3. *)
#[local] Instance opens_three : Tracer (Sim.Sim X86) X86 := {
  wait_any p _ := (wa_error, p);
  wait_one p _ := (Some (ws_stopped 133 0),
                   {| Sim.regs := (fun r => x86_set_rax r 3) <$> Sim.regs p; Sim.cells := Sim.cells p |});
  cont p _ _ := p;
  step p _ _ := p;
  event_msg _ _ := 0;
  siginfo _ _ := inl (0, 0);
  set_siginfo_pid p _ _ := p;
  tgid_of _ t := t;
  ppid_of _ _ := 0;
  comm_of _ _ := [];
  cmdline_of _ _ := [];
  kill_hard p _ := p;
  send_queued p _ _ _ := (None, p);
  send_thread p _ _ := (None, p);
  send_process p _ _ := (None, p)
}.

(** The task of [redirect_translates_witness] at the entry of its call. *)
Definition opening : Trap X86 :=
  set_task one_task 100 {| in_call := true; action := None; pending_sig := 0; t_regs := Some (open_regs 8000);
                           on_exit := None |}.

(** The guest passed 9000 and goes on with 7712. *)
Lemma redirect_leaves_pointer_witness :
  exists (p' : Sim.Sim X86) s', redirect zero_regs 1 (fun _ (u : unit) p => (u, p)) tt (open_task 8000) opening 1
                   (lit "/root/etc/shadow") (-1) [] = Some (inl 3, tt, p', s') /\
  rsi (open_regs 8000) = 9000 /\ rsi (fetch zero_regs p' 100) = 7712.
Proof.
  destruct (place (open_task 8000) 100 (open_regs 8000) 1 (lit "/root/etc/shadow") (-1) []) as [[r e] p1] eqn:E.
  assert (E2 : (place (open_task 8000) 100 (open_regs 8000) 1 (lit "/root/etc/shadow") (-1) []).1 = (inl true, None))
    by (vm_compute; reflexivity).
  rewrite E in E2. injection E2 as -> ->.
  pose proof (redirect_leaves_pointer zero_regs (open_task 8000) p1
    {| Sim.regs := (fun r => x86_set_rax r 3) <$> Sim.regs p1; Sim.cells := Sim.cells p1 |} opening opening
    1 (lit "/root/etc/shadow") 1) as H.
  destruct H as (v & sig & s3 & Hr & Hp); [lia|vm_compute; split; [discriminate|reflexivity]|exact E|reflexivity| |].
  { unfold fetch. cbn. destruct (Sim.regs p1) as [[]|]; reflexivity. }
  assert (Ev : (redirect zero_regs 1 (fun _ (u : unit) (p : Sim.Sim X86) => (u, p)) tt (open_task 8000) opening 1
    (lit "/root/etc/shadow") (-1) [] ≫= fun x => Some x.1.1.1) = Some (inl 3)) by (vm_compute; reflexivity).
  rewrite Hr in Ev. injection Ev as ->. eexists _, _. split; [exact Hr|]. split; [reflexivity|].
  unfold resume_run. cbn [cont step opens_three]. destruct (seccomp s3); (etransitivity; [exact Hp|vm_compute; reflexivity]).
Defined.

(** Of two signals that arrive while a call is stepped, the guest gets the
    second: SIGALRM and SIGCHLD come, and only SIGCHLD is pending. *)
Example held_signal_lost :
  let p := {| s_regs := ∅; reports := [(100, ws_stopped 14 0); (100, ws_stopped 17 0); (100, ws_stopped 133 0)];
              resumed := [] |} in
  let '(r, p', s') := step_to_exit 3 p one_task 100 in
  r = Some true /\ pending_sig (task s' 100) = 17 /\
  resumed p' = [(100, 0, true); (100, 0, true); (100, 0, true)].
Proof. vm_compute. done. Qed.

(** The root's death ends the tree, but not when the backend learns of it
    while stepping the root's call: then nothing drains the other tasks. *)
Example root_death_in_step :
  let s := adopt one_task 101 in
  draining (on_status x86_64 zero_regs idle_script s 100 (ws_exited 3)).2 = true /\
  (let '(r, _, s') := step_to_exit 1 {| s_regs := ∅; reports := [(100, ws_exited 3)]; resumed := [] |} s 100 in
   r = Some false /\ live s' = 1 /\ draining s' = false /\ exited s' = false).
Proof. vm_compute. done. Qed.

(** On aarch64 [ret] is [x0], which holds the first argument at an entry
    stop: without the filter no call whose first argument is not -38 is ever
    handed to the dispatcher, it runs as it is. *)
Lemma a64_entry_unseen {P} `{Tracer P A64} (zero : A64) (p : P) (s : Trap A64) w :
  i64 (x0 (fetch zero p w)) <> -38 ->
  (on_syscall_stop aarch64 zero p s w).1.1 = go_on.
Proof.
  intros Hx. unfold on_syscall_stop. cbn [ret a64_view].
  rewrite (proj2 (Z.eqb_neq _ _) Hx), andb_false_r. cbn [andb].
  by destruct (finalize_exit aarch64 zero p (set_task s w (task s w)) w).
Qed.

End PtraceTrap.
