(* ===== verification/ElfProbe.v ===== *)
(** The exec path's probes of a file ([loader/elf.hpp],
    [loader/interp.hpp]): the ELF headers, the interpreter an ELF names, a
    script's [#!] line, the instruction set, and [inspect_file_header], which
    answers all of them from one read.

    A file is what [fopen] and [fread] see of it: [None] when it cannot be
    opened, else its bytes.  [host_machine] is the instruction set the binary
    was built for. *)

From S2P Require Import Prelude Sysno GuestMem HostFs Dirents ProcState.
Import Sysno HostFs Access ProcState.

Module ElfProbe.

(** [std::fopen(path, "rb")] and the bytes behind it. *)
Definition contents `{HostFs F} (f : F) (p : str) : option (list Z) := bytes f <$> open_in f p.

(** [std::fread] of [n] bytes at a position. *)
Definition fread (bs : list Z) (at_ : Z) (n : nat) : list Z := take n (drop (Z.to_nat at_) bs).

(** ** Headers *)

(** [n] bytes at [off] of a packed structure. *)
Definition field (bs : list Z) (off n : nat) : Z := le_val (take n (drop off bs)).

Record Ehdr := {
  e_ident : list Z; e_type : Z; e_machine : Z; e_version : Z; e_entry : Z; e_phoff : Z; e_shoff : Z;
  e_flags : Z; e_ehsize : Z; e_phentsize : Z; e_phnum : Z; e_shentsize : Z; e_shnum : Z; e_shstrndx : Z
}.

Definition ehdr_of (bs : list Z) : Ehdr :=
  {| e_ident := take 16 bs; e_type := field bs 16 2; e_machine := field bs 18 2;
     e_version := field bs 20 4; e_entry := field bs 24 8; e_phoff := field bs 32 8;
     e_shoff := field bs 40 8; e_flags := field bs 48 4; e_ehsize := field bs 52 2;
     e_phentsize := field bs 54 2; e_phnum := field bs 56 2; e_shentsize := field bs 58 2;
     e_shnum := field bs 60 2; e_shstrndx := field bs 62 2 |}.

Record Phdr := {
  p_type : Z; p_flags : Z; p_offset : Z; p_vaddr : Z; p_paddr : Z; p_filesz : Z; p_memsz : Z; p_align : Z
}.

Definition phdr_of (bs : list Z) : Phdr :=
  {| p_type := field bs 0 4; p_flags := field bs 4 4; p_offset := field bs 8 8; p_vaddr := field bs 16 8;
     p_paddr := field bs 24 8; p_filesz := field bs 32 8; p_memsz := field bs 40 8; p_align := field bs 48 8 |}.

Definition sizeof_Ehdr : nat := 64.
Definition sizeof_Phdr : nat := 56.

Definition kMag : list Z := [0x7f; 0x45; 0x4c; 0x46].
Definition kClass64 : Z := 2.

Definition pt_load : Z := 1.
Definition pt_interp : Z := 3.
Definition pt_phdr : Z := 6.

Definition machine_value (a : Arch) : Z := match a with x86_64 => 62 | aarch64 => 183 end.

(** ** The interpreter of an ELF *)

(** [if (!s.empty() && s.back() == '\0') s.pop_back();] *)
Definition drop_nul (s : str) : str :=
  match rev s with
  | c :: r => if bool_decide (c = "000"%char) then rev r else s
  | [] => s
  end.

(** What the loop does with the segment that names an interpreter. *)
Definition interp_of (bs : list Z) (ph : Phdr) : str :=
  if (p_filesz ph =? 0) || (4096 <? p_filesz ph) then []
  else if i64 (p_offset ph) <? 0 then []
  else
    let n := Z.to_nat (p_filesz ph) in
    let got := fread bs (p_offset ph) n in
    if (length got =? n)%nat then drop_nul (text_of got) else [].

(** [n] more program headers, from the [i]th. *)
Fixpoint interp_loop (bs : list Z) (phoff : Z) (n i : nat) : str :=
  match n with
  | O => []
  | S n' =>
      let off := u64 (phoff + Z.of_nat i * Z.of_nat sizeof_Phdr) in
      if i64 off <? 0 then []
      else
        let got := fread bs off sizeof_Phdr in
        if negb (length got =? sizeof_Phdr)%nat then []
        else
          let ph := phdr_of got in
          if p_type ph =? pt_interp then interp_of bs ph
          else interp_loop bs phoff n' (S i)
  end.

Definition read_elf_interp (file : option (list Z)) : str :=
  match file with
  | None => []
  | Some bs =>
      let got := fread bs 0 sizeof_Ehdr in
      if negb (length got =? sizeof_Ehdr)%nat then []
      else
        let eh := ehdr_of got in
        if negb (bool_decide (take 4 (e_ident eh) = kMag)) then []
        else if negb (default 0 (e_ident eh !! 4%nat) =? kClass64) then []
        else if negb (e_phentsize eh =? Z.of_nat sizeof_Phdr) || (e_phnum eh =? 0) then []
        else if 256 <? e_phnum eh then []
        else interp_loop bs (e_phoff eh) (Z.to_nat (e_phnum eh)) 0
  end.

(** ** The [#!] line *)

Definition is_ws (c : Z) : bool := (c =? 32) || (c =? 9).

(** [while (i < n && p(line[i])) ++i], on what is left of the line. *)
Fixpoint skip (p : Z -> bool) (l : list Z) : list Z :=
  match l with
  | c :: l' => if p c then skip p l' else l
  | [] => []
  end.

(** What such a loop stepped over. *)
Fixpoint span (p : Z -> bool) (l : list Z) : list Z :=
  match l with
  | c :: l' => if p c then c :: span p l' else []
  | [] => []
  end.

(** [while (end > i && ws(line[end - 1])) --end]. *)
Definition rtrim (l : list Z) : list Z := rev (skip is_ws (rev l)).

Definition not_nl (c : Z) : bool := negb (c =? 10).

Record Shebang := { sb_interp : str; sb_arg : str }.

(** The line after [#!]: the interpreter and the rest as one argument. *)
Definition parse_line (l : list Z) : Shebang :=
  let l := skip is_ws l in
  let rest := skip is_ws (skip (fun c => negb (is_ws c)) l) in
  {| sb_interp := text_of (span (fun c => negb (is_ws c)) l); sb_arg := text_of (rtrim rest) |}.

Definition hash_bang : list Z := [35; 33].

Definition no_shebang : Shebang := {| sb_interp := []; sb_arg := [] |}.

Definition read_shebang (file : option (list Z)) : Shebang :=
  match file with
  | None => no_shebang
  | Some bs =>
      let line := fread bs 0 255 in
      if (length line <? 2)%nat || negb (bool_decide (take 2 line = hash_bang)) then no_shebang
      else parse_line (drop 2 (span not_nl line))
  end.

(** ** The instruction set *)

Inductive ForeignArch := native | foreign.

#[global] Instance ForeignArch_eq_dec : EqDecision ForeignArch.
Proof. solve_decision. Defined.

Section host.
Context (host_machine : Arch).

Definition read_elf_machine (file : option (list Z)) : ForeignArch :=
  match file with
  | None => native
  | Some bs =>
      let hdr := fread bs 0 20 in
      if negb (length hdr =? 20)%nat then native
      else if negb (bool_decide (take 4 hdr = kMag)) then native
      else if field hdr 18 2 =? machine_value host_machine then native else foreign
  end.

(** ** All of it at once *)

Inductive HeaderKind := unreadable | not_executable | foreign_elf | static_elf | dynamic_elf | script.

Record FileHeaderInfo := { kind : HeaderKind; machine : Z; interp : str; arg_ : str }.

Definition not_exec : FileHeaderInfo := {| kind := not_executable; machine := 0; interp := []; arg_ := [] |}.

Definition inspect_elf (file : option (list Z)) (hdr : list Z) : FileHeaderInfo :=
  if (length hdr <? 20)%nat then not_exec
  else
    let em := field hdr 18 2 in
    if negb (em =? machine_value host_machine)
    then {| kind := foreign_elf; machine := em; interp := []; arg_ := [] |}
    else
      let i := read_elf_interp file in
      {| kind := if bool_decide (i = []) then static_elf else dynamic_elf; machine := em;
         interp := i; arg_ := [] |}.

Definition inspect_script (hdr : list Z) : FileHeaderInfo :=
  let sh := parse_line (drop 2 (span not_nl hdr)) in
  if bool_decide (sb_interp sh = []) then not_exec
  else {| kind := script; machine := 0; interp := sb_interp sh; arg_ := sb_arg sh |}.

Definition inspect_file_header (file : option (list Z)) : FileHeaderInfo :=
  match file with
  | None => {| kind := unreadable; machine := 0; interp := []; arg_ := [] |}
  | Some bs =>
      let hdr := fread bs 0 256 in
      if (length hdr <? 4)%nat then not_exec
      else if bool_decide (take 4 hdr = kMag) then inspect_elf file hdr
      else if (2 <=? length hdr)%nat && bool_decide (take 2 hdr = hash_bang) then inspect_script hdr
      else not_exec
  end.

End host.

(** * Properties *)

Lemma fread_prefix (bs : list Z) (k n : nat) : (k <= n)%nat -> take k (fread bs 0 n) = take k bs.
Proof. intros Hk. unfold fread. cbn. rewrite drop_0, take_take. f_equal. lia. Qed.

Lemma fread_length (bs : list Z) (n : nat) : length (fread bs 0 n) = (n `min` length bs)%nat.
Proof. unfold fread. cbn. by rewrite drop_0, length_take. Qed.

(** Fields inside the part that was read. *)
Lemma field_prefix (bs : list Z) (n off k : nat) : (off + k <= n)%nat -> field (fread bs 0 n) off k = field bs off k.
Proof.
  intros Hk. unfold field, fread. cbn. rewrite drop_0. f_equal.
  rewrite skipn_firstn_comm, take_take. f_equal. lia.
Qed.

Lemma span_app (p : Z -> bool) (l r : list Z) : Forall (fun c => p c = true) l -> span p (l ++ r) = l ++ span p r.
Proof. induction 1 as [|c l Hc _ IH]; [done|]. cbn. by rewrite Hc, IH. Qed.

Lemma skip_app (p : Z -> bool) (l r : list Z) : Forall (fun c => p c = true) l -> skip p (l ++ r) = skip p r.
Proof. induction 1 as [|c l Hc _ IH]; [done|]. cbn. by rewrite Hc. Qed.

Lemma span_stop (p : Z -> bool) (c : Z) (l : list Z) : p c = false -> span p (c :: l) = [].
Proof. intros Hc. cbn. by rewrite Hc. Qed.

Lemma skip_stop (p : Z -> bool) (c : Z) (l : list Z) : p c = false -> skip p (c :: l) = c :: l.
Proof. intros Hc. cbn. by rewrite Hc. Qed.

(** A line that ends within the first [n] bytes reads the same through any
    wider window. *)
Lemma span_window (p : Z -> bool) (bs : list Z) (n m : nat) :
  (n <= m)%nat -> (length bs <= n)%nat \/ Exists (fun c => p c = false) (take n bs) ->
  span p (take m bs) = span p (take n bs).
Proof.
  intros Hnm. revert n m Hnm. induction bs as [|c bs IH]; intros n m Hnm Hl; [by rewrite !take_nil|].
  destruct n as [|n]; [cbn in Hl; destruct Hl as [?|Hx]; [lia|by apply Exists_nil in Hx]|].
  destruct m as [|m]; [lia|]. cbn. destruct (p c) eqn:E; [|done]. f_equal. apply IH; [lia|].
  cbn in Hl. destruct Hl as [?|Hx]; [left; lia|].
  apply Exists_cons in Hx as [Hx|Hx]; [congruence|by right].
Qed.

Lemma magic_not_bang (l : list Z) : take 4 l = kMag -> take 2 l <> hash_bang.
Proof. by destruct l as [|? [|? [|? [|? ?]]]]; intros [=]; subst. Qed.

Lemma interp_needs_magic (bs : list Z) :
  read_elf_interp (Some bs) <> [] -> (64 <= length bs)%nat /\ take 4 bs = kMag.
Proof.
  unfold read_elf_interp. rewrite fread_length. cbn [negb].
  destruct (Nat.eqb_spec (sizeof_Ehdr `min` length bs) sizeof_Ehdr) as [E|]; [|done].
  cbn [negb e_ident ehdr_of]. rewrite take_take.
  destruct (bool_decide_reflect (take (4 `min` 16) (fread bs 0 sizeof_Ehdr) = kMag)) as [Em|]; [|done].
  unfold sizeof_Ehdr in *. change (4 `min` 16)%nat with 4%nat in Em. rewrite fread_prefix in Em by lia.
  intros _. split; [lia|done].
Qed.

Lemma drop_nul_length (s : str) : (length (drop_nul s) <= length s)%nat.
Proof.
  unfold drop_nul. destruct (rev s) as [|c r] eqn:E; [done|]. case_bool_decide; [|done].
  pose proof (length_rev s) as L. rewrite E in L. cbn in L. rewrite length_rev. lia.
Qed.

Lemma interp_of_length (bs : list Z) (ph : Phdr) : (length (interp_of bs ph) <= Z.to_nat 4096)%nat.
Proof.
  unfold interp_of. destruct (_ || _) eqn:E; [cbn; lia|]. destruct (_ <? 0); [cbn; lia|].
  apply orb_false_iff in E as [_ E]. apply Z.ltb_ge in E. destruct (Nat.eqb_spec (length (fread bs (p_offset ph) (Z.to_nat (p_filesz ph)))) (Z.to_nat (p_filesz ph))) as [El|]; [|cbn; lia].
  etransitivity; [apply drop_nul_length|]. unfold text_of. rewrite length_map, El. lia.
Qed.

Lemma interp_loop_length (bs : list Z) (phoff : Z) (n i : nat) :
  (length (interp_loop bs phoff n i) <= Z.to_nat 4096)%nat.
Proof.
  revert i. induction n as [|n IH]; intros i; cbn [interp_loop]; [cbn; lia|].
  destruct (_ <? 0); [cbn; lia|]. destruct (negb _); [cbn; lia|].
  destruct (_ =? _); [apply interp_of_length|apply IH].
Qed.

(** Whether the line, or the file, ends within what [read_shebang] reads. *)
Definition line_in_window (bs : list Z) : Prop :=
  (length bs <= 255)%nat \/ Exists (fun c => not_nl c = false) (take 255 bs).

Lemma shebang_inspected (bs : list Z) :
  (4 <= length bs)%nat -> line_in_window bs -> take 2 bs = hash_bang ->
  read_shebang (Some bs) = parse_line (drop 2 (span not_nl (fread bs 0 256))).
Proof.
  intros Hl Hw Hb. unfold read_shebang. rewrite fread_length, fread_prefix, Hb by lia.
  rewrite bool_decide_true by done. destruct (Nat.ltb_spec (255 `min` length bs) 2); [lia|]. cbn [orb negb].
  do 2 f_equal. unfold fread. change (Z.to_nat 0) with 0%nat. rewrite !drop_0.
  symmetry. apply span_window; [lia|exact Hw].
Qed.

Lemma shebang_needs_bang (bs : list Z) :
  sb_interp (read_shebang (Some bs)) <> [] -> take 2 bs = hash_bang.
Proof.
  unfold read_shebang. rewrite fread_prefix by lia. destruct (_ <? _)%nat; [done|]. cbn [orb].
  destruct (bool_decide_reflect (take 2 bs = hash_bang)); [done|]. done.
Qed.

(** The three probes [path_exec] makes, in its order, as one verdict. *)
Definition probes (host_machine : Arch) (file : option (list Z)) : HeaderKind * str * str :=
  let sh := read_shebang file in
  match read_elf_machine host_machine file, read_elf_interp file, sb_interp sh with
  | foreign, _, _ => (foreign_elf, [], [])
  | native, (_ :: _) as i, _ => (dynamic_elf, i, [])
  | native, [], (_ :: _) as i => (script, i, sb_arg sh)
  | native, [], [] => (static_elf, [], [])
  end.

(** A file that is neither is run as it is. *)
Definition launched (k : HeaderKind) : HeaderKind :=
  match k with not_executable => static_elf | k => k end.

(** [inspect_file_header], the single read that is to replace the exec
    path's three probes, gives their verdict: for every file of four bytes or
    more whose first line (or whose end) lies within the 255 bytes
    [read_shebang] looks at, the kind it reports (a file it calls not
    executable being launched as it is), the interpreter and the argument
    are those of [read_elf_machine], [read_elf_interp] and [read_shebang]
    asked in that order. *)
Theorem inspect_is_probes (host_machine : Arch) (bs : list Z) :
  (4 <= length bs)%nat -> line_in_window bs ->
  let i := inspect_file_header host_machine (Some bs) in
  (launched (kind i), interp i, arg_ i) = probes host_machine (Some bs).
Proof.
  intros Hl Hw. unfold inspect_file_header, probes. rewrite !fread_length, !fread_prefix by lia.
  destruct (Nat.ltb_spec (256 `min` length bs) 4) as [|_]; [lia|].
  destruct (bool_decide_reflect (take 4 bs = kMag)) as [Hm|Hm].
  - unfold inspect_elf, read_elf_machine. rewrite !fread_length, !fread_prefix by lia.
    rewrite (bool_decide_true (take 4 bs = kMag)) by done. rewrite !field_prefix by lia. cbn [negb].
    assert (Hs : sb_interp (read_shebang (Some bs)) = []).
    { destruct (sb_interp _) eqn:E; [done|]. exfalso. apply (magic_not_bang bs Hm).
      apply shebang_needs_bang. by rewrite E. }
    destruct (Nat.ltb_spec (256 `min` length bs) 20), (Nat.eqb_spec (20 `min` length bs) 20);
      try lia; cbn [negb].
    + destruct (read_elf_interp (Some bs)) eqn:E; [by rewrite Hs|].
      destruct (interp_needs_magic bs) as [? _]; [by rewrite E|lia].
    + destruct (field bs 18 2 =? machine_value host_machine); [|done]. cbn [negb].
      destruct (read_elf_interp (Some bs)); by rewrite ?Hs.
  - assert (Hi : read_elf_interp (Some bs) = []).
    { destruct (read_elf_interp _) eqn:E; [done|]. exfalso. apply Hm. apply interp_needs_magic. by rewrite E. }
    assert (Hn : read_elf_machine host_machine (Some bs) = native).
    { unfold read_elf_machine. rewrite !fread_prefix, (bool_decide_false (take 4 bs = kMag)) by (done || lia).
      by destruct (negb _). }
    rewrite Hi, Hn. destruct (Nat.leb_spec 2 (256 `min` length bs)); [|lia]. cbn [andb].
    destruct (bool_decide_reflect (take 2 bs = hash_bang)) as [Hb|Hb].
    + rewrite (shebang_inspected bs) by done. unfold inspect_script.
      destruct (sb_interp _) eqn:E; [by rewrite bool_decide_true|]. by rewrite bool_decide_false.
    + destruct (sb_interp (read_shebang (Some bs))) eqn:E; [done|]. exfalso. apply Hb.
      apply shebang_needs_bang. by rewrite E.
Qed.

(** The bytes of a word of a [#!] line, and of blanks. *)
Definition clean (l : list Z) : Prop := Forall (fun c => is_ws c = false /\ not_nl c = true) l.
Definition blanks (l : list Z) : Prop := Forall (fun c => is_ws c = true) l.
Definition in_line (l : list Z) : Prop := Forall (fun c => not_nl c = true) l.

Lemma blanks_in_line (l : list Z) : blanks l -> in_line l.
Proof.
  intros Hb. eapply Forall_impl; [exact Hb|]. intros c. unfold is_ws, not_nl. rewrite orb_true_iff, negb_true_iff, !Z.eqb_eq, Z.eqb_neq. lia.
Qed.

Lemma clean_in_line (l : list Z) : clean l -> in_line l.
Proof. intros Hb. eapply Forall_impl; [exact Hb|]. by intros c [_ ?]. Qed.

Lemma rtrim_blanks (l r : list Z) :
  blanks r -> (forall c, last l = Some c -> is_ws c = false) -> rtrim (l ++ r) = l.
Proof.
  intros Hr Hl. unfold rtrim. rewrite rev_app_distr, skip_app by (by apply Forall_rev).
  destruct l as [|c l _] using rev_ind; [done|]. rewrite rev_app_distr. cbn [rev app].
  rewrite skip_stop by (apply Hl; by rewrite last_snoc). by rewrite <- rev_unit, rev_involutive.
Qed.

Lemma parse_line_words (w1 w2 w3 i a : list Z) :
  blanks w1 -> blanks w2 -> blanks w3 -> clean i -> i <> [] -> (w2 <> [] \/ a ++ w3 = []) ->
  (forall c, head a = Some c -> is_ws c = false) -> (forall c, last a = Some c -> is_ws c = false) ->
  parse_line (w1 ++ i ++ w2 ++ a ++ w3) = {| sb_interp := text_of i; sb_arg := text_of a |}.
Proof.
  intros H1 H2 H3 Hi Hne Hw Hh Hl. unfold parse_line. rewrite skip_app by done.
  assert (Ei : skip is_ws (i ++ w2 ++ a ++ w3) = i ++ w2 ++ a ++ w3).
  { destruct i as [|c i]; [done|]. apply skip_stop. by apply Forall_inv in Hi as [? _]. }
  rewrite Ei. rewrite span_app, skip_app by (eapply Forall_impl; [exact Hi|]; intros c [-> _]; done).
  assert (Es : span (fun c => negb (is_ws c)) (w2 ++ a ++ w3) = [] /\
               skip (fun c => negb (is_ws c)) (w2 ++ a ++ w3) = w2 ++ a ++ w3).
  { destruct w2 as [|c w2]; [destruct Hw as [?| ->]; done|]. apply Forall_inv in H2.
    cbn. by rewrite H2. }
  destruct Es as [-> ->]. rewrite app_nil_r, skip_app by done. f_equal. f_equal.
  destruct a as [|c a]; [|].
  - cbn [app]. replace (skip is_ws w3) with (@nil Z); [done|].
    clear -H3. induction H3 as [|c l Hc _ IH]; [done|]. cbn. by rewrite Hc.
  - cbn [app]. rewrite skip_stop by (by apply Hh). by apply (rtrim_blanks (c :: a) w3).
Qed.

(** A [#!] line reads back as it was written: for an interpreter without
    blanks and an argument that neither starts nor ends with one, any blanks
    around them, and a line that fits the 255 bytes that are read,
    [read_shebang] gives the interpreter and the whole rest of the line as a
    single argument, whatever follows the line. *)
Theorem shebang_round_trip (w1 w2 w3 i a rest : list Z) :
  let line := hash_bang ++ w1 ++ i ++ w2 ++ a ++ w3 in
  blanks w1 -> blanks w2 -> blanks w3 -> clean i -> i <> [] -> in_line a -> (w2 <> [] \/ a ++ w3 = []) ->
  (forall c, head a = Some c -> is_ws c = false) -> (forall c, last a = Some c -> is_ws c = false) ->
  (length line <= 254)%nat ->
  read_shebang (Some (line ++ 10 :: rest)) = {| sb_interp := text_of i; sb_arg := text_of a |}.
Proof.
  intros line H1 H2 H3 Hi Hne Ha Hw Hh Hl Hlen.
  assert (Hin : in_line line).
  { apply Forall_app_2; [by repeat constructor|].
    repeat apply Forall_app_2; first [done|by apply blanks_in_line|by apply clean_in_line]. }
  assert (El : span not_nl (fread (line ++ 10 :: rest) 0 255) = line).
  { unfold fread. change (Z.to_nat 0) with 0%nat. rewrite drop_0, take_app_ge by lia.
    rewrite span_app by done. destruct (255 - length line)%nat eqn:E; [lia|]. cbn. by rewrite app_nil_r. }
  unfold read_shebang. rewrite El, fread_length, fread_prefix by lia.
  destruct (Nat.ltb_spec (255 `min` length (line ++ 10 :: rest)) 2) as [Hx|_].
  { rewrite length_app in Hx. cbn in Hx. lia. }
  rewrite (bool_decide_true (_ = hash_bang)) by done. cbn [orb negb].
  change (drop 2 line) with (w1 ++ i ++ w2 ++ a ++ w3). by apply parse_line_words.
Qed.

Lemma shebang_round_trip_witness :
  read_shebang (Some (hash_bang ++ [32] ++ [47; 98] ++ [9; 32] ++ [45; 32; 120] ++ [32] ++ 10 :: [99]))
  = {| sb_interp := lit "/b"; sb_arg := lit "- x" |}.
Proof.
  apply (shebang_round_trip [32] [9; 32] [32] [47; 98] [45; 32; 120] [99]);
    try (by repeat constructor); try (by left); try (by intros c [= <-]); done.
Defined.

Lemma inspect_is_probes_witness :
  let bs := hash_bang ++ [47; 98; 32; 45; 120; 10] in
  inspect_file_header x86_64 (Some bs)
    = {| kind := script; machine := 0; interp := lit "/b"; arg_ := lit "-x" |} /\
  (launched script, lit "/b", lit "-x") = probes x86_64 (Some bs).
Proof.
  intros bs. assert (E : inspect_file_header x86_64 (Some bs)
    = {| kind := script; machine := 0; interp := lit "/b"; arg_ := lit "-x" |}) by reflexivity.
  split; [exact E|]. pose proof (inspect_is_probes x86_64 bs) as P. cbv zeta in P. rewrite E in P.
  apply P; [cbn; lia|left; cbn; lia].
Defined.

(** The two disagree on a script shorter than four bytes. *)
Lemma tiny_script_diverges :
  let bs := hash_bang ++ [98] in
  sb_interp (read_shebang (Some bs)) = lit "b" /\ kind (inspect_file_header x86_64 (Some bs)) = not_executable.
Proof. by split. Qed.

(** ** The interpreter found *)

(** The [i]th program header of a file. *)
Definition phdr_at (bs : list Z) (phoff : Z) (i : nat) : Phdr :=
  phdr_of (fread bs (phoff + Z.of_nat i * Z.of_nat sizeof_Phdr) sizeof_Phdr).

Lemma fread_full (bs : list Z) (at_ : Z) (n : nat) :
  0 <= at_ -> at_ + Z.of_nat n <= Z.of_nat (length bs) -> length (fread bs at_ n) = n.
Proof. intros H0 Hn. unfold fread. rewrite length_take, length_drop. lia. Qed.

Lemma interp_loop_finds (bs : list Z) (phoff : Z) (n i k : nat) :
  0 <= phoff -> (k < n)%nat -> Z.of_nat (length bs) < 2 ^ 63 ->
  phoff + Z.of_nat (i + k + 1) * Z.of_nat sizeof_Phdr <= Z.of_nat (length bs) ->
  (forall j, (j < k)%nat -> p_type (phdr_at bs phoff (i + j)) <> pt_interp) ->
  p_type (phdr_at bs phoff (i + k)) = pt_interp ->
  interp_loop bs phoff n i = interp_of bs (phdr_at bs phoff (i + k)).
Proof.
  intros H0. revert i k. induction n as [|n IH]; intros i k Hk Hb Hin Hj Hp; [lia|]. cbn [interp_loop].
  unfold sizeof_Phdr in *. rewrite u64_small, i64_small by lia.
  destruct (Z.ltb_spec (phoff + Z.of_nat i * Z.of_nat 56) 0); [lia|].
  rewrite fread_full by lia. rewrite Nat.eqb_refl. cbn [negb].
  change (phdr_of (fread bs (phoff + Z.of_nat i * Z.of_nat 56) 56)) with (phdr_at bs phoff i).
  destruct k as [|k].
  - rewrite Nat.add_0_r in *. by rewrite Hp.
  - destruct (Z.eqb_spec (p_type (phdr_at bs phoff i)) pt_interp) as [E|_].
    + exfalso. apply (Hj 0%nat); [lia|]. by rewrite Nat.add_0_r.
    + rewrite <- Nat.add_succ_comm in *. apply IH; [lia|done|lia| |done].
      intros j Hlt. specialize (Hj (S j) ltac:(lia)). by rewrite <- Nat.add_succ_comm in Hj.
Qed.

(** The interpreter an ELF names is found: for a 64-bit ELF with at most
    256 program headers of the standard size, whose first PT_INTERP is the
    [k]th, lies in the file and has between 1 and 4096 bytes there,
    [read_elf_interp] is exactly those bytes of the file without a final
    NUL, whatever the headers after it are. *)
Theorem interp_found (bs : list Z) (k : nat) :
  let n := field bs 56 2 in
  let phoff := field bs 32 8 in
  let ph := phdr_at bs phoff k in
  Forall is_byte bs -> (64 <= length bs)%nat -> Z.of_nat (length bs) < 2 ^ 63 ->
  take 4 bs = kMag -> bs !! 4%nat = Some kClass64 -> field bs 54 2 = Z.of_nat sizeof_Phdr ->
  Z.of_nat k < n <= 256 -> phoff + Z.of_nat (k + 1) * Z.of_nat sizeof_Phdr <= Z.of_nat (length bs) ->
  (forall j, (j < k)%nat -> p_type (phdr_at bs phoff j) <> pt_interp) -> p_type ph = pt_interp ->
  0 < p_filesz ph <= 4096 -> 0 <= p_offset ph -> p_offset ph + p_filesz ph <= Z.of_nat (length bs) ->
  read_elf_interp (Some bs)
  = drop_nul (text_of (take (Z.to_nat (p_filesz ph)) (drop (Z.to_nat (p_offset ph)) bs))).
Proof.
  intros n phoff ph Hby Hl Hlt Hm Hc Hs Hk Hin Hj Hp Hf H0 Ho.
  unfold read_elf_interp. rewrite fread_length. unfold sizeof_Ehdr, sizeof_Phdr in *.
  rewrite Nat.min_l by lia. rewrite Nat.eqb_refl. cbn [negb ehdr_of e_ident e_phentsize e_phnum e_phoff].
  rewrite take_take, !field_prefix by lia. change (4 `min` 16)%nat with 4%nat.
  rewrite !fread_prefix, Hm, bool_decide_true by (lia || done). cbn [negb].
  rewrite lookup_take_lt, Hc, Hs by lia. cbn [default negb].
  change (kClass64 =? kClass64) with true. rewrite Z.eqb_refl. cbn [negb orb]. fold n.
  destruct (Z.eqb_spec n 0); [lia|]. destruct (Z.ltb_spec 256 n); [lia|]. fold phoff.
  rewrite (interp_loop_finds bs phoff _ 0 k); try done; try lia.
  - change (phdr_at bs phoff (0 + k)) with ph. unfold interp_of.
    destruct (Z.eqb_spec (p_filesz ph) 0); [lia|]. destruct (Z.ltb_spec 4096 (p_filesz ph)); [lia|].
    rewrite i64_small by lia. destruct (Z.ltb_spec (p_offset ph) 0); [lia|]. cbn [orb].
    rewrite fread_full by lia. by rewrite Nat.eqb_refl.
  - apply (le_val_range (take 8 (drop 32 bs))). by apply Forall_take, Forall_drop.
Qed.

(** A small ELF: a loadable segment, then the interpreter [/l]. *)
Definition ex_ehdr : list Z :=
  kMag ++ [2; 1; 1; 0] ++ replicate 8 0 ++ le_bytes 2 3 ++ le_bytes 2 62 ++ le_bytes 4 1 ++ le_bytes 8 0x1000
  ++ le_bytes 8 64 ++ le_bytes 8 0 ++ le_bytes 4 0 ++ le_bytes 2 64 ++ le_bytes 2 56 ++ le_bytes 2 2
  ++ le_bytes 2 0 ++ le_bytes 2 0 ++ le_bytes 2 0.
Definition ex_phdr (t off filesz : Z) : list Z :=
  le_bytes 4 t ++ le_bytes 4 5 ++ le_bytes 8 off ++ le_bytes 8 0x1000 ++ le_bytes 8 0 ++ le_bytes 8 filesz
  ++ le_bytes 8 filesz ++ le_bytes 8 0x1000.
Definition ex_elf : list Z := ex_ehdr ++ ex_phdr 1 0 176 ++ ex_phdr 3 176 3 ++ [47; 108; 0].

Lemma interp_found_witness : read_elf_interp (Some ex_elf) = lit "/l".
Proof.
  refine (eq_trans (interp_found ex_elf 1 _ _ _ _ _ _ _ _ _ _ _ _ _) _);
    try (vm_compute; (reflexivity || lia)).
  - apply (bool_decide_unpack _). vm_compute. exact I.
  - split; [reflexivity|]. vm_compute. discriminate.
  - vm_compute. discriminate.
  - intros j Hj. assert (j = 0)%nat as -> by lia. vm_compute. discriminate.
  - split; [reflexivity|]. vm_compute. discriminate.
  - vm_compute. discriminate.
  - vm_compute. discriminate.
Defined.

End ElfProbe.
