(* ===== verification/PathArgs.v ===== *)
(** How the dispatcher reads and resolves path arguments
    ([include/linuxity/abi/syscall.hpp], the helpers of [Syscalls] that the
    path handlers share).

    [Sys] is the state a handler works on and [Call] the monad of handlers:
    state passing, with [None] for the uncaught exception [absolutize] can
    raise.  The fields [me] and [host_tid] of [Sys] are what the tracing
    backend says of the calling task.  [access] is the one host call the core
    makes here that [HostFs] does not have; [HostAccess] adds it.  The fuel of
    [read_cstr] is enough because every round that does not end the string
    adds a character, and the string ends above 4096 of them. *)

From S2P Require Import Prelude Sysno Abi Dispatch Paths CText GuestMem HostFs Whiteouts MetaStore LinkTable Dirents Namespace NamespaceSafety ProcessTable JobControl ProcState PathResolve.
Import Sysno Abi Dispatch Paths CText HostFs Whiteouts Mounts Overlay ProcState.

Module PathArgs.

(** [access] with X_OK and with F_OK: 0 or the errno. *)
Class HostAccess (F : Type) := { access_x : F -> str -> Z; access_f : F -> str -> Z }.

(** * State and monad *)

Record Pending := {
  pending_open : str; pending_flags : Z; pending_dir : bool; pending_lazy : str;
  pending_entries : list Dirents.VirtualDirent
}.

Definition no_pending : Pending :=
  {| pending_open := []; pending_flags := 0; pending_dir := false; pending_lazy := [];
     pending_entries := [] |}.

(** An emulated FIFO: descriptors ([-1] for none), and the tasks retrying a
    blocking open with the time of their last try. *)
Record EmuFifo := {
  anchor : Z; hold_r : Z; hold_w : Z; wait_r : gmap Z Z; wait_w : gmap Z Z
}.

Definition no_fifo : EmuFifo := {| anchor := -1; hold_r := -1; hold_w := -1; wait_r := ∅; wait_w := ∅ |}.

(** What the dispatcher and the kernel model behind it hold; [me] and
    [host_tid] are the calling task's identities. *)
Record Sys (F M : Type) := mkSys {
  world : World (F := F);
  procs : Procs;
  ptable : ProcessTable.Table;
  mem : M;
  me : TaskIdentity;
  host_tid : Z;
  sock_placeholders : gset str;
  pending : Pending;
  fifos : gmap (Z * Z) EmuFifo;
  fifo_release : list Z;
  links_work : gmap Z bool;
  guest_mounts : gset str;
  fg_pgrp : gmap Z Z
}.
Arguments mkSys {F M}.
Arguments world {F M}.
Arguments procs {F M}.
Arguments ptable {F M}.
Arguments mem {F M}.
Arguments me {F M}.
Arguments host_tid {F M}.
Arguments sock_placeholders {F M}.
Arguments pending {F M}.
Arguments fifos {F M}.
Arguments fifo_release {F M}.
Arguments links_work {F M}.
Arguments guest_mounts {F M}.
Arguments fg_pgrp {F M}.

Definition Call (F M A : Type) : Type := Sys F M -> option (A * Sys F M).

#[global] Instance call_ret {F M} : MRet (Call F M) := fun A x s => Some (x, s).
#[global] Instance call_bind {F M} : MBind (Call F M) := fun A B f m s =>
  match m s with
  | Some (x, s) => f x s
  | None => None
  end.

Lemma bind_run {F M A B} (m : Call F M A) (k : A -> Call F M B) (s : Sys F M) :
  (m ≫= k) s = match m s with Some (x, s) => k x s | None => None end.
Proof. reflexivity. Qed.

Section state.
Context {F M : Type}.

Definition with_world (s : Sys F M) (w : World (F := F)) : Sys F M :=
  mkSys w (procs s) (ptable s) (mem s) (me s) (host_tid s) (sock_placeholders s) (pending s)
    (fifos s) (fifo_release s) (links_work s) (guest_mounts s) (fg_pgrp s).
Definition with_procs (s : Sys F M) (p : Procs) : Sys F M :=
  mkSys (world s) p (ptable s) (mem s) (me s) (host_tid s) (sock_placeholders s) (pending s)
    (fifos s) (fifo_release s) (links_work s) (guest_mounts s) (fg_pgrp s).
Definition with_ptable (s : Sys F M) (t : ProcessTable.Table) : Sys F M :=
  mkSys (world s) (procs s) t (mem s) (me s) (host_tid s) (sock_placeholders s) (pending s)
    (fifos s) (fifo_release s) (links_work s) (guest_mounts s) (fg_pgrp s).
Definition with_mem (s : Sys F M) (m : M) : Sys F M :=
  mkSys (world s) (procs s) (ptable s) m (me s) (host_tid s) (sock_placeholders s) (pending s)
    (fifos s) (fifo_release s) (links_work s) (guest_mounts s) (fg_pgrp s).
Definition with_socks (s : Sys F M) (k : gset str) : Sys F M :=
  mkSys (world s) (procs s) (ptable s) (mem s) (me s) (host_tid s) k (pending s)
    (fifos s) (fifo_release s) (links_work s) (guest_mounts s) (fg_pgrp s).
Definition with_pending (s : Sys F M) (p : Pending) : Sys F M :=
  mkSys (world s) (procs s) (ptable s) (mem s) (me s) (host_tid s) (sock_placeholders s) p
    (fifos s) (fifo_release s) (links_work s) (guest_mounts s) (fg_pgrp s).
Definition with_fifos (s : Sys F M) (f : gmap (Z * Z) EmuFifo) : Sys F M :=
  mkSys (world s) (procs s) (ptable s) (mem s) (me s) (host_tid s) (sock_placeholders s) (pending s)
    f (fifo_release s) (links_work s) (guest_mounts s) (fg_pgrp s).
Definition with_release (s : Sys F M) (l : list Z) : Sys F M :=
  mkSys (world s) (procs s) (ptable s) (mem s) (me s) (host_tid s) (sock_placeholders s) (pending s)
    (fifos s) l (links_work s) (guest_mounts s) (fg_pgrp s).
Definition with_links_work (s : Sys F M) (k : gmap Z bool) : Sys F M :=
  mkSys (world s) (procs s) (ptable s) (mem s) (me s) (host_tid s) (sock_placeholders s) (pending s)
    (fifos s) (fifo_release s) k (guest_mounts s) (fg_pgrp s).
Definition with_guest_mounts (s : Sys F M) (k : gset str) : Sys F M :=
  mkSys (world s) (procs s) (ptable s) (mem s) (me s) (host_tid s) (sock_placeholders s) (pending s)
    (fifos s) (fifo_release s) (links_work s) k (fg_pgrp s).
Definition with_fg_pgrp (s : Sys F M) (f : gmap Z Z) : Sys F M :=
  mkSys (world s) (procs s) (ptable s) (mem s) (me s) (host_tid s) (sock_placeholders s) (pending s)
    (fifos s) (fifo_release s) (links_work s) (guest_mounts s) f.

Definition get : Call F M (Sys F M) := fun s => Some (s, s).
Definition update (f : Sys F M -> Sys F M) : Call F M unit := fun s => Some (tt, f s).

(** [if (const Errno e = ...; e != Errno::ok) return eno(e);] *)
Definition unless_errno (e : option Errno) (k : Call F M Fate) : Call F M Fate :=
  match e with Some e => mret (error e) | None => k end.

End state.

(** * Text *)

Definition starts_with (p pre : str) : bool := bool_decide (take (length pre) p = pre).
Definition ends_with (p suf : str) : bool :=
  (length suf <=? length p)%nat && bool_decide (drop (length p - length suf) p = suf).

(** [s.find(c, from)]. *)
Fixpoint find_char (c : ascii) (s : str) : option nat :=
  match s with
  | [] => None
  | x :: s' => if decide (x = c) then Some 0%nat else S <$> find_char c s'
  end.
Definition find_from (c : ascii) (s : str) (from : nat) : option nat :=
  Nat.add from <$> find_char c (drop from s).

(** [std::to_string] of an [int]. *)
Definition to_string (n : Z) : str := if n <? 0 then "-"%char :: print_dec (- n) else print_dec n.

Definition atoi_safe (s : str) : Z :=
  if bool_decide (s = []) || negb (forallb JobControl.is_digit s) then -1
  else fold_left (fun v c => i32 (v * 10 + JobControl.digit_of c)) s 0.

(** * Reading a string *)

Section read.
Context {M : Type} `{GuestMem M} (m : M).

Definition kPage : Z := 4096.
Definition max_str : nat := Z.to_nat 4096.

(** Append characters up to a NUL; [true] when the string is complete. *)
Fixpoint push_chars (bs : list Z) (s : str) : str * bool :=
  match bs with
  | [] => (s, false)
  | b :: bs' =>
      if b =? 0 then (s, true)
      else let s := s ++ [char_of b] in
           if (max_str <? length s)%nat then (s, true) else push_chars bs' s
  end.

(** One byte at a time, after a fault. *)
Fixpoint push_bytes (n : nat) (a : Z) (s : str) : str * bool :=
  match n with
  | O => (s, false)
  | S n' =>
      match copy_in m (u64 a) 1 with
      | None => (s, true)
      | Some bs => match push_chars bs s with
                   | (s, true) => (s, true)
                   | (s, false) => push_bytes n' (a + 1) s
                   end
      end
  end.

Fixpoint read_loop (fuel : nat) (a : Z) (s : str) : option str :=
  match fuel with
  | O => None
  | S fuel' =>
      let to_page := kPage - Z.land (u64 a) (kPage - 1) in
      let want := Z.to_nat (if to_page <? 64 then to_page else 64) in
      let r := match copy_in m (u64 a) want with
               | Some bs => push_chars bs s
               | None => push_bytes want a s
               end in
      match r with
      | (s, true) => Some s
      | (s, false) => read_loop fuel' (a + Z.of_nat want) s
      end
  end.

Definition read_cstr (a : Z) : str := default [] (read_loop (S (S max_str)) a []).

End read.

(** * Syntax of a path *)

Inductive PathSyntax := ps_ok | ps_empty | ps_needs_dir.

Definition path_syntax (raw : str) : PathSyntax :=
  match raw with
  | [] => ps_empty
  | _ => if (1 <? length raw)%nat && bool_decide (last raw = Some slash) then ps_needs_dir else ps_ok
  end.

Inductive DotTail := dt_none | dt_dot | dt_dotdot.

(** [remove_suffix] of slashes, one character always kept. *)
Fixpoint drop_slashes (rev : str) : str :=
  match rev with
  | [] => []
  | x :: rest => if bool_decide (x = slash) && negb (bool_decide (rest = [])) then drop_slashes rest else rev
  end.

Definition dot_tail (p : str) : DotTail :=
  let p := reverse (drop_slashes (reverse p)) in
  if bool_decide (p = dot) || ends_with p (slash :: dot) then dt_dot
  else if bool_decide (p = dotdot) || ends_with p (slash :: dotdot) then dt_dotdot
  else dt_none.

Definition virtual_is_writable (p : str) : bool := ends_with p (lit "/comm").

Inductive VMut := vm_create | vm_exists | vm_remove | vm_meta.

Definition virtual_mut_errno (abs : str) (op : VMut) : Errno :=
  match op with
  | vm_create => enoent
  | vm_exists => eexist
  | vm_meta => eperm
  | vm_remove =>
      let body := skip_slashes abs in
      let at_root := match find_char slash body with
                     | None => true
                     | Some k => bool_decide (find_from slash body (S k) = None)
                     end in
      if at_root then eacces else eperm
  end.

Definition access_errno (e : Z) : Errno :=
  if e =? errno_value eacces then eacces
  else if e =? errno_value eloop then eloop
  else if e =? errno_value enotdir then enotdir
  else if e =? errno_value enametoolong then enametoolong
  else enoent.

Definition path_is_ancestor (anc p : str) : bool :=
  negb (bool_decide (anc = [])) && negb (bool_decide (p = []))
  && (length anc <? length p)%nat && bool_decide (take (length anc) p = anc)
  && (bool_decide (p !! length anc = Some slash) || bool_decide (last anc = Some slash)).

(** * Helpers on the state *)

Section helpers.
Context {F M : Type} `{HostFs F} `{HostAccess F} `{GuestMem M} (io : bool).
Notation C := (Call F M).

Definition cstr_arg (r : Regs) (i : nat) : C str := fun s => Some (read_cstr (mem s) (arg r i), s).

Definition fd_path (fd : Z) : C str := fun s =>
  let '(p, ps) := path_of_fd (procs s) fd in Some (p, with_procs s ps).

Definition do_classify (abs : str) (for_write follow : bool) (wi : WriteIntent) : C PathClass := fun s =>
  let '(pc, w) := classify io (world s) abs for_write follow wi in Some (pc, with_world s w).

(** The default arguments: a read that follows. *)
Definition classify_read (abs : str) : C PathClass := do_classify abs false true copy_leaf.

Definition do_absolutize (path dir : str) : C str := fun s =>
  match PathResolve.absolutize io (world s) (cwd (procs s)) path dir with
  | Some p => Some (p, s)
  | None => None
  end.

Definition dir_of (dirfd : Z) : C str :=
  let fd := i32 dirfd in if fd =? kAtFdCwd then mret [] else fd_path fd.

Definition at_dirfd_unresolvable (r : Regs) (raw : str) : C bool :=
  if i32 (arg r 0) =? kAtFdCwd then mret false
  else if bool_decide (raw = []) || bool_decide (head raw = Some slash) then mret false
  else d ← dir_of (arg r 0); mret (bool_decide (d = [])).

Definition null_path_arg (r : Regs) (path_arg : nat) : bool := arg r path_arg =? 0.

Definition empty_cstr_arg (r : Regs) (path_arg : nat) : C bool :=
  p ← cstr_arg r path_arg; mret (negb (null_path_arg r path_arg) && bool_decide (p = [])).

(** [flags_arg] is the register of a flags word, or negative. *)
Definition empty_path_arg (r : Regs) (path_arg : nat) (flags_arg : Z) : C bool :=
  if null_path_arg r path_arg then mret false
  else p ← cstr_arg r path_arg;
       if negb (bool_decide (p = [])) then mret false
       else mret (negb ((0 <=? flags_arg) && has_at (arg r (Z.to_nat flags_arg)) empty_path)).

Definition removedir_flag (r : Regs) (path_arg : nat) (at_ rmdir_syscall : bool) : bool :=
  if at_ then has_at (arg r (S path_arg)) removedir else rmdir_syscall.

(** ** Questions to the host *)

Definition unsearchable (f : F) (p : str) : bool := access_x f p =? errno_value eacces.

Definition dot_traversal_denied (f : F) (raw host_path : str) : bool :=
  match dot_tail raw with
  | dt_none => false
  | _ => negb (bool_decide (host_path = [])) && unsearchable f host_path
  end.

(** The text before the last separator, if there is one after the start. *)
Definition parent_of (p : str) : option str :=
  match rfind slash p with
  | None | Some O => None
  | Some k => Some (take k p)
  end.

Definition is_directory_at (f : F) (p : str) : option bool :=
  match stat f p with inl nd => Some (is_directory nd) | inr _ => None end.

Definition host_dir_searchable (f : F) (p : str) : bool :=
  match parent_of p with
  | None => true
  | Some parent => match is_directory_at f parent with
                   | Some true => access_x f parent =? 0
                   | _ => true
                   end
  end.

Definition parent_is_dir (f : F) (p : str) : bool :=
  match parent_of p with
  | None => true
  | Some parent => default true (is_directory_at f parent)
  end.

(** [None], or the errno the code stores through [why]. *)
Definition host_lexists (f : F) (p : str) : option Errno :=
  match p with
  | [] => Some enoent
  | _ => match lstat f p with inl _ => None | inr e => Some (access_errno e) end
  end.

Definition host_target_exists (f : F) (p : str) : option Errno :=
  match p with
  | [] => Some enoent
  | _ => if access_f f p =? 0 then None else Some (access_errno (access_f f p))
  end.

Definition parent_resolves (f : F) (p : str) : option Errno :=
  match parent_of p with
  | None => None
  | Some parent => if access_f f parent =? 0 then None else Some (access_errno (access_f f parent))
  end.

Definition host_path_is_symlink (f : F) (p : str) : bool :=
  match p with [] => false | _ => match lstat f p with inl nd => is_link nd | inr _ => false end end.

Definition host_path_is_dir_nofollow (f : F) (p : str) : bool :=
  match p with [] => false | _ => match lstat f p with inl nd => is_directory nd | inr _ => false end end.

Definition host_path_is_regular (f : F) (p : str) : bool :=
  match p with
  | [] => false
  | _ => match stat f p with inl nd => bool_decide (n_kind nd = KReg) | inr _ => false end
  end.

Definition host_path_is_dir (f : F) (p : str) : bool :=
  match p with [] => false | _ => default false (is_directory_at f p) end.

Definition resolve_failure_errno (guest_abs : str) (fallback : Errno) : C Errno :=
  mapped ← do_classify guest_abs false false copy_leaf;
  s ← get;
  match host_path mapped with
  | [] => mret fallback
  | hp => let e := access_f (host (world s)) hp in
          if e =? 0 then mret fallback
          else mret (if decide (access_errno e = enoent) then fallback else access_errno e)
  end.

Definition guest_prefix_loop (guest_abs : str) : C (option Errno) :=
  match parent_of guest_abs with
  | None => mret None
  | Some p => pc ← classify_read p; mret (if decide (pc_error pc = eloop) then Some eloop else None)
  end.

(** ** The walk before a dot component *)

Definition dir_base (r : Regs) (at_ : bool) : C str :=
  d ← (if at_ then dir_of (arg r 0) else mret []);
  s ← get;
  match d with
  | [] => mret (match cwd (procs s) with [] => [slash] | c => c end)
  | _ => mret d
  end.

(** The position of the first [.] or [..]. *)
Fixpoint first_dot (cs : list str) : option nat :=
  match cs with
  | [] => None
  | c :: cs' => if bool_decide (c = dot) || bool_decide (c = dotdot) then Some 0%nat
                else S <$> first_dot cs'
  end.

(** Each component up to the dot must be a directory that can be searched. *)
Fixpoint walk_prefix (cur : str) (cs : list str) : C (option Errno) :=
  match cs with
  | [] => mret None
  | c :: cs' =>
      let cur := (if bool_decide (cur = []) || negb (bool_decide (last cur = Some slash))
                  then cur ++ [slash] else cur) ++ c in
      pc ← classify_read (normalize cur);
      s ← get;
      match realm pc, host_path pc with
      | host_backed, (_ :: _) as hp =>
          let f := host (world s) in
          match stat f hp with
          | inr e => mret (Some (access_errno e))
          | inl nd => if negb (is_directory nd) then mret (Some enotdir)
                      else if unsearchable f hp then mret (Some eacces)
                      else walk_prefix cur cs'
          end
      | _, _ => walk_prefix cur cs'
      end
  end.

Definition dot_prefix_error (r : Regs) (path_arg : nat) (at_ : bool) : C (option Errno) :=
  raw ← cstr_arg r path_arg;
  if negb (bool_decide ("."%char ∈ raw)) then mret None
  else
    let comps := components raw in
    let start := if decide (head raw = Some slash) then mret [slash] else dir_base r at_ in
    match first_dot comps with
    | None => mret None
    | Some O =>
        if (1 <? length comps)%nat then mret None
        else
          base ← start;
          pc ← classify_read base;
          s ← get;
          match realm pc, host_path pc with
          | host_backed, (_ :: _) as hp =>
              mret (if unsearchable (host (world s)) hp then Some eacces else None)
          | _, _ => mret None
          end
    | Some n => base ← start; walk_prefix base (take n comps)
    end.

(** ** Links of /proc *)

Context (live : option ProcessTable.LiveSource).

Definition proc_dir : str := lit "/proc/".

(** [/proc/<pid|self|thread-self>/{exe,cwd,root}] *)
Definition proc_is_link (p : str) : bool :=
  starts_with p proc_dir &&
  match rfind slash p with
  | None => false
  | Some k =>
      let leaf := drop (S k) p in
      let who := take (k - 6) (drop 6 p) in
      (bool_decide (leaf = lit "exe") || bool_decide (leaf = lit "cwd") || bool_decide (leaf = lit "root"))
      && (bool_decide (who = lit "self") || bool_decide (who = lit "thread-self")
          || (negb (bool_decide (who = [])) && forallb JobControl.is_digit who))
  end.

(** [argv[0]] of the process table's entry, if it is absolute. *)
Definition exe_of (pid : Z) : C str := fun s =>
  match ProcessTable.find live (ptable s) pid with
  | None => None
  | Some None => Some ([], s)
  | Some (Some pi) =>
      let a0 := c_str (ProcessTable.p_cmdline pi) in
      Some (if bool_decide (head a0 = Some slash) && negb (bool_decide (a0 = lit "(spawning)")) then a0 else [], s)
  end.

Definition host_fd_deleted (s : Sys F M) (fd : Z) : bool :=
  match lstat (host (world s)) (proc_dir ++ to_string (host_tid s) ++ lit "/fd/" ++ to_string fd) with
  | inl nd => match n_kind nd with KLnk t => ends_with (take (Z.to_nat 4096) t) (lit " (deleted)") | _ => false end
  | inr _ => false
  end.

Definition proc_symlink_target (abs : str) : C str :=
  s ← get;
  let id := me s in
  if decide (abs = lit "/proc/self/exe") then exe_of (pid id)
  else if negb (starts_with abs proc_dir) then mret []
  else
    let rest := drop 6 abs in
    match find_char slash rest with
    | None => mret []
    | Some k =>
        let who := take k rest in
        let tail := drop (S k) rest in
        let pid_ := if bool_decide (who = lit "self") || bool_decide (who = lit "thread-self")
                    then pid id else atoi_safe who in
        if negb (0 <? pid_) then mret []
        else if decide (tail = lit "exe") then exe_of pid_
        else if decide (tail = lit "cwd") then mret (cwd (procs s))
        else if decide (tail = lit "root") then mret [slash]
        else if starts_with tail (lit "fd/") && (pid_ =? pid id) then
          let fd := atoi_safe (drop 3 tail) in
          if 0 <=? fd then
            gp ← fd_path fd;
            match gp with
            | [] => mret []
            | _ => mret (gp ++ if host_fd_deleted s fd then lit " (deleted)" else [])
            end
          else mret []
        else mret []
    end.

(** [pre], or a path below it. *)
Definition at_prefix (abs pre : str) : bool := bool_decide (abs = pre) || starts_with abs (pre ++ [slash]).

Definition bind_proc_self (id : TaskIdentity) (abs : str) : str :=
  if negb (starts_with abs proc_dir) then abs
  else
    let self := lit "/proc/self" in
    let own := proc_dir ++ to_string (pid id) in
    let folded := find (fun pl => at_prefix abs (pl.1 ++ pl.2))
                    [(self, lit "/fd"); (self, lit "/fdinfo"); (own, lit "/fd"); (own, lit "/fdinfo")] in
    match folded with
    | Some (who, leaf) => self ++ leaf ++ drop (length (who ++ leaf)) abs
    | None =>
        if at_prefix abs self then own ++ drop (length self) abs
        else
          let ts := lit "/proc/thread-self" in
          if at_prefix abs ts
          then own ++ lit "/task/" ++ to_string (tid id) ++ drop (length ts) abs
          else abs
    end.

Definition expand_proc_links (abs : str) (follow_leaf : bool) : C str :=
  if negb (starts_with abs proc_dir) then mret abs
  else match find_from slash abs 6 with
       | None => mret abs
       | Some s1 =>
           let s2 := find_from slash abs (S s1) in
           let link := match s2 with Some k => take k abs | None => abs end in
           if negb (proc_is_link link) then mret abs
           else if bool_decide (s2 = None) && negb follow_leaf then mret abs
           else
             tgt ← proc_symlink_target link;
             if negb (bool_decide (head tgt = Some slash)) then mret abs
             else mret (normalize (tgt ++ match s2 with Some k => drop k abs | None => [] end))
       end.

(** ** From a register to a guest path *)

Definition resolve_raw (r : Regs) (raw : str) (at_ follow_leaf : bool) : C str :=
  dir ← (if at_ then dir_of (arg r 0) else mret []);
  abs ← do_absolutize raw dir;
  s ← get;
  expand_proc_links (bind_proc_self (me s) abs) follow_leaf.

Definition resolve_arg (r : Regs) (path_arg : nat) (at_ follow_leaf : bool) : C str :=
  raw ← cstr_arg r path_arg; resolve_raw r raw at_ follow_leaf.

(** The dirfd of a second path is the register before it. *)
Definition resolve_second (r : Regs) (path_arg : nat) (at_ : bool) : C str :=
  raw ← cstr_arg r path_arg;
  dir ← (if at_ then dir_of (arg r (path_arg - 1)) else mret []);
  do_absolutize raw dir.

End helpers.

(** * Reading strings: lemmas *)

Section reading.
Context {M : Type} `{GuestMem M}.

Lemma byte_char c : char_of (Dirents.byte_of c) = c.
Proof. unfold char_of, Dirents.byte_of. rewrite N2Z.id. apply ascii_N_embedding. Qed.

Lemma byte_nul c : Dirents.byte_of c = 0 <-> c = nul.
Proof.
  split; [|by intros ->]. intros E. rewrite <- (byte_char c), E. reflexivity.
Qed.

Lemma byte_range c : is_byte (Dirents.byte_of c).
Proof. unfold is_byte, Dirents.byte_of. pose proof (N_ascii_bounded c). lia. Qed.

(** A chunk is made of its bytes. *)
Lemma copy_in_byte (m : M) n : forall a bs i b,
  copy_in m a n = Some bs -> bs !! i = Some b -> copy_in m (a + Z.of_nat i) 1 = Some [b].
Proof.
  intros a bs i b E Hi. pose proof (copy_in_bytes _ _ _ _ E) as [El _].
  pose proof (lookup_lt_Some _ _ _ Hi) as Hlt.
  replace n with (i + (1 + (n - S i)))%nat in E by lia.
  rewrite !copy_in_app in E. destruct (copy_in m a i) as [x|] eqn:Ex; [|done].
  destruct (copy_in m (a + Z.of_nat i) 1) as [y|] eqn:Ey; [|done].
  destruct (copy_in m _ (n - S i)) as [z|]; [|done]. injection E as <-.
  apply copy_in_bytes in Ex as [Lx _]. pose proof (copy_in_bytes _ _ _ _ Ey) as [Ly _].
  rewrite lookup_app_r in Hi by lia. rewrite Lx, Nat.sub_diag in Hi.
  destruct y as [|y0 [|]]; cbn in Ly, Hi; [lia|by injection Hi as ->|lia].
Qed.

(** [m] holds the C string [cs] at [a], read a byte at a time. *)
Definition holds (m : M) (a : Z) (cs : str) : Prop :=
  (forall i c, cs !! i = Some c -> copy_in m (a + Z.of_nat i) 1 = Some [Dirents.byte_of c]) /\
  copy_in m (a + Z.of_nat (length cs)) 1 = Some [0].

Lemma holds_tail m a cs k : holds m a cs -> (k <= length cs)%nat -> holds m (a + Z.of_nat k) (drop k cs).
Proof.
  intros [Hc Hz] Hk. split.
  - intros i c Hi. rewrite lookup_drop in Hi. rewrite <- (Hc _ _ Hi). f_equal. lia.
  - rewrite length_drop, <- Hz. f_equal. lia.
Qed.

(** The characters read so far, and whether the string has ended. *)
Definition progress (cs : str) (s : str) (n : nat) : str * bool :=
  if (n <=? length cs)%nat then (s ++ take n cs, false) else (s ++ cs, true).

Lemma push_chars_spec cs : forall bs s,
  nul ∉ cs -> (length s + length cs <= max_str)%nat ->
  (forall i b, bs !! i = Some b -> (i <= length cs)%nat ->
     b = match cs !! i with Some c => Dirents.byte_of c | None => 0 end) ->
  push_chars bs s = progress cs s (length bs).
Proof.
  induction cs as [|c cs IH]; intros bs s Hn Hl Hb; destruct bs as [|b bs]; unfold progress; cbn [push_chars length].
  1,3: by rewrite app_nil_r.
  - rewrite (Hb 0%nat b) by (done || cbn; lia). cbn. by rewrite app_nil_r.
  - apply not_elem_of_cons in Hn as [Hc Hn]. cbn [length] in Hl.
    rewrite (Hb 0%nat b) by (done || cbn; lia). cbn [lookup list_lookup].
    rewrite (proj2 (Z.eqb_neq _ _)) by (by rewrite byte_nul). rewrite byte_char.
    rewrite (proj2 (Nat.ltb_ge _ _)) by (rewrite length_app; cbn; lia).
    rewrite IH; [|done|rewrite length_app; cbn; lia|].
    + unfold progress. change (S (length bs) <=? S (length cs))%nat with (length bs <=? length cs)%nat.
      destruct (_ <=? _)%nat; cbn [take]; by rewrite <- app_assoc.
    + intros i b' Hi Hle. apply (Hb (S i) b' Hi). cbn. lia.
Qed.

Lemma push_bytes_spec m n : forall a cs s,
  nul ∉ cs -> (length s + length cs <= max_str)%nat -> holds m a cs -> 0 <= a ->
  a + Z.of_nat (length cs) < 2 ^ 64 -> push_bytes m n a s = progress cs s n.
Proof.
  induction n as [|n IH]; intros a cs s Hn Hl Hh Ha Hmax; cbn [push_bytes]; unfold progress; cbn [Nat.leb take].
  { by rewrite app_nil_r. }
  rewrite u64_small by lia. pose proof Hh as [Hc Hz]. destruct cs as [|c cs].
  - cbn [length] in Hz. rewrite Z.add_0_r in Hz. rewrite Hz. cbn. by rewrite app_nil_r.
  - pose proof (Hc 0%nat c eq_refl) as E. rewrite Z.add_0_r in E. rewrite E. cbn [length] in Hl, Hmax.
    rewrite (push_chars_spec [c]); [|set_solver|cbn; lia|].
    2: { intros [|[|i]] b Hi Hle; cbn in *; [by injection Hi as <-|done|lia]. }
    cbn [progress length Nat.leb take].
    rewrite (IH (a + 1) cs); [|set_solver|rewrite length_app; cbn; lia| |lia|lia].
    + unfold progress. destruct (n <=? length cs)%nat; by rewrite <- app_assoc.
    + apply (holds_tail _ _ _ 1) in Hh; [exact Hh|cbn; lia].
Qed.

Lemma want_range a :
  let to_page := kPage - Z.land (u64 a) (kPage - 1) in
  (1 <= Z.to_nat (if (to_page <? 64)%Z then to_page else 64%Z))%nat.
Proof.
  intros to_page. assert (0 <= Z.land (u64 a) (kPage - 1) < kPage).
  { change (kPage - 1) with (Z.ones 12). rewrite Z.land_ones by lia. by apply Z.mod_pos_bound. }
  unfold to_page, kPage in *. destruct (Z.ltb_spec (4096 - Z.land (u64 a) (4096 - 1)) 64); lia.
Qed.

Lemma read_loop_spec m fuel : forall a cs s,
  nul ∉ cs -> (length s + length cs <= max_str)%nat -> holds m a cs -> 0 <= a ->
  a + Z.of_nat (length cs) < 2 ^ 64 -> (length cs < fuel)%nat -> read_loop m fuel a s = Some (s ++ cs).
Proof.
  induction fuel as [|fuel IH]; intros a cs s Hn Hl Hh Ha Hmax Hf; [lia|]. cbn [read_loop].
  pose proof (want_range a) as Hw. cbv zeta in Hw |- *. set (want := Z.to_nat _) in *. clearbody want.
  assert (Er : match copy_in m (u64 a) want with
               | Some bs => push_chars bs s | None => push_bytes m want a s end = progress cs s want).
  { rewrite u64_small by lia. destruct (copy_in m a want) as [bs|] eqn:E; [|by apply push_bytes_spec].
    pose proof (copy_in_bytes _ _ _ _ E) as [<- _]. apply push_chars_spec; [done..|].
    intros i b Hi Hle. pose proof (copy_in_byte m _ _ _ _ _ E Hi) as E1. destruct Hh as [Hc Hz].
    destruct (cs !! i) as [c|] eqn:Ei; [rewrite (Hc _ _ Ei) in E1; by injection E1 as <-|].
    apply lookup_ge_None in Ei. assert (i = length cs) as -> by lia. rewrite Hz in E1. by injection E1 as <-. }
  rewrite Er. unfold progress. destruct (Nat.leb_spec want (length cs)); [|done].
  rewrite (IH _ (drop want cs)).
  - by rewrite <- app_assoc, take_drop.
  - intros Hin. apply Hn. rewrite <- (take_drop want cs), elem_of_app. by right.
  - rewrite length_app, length_take, length_drop. lia.
  - by apply holds_tail.
  - lia.
  - rewrite length_drop. lia.
  - rewrite length_drop. lia.
Qed.

Lemma push_chars_no_nul bs : forall s s' b,
  Forall is_byte bs -> push_chars bs s = (s', b) -> nul ∉ s -> nul ∉ s'.
Proof.
  induction bs as [|x bs IH]; intros s s' b Hb; cbn [push_chars]; [by intros [= <- <-]|].
  apply Forall_cons in Hb as [Hx Hb]. destruct (Z.eqb_spec x 0); [by intros [= <- <-]|].
  assert (forall s, nul ∉ s -> nul ∉ s ++ [char_of x]).
  { intros s0 H0. rewrite not_elem_of_app. split; [done|]. intros Hin.
    apply list_elem_of_singleton, (f_equal Dirents.byte_of) in Hin. revert Hin.
    unfold char_of, Dirents.byte_of. unfold is_byte in Hx. rewrite N_ascii_embedding by lia. cbn. lia. }
  destruct (_ <? _)%nat; [intros [= <- <-]; eauto|]. eauto.
Qed.

Lemma push_bytes_no_nul m n : forall a s s' b, push_bytes m n a s = (s', b) -> nul ∉ s -> nul ∉ s'.
Proof.
  induction n as [|n IH]; intros a s s' b; cbn [push_bytes]; [by intros [= <- <-]|].
  destruct (copy_in m (u64 a) 1) as [bs|] eqn:Ec; [|by intros [= <- <-]].
  apply copy_in_bytes in Ec as [_ Hb]. destruct (push_chars bs s) as [s1 [|]] eqn:E;
    intros E' Hs; eapply push_chars_no_nul in E; eauto. by injection E' as <- <-.
Qed.

Lemma read_loop_no_nul m fuel : forall a s s', read_loop m fuel a s = Some s' -> nul ∉ s -> nul ∉ s'.
Proof.
  induction fuel as [|fuel IH]; intros a s s' E Hs; [done|]. cbn [read_loop] in E. cbv zeta in E.
  set (want := Z.to_nat _) in *. clearbody want.
  assert (Hg : forall s' b, match copy_in m (u64 a) want with
               | Some bs => push_chars bs s | None => push_bytes m want a s end = (s', b) -> nul ∉ s').
  { intros s1 b. destruct (copy_in m (u64 a) want) as [bs|] eqn:E0; intros E'.
    - apply copy_in_bytes in E0 as [_ E0]. by eapply push_chars_no_nul.
    - by eapply push_bytes_no_nul. }
  destruct (match copy_in m (u64 a) want with Some bs => _ | None => _ end) as [s1 [|]];
    [injection E as <-|]; eauto.
Qed.

(** A round ends the string or makes it longer. *)
Lemma push_chars_grows bs : forall s s' b,
  push_chars bs s = (s', b) -> (length s <= max_str)%nat ->
  (length s' <= S max_str)%nat /\ (b = false -> (length s' <= max_str)%nat /\ length s' = length s + length bs)%nat.
Proof.
  induction bs as [|x bs IH]; intros s s' b; cbn [push_chars].
  { intros [= <- <-] Hs. cbn [length]. split; [lia|]. intros _. lia. }
  destruct (x =? 0); [by intros [= <- <-]; split; [lia|]|].
  destruct (Nat.ltb_spec max_str (length (s ++ [char_of x]))) as [Hlt|Hge].
  - intros [= <- <-] Hs. rewrite length_app. cbn. split; [lia|done].
  - intros E Hs. apply IH in E as [E1 E2]; [|done]. split; [done|]. intros Hb.
    destruct (E2 Hb) as [E3 E4]. split; [done|]. rewrite E4, length_app. cbn. lia.
Qed.

Lemma push_bytes_grows m n : forall a s s' b,
  push_bytes m n a s = (s', b) -> (length s <= max_str)%nat ->
  (length s' <= S max_str)%nat /\ (b = false -> (length s' <= max_str)%nat /\ length s' = length s + n)%nat.
Proof.
  induction n as [|n IH]; intros a s s' b; cbn [push_bytes].
  { intros [= <- <-] Hs. split; [lia|]. intros _. lia. }
  destruct (copy_in m (u64 a) 1) as [bs|] eqn:Ec; [|by intros [= <- <-]; split; [lia|]].
  apply copy_in_bytes in Ec as [Lb _].
  destruct (push_chars bs s) as [s1 [|]] eqn:E; intros E' Hs; apply push_chars_grows in E as [E1 E2]; try done.
  - injection E' as <- <-. done.
  - destruct (E2 eq_refl) as [E3 E4]. apply IH in E' as [E5 E6]; [|done]. split; [done|].
    intros Hb. destruct (E6 Hb) as [E7 E8]. split; [done|]. lia.
Qed.

Lemma read_loop_total m fuel : forall a s,
  (length s <= max_str)%nat -> (max_str < length s + fuel)%nat ->
  exists s', read_loop m fuel a s = Some s' /\ (length s' <= S max_str)%nat.
Proof.
  induction fuel as [|fuel IH]; intros a s Hs Hf; [lia|]. cbn [read_loop].
  pose proof (want_range a) as Hw. cbv zeta in Hw |- *. set (want := Z.to_nat _) in *. clearbody want.
  assert (Hg : forall s' b, match copy_in m (u64 a) want with
               | Some bs => push_chars bs s | None => push_bytes m want a s end = (s', b) ->
               (length s' <= S max_str)%nat /\
               (b = false -> (length s' <= max_str)%nat /\ length s' = length s + want)%nat).
  { intros s' b. destruct (copy_in m (u64 a) want) as [bs|] eqn:E; intros E'.
    - apply copy_in_bytes in E as [<- _]. by apply (push_chars_grows bs).
    - by apply push_bytes_grows in E'. }
  destruct (match copy_in m (u64 a) want with Some bs => _ | None => _ end) as [s' [|]];
    destruct (Hg _ _ eq_refl) as [H1 H2]; [by eauto|].
  destruct (H2 eq_refl) as [H3 H4]. apply IH; [done|lia].
Qed.

(** C34. Whatever is in the guest's memory at the address, mapped or not, and
    terminated or not, reading a path argument ends: the loop finishes within
    its fuel, the string has at most 4097 characters and none of them is NUL. *)
Theorem read_cstr_bounded (m : M) (a : Z) :
  read_loop m (S (S max_str)) a [] = Some (read_cstr m a) /\
  Z.of_nat (length (read_cstr m a)) <= 4097 /\ nul ∉ read_cstr m a.
Proof.
  destruct (read_loop_total m (S (S max_str)) a []) as (s & E & Hl); [cbn [length]; lia..|].
  unfold read_cstr. rewrite E. change (default [] (Some s)) with s. split_and!; [done|unfold max_str in Hl; lia|].
  apply read_loop_no_nul in E; [done|apply not_elem_of_nil].
Qed.

(** A terminated string of at most 4096 characters is read exactly, also
    when the memory ends right after its terminator: the chunked reads never
    make a readable path come out empty or short. *)
Theorem read_cstr_exact (m : M) (a : Z) (cs : str) :
  holds m a cs -> nul ∉ cs -> Z.of_nat (length cs) <= 4096 ->
  0 <= a -> a + Z.of_nat (length cs) < 2 ^ 64 -> read_cstr m a = cs.
Proof.
  intros Hh Hn Hl Ha Hmax. unfold read_cstr.
  rewrite (read_loop_spec m _ a cs []); [done|done|cbn [length]; unfold max_str; lia|done|done|done|unfold max_str; lia].
Qed.

End reading.

#[local] Existing Instance Flat.flat_memory.

(** A page whose last four bytes are a path and its terminator. *)
Definition edge : Flat.t := {[ 8188 := 47; 8189 := 101; 8190 := 116; 8191 := 0 ]}.

Lemma read_cstr_exact_witness : read_cstr edge 8188 = lit "/et".
Proof.
  apply read_cstr_exact; [|apply (bool_decide_unpack _); vm_compute; exact I|cbn; lia..].
  split; [|vm_compute; reflexivity]. intros i c Hi.
  destruct i as [|[|[|i]]]; cbn in Hi; [injection Hi as <-; vm_compute; reflexivity..|done].
Defined.

End PathArgs.
