(* ===== verification/StatWire.v ===== *)
(** Stat buffers ([include/linuxity/abi/wire/stat.hpp] and the encoders of
    [include/linuxity/abi/syscall.hpp]).

    A C struct is the list of its fields, each a width and a value, and
    [encode] lays it out little-endian; the structs below have no implicit
    padding.  [stat_host_path] is the ptrace backend's
    ([include/linuxity/runtime/linux/ptrace_trap.hpp]); the host's [lstat]
    with all its fields is the class [HostStats].  [kernel_stat] is the
    [struct stat] Linux itself writes, which the slow path starts from. *)

From S2P Require Import Prelude Sysno Abi Dispatch Paths CText GuestMem HostFs Whiteouts MetaStore LinkTable Dirents Namespace NamespaceSafety ProcessTable ProcState PathArgs.
Import Sysno Abi Dispatch HostFs Mounts Overlay PathArgs Access.

Module StatWire.

(** * Layouts *)

Record StatFields := {
  sf_mode : Z; dev : Z; ino : Z; nlink : Z; rdev : Z; size : Z; blksize : Z; blocks : Z;
  atime_ns : Z; mtime_ns : Z; ctime_ns : Z
}.

Definition with_nlink (h : StatFields) (n : Z) : StatFields :=
  {| sf_mode := sf_mode h; dev := dev h; ino := ino h; nlink := n; rdev := rdev h; size := size h;
     blksize := blksize h; blocks := blocks h; atime_ns := atime_ns h; mtime_ns := mtime_ns h;
     ctime_ns := ctime_ns h |}.
Definition with_mode (h : StatFields) (m : Z) : StatFields :=
  {| sf_mode := m; dev := dev h; ino := ino h; nlink := nlink h; rdev := rdev h; size := size h;
     blksize := blksize h; blocks := blocks h; atime_ns := atime_ns h; mtime_ns := mtime_ns h;
     ctime_ns := ctime_ns h |}.

Record StatLayout := {
  l_size : nat; l_mode : nat; l_uid : nat; l_gid : nat; mode_width : nat; l_nlink : nat;
  nlink_width : nat
}.

Definition kStatX86_64 : StatLayout :=
  {| l_size := 144; l_mode := 24; l_uid := 28; l_gid := 32; mode_width := 4; l_nlink := 16; nlink_width := 8 |}.
Definition kStatGeneric : StatLayout :=
  {| l_size := 128; l_mode := 16; l_uid := 24; l_gid := 28; mode_width := 4; l_nlink := 20; nlink_width := 4 |}.
Definition kStatx : StatLayout :=
  {| l_size := 256; l_mode := 28; l_uid := 20; l_gid := 24; mode_width := 2; l_nlink := 16; nlink_width := 4 |}.

Definition stat_layout (a : Arch) : StatLayout :=
  match a with aarch64 => kStatGeneric | x86_64 => kStatX86_64 end.

Inductive FileType := ft_fifo | ft_chr | ft_dir | ft_blk | ft_regular | ft_symlink | ft_sock.

Definition bits (t : FileType) : Z :=
  match t with
  | ft_fifo => 0x1000 | ft_chr => 0x2000 | ft_dir => 0x4000 | ft_blk => 0x6000
  | ft_regular => 0x8000 | ft_symlink => 0xa000 | ft_sock => 0xc000
  end.

Definition is_type (mode : Z) (t : FileType) : bool :=
  Z.land mode MetaStore.kFileTypeMask =? bits t.

(** [(m & ~0170000u) | 0140000u] *)
Definition as_socket (m : Z) : Z :=
  Z.lor (Z.land m (u32 (Z.lnot MetaStore.kFileTypeMask))) (bits ft_sock).

(** * Structs *)

Definition encode (fs : list (nat * Z)) : list Z := concat (map (fun f => le_bytes f.1 f.2) fs).
Definition width (fs : list (nat * Z)) : nat := list_sum (map fst fs).

Definition giga : Z := 1000000000.

(** A time as the two fields of a [timespec]. *)
Definition timespec (ns : Z) : list (nat * Z) := [(8%nat, ns / giga); (8%nat, ns mod giga)].

Section stats.
Local Open Scope nat_scope.

(** The x86-64 [struct stat]. *)
Definition stat64 (dev ino nlink mode uid gid rdev size blksize blocks : Z)
    (atime mtime ctime : list (nat * Z)) : list (nat * Z) :=
  [(8, dev); (8, ino); (8, nlink); (4, mode); (4, uid); (4, gid); (4, 0%Z); (8, rdev); (8, size);
   (8, blksize); (8, blocks)] ++ atime ++ mtime ++ ctime ++ [(8, 0%Z); (8, 0%Z); (8, 0%Z)].

(** The asm-generic one. *)
Definition stat_generic (dev ino nlink mode uid gid rdev size blksize blocks : Z)
    (atime mtime ctime : list (nat * Z)) : list (nat * Z) :=
  [(8, dev); (8, ino); (4, mode); (4, nlink); (4, uid); (4, gid); (8, rdev); (8, 0%Z); (8, size);
   (4, blksize); (4, 0%Z); (8, blocks)] ++ atime ++ mtime ++ ctime ++ [(4, 0%Z); (4, 0%Z)].

Definition stat_struct (a : Arch) :=
  match a with aarch64 => stat_generic | x86_64 => stat64 end.

Definition stat_bytes (a : Arch) (h : StatFields) : list Z :=
  encode (stat_struct a (dev h) (ino h) (nlink h) (sf_mode h) 0%Z 0%Z (rdev h) (size h) (blksize h) (blocks h)
            (timespec (atime_ns h)) (timespec (mtime_ns h)) (timespec (ctime_ns h))).

Definition major_of (d : Z) : Z :=
  u32 (Z.lor (Z.land (Z.shiftr d 8) 0xfff) (Z.land (Z.shiftr d 32) 0xfffff000)).
Definition minor_of (d : Z) : Z :=
  u32 (Z.lor (Z.land d 0xff) (Z.land (Z.shiftr d 12) 0xffffff00)).

Definition kBasicStats : Z := 0x7ff.

Definition statx_time (ns : Z) : list (nat * Z) := [(8, (ns / giga)%Z); (4, (ns mod giga)%Z); (4, 0%Z)].

Definition statx_bytes (h : StatFields) : list Z :=
  encode ([(4, kBasicStats); (4, blksize h); (8, 0%Z); (4, nlink h); (4, 0%Z); (4, 0%Z); (2, sf_mode h); (2, 0%Z);
           (8, ino h); (8, size h); (8, blocks h); (8, 0%Z)]
          ++ statx_time (atime_ns h) ++ statx_time (ctime_ns h) ++ statx_time (ctime_ns h)
          ++ statx_time (mtime_ns h)
          ++ [(4, major_of (rdev h)); (4, minor_of (rdev h)); (4, major_of (dev h)); (4, minor_of (dev h));
              (8, 0%Z); (8, 0%Z)] ++ replicate 12 (8, 0%Z)).

Definition kProcMagic : Z := 0x9fa0.
Definition kSysfsMagic : Z := 0x62656572.
Definition kDevtmpfs : Z := 0x01021994.
Definition kTmpfsMagic : Z := 0x01021994.

Definition statfs_type (path : str) : Z :=
  if starts_with path (lit "/proc") then kProcMagic
  else if starts_with path (lit "/sys") then kSysfsMagic
  else if starts_with path (lit "/dev") then kDevtmpfs
  else kTmpfsMagic.

Definition statfs_bytes (path : str) : list Z :=
  encode [(8, statfs_type path); (8, 4096%Z); (8, 1048576%Z); (8, 1048576%Z); (8, 1048576%Z);
          (8, 65536%Z); (8, 65536%Z); (4, 0%Z); (4, 0%Z); (8, 255%Z); (8, 4096%Z); (8, 0%Z);
          (8, 0%Z); (8, 0%Z); (8, 0%Z); (8, 0%Z)].

End stats.

Definition synth_hstat (is_dir : bool) (sz : Z) (is_link : bool) : StatFields :=
  {| sf_mode := if is_link then Z.lor (bits ft_symlink) 0x1ff
                else if is_dir then Z.lor (bits ft_dir) 0x16d
                else Z.lor (bits ft_regular) 0x124;
     dev := 0; ino := 1; nlink := 1; rdev := 0; size := sz; blksize := 4096;
     blocks := u64 (sz + 511) / 512; atime_ns := 0; mtime_ns := 0; ctime_ns := 0 |}.

(** * The host's stat *)

(** [struct ::stat]; a time is its seconds and nanoseconds. *)
Record HostStat := {
  st_mode : Z; st_uid : Z; st_gid : Z; st_dev : Z; st_ino : Z; st_nlink : Z; st_rdev : Z;
  st_size : Z; st_blksize : Z; st_blocks : Z; st_atim : Z * Z; st_mtim : Z * Z; st_ctim : Z * Z
}.

(** [lstat] and [stat] with every field, [None] when they fail. *)
Class HostStats (F : Type) := {
  lstat_full : F -> str -> option HostStat;
  stat_full : F -> str -> option HostStat
}.

Definition ns_of (t : Z * Z) : Z := u64 (u64 (u64 t.1 * giga) + u64 t.2).

Definition stat_fields (st : HostStat) : StatFields :=
  {| sf_mode := u32 (st_mode st); dev := u64 (st_dev st); ino := u64 (st_ino st);
     nlink := u64 (st_nlink st); rdev := u64 (st_rdev st); size := u64 (st_size st);
     blksize := i64 (st_blksize st); blocks := i64 (st_blocks st);
     atime_ns := ns_of (st_atim st); mtime_ns := ns_of (st_mtim st); ctime_ns := ns_of (st_ctim st) |}.

Definition stat_host_path `{HostStats F} (f : F) (path : str) : option StatFields :=
  stat_fields <$> lstat_full f path.

(** The seconds and nanoseconds as the kernel's struct has them. *)
Definition raw_time (t : Z * Z) : list (nat * Z) := [(8%nat, t.1); (8%nat, t.2)].

(** What the kernel writes for a [stat] of the guest. *)
Definition kernel_struct (a : Arch) (st : HostStat) (nlink mode uid gid : Z) : list (nat * Z) :=
  stat_struct a (st_dev st) (st_ino st) nlink mode uid gid (st_rdev st)
    (st_size st) (st_blksize st) (st_blocks st)
    (raw_time (st_atim st)) (raw_time (st_mtim st)) (raw_time (st_ctim st)).

Definition kernel_stat (a : Arch) (st : HostStat) : list Z :=
  encode (kernel_struct a st (st_nlink st) (st_mode st) (st_uid st) (st_gid st)).

(** * Handlers *)

Section handlers.
Context {F M : Type} `{HostFs F} `{HostStats F} `{GuestMem M} (io : bool) (arch : Arch).
Notation C := (Call F M).

(** [if (!mem_.copy_out(buf, bs)) return eno(efault); return val(v);] *)
Definition reply (v buf : Z) (bs : list Z) : C Fate := fun s =>
  match copy_out (mem s) (u64 buf) bs with
  | Some m => Some (value v, with_mem s m)
  | None => Some (error efault, s)
  end.

Definition out (buf : Z) (bs : list Z) : C Fate := reply 0 buf bs.

Definition write_statbuf (buf : Z) (h : StatFields) : C Fate := out buf (stat_bytes arch h).
Definition write_statx (buf : Z) (h : StatFields) : C Fate := out buf (statx_bytes h).
Definition write_statfs (buf : Z) (path : str) : C Fate := out buf (statfs_bytes path).

(** A path of the host's [/proc]. *)
Definition host_proc (p : str) : bool := bool_decide (p = lit "/proc") || starts_with p (lit "/proc/").

Definition fast_stat (hp gp : str) : C (option StatFields) := fun s =>
  if bool_decide (is_Some (MetaStore.lookup_meta (meta (world s)) gp)) then Some (None, s)
  else if host_proc hp then Some (None, s)
  else match stat_host_path (host (world s)) hp with
       | None => Some (None, s)
       | Some h =>
           let lt := links (world s) in
           let h := if negb (LinkTable.is_empty lt) && LinkTable.has_aliases lt hp
                    then with_nlink h (LinkTable.count lt hp) else h in
           if bool_decide (gp ∈ sock_placeholders s) then
             if is_type (sf_mode h) ft_regular then Some (Some (with_mode h (as_socket (sf_mode h))), s)
             else Some (Some h, with_socks s (sock_placeholders s ∖ {[ gp ]}))
           else Some (Some h, s)
       end.

(** ** The scrub of a buffer the kernel filled *)

Definition pokes (addr : Z) (ws : list Z) : C unit :=
  update (fun s => with_mem s (poke (mem s) (u64 addr) ws)).

(** [get_u16] or [get_u32] *)
Definition get_mode (m : M) (is_statx : bool) (addr : Z) : Z :=
  if is_statx then get_u16 m (u64 addr) else get_u32 m (u64 addr).

Definition put_mode (is_statx : bool) (addr v : Z) : C unit :=
  pokes addr (le_bytes (if is_statx then 2 else 4) v).

Definition scrub_record (s : Scrub) (w : World (F := F)) : option MetaStore.MetaRecord :=
  match scrub_guest_path s with [] => None | gp => MetaStore.lookup_meta (meta w) gp end.

Definition is_statx (s : Scrub) : bool := match layout s with scrub_statx => true | scrub_stat => false end.
Definition scrub_layout (s : Scrub) : StatLayout := if is_statx s then kStatx else stat_layout arch.

Definition scrub_owner (s : Scrub) : C unit :=
  st ← get;
  let L := scrub_layout s in
  let '(uid, gid) := match scrub_record s (world st) with
                     | Some r => (if MetaStore.has r MetaStore.kUid then MetaStore.uid r else 0,
                                  if MetaStore.has r MetaStore.kGid then MetaStore.gid r else 0)
                     | None => (0, 0)
                     end in
  if (l_gid L =? l_uid L + 4)%nat
  then pokes (scrub_buf s + Z.of_nat (l_uid L)) (le_bytes 4 uid ++ le_bytes 4 gid)
  else pokes (scrub_buf s + Z.of_nat (l_uid L)) (le_bytes 4 uid);;
       pokes (scrub_buf s + Z.of_nat (l_gid L)) (le_bytes 4 gid).

Definition scrub_mode (s : Scrub) : C unit :=
  st ← get;
  let at_ := scrub_buf s + Z.of_nat (l_mode (scrub_layout s)) in
  match scrub_record s (world st) with
  | Some r =>
      if negb (Z.land (MetaStore.have r) (Z.lor MetaStore.kMode MetaStore.kFifo) =? 0) then
        put_mode (is_statx s) at_ (MetaStore.effective_mode (get_mode (mem st) (is_statx s) at_) r)
      else mret tt
  | None => mret tt
  end.

Definition scrub_socket (s : Scrub) : C unit :=
  st ← get;
  let at_ := scrub_buf s + Z.of_nat (l_mode (scrub_layout s)) in
  let gp := scrub_guest_path s in
  if negb (bool_decide (gp = [])) && bool_decide (gp ∈ sock_placeholders st) then
    let m := get_mode (mem st) (is_statx s) at_ in
    if is_type m ft_regular then put_mode (is_statx s) at_ (as_socket m)
    else update (fun st => with_socks st (sock_placeholders st ∖ {[ gp ]}))
  else mret tt.

Definition scrub_nlink (s : Scrub) : C unit :=
  st ← get;
  let L := scrub_layout s in
  let gp := scrub_guest_path s in
  if negb (nlink_width L =? 0)%nat && negb (bool_decide (gp = []))
     && negb (LinkTable.is_empty (links (world st))) then
    pc ← do_classify io gp false false copy_leaf;
    match realm pc with
    | host_backed =>
        if LinkTable.has_aliases (links (world st)) (host_path pc)
        then pokes (scrub_buf s + Z.of_nat (l_nlink L))
               (le_bytes (if (nlink_width L =? 8)%nat then 8 else 4) (LinkTable.count (links (world st)) (host_path pc)))
        else mret tt
    | _ => mret tt
    end
  else mret tt.

Definition scrub_ids (s : Scrub) : C unit :=
  scrub_owner s;; scrub_mode s;; scrub_socket s;; scrub_nlink s.

End handlers.

(** * Encoding: lemmas *)

Definition get_field (bs : list Z) (off w : nat) : Z := le_val (take w (drop off bs)).

Lemma le_val_mod n : forall v, le_val (le_bytes n v) = v mod 256 ^ Z.of_nat n.
Proof.
  induction n as [|n IH]; intros v; cbn [le_bytes le_val].
  - change (256 ^ Z.of_nat 0) with 1. by rewrite Z.mod_1_r.
  - rewrite IH, Nat2Z.inj_succ, Z.pow_succ_r by lia. rewrite Z.rem_mul_r by lia. lia.
Qed.

Lemma encode_length fs : length (encode fs) = width fs.
Proof.
  unfold encode, width. induction fs as [|[w v] fs IH]; cbn; [done|]. by rewrite length_app, le_bytes_length, IH.
Qed.

Lemma encode_bytes fs : Forall is_byte (encode fs).
Proof.
  unfold encode. induction fs as [|[w v] fs IH]; cbn; [done|]. apply Forall_app. split; [apply le_bytes_byte|done].
Qed.

Lemma encode_app fs gs : encode (fs ++ gs) = encode fs ++ encode gs.
Proof. unfold encode. by rewrite map_app, concat_app. Qed.

Lemma width_app fs gs : width (fs ++ gs) = (width fs + width gs)%nat.
Proof. unfold width. by rewrite map_app, list_sum_app. Qed.

(** Overwriting whole fields of a struct. *)
Lemma splice_encode fs k ms off :
  off = width (take k fs) -> width (take (length ms) (drop k fs)) = width ms ->
  splice (encode fs) off (encode ms) = encode (take k fs ++ ms ++ drop (k + length ms) fs).
Proof.
  intros -> Hw. set (n := length ms) in *.
  assert (E : encode fs = encode (take k fs) ++ encode (take n (drop k fs)) ++ encode (drop (k + n) fs)).
  { by rewrite <- !encode_app, <- drop_drop, !take_drop. }
  unfold splice. rewrite E, !encode_app. rewrite take_app_length' by (by rewrite encode_length).
  do 2 f_equal. rewrite app_assoc, drop_app_length'; [done|]. rewrite length_app, !encode_length. lia.
Qed.

Lemma field_encode fs k off w v :
  fs !! k = Some (w, v) -> off = width (take k fs) -> take w (drop off (encode fs)) = le_bytes w v.
Proof.
  intros Hk ->. assert (E : encode fs = encode (take k fs) ++ le_bytes w v ++ encode (drop (S k) fs)).
  { rewrite <- (take_drop_middle _ _ _ Hk) at 1. by rewrite encode_app. }
  rewrite E, drop_app_length' by (by rewrite encode_length).
  by rewrite take_app_length' by (by rewrite le_bytes_length).
Qed.

Lemma splice_length bs off ws : (off + length ws <= length bs)%nat -> length (splice bs off ws) = length bs.
Proof. intros Hl. unfold splice. rewrite !length_app, length_take, length_drop. lia. Qed.

Lemma lookup_splice bs off ws i :
  (off + length ws <= length bs)%nat ->
  splice bs off ws !! i =
    if (off <=? i)%nat && (i <? off + length ws)%nat then ws !! (i - off)%nat else bs !! i.
Proof.
  intros Hl. unfold splice. assert (Lt : length (take off bs) = off) by (rewrite length_take; lia).
  destruct (Nat.leb_spec off i); cbn [andb].
  - rewrite lookup_app_r by lia. rewrite Lt. destruct (Nat.ltb_spec i (off + length ws)).
    + by rewrite lookup_app_l by lia.
    + rewrite lookup_app_r by lia. rewrite lookup_drop. f_equal. lia.
  - by rewrite lookup_app_l, lookup_take_lt by lia.
Qed.

Lemma field_splice_same bs off w v :
  (off + w <= length bs)%nat -> get_field (splice bs off (le_bytes w v)) off w = v mod 256 ^ Z.of_nat w.
Proof.
  intros Hl. unfold get_field. rewrite <- le_val_mod. f_equal. apply list_eq. intros i.
  destruct (decide (i < w)%nat) as [Hi|Hi].
  - rewrite lookup_take_lt, lookup_drop, lookup_splice by (rewrite ?le_bytes_length; lia).
    rewrite le_bytes_length. destruct (Nat.leb_spec off (off + i)), (Nat.ltb_spec (off + i) (off + w)); try lia.
    cbn [andb]. f_equal. lia.
  - rewrite !(proj2 (lookup_ge_None _ _)); [done|rewrite le_bytes_length; lia|rewrite length_take; lia].
Qed.

Lemma field_splice_other bs off ws o w :
  (off + length ws <= length bs)%nat -> (o + w <= off \/ off + length ws <= o)%nat ->
  get_field (splice bs off ws) o w = get_field bs o w.
Proof.
  intros Hl Ho. unfold get_field. f_equal. apply list_eq. intros i.
  destruct (decide (i < w)%nat) as [Hi|Hi].
  - rewrite !lookup_take_lt, !lookup_drop, lookup_splice by lia.
    destruct (Nat.leb_spec off (o + i)), (Nat.ltb_spec (o + i) (off + length ws)); cbn [andb]; done || lia.
  - rewrite !(proj2 (lookup_ge_None _ _)); [done|rewrite length_take; lia..].
Qed.

(** * The scrub on a buffer *)

(** The layouts' fields are disjoint and inside. *)
Record layout_ok (statx : bool) (L : StatLayout) : Prop := {
  lo_gid : l_gid L = (l_uid L + 4)%nat;
  lo_mode : mode_width L = if statx then 2%nat else 4%nat;
  lo_nlink : nlink_width L = 4%nat \/ nlink_width L = 8%nat;
  lo_in : (l_mode L + mode_width L <= l_size L /\ l_uid L + 8 <= l_size L /\
           l_nlink L + nlink_width L <= l_size L)%nat;
  lo_sep : (l_uid L + 8 <= l_mode L \/ l_mode L + mode_width L <= l_uid L)%nat /\
           (l_nlink L + nlink_width L <= l_mode L \/ l_mode L + mode_width L <= l_nlink L)%nat /\
           (l_nlink L + nlink_width L <= l_uid L \/ l_uid L + 8 <= l_nlink L)%nat
}.

Lemma scrub_layout_ok arch s : layout_ok (is_statx s) (scrub_layout arch s).
Proof. unfold scrub_layout. destruct (is_statx s), arch; split; cbn; lia. Qed.

(** The scrub as a function of the buffer. *)
Definition owner_bytes (o : option MetaStore.MetaRecord) : list Z :=
  let '(_, u, g) := MetaStore.guest_view 0 o in le_bytes 4 u ++ le_bytes 4 g.

Definition overlay_mode (L : StatLayout) (o : option MetaStore.MetaRecord) (bs : list Z) : list Z :=
  match o with
  | Some r =>
      if negb (Z.land (MetaStore.have r) (Z.lor MetaStore.kMode MetaStore.kFifo) =? 0)
      then splice bs (l_mode L)
             (le_bytes (mode_width L) (MetaStore.effective_mode (get_field bs (l_mode L) (mode_width L)) r))
      else bs
  | None => bs
  end.

Definition overlay_socket (L : StatLayout) (sock : bool) (bs : list Z) : list Z :=
  let m := get_field bs (l_mode L) (mode_width L) in
  if sock && is_type m ft_regular then splice bs (l_mode L) (le_bytes (mode_width L) (as_socket m)) else bs.

Definition overlay_nlink (L : StatLayout) (n : option Z) (bs : list Z) : list Z :=
  match n with Some n => splice bs (l_nlink L) (le_bytes (nlink_width L) n) | None => bs end.

Definition scrubbed (L : StatLayout) (o : option MetaStore.MetaRecord) (sock : bool) (n : option Z)
    (bs : list Z) : list Z :=
  overlay_nlink L n (overlay_socket L sock (overlay_mode L o (splice bs (l_uid L) (owner_bytes o)))).

Section scrub.
Context {F M : Type} `{HostFs F} `{GuestMem M} (io : bool) (arch : Arch).
Notation S := (Sys F M).

Definition Buf (m : M) (a : Z) (n : nat) (bs : list Z) : Prop :=
  copy_in m a n = Some bs /\ can_write m a n = true.

Definition same_outside (m m' : M) (a : Z) (n : nat) : Prop :=
  forall b k, b + Z.of_nat k <= a \/ a + Z.of_nat n <= b -> copy_in m' b k = copy_in m b k.

(** A step of the scrub turned the buffer into [bs]. *)
Definition lands (a : Z) (n : nat) (s : S) (r : option (unit * S)) (bs : list Z) (k : gset str) : Prop :=
  exists m', r = Some (tt, with_socks (with_mem s m') k) /\ Buf m' a n bs /\ same_outside (mem s) m' a n.

Lemma lands_bind a n (s : S) (c d : Call F M unit) bs bs' k k' :
  lands a n s (c s) bs k ->
  (forall m', Buf m' a n bs -> lands a n (with_socks (with_mem s m') k) (d (with_socks (with_mem s m') k)) bs' k') ->
  lands a n s ((c;; d) s) bs' k'.
Proof.
  intros (m1 & E1 & B1 & O1) Hd. destruct (Hd m1 B1) as (m2 & E2 & B2 & O2).
  exists m2. split; [|split; [done|]].
  - by rewrite bind_run, E1, E2.
  - intros b j Hb. rewrite (O2 b j Hb). by apply O1.
Qed.

Lemma lands_skip a n (s : S) bs : Buf (mem s) a n bs -> lands a n s ((mret tt : Call F M unit) s) bs (sock_placeholders s).
Proof. intros HB. exists (mem s). split; [by destruct s|]. split; [done|]. by intros b k _. Qed.

Lemma lands_poke a n (s : S) bs off ws :
  0 <= a -> a + Z.of_nat n <= 2 ^ 64 -> Buf (mem s) a n bs -> Forall is_byte ws ->
  (off + length ws <= n)%nat -> (off < n)%nat ->
  lands a n s (pokes (a + Z.of_nat off) ws s) (splice bs off ws) (sock_placeholders s).
Proof.
  intros Ha Hn [HB HC] Hw Hl Hof.
  destruct (poke_splice (mem s) a n bs off ws HB HC Hw Hl) as (E & Ec & Eo).
  exists (poke (mem s) (a + Z.of_nat off) ws). split; [|by split].
  unfold pokes, update. rewrite u64_small by lia. by destruct s.
Qed.

Lemma get_mode_field (m : M) a n bs L (st : bool) :
  layout_ok st L -> 0 <= a -> a + Z.of_nat n <= 2 ^ 64 -> (l_mode L + mode_width L <= n)%nat ->
  copy_in m a n = Some bs ->
  get_mode m st (a + Z.of_nat (l_mode L)) = get_field bs (l_mode L) (mode_width L).
Proof.
  intros HL Ha Hn Hi E. pose proof (lo_mode _ _ HL) as Hm.
  assert (Ef : copy_in m (a + Z.of_nat (l_mode L)) (mode_width L) = Some (take (mode_width L) (drop (l_mode L) bs))).
  { revert E. replace n with (l_mode L + (mode_width L + (n - l_mode L - mode_width L)))%nat by lia.
    rewrite !copy_in_app. destruct (copy_in m a _) as [x|] eqn:Ex; [|done].
    destruct (copy_in m _ (mode_width L)) as [y|] eqn:Ey; [|done]. destruct (copy_in m _ (n - _ - _)); [|done].
    intros [= <-]. apply copy_in_bytes in Ex as [Lx _]. apply copy_in_bytes in Ey as [Ly _].
    by rewrite <- Lx, drop_app_length, <- Ly, take_app_length. }
  unfold get_mode, get_u16, get_u32, get_field. rewrite u64_small by (destruct st; lia).
  rewrite Hm in *. destruct st; by rewrite Ef.
Qed.

Definition link_count (w : World (F := F)) (gp : str) : option Z :=
  if negb (bool_decide (gp = [])) && negb (LinkTable.is_empty (links w)) then
    let pc := (classify io w gp false false copy_leaf).1 in
    match realm pc with
    | host_backed => if LinkTable.has_aliases (links w) (host_path pc)
                     then Some (LinkTable.count (links w) (host_path pc)) else None
    | _ => None
    end
  else None.

Context (sc : Scrub).
Notation L := (scrub_layout arch sc).
Notation a := (scrub_buf sc).
Notation n := (l_size (scrub_layout arch sc)).

Section inside.
Hypothesis Ha : 0 <= a.
Hypothesis Hn : a + Z.of_nat n <= 2 ^ 64.

Lemma scrub_owner_lands (s : S) bs :
  Buf (mem s) a n bs ->
  lands a n s (scrub_owner arch sc s) (splice bs (l_uid L) (owner_bytes (scrub_record sc (world s))))
    (sock_placeholders s).
Proof.
  intros HB. pose proof (scrub_layout_ok arch sc) as HL. pose proof (lo_in _ _ HL).
  unfold scrub_owner. rewrite bind_run. cbn [get]. rewrite (lo_gid _ _ HL), Nat.eqb_refl.
  unfold owner_bytes. destruct (scrub_record sc (world s)) as [r|]; cbn [MetaStore.guest_view];
    apply lands_poke; try done; try (rewrite length_app, !le_bytes_length; lia); try lia;
    apply Forall_app; split; apply le_bytes_byte.
Qed.

Lemma put_mode_lands (s : S) bs v :
  Buf (mem s) a n bs ->
  lands a n s (put_mode (is_statx sc) (a + Z.of_nat (l_mode L)) v s)
    (splice bs (l_mode L) (le_bytes (mode_width L) v)) (sock_placeholders s).
Proof.
  intros HB. pose proof (scrub_layout_ok arch sc) as HL. pose proof (lo_in _ _ HL).
  pose proof (lo_mode _ _ HL) as Hm. unfold put_mode. rewrite <- Hm.
  apply lands_poke; try done; [apply le_bytes_byte|rewrite le_bytes_length; lia|destruct (is_statx sc); lia].
Qed.

Lemma scrub_mode_lands (s : S) bs :
  Buf (mem s) a n bs ->
  lands a n s (scrub_mode arch sc s) (overlay_mode L (scrub_record sc (world s)) bs) (sock_placeholders s).
Proof.
  intros HB. pose proof (scrub_layout_ok arch sc) as HL. pose proof (lo_in _ _ HL).
  unfold scrub_mode. rewrite bind_run. cbn [get]. unfold overlay_mode.
  rewrite (get_mode_field _ _ n bs L _ HL) by (done || lia || apply HB).
  destruct (scrub_record sc (world s)) as [r|]; [|by apply lands_skip].
  destruct (negb _); [by apply put_mode_lands|by apply lands_skip].
Qed.

(** Whether the path is a placeholder, and the placeholders left. *)
Definition is_placeholder (s : S) : bool :=
  negb (bool_decide (scrub_guest_path sc = [])) && bool_decide (scrub_guest_path sc ∈ sock_placeholders s).

Definition placeholders (s : S) (bs : list Z) : gset str :=
  if is_placeholder s && negb (is_type (get_field bs (l_mode L) (mode_width L)) ft_regular)
  then sock_placeholders s ∖ {[ scrub_guest_path sc ]} else sock_placeholders s.

Lemma scrub_socket_lands (s : S) bs :
  Buf (mem s) a n bs ->
  lands a n s (scrub_socket arch sc s) (overlay_socket L (is_placeholder s) bs) (placeholders s bs).
Proof.
  intros HB. pose proof (scrub_layout_ok arch sc) as HL. pose proof (lo_in _ _ HL).
  unfold scrub_socket, overlay_socket, placeholders. rewrite bind_run. cbn [get].
  rewrite (get_mode_field _ _ n bs L _ HL) by (done || lia || apply HB). fold (is_placeholder s).
  destruct (is_placeholder s); cbn [andb]; [|by apply lands_skip].
  destruct (is_type _ _); cbn [negb]; [by apply put_mode_lands|].
  exists (mem s). split; [by destruct s|]. split; [done|]. by intros b k _.
Qed.

Lemma scrub_nlink_lands (s : S) bs :
  Buf (mem s) a n bs ->
  lands a n s (scrub_nlink io arch sc s)
    (overlay_nlink L (link_count (world s) (scrub_guest_path sc)) bs) (sock_placeholders s).
Proof.
  intros HB. pose proof (scrub_layout_ok arch sc) as HL. pose proof (lo_in _ _ HL).
  pose proof (lo_nlink _ _ HL) as Hw. unfold scrub_nlink, link_count. rewrite bind_run. cbn [get].
  replace (nlink_width L =? 0)%nat with false by (destruct Hw as [-> | ->]; done). cbn [negb andb].
  destruct (negb (bool_decide _) && _); [|by apply lands_skip].
  rewrite bind_run. unfold do_classify. pose proof (classify_read_world io (world s) (scrub_guest_path sc) false copy_leaf) as Ew.
  destruct (classify io (world s) (scrub_guest_path sc) false false copy_leaf) as [pc w]. cbn [fst snd] in *. subst w.
  replace (with_world s (world s)) with s by (by destruct s).
  destruct (realm pc); [|by apply lands_skip..].
  destruct (LinkTable.has_aliases _ _); [|by apply lands_skip].
  replace (if (nlink_width L =? 8)%nat then 8%nat else 4%nat) with (nlink_width L)
    by (destruct Hw as [-> | ->]; done).
  apply lands_poke; try done; [apply le_bytes_byte|rewrite le_bytes_length; lia|lia].
Qed.

Lemma scrub_ids_lands (s : S) bs :
  Buf (mem s) a n bs ->
  let o := scrub_record sc (world s) in
  lands a n s (scrub_ids io arch sc s)
    (scrubbed L o (is_placeholder s) (link_count (world s) (scrub_guest_path sc)) bs)
    (placeholders s (overlay_mode L o (splice bs (l_uid L) (owner_bytes o)))).
Proof.
  intros HB o. unfold scrub_ids, scrubbed.
  eapply lands_bind; [by apply scrub_owner_lands|]. intros m1 B1.
  eapply lands_bind; [by apply (scrub_mode_lands (with_socks (with_mem s m1) _))|]. intros m2 B2.
  eapply lands_bind; [by apply (scrub_socket_lands (with_socks (with_mem _ m2) _))|]. intros m3 B3.
  exact (scrub_nlink_lands (with_socks (with_mem s m3) _) _ B3).
Qed.

End inside.

End scrub.

(** ** Its fields *)

Lemma bits_range k x : 0 <= k -> 0 <= x < 2 ^ k <-> Z.land x (Z.ones k) = x.
Proof.
  intros Hk. rewrite Z.land_ones by done. split; [apply Z.mod_small|].
  intros <-. apply Z.mod_pos_bound. lia.
Qed.

Lemma effective_range k hm r :
  16 <= k -> 0 <= hm < 2 ^ k -> 0 <= MetaStore.effective_mode hm r < 2 ^ k.
Proof.
  intros Hk. rewrite !bits_range by lia. intros Hm. unfold MetaStore.effective_mode.
  assert (Hs : forall x, 0 <= x < 2 ^ 16 -> Z.land x (Z.ones k) = x).
  { intros x Hx. apply bits_range; [lia|]. pose proof (Z.pow_le_mono_r 2 16 k). lia. }
  assert (Hl : forall x y, Z.land x (Z.ones k) = x -> Z.land (Z.land x y) (Z.ones k) = Z.land x y).
  { intros x y Hx. rewrite <- Z.land_assoc, (Z.land_comm y), Z.land_assoc, Hx. done. }
  assert (Ho : forall x y, Z.land x (Z.ones k) = x -> Z.land y (Z.ones k) = y ->
    Z.land (Z.lor x y) (Z.ones k) = Z.lor x y).
  { intros x y Hx Hy. by rewrite Z.land_lor_distr_l, Hx, Hy. }
  set (hm' := if _ && _ then _ else hm).
  assert (Hm' : Z.land hm' (Z.ones k) = hm').
  { unfold hm'. destruct (_ && _); [|done]. apply Ho; [by apply Hl|by apply Hs]. }
  destruct (negb _); [done|]. apply Ho; [by apply Hl|]. apply Hs.
  pose proof (MetaStore.land_perm (MetaStore.mode r)). lia.
Qed.

Lemma field_range bs off w :
  (off + w <= length bs)%nat -> Forall is_byte bs -> 0 <= get_field bs off w < 2 ^ (8 * Z.of_nat w).
Proof.
  intros Hl Hb. rewrite Z.pow_mul_r by lia. change (2 ^ 8) with 256. unfold get_field.
  replace w with (length (take w (drop off bs))) at 3 by (rewrite length_take, length_drop; lia).
  apply le_val_range. by apply Forall_take, Forall_drop.
Qed.

Lemma pow256 w : 256 ^ Z.of_nat w = 2 ^ (8 * Z.of_nat w).
Proof. by rewrite Z.pow_mul_r by lia. Qed.

Lemma splice_bytes bs off ws : Forall is_byte bs -> Forall is_byte ws -> Forall is_byte (splice bs off ws).
Proof. intros Hb Hw. apply Forall_app. split; [by apply Forall_take|]. apply Forall_app. split; [done|by apply Forall_drop]. Qed.

Lemma overlay_mode_field st L o bs :
  layout_ok st L -> length bs = l_size L -> Forall is_byte bs ->
  get_field (overlay_mode L o bs) (l_mode L) (mode_width L)
    = (MetaStore.guest_view (get_field bs (l_mode L) (mode_width L)) o).1.1.
Proof.
  intros HL Hl Hb. pose proof (lo_in _ _ HL). pose proof (lo_mode _ _ HL) as Hm.
  set (hm := get_field bs _ _). assert (Hr : 0 <= hm < 2 ^ (8 * Z.of_nat (mode_width L))).
  { apply field_range; [lia|done]. }
  destruct o as [r|]; cbn [overlay_mode MetaStore.guest_view fst]; [|done]. fold hm.
  destruct (negb _) eqn:E.
  - rewrite field_splice_same, pow256 by lia. apply Z.mod_small.
    apply effective_range; [destruct st; lia|done].
  - unfold hm. symmetry. apply negb_false_iff, Z.eqb_eq in E. rewrite Z.land_lor_distr_r in E.
    apply Z.lor_eq_0_iff in E as [E1 E2]. unfold MetaStore.effective_mode, MetaStore.has. by rewrite E1, E2.
Qed.

Lemma splice_out bs off ws i :
  (off + length ws <= length bs)%nat -> ~ (off <= i < off + length ws)%nat -> splice bs off ws !! i = bs !! i.
Proof.
  intros Hl Hi. rewrite lookup_splice by done.
  destruct (Nat.leb_spec off i), (Nat.ltb_spec i (off + length ws)); cbn [andb]; done || lia.
Qed.

(** Two buffers that differ in one field only. *)
Definition but_field (off w : nat) (bs bs' : list Z) : Prop :=
  length bs' = length bs /\ (forall i, ~ (off <= i < off + w)%nat -> bs' !! i = bs !! i) /\
  forall o k, (o + k <= off \/ off + w <= o)%nat -> get_field bs' o k = get_field bs o k.

Lemma but_field_refl off w bs : but_field off w bs bs.
Proof. by split. Qed.

Lemma but_field_splice off w bs ws :
  length ws = w -> (off + w <= length bs)%nat -> but_field off w bs (splice bs off ws).
Proof.
  intros <- Hl. split; [by apply splice_length|]. split.
  - intros i Hi. by apply splice_out.
  - intros o k Ho. by apply field_splice_other.
Qed.

Lemma owner_bytes_length o : length (owner_bytes o) = 8%nat.
Proof. unfold owner_bytes. destruct (MetaStore.guest_view 0 o) as [[? u] g]. by rewrite length_app, !le_bytes_length. Qed.

Lemma owner_bytes_byte o : Forall is_byte (owner_bytes o).
Proof.
  unfold owner_bytes. destruct (MetaStore.guest_view 0 o) as [[? u] g].
  apply Forall_app. split; apply le_bytes_byte.
Qed.

Lemma overlay_mode_but st L o bs :
  layout_ok st L -> length bs = l_size L -> but_field (l_mode L) (mode_width L) bs (overlay_mode L o bs).
Proof.
  intros HL Hl. pose proof (lo_in _ _ HL). destruct o as [r|]; cbn [overlay_mode]; [|apply but_field_refl].
  destruct (negb _); [|apply but_field_refl]. apply but_field_splice; [apply le_bytes_length|lia].
Qed.

Lemma overlay_socket_but st L k bs :
  layout_ok st L -> length bs = l_size L -> but_field (l_mode L) (mode_width L) bs (overlay_socket L k bs).
Proof.
  intros HL Hl. pose proof (lo_in _ _ HL). unfold overlay_socket. destruct (_ && _); [|apply but_field_refl].
  apply but_field_splice; [apply le_bytes_length|lia].
Qed.

Lemma overlay_nlink_but st L n bs :
  layout_ok st L -> length bs = l_size L -> but_field (l_nlink L) (nlink_width L) bs (overlay_nlink L n bs).
Proof.
  intros HL Hl. pose proof (lo_in _ _ HL). destruct n; cbn [overlay_nlink]; [|apply but_field_refl].
  apply but_field_splice; [apply le_bytes_length|lia].
Qed.

Lemma as_socket_range k m : 16 <= k -> 0 <= m < 2 ^ k -> 0 <= as_socket m < 2 ^ k.
Proof.
  intros Hk Hm. pose proof (Z.pow_le_mono_r 2 16 k). unfold as_socket.
  apply bits_range; [lia|]. rewrite Z.land_lor_distr_l. f_equal; [|apply bits_range; cbn; lia].
  rewrite <- Z.land_assoc, (Z.land_comm _ (Z.ones k)), Z.land_assoc. f_equal. by apply bits_range; [lia|].
Qed.

Lemma overlay_socket_field st L k bs :
  layout_ok st L -> length bs = l_size L -> Forall is_byte bs ->
  let m := get_field bs (l_mode L) (mode_width L) in
  get_field (overlay_socket L k bs) (l_mode L) (mode_width L)
    = if k && is_type m ft_regular then as_socket m else m.
Proof.
  intros HL Hl Hb m. pose proof (lo_in _ _ HL). pose proof (lo_mode _ _ HL) as Hm.
  unfold overlay_socket. fold m. destruct (_ && _); [|done]. rewrite field_splice_same, pow256 by lia.
  apply Z.mod_small. apply as_socket_range; [destruct st; lia|]. apply field_range; [lia|done].
Qed.

Lemma overlay_mode_bytes L o bs : Forall is_byte bs -> Forall is_byte (overlay_mode L o bs).
Proof.
  intros Hb. unfold overlay_mode. repeat case_match; try done. by apply splice_bytes, le_bytes_byte.
Qed.

Lemma owner_fields o bs off :
  (off + 8 <= length bs)%nat ->
  let '(_, u, g) := MetaStore.guest_view 0 o in
  get_field (splice bs off (owner_bytes o)) off 4 = u32 u /\
  get_field (splice bs off (owner_bytes o)) (off + 4) 4 = u32 g.
Proof.
  intros Hl. unfold owner_bytes. destruct (MetaStore.guest_view 0 o) as [[m u] g].
  assert (E : splice bs off (le_bytes 4 u ++ le_bytes 4 g)
            = splice (splice bs off (le_bytes 4 u)) (off + 4) (le_bytes 4 g)).
  { apply list_eq. intros i. rewrite !lookup_splice; rewrite ?splice_length, ?length_app, ?le_bytes_length; try lia.
    destruct (Nat.leb_spec off i), (Nat.ltb_spec i (off + (4 + 4))), (Nat.leb_spec (off + 4) i),
      (Nat.ltb_spec i (off + 4 + 4)), (Nat.ltb_spec i (off + 4)); cbn [andb]; try lia; try done.
    - rewrite lookup_app_r by (rewrite le_bytes_length; lia). f_equal. rewrite le_bytes_length. lia.
    - by rewrite lookup_app_l by (rewrite le_bytes_length; lia).
    - rewrite le_bytes_length. lia. }
  rewrite E. split.
  - rewrite field_splice_other; [|rewrite splice_length; rewrite ?le_bytes_length; lia|lia].
    by rewrite field_splice_same by lia.
  - by rewrite field_splice_same by (rewrite splice_length; rewrite ?le_bytes_length; lia).
Qed.

Lemma scrubbed_fields st L o k n bs :
  layout_ok st L -> length bs = l_size L -> Forall is_byte bs ->
  let '(md, u, g) := MetaStore.guest_view (get_field bs (l_mode L) (mode_width L)) o in
  let bs' := scrubbed L o k n bs in
  get_field bs' (l_mode L) (mode_width L) = (if k && is_type md ft_regular then as_socket md else md) /\
  get_field bs' (l_uid L) 4 = u32 u /\ get_field bs' (l_gid L) 4 = u32 g /\
  get_field bs' (l_nlink L) (nlink_width L)
    = match n with
      | Some n => n mod 256 ^ Z.of_nat (nlink_width L)
      | None => get_field bs (l_nlink L) (nlink_width L)
      end /\
  (forall i, ~ (l_uid L <= i < l_uid L + 8)%nat -> ~ (l_mode L <= i < l_mode L + mode_width L)%nat ->
     ~ (l_nlink L <= i < l_nlink L + nlink_width L)%nat -> bs' !! i = bs !! i).
Proof.
  intros HL Hl Hb. pose proof (lo_in _ _ HL). pose proof (lo_sep _ _ HL). pose proof (lo_gid _ _ HL) as Eg.
  destruct (but_field_splice (l_uid L) 8 bs (owner_bytes o) (owner_bytes_length o)) as (L1 & O1 & F1); [lia|].
  set (b1 := splice bs _ _) in *. assert (Hb1 : Forall is_byte b1) by (apply splice_bytes, owner_bytes_byte; done).
  destruct (overlay_mode_but st L o b1 HL) as (L2 & O2 & F2); [lia|].
  pose proof (overlay_mode_field st L o b1 HL ltac:(lia) Hb1) as M2. rewrite F1 in M2 by lia.
  pose proof (overlay_mode_bytes L o b1 Hb1) as Hb2. set (b2 := overlay_mode L o b1) in *.
  destruct (overlay_socket_but st L k b2 HL) as (L3 & O3 & F3); [lia|].
  pose proof (overlay_socket_field st L k b2 HL ltac:(lia) Hb2) as M3. cbv zeta in M3. set (b3 := overlay_socket L k b2) in *.
  destruct (overlay_nlink_but st L n b3 HL) as (L4 & O4 & F4); [lia|].
  pose proof (owner_fields o bs (l_uid L) ltac:(lia)) as Ho. fold b1 in Ho.
  assert (Ev : MetaStore.guest_view (get_field bs (l_mode L) (mode_width L)) o
    = ((MetaStore.guest_view (get_field bs (l_mode L) (mode_width L)) o).1.1,
       (MetaStore.guest_view 0 o).1.2, (MetaStore.guest_view 0 o).2)) by (by destruct o).
  rewrite Ev. destruct (MetaStore.guest_view 0 o) as [[m0 u] g]. cbn [fst snd] in *. cbv zeta.
  destruct Ho as [Ho1 Ho2]. unfold scrubbed. fold b1 b2 b3. rewrite Eg in *. split_and!.
  - by rewrite F4, M3, M2 by lia.
  - by rewrite F4, F3, F2 by lia.
  - by rewrite F4, F3, F2 by lia.
  - destruct n as [n|]; cbn [overlay_nlink]; [by rewrite field_splice_same by lia|]. by rewrite F3, F2, F1 by lia.
  - intros i H1 H2 H3. by rewrite O4, O3, O2, O1.
Qed.

(** ** The kernel's struct, scrubbed *)

(** A struct the C type can hold. *)
Definition time_ok (t : Z * Z) : Prop := 0 <= t.1 /\ 0 <= t.2 < giga /\ t.1 * giga + t.2 < 2 ^ 64.

Record stat_typed (st : HostStat) : Prop := {
  t_mode : 0 <= st_mode st < 2 ^ 32; t_dev : 0 <= st_dev st < 2 ^ 64; t_ino : 0 <= st_ino st < 2 ^ 64;
  t_nlink : 0 <= st_nlink st < 2 ^ 64; t_rdev : 0 <= st_rdev st < 2 ^ 64;
  t_size : 0 <= st_size st < 2 ^ 63; t_blksize : - 2 ^ 63 <= st_blksize st < 2 ^ 63;
  t_blocks : - 2 ^ 63 <= st_blocks st < 2 ^ 63;
  t_atim : time_ok (st_atim st); t_mtim : time_ok (st_mtim st); t_ctim : time_ok (st_ctim st)
}.

Lemma timespec_raw t : time_ok t -> timespec (ns_of t) = raw_time t.
Proof.
  intros (H1 & H2 & H3). unfold timespec, ns_of, raw_time, giga in *.
  rewrite !(u64_small t.1), !(u64_small t.2), !(u64_small (t.1 * 1000000000)), u64_small by lia.
  rewrite Z.div_add_l, Z.div_small, Z.add_0_r by lia.
  by rewrite (Z.add_comm (t.1 * _)), Z.mod_add, Z.mod_small by lia.
Qed.

Lemma owner_bytes_none : owner_bytes None = encode [(4%nat, 0); (4%nat, 0)].
Proof. reflexivity. Qed.

Lemma one_field w v : le_bytes w v = encode [(w, v)].
Proof. unfold encode. cbn. by rewrite app_nil_r. Qed.

Lemma kernel_owner a st n md u g :
  splice (encode (kernel_struct a st n md u g)) (l_uid (stat_layout a)) (owner_bytes None)
  = encode (kernel_struct a st n md 0 0).
Proof.
  rewrite owner_bytes_none.
  rewrite (splice_encode _ 4) by (destruct a; reflexivity). by destruct a.
Qed.

Lemma kernel_mode a st n md md' u g :
  splice (encode (kernel_struct a st n md u g)) (l_mode (stat_layout a))
    (le_bytes (mode_width (stat_layout a)) md') = encode (kernel_struct a st n md' u g).
Proof.
  rewrite one_field.
  rewrite (splice_encode _ (if decide (a = x86_64) then 3 else 2)) by (destruct a; reflexivity). by destruct a.
Qed.

Lemma kernel_nlink a st n n' md u g :
  splice (encode (kernel_struct a st n md u g)) (l_nlink (stat_layout a))
    (le_bytes (nlink_width (stat_layout a)) n') = encode (kernel_struct a st n' md u g).
Proof.
  rewrite one_field.
  rewrite (splice_encode _ (if decide (a = x86_64) then 2 else 3)) by (destruct a; reflexivity). by destruct a.
Qed.

Lemma kernel_mode_field a st n md u g :
  0 <= md < 2 ^ 32 ->
  get_field (encode (kernel_struct a st n md u g)) (l_mode (stat_layout a)) (mode_width (stat_layout a)) = md.
Proof.
  intros Hm. unfold get_field.
  rewrite (field_encode _ (if decide (a = x86_64) then 3 else 2) _ _ md) by (destruct a; reflexivity).
  rewrite le_val_mod. apply Z.mod_small. by destruct a.
Qed.

(** The scrub of a file without a record. *)
Lemma kernel_scrubbed a st k n :
  0 <= st_mode st < 2 ^ 32 ->
  scrubbed (stat_layout a) None k n (kernel_stat a st)
  = encode (kernel_struct a st (default (st_nlink st) n)
      (if k && is_type (st_mode st) ft_regular then as_socket (st_mode st) else st_mode st) 0 0).
Proof.
  intros Hm. unfold scrubbed, kernel_stat. rewrite kernel_owner. cbn [overlay_mode].
  unfold overlay_socket. rewrite kernel_mode_field by done.
  destruct (k && _); rewrite ?kernel_mode; destruct n; cbn [overlay_nlink]; by rewrite ?kernel_nlink.
Qed.

Lemma stat_bytes_kernel a st n md :
  stat_typed st ->
  stat_bytes a (with_mode (with_nlink (stat_fields st) n) md) = encode (kernel_struct a st n md 0 0).
Proof.
  intros T. destruct T. unfold stat_bytes, kernel_struct, with_mode, with_nlink, stat_fields.
  cbn [sf_mode dev ino nlink rdev size blksize blocks atime_ns mtime_ns ctime_ns].
  rewrite !u64_small, !i64_small, !timespec_raw by (done || lia). done.
Qed.

Lemma with_same h : with_mode (with_nlink h (nlink h)) (sf_mode h) = h.
Proof. by destruct h. Qed.

(** * Properties *)

(** A buffer laid out as [L] says, of a file owned by root. *)
Definition has_layout (L : StatLayout) (bs : list Z) (mode nlink : Z) : Prop :=
  length bs = l_size L /\ Forall is_byte bs /\
  get_field bs (l_mode L) (mode_width L) = mode mod 256 ^ Z.of_nat (mode_width L) /\
  get_field bs (l_uid L) 4 = 0 /\ get_field bs (l_gid L) 4 = 0 /\
  get_field bs (l_nlink L) (nlink_width L) = nlink mod 256 ^ Z.of_nat (nlink_width L).

Lemma struct_field fs k off w v :
  fs !! k = Some (w, v) -> off = width (take k fs) -> get_field (encode fs) off w = v mod 256 ^ Z.of_nat w.
Proof. intros Hk Ho. unfold get_field. by rewrite (field_encode fs k off w v Hk Ho), le_val_mod. Qed.

(** C32. The structs the dispatcher fills have the layouts the scrub patches:
    for both architectures and for statx, whatever the values, the encoded
    buffer has exactly the size of the ABI's struct, every element is a byte,
    and mode, owner, group and link count are at the offsets and widths of
    the layout table, truncated to their width. *)
Theorem stat_structs_typed (a : Arch) (h : StatFields) :
  has_layout (stat_layout a) (stat_bytes a h) (sf_mode h) (nlink h) /\
  has_layout kStatx (statx_bytes h) (sf_mode h) (nlink h).
Proof.
  split; [destruct a|]; unfold has_layout, stat_bytes, statx_bytes; rewrite encode_length;
    (split; [reflexivity|]); (split; [apply encode_bytes|]).
  - split_and!; [apply (struct_field _ 3)|rewrite (struct_field _ 4 _ _ 0)|
      rewrite (struct_field _ 5 _ _ 0)|apply (struct_field _ 2)]; reflexivity.
  - split_and!; [apply (struct_field _ 2)|rewrite (struct_field _ 4 _ _ 0)|
      rewrite (struct_field _ 5 _ _ 0)|apply (struct_field _ 3)]; reflexivity.
  - split_and!; [apply (struct_field _ 6)|rewrite (struct_field _ 4 _ _ 0)|
      rewrite (struct_field _ 5 _ _ 0)|apply (struct_field _ 3)]; reflexivity.
Qed.

(** C28. What the guest chmod'ed and chown'ed is what its stat shows: after
    the scrub of a buffer the kernel filled, the mode, owner and group fields
    are the guest's view of the file (the host's type, the recorded
    permissions and owner, root otherwise), an emulated hard link reports
    every name and a socket placeholder is a socket; every other byte of the
    struct, the rest of memory and the namespace are as before. *)
Theorem scrub_shows_guest_metadata {F M : Type} `{HostFs F} `{GuestMem M} (io : bool) (arch : Arch)
    (sc : Scrub) (s : Sys F M) (bs : list Z) :
  let L := scrub_layout arch sc in
  0 <= scrub_buf sc -> scrub_buf sc + Z.of_nat (l_size L) <= 2 ^ 64 ->
  Buf (mem s) (scrub_buf sc) (l_size L) bs ->
  let '(md, u, g) :=
    MetaStore.guest_view (get_field bs (l_mode L) (mode_width L)) (scrub_record sc (world s)) in
  exists s' bs', scrub_ids io arch sc s = Some (tt, s') /\
    copy_in (mem s') (scrub_buf sc) (l_size L) = Some bs' /\
    get_field bs' (l_mode L) (mode_width L)
      = (if is_placeholder sc s && is_type md ft_regular then as_socket md else md) /\
    get_field bs' (l_uid L) 4 = u32 u /\ get_field bs' (l_gid L) 4 = u32 g /\
    get_field bs' (l_nlink L) (nlink_width L)
      = match link_count io (world s) (scrub_guest_path sc) with
        | Some n => n mod 256 ^ Z.of_nat (nlink_width L)
        | None => get_field bs (l_nlink L) (nlink_width L)
        end /\
    (forall i, ~ (l_uid L <= i < l_uid L + 8)%nat -> ~ (l_mode L <= i < l_mode L + mode_width L)%nat ->
       ~ (l_nlink L <= i < l_nlink L + nlink_width L)%nat -> bs' !! i = bs !! i) /\
    same_outside (mem s) (mem s') (scrub_buf sc) (l_size L) /\ world s' = world s.
Proof.
  intros L Ha Hn HB. pose proof (copy_in_bytes _ _ _ _ (proj1 HB)) as [Hl Hb].
  destruct (scrub_ids_lands io arch sc Ha Hn s bs HB) as (m' & E & [B1 _] & O1).
  pose proof (scrubbed_fields _ L (scrub_record sc (world s)) (is_placeholder sc s)
    (link_count io (world s) (scrub_guest_path sc)) bs (scrub_layout_ok arch sc) Hl Hb) as Hf.
  destruct (MetaStore.guest_view _ _) as [[md u] g]. destruct Hf as (F1 & F2 & F3 & F4 & F5).
  eexists _, _. split; [exact E|]. split; [exact B1|]. split_and!; done.
Qed.

Section fast.
Context {F M : Type} `{HostFs F} `{HostStats F} `{GuestMem M} (io : bool) (arch : Arch).

(** The answer given in the one stop: [path_stat] on a host-backed path. *)
Definition fast_answer (buf : Z) (hp gp : str) : Call F M Fate :=
  h ← fast_stat hp gp;
  match h with
  | Some h => write_statbuf arch buf h
  | None => mret forward
  end.

Definition alias_count (w : World (F := F)) (hp : str) : option Z :=
  if negb (LinkTable.is_empty (links w)) && LinkTable.has_aliases (links w) hp
  then Some (LinkTable.count (links w) hp) else None.

Lemma fast_stat_fields (s : Sys F M) hp gp st :
  MetaStore.lookup_meta (meta (world s)) gp = None -> host_proc hp = false ->
  lstat_full (host (world s)) hp = Some st -> stat_typed st ->
  let k := bool_decide (gp ∈ sock_placeholders s) in
  let reg := is_type (st_mode st) ft_regular in
  fast_stat hp gp s =
    Some (Some (with_mode (with_nlink (stat_fields st) (default (st_nlink st) (alias_count (world s) hp)))
                  (if k && reg then as_socket (st_mode st) else st_mode st)),
          with_socks s (if k && negb reg then sock_placeholders s ∖ {[ gp ]} else sock_placeholders s)).
Proof.
  intros Hm Hp Hl T k reg. unfold fast_stat, stat_host_path. rewrite Hm, Hp, Hl.
  rewrite bool_decide_eq_false_2 by (by intros []). cbn [fmap option_fmap option_map]. unfold alias_count.
  assert (E1 : sf_mode (stat_fields st) = st_mode st) by (apply u32_small; apply T).
  assert (E2 : nlink (stat_fields st) = st_nlink st) by (apply u64_small; apply T).
  assert (Es : with_socks s (sock_placeholders s) = s) by (by destruct s).
  fold k. destruct (negb _ && _); cbn [default sf_mode with_nlink]; rewrite E1; fold reg;
    destruct k, reg; cbn [andb negb]; rewrite ?Es, <- ?E1, <- ?E2, ?with_same; reflexivity.
Qed.

Lemma kernel_struct_length st n md u g :
  length (encode (kernel_struct arch st n md u g)) = l_size (stat_layout arch).
Proof. rewrite encode_length. by destruct arch. Qed.

(** Writing the answer of [fast_stat]. *)
Lemma fast_answer_writes (s : Sys F M) hp gp st buf :
  MetaStore.lookup_meta (meta (world s)) gp = None -> host_proc hp = false ->
  lstat_full (host (world s)) hp = Some st -> stat_typed st ->
  0 <= buf < 2 ^ 64 -> can_write (mem s) buf (l_size (stat_layout arch)) = true ->
  let k := bool_decide (gp ∈ sock_placeholders s) in
  let reg := is_type (st_mode st) ft_regular in
  let bs := scrubbed (stat_layout arch) None k (alias_count (world s) hp) (kernel_stat arch st) in
  exists m1, copy_out (mem s) buf bs = Some m1 /\ length bs = l_size (stat_layout arch) /\ Forall is_byte bs /\
    fast_answer buf hp gp s = Some (value 0, with_mem (with_socks s
      (if k && negb reg then sock_placeholders s ∖ {[ gp ]} else sock_placeholders s)) m1).
Proof.
  intros Hm Hp Hl T Hb Hw k reg bs. pose proof (fast_stat_fields s hp gp st Hm Hp Hl T) as Ef. cbv zeta in Ef.
  set (h := with_mode _ _) in Ef.
  assert (Eb : stat_bytes arch h = bs).
  { unfold h, bs. rewrite stat_bytes_kernel, kernel_scrubbed by (done || apply T). done. }
  assert (Lb : length bs = l_size (stat_layout arch)).
  { unfold bs. rewrite kernel_scrubbed by apply T. apply kernel_struct_length. }
  destruct (proj2 (copy_out_can (mem s) buf bs)) as [m1 E1]; [by rewrite Lb|].
  exists m1. split; [done|]. split; [done|]. split; [rewrite <- Eb; apply encode_bytes|].
  unfold fast_answer. rewrite bind_run, Ef. unfold write_statbuf, out, reply. cbn [mem with_socks].
  by rewrite Eb, u64_small, E1 by done.
Qed.


End fast.

(** ** Device numbers *)

(** glibc's [makedev]. *)
Definition makedev (ma mi : Z) : Z :=
  Z.lor (Z.lor (Z.shiftl (Z.land ma 0xfffff000) 32) (Z.shiftl (Z.land ma 0xfff) 8))
        (Z.lor (Z.shiftl (Z.land mi 0xffffff00) 12) (Z.land mi 0xff)).

Lemma testbit_mask x a b n :
  0 <= a <= b ->
  Z.testbit (Z.land x (Z.shiftl (Z.ones (b - a)) a)) n = Z.testbit x n && ((a <=? n) && (n <? b)).
Proof.
  intros Hab. destruct (Z.leb_spec 0 n); [|by rewrite !Z.testbit_neg_r by lia].
  rewrite Z.land_spec, Z.shiftl_spec by done. f_equal.
  destruct (Z.leb_spec a n); [|by rewrite Z.testbit_neg_r by lia].
  rewrite Z.testbit_ones_nonneg by lia. cbn [andb].
  destruct (Z.ltb_spec (n - a) (b - a)), (Z.ltb_spec n b); lia || done.
Qed.

Lemma makedev_bit ma mi k : 0 <= k ->
  Z.testbit (makedev ma mi) k =
    Z.testbit ma (k - 32) && ((12 <=? k - 32) && (k - 32 <? 32)) ||
    Z.testbit ma (k - 8) && ((0 <=? k - 8) && (k - 8 <? 12)) ||
    (Z.testbit mi (k - 12) && ((8 <=? k - 12) && (k - 12 <? 32)) ||
     Z.testbit mi k && ((0 <=? k) && (k <? 8))).
Proof.
  intros Hk. unfold makedev. rewrite !Z.lor_spec, !Z.shiftl_spec by done.
  change 0xfffff000 with (Z.shiftl (Z.ones (32 - 12)) 12). change 0xfff with (Z.shiftl (Z.ones (12 - 0)) 0).
  change 0xffffff00 with (Z.shiftl (Z.ones (32 - 8)) 8). change 0xff with (Z.shiftl (Z.ones (8 - 0)) 0).
  by rewrite !testbit_mask by lia.
Qed.

Ltac split_ranges :=
  repeat match goal with
         | |- context [?a <=? ?b] => destruct (Z.leb_spec a b); try lia
         | |- context [?a <? ?b] => destruct (Z.ltb_spec a b); try lia
         end.

(** The device numbers statx reports are the halves [makedev] joined. *)
Lemma device_numbers_round_trip ma mi :
  0 <= ma < 2 ^ 32 -> 0 <= mi < 2 ^ 32 ->
  major_of (makedev ma mi) = ma /\ minor_of (makedev ma mi) = mi.
Proof.
  intros Hma Hmi. apply bits_range in Hma, Hmi; [|lia..].
  split; [rewrite <- Hma at 2|rewrite <- Hmi at 2]; unfold major_of, minor_of, u32; rewrite <- Z.land_ones by lia;
  change 0xfffff000 with (Z.shiftl (Z.ones (32 - 12)) 12); change 0xfff with (Z.shiftl (Z.ones (12 - 0)) 0);
  change 0xffffff00 with (Z.shiftl (Z.ones (32 - 8)) 8); change 0xff with (Z.shiftl (Z.ones (8 - 0)) 0);
  apply Z.bits_inj'; intros n Hn; rewrite !(Z.land_spec _ (Z.ones 32)), Z.lor_spec, !testbit_mask, !Z.testbit_ones_nonneg by lia;
    rewrite !Z.shiftr_spec, ?makedev_bit by lia; (destruct (Z.ltb_spec n 32); [|by rewrite !andb_false_r]);
    rewrite !andb_true_r.
  - replace (n + 32 - 32) with n by lia. replace (n + 8 - 8) with n by lia. split_ranges; cbn [andb];
      rewrite ?andb_true_r, ?andb_false_r, ?orb_false_r, ?orb_false_l; try done.
  - replace (n + 12 - 12) with n by lia. split_ranges; cbn [andb];
      rewrite ?andb_true_r, ?andb_false_r, ?orb_false_r, ?orb_false_l; try done.
Qed.

(** ** Times before 1970 *)

(** The fast path's nanosecond counter is unsigned: the second before the
    epoch comes out as one of the year 2554, which the kernel does not say. *)
Lemma fast_time_wraps :
  timespec (ns_of (-1, 0)) = [(8%nat, 18446744072); (8%nat, 709551616)] /\
  encode (timespec (ns_of (-1, 0))) <> encode (raw_time (-1, 0)).
Proof. split; [reflexivity|]. vm_compute. discriminate. Qed.

(** * An example *)

Import NamespaceSafety.
#[local] Existing Instance Flat.flat_memory.

Definition node_stat (r : Node + Z) : option HostStat :=
    match r with
    | inl nd => Some {| st_mode := Z.lor (match n_kind nd with
                                          | KReg => bits ft_regular | KDir => bits ft_dir
                                          | KLnk _ => bits ft_symlink | KOther => bits ft_chr
                                          end) (n_mode nd);
                        st_uid := 1000; st_gid := 1000; st_dev := 2049; st_ino := n_ino nd; st_nlink := 1;
                        st_rdev := 0; st_size := 4; st_blksize := 4096; st_blocks := 8;
                        st_atim := (1700000000, 5); st_mtim := (1700000001, 6); st_ctim := (1700000002, 7) |}
    | inr _ => None
    end.

#[export] Instance tree_stats : HostStats Tree.Tree := {
  lstat_full t p := node_stat (lstat t p);
  stat_full t p := node_stat (stat t p)
}.

(** The guest of [ex_world], with a buffer for one struct. *)
Definition ex_sys (m : Flat.t) : Sys Tree.Tree Flat.t :=
  mkSys ex_world ProcState.init ProcessTable.initial m {| pid := 1; tid := 1; ppid := 0 |} 4321 ∅ no_pending
    ∅ [] ∅ ∅ ∅.

Definition passwd : str := lit "/etc/passwd".
Definition ex_stat : HostStat :=
  {| st_mode := 0x8124; st_uid := 1000; st_gid := 1000; st_dev := 2049; st_ino := 4; st_nlink := 1;
     st_rdev := 0; st_size := 4; st_blksize := 4096; st_blocks := 8;
     st_atim := (1700000000, 5); st_mtim := (1700000001, 6); st_ctim := (1700000002, 7) |}.

Lemma ex_stat_typed : stat_typed ex_stat.
Proof. split; cbn; unfold time_ok, giga; cbn; lia. Qed.


(** A file the guest made setuid and gave away: the buffer the kernel filled
    says otherwise, the scrubbed one does not. *)
Definition owned : MetaStore.Store :=
  MetaStore.set_owner true (MetaStore.set_mode true (meta ex_world) passwd 0x9ed 0x81a4) passwd 33 44.

Definition owned_sys : Sys Tree.Tree Flat.t :=
  let s := ex_sys (default ∅ (Flat.write (Flat.zeroed 4096 144) 4096 (kernel_stat x86_64 ex_stat))) in
  with_world s (with_meta (world s) owned).

Lemma owned_buf : Buf (mem owned_sys) 4096 144 (kernel_stat x86_64 ex_stat).
Proof. split; vm_compute; reflexivity. Qed.

Lemma scrub_shows_guest_metadata_witness :
  exists s' bs',
    scrub_ids true x86_64 {| layout := scrub_stat; scrub_buf := 4096; scrub_guest_path := passwd |} owned_sys
      = Some (tt, s') /\
    copy_in (mem s') 4096 144 = Some bs' /\
    get_field bs' 24 4 = 0x89ed /\ get_field bs' 28 4 = 33 /\ get_field bs' 32 4 = 44.
Proof.
  destruct (scrub_shows_guest_metadata true x86_64
    {| layout := scrub_stat; scrub_buf := 4096; scrub_guest_path := passwd |} owned_sys (kernel_stat x86_64 ex_stat)
    ltac:(cbn; lia) ltac:(cbn; lia) owned_buf)
    as (s' & bs' & E1 & E2 & E3 & E4 & E5 & _).
  exists s', bs'. refine (conj E1 (conj E2 _)).
  refine (conj (eq_trans E3 _) (conj (eq_trans E4 _) (eq_trans E5 _))); vm_compute; reflexivity.
Defined.

End StatWire.
