(* ===== verification/MachineInfo.v ===== *)
(** The virtual machine's identity: [MachineSpec]
    ([include/linuxity/kernel/machine.hpp]) and the system calls that report
    it ([do_getres], [do_uname], [do_sysinfo], [do_sched_getaffinity] in
    [include/linuxity/abi/syscall.hpp]).

    The two measurements of the host a [MachineSpec] makes, its uptime and the
    share of its memory that is free, are fields here.  A task's CPU set is
    the host's to know: [HostCpus] is [sched_getaffinity] of the host, and
    [host_tid_of] of the tracing backend an argument. *)

From S2P Require Import Prelude Sysno Abi Dispatch CText GuestMem HostFs Dirents Namespace NamespaceSafety ProcessTable ProcState PathArgs StatWire.
Import Sysno Abi Dispatch PathArgs StatWire Access.

Module MachineInfo.

Record MachineSpec := {
  ncpu : Z; mem_total : Z; swap_total : Z; release : str; nodename : str; machine_arch : str;
  uptime_seconds : Z; mem_available : Z
}.

Definition mem_free (m : MachineSpec) : Z := u64 (mem_available m * 2) / 3.
Definition mem_buffers (m : MachineSpec) : Z := mem_total m / 128.

(** The host's answer for a task: its CPUs, or an errno. *)
Class HostCpus (F : Type) := { host_cpus : F -> Z -> (nat -> bool) + Z }.

Section calls.
Context {F M : Type} `{HostCpus F} `{GuestMem M} (spec : MachineSpec) (live : option ProcessTable.LiveSource).
Notation C := (Call F M).

(** ** getresuid and getresgid *)

Definition put_u32_arg (r : Regs) (i : nat) (v : Z) : C bool := fun s =>
  match put_u32 (mem s) (arg r i) v with
  | Some m => Some (true, with_mem s m)
  | None => Some (false, s)
  end.

(** Each write is tried only after the one before it succeeded. *)
Definition do_getres (r : Regs) : C Fate :=
  if (arg r 0 =? 0) || (arg r 1 =? 0) || (arg r 2 =? 0) then mret (error efault)
  else
    a ← put_u32_arg r 0 0;
    if negb a then mret (error efault) else
    b ← put_u32_arg r 1 0;
    if negb b then mret (error efault) else
    c ← put_u32_arg r 2 0;
    mret (if negb c then error efault else value 0).

(** ** uname *)

(** A [char[65]]: at most 64 characters up to the first NUL, then zeros. *)
Definition uts_field (t : str) : list Z :=
  let cs := take 64 (CText.c_str t) in
  map Dirents.byte_of cs ++ replicate (65 - length cs) 0.

Definition uts_bytes : list Z :=
  uts_field (lit "Linux") ++ uts_field (nodename spec) ++ uts_field (release spec)
  ++ uts_field (lit "#1 linuxity portable Linux ABI") ++ uts_field (machine_arch spec)
  ++ uts_field (lit "(none)").

Definition do_uname (buf : Z) : C Fate := out buf uts_bytes.

(** ** sysinfo *)

(** Four bytes of alignment follow [pad]. *)
Definition sysinfo_bytes (procs : Z) : list Z :=
  encode [(8%nat, uptime_seconds spec); (8%nat, 0); (8%nat, 0); (8%nat, 0);
          (8%nat, mem_total spec); (8%nat, mem_free spec); (8%nat, 0); (8%nat, mem_buffers spec);
          (8%nat, swap_total spec); (8%nat, swap_total spec); (2%nat, procs); (2%nat, 0); (4%nat, 0);
          (8%nat, 0); (8%nat, 0); (4%nat, 1); (4%nat, 0)].

Definition do_sysinfo (buf : Z) : C Fate :=
  s ← get; out buf (sysinfo_bytes (Z.of_nat (ProcessTable.count live (ptable s)))).

(** ** sched_getaffinity *)

(** [buf[c / 8] |= 1 << (c & 7)], for every CPU of the list. *)
Definition set_cpu (buf : list Z) (c : nat) : list Z :=
  alter (fun b => Z.lor b (Z.shiftl 1 (Z.of_nat (c mod 8)))) (c / 8)%nat buf.
Definition cpu_mask (bytes : nat) (cs : list nat) : list Z := fold_left set_cpu cs (replicate bytes 0).

Definition CPU_SETSIZE : nat := Z.to_nat 1024.

Definition affinity_bytes : nat :=
  let b := (((Z.to_nat (ncpu spec) + 63) / 64) * 8)%nat in if (b <? 8)%nat then 8%nat else b.

Definition advertised : list nat := seq 0 (Z.to_nat (ncpu spec)).

Definition do_sched_getaffinity (host_tid_of : Z -> Z) (r : Regs) : C Fate :=
  let cap := arg r 1 in
  let bytes := affinity_bytes in
  if (cap <? Z.of_nat bytes) || negb (cap mod 8 =? 0) then mret (error einval)
  else
    let pid := i32 (arg r 0) in
    if pid <? 0 then mret (error esrch)
    else
      s ← get;
      let host := if pid =? 0 then host_tid s else host_tid_of pid in
      if host <=? 0 then mret (error esrch)
      else
        let buf := cpu_mask bytes advertised in
        let answer :=
          match host_cpus (Overlay.host (world s)) host with
          | inl real =>
              let clip := filter (fun c => real c = true) (seq 0 (Z.to_nat (ncpu spec) `min` CPU_SETSIZE)) in
              Some (if bool_decide (clip = []) then buf else cpu_mask bytes clip)
          | inr e => if e =? errno_value esrch then None else Some buf
          end in
        match answer with
        | None => mret (error esrch)
        | Some buf => reply (Z.of_nat bytes) (arg r 2) buf
        end.

End calls.

(** * Properties *)

(** Whether a mask has a CPU. *)
Definition has_cpu (buf : list Z) (c : nat) : bool :=
  Z.testbit (default 0 (buf !! (c / 8)%nat)) (Z.of_nat (c mod 8)).

Lemma set_cpu_length buf c : length (set_cpu buf c) = length buf.
Proof. apply length_alter. Qed.

Lemma has_cpu_set buf c d :
  (c / 8 < length buf)%nat -> has_cpu (set_cpu buf c) d = bool_decide (d = c) || has_cpu buf d.
Proof.
  intros Hc. unfold has_cpu, set_cpu. destruct (decide (d / 8 = c / 8)%nat) as [E|E].
  - rewrite E, list_lookup_alter_eq. apply lookup_lt_is_Some in Hc as [b ->].
    change (default 0 (?f <$> Some b)) with (f b). change (default 0 (Some b)) with b. cbv beta.
    rewrite Z.lor_spec, Z.shiftl_spec by lia. rewrite orb_comm. f_equal. change 1 with (2 ^ 0). rewrite Z.pow2_bits_eqb by lia.
    pose proof (Nat.div_mod_eq c 8). pose proof (Nat.div_mod_eq d 8).
    destruct (Z.eqb_spec 0 (Z.of_nat (d mod 8) - Z.of_nat (c mod 8))), (bool_decide_reflect (d = c)); lia || done.
  - rewrite list_lookup_alter_ne by done. rewrite bool_decide_eq_false_2; [done|]. by intros ->.
Qed.

Lemma cpu_mask_spec cs : forall buf,
  Forall (fun c => (c / 8 < length buf)%nat) cs ->
  length (fold_left set_cpu cs buf) = length buf /\
  forall d, has_cpu (fold_left set_cpu cs buf) d = bool_decide (d ∈ cs) || has_cpu buf d.
Proof.
  induction cs as [|c cs IH]; intros buf Hcs; cbn [fold_left]; [by split; [|intros d; rewrite bool_decide_eq_false_2 by apply not_elem_of_nil]|].
  apply Forall_cons in Hcs as [Hc Hcs]. destruct (IH (set_cpu buf c)) as [IH1 IH2].
  { eapply Forall_impl; [exact Hcs|]. intros x. by rewrite set_cpu_length. }
  split; [by rewrite IH1, set_cpu_length|]. intros d. rewrite IH2, has_cpu_set by done.
  rewrite orb_assoc. f_equal. rewrite (bool_decide_ext (d ∈ c :: cs) (d ∈ cs \/ d = c)) by set_solver.
  rewrite bool_decide_or. done.
Qed.

Lemma has_cpu_zeros n d : has_cpu (replicate n 0) d = false.
Proof.
  unfold has_cpu. destruct (replicate n 0 !! (d / 8)%nat) as [b|] eqn:E; cbn [default]; [|apply Z.testbit_0_l].
  apply lookup_replicate in E as [-> _]. apply Z.testbit_0_l.
Qed.

Lemma affinity_bytes_fit spec c : (c < Z.to_nat (ncpu spec))%nat -> (c / 8 < affinity_bytes spec)%nat.
Proof.
  intros Hc. unfold affinity_bytes. set (n := Z.to_nat (ncpu spec)) in *.
  assert (c / 8 < (n + 63) / 64 * 8)%nat.
  { apply Nat.Div0.div_lt_upper_bound. pose proof (Nat.div_mod_eq (n + 63) 64).
    pose proof (Nat.mod_upper_bound (n + 63) 64). lia. }
  destruct (Nat.ltb_spec ((n + 63) / 64 * 8) 8); lia.
Qed.

Lemma cpu_mask_cpus spec cs :
  Forall (fun c => (c < Z.to_nat (ncpu spec))%nat) cs ->
  length (cpu_mask (affinity_bytes spec) cs) = affinity_bytes spec /\
  forall d, has_cpu (cpu_mask (affinity_bytes spec) cs) d = bool_decide (d ∈ cs).
Proof.
  intros Hcs. destruct (cpu_mask_spec cs (replicate (affinity_bytes spec) 0)) as [L Hb].
  { rewrite length_replicate. eapply Forall_impl; [exact Hcs|]. intros c. apply affinity_bytes_fit. }
  rewrite length_replicate in L. split; [done|]. intros d. unfold cpu_mask. by rewrite Hb, has_cpu_zeros, orb_false_r.
Qed.

Section affinity.
Context {F M : Type} `{HostCpus F} `{GuestMem M} (spec : MachineSpec) (host_tid_of : Z -> Z).

(** The CPUs the host reports, of those the machine has. *)
Definition real_cpus (real : nat -> bool) : list nat :=
  filter (fun c => real c = true) (seq 0 (Z.to_nat (ncpu spec) `min` CPU_SETSIZE)).

Lemma elem_real_cpus real c :
  c ∈ real_cpus real <-> real c = true /\ (c < Z.to_nat (ncpu spec))%nat /\ (c < CPU_SETSIZE)%nat.
Proof. unfold real_cpus. rewrite list_elem_of_filter, elem_of_seq. intuition lia. Qed.

Definition task_of (r : Regs) (s : Sys F M) : Z :=
  if i32 (arg r 0) =? 0 then host_tid s else host_tid_of (i32 (arg r 0)).

(** The mask the call answers with. *)
Definition answer_cpus (cpus : (nat -> bool) + Z) : list nat :=
  match cpus with
  | inl real => if bool_decide (real_cpus real = []) then advertised spec else real_cpus real
  | inr _ => advertised spec
  end.

Lemma answer_cpus_in cpus : Forall (fun c => (c < Z.to_nat (ncpu spec))%nat) (answer_cpus cpus).
Proof.
  apply Forall_forall. intros c. unfold answer_cpus, advertised.
  destruct cpus as [real|e]; [destruct (bool_decide _)|]; rewrite ?elem_real_cpus, ?elem_of_seq; lia.
Qed.

Lemma affinity_cases (r : Regs) (s : Sys F M) :
  exists f s', do_sched_getaffinity spec host_tid_of r s = Some (f, s') /\
  ((exists e, f = error e /\ s' = s) \/
   f = value (Z.of_nat (affinity_bytes spec)) /\ Z.of_nat (affinity_bytes spec) <= arg r 1 /\
   copy_out (mem s) (u64 (arg r 2))
     (cpu_mask (affinity_bytes spec) (answer_cpus (host_cpus (Overlay.host (world s)) (task_of r s))))
   = Some (mem s')).
Proof.
  unfold do_sched_getaffinity.
  assert (He : forall e, exists f s', (mret (error e) : Call F M Fate) s = Some (f, s') /\
    ((exists e, f = error e /\ s' = s) \/
     f = value (Z.of_nat (affinity_bytes spec)) /\ Z.of_nat (affinity_bytes spec) <= arg r 1 /\
     copy_out (mem s) (u64 (arg r 2))
       (cpu_mask (affinity_bytes spec) (answer_cpus (host_cpus (Overlay.host (world s)) (task_of r s))))
     = Some (mem s'))).
  { intros e. eexists _, _. split; [reflexivity|]. left. by eauto. }
  destruct ((arg r 1 <? _) || _) eqn:E1; [apply He|]. destruct (i32 (arg r 0) <? 0); [apply He|].
  rewrite bind_run. cbn [get]. fold (task_of r s). destruct (task_of r s <=? 0); [apply He|].
  apply orb_false_iff in E1 as [E1 _]. unfold answer_cpus, reply in *.
  destruct (host_cpus _ _) as [real|e]; [fold (real_cpus real); destruct (bool_decide _)|
    destruct (e =? errno_value esrch); [apply He|]];
    destruct (copy_out (mem s) _ _) as [m|] eqn:Eo; eexists _, _;
    (split; [reflexivity|]); try (left; by eauto); right; split_and!; try done; lia.
Qed.

(** sched_getaffinity describes the machine the guest was promised: the
    call always answers, with an error and nothing written, or with the size
    of the mask, which fits the guest's buffer, and a mask of exactly that
    size that holds only CPUs the machine advertises, at least one if it has
    any, and the host's own set of them when that is not empty. *)
Theorem affinity_within_machine (r : Regs) (s : Sys F M) :
  exists f s', do_sched_getaffinity spec host_tid_of r s = Some (f, s') /\
  ((exists e, f = error e /\ s' = s) \/
   exists buf, f = value (Z.of_nat (length buf)) /\ Z.of_nat (length buf) <= arg r 1 /\
     copy_out (mem s) (u64 (arg r 2)) buf = Some (mem s') /\
     (forall c, has_cpu buf c = true -> Z.of_nat c < ncpu spec) /\
     (0 < ncpu spec -> exists c, has_cpu buf c = true) /\
     (forall real c0, host_cpus (Overlay.host (world s)) (task_of r s) = inl real ->
        real c0 = true -> Z.of_nat c0 < ncpu spec -> (c0 < CPU_SETSIZE)%nat ->
        forall c, Z.of_nat c < ncpu spec -> (c < CPU_SETSIZE)%nat -> has_cpu buf c = real c)).
Proof.
  destruct (affinity_cases r s) as (f & s' & E & [Hf|(-> & Hc & Eo)]); exists f, s' || eexists _, s'; (split; [exact E|]);
    [by left|right].
  set (cpus := host_cpus _ _) in *. destruct (cpu_mask_cpus spec (answer_cpus cpus) (answer_cpus_in cpus)) as [L Hb].
  exists (cpu_mask (affinity_bytes spec) (answer_cpus cpus)). rewrite L. split_and!; try done.
  - intros c. rewrite Hb, bool_decide_eq_true. pose proof (answer_cpus_in cpus) as Hin. rewrite Forall_forall in Hin.
    intros Hc'. specialize (Hin c Hc'). lia.
  - intros Hp. assert (Ha : 0%nat ∈ advertised spec) by (apply elem_of_seq; lia). unfold answer_cpus in *.
    destruct cpus as [real|e]; [|exists 0%nat; rewrite Hb; by apply bool_decide_eq_true].
    destruct (bool_decide _) eqn:En; [exists 0%nat; rewrite Hb; by apply bool_decide_eq_true|].
    apply bool_decide_eq_false in En. destruct (real_cpus real) as [|c l] eqn:Er; [done|].
    exists c. rewrite Hb. apply bool_decide_eq_true. by left.
  - intros real c0 Er R0 R1 R2 c Hc1 Hc2. rewrite Hb, Er.
    assert (Hin : c0 ∈ real_cpus real) by (apply elem_real_cpus; intuition lia).
    cbn [answer_cpus]. destruct (bool_decide_reflect (real_cpus real = [])) as [En|_];
      [by rewrite En, elem_of_nil in Hin|].
    rewrite (bool_decide_ext (c ∈ real_cpus real) (real c = true)) by (rewrite elem_real_cpus; intuition lia).
    by destruct (real c).
Qed.

End affinity.

End MachineInfo.
