(* ===== verification/PathCalls.v ===== *)
(** The handlers that look paths up without changing files
    ([include/linuxity/abi/syscall.hpp], [Syscalls]): stat, statx, access,
    inotify, readlink, chdir, fchdir, chroot, statfs, the extended
    attributes, getcwd, the descriptor calls and execve.

    The model is the instance the ptrace backend selects: [mem_.host_tid()]
    and [mem_.stat_host_path()] exist.  What execve reads of the program file
    ([loader::read_elf_machine], [read_elf_interp], [read_shebang]) is the
    record [ExecFile] the class [HostExec] gives for a host path. *)

From S2P Require Import Prelude Sysno Abi Dispatch Paths CText GuestMem HostFs Whiteouts MetaStore LinkTable Dirents Namespace NamespaceSafety ProcessTable JobControl ProcState PathResolve ElfProbe PathArgs StatWire.
Import Sysno Abi Dispatch Paths CText HostFs Mounts Overlay ProcState PathArgs StatWire Access.

Module PathCalls.

#[global] Instance Realm2_eq_dec : EqDecision Realm2.
Proof. solve_decision. Defined.

Section handlers.
Context {F M : Type} `{HostFs F} `{HostAccess F} `{HostStats F} `{GuestMem M}.
Context (io : bool) (arch : Arch) (live : option ProcessTable.LiveSource).
Notation C := (Call F M).

(** [pc.virtual_path.empty() ? abs : pc.virtual_path] *)
Definition virtual_name (pc : PathClass) (abs : str) : str :=
  match virtual_path pc with [] => abs | vp => vp end.

Definition do_produce (vp : str) : C (Result VirtualFile) := fun s => Some (produce (mounts (world s)) vp, s).

Definition proc_link_mark : str := lit "(proc-link)".

(** A node whose link only the dispatcher can read is taken for absent. *)
Definition hide_proc_link (vf : Result VirtualFile) : Result VirtualFile :=
  match vf with
  | inl f => if decide (symlink_target f = proc_link_mark) then inr enoent else vf
  | inr _ => vf
  end.

Definition redirect_to (path_arg_ : nat) (hp : str) : Redirect := redirect (path_arg (Z.of_nat path_arg_) hp).

Definition redirect_scrubbed (path_arg_ : nat) (hp : str) (l : ScrubLayout) (buf : Z) (gp : str) : Fate :=
  FRedirect (with_scrub (redirect_to path_arg_ hp)
               {| layout := l; scrub_buf := buf; scrub_guest_path := gp |}).

(** ** stat *)

(** The [virtual_file] branch; [dst] is the buffer. *)
Definition stat_virtual (path_arg_ : nat) (dst : Z) (follow : bool) (vp : str) : C Fate :=
  vf ← do_produce vp;
  let vf := hide_proc_link vf in
  let answer (vf : Result VirtualFile) : C Fate :=
    match vf with
    | inr e => mret (error e)
    | inl f => write_statbuf arch dst
                 (synth_hstat (vf_is_dir f)
                    (match symlink_target f with [] => Z.of_nat (length (vf_bytes f)) | _ => 0 end)
                    (negb (bool_decide (symlink_target f = []))))
    end in
  match vf with
  | inl _ => answer vf
  | inr _ =>
      if negb (proc_is_link vp) then answer vf
      else
        tgt ← proc_symlink_target live vp;
        match tgt with
        | [] => answer vf
        | _ =>
            let link : C Fate :=
              answer (inl {| vf_bytes := []; vf_is_dir := false; vf_entries := []; redirect_host := [];
                             symlink_target := tgt |}) in
            if negb follow then link
            else
              tc ← classify_read io tgt;
              match realm tc with
              | host_backed => mret (redirect_scrubbed path_arg_ (host_path tc) scrub_stat dst tgt)
              | _ => link
              end
        end
  end.

Definition path_stat (r : Regs) (path_arg_ : nat) (at_ follow : bool) : C Fate :=
  let at_flags := if at_ then arg r 3 else 0 in
  let dst := if at_ then arg r 2 else arg r 1 in
  raw ← cstr_arg r path_arg_;
  match path_syntax raw with
  | ps_empty => mret (if has_at at_flags empty_path then forward else error enoent)
  | syn =>
      lost ← (if at_ then at_dirfd_unresolvable r raw else mret false);
      if (lost : bool) then mret forward
      else
        e ← dot_prefix_error io r path_arg_ at_;
        unless_errno e (
          abs ← resolve_raw io live r raw at_ follow;
          pc ← do_classify io abs false follow copy_leaf;
          let rest : C Fate :=
            match realm pc with
            | host_backed =>
                fast ← fast_stat (host_path pc) abs;
                match fast with
                | Some h => write_statbuf arch (arg r (S path_arg_)) h
                | None => mret (redirect_scrubbed path_arg_ (host_path pc) scrub_stat dst abs)
                end
            | virtual_file => stat_virtual path_arg_ dst follow (virtual_name pc abs)
            | absent => mret (error (pc_error pc))
            end in
          match syn, realm pc with
          | ps_needs_dir, virtual_file =>
              vf ← do_produce (virtual_name pc abs);
              match vf with
              | inl f => if vf_is_dir f then rest else mret (error enotdir)
              | inr _ => rest
              end
          | ps_needs_dir, host_backed =>
              mret (redirect_scrubbed path_arg_ (host_path pc ++ [slash]) scrub_stat (arg r (S path_arg_)) abs)
          | _, _ => rest
          end)
  end.

(** ** statx *)

Definition statx_virtual (dst : Z) (nofollow : bool) (vp : str) : C Fate :=
  vf ← do_produce vp;
  let answer (vf : Result VirtualFile) : C Fate :=
    match vf with
    | inr e => mret (error e)
    | inl f => write_statx dst (synth_hstat (vf_is_dir f) (Z.of_nat (length (vf_bytes f)))
                                  (negb (bool_decide (symlink_target f = []))))
    end in
  match hide_proc_link vf with
  | inl f => answer (inl f)
  | inr e =>
      if negb (proc_is_link vp) then answer (inr e)
      else
        tgt ← proc_symlink_target live vp;
        match tgt with
        | [] => answer (inr e)
        | _ =>
            let link : C Fate := write_statx dst (synth_hstat false 0 true) in
            if nofollow then link
            else
              tc ← classify_read io tgt;
              match realm tc with
              | host_backed => mret (redirect_scrubbed 1 (host_path tc) scrub_statx dst tgt)
              | _ => link
              end
        end
  end.

Definition path_statx (r : Regs) : C Fate :=
  let flags := arg r 2 in
  let dst := arg r 4 in
  raw1 ← cstr_arg r 1;
  if bool_decide (raw1 = []) && has_at flags empty_path then
    gp ← fd_path (i32 (arg r 0));
    match gp with
    | [] => mret forward
    | _ =>
        pc ← classify_read io gp;
        match realm pc with
        | virtual_file =>
            vf ← do_produce (virtual_name pc gp);
            match vf with
            | inr e => mret (error e)
            | inl f => write_statx dst (synth_hstat (vf_is_dir f) (Z.of_nat (length (vf_bytes f))) false)
            end
        | _ => mret forward
        end
    end
  else
    let nofollow := has_at flags symlink_nofollow in
    empty ← empty_path_arg r 1 (-1);
    if (empty : bool) then mret (error enoent)
    else
      e ← dot_prefix_error io r 1 true;
      unless_errno e (
        abs ← resolve_arg io live r 1 true (negb nofollow);
        pc ← do_classify io abs false (negb nofollow) copy_leaf;
        match realm pc with
        | host_backed =>
            fast ← fast_stat (host_path pc) abs;
            match fast with
            | Some h => write_statx dst h
            | None => mret (redirect_scrubbed 1 (host_path pc) scrub_statx dst abs)
            end
        | virtual_file => statx_virtual dst nofollow (virtual_name pc abs)
        | absent => mret (error (pc_error pc))
        end).

(** ** access, inotify, readlink *)

Definition path_at (r : Regs) (path_arg_ : nat) (at_ : bool) : C Fate :=
  raw0 ← cstr_arg r path_arg_;
  match raw0 with
  | [] => mret (if at_ then forward else error enoent)
  | _ =>
      e ← dot_prefix_error io r path_arg_ at_;
      unless_errno e (
        abs ← resolve_arg io live r path_arg_ at_ true;
        pc ← classify_read io abs;
        mret match realm pc with
             | host_backed => FRedirect (redirect_to path_arg_ (host_path pc))
             | virtual_file => value 0
             | absent => error (pc_error pc)
             end)
  end.

Definition path_watch (r : Regs) (path_arg_ : nat) (at_ : bool) : C Fate :=
  raw ← cstr_arg r path_arg_;
  dir ← (if at_ then dir_of (arg r (path_arg_ - 1)) else mret []);
  abs ← do_absolutize io raw dir;
  pc ← classify_read io abs;
  mret match realm pc with
       | host_backed => FRedirect (redirect_to path_arg_ (host_path pc))
       | virtual_file => error enoent
       | absent => error (pc_error pc)
       end.

Definition write_link (buf cap : Z) (tgt : str) : C Fate :=
  let n := if Z.of_nat (length tgt) <? cap then Z.of_nat (length tgt) else cap in
  if n =? 0 then mret (value 0)
  else reply n buf (map Dirents.byte_of (take (Z.to_nat n) tgt)).

Definition do_readlink (r : Regs) (path_arg_ : nat) (at_ : bool) : C Fate :=
  let buf := arg r (path_arg_ + 1) in
  let cap := arg r (path_arg_ + 2) in
  raw0 ← cstr_arg r path_arg_;
  match raw0 with
  | [] => mret (if at_ then forward else error enoent)
  | _ =>
      if i64 cap <=? 0 then mret (error einval)
      else
        e ← dot_prefix_error io r path_arg_ at_;
        unless_errno e (
          named ← resolve_arg io live r path_arg_ at_ false;
          e ← guest_prefix_loop io named;
          unless_errno e (
            dir ← (if at_ then dir_of (arg r 0) else mret []);
            pre ← do_absolutize io raw0 dir;
            s ← get;
            let pre := normalize pre in
            if decide (pre = lit "/proc/self") then write_link buf cap (to_string (pid (me s)))
            else if decide (pre = lit "/proc/thread-self") then
              write_link buf cap (to_string (pid (me s)) ++ lit "/task/" ++ to_string (tid (me s)))
            else
              empty ← empty_path_arg r path_arg_ (-1);
              if (empty : bool) then mret (error enoent)
              else
                abs ← resolve_arg io live r path_arg_ at_ false;
                tgt ← proc_symlink_target live abs;
                match tgt with
                | _ :: _ => write_link buf cap tgt
                | [] =>
                    pc ← do_classify io abs false false copy_leaf;
                    match realm pc with
                    | host_backed => mret (FRedirect (redirect_to path_arg_ (host_path pc)))
                    | virtual_file =>
                        vf ← do_produce abs;
                        match vf with
                        | inl f =>
                            match symlink_target f with
                            | [] => mret (error einval)
                            | t => if decide (t = proc_link_mark) then mret (error enoent)
                                   else write_link buf cap t
                            end
                        | inr _ => mret (error einval)
                        end
                    | absent => mret (error (pc_error pc))
                    end
                end))
  end.

(** ** The working directory *)

(** [open_long] with [O_PATH], and what [fstat] says of the descriptor. *)
Definition open_long (f : F) (p : str) : option Node :=
  if (Z.of_nat (length p) <? 4096) then match stat f p with inl nd => Some nd | inr _ => None end
  else
    match components p with
    | [] => match stat f [slash] with inl nd => Some nd | inr _ => None end
    | c :: cs =>
        match open_chain f (root_dir f) (removelast (c :: cs)) with
        | inl h => match stat_at f h (List.last (c :: cs) []) with inl nd => Some nd | inr _ => None end
        | inr _ => None
        end
    end.

Definition host_cwd_is (s : Sys F M) (host_dir : str) : bool :=
  let f := host (world s) in
  match stat f (proc_dir ++ to_string (host_tid s) ++ lit "/cwd") with
  | inr _ => false
  | inl a => match open_long f host_dir with
             | Some b => is_directory b && (n_ino a =? n_ino b)
             | None => false
             end
  end.

(** The errno of a directory the call needs, checked on the host. *)
Definition not_a_directory (o : option Node) : option Errno :=
  match o with
  | None => Some enoent
  | Some nd => if is_directory nd then None else Some enotdir
  end.

(** The host's own working directory follows, best effort. *)
Definition move_host_cwd (old_cwd hp : str) : C Fate :=
  let go (p : str) : Fate :=
    FRedirect {| first := path_arg 0 p; second := None; make_parents := false; may_block := false;
                 force_ret := Some 0; scrub := None |} in
  if (Z.of_nat (length hp) <? 4096) then mret (go hp)
  else
    oc ← classify_read io old_cwd;
    s ← get;
    let base := host_path oc ++ [slash] in
    if negb (bool_decide (realm oc = host_backed)) || negb (starts_with hp base)
       || (4096 <=? Z.of_nat (length hp - length base)) || negb (host_cwd_is s (host_path oc))
    then mret (value 0)
    else mret (go (drop (length base) hp)).

Definition do_chdir (r : Regs) : C Fate :=
  raw ← cstr_arg r 0;
  s ← get;
  let old_cwd := cwd (procs s) in
  abs ← do_absolutize io raw old_cwd;
  pc ← classify_read io abs;
  s ← get;
  match realm pc with
  | absent => mret (error (pc_error pc))
  | host_backed =>
      unless_errno (not_a_directory (open_long (host (world s)) (host_path pc))) (
        update (fun s => with_procs s (set_cwd (procs s) abs));;
        move_host_cwd old_cwd (host_path pc))
  | virtual_file => update (fun s => with_procs s (set_cwd (procs s) abs));; mret (value 0)
  end.

Definition do_fchdir (r : Regs) : C Fate :=
  gp ← fd_path (i32 (arg r 0));
  match gp with
  | [] => mret forward
  | _ => update (fun s => with_procs s (set_cwd (procs s) gp));; mret forward
  end.

Definition do_chroot (r : Regs) : C Fate :=
  raw ← cstr_arg r 0;
  s ← get;
  abs ← do_absolutize io raw (cwd (procs s));
  pc ← classify_read io abs;
  s ← get;
  match realm pc with
  | absent => mret (error (pc_error pc))
  | host_backed =>
      unless_errno (not_a_directory (match stat (host (world s)) (host_path pc) with
                                     | inl nd => Some nd | inr _ => None end))
        (mret (value 0))
  | virtual_file => mret (value 0)
  end.

Definition do_getcwd (r : Regs) : C Fate :=
  s ← get;
  let c := cwd (procs s) in
  let need := Z.of_nat (length c) + 1 in
  let cap := arg r 1 in
  if cap =? 0 then mret (error einval)
  else if cap <? need then mret (error erange)
  else reply need (arg r 0) (map Dirents.byte_of c ++ [0]).

(** ** statfs, sockets, extended attributes *)

Definition path_statfs (r : Regs) : C Fate :=
  empty ← empty_path_arg r 0 (-1);
  if (empty : bool) then mret (error enoent)
  else
    abs ← resolve_arg io live r 0 false true;
    pc ← classify_read io abs;
    match realm pc with
    | host_backed => mret (FRedirect (redirect_to 0 (host_path pc)))
    | virtual_file => write_statfs (arg r 1) abs
    | absent => mret (error (pc_error pc))
    end.

Definition do_fstatfs (r : Regs) : C Fate :=
  gp ← fd_path (i32 (arg r 0));
  s ← get;
  if negb (bool_decide (gp = [])) && under_virtual_mount (mounts (world s)) gp
  then write_statfs (arg r 1) gp else mret forward.

Definition do_socket (r : Regs) : C Fate :=
  mret (if (arg r 0 =? 16) && (arg r 2 =? 9) then error eprotonosupport else forward).

(** The attribute namespaces that are accepted and dropped. *)
Definition dropped_xattr (name : str) : bool :=
  starts_with name (lit "security.") || starts_with name (lit "system.") || starts_with name (lit "trusted.").

Definition path_xattr (r : Regs) (for_write follow : bool) (path_arg_ : nat) (at_ : bool) : C Fate :=
  empty ← empty_path_arg r path_arg_ (-1);
  if (empty : bool) then mret (error enoent)
  else
    abs ← resolve_arg io live r path_arg_ at_ true;
    name ← cstr_arg r 1;
    if for_write && dropped_xattr name then mret (value 0)
    else
      pc ← do_classify io abs for_write follow copy_leaf;
      mret match realm pc, host_path pc with
           | virtual_file, _ => error enotsup
           | _, [] => error (pc_error pc)
           | _, hp => FRedirect (redirect (path_arg_from (Z.of_nat path_arg_) hp abs))
           end.

(** ** Descriptors *)

Definition do_close (r : Regs) : C Fate :=
  update (fun s => with_procs s (unbind_fd (procs s) (i32 (arg r 0))));; mret forward.

Definition do_dup (r : Regs) : C Fate :=
  mret (FForward (Some {| dup_from := i32 (arg r 0); close_first := -1 |})).

Definition do_dup2 (r : Regs) : C Fate :=
  mret (FForward (Some {| dup_from := i32 (arg r 0); close_first := i32 (arg r 1) |})).

Definition do_fcntl (r : Regs) : C Fate :=
  mret (if (arg r 1 =? 0) || (arg r 1 =? 1030)
        then FForward (Some {| dup_from := i32 (arg r 0); close_first := -1 |}) else forward).

(** ** execve *)

(** The scan of [argv] for [-S], [-U] and their long forms. *)
Fixpoint transaction_args (m : M) (argv : Z) (i n : nat) (end_opts : bool) : bool :=
  match n with
  | O => false
  | S n' =>
      match copy_in m (u64 (argv + Z.of_nat i * 8)) 8 with
      | None => false
      | Some b =>
          let p := le_val b in
          if p =? 0 then false
          else if (i =? 0)%nat then transaction_args m argv (S i) n' end_opts
          else
            let a := read_cstr m p in
            if decide (a = lit "--") then transaction_args m argv (S i) n' true
            else if end_opts || (length a <? 2)%nat || negb (bool_decide (head a = Some "-"%char))
            then transaction_args m argv (S i) n' end_opts
            else
              let hit := if decide (a !! 1%nat = Some "-"%char)
                         then bool_decide (a = lit "--sync") || bool_decide (a = lit "--upgrade")
                         else existsb (fun c => bool_decide (c = "S"%char) || bool_decide (c = "U"%char)) (drop 1 a) in
              if hit then true else transaction_args m argv (S i) n' end_opts
      end
  end.

Definition pacman_is_transaction (r : Regs) (path_arg_ : nat) (m : M) : bool :=
  let argv := arg r (S path_arg_) in
  if argv =? 0 then false else transaction_args m argv 0 256 false.

(** The last component of a path. *)
Definition base_name (p : str) : str :=
  match rfind slash p with None => p | Some k => drop (S k) p end.

(** Where an interpreter named by a program is on the host, and its guest
    path; the name itself when it is not host-backed. *)
Definition locate_interp (name : str) : C (str * str) :=
  abs ← do_absolutize io name [];
  pc ← classify_read io abs;
  mret (match realm pc with host_backed => host_path pc | _ => name end, abs).

(** [host_machine] is what the binary was built for, [overwrite] whether
    LINUXITY_PACMAN_OVERWRITE is set. *)
Definition path_exec (host_machine : Arch) (overwrite : bool) (r : Regs) (path_arg_ : nat) : C Fate :=
  empty ← empty_path_arg r path_arg_ (-1);
  if (empty : bool) then mret (error enoent)
  else
    abs ← resolve_arg io live r path_arg_ (path_arg_ =? 1)%nat true;
    pc ← classify_read io abs;
    s ← get;
    let extra := if bool_decide (base_name abs = lit "pacman") && overwrite
                    && pacman_is_transaction r path_arg_ (mem s)
                 then [lit "--overwrite"; lit "*"] else [] in
    match realm pc with
    | virtual_file => mret (error eacces)
    | absent => mret (error (pc_error pc))
    | host_backed =>
        let f := host (world s) in
        let file := ElfProbe.contents f (host_path pc) in
        let sh := ElfProbe.read_shebang file in
        if decide (ElfProbe.read_elf_machine host_machine file = ElfProbe.foreign) then mret (error enoexec)
        else
          match ElfProbe.read_elf_interp file, ElfProbe.sb_interp sh with
          | (_ :: _) as interp, _ =>
              ld ← locate_interp interp;
              mret (FExecInterp {| exec_path_arg := Z.of_nat path_arg_; interp_host := ld.1; prog_guest := abs;
                                   exec_prefix := []; extra_args := extra |})
          | [], (_ :: _) as si =>
              loc ← locate_interp si;
              let '(si_host, si_abs) := loc in
              let arg_ := match ElfProbe.sb_arg sh with [] => [] | a => [a] end in
              match ElfProbe.read_elf_interp (ElfProbe.contents f si_host) with
              | (_ :: _) as ld_name =>
                  ld ← locate_interp ld_name;
                  mret (FExecInterp {| exec_path_arg := Z.of_nat path_arg_; interp_host := ld.1; prog_guest := abs;
                                       exec_prefix := si_abs :: arg_; extra_args := [] |})
              | [] =>
                  mret (FExecInterp {| exec_path_arg := Z.of_nat path_arg_; interp_host := si_host; prog_guest := abs;
                                       exec_prefix := arg_; extra_args := [] |})
              end
          | [], [] => mret (FRedirect (redirect_to path_arg_ (host_path pc)))
          end
    end.

End handlers.

End PathCalls.
