(* ===== verification/MutCalls.v ===== *)
(** The handlers that create, remove and re-permission files
    ([include/linuxity/abi/syscall.hpp], [Syscalls]): [path_mut] for mkdir,
    mknod, rmdir, unlink and truncate, [do_utimes], [fifo_create], and the
    calls that record modes and owners in the shadow store.

    [HostMeta] is what these handlers ask of the host beyond [HostFs]:
    [chmod] with its errno, the flags [/proc/<tid>/fdinfo] shows, [fchmod]
    through [/proc/<tid>/fd], and a task's umask.  Names the link table knows
    are unlinked by [LinkOps.unlink_with_links] on the host's name operations
    [HostFiles].  Whether FIFOs are emulated is the argument
    [fifos_emulated]. *)

From S2P Require Import Prelude Sysno Abi Dispatch Paths CText GuestMem HostFs Whiteouts MetaStore LinkTable Dirents Namespace NamespaceSafety ProcessTable JobControl ProcState PathResolve PathArgs StatWire PathCalls.
Import Sysno Abi Dispatch Paths CText HostFs Whiteouts Mounts Overlay ProcState PathArgs StatWire PathCalls.

Module MutCalls.

(** Results are 0 or an errno; [fchmod_fd] is [None] when the descriptor
    cannot be opened. *)
Class HostMeta (F : Type) := {
  chmod_call : F -> str -> Z -> F * Z;
  fd_flags : F -> Z -> Z -> option Z;
  fchmod_fd : F -> Z -> Z -> Z -> F * option Z;
  task_umask : F -> Z -> option Z
}.

Section handlers.
Context {F M : Type} `{HostFs F} `{HostAccess F} `{HostStats F} `{HostFiles F} `{HostMeta F} `{GuestMem M}.
Context (io : bool) (arch : Arch) (live : option ProcessTable.LiveSource) (fifos_emulated : bool).
Notation C := (Call F M).

Definition update_world (f : World (F := F) -> World (F := F)) : C unit :=
  update (fun s => with_world s (f (world s))).

Definition with_links (w : World (F := F)) (l : LinkTable.Links) : World (F := F) :=
  {| mounts := mounts w; whites := whites w; meta := meta w; links := l; host := host w |}.

Definition update_meta (f : MetaStore.Store -> MetaStore.Store) : C unit :=
  update_world (fun w => with_meta w (f (meta w))).
Definition update_whites (f : Whiteouts -> Whiteouts) : C unit :=
  update_world (fun w => with_whites w (f (whites w))).

(** A host call that returns 0 or an errno. *)
Definition host_call (f : F -> F * Z) : C Z := fun s =>
  let '(h, e) := f (host (world s)) in Some (e, with_world s (with_host (world s) h)).

Definition unlink_with_links (name : str) : C Fate := fun s =>
  let w := world s in
  let '(lt, h, r) := LinkOps.unlink_with_links io (links w) (host w) name in
  Some (value r, with_world s (with_host (with_links w lt) h)).

(** ** FIFOs on a host without them *)

(** The path up to each separator after the first character. *)
Definition ancestors (p : str) : list str :=
  map (fun i => take i p) (List.filter (fun i => bool_decide (p !! i = Some slash)) (seq 1 (length p - 1))).

Definition guest_umask (s : Sys F M) : Z := default 18 (task_umask (host (world s)) (host_tid s)).

Definition fifo_create (abs hp : str) (mode : Z) : C Fate :=
  now ← do_classify io abs false false copy_leaf;
  s ← get;
  let taken := match realm now, host_path now with
               | host_backed, (_ :: _) as p => is_ok (lstat (host (world s)) p)
               | _, _ => false
               end in
  if taken then mret (error eexist)
  else
    update_world (fun w => with_host w (fold_left (fun f d => (mkdir f d 493).1) (ancestors hp) (host w)));;
    e ← host_call (fun f => hcreat_excl f hp);
    if negb (e =? 0) then mret (error (errno_from_host e))
    else
      update_whites (fun w => clear_whiteout_if_any io w abs);;
      s ← get;
      update_meta (fun m => MetaStore.set_mode io m abs
        (Z.land (Z.land mode 4095) (u32 (Z.lnot (guest_umask s)))) MetaStore.no_host_mode);;
      update_meta (fun m => MetaStore.set_fifo io m abs);;
      mret (value 0).

(** ** path_mut *)

(** The answer for a name that ends in a dot, when it is to be removed. *)
Definition dot_removal (r : Regs) (path_arg_ : nat) (at_ rmdir_syscall : bool) (raw : str) : C (option Errno) :=
  match dot_tail raw with
  | dt_none => mret None
  | dt =>
      target ← resolve_arg io live r path_arg_ at_ true;
      dotpc ← do_classify io target true false remove;
      s ← get;
      let dir := removedir_flag r path_arg_ at_ rmdir_syscall in
      mret (Some (if dot_traversal_denied (host (world s)) raw (host_path dotpc) then eacces
                  else match dt with
                       | dt_dot => if dir then einval else eisdir
                       | _ => if dir then enotempty else eisdir
                       end))
  end.

(** The answer for a synthesised file. *)
Definition virtual_mut (wi : WriteIntent) (abs : str) : Fate :=
  match wi with
  | parents_only => error (virtual_mut_errno abs vm_exists)
  | copy_leaf => if virtual_is_writable abs then value 0 else error (virtual_mut_errno abs vm_remove)
  | remove => error (virtual_mut_errno abs vm_remove)
  end.

Definition makes_fifo (r : Regs) (path_arg_ : nat) : bool :=
  let sc := decode arch (regs_nr r) in
  (bool_decide (sc = mknod) || bool_decide (sc = mknodat))
  && (Z.land (u32 (arg r (S path_arg_))) 0xf000 =? 0x1000).

(** What is left once the path is known to be on the host. *)
Definition mut_host (r : Regs) (path_arg_ : nat) (wi : WriteIntent) (strict_parent : bool) (abs hp : str) : C Fate :=
  let go : C Fate :=
    mret (FRedirect
      (let o := redirect_to path_arg_ hp in
       if decide (wi = parents_only)
       then {| first := first o; second := second o; make_parents := negb strict_parent;
               may_block := may_block o; force_ret := force_ret o; scrub := scrub o |}
       else o)) in
  if bool_decide (wi = parents_only) && fifos_emulated && makes_fifo r path_arg_
  then fifo_create abs hp (u32 (arg r (S path_arg_)))
  else if decide (wi = remove) then
    update_meta (fun m => MetaStore.forget io m abs);;
    s ← get;
    let lt := links (world s) in
    if negb (LinkTable.is_empty lt)
       && (bool_decide (is_Some (LinkTable.backing_of lt hp)) || LinkTable.has_aliases lt hp)
    then unlink_with_links hp
    else go
  else go.

Definition path_mut (r : Regs) (path_arg_ : nat) (at_ : bool) (wi : WriteIntent)
    (strict_parent rmdir_syscall : bool) : C Fate :=
  empty ← empty_path_arg r path_arg_ (-1);
  if (empty : bool) then mret (error enoent)
  else
    e ← dot_prefix_error io r path_arg_ at_;
    unless_errno e (
      raw ← cstr_arg r path_arg_;
      e ← (if decide (wi = remove) then dot_removal r path_arg_ at_ rmdir_syscall raw else mret None);
      unless_errno e (
        abs ← resolve_arg io live r path_arg_ at_ true;
        pc ← do_classify io abs true false wi;
        s ← get;
        if dot_traversal_denied (host (world s)) raw (host_path pc) then mret (error eacces)
        else
          e ← guest_prefix_loop io abs;
          unless_errno e (
            match realm pc with
            | virtual_file => mret (virtual_mut wi abs)
            | _ =>
                (if whiteout_lower pc then
                   update_whites (fun w => add_whiteout io w abs);;
                   update_meta (fun m => MetaStore.forget io m abs)
                 else mret tt);;
                match host_path pc with
                | [] => mret (if whiteout_lower pc then value 0 else error (pc_error pc))
                | hp => mut_host r path_arg_ wi strict_parent abs hp
                end
            end))).

Definition do_utimes (r : Regs) (path_arg_ : nat) (at_ : bool) (flags_arg : Z) : C Fate :=
  let null_path := null_path_arg r path_arg_ in
  empty ← empty_cstr_arg r path_arg_;
  let empty_with_flag := (0 <=? flags_arg) && (empty : bool) && has_at (arg r (Z.to_nat flags_arg)) empty_path in
  if null_path || empty_with_flag then
    mret (if negb at_ then error efault
          else if i32 (arg r 0) =? kAtFdCwd then error (if null_path then efault else enoent)
          else forward)
  else path_mut r path_arg_ at_ copy_leaf false false.

(** ** chmod and chown *)

Definition kOPath : Z := 0x200000.

Definition fd_is_o_path (s : Sys F M) (fd : Z) : bool :=
  match fd_flags (host (world s)) (host_tid s) fd with
  | Some fl => negb (Z.land fl kOPath =? 0)
  | None => false
  end.

(** Whether a path stands for a symbolic link on the host. *)
Definition names_symlink (abs : str) : C bool :=
  lc ← do_classify io abs false false copy_leaf;
  s ← get;
  mret (match realm lc with
        | host_backed => host_path_is_symlink (host (world s)) (host_path lc)
        | _ => false
        end).

Definition host_mode_of (s : Sys F M) (p : str) : Z :=
  match lstat_full (host (world s)) p with Some st => u32 (st_mode st) | None => MetaStore.no_host_mode end.

Definition fchmod_by_fd (fd mode : Z) : C (option Z) := fun s =>
  let '(h, e) := fchmod_fd (host (world s)) (host_tid s) fd mode in
  Some (e, with_world s (with_host (world s) h)).

Inductive ChmodTarget := ct_answer (f : Fate) | ct_path (abs : str).

(** The guest path whose mode is to change, or the answer already. *)
Definition chmod_target (r : Regs) (path_arg_ : nat) (at_ with_flags : bool) (flags mode : Z) : C ChmodTarget :=
  empty ← empty_cstr_arg r path_arg_;
  if with_flags && (empty : bool) && has_at flags empty_path then
    let fd := i32 (arg r 0) in
    gp ← fd_path fd;
    s ← get;
    match gp with
    | [] => e ← fchmod_by_fd fd (Z.land mode MetaStore.kPermMask);
            mret (ct_answer (match e with None => error ebadf | Some e => value (- e) end))
    | _ =>
        if fd_is_o_path s fd then
          link ← names_symlink gp;
          mret (if (link : bool) then ct_answer (error enotsup) else ct_path gp)
        else mret (ct_path gp)
    end
  else
    empty ← empty_path_arg r path_arg_ (-1);
    if (empty : bool) then mret (ct_answer (error enoent))
    else
      e ← dot_prefix_error io r path_arg_ at_;
      match e with
      | Some e => mret (ct_answer (error e))
      | None =>
          abs ← resolve_arg io live r path_arg_ at_ true;
          if has_at flags symlink_nofollow then
            link ← names_symlink abs;
            mret (if (link : bool) then ct_answer (error enotsup) else ct_path abs)
          else mret (ct_path abs)
      end.

(** The host's mode is changed best effort: the errno that is reported, or
    the mode the inode now has, if known. *)
Definition land_mode (abs : str) (mode : Z) : C (Errno + Z) :=
  wc ← do_classify io abs true false copy_leaf;
  s ← get;
  let f := host (world s) in
  match host_path wc with
  | [] => mret (inr MetaStore.no_host_mode)
  | hp =>
      if host_path_is_symlink f hp then mret (inr MetaStore.no_host_mode)
      else
        let keep := if host_path_is_regular f hp then 384 else 0 in
        e ← host_call (fun f => chmod_call f hp (Z.lor (Z.land mode MetaStore.kPermMask) keep));
        s ← get;
        mret (if e =? 0 then inr (host_mode_of s hp)
              else if e =? ENOENT then inl enoent
              else if e =? ENOTDIR then inl enotdir
              else inr MetaStore.no_host_mode)
  end.

Definition do_chmod (r : Regs) (path_arg_ : nat) (at_ with_flags : bool) : C Fate :=
  let flags := if with_flags then arg r (path_arg_ + 2) else 0 in
  let mode := u32 (arg r (S path_arg_)) in
  target ← chmod_target r path_arg_ at_ with_flags flags mode;
  match target with
  | ct_answer f => mret f
  | ct_path abs =>
      pc ← classify_read io abs;
      s ← get;
      let f := host (world s) in
      match realm pc with
      | virtual_file => mret (error (virtual_mut_errno abs vm_meta))
      | absent => if decide (pc_error pc = enoent)
                  then e ← resolve_failure_errno io abs (pc_error pc); mret (error e)
                  else mret (error (pc_error pc))
      | host_backed =>
          if negb (parent_is_dir f (host_path pc)) then mret (error enotdir)
          else unless_errno (host_target_exists f (host_path pc)) (
            landed ← land_mode abs mode;
            match landed with
            | inl e => mret (error e)
            | inr landed => update_meta (fun m => MetaStore.set_mode io m abs mode landed);; mret (value 0)
            end)
      end
  end.

Definition do_fchmod (r : Regs) : C Fate :=
  let fd := i32 (arg r 0) in
  let mode := u32 (arg r 1) in
  gp ← fd_path fd;
  s ← get;
  match gp with
  | [] => mret forward
  | _ =>
      if fd_is_o_path s fd then mret (error ebadf)
      else
        link ← names_symlink gp;
        if (link : bool) then mret (error enotsup)
        else
          wc ← do_classify io gp true false copy_leaf;
          landed ← match host_path wc with
                   | [] => mret MetaStore.no_host_mode
                   | hp =>
                       e ← host_call (fun f => chmod_call f hp (Z.land mode MetaStore.kPermMask));
                       s ← get;
                       mret (if e =? 0 then host_mode_of s hp else MetaStore.no_host_mode)
                   end;
          update_meta (fun m => MetaStore.set_mode io m gp mode landed);;
          mret (value 0)
  end.

Definition set_owner_of (gp : str) (u g : Z) : C Fate :=
  update_meta (fun m => MetaStore.set_owner io m gp (u32 u) (u32 g));; mret (value 0).

Definition do_chown (r : Regs) (path_arg_ uid_arg gid_arg : nat) (at_ follow : bool) : C Fate :=
  let u := arg r uid_arg in
  let g := arg r gid_arg in
  empty ← empty_cstr_arg r path_arg_;
  if at_ && (empty : bool) && has_at (arg r 4) empty_path then
    gp ← fd_path (i32 (arg r 0));
    match gp with
    | [] => mret forward
    | _ => set_owner_of gp u g
    end
  else
    empty ← empty_path_arg r path_arg_ (-1);
    if (empty : bool) then mret (error enoent)
    else
      abs ← resolve_arg io live r path_arg_ at_ true;
      pc ← do_classify io abs false follow copy_leaf;
      s ← get;
      let f := host (world s) in
      match realm pc with
      | virtual_file => mret (if virtual_is_writable abs then value 0 else error (virtual_mut_errno abs vm_meta))
      | absent => mret (error (pc_error pc))
      | host_backed =>
          let hp := host_path pc in
          if negb (parent_is_dir f hp) then mret (error enotdir)
          else
            match stat_host_path f hp with
            | None => mret (error (default enoent (host_target_exists f hp)))
            | Some _ =>
                unless_errno (if follow then host_target_exists f hp else None) (set_owner_of abs u g)
            end
      end.

Definition do_fchown (r : Regs) : C Fate :=
  gp ← fd_path (i32 (arg r 0));
  match gp with
  | [] => mret forward
  | _ => set_owner_of gp (arg r 1) (arg r 2)
  end.

End handlers.

End MutCalls.
