(* ===== verification/OpenCalls.v ===== *)
(** Opening files ([include/linuxity/abi/syscall.hpp], [Syscalls]):
    [path_open], [path_openat2], [path_open_flags], the emulated FIFOs, what
    happens when the descriptor arrives ([note_opened_fd] and its deferred
    form), and the rebasing of host paths that are too long.

    [HostOpen] is what these ask of the host: the supervisor's uid and pid,
    the memory map and the descriptors of a task, the clock, and the pipes
    behind emulated FIFOs.  A pipe is known by the descriptor that keeps its
    inode, the anchor. *)

From S2P Require Import Prelude Sysno Abi Dispatch Paths CText GuestMem HostFs Whiteouts MetaStore LinkTable Dirents Namespace NamespaceSafety ProcessTable JobControl ProcState PathResolve PathArgs StatWire PathCalls MutCalls.
Import Sysno Abi Dispatch Paths CText HostFs Whiteouts Mounts Overlay ProcState PathArgs StatWire PathCalls MutCalls.

Module OpenCalls.

(** [make_anchor] gives a descriptor, the errno of [pipe2], or nothing when
    the inode could not be kept; [open_end] a descriptor or a negative
    number; [fifo_peers] the guest's reading and writing descriptors;
    [fstat_fd] nothing when the descriptor cannot be opened. *)
Class HostOpen (F : Type) := {
  getuid : F -> Z;
  getpid : F -> Z;
  host_maps : F -> Z -> option str;
  fstat_fd : F -> Z -> Z -> option (option HostStat);
  clock_ns : F -> Z;
  make_anchor : F -> F * (Z + option Z);
  open_end : F -> Z -> bool -> F * Z;
  fifo_peers : F -> Z -> Z * Z;
  close_fd : F -> Z -> F
}.

Section handlers.
Context {F M : Type} `{HostFs F} `{HostAccess F} `{HostStats F} `{HostFiles F} `{HostMeta F} `{HostOpen F} `{GuestMem M}.
Context (io : bool) (arch : Arch) (live : option ProcessTable.LiveSource) (fifos_emulated : bool).
Notation C := (Call F M).

Definition set_pending (p : Pending) : C unit := update (fun s => with_pending s p).

Definition pending_path (abs : str) (flags : Z) (p : Pending) : Pending :=
  {| pending_open := abs; pending_flags := flags; pending_dir := pending_dir p;
     pending_lazy := pending_lazy p; pending_entries := pending_entries p |}.

(** ** Emulated FIFOs *)

Definition kWaiterNs : Z := 500000000.
Definition kRetryNs : Z := 10000000.

(** The waiters that retried lately. *)
Definition alive (now : Z) (m : gmap Z Z) : gmap Z Z := filter (fun e => now - e.2 <= kWaiterNs) m.

Definition get_fifo (s : Sys F M) (key : Z * Z) : EmuFifo := default no_fifo (fifos s !! key).
Definition put_fifo (key : Z * Z) (f : EmuFifo) : C unit := update (fun s => with_fifos s (<[key := f]> (fifos s))).

(** [hold]: open an end of the pipe unless one is held. *)
Definition take_end (anchor_ h : Z) (writing : bool) : C Z :=
  if h <? 0 then fun s => let '(g, fd) := open_end (host (world s)) anchor_ writing in
                          Some (fd, with_world s (with_host (world s) g))
  else mret h.

Definition ensure_anchor (key : Z * Z) : C (option Fate) :=
  s ← get;
  let f := get_fifo s key in
  if 0 <=? anchor f then put_fifo key f;; mret None
  else fun s =>
    let '(g, a) := make_anchor (host (world s)) in
    let s := with_world s (with_host (world s) g) in
    match a with
    | inl fd => Some (None, with_fifos s (<[key := {| anchor := fd; hold_r := hold_r f; hold_w := hold_w f;
                                                       wait_r := wait_r f; wait_w := wait_w f |}]> (fifos s)))
    | inr (Some e) => Some (Some (error (errno_from_host e)), with_fifos s (<[key := f]> (fifos s)))
    | inr None => Some (Some (error enfile), with_fifos s (<[key := f]> (fifos s)))
    end.

(** What the rendezvous decides: go ahead with the FIFO's new state, or
    answer now. *)
Inductive FifoStep := fs_go (f : EmuFifo) | fs_wait (f : EmuFifo) | fs_fail (f : EmuFifo).

Definition with_holds (f : EmuFifo) (r w : Z) : EmuFifo :=
  {| anchor := anchor f; hold_r := r; hold_w := w; wait_r := wait_r f; wait_w := wait_w f |}.
Definition with_waits (f : EmuFifo) (r w : gmap Z Z) : EmuFifo :=
  {| anchor := anchor f; hold_r := hold_r f; hold_w := hold_w f; wait_r := r; wait_w := w |}.

Definition fifo_step (f : EmuFifo) (acc : Z) (nonblock_ : bool) (readers writers now me_ : Z) : C FifoStep :=
  let f := with_waits f (delete me_ (wait_r f)) (delete me_ (wait_w f)) in
  let f := with_waits f (alive now (wait_r f)) (alive now (wait_w f)) in
  let reader_waiting := negb (bool_decide (wait_r f = ∅)) in
  let writer_waiting := negb (bool_decide (wait_w f = ∅)) in
  if (acc =? 0) && negb nonblock_ then
    if (writers =? 0) && (hold_r f <? 0) && negb writer_waiting
    then mret (fs_wait (with_waits f (<[me_ := now]> (wait_r f)) (wait_w f)))
    else if (writers =? 0) && (hold_r f <? 0)
    then h ← take_end (anchor f) (hold_w f) true; mret (fs_go (with_holds f (hold_r f) h))
    else mret (fs_go f)
  else if acc =? 1 then
    let reader_open := (0 <? readers) || (0 <=? hold_w f) in
    if negb reader_open && nonblock_ then
      if negb reader_waiting then mret (fs_fail f)
      else h ← take_end (anchor f) (hold_r f) false; mret (fs_go (with_holds f h (hold_w f)))
    else if negb reader_open then mret (fs_wait (with_waits f (wait_r f) (<[me_ := now]> (wait_w f))))
    else mret (fs_go f)
  else mret (fs_go f).

Definition release (fds : list Z) : C unit := update (fun s => with_release s (fifo_release s ++ fds)).

Definition fifo_open (abs : str) (key : Z * Z) (flags : Z) (path_arg_ : nat) : C Fate :=
  early ← ensure_anchor key;
  match early with
  | Some f => mret f
  | None =>
      s ← get;
      let f := get_fifo s key in
      let acc := Z.land flags 3 in
      let nonblock_ := has_for arch flags nonblock in
      let '(readers, writers) := fifo_peers (host (world s)) (anchor f) in
      step ← fifo_step f acc nonblock_ readers writers (clock_ns (host (world s))) (tid (me s));
      match step with
      | fs_wait f => put_fifo key f;; mret (FVirtualize (retry_after kRetryNs))
      | fs_fail f => put_fifo key f;; mret (error enxio)
      | fs_go f =>
          let drop_r := negb (acc =? 1) && (0 <=? hold_r f) in
          let drop_w := negb (acc =? 0) && (0 <=? hold_w f) in
          release ((if drop_r then [hold_r f] else []) ++ (if drop_w then [hold_w f] else []));;
          put_fifo key (with_holds f (if drop_r then -1 else hold_r f) (if drop_w then -1 else hold_w f));;
          update (fun s => with_pending s (pending_path abs flags (pending s)));;
          mret (FRedirect (redirect_to path_arg_
            (proc_dir ++ to_string (getpid (host (world s))) ++ lit "/fd/" ++ to_string (anchor f))))
      end
  end.

(** ** Modes of files guest root opens and creates *)

Definition grant_root_write (abs hp : str) : C unit :=
  s ← get;
  let f := host (world s) in
  match stat_full f hp with
  | None => mret tt
  | Some st =>
      if negb (is_type (st_mode st) ft_regular)
         || (Z.land (st_mode st) 384 =? 384) || negb (st_uid st =? getuid f) then mret tt
      else
        let real := Z.land (st_mode st) MetaStore.kPermMask in
        e ← host_call (fun f => chmod_call f hp (Z.lor real 384));
        if negb (e =? 0) then mret tt
        else
          s ← get;
          let recorded := match MetaStore.lookup_meta (meta (world s)) abs with
                          | Some rec => MetaStore.has rec MetaStore.kMode
                          | None => false
                          end in
          if recorded then mret tt
          else update_meta (fun m => MetaStore.set_mode io m abs real MetaStore.no_host_mode)
  end.

Definition record_created_mode (fd : Z) : C unit :=
  s ← get;
  let f := host (world s) in
  match fstat_fd f (host_tid s) fd with
  | Some (Some st) =>
      let want := Z.land (st_mode st) MetaStore.kPermMask in
      let need := if is_type (st_mode st) ft_dir then 448 else 384 in
      if is_type (st_mode st) ft_regular && negb (Z.land want need =? need) && (st_uid st =? getuid f) then
        e ← fchmod_by_fd fd (Z.lor want need);
        if decide (e = Some 0)
        then update_meta (fun m => MetaStore.set_mode io m (pending_open (pending s)) want MetaStore.no_host_mode)
        else mret tt
      else mret tt
  | _ => mret tt
  end.

(** ** The memory map *)

Definition is_proc_maps (p : str) : bool := starts_with p proc_dir && ends_with p (lit "/maps").

(** The position of [" /"]. *)
Fixpoint find_path (line : str) : option nat :=
  match line with
  | c :: (d :: _) as rest => if bool_decide (c = " "%char) && bool_decide (d = slash) then Some 0%nat
                             else S <$> find_path rest
  | _ => None
  end.

Definition guest_line (ms : list Mount) (line : str) : str :=
  match find_path line with
  | None => line
  | Some k =>
      let hp := drop (S k) line in
      take (S k) line ++ match guest_path_of ms hp with [] => hp | g => g end
  end.

(** The lines of a text; a last one without a newline counts. *)
Fixpoint lines (cur : str) (t : str) : list str :=
  match t with
  | [] => match cur with [] => [] | _ => [cur] end
  | c :: t' => if decide (c = nl) then cur :: lines [] t' else lines (cur ++ [c]) t'
  end.

Definition guest_maps (s : Sys F M) : str :=
  match host_maps (host (world s)) (host_tid s) with
  | None => []
  | Some raw => concat (map (fun l => guest_line (mounts (world s)) l ++ [nl]) (lines [] raw))
  end.

(** ** open *)

Definition open_intent (flags : Z) : WriteIntent :=
  if writable flags && ((open_has flags o_creat && open_has flags excl) || open_has flags trunc)
  then parents_only else copy_leaf.

(** O_CREAT with O_EXCL: the reasons it fails before the host is asked. *)
Definition exclusive_error (flags : Z) (raw abs : str) (pc : PathClass) : C (option Errno) :=
  s ← get;
  let f := host (world s) in
  if negb (open_has flags o_creat && open_has flags excl) then mret None
  else if match path_syntax raw with ps_needs_dir => host_path_is_dir f (host_path pc) | _ => false end
  then mret (Some eisdir)
  else if match realm pc with host_backed => bool_decide (host_lexists f (host_path pc) = None) | _ => false end
  then mret (Some eexist)
  else link ← names_symlink io abs; mret (if (link : bool) then Some eexist else None).

(** O_NOFOLLOW on a link: ELOOP, or the link itself with O_PATH. *)
Definition nofollow_answer (flags : Z) (path_arg_ : nat) (abs : str) : C (option Fate) :=
  if negb (has_for arch flags nofollow) then mret None
  else
    named ← do_classify io abs false false copy_leaf;
    s ← get;
    if negb (host_path_is_symlink (host (world s)) (host_path named)) then mret None
    else if negb (has_for arch flags path) then mret (Some (error eloop))
    else
      update (fun s => with_pending s (pending_path abs 0 (pending s)));;
      mret (Some (FRedirect (redirect_to path_arg_ (host_path named)))).

Definition open_host (flags : Z) (path_arg_ : nat) (abs hp : str) : C Fate :=
  s ← get;
  let f := host (world s) in
  let fifo := if fifos_emulated && negb (has_for arch flags path) && MetaStore.is_fifo (meta (world s)) abs
              then match stat_full f hp with
                   | Some st => if is_type (st_mode st) ft_regular then Some (u64 (st_dev st), u64 (st_ino st)) else None
                   | None => None
                   end
              else None in
  match fifo with
  | Some key => fifo_open abs key flags path_arg_
  | None =>
      update (fun s => with_pending s (pending_path abs flags (pending s)));;
      (if writable flags then grant_root_write abs hp
       else update (fun s => with_pending s
              {| pending_open := pending_open (pending s); pending_flags := pending_flags (pending s);
                 pending_dir := true; pending_lazy := abs; pending_entries := pending_entries (pending s) |}));;
      s ← get;
      let blocks := negb (has_for arch flags nonblock) && negb (has_for arch flags path)
                    && match stat_full (host (world s)) hp with
                       | Some st => is_type (st_mode st) ft_fifo
                       | None => false
                       end in
      mret (FRedirect {| first := path_arg (Z.of_nat path_arg_) hp; second := None; make_parents := false;
                         may_block := blocks; force_ret := None; scrub := None |})
  end.

Definition open_virtual (flags : Z) (path_arg_ : nat) (vp : str) : C Fate :=
  if writable flags && negb (virtual_is_writable vp) then mret (error eacces)
  else
    vf ← do_produce vp;
    match vf with
    | inr e => mret (error e)
    | inl vf =>
        s ← get;
        let bytes := if bool_decide (vf_bytes vf = []) && is_proc_maps vp
                     then map Dirents.byte_of (guest_maps s) else vf_bytes vf in
        set_pending {| pending_open := vp; pending_flags := 0; pending_dir := vf_is_dir vf;
                       pending_lazy := pending_lazy (pending s); pending_entries := vf_entries vf |};;
        mret (FInject {| inj_path_arg := Z.of_nat path_arg_; content := bytes; Abi.is_dir := vf_is_dir vf |})
    end.

Definition path_open_flags (r : Regs) (path_arg_ : nat) (at_ : bool) (flags : Z) : C Fate :=
  raw0 ← cstr_arg r path_arg_;
  match raw0 with
  | [] => mret (if has_at flags empty_path then forward else error enoent)
  | _ =>
      e ← dot_prefix_error io r path_arg_ at_;
      unless_errno e (
        abs ← resolve_arg io live r path_arg_ at_ true;
        pc ← do_classify io abs (writable flags) true (open_intent flags);
        e ← exclusive_error flags raw0 abs pc;
        unless_errno e (
          early ← nofollow_answer flags path_arg_ abs;
          match early with
          | Some f => mret f
          | None =>
              s ← get;
              if bool_decide (open_intent flags = parents_only)
                 && dot_traversal_denied (host (world s)) raw0 (host_path pc)
              then mret (error eacces)
              else
                match realm pc with
                | host_backed => open_host flags path_arg_ abs (host_path pc)
                | virtual_file => open_virtual flags path_arg_ (virtual_name pc abs)
                | absent => mret (error (pc_error pc))
                end
          end))
  end.

Definition path_open (r : Regs) (path_arg_ : nat) (at_ : bool) : C Fate :=
  path_open_flags r path_arg_ at_ (arg r (S path_arg_)).

Definition path_openat2 (r : Regs) : C Fate :=
  s ← get;
  path_open_flags r 1 true (match copy_in (mem s) (arg r 2) 8 with Some b => le_val b | None => 0 end).

(** ** When the descriptor is known *)

Record PendingOpen := { po_pid : Z; po_ppid : Z; po_path : str; po_flags : Z }.

Definition take_pending_open : C PendingOpen := fun s =>
  Some ({| po_pid := pid (me s); po_ppid := ppid (me s); po_path := pending_open (pending s);
           po_flags := pending_flags (pending s) |},
        with_pending s {| pending_open := []; pending_flags := pending_flags (pending s); pending_dir := false;
                          pending_lazy := []; pending_entries := [] |}).

Definition update_procs (f : Procs -> Procs) : C unit := update (fun s => with_procs s (f (procs s))).

Definition note_tty (fd : Z) (opened : str) (flags : Z) : C unit := fun s =>
  let paths := fun fd => (path_of_fd (procs s) fd).1 in
  match JobControl.note_opened_tty live (me s) paths
          {| JobControl.procs := ptable s; JobControl.fg_pgrp := ∅; JobControl.mem := tt |} fd opened flags with
  | None => None
  | Some w => Some (tt, with_ptable s (JobControl.procs w))
  end.

Definition note_opened_fd (fd : Z) : C unit :=
  s ← get;
  update (fun s => with_release (with_world s (with_host (world s)
            (fold_left close_fd (fifo_release s) (host (world s))))) []);;
  let p := pending s in
  let fd_ := i32 fd in
  (if 0 <=? fd then update_procs (fun ps => unbind_fd ps fd_) else mret tt);;
  (if (0 <=? fd) && negb (bool_decide (pending_open p = [])) then
     update_procs (fun ps => bind_fd ps fd_ (pending_open p));;
     (if open_has (pending_flags p) o_creat then
        update_whites (fun w => clear_whiteout_if_any io w (pending_open p));;
        record_created_mode fd_
      else mret tt);;
     note_tty fd_ (pending_open p) (pending_flags p);;
     (if pending_dir p then
        update_procs (fun ps => match pending_lazy p with
                                | [] => bind_dir ps fd_ (pending_entries p)
                                | lazy => bind_lazy_dir ps fd_ lazy
                                end)
      else mret tt)
   else mret tt);;
  set_pending {| pending_open := []; pending_flags := pending_flags p; pending_dir := false;
                 pending_lazy := []; pending_entries := [] |}.

Definition finish_pending_open (p : PendingOpen) (fd : Z) : C unit :=
  update_procs (fun ps => set_current_pid ps (po_pid p) (po_ppid p));;
  update (fun s => with_pending s (pending_path (po_path p)
            (Z.land (po_flags p) (u64 (Z.lnot (open_bits o_creat)))) (pending s)));;
  note_opened_fd fd.

(** ** Host paths of 4096 bytes and more *)

Definition kPathMax : nat := Z.to_nat 4096.

(** The calls whose path register follows a directory's. *)
Definition takes_dirfd (sc : Sysno.t) : bool :=
  match sc with
  | openat | openat2 | mkdirat | mknodat | unlinkat | newfstatat | statx | fchmodat | fchmodat2
  | fchownat | faccessat | faccessat2 | utimensat | readlinkat | symlinkat | linkat | renameat
  | renameat2 => true
  | _ => false
  end.

(** The end of the last directory the two paths share. *)
Fixpoint common_dirs (k common : nat) (base host_ : str) : nat :=
  match base, host_ with
  | b :: base', h :: host' =>
      if decide (b = h) then common_dirs (S k) (if decide (b = slash) then S k else common) base' host'
      else common
  | _, _ => common
  end.

Definition relative_to (base host_ : str) : str :=
  let common := common_dirs 0 0 base host_ in
  let ups := length (List.filter (fun c => bool_decide (c = slash)) (drop common base)) in
  match concat (replicate ups (dotdot ++ [slash])) ++ drop common host_ with
  | [] => dot
  | rest => rest
  end.

Definition rebase_on_dirfd (r : Regs) (path_arg_ : Z) (host_ : str) : C (option str) :=
  if (length host_ <? kPathMax)%nat || (path_arg_ <? 0) then mret None
  else
    let at_ := takes_dirfd (decode arch (regs_nr r)) && (1 <=? path_arg_) in
    let dirfd := if at_ then i32 (arg r (Z.to_nat (path_arg_ - 1))) else kAtFdCwd in
    s ← get;
    gdir ← (if dirfd =? kAtFdCwd then mret (cwd (procs s))
            else if 0 <=? dirfd then fd_path dirfd else mret []);
    match gdir with
    | [] => mret None
    | _ =>
        pc ← classify_read io gdir;
        s ← get;
        match realm pc, host_path pc with
        | host_backed, (_ :: _) as hp =>
            let base := if decide (last hp = Some slash) then hp else hp ++ [slash] in
            if (length host_ =? length base - 1)%nat && starts_with base host_ then mret (Some dot)
            else
              let rest := relative_to base host_ in
              if (kPathMax <=? length rest)%nat then mret None
              else if (dirfd =? kAtFdCwd) && negb (host_cwd_is s hp) then mret None
              else mret (Some rest)
        | _, _ => mret None
        end
    end.

End handlers.

End OpenCalls.
