(* ===== verification/NameCalls.v ===== *)
(** The handlers that give files other names ([include/linuxity/abi/syscall.hpp],
    [Syscalls]): [path_mut2] for rename and link, [link_from_fd],
    [path_symlink], the probe [host_links_work], and [emulate_link_from_fd]
    of [include/linuxity/kernel/file_namespace.hpp].

    [HostNames] is what these ask of the host: [link], the calls on a
    descriptor of the tracee, and a file opened anew.  [order] is the
    iteration order of the link table, [forced] whether
    LINUXITY_FORCE_LINK_EMULATION is set. *)

From S2P Require Import Prelude Sysno Abi Dispatch Paths CText GuestMem HostFs Whiteouts MetaStore LinkTable Dirents Namespace NamespaceSafety ProcessTable JobControl ProcState PathResolve PathArgs StatWire PathCalls MutCalls OpenCalls.
Import Sysno Abi Dispatch Paths CText HostFs Whiteouts Mounts Overlay ProcState PathArgs StatWire PathCalls MutCalls OpenCalls.

Module NameCalls.

(** Results are 0 or an errno.  [link_fd] is [linkat] from [/proc/self/fd],
    [fd_target] that link's text, [open_new] [O_CREAT | O_EXCL], [pread_fd]
    a read of up to 65536 bytes at an offset, [errno] the current one. *)
Class HostNames (F : Type) := {
  hlink : F -> str -> str -> F * Z;
  link_fd : F -> Z -> Z -> str -> F * Z;
  fd_target : F -> Z -> Z -> option str;
  open_new : F -> str -> Z -> F * (Z + Z);
  pread_fd : F -> Z -> Z -> nat -> list Z + Z;
  errno : F -> Z
}.

Section handlers.
Context {F M : Type} `{HostFs F} `{HostAccess F} `{HostStats F} `{HostFiles F} `{HostMeta F} `{HostOpen F} `{HostNames F} `{GuestMem M}.
Context (io : bool) (arch : Arch) (live : option ProcessTable.LiveSource).
Context (order : gmap str str -> list (str * str)) (forced : bool).
Notation C := (Call F M).

(** ** Can this file system link? *)

Definition probe_a : str := lit "/.lx-linkprobe-a".
Definition probe_b : str := lit "/.lx-linkprobe-b".

Definition host_links_work (near : str) : C bool :=
  if forced then mret false
  else
    match rfind slash near with
    | None => mret false
    | Some k =>
        let dir := take k near in
        s ← get;
        match stat_full (host (world s)) dir with
        | None => mret false
        | Some st =>
            match links_work s !! st_dev st with
            | Some b => mret b
            | None =>
                let a := dir ++ probe_a in
                let b := dir ++ probe_b in
                _ ← host_call (fun f => hunlink f a);
                _ ← host_call (fun f => hunlink f b);
                e ← host_call (fun f => hcreat_excl f a);
                if negb (e =? 0) then mret false
                else
                  e ← host_call (fun f => hlink f a b);
                  _ ← host_call (fun f => hunlink f a);
                  _ ← host_call (fun f => hunlink f b);
                  update (fun s => with_links_work s (<[st_dev st := (e =? 0)]> (links_work s)));;
                  mret (e =? 0)
            end
        end
    end.

(** ** A link to an open file *)

Definition magic_fd_of (id : TaskIdentity) (p : str) : Z :=
  let pres := [lit "/proc/self/fd/"; lit "/proc/thread-self/fd/"; proc_dir ++ to_string (pid id) ++ lit "/fd/"] in
  match find (fun pre => starts_with p pre) pres with
  | None => -1
  | Some pre =>
      let s := drop (length pre) p in
      if bool_decide (s = []) || (9 <? length s)%nat || negb (forallb JobControl.is_digit s) then -1
      else JobControl.atoi_digits s
  end.

(** The copy loop: [None] when the fuel runs out. *)
Fixpoint copy_fd (fuel : nat) (f : F) (tid fd out : Z) (off : nat) : option (F * Z) :=
  match fuel with
  | O => None
  | S fuel' =>
      match pread_fd f tid fd off with
      | inr e => Some (f, e)
      | inl [] => Some (f, 0)
      | inl bs =>
          let '(f, n) := write f out bs in
          if n =? Z.of_nat (length bs) then copy_fd fuel' f tid fd out (off + length bs) else Some (f, errno f)
      end
  end.

Definition emulate_link_from_fd (f : F) (tid fd : Z) (st : HostStat) (dst : str) : option (F * Z) :=
  if is_ok (lstat f dst) then Some (f, errno_value eexist)
  else
    let mode := Z.land (st_mode st) 4095 in
    match open_new f dst mode with
    | (f, inr e) => Some (f, e)
    | (f, inl out) =>
        match copy_fd (S (S (Z.to_nat (st_size st)))) f tid fd out 0 with
        | None => None
        | Some (f, e) => if e =? 0 then Some (chmod f dst mode, 0) else Some (unlink f dst, e)
        end
    end.

Definition lift_host {A} (g : F -> option (F * A)) : C A := fun s =>
  match g (host (world s)) with
  | Some (f, x) => Some (x, with_world s (with_host (world s) f))
  | None => None
  end.

Definition add_link (a b : str) : C unit :=
  update_world (fun w => with_links w (LinkTable.add io (links w) a b)).

Definition link_from_fd (r : Regs) (fd : Z) (a2 : nat) (at_ : bool) : C Fate :=
  empty ← empty_path_arg r a2 (-1);
  if (empty : bool) then mret (error enoent)
  else
    dst ← resolve_second io r a2 at_;
    pd ← do_classify io dst true false parents_only;
    s ← get;
    let f := host (world s) in
    match realm pd, host_path pd with
    | host_backed, (_ :: _) as hp =>
        match fstat_fd f (host_tid s) fd with
        | None => mret (error ebadf)
        | Some None => mret (value (- errno f))
        | Some (Some st) =>
            if is_type (st_mode st) ft_dir then mret (error eperm)
            else if is_ok (lstat f hp) then mret (error eexist)
            else
              works ← host_links_work hp;
              if (works : bool) then
                e ← host_call (fun f => link_fd f (host_tid s) fd hp); mret (value (- e))
              else if st_nlink st =? 0 then
                e ← lift_host (fun f => emulate_link_from_fd f (host_tid s) fd st hp); mret (value (- e))
              else
                s ← get;
                match fd_target (host (world s)) (host_tid s) fd with
                | None | Some [] => mret (error enoent)
                | Some tgt =>
                    e ← host_call (fun f => hcreat_excl f hp);
                    if negb (e =? 0) then mret (value (- e))
                    else
                      s ← get;
                      add_link hp (LinkTable.resolve (links (world s)) (c_str (take (Z.to_nat 4095) tgt)));;
                      mret (value 0)
                end
        end
    | _, _ => mret (error exdev)
    end.

(** ** rename and link *)

Definition do_classify_name (abs : str) (wi : WriteIntent) : C PathClass := fun s =>
  let '(pc, w) := classify_name io (world s) abs true false wi in Some (pc, with_world s w).

(** Both paths of the call, as the host has them. *)
Record Names := { n_raw1 : str; n_raw2 : str; n_src : str; n_dst : str; n_ps : PathClass; n_pd : PathClass }.

Definition exists_named (f : F) (p : str) : bool := bool_decide (host_lexists f p = None).

(** Searching and walking what the dots hide. *)
Definition traversal_error (r : Regs) (a1 a2 : nat) (at_ move_meta : bool) (n : Names) : C (option Errno) :=
  let hs := host_path (n_ps n) in
  let hd := host_path (n_pd n) in
  e ← dot_prefix_error io r a1 at_;
  match e with
  | Some e => mret (Some e)
  | None =>
      e ← guest_prefix_loop io (n_src n);
      match e with
      | Some e => mret (Some e)
      | None =>
          s ← get;
          let f := host (world s) in
          let gone_ := negb move_meta && negb (bool_decide (hs = [])) && bool_decide (realm (n_ps n) = host_backed)
                       && negb (exists_named f hs) in
          e ← (if gone_ then mret None else dot_prefix_error io r a2 at_);
          match e with
          | Some e => mret (Some e)
          | None =>
              if dot_traversal_denied f (n_raw1 n) hs || negb (host_dir_searchable f hs) then mret (Some eacces)
              else if negb gone_ && (dot_traversal_denied f (n_raw2 n) hd || negb (host_dir_searchable f hd))
              then mret (Some eacces)
              else if exists_named f hs then guest_prefix_loop io (n_dst n)
              else mret None
          end
      end
  end.

Definition needs_dir (raw : str) : bool := match path_syntax raw with ps_needs_dir => true | _ => false end.
Definition has_dot (raw : str) : bool := match dot_tail raw with dt_none => false | _ => true end.

Definition first_error (l : list (option Errno)) : option Errno := head (omap id l).
Definition when (b : bool) (e : Errno) : option Errno := if b then Some e else None.

(** rename refuses dot names, and slashes on what is not a directory. *)
Definition rename_error (f : F) (n : Names) : option Errno :=
  let hs := host_path (n_ps n) in
  let hd := host_path (n_pd n) in
  if has_dot (n_raw1 n) || has_dot (n_raw2 n) then
    first_error [when (negb (parent_is_dir f hs) || negb (parent_is_dir f hd)) enotdir;
                 parent_resolves f hs; parent_resolves f hd; Some ebusy]
  else if needs_dir (n_raw1 n) || needs_dir (n_raw2 n) then
    first_error [when (negb (parent_is_dir f hs)) enotdir; host_lexists f hs;
                 when (host_path_is_dir f hd && path_is_ancestor hd hs) enotempty;
                 when (negb (host_path_is_dir_nofollow f hs)) enotdir]
  else None.

Definition link_error (f : F) (n : Names) : option Errno :=
  let hs := host_path (n_ps n) in
  let hd := host_path (n_pd n) in
  if needs_dir (n_raw1 n) || needs_dir (n_raw2 n) then
    first_error [host_lexists f hs; when (needs_dir (n_raw1 n) && negb (host_path_is_dir_nofollow f hs)) enotdir;
                 when (exists_named f hd) eexist; when (negb (host_dir_searchable f hd)) eacces;
                 parent_resolves f hd; when (negb (parent_is_dir f hd)) enotdir;
                 when (needs_dir (n_raw2 n)) enoent; when (host_path_is_dir f hs) eperm; Some enoent]
  else None.

(** Virtual mounts take part only when both names are real files on them. *)
Definition mount_error (ms : list Mount) (move_meta : bool) (n : Names) : option Errno :=
  let hs := host_path (n_ps n) in
  let hd := host_path (n_pd n) in
  let sv := under_virtual_mount ms (n_src n) in
  let dv := under_virtual_mount ms (n_dst n) in
  let both_real := bool_decide (realm (n_ps n) = host_backed) && negb (bool_decide (hs = []))
                   && negb (bool_decide (hd = [])) in
  if negb (Bool.eqb sv dv) then Some exdev
  else if sv && negb both_real then
    Some (match realm (n_ps n), realm (n_pd n) with
          | absent, _ => enoent
          | _, virtual_file => if move_meta then eperm else eexist
          | _, _ => enoent
          end)
  else if decide (hs = []) then Some (pc_error (n_ps n))
  else if decide (hd = []) then Some (pc_error (n_pd n))
  else None.

(** A host without links: a placeholder and an entry of the table. *)
Definition emulate_link (hs hd : str) : C Fate :=
  s ← get;
  match lstat (host (world s)) hs with
  | inr e => mret (value (- e))
  | inl nd =>
      if is_directory nd then mret (error eperm)
      else
        e ← host_call (fun f => hcreat_excl f hd);
        if negb (e =? 0) then mret (value (- e))
        else add_link hd hs;; mret (value 0)
  end.

Definition rename_with_links (r : Regs) (from to : str) (flags_arg : Z) : C Fate := fun s =>
  let w := world s in
  let flags := if 0 <=? flags_arg then u32 (arg r (Z.to_nat flags_arg)) else 0 in
  let '(lt, h, v) := LinkOps.rename_with_links io order (links w) (host w) from to flags in
  Some (value v, with_world s (with_host (with_links w lt) h)).

(** Once both names are accepted. *)
Definition apply_names (r : Regs) (a1 a2 : nat) (move_meta : bool) (rename_flags_arg : Z) (n : Names) : C Fate :=
  let hs := host_path (n_ps n) in
  let hd := host_path (n_pd n) in
  let go : C Fate :=
    mret (FRedirect (with_path (redirect_to a1 hs) (path_arg (Z.of_nat a2) hd))) in
  if move_meta then
    update_meta (fun m => MetaStore.rename io m (n_src n) (n_dst n));;
    s ← get;
    let lt := links (world s) in
    if negb (LinkTable.is_empty lt) && (LinkTable.touches order lt hs || LinkTable.touches order lt hd)
    then rename_with_links r hs hd rename_flags_arg
    else go
  else
    works ← host_links_work hd;
    if (works : bool) then go else emulate_link hs hd.

Definition path_mut2 (r : Regs) (a1 a2 : nat) (at_ move_meta : bool) (link_flags_arg rename_flags_arg : Z) : C Fate :=
  empty1 ← empty_cstr_arg r a1;
  s ← get;
  link_fd_ ← (if 0 <=? link_flags_arg then
                let lf := arg r (Z.to_nat link_flags_arg) in
                if (empty1 : bool) && has_at lf empty_path then mret (i32 (arg r 0))
                else if has_at lf symlink_follow
                then p ← resolve_arg io live r a1 at_ true; mret (magic_fd_of (me s) p)
                else mret (-1)
              else mret (-1));
  if 0 <=? link_fd_ then link_from_fd r link_fd_ a2 at_
  else
    e1 ← empty_path_arg r a1 (-1);
    e2 ← empty_path_arg r a2 (-1);
    if (e1 : bool) || (e2 : bool) then mret (error enoent)
    else
      raw1 ← cstr_arg r a1;
      raw2 ← cstr_arg r a2;
      src ← resolve_arg io live r a1 at_ true;
      dst ← resolve_second io r a2 at_;
      ps ← (if move_meta then do_classify_name src copy_leaf else do_classify io src true false copy_leaf);
      pd ← (if move_meta then do_classify_name dst parents_only else do_classify io dst true false parents_only);
      let n := {| n_raw1 := raw1; n_raw2 := raw2; n_src := src; n_dst := dst; n_ps := ps; n_pd := pd |} in
      e ← traversal_error r a1 a2 at_ move_meta n;
      unless_errno e (
        s ← get;
        let f := host (world s) in
        unless_errno (if move_meta then rename_error f n else link_error f n) (
        unless_errno (mount_error (mounts (world s)) move_meta n) (
          apply_names r a1 a2 move_meta rename_flags_arg n))).

(** ** symlink *)

(** The name of the link, resolved. *)
Definition link_name (r : Regs) (link_arg : nat) (at_ : bool) : C str :=
  if at_ then resolve_second io r link_arg true
  else raw ← cstr_arg r link_arg; s ← get; do_absolutize io raw (cwd (procs s)).

(** Trailing slashes go, one character stays. *)
Definition strip_slashes (p : str) : str := reverse (drop_slashes (reverse p)).

(** A name that ends in a slash is refused; which error depends on what is
    there. *)
Definition slash_refusal (r : Regs) (link_arg : nat) (at_ : bool) : C Errno :=
  probe ← link_name r link_arg at_;
  pc ← do_classify io (strip_slashes probe) false false copy_leaf;
  s ← get;
  let f := host (world s) in
  mret match realm pc with
       | virtual_file => eexist
       | absent => enoent
       | host_backed =>
           if negb (bool_decide (host_path pc = [])) && bool_decide (is_Some (stat_host_path f (host_path pc)))
           then eexist
           else if negb (host_dir_searchable f (host_path pc)) then eacces
           else enoent
       end.

Definition path_symlink (r : Regs) (target_arg link_arg : nat) (at_ : bool) : C Fate :=
  e1 ← empty_path_arg r link_arg (-1);
  if (e1 : bool) then mret (error enoent)
  else
    e2 ← empty_path_arg r target_arg (-1);
    if (e2 : bool) then mret (error enoent)
    else
      e ← dot_prefix_error io r link_arg at_;
      unless_errno e (
        raw ← cstr_arg r link_arg;
        if needs_dir raw then e ← slash_refusal r link_arg at_; mret (error e)
        else
          link ← link_name r link_arg at_;
          pc ← do_classify io link true false parents_only;
          s ← get;
          if dot_traversal_denied (host (world s)) raw (host_path pc) then mret (error eacces)
          else
            e ← guest_prefix_loop io link;
            unless_errno e (
              mret match realm pc, host_path pc with
                   | virtual_file, _ => error (virtual_mut_errno link vm_exists)
                   | _, [] => error (pc_error pc)
                   | _, hp => FRedirect (redirect_to link_arg hp)
                   end)).

End handlers.

End NameCalls.
