(* ===== verification/SockCalls.v ===== *)
(** AF_UNIX addresses: [do_sockaddr_un] of [include/linuxity/abi/syscall.hpp],
    which rewrites the path of bind and connect, and [abstract_name_for] of
    [include/linuxity/kernel/socket_ns.hpp].

    Whether the host wants sockets in the abstract namespace, and the id of
    this run, are the arguments [ns] and [instance]. *)

From S2P Require Import Prelude Sysno Abi Dispatch Paths CText GuestMem HostFs Whiteouts MetaStore LinkTable Dirents Namespace NamespaceSafety ProcessTable JobControl ProcState PathResolve PathArgs StatWire PathCalls MutCalls.
Import Sysno Abi Dispatch Paths CText HostFs Mounts Overlay ProcState PathArgs StatWire PathCalls MutCalls Access.

Module SockCalls.

Inductive SocketNs := filesystem | abstract.

(** ** Abstract names *)

Definition fnv_step (h : Z) (c : ascii) : Z := u64 (Z.lxor h (Dirents.byte_of c) * 1099511628211).
Definition fnv (p : str) : Z := fold_left fnv_step p 1469598103934665603.

Definition hex_digit (n : Z) : ascii :=
  default "0"%char (lit "0123456789abcdef" !! Z.to_nat n).

(** Sixteen digits, most significant first. *)
Definition hex16 (v : Z) : str :=
  map (fun i => hex_digit (Z.land (Z.shiftr v (60 - 4 * Z.of_nat i)) 15)) (seq 0 16).

Definition abstract_name_for (guest_path : str) (instance : Z) : str :=
  lit "linuxity/" ++ hex16 instance ++ [slash] ++ hex16 (fnv guest_path).

(** ** bind and connect *)

Section handlers.
Context {F M : Type} `{HostFs F} `{HostFiles F} `{HostMeta F} `{GuestMem M}.
Context (io : bool) (ns : SocketNs) (instance : Z).
Notation C := (Call F M).

Definition kSunPath : Z := 108.

(** The path of the address, absolute; [None] when the call is left alone. *)
Definition sun_path (r : Regs) : C (option str) :=
  s ← get;
  let addr := arg r 1 in
  let len := arg r 2 in
  if (addr =? 0) || (len <? 3) || negb (get_u16 (mem s) addr =? 1) then mret None
  else
    match copy_in (mem s) (u64 (addr + 2)) (Z.to_nat (Z.min (len - 2) kSunPath)) with
    | None => mret None
    | Some bs =>
        match c_str (map char_of bs) with
        | [] => mret None
        | p => if decide (head p = Some slash) then mret (Some p)
               else q ← do_absolutize io p (cwd (procs s)); mret (Some q)
        end
    end.

Definition host_unlink (p : str) : C unit := update_world (fun w => with_host w (unlink (host w) p)).

(** The empty file a bind in the abstract namespace leaves at its name. *)
Definition leave_placeholder (guest_path : str) : C unit :=
  pc ← do_classify io guest_path true false parents_only;
  match realm pc, host_path pc with
  | host_backed, (_ :: _) as hp =>
      host_unlink hp;;
      e ← host_call (fun f => hcreat_excl f hp);
      if e =? 0 then update (fun s => with_socks s ({[ guest_path ]} ∪ sock_placeholders s)) else mret tt
  | _, _ => mret tt
  end.

Definition sock_rewrite (r : Regs) (bytes : str) (new_len_ : Z) : Fate :=
  FSockRewrite {| path_addr := u64 (arg r 1 + 2); sock_host_path := bytes; len_arg := 2; new_len := new_len_ |}.

Definition do_sockaddr_un (r : Regs) (for_bind : bool) : C Fate :=
  gp ← sun_path r;
  s ← get;
  match gp with
  | None => mret forward
  | Some guest_path =>
      if is_host_side_path (mounts (world s)) guest_path then mret forward
      else
        match ns with
        | abstract =>
            (if for_bind then leave_placeholder guest_path else mret tt);;
            let bytes := nul :: abstract_name_for guest_path instance in
            mret (if (kSunPath <? Z.of_nat (length bytes)) then forward
                  else sock_rewrite r bytes (2 + Z.of_nat (length bytes)))
        | filesystem =>
            pc ← do_classify io guest_path for_bind false (if for_bind then parents_only else copy_leaf);
            match realm pc, host_path pc with
            | virtual_file, _ | _, [] => mret forward
            | _, hp =>
                if (kSunPath <? Z.of_nat (length hp) + 1) then mret forward
                else
                  (if for_bind then
                     rd ← do_classify io guest_path false false copy_leaf;
                     host_unlink hp;;
                     (if negb (bool_decide (host_path rd = [])) && negb (bool_decide (host_path rd = hp))
                      then host_unlink (host_path rd) else mret tt)
                   else mret tt);;
                  mret (sock_rewrite r hp (2 + Z.of_nat (length hp) + 1))
            end
        end
  end.

End handlers.

End SockCalls.
