(* ===== verification/SysDispatch.v ===== *)
(** [Syscalls::dispatch] ([include/linuxity/abi/syscall.hpp]): the remaining
    case bodies of the switch and the composition of all of them.

    [run_handler] runs the handler a case of [Dispatch.route] names on the
    dispatcher's whole state, and [dispatch] is one trapped call: decode the
    number, select the caller's process state, switch.  The handlers of
    [JobControl] and [Dirents] act on their part of the state ([on_job],
    [on_dirs]).  The instance is that of a backend without process groups of
    its own, as the ptrace one is. *)

From S2P Require Import Prelude Sysno Abi Dispatch Paths CText GuestMem HostFs Whiteouts MetaStore LinkTable Dirents Namespace NamespaceSafety ProcessTable JobControl OverlayDir ProcState PathResolve PathArgs StatWire MachineInfo PathCalls MutCalls OpenCalls NameCalls SockCalls.
Import Sysno Abi Dispatch HostFs Mounts Overlay ProcState PathArgs.

Module SysDispatch.

(** What the run is configured with. *)
Record Config := {
  case_insensitive : bool;
  guest_arch : Arch;
  host_machine : Arch;
  live_source : option ProcessTable.LiveSource;
  emulate_fifos : bool;
  force_links : bool;
  pacman_overwrite : bool;
  machine : MachineInfo.MachineSpec;
  socket_ns : SockCalls.SocketNs;
  run_instance : Z;
  link_order : gmap str str -> list (str * str);
  dir_order : OverlayDir.NameMap -> list (str * OverlayDir.DirEntryInfo);
  tid_on_host : Z -> Z
}.

Definition known_fs_type (t : str) : bool :=
  existsb (fun k => bool_decide (t = k))
    [lit "proc"; lit "sysfs"; lit "tmpfs"; lit "ext4"; lit "devtmpfs"; lit "devpts"; lit "overlay";
     lit "ramfs"; lit "bind"; lit "none"].

Definition kMsBind : Z := 0x1000.

Section dispatch.
Context {F M : Type} `{HostFs F} `{HostAccess F} `{StatWire.HostStats F}
  `{HostFiles F} `{MutCalls.HostMeta F} `{OpenCalls.HostOpen F} `{NameCalls.HostNames F}
  `{MachineInfo.HostCpus F} `{GuestMem M}.
Context (c : Config).
Local Abbreviation C := (PathArgs.Call F M).
Local Abbreviation io := (case_insensitive c).
Local Abbreviation live := (live_source c).

(** ** Handlers on part of the state *)

Definition job_world (s : Sys F M) : JobControl.World (M := M) :=
  {| JobControl.procs := ptable s; JobControl.fg_pgrp := fg_pgrp s; JobControl.mem := mem s |}.

Definition on_job (f : Sys F M -> JobControl.World -> option (JobControl.World * Fate)) : C Fate := fun s =>
  '(w, o) ← f s (job_world s);
  Some (o, with_mem (with_fg_pgrp (with_ptable s (JobControl.procs w)) (JobControl.fg_pgrp w))
             (JobControl.mem w)).

Definition reads_job (f : Sys F M -> JobControl.World -> option Fate) : C Fate := fun s =>
  o ← f s (job_world s); Some (o, s).

Definition on_dirs (f : (str -> list Dirents.VirtualDirent) -> Dirents.World -> Dirents.World * Fate) : C Fate :=
  fun s =>
  let '(t, ps) := fds (procs s) in
  let '(w, o) := f (OverlayDir.overlay_dir_union (dir_order c) (world s))
                   {| Dirents.dirs := streams t; Dirents.mem := mem s |} in
  Some (o, with_mem (with_procs s (with_table ps {| paths := paths t; streams := Dirents.dirs w |}))
             (Dirents.mem w)).

Definition do_kill (r : Regs) : C Fate := reads_job (fun s w => JobControl.do_kill live (me s) w r).
Definition do_getpgrp : C Fate := reads_job (fun s w => JobControl.do_getpgrp live (me s) w).
Definition do_getpgid (r : Regs) : C Fate := reads_job (fun s w => JobControl.do_getpgid live (me s) w r).
Definition do_getsid (r : Regs) : C Fate := reads_job (fun s w => JobControl.do_getsid live (me s) w r).
Definition do_setpgid (r : Regs) : C Fate := on_job (fun s w => JobControl.do_setpgid live (me s) w r).
Definition do_setsid : C Fate := on_job (fun s w => JobControl.do_setsid live (me s) w).
Definition do_setgroups (r : Regs) : C Fate :=
  on_job (fun s w => Some (JobControl.do_setgroups (me s) w r)).
Definition do_getgroups (r : Regs) : C Fate := on_job (fun s w => JobControl.do_getgroups live (me s) w r).

(** The requests whose handler looks the descriptor up, which makes the
    caller's table if it has none. *)
Definition ioctl_looks_up (s : Sys F M) (r : Regs) : option bool :=
  let request := Z.land (arg r 1) 0xffffffff in
  if request =? JobControl.kTIOCNOTTY
  then have ← ProcessTable.ctty_of live (ptable s) (pid (me s)); Some (have <? 0)
  else Some (existsb (Z.eqb request)
               [JobControl.kTIOCSCTTY; JobControl.kTIOCGPGRP; JobControl.kTIOCGSID; JobControl.kTIOCSPGRP]).

Definition do_ioctl (r : Regs) : C Fate := fun s =>
  looks ← ioctl_looks_up s r;
  on_job (fun s w =>
    JobControl.do_ioctl live (me s) (fun fd => (path_of_fd (procs s) fd).1)
      (fun fd => NameCalls.fd_target (host (world s)) (host_tid s) fd) w r)
    (if looks : bool then with_procs s (fds (procs s)).2 else s).

Definition do_getdents64 (r : Regs) : C Fate := on_dirs (fun u w => Dirents.do_getdents64 u w r).
Definition do_lseek (r : Regs) : C Fate := on_dirs (fun u w => Dirents.do_lseek u w r).

(** ** The case bodies written in the switch *)

Definition do_identity (sc : Sysno.t) : C Fate :=
  s ← get;
  mret (match identity_answer sc (me s) with Some a => value a | None => forward end).

Definition do_set_tid_address : C Fate := s ← get; mret (value (tid (me s))).

Definition do_fxattr (r : Regs) : C Fate :=
  name ← cstr_arg r 1;
  mret (if PathCalls.dropped_xattr name then value 0 else forward).

Definition bind_source_error (src : str) : C (option Errno) :=
  s ← get;
  abs ← do_absolutize io src (cwd (procs s));
  pc ← classify_read io abs;
  s ← get;
  mret (match realm pc with
        | absent => Some (pc_error pc)
        | host_backed =>
            if negb (bool_decide (host_path pc = []))
               && negb (bool_decide (is_Some (StatWire.stat_host_path (host (world s)) (host_path pc))))
            then Some enoent else None
        | virtual_file => None
        end).

Definition remember_mount (tgt : str) : C unit :=
  if bool_decide (tgt = []) then mret tt
  else
    s ← get;
    abs ← do_absolutize io tgt (cwd (procs s));
    update (fun s => with_guest_mounts s ({[abs]} ∪ guest_mounts s)).

Definition do_mount (r : Regs) : C Fate :=
  type ← cstr_arg r 2;
  if negb (bool_decide (type = [])) && negb (known_fs_type type) then mret (error enodev)
  else
    src ← cstr_arg r 0;
    e ← (if negb (Z.land (arg r 3) kMsBind =? 0) && negb (bool_decide (src = []))
         then bind_source_error src else mret None);
    unless_errno e (tgt ← cstr_arg r 1; remember_mount tgt;; mret (value 0)).

Definition do_umount2 (r : Regs) : C Fate :=
  raw ← cstr_arg r 0;
  if bool_decide (raw = []) then mret (error efault)
  else
    s ← get;
    tgt ← do_absolutize io raw (cwd (procs s));
    s ← get;
    update (fun s => with_guest_mounts s (guest_mounts s ∖ {[tgt]}));;
    mret (if negb (bool_decide (tgt ∈ guest_mounts s)) && negb (is_mount_point (mounts (world s)) tgt)
          then error einval else value 0).

(** The bytes before a NUL. *)
Definition name_of (bs : list Z) : str := CText.c_str (text_of bs).

Definition set_name (r : Regs) : C unit :=
  update (fun s =>
    match copy_in (mem s) (arg r 1) 16 with
    | None => s
    | Some raw => if bool_decide (name_of raw = []) then s
                  else with_ptable s (ProcessTable.set_comm (ptable s) (pid (me s)) (name_of raw))
    end).

Definition do_prctl (r : Regs) : C Fate :=
  let op := i32 (arg r 0) in
  if op =? 4 then mret (value 0)
  else (if op =? 15 then set_name r else mret tt);; mret forward.

(** ** The switch *)

Definition run_handler (h : handler) (r : Regs) : C Fate :=
  match h with
  | h_kill => do_kill r
  | h_identity sc => do_identity sc
  | h_set_tid_address => do_set_tid_address
  | h_getpgrp => do_getpgrp
  | h_getpgid => do_getpgid r
  | h_getsid => do_getsid r
  | h_setpgid => do_setpgid r
  | h_setsid => do_setsid
  | h_lseek => do_lseek r
  | h_fxattr => do_fxattr r
  | h_mount => do_mount r
  | h_umount2 => do_umount2 r
  | h_prctl => do_prctl r
  | Dispatch.do_getres => MachineInfo.do_getres r
  | Dispatch.do_uname buf => MachineInfo.do_uname (machine c) buf
  | Dispatch.do_sysinfo buf => MachineInfo.do_sysinfo (machine c) live buf
  | Dispatch.do_sched_getaffinity => MachineInfo.do_sched_getaffinity (machine c) (tid_on_host c) r
  | Dispatch.path_open p a => OpenCalls.path_open io (guest_arch c) live (emulate_fifos c) r p a
  | Dispatch.path_open_flags p a f => OpenCalls.path_open_flags io (guest_arch c) live (emulate_fifos c) r p a f
  | Dispatch.path_openat2 => OpenCalls.path_openat2 io (guest_arch c) live (emulate_fifos c) r
  | Dispatch.path_stat p a f => PathCalls.path_stat io (guest_arch c) live r p a f
  | Dispatch.path_statx => PathCalls.path_statx io live r
  | Dispatch.path_at p a => PathCalls.path_at io live r p a
  | Dispatch.do_chdir => PathCalls.do_chdir io r
  | Dispatch.do_fchdir => PathCalls.do_fchdir r
  | Dispatch.do_chroot => PathCalls.do_chroot io r
  | Dispatch.do_getcwd => PathCalls.do_getcwd r
  | Dispatch.do_readlink p a => PathCalls.do_readlink io live r p a
  | Dispatch.do_getdents64 => do_getdents64 r
  | Dispatch.path_statfs => PathCalls.path_statfs io live r
  | Dispatch.do_fstatfs => PathCalls.do_fstatfs r
  | Dispatch.do_socket => PathCalls.do_socket r
  | Dispatch.path_xattr w f p a => PathCalls.path_xattr io live r w f p a
  | Dispatch.path_watch p a => PathCalls.path_watch io r p a
  | Dispatch.path_exec p => PathCalls.path_exec io live (host_machine c) (pacman_overwrite c) r p
  | Dispatch.do_close => PathCalls.do_close r
  | Dispatch.do_dup => PathCalls.do_dup r
  | Dispatch.do_dup2 => PathCalls.do_dup2 r
  | Dispatch.do_fcntl => PathCalls.do_fcntl r
  | Dispatch.path_mut p a wi sp rm => MutCalls.path_mut io (guest_arch c) live (emulate_fifos c) r p a wi sp rm
  | Dispatch.do_chmod p a _ fl => MutCalls.do_chmod io live r p a fl
  | Dispatch.do_fchmod => MutCalls.do_fchmod io r
  | Dispatch.do_chown p u g a f => MutCalls.do_chown io live r p u g a f
  | Dispatch.do_fchown => MutCalls.do_fchown io r
  | Dispatch.do_utimes p a f => MutCalls.do_utimes io (guest_arch c) live (emulate_fifos c) r p a f
  | Dispatch.path_mut2 a1 a2 a _ mv lf rf => NameCalls.path_mut2 io live (link_order c) (force_links c) r a1 a2 a mv lf rf
  | Dispatch.path_symlink t l a => NameCalls.path_symlink io r t l a
  | Dispatch.do_setgroups => do_setgroups r
  | Dispatch.do_getgroups => do_getgroups r
  | Dispatch.do_sockaddr_un b => SockCalls.do_sockaddr_un io (socket_ns c) (run_instance c) r b
  | Dispatch.do_ioctl => do_ioctl r
  end.

Definition select_process (s : Sys F M) : Sys F M :=
  with_procs s (set_current_pid (procs s) (pid (me s)) (ppid (me s))).

Definition dispatch (r : Regs) : C Fate :=
  update select_process;;
  match route r (Sysno.decode (guest_arch c) (regs_nr r)) with
  | Answer f => mret f
  | Dispatch.Call h => run_handler h r
  end.

End dispatch.

End SysDispatch.
