(* ===== verification/TreeHost.v ===== *)
(** The example host of [HostFs.Tree] with the rest of what the handlers ask
    of a machine, and a guest on it.  Its operations on whole names (link,
    rename, exclusive creation) are refused, as on a read-only export. *)

From S2P Require Import Prelude Sysno Abi Dispatch GuestMem HostFs MetaStore LinkTable Dirents Namespace NamespaceSafety ProcessTable ProcState PathArgs StatWire MachineInfo PathCalls MutCalls OpenCalls NameCalls SockCalls SysDispatch.
Import Sysno Abi Dispatch HostFs Mounts Overlay NamespaceSafety PathArgs.

Module TreeHost.

Definition errno_of {A} (r : A + Z) : Z := match r with inl _ => 0 | inr e => e end.

#[export] Instance tree_access : HostAccess Tree.Tree := {
  access_x t p := errno_of (stat t p);
  access_f t p := errno_of (stat t p)
}.

Definition refused (t : Tree.Tree) : Tree.Tree * Z := (t, errno_value eperm).

#[export] Program Instance tree_files : HostFiles Tree.Tree := {|
  hview _ := ∅;
  lstat_errno _ _ := ENOENT;
  hunlink t _ := refused t;
  hrename t _ _ := refused t;
  hrenameat2 t _ _ _ := refused t;
  hcreat t _ := refused t;
  hcreat_excl t _ := refused t
|}.
Next Obligation. done. Qed.
Next Obligation. done. Qed.
Next Obligation. by intros. Qed.
Next Obligation. done. Qed.
Next Obligation. by intros. Qed.
Next Obligation. intros. by left. Qed.
Next Obligation. done. Qed.
Next Obligation. by intros. Qed.

#[export] Instance tree_meta : MutCalls.HostMeta Tree.Tree := {
  MutCalls.chmod_call t p m := match stat t p with inl _ => (chmod t p m, 0) | inr e => (t, e) end;
  MutCalls.fd_flags _ _ _ := None;
  MutCalls.fchmod_fd t _ _ _ := (t, None);
  MutCalls.task_umask _ _ := Some 18
}.

#[export] Instance tree_open : OpenCalls.HostOpen Tree.Tree := {
  OpenCalls.getuid _ := 1000;
  OpenCalls.getpid _ := 77;
  OpenCalls.host_maps _ _ := None;
  OpenCalls.fstat_fd _ _ _ := None;
  OpenCalls.clock_ns _ := 0;
  OpenCalls.make_anchor t := (t, inr None);
  OpenCalls.open_end t _ _ := (t, -1);
  OpenCalls.fifo_peers _ _ := (0, 0);
  OpenCalls.close_fd t _ := t
}.

#[export] Instance tree_names : NameCalls.HostNames Tree.Tree := {
  NameCalls.hlink t _ _ := refused t;
  NameCalls.link_fd t _ _ _ := refused t;
  NameCalls.fd_target _ _ _ := None;
  NameCalls.open_new t _ _ := (t, inr (errno_value eperm));
  NameCalls.pread_fd _ _ _ _ := inl [];
  NameCalls.errno _ := 0
}.

#[export] Instance tree_cpus : MachineInfo.HostCpus Tree.Tree := {
  MachineInfo.host_cpus _ _ := inl (fun _ => true)
}.

Definition ex_machine : MachineInfo.MachineSpec :=
  {| MachineInfo.ncpu := 2; MachineInfo.mem_total := 4096; MachineInfo.swap_total := 0;
     MachineInfo.uptime_seconds := 1; MachineInfo.mem_available := 3072; MachineInfo.nodename := lit "n"; MachineInfo.release := lit "6";
     MachineInfo.machine_arch := lit "x86_64" |}.

Definition ex_config : SysDispatch.Config :=
  {| SysDispatch.case_insensitive := true; SysDispatch.guest_arch := x86_64; SysDispatch.host_machine := x86_64;
     SysDispatch.live_source := None; SysDispatch.emulate_fifos := false; SysDispatch.force_links := false;
     SysDispatch.pacman_overwrite := false; SysDispatch.machine := ex_machine;
     SysDispatch.socket_ns := SockCalls.filesystem; SysDispatch.run_instance := 0;
     SysDispatch.link_order := map_to_list; SysDispatch.dir_order := map_to_list;
     SysDispatch.tid_on_host := fun v => v |}.

(** A string that ends where its page ends. *)
Definition at_page_end (p : str) : Z := 8191 - Z.of_nat (length p).
Definition string_memory (p : str) : Flat.t :=
  list_to_map (imap (fun i b => (at_page_end p + Z.of_nat i, b)) (map Dirents.byte_of p ++ [0])).

(** A guest about to name [p]. *)
Definition ex_guest (p : str) : Sys Tree.Tree Flat.t := StatWire.ex_sys (string_memory p).

End TreeHost.
