(* ===== verification/CallLogic.v ===== *)
(** A program logic for the handlers.

    [wp n m Q s]: run from [s], the computation [m] ends in a value and a
    state that satisfy [Q], or does not return and [n] holds; so [n = True]
    is partial and [n = False] total correctness.  [ensures] is that for
    every state of an invariant, with the rules the handlers' proofs use, and
    [call] the hint database of what the shared helpers ensure. *)

From S2P Require Import Prelude Sysno Abi Dispatch Paths CText GuestMem HostFs Whiteouts MetaStore LinkTable Dirents Namespace NamespaceSafety ProcessTable JobControl ProcState PathResolve PathArgs.
Import Sysno Abi Dispatch Paths CText HostFs Mounts Overlay ProcState PathArgs.

Module CallLogic.

Create HintDb call.

Definition wp {F M A} (n : Prop) (m : Call F M A) (Q : A -> Sys F M -> Prop) (s : Sys F M) : Prop :=
  match m s with
  | Some (a, s') => Q a s'
  | None => n
  end.

Section logic.
Context {F M : Type} (n : Prop) (I : Sys F M -> Prop).

Definition ensures {A} (m : Call F M A) (R : A -> Sys F M -> Prop) : Prop := forall s, I s -> wp n m R s.

(** The usual form: the invariant again, and a fact about the value. *)
Definition gives {A} (m : Call F M A) (P : A -> Prop) : Prop := ensures m (fun a s => I s /\ P a).

Lemma ensures_bind {A B} (m : Call F M A) (k : A -> Call F M B) (P : A -> Prop) R :
  gives m P -> (forall a, P a -> ensures (k a) R) -> ensures (m ≫= k) R.
Proof.
  intros Hm Hk s Hs. unfold wp. rewrite bind_run. specialize (Hm s Hs). unfold wp in Hm.
  destruct (m s) as [[a s']|]; [|done]. destruct Hm as [Hi Hp]. by apply Hk.
Qed.

Lemma ensures_ret {A} (a : A) (R : A -> Sys F M -> Prop) : (forall s, I s -> R a s) -> ensures (mret a) R.
Proof. intros Hr s Hs. by apply Hr. Qed.

Lemma gives_ret {A} (a : A) (P : A -> Prop) : P a -> gives (mret a) P.
Proof. by intros Hp s Hs. Qed.

Lemma ensures_ret_bind {A B} (a : A) (k : A -> Call F M B) R : ensures (k a) R -> ensures (mret a ≫= k) R.
Proof. intros Hk s Hs. unfold wp. rewrite bind_run. cbn. by apply Hk. Qed.

Lemma ensures_assoc {A B C} (m : Call F M A) (k : A -> Call F M B) (l : B -> Call F M C) R :
  ensures (m ≫= fun a => k a ≫= l) R -> ensures ((m ≫= k) ≫= l) R.
Proof.
  intros Hm s Hs. specialize (Hm s Hs). unfold wp in *. rewrite !bind_run in *.
  destruct (m s) as [[a s']|]; [|done]. by rewrite bind_run in *.
Qed.

(** Reading the state: what follows may use that it satisfies [I]. *)
Lemma ensures_get {B} (k : Sys F M -> Call F M B) R : (forall s, I s -> ensures (k s) R) -> ensures (get ≫= k) R.
Proof. intros Hk s Hs. unfold wp. rewrite bind_run. cbn. by apply (Hk s Hs). Qed.

(** The same, keeping the state at hand. *)
Lemma ensures_get_at {B} (k : Sys F M -> Call F M B) R :
  (forall s, I s -> wp n (k s) R s) -> ensures (get ≫= k) R.
Proof. intros Hk s Hs. unfold wp. rewrite bind_run. cbn. by apply (Hk s Hs). Qed.

Lemma gives_update (f : Sys F M -> Sys F M) : (forall s, I s -> I (f s)) -> gives (update f) (fun _ => True).
Proof. intros Hf s Hs. cbn. auto. Qed.

Lemma ensures_weaken {A} (m : Call F M A) (R R' : A -> Sys F M -> Prop) :
  ensures m R -> (forall a s, R a s -> R' a s) -> ensures m R'.
Proof. intros Hm Hw s Hs. specialize (Hm s Hs). unfold wp in *. destruct (m s) as [[a s']|]; auto. Qed.

Lemma gives_weaken {A} (m : Call F M A) (P P' : A -> Prop) : gives m P -> (forall a, P a -> P' a) -> gives m P'.
Proof. intros Hm Hw. eapply ensures_weaken; [exact Hm|]. intros a s [? ?]. auto. Qed.

Lemma gives_true {A} (m : Call F M A) (P : A -> Prop) : gives m P -> gives m (fun _ => True).
Proof. intros Hm. by eapply gives_weaken. Qed.

Lemma gives_any {A} (m : Call F M A) : (forall s, I s -> exists a s', m s = Some (a, s') /\ I s') -> gives m (fun _ => True).
Proof. intros Hm s Hs. destruct (Hm s Hs) as (a & s' & E & Hi). unfold wp. by rewrite E. Qed.

Lemma ensures_unless (e : option Errno) (k : Call F M Fate) R :
  (forall x s, I s -> R (error x) s) -> ensures k R -> ensures (unless_errno e k) R.
Proof. intros He Hk. destruct e as [x|]; [|exact Hk]. apply ensures_ret. auto. Qed.

End logic.

#[export] Hint Resolve gives_ret : call.

(** One step of a handler: a bind whose first part the database knows, a
    read of the state, a test, a return. *)
Ltac call_step :=
  lazymatch goal with
  | |- ensures _ _ (get ≫= _) _ => apply ensures_get; intros ? ?
  | |- ensures _ _ ((_ ≫= _) ≫= _) _ => apply ensures_assoc
  | |- ensures _ _ (mret _ ≫= _) _ => apply ensures_ret_bind
  | |- ensures _ _ (mret _) _ => apply ensures_ret; intros
  | |- gives _ _ (mret _) _ => apply gives_ret
  | |- ensures _ _ (unless_errno _ _) _ => apply ensures_unless; [|]
  | |- ensures _ _ (_ ≫= _) _ =>
      eapply ensures_bind; [solve [eauto with call]|cbv beta; intros ? ?]
  | |- gives _ _ _ _ => unfold gives; call_step
  end.

End CallLogic.
