(* ===== verification/Confinement.v ===== *)
(** What a handler may hand to the host.

    The paths a redirected call is given come from [classify] of a canonical
    guest path, so they lie in the mounts; for a call that writes, never in
    the lower layer of an overlay.  The proofs run each handler of
    [PathCalls], [MutCalls], [OpenCalls] and [NameCalls] in the logic of
    [CallLogic], once, over a predicate [W] of the namespace and the host
    that reading keeps: with [W] an equality it also shows that a handler
    changes nothing, and with [n = False] that it answers. *)

From S2P Require Import Prelude Sysno Abi Dispatch Paths CText GuestMem HostFs Whiteouts MetaStore LinkTable Dirents Namespace NamespaceSafety ProcessTable JobControl ProcState PathResolve ElfProbe PathArgs StatWire PathCalls MutCalls OpenCalls NameCalls CallLogic.
Import Sysno Abi Dispatch Paths CText HostFs Mounts Overlay ProcState NamespaceSafety PathArgs StatWire PathCalls MutCalls OpenCalls CallLogic.

Module Confinement.

(** ** Paths *)

(** No component is [..]. *)
Definition plain (p : str) : Prop := dotdot ∉ components p.

Lemma canonical_plain (p : str) : Canonical p -> plain p.
Proof.
  intros (stk & Hs & ->). unfold plain. rewrite components_render by (by apply canonical_comp_ok).
  intros Hin. rewrite Forall_forall in Hs. by destruct (Hs _ Hin) as (_ & _ & ?).
Qed.

Lemma nil_plain : plain [].
Proof. by intros ?%not_elem_of_nil. Qed.

Definition plain_table (t : FdTable) : Prop := forall fd p, paths t !! fd = Some p -> plain p.

(** Working directories and the paths of descriptors. *)
Definition plain_procs (s : Procs) : Prop :=
  plain (cwd s) /\ forall pid t, fd_tables s !! pid = Some t -> plain_table t.

Lemma plain_fds (s : Procs) : plain_procs s -> plain_table (fds s).1 /\ plain_procs (fds s).2.
Proof.
  intros [Hc Ht]. unfold fds. cbn [fst snd].
  assert (Hd : plain_table (default no_fds (fd_tables s !! cur_pid s))).
  { destruct (fd_tables s !! cur_pid s) as [t|] eqn:E; cbn; [by eapply Ht|]. intros fd p Hp. cbn in Hp. by rewrite lookup_empty in Hp. }
  split; [done|]. split; [exact Hc|]. intros pid t. cbn.
  destruct (decide (pid = cur_pid s)) as [->|]; [rewrite lookup_insert_eq|rewrite lookup_insert_ne by done].
  - by intros [= <-].
  - apply Ht.
Qed.

#[local] Opaque read_cstr.

(** ** The paths of /proc *)

Lemma digit_char_not d c : 0 <= d < 10 -> (nat_of_ascii c < 48)%nat -> digit_char d <> c.
Proof.
  intros Hd Hc E. apply (f_equal nat_of_ascii) in E. unfold digit_char in E.
  rewrite nat_ascii_embedding in E by lia. lia.
Qed.

(** A printed number is a component of a path. *)
Lemma to_string_comp v : canonical_comp (to_string v).
Proof.
  set (l := print_dec (if v <? 0 then - v else v)).
  assert (Hl : exists p d, l = p ++ [digit_char d] /\ 0 <= d < 10).
  { eexists _, _. split; [reflexivity|apply Z.mod_pos_bound; lia]. }
  assert (Es : exists pre, to_string v = pre ++ l /\ slash ∉ pre).
  { unfold to_string, l. destruct (v <? 0); [exists ["-"%char]|exists []]; (split; [done|]).
    - intros [E|E%not_elem_of_nil]%elem_of_cons; done.
    - apply not_elem_of_nil. }
  destruct Es as (pre & -> & Hpre), Hl as (p & d & El & Hd).
  assert (Hlast : last (pre ++ l) = Some (digit_char d)).
  { rewrite El, app_assoc. apply last_snoc. }
  split; [split|split].
  - intros E. by rewrite E in Hlast.
  - rewrite elem_of_app. intros [?|Hin]; [done|].
    destruct (print_base_digits 11 10 (if v <? 0 then - v else v) slash ltac:(lia) Hin) as (d' & Hd' & E).
    by apply (digit_char_not d' slash Hd'); [apply Nat.ltb_lt; reflexivity|].
  - intros E. rewrite E in Hlast. injection Hlast as E'. by apply (digit_char_not d "."%char Hd); [apply Nat.ltb_lt; reflexivity|].
  - intros E. rewrite E in Hlast. injection Hlast as E'. by apply (digit_char_not d "."%char Hd); [apply Nat.ltb_lt; reflexivity|].
Qed.

Lemma at_prefix_below (abs pre : str) : at_prefix abs pre = true -> at_or_below pre abs = true.
Proof.
  unfold at_prefix, at_or_below. intros [E|E]%orb_true_iff.
  - apply bool_decide_eq_true in E as <-. rewrite take_ge by lia. rewrite (bool_decide_true (abs = abs)) by done.
    by rewrite (bool_decide_true (length abs = length abs)).
  - unfold starts_with in E. apply bool_decide_eq_true in E. rewrite length_app in E. cbn in E.
    assert (Eabs : abs = pre ++ slash :: drop (length pre + 1) abs).
    { rewrite <- (take_drop (length pre + 1) abs) at 1. rewrite E. by rewrite <- app_assoc. }
    rewrite Eabs. rewrite take_app_length, lookup_app_r, Nat.sub_diag by lia. cbn.
    rewrite !bool_decide_true by done. by rewrite orb_true_r.
Qed.

(** Replacing a prefix by a canonical one. *)
Lemma replace_prefix (pre new abs : str) :
  Canonical pre -> pre <> [slash] -> Canonical new -> new <> [slash] -> Canonical abs ->
  at_prefix abs pre = true -> Canonical (new ++ drop (length pre) abs).
Proof.
  intros Hp Hps (s & Hs & ->) Hns Ha Hat.
  destruct (below_canonical pre abs Hp Hps Ha (at_prefix_below _ _ Hat)) as (t & Ht & ->).
  rewrite drop_app_length. exists (s ++ t). split; [by apply Forall_app_2|].
  destruct s as [|c s]; [done|]. rewrite !body_render by done. by rewrite body_app.
Qed.

Lemma canonical_snoc (p c : str) : Canonical p -> p <> [slash] -> canonical_comp c -> Canonical (p ++ slash :: c).
Proof.
  intros (s & Hs & ->) Hp Hc. exists (s ++ [c]). split; [apply Forall_app_2; auto|].
  rewrite render_snoc. destruct s; [done|]. by rewrite body_render.
Qed.

#[global] Instance canonical_comp_dec c : Decision (canonical_comp c).
Proof. unfold canonical_comp, comp_ok. apply _. Defined.

Lemma own_canonical v : Canonical (proc_dir ++ to_string v).
Proof.
  change (proc_dir ++ to_string v) with (lit "/proc" ++ slash :: to_string v).
  apply canonical_snoc; [by apply canonical_by|done|apply to_string_comp].
Qed.

Lemma folded_canonical (who leaf abs : str) :
  Canonical (who ++ leaf) -> who ++ leaf <> [slash] -> Canonical (lit "/proc/self" ++ leaf) -> leaf <> [] ->
  Canonical abs -> at_prefix abs (who ++ leaf) = true ->
  Canonical (lit "/proc/self" ++ leaf ++ drop (length (who ++ leaf)) abs).
Proof. intros. rewrite app_assoc. apply replace_prefix; try done. Qed.

(** Binding [self] to the caller keeps a path canonical. *)
Lemma bind_proc_self_canonical id abs : Canonical abs -> Canonical (bind_proc_self id abs).
Proof.
  intros Ha. unfold bind_proc_self. destruct (negb _); [done|].
  assert (Hown : forall leaf, leaf = lit "/fd" \/ leaf = lit "/fdinfo" ->
            Canonical ((proc_dir ++ to_string (pid id)) ++ leaf)).
  { intros leaf [-> | ->]; apply canonical_snoc; try apply own_canonical; try done; by apply (bool_decide_unpack _). }
  destruct (find _ _) as [[who leaf]|] eqn:E.
  - apply find_some in E as [Hin Hat]. cbn [fst snd] in Hat.
    assert (Hleaf : leaf = lit "/fd" \/ leaf = lit "/fdinfo").
    { cbn in Hin. naive_solver. }
    assert (Hself : Canonical (lit "/proc/self" ++ leaf)).
    { destruct Hleaf as [-> | ->]; by apply canonical_by. }
    assert (Hw : Canonical (who ++ leaf)).
    { cbn in Hin. destruct Hin as [E|[E|[E|[E|[]]]]]; injection E as <- <-; auto. }
    apply folded_canonical; try done.
    + intros El%(f_equal length). rewrite length_app in El. destruct Hleaf as [-> | ->]; cbn in El; lia.
    + by destruct Hleaf as [-> | ->].
  - destruct (at_prefix abs (lit "/proc/self")) eqn:E1.
    { apply replace_prefix; try done; [by apply canonical_by|apply own_canonical]. }
    destruct (at_prefix abs (lit "/proc/thread-self")) eqn:E2; [|done].
    assert (Ht : Canonical (((proc_dir ++ to_string (pid id)) ++ lit "/task") ++ slash :: to_string (tid id))).
    { apply canonical_snoc; [|done|apply to_string_comp].
      apply canonical_snoc; [apply own_canonical|done|by apply (bool_decide_unpack _)]. }
    pose proof (replace_prefix (lit "/proc/thread-self") _ abs ltac:(by apply canonical_by) ltac:(done) Ht
                  ltac:(done) Ha E2) as Hr.
    rewrite <- !app_assoc in Hr. rewrite <- !app_assoc. exact Hr.
Qed.

(** The answers that name no host path. *)
Definition pathless (f : Fate) : Prop :=
  match f with FRedirect _ | FExecInterp _ | FSockRewrite _ => False | _ => True end.

Section specs.
Context {F M : Type} `{HostFs F} `{HostAccess F} `{HostStats F} `{GuestMem M} (io : bool).
Context (n : Prop) (ms : list Mount) (m0 : M) (W : World (F := F) -> Prop).

(** Every backing file of an emulated link is where a write may go. *)
Definition links_inside (lt : LinkTable.Links) : Prop :=
  forall name b, LinkTable.backing_of lt name = Some b -> inside_for true ms b.

Hypothesis HW : forall w, W w -> mounts w = ms /\ links_inside (links w).
Hypothesis Hms : Forall mount_ok ms.

Definition Inv (s : Sys F M) : Prop := W (world s) /\ mem s = m0 /\ (n \/ plain_procs (procs s)).

Abbreviation gives := (gives n Inv).
Abbreviation ensures := (ensures n Inv).

Lemma inv_procs (s : Sys F M) (f : Procs -> Procs) :
  Inv s -> (plain_procs (procs s) -> plain_procs (f (procs s))) -> Inv (with_procs s (f (procs s))).
Proof. intros (Hw & Hm & Hp) Hf. split; [exact Hw|]. split; [exact Hm|]. destruct Hp; [by left|right; auto]. Qed.

Lemma gives_cstr r i : gives (cstr_arg r i) (fun p => p = read_cstr m0 (arg r i)).
Proof. intros s Hs. unfold wp, cstr_arg. split; [exact Hs|]. destruct Hs as (_ & -> & _). reflexivity. Qed.

Lemma gives_fd_path fd : gives (fd_path fd) (fun p => n \/ plain p).
Proof.
  intros s Hs. unfold wp, fd_path, path_of_fd. pose proof (plain_fds (procs s)) as Hf.
  destruct (fds (procs s)) as [t ps] eqn:E. cbn in Hf. destruct Hs as (Hw & Hm & Hp).
  split; [split; [done|split; [done|]]|].
  - destruct Hp; [by left|]. right. by apply Hf.
  - destruct Hp as [|Hp]; [by left|]. right. destruct (paths t !! fd) as [p|] eqn:Ep; cbn; [|apply nil_plain].
    destruct (Hf Hp) as [Ht _]. exact (Ht fd p Ep).
Qed.

Lemma gives_dir_of d : gives (dir_of d) (fun p => n \/ plain p).
Proof. unfold dir_of. destruct (_ =? _); [apply gives_ret; right; apply nil_plain|apply gives_fd_path]. Qed.

Lemma gives_dir_if (b : bool) d : gives (if b then dir_of d else mret []) (fun p => n \/ plain p).
Proof. destruct b; [apply gives_dir_of|apply gives_ret; right; apply nil_plain]. Qed.

(** Resolution gives a canonical path, and gives one when no [..] is met. *)
Lemma gives_absolutize path dir :
  n \/ plain path -> n \/ plain dir -> gives (do_absolutize io path dir) Canonical.
Proof.
  intros Hp Hd s Hs. unfold wp, do_absolutize.
  destruct (PathResolve.absolutize io (world s) (cwd (procs s)) path dir) as [p|] eqn:E.
  - split; [done|]. by apply (PathResolve.absolutize_walks io (world s) (cwd (procs s)) path dir).
  - destruct Hs as (_ & _ & [?|[Hc _]]); [done|]. destruct Hp as [?|Hp]; [done|]. destruct Hd as [?|Hd]; [done|].
    rewrite PathResolve.absolutize_walk, PathResolve.walk_lexical in E; [done|]. left.
    unfold PathResolve.joined. destruct (decide _); [done|]. rewrite elem_of_app.
    destruct dir; intros [?|?]; [by apply Hc|by apply Hp|by apply Hd|by apply Hp].
Qed.

(** ** Classification *)

(** The host path of an answer: none, or one the mounts give. *)
Record good_class (fw : bool) (pc : PathClass) : Prop := {
  good_path : host_path pc = [] \/ inside_for fw ms (host_path pc);
  good_backed : realm pc = host_backed -> inside_for fw ms (host_path pc)
}.

Lemma inside_weaken fw hp : inside_for true ms hp -> inside_for fw ms hp.
Proof. destruct fw; [done|]. intros Hi. by eapply inside_inside_for, inside_for_inside. Qed.

Lemma classify_impl_frame left (w : World (F := F)) abs fw fo wi :
  let w' := (classify_impl io left w abs fw fo wi).2 in mounts w' = mounts w /\ links w' = links w.
Proof.
  apply (classify_impl_in (F := F) io (fun w w' => mounts w' = mounts w /\ links w' = links w)); [by intros|].
  intros _ w' abs' up lo. unfold overlay_write. by destruct (if decide _ then _ else _).
Qed.

Lemma classify_frame (w : World (F := F)) abs fw fo wi :
  let w' := (classify io w abs fw fo wi).2 in mounts w' = mounts w /\ links w' = links w.
Proof.
  unfold classify. pose proof (classify_impl_frame max_depth w abs fw fo wi) as Hf.
  destruct (classify_impl _ _ _ _ _ _ _) as [pc w']. cbn in *. repeat case_match; done.
Qed.

Lemma classify_impl_good (w : World (F := F)) abs fw fo wi :
  W w -> Canonical abs -> good_class fw (classify_impl io max_depth w abs fw fo wi).1.
Proof.
  intros Hw Ha. destruct (HW w Hw) as [Em _].
  pose proof (classify_impl_confined io fw max_depth w abs fo wi) as Hc. rewrite Em in Hc.
  destruct (Hc Hms Ha) as [[_ ?]|[? ?]]; split; auto; congruence.
Qed.

Lemma classify_good (w : World (F := F)) abs fw fo wi :
  W w -> Canonical abs -> good_class fw (classify io w abs fw fo wi).1.
Proof.
  intros Hw Ha. destruct (HW w Hw) as [Em Hl]. unfold classify.
  pose proof (classify_impl_good w abs fw fo wi Hw Ha) as Hc.
  pose proof (classify_impl_frame max_depth w abs fw fo wi) as Hf.
  destruct (classify_impl _ _ _ _ _ _ _) as [pc w']. cbn [fst snd] in *. destruct Hf as [_ El].
  destruct (realm pc); [|exact Hc..]. destruct (_ && _); [|exact Hc].
  destruct (LinkTable.backing_of (links w') (host_path pc)) as [b|] eqn:E; [|exact Hc].
  assert (Hb : inside_for fw ms b) by (apply inside_weaken, (Hl (host_path pc)); by rewrite <- El).
  split; cbn; auto.
Qed.

Lemma gives_classify_read abs fo wi :
  Canonical abs -> gives (do_classify io abs false fo wi) (good_class false).
Proof.
  intros Ha s Hs. unfold wp, do_classify. pose proof (classify_read_world io (world s) abs fo wi) as Ew.
  destruct Hs as (Hw & Hm & Hp). pose proof (classify_good (world s) abs false fo wi Hw Ha) as Hg.
  destruct (classify io (world s) abs false fo wi) as [pc w]. cbn [fst snd] in *. subst w.
  split; [split; [done|split; [done|done]]|done].
Qed.

(** A classification whose answer does not matter. *)
Lemma gives_classify_any abs fo wi : gives (do_classify io abs false fo wi) (fun _ => True).
Proof.
  intros s Hs. unfold wp, do_classify. pose proof (classify_read_world io (world s) abs fo wi) as Ew.
  destruct (classify io (world s) abs false fo wi) as [pc w]. cbn [fst snd] in *. subst w.
  destruct Hs as (Hw & Hm & Hp). done.
Qed.

#[local] Hint Resolve gives_cstr gives_fd_path gives_dir_of gives_dir_if gives_absolutize : call.
#[local] Hint Extern 100 (CallLogic.gives _ _ (do_classify _ _ false _ _) _) => apply gives_classify_any : call.

(** ** The shared helpers *)

Context (r : Regs).
Hypothesis Hstr : forall i, n \/ plain (read_cstr m0 (arg r i)).

Lemma gives_plain_cstr i : gives (cstr_arg r i) (fun p => n \/ plain p).
Proof. eapply gives_weaken; [apply gives_cstr|]. intros p ->. apply Hstr. Qed.

Lemma gives_empty_cstr i : gives (empty_cstr_arg r i) (fun _ => True).
Proof. unfold empty_cstr_arg. do 2 call_step. done. Qed.

Lemma gives_empty_path i fl : gives (empty_path_arg r i fl) (fun _ => True).
Proof. unfold empty_path_arg. repeat first [by apply gives_ret | case_match | call_step]. Qed.

Lemma gives_unresolvable raw : gives (at_dirfd_unresolvable r raw) (fun _ => True).
Proof. unfold at_dirfd_unresolvable. repeat first [by apply gives_ret | case_match | call_step]. Qed.

Lemma gives_unresolvable_if (b : bool) raw :
  gives (if b then at_dirfd_unresolvable r raw else mret false) (fun _ => True).
Proof. destruct b; [apply gives_unresolvable|by apply gives_ret]. Qed.

Lemma gives_read_any abs : gives (classify_read io abs) (fun _ => True).
Proof. apply gives_classify_any. Qed.

Lemma gives_read abs : Canonical abs -> gives (classify_read io abs) (good_class false).
Proof. intros Ha. by apply gives_classify_read. Qed.

#[local] Hint Resolve gives_empty_cstr gives_empty_path gives_unresolvable gives_unresolvable_if : call.
#[local] Hint Extern 100 (CallLogic.gives _ _ (classify_read _ _) _) => apply gives_read_any : call.

Lemma gives_failure_errno abs e : gives (resolve_failure_errno io abs e) (fun _ => True).
Proof. unfold resolve_failure_errno. do 2 call_step. repeat case_match; by apply gives_ret. Qed.

Lemma gives_prefix_loop abs : gives (guest_prefix_loop io abs) (fun _ => True).
Proof. unfold guest_prefix_loop. case_match; [|by apply gives_ret]. do 2 call_step. done. Qed.

Lemma gives_dir_base at_ : gives (dir_base r at_) (fun _ => True).
Proof. unfold dir_base. do 2 call_step. case_match; by apply gives_ret. Qed.

Lemma gives_walk_prefix cs : forall cur, gives (walk_prefix io cur cs) (fun _ => True).
Proof.
  induction cs as [|c cs IH]; intros cur; cbn [walk_prefix]; [by apply gives_ret|]. cbv zeta. do 2 call_step.
  repeat first [apply IH | by apply gives_ret | case_match].
Qed.

#[local] Hint Resolve gives_failure_errno gives_prefix_loop gives_dir_base gives_walk_prefix : call.

Lemma gives_start raw at_ :
  gives (if decide (head raw = Some slash) then mret [slash] else dir_base r at_) (fun _ => True).
Proof. case_decide; [by apply gives_ret|apply gives_dir_base]. Qed.

#[local] Hint Resolve gives_start : call.

Lemma gives_dot_prefix i at_ : gives (dot_prefix_error io r i at_) (fun _ => True).
Proof.
  unfold dot_prefix_error. call_step. case_match; [by apply gives_ret|]. cbv zeta.
  destruct (first_dot _) as [[|k]|]; [|call_step; apply gives_walk_prefix|by apply gives_ret].
  case_match; [by apply gives_ret|]. do 3 call_step. repeat case_match; by apply gives_ret.
Qed.

(** ** Links of /proc *)

Context (live : option ProcessTable.LiveSource).
Hypothesis Hlive : n \/ live = None.

Lemma gives_exe_of v : gives (exe_of live v) (fun _ => True).
Proof.
  intros s Hs. unfold wp, exe_of.
  destruct (ProcessTable.find live (ptable s) v) as [[pi|]|] eqn:E; [by split..|].
  destruct Hlive as [|El]; [done|]. subst live. by rewrite ProcessTable.find_none in E.
Qed.

#[local] Hint Resolve gives_dot_prefix gives_exe_of : call.

Lemma gives_proc_target abs : gives (proc_symlink_target live abs) (fun _ => True).
Proof.
  unfold proc_symlink_target. call_step. cbv zeta.
  repeat first [apply gives_exe_of | by apply gives_ret | case_decide | case_match | call_step].
Qed.

#[local] Hint Resolve gives_proc_target : call.

Lemma gives_expand abs fl : Canonical abs -> gives (expand_proc_links live abs fl) Canonical.
Proof.
  intros Ha. unfold expand_proc_links.
  repeat first [by apply gives_ret | apply gives_ret, normalize_Canonical | call_step | case_match].
Qed.

Lemma gives_resolve_raw raw at_ fl : n \/ plain raw -> gives (resolve_raw io live r raw at_ fl) Canonical.
Proof.
  intros Hr. unfold resolve_raw. do 3 call_step. by apply gives_expand, bind_proc_self_canonical.
Qed.

#[local] Hint Resolve gives_plain_cstr gives_resolve_raw : call.

Lemma gives_resolve_arg i at_ fl : gives (resolve_arg io live r i at_ fl) Canonical.
Proof. unfold resolve_arg. eapply ensures_bind; [apply gives_plain_cstr|]. intros. by apply gives_resolve_raw. Qed.

Lemma gives_resolve_second i at_ : gives (resolve_second io r i at_) Canonical.
Proof.
  unfold resolve_second. eapply ensures_bind; [apply gives_plain_cstr|]. intros. call_step. by apply gives_absolutize.
Qed.

(** ** What a fate may name *)

(** A path of the mounts, one with a slash added, one relative to a
    directory of the mounts, or (with emulated FIFOs) the pipe held for it. *)
Inductive reaches (fw pipes : bool) : str -> Prop :=
| reaches_inside hp : inside_for fw ms hp -> reaches fw pipes hp
| reaches_dir hp : inside_for fw ms hp -> reaches fw pipes (hp ++ [slash])
| reaches_below base hp : inside_for fw ms (base ++ slash :: hp) -> reaches fw pipes hp
| reaches_pipe p fd : pipes = true -> reaches fw pipes (proc_dir ++ to_string p ++ lit "/fd/" ++ to_string fd).

(** A call is redirected to such paths only; no interpreter is run and no
    socket's address rewritten. *)
Definition good_fate (fw pipes : bool) (f : Fate) : Prop :=
  match f with
  | FRedirect rd => reaches fw pipes (pa_host_path (first rd)) /\
                    forall p, second rd = Some p -> reaches fw pipes (pa_host_path p)
  | f => pathless f
  end.

(** The post-condition of a handler that reads. *)
Definition answered (f : Fate) (s : Sys F M) : Prop := good_fate false false f /\ W (world s).

Lemma answer_now f s : pathless f -> Inv s -> answered f s.
Proof. intros Hf (Hw & _). split; [by destruct f|done]. Qed.

Lemma answer_redirect rd s :
  second rd = None -> inside_for false ms (pa_host_path (first rd)) -> Inv s -> answered (FRedirect rd) s.
Proof. intros E Hh (Hw & _). split; [|done]. split; [by constructor|]. intros p. by rewrite E. Qed.

Lemma good_nonempty fw pc c l : good_class fw pc -> host_path pc = c :: l -> inside_for fw ms (c :: l).
Proof. intros [Hp _] E. rewrite E in Hp. by destruct Hp. Qed.

Lemma ensures_reply v buf bs : ensures (reply v buf bs) answered.
Proof. intros s (Hw & _). unfold wp, reply. by destruct (copy_out _ _ _). Qed.

Lemma inv_cwd s : Inv s -> n \/ plain (cwd (procs s)).
Proof. intros (_ & _ & [?|[? _]]); auto. Qed.

Lemma inv_set_cwd s p : Inv s -> Inv (with_procs s (set_cwd (procs s) p)).
Proof.
  intros (Hw & Hm & Hp). split; [exact Hw|]. split; [exact Hm|].
  destruct Hp as [|[_ Ht]]; [by left|]. right. split; [|exact Ht].
  unfold cwd, cwd_of, set_cwd. cbn. rewrite lookup_insert_eq. cbn. apply canonical_plain, normalize_Canonical.
Qed.

#[local] Hint Resolve gives_read gives_classify_read inv_cwd gives_resolve_arg gives_resolve_second : call.

Lemma answer_scrubbed i hp l buf gp s :
  inside_for false ms hp -> Inv s -> answered (redirect_scrubbed i hp l buf gp) s.
Proof. intros Hh Hs. by apply answer_redirect. Qed.

Lemma answer_scrubbed_dir i hp l buf gp s :
  inside_for false ms hp -> Inv s -> answered (redirect_scrubbed i (hp ++ [slash]) l buf gp) s.
Proof. intros Hh (Hw & _). split; [|done]. split; [by apply reaches_dir|done]. Qed.

(** A handler's tests, returns and answers. *)
Ltac reads :=
  repeat first
    [ apply ensures_reply
    | call_step
    | by apply answer_now
    | apply answer_scrubbed; [by eauto using good_backed|assumption]
    | apply answer_scrubbed_dir; [by eauto using good_backed|assumption]
    | apply answer_redirect; [reflexivity| |assumption]; cbn [pa_host_path first redirect redirect_to path_arg path_arg_from]
    | progress intros
    | case_match ]; eauto using good_backed, good_nonempty.

Lemma path_at_answers i at_ : ensures (path_at io live r i at_) answered.
Proof. unfold path_at. reads. Qed.

Lemma path_watch_answers i at_ : ensures (path_watch io r i at_) answered.
Proof. unfold path_watch. reads. Qed.

Lemma path_statfs_answers : ensures (path_statfs io live r) answered.
Proof. unfold path_statfs. reads. Qed.

Lemma do_fstatfs_answers : ensures (do_fstatfs r) answered.
Proof. unfold do_fstatfs. reads. Qed.

Lemma do_chroot_answers : ensures (do_chroot io r) answered.
Proof. unfold do_chroot. reads. Qed.

Lemma do_getcwd_answers : ensures (do_getcwd r) answered.
Proof. unfold do_getcwd. reads. Qed.

Lemma write_link_answers buf cap tgt : ensures (write_link buf cap tgt) answered.
Proof. unfold write_link. reads. Qed.

Lemma gives_produce vp : gives (do_produce vp) (fun _ => True).
Proof. by intros s Hs. Qed.

#[local] Hint Resolve gives_produce : call.

Lemma do_readlink_answers i at_ : ensures (do_readlink io live r i at_) answered.
Proof. unfold do_readlink. repeat first [apply write_link_answers | progress reads]. Qed.

Lemma path_xattr_answers follow i at_ : ensures (path_xattr io live r false follow i at_) answered.
Proof. unfold path_xattr. reads. Qed.

Lemma starts_with_split (p pre : str) : starts_with p pre = true -> p = pre ++ drop (length pre) p.
Proof. unfold starts_with. rewrite bool_decide_eq_true. intros E. rewrite <- E at 1. by rewrite take_drop. Qed.

Lemma move_cwd_answers old hp : inside_for false ms hp -> ensures (move_host_cwd io old hp) answered.
Proof.
  intros Hi. unfold move_host_cwd. case_match; [reads|]. do 2 call_step. cbv zeta.
  destruct (_ || _) eqn:E; call_step; [by apply answer_now|]. rewrite !orb_false_iff, !negb_false_iff in E.
  destruct E as [[[_ E] _] _]. split; [|by destruct H6 as [? _]]. split; [|done].
  apply (reaches_below _ _ (host_path a)). cbn. apply starts_with_split in E.
  rewrite <- app_assoc in E. cbn in E. by rewrite <- E.
Qed.

Lemma gives_set_cwd p : gives (update (fun s => with_procs s (set_cwd (procs s) p))) (fun _ => True).
Proof. apply gives_update. intros s. apply inv_set_cwd. Qed.

#[local] Hint Resolve gives_set_cwd : call.

Lemma do_chdir_answers : ensures (do_chdir io r) answered.
Proof. unfold do_chdir. repeat first [apply move_cwd_answers; by eauto using good_backed | progress reads]. Qed.

Lemma do_fchdir_answers : ensures (do_fchdir r) answered.
Proof. unfold do_fchdir. reads. Qed.


(** ** stat *)

Lemma gives_fast_stat hp gp : gives (fast_stat hp gp) (fun _ => True).
Proof. intros s Hs. unfold wp, fast_stat. repeat case_match; simplify_eq; (split; [exact Hs|done]). Qed.

#[local] Hint Resolve gives_fast_stat : call.

Context (arch : Arch).

(** Without following, the links of /proc are described, not entered. *)
Lemma stat_virtual_answers i dst vp : ensures (stat_virtual io arch live i dst false vp) answered.
Proof. unfold stat_virtual, write_statbuf. reads. Qed.

Lemma path_lstat_answers i at_ : ensures (path_stat io arch live r i at_ false) answered.
Proof.
  unfold path_stat, write_statbuf. repeat first [apply stat_virtual_answers | progress reads].
Qed.

Lemma statx_virtual_answers dst vp : ensures (statx_virtual io live dst true vp) answered.
Proof. unfold statx_virtual, write_statx. reads. Qed.

Lemma path_statx_answers :
  has_at (arg r 2) symlink_nofollow = true -> ensures (path_statx io live r) answered.
Proof.
  intros Hf. unfold path_statx, write_statx. rewrite Hf.
  repeat first [apply statx_virtual_answers | progress reads].
Qed.

(** Following them too, nothing changes. *)
Definition looked (f : Fate) (s : Sys F M) : Prop := W (world s).

Lemma looked_inv f s : Inv s -> looked f s.
Proof. by intros (Hw & _). Qed.

Lemma reply_looks v buf bs : ensures (reply v buf bs) looked.
Proof. eapply ensures_weaken; [apply ensures_reply|]. by intros f s [_ ?]. Qed.

Ltac looks := repeat first [apply reply_looks | call_step | by apply looked_inv | progress intros | case_match].

Lemma stat_virtual_looks i dst fo vp : ensures (stat_virtual io arch live i dst fo vp) looked.
Proof. unfold stat_virtual, write_statbuf. looks. Qed.

Lemma path_stat_looks i at_ fo : ensures (path_stat io arch live r i at_ fo) looked.
Proof. unfold path_stat, write_statbuf. repeat first [apply stat_virtual_looks | progress looks]. Qed.

Lemma statx_virtual_looks dst nf vp : ensures (statx_virtual io live dst nf vp) looked.
Proof. unfold statx_virtual, write_statx. looks. Qed.

Lemma path_statx_looks : ensures (path_statx io live r) looked.
Proof. unfold path_statx, write_statx. repeat first [apply statx_virtual_looks | progress looks]. Qed.

(** ** exec *)

(** The interpreters a file names: of an ELF file, of a script. *)
Definition names_interp (f : F) (file name : str) : Prop :=
  name = ElfProbe.read_elf_interp (ElfProbe.contents f file) \/
  name = ElfProbe.sb_interp (ElfProbe.read_shebang (ElfProbe.contents f file)).

(** What exec may run: a file of the mounts, or the very name a program or
    an interpreter states when the guest's name is not backed by the host. *)
Inductive interpreter (w : World (F := F)) : str -> Prop :=
| interp_inside hp : inside_for false ms hp -> interpreter w hp
| interp_raw file name dir abs :
    interpreter w file -> names_interp (host w) file name ->
    PathResolve.absolutize io w dir name [] = Some abs ->
    realm (classify io w abs false true copy_leaf).1 <> host_backed -> interpreter w name.

(** The post-condition of exec. *)
Definition loaded (w : World (F := F)) (f : Fate) (s : Sys F M) : Prop :=
  match f with FExecInterp e => interpreter w (interp_host e) | f => good_fate false false f end /\ W (world s).

Lemma answered_loaded w f s : answered f s -> loaded w f s.
Proof. intros [Hf Hw]. split; [by destruct f|done]. Qed.

(** An interpreter's name is what the file says, so the call need not answer. *)
Lemma gives_locate w0 file name :
  (forall w, W w -> w = w0) -> n -> interpreter w0 file -> names_interp (host w0) file name ->
  gives (locate_interp io name) (fun l => interpreter w0 l.1).
Proof.
  intros HE Hn Hf Hname s Hs. unfold wp, locate_interp. rewrite bind_run. unfold do_absolutize.
  destruct (PathResolve.absolutize _ _ _ _ _) as [abs|] eqn:E; [|done]. rewrite bind_run.
  assert (Ha : Canonical abs) by (by eapply PathResolve.absolutize_walks).
  pose proof (gives_read abs Ha s Hs) as Hg. unfold wp, classify_read, do_classify in *.
  destruct Hs as (Hw & _). pose proof (HE _ Hw) as Ew. rewrite Ew in *.
  pose proof (classify_read_world io w0 abs true copy_leaf) as Er.
  pose proof (interp_raw w0 file name _ abs Hf Hname E) as Hraw.
  destruct (classify io w0 abs false true copy_leaf) as [pc w]. cbn [fst snd] in *. cbn. destruct Hg as [Hi Hg].
  split; [exact Hi|]. destruct (realm pc) eqn:Ep; [apply interp_inside; by apply (good_backed _ _ Hg)|by apply Hraw..].
Qed.

Lemma path_exec_loads w0 host_machine ow i :
  (forall w, W w -> w = w0) -> n -> ensures (path_exec io live host_machine ow r i) (loaded w0).
Proof.
  intros HE Hn. unfold path_exec. call_step. case_match; [call_step; by apply answered_loaded, answer_now|].
  do 2 call_step. apply ensures_get. intros s Hs. cbv zeta.
  assert (Ew : world s = w0) by (apply HE, Hs). rewrite Ew.
  destruct (realm a1) eqn:Er; [|call_step; by apply answered_loaded, answer_now..].
  assert (Hp : inside_for false ms (host_path a1)) by eauto using good_backed.
  assert (Hprog : interpreter w0 (host_path a1)) by (by apply interp_inside).
  case_decide; [call_step; by apply answered_loaded, answer_now|].
  assert (Hdone : forall e, interpreter w0 (interp_host e) -> ensures (mret (FExecInterp e)) (loaded w0)).
  { intros e He. apply ensures_ret. intros s' Hs'. split; [exact He|apply Hs']. }
  destruct (ElfProbe.read_elf_interp _) as [|c l] eqn:Ei.
  - destruct (ElfProbe.sb_interp _) as [|c l] eqn:Es; [call_step; by apply answered_loaded, answer_redirect|].
    eapply ensures_bind; [apply (gives_locate w0 (host_path a1)); [done..|by right]|]. intros [si ga] Hsi.
    destruct (ElfProbe.read_elf_interp (ElfProbe.contents _ si)) as [|c' l'] eqn:Ei'; [by apply Hdone|].
    eapply ensures_bind; [apply (gives_locate w0 si); [done..|by left]|]. intros ld Hld. by apply Hdone.
  - eapply ensures_bind; [apply (gives_locate w0 (host_path a1)); [done..|by left]|]. intros ld Hld. by apply Hdone.
Qed.

(** Whatever it runs, nothing changes. *)
Lemma gives_locate_any name : n -> gives (locate_interp io name) (fun _ => True).
Proof.
  intros Hn. unfold locate_interp. eapply ensures_bind; [apply gives_absolutize; by left|]. intros. do 2 call_step. done.
Qed.

#[local] Hint Resolve gives_locate_any : call.

Lemma path_exec_looks host_machine ow i : n -> ensures (path_exec io live host_machine ow r i) looked.
Proof. intros Hn. unfold path_exec. looks. Qed.

Lemma do_close_answers : ensures (do_close r) answered.
Proof.
  unfold do_close. eapply ensures_bind with (P := fun _ => True).
  - apply gives_update. intros s Hs. apply (inv_procs s (fun ps => unbind_fd ps (i32 (arg r 0)))); [done|]. intros Hp. unfold unbind_fd.
    pose proof (plain_fds _ Hp) as [Ht Hp2]. destruct (fds (procs s)) as [t ps]. cbn in *.
    destruct Hp2 as [Hc Hf]. split; [done|]. intros v t'. cbn.
    destruct (decide (v = cur_pid ps)) as [->|]; [rewrite lookup_insert_eq|rewrite lookup_insert_ne by done].
    + intros [= <-] fd p. cbn. rewrite lookup_delete_Some. intros [_ ?]. by eapply Ht.
    + apply Hf.
  - intros. reads.
Qed.

(** ** open, for reading and without emulated FIFOs *)

Context `{HostMeta F} `{HostOpen F}.

Lemma gives_pending f : gives (update (fun s => with_pending s (f s))) (fun _ => True).
Proof. by apply gives_update. Qed.

Lemma gives_set_pending p : gives (set_pending p) (fun _ => True).
Proof. by apply gives_update. Qed.

Lemma gives_names_symlink abs : gives (names_symlink io abs) (fun _ => True).
Proof. unfold names_symlink. do 3 call_step. done. Qed.

#[local] Hint Resolve gives_pending gives_set_pending gives_names_symlink : call.

Lemma gives_exclusive flags raw abs pc : gives (exclusive_error io flags raw abs pc) (fun _ => True).
Proof. unfold exclusive_error. repeat first [by apply gives_ret | call_step | case_match]. Qed.

Definition good_early (o : option Fate) : Prop :=
  match o with
  | Some (FRedirect rd) => second rd = None /\ inside_for false ms (pa_host_path (first rd))
  | Some f => pathless f
  | None => True
  end.

Lemma gives_nofollow flags i abs : Canonical abs -> gives (nofollow_answer io arch flags i abs) good_early.
Proof.
  intros Ha. unfold nofollow_answer. case_match; [by apply gives_ret|].
  eapply ensures_bind; [by eapply gives_classify_read|]. intros named [Hn _]. call_step.
  destruct (negb (host_path_is_symlink _ _)) eqn:Es; [by apply gives_ret|].
  case_match; [by apply gives_ret|]. call_step. apply gives_ret. cbn.
  split; [done|]. destruct Hn as [E|?]; [by rewrite E in Es|done].
Qed.

#[local] Hint Resolve gives_exclusive gives_nofollow : call.

Lemma answer_early f s : good_early (Some f) -> Inv s -> answered f s.
Proof. destruct f; cbn; intros; try by apply answer_now. apply answer_redirect; naive_solver. Qed.

Lemma path_open_reads i at_ flags :
  writable flags = false -> ensures (path_open_flags io arch live false r i at_ flags) answered.
Proof.
  intros Hf. unfold path_open_flags, open_host, open_virtual. rewrite Hf. cbn [andb].
  repeat first [apply answer_early; assumption | progress reads].
Qed.

End specs.

End Confinement.
