(* ===== verification/MutConfinement.v ===== *)
(** Confinement of the calls that write: [MutCalls], [OpenCalls] and
    [NameCalls] in the logic of [CallLogic], over the specifications of
    [Confinement]. *)

From S2P Require Import Prelude Sysno Abi Dispatch Paths CText GuestMem HostFs Whiteouts MetaStore LinkTable Dirents Namespace NamespaceSafety ProcessTable JobControl ProcState PathResolve ElfProbe PathArgs StatWire PathCalls MutCalls OpenCalls NameCalls CallLogic Confinement.
Import Sysno Abi Dispatch Paths CText HostFs Whiteouts Mounts Overlay ProcState NamespaceSafety PathArgs StatWire PathCalls MutCalls OpenCalls NameCalls CallLogic Confinement.

Module MutConfinement.

#[local] Opaque read_cstr.

Section specs.
Context {F M : Type} `{HostFs F} `{HostAccess F} `{HostStats F} `{HostFiles F} `{HostMeta F} `{HostOpen F} `{HostNames F} `{GuestMem M}.
Context (io : bool) (arch : Arch) (live : option ProcessTable.LiveSource) (pipes : bool).
Context (n : Prop) (ms : list Mount) (m0 : M) (r : Regs).
Hypothesis Hms : Forall mount_ok ms.
Hypothesis Hstr : forall i, n \/ plain (read_cstr m0 (arg r i)).
Hypothesis Hlive : n \/ live = None.

(** The mounts stay, and the links' backing files are where writes may go. *)
Definition Wm (w : World (F := F)) : Prop := mounts w = ms /\ links_inside ms (links w).

Lemma Wm_holds w : Wm w -> mounts w = ms /\ links_inside ms (links w).
Proof. done. Qed.

Abbreviation Inv := (Inv n m0 Wm).
Abbreviation gives := (gives n Inv).
Abbreviation ensures := (ensures n Inv).

#[local] Hint Resolve Wm_holds gives_plain_cstr gives_fd_path gives_dir_of gives_dir_if gives_absolutize
  gives_empty_cstr gives_empty_path gives_unresolvable gives_unresolvable_if gives_failure_errno gives_prefix_loop
  gives_dir_base gives_dot_prefix gives_proc_target gives_resolve_arg gives_resolve_second gives_read
  gives_classify_read inv_cwd gives_produce gives_fast_stat : call.
#[local] Hint Extern 100 (CallLogic.gives _ _ (do_classify _ _ false _ _) _) => apply gives_classify_any : call.
#[local] Hint Extern 100 (CallLogic.gives _ _ (classify_read _ _) _) => apply gives_read_any : call.

Lemma gives_classify_write abs fo wi :
  Canonical abs -> gives (do_classify io abs true fo wi) (good_class ms true).
Proof.
  intros Ha s (Hw & Hm & Hp). unfold wp, do_classify. pose proof (classify_frame io (world s) abs true fo wi) as [Em El].
  pose proof (classify_good io ms Wm Wm_holds Hms (world s) abs true fo wi Hw Ha) as Hg.
  destruct (classify io (world s) abs true fo wi) as [pc w]. cbn [fst snd] in *.
  split; [|done]. split; [|done]. cbn. unfold Wm. by rewrite Em, El.
Qed.

Lemma gives_classify_name abs wi :
  Canonical abs -> gives (do_classify_name io abs wi) (good_class ms true).
Proof.
  intros Ha s (Hw & Hm & Hp). unfold wp, do_classify_name, classify_name.
  pose proof (classify_impl_frame io max_depth (world s) abs true false wi) as [Em El].
  pose proof (classify_impl_good io ms Wm Wm_holds Hms (world s) abs true false wi Hw Ha) as Hg.
  destruct (classify_impl io max_depth (world s) abs true false wi) as [pc w]. cbn [fst snd] in *.
  split; [|done]. split; [|done]. cbn. unfold Wm. by rewrite Em, El.
Qed.

(** Changes that leave the mounts and the links alone. *)
Lemma gives_world f :
  (forall w, mounts (f w) = mounts w /\ links (f w) = links w) -> gives (update_world f) (fun _ => True).
Proof.
  intros Hf. apply gives_update. intros s (Hw & Hm & Hp). split; [|done]. cbn. unfold Wm.
  destruct (Hf (world s)) as [-> ->]. exact Hw.
Qed.

Lemma gives_meta f : gives (update_meta f) (fun _ => True).
Proof. by apply gives_world. Qed.

Lemma gives_whites f : gives (update_whites f) (fun _ => True).
Proof. by apply gives_world. Qed.

Lemma gives_host (f : F -> F) : gives (update_world (fun w => with_host w (f (host w)))) (fun _ => True).
Proof. by apply gives_world. Qed.

Lemma gives_host_call f : gives (host_call f) (fun _ => True).
Proof. intros s Hs. unfold wp, host_call. by destruct (f (host (world s))). Qed.

(** The post-condition of a handler that writes. *)
Definition wrote (f : Fate) (s : Sys F M) : Prop := good_fate ms true pipes f /\ mounts (world s) = ms.

Lemma wrote_now f s : pathless f -> Inv s -> wrote f s.
Proof. intros Hf ((Hw & _) & _). split; [by destruct f|done]. Qed.

Lemma wrote_redirect rd s :
  second rd = None -> inside_for true ms (pa_host_path (first rd)) -> Inv s -> wrote (FRedirect rd) s.
Proof. intros E Hh ((Hw & _) & _). split; [|done]. split; [by constructor|]. intros p. by rewrite E. Qed.

#[local] Hint Resolve gives_classify_write gives_classify_name gives_meta gives_whites gives_host gives_host_call : call.

Ltac writes :=
  repeat first
    [ call_step
    | by apply wrote_now
    | apply wrote_redirect; [reflexivity| |assumption]; cbn [pa_host_path first redirect redirect_to path_arg path_arg_from]
    | progress intros
    | case_decide
    | case_match ]; eauto using good_backed, good_nonempty.

(** ** path_mut *)

Lemma fifo_create_writes abs hp mode : ensures (fifo_create io abs hp mode) wrote.
Proof. unfold fifo_create. writes. Qed.

Lemma unlink_links_writes name : ensures (MutCalls.unlink_with_links io name) wrote.
Proof.
  intros s ((Hw & _) & _). unfold wp, MutCalls.unlink_with_links.
  destruct (LinkOps.unlink_with_links _ _ _ _) as [[lt h] v]. done.
Qed.

Lemma mut_host_writes i wi sp abs hp : inside_for true ms hp -> ensures (mut_host io arch pipes r i wi sp abs hp) wrote.
Proof.
  intros Hh. unfold mut_host.
  repeat first [apply fifo_create_writes | apply unlink_links_writes | progress writes].
Qed.

Lemma gives_dot_removal i at_ rm raw : gives (dot_removal io live r i at_ rm raw) (fun _ => True).
Proof. unfold dot_removal. case_match; [by apply gives_ret|..]; do 3 call_step; cbv zeta; by apply gives_ret. Qed.

Lemma gives_whiteout (b : bool) abs :
  gives (if b then update_whites (fun w => add_whiteout io w abs);; update_meta (fun m => MetaStore.forget io m abs)
         else mret tt) (fun _ => True).
Proof. destruct b; [|by apply gives_ret]. unfold CallLogic.gives. call_step. apply gives_meta. Qed.

#[local] Hint Resolve gives_dot_removal gives_whiteout : call.

Lemma path_mut_writes i at_ wi sp rm : ensures (path_mut io arch live pipes r i at_ wi sp rm) wrote.
Proof.
  unfold path_mut, virtual_mut. repeat first [apply mut_host_writes; by eauto using good_nonempty | progress writes].
Qed.

Lemma do_utimes_writes i at_ fl : ensures (do_utimes io arch live pipes r i at_ fl) wrote.
Proof. unfold do_utimes. repeat first [apply path_mut_writes | progress writes]. Qed.

(** ** chmod and chown *)

Lemma gives_fchmod fd mode : gives (fchmod_by_fd fd mode) (fun _ => True).
Proof. intros s Hs. unfold wp, fchmod_by_fd. by destruct (fchmod_fd _ _ _ _). Qed.

#[local] Hint Resolve gives_names_symlink gives_fchmod : call.

(** The path whose mode is to change is canonical, or a descriptor's. *)
Definition good_target (t : ChmodTarget) : Prop :=
  match t with ct_answer f => pathless f | ct_path _ => True end.

Lemma gives_chmod_target i at_ wf fl mode : gives (chmod_target io live r i at_ wf fl mode) good_target.
Proof.
  unfold chmod_target. repeat first [apply gives_ret | call_step | case_match]; try done.
Qed.

Lemma gives_classify_write_any abs fo wi : gives (do_classify io abs true fo wi) (fun _ => True).
Proof.
  intros s (Hw & Hm & Hp). unfold wp, do_classify. pose proof (classify_frame io (world s) abs true fo wi) as [Em El].
  destruct (classify io (world s) abs true fo wi) as [pc w]. cbn [fst snd] in *.
  split; [|done]. split; [|done]. cbn. unfold Wm. by rewrite Em, El.
Qed.

#[local] Hint Extern 100 (CallLogic.gives _ _ (do_classify _ _ true _ _) _) => apply gives_classify_write_any : call.
#[local] Hint Resolve gives_chmod_target : call.

Lemma gives_land_mode abs mode : gives (land_mode io abs mode) (fun _ => True).
Proof. unfold land_mode. repeat first [by apply gives_ret | call_step | case_match]. Qed.

#[local] Hint Resolve gives_land_mode : call.

Lemma do_chmod_writes i at_ wf : ensures (do_chmod io live r i at_ wf) wrote.
Proof. unfold do_chmod. writes. Qed.

Lemma do_fchmod_writes : ensures (do_fchmod io r) wrote.
Proof.
  unfold do_fchmod. do 2 call_step. case_match; [writes|]. case_match; [writes|]. call_step. case_match; [writes|].
  call_step. eapply ensures_bind with (P := fun _ => True); [|intros; writes].
  repeat first [by apply gives_ret | call_step | case_match].
Qed.

Lemma path_xattr_writes follow i at_ : ensures (path_xattr io live r true follow i at_) wrote.
Proof. unfold path_xattr. writes. Qed.

Lemma set_owner_writes gp u g : ensures (set_owner_of io gp u g) wrote.
Proof. unfold set_owner_of. writes. Qed.

Lemma do_chown_writes i u g at_ fo : ensures (do_chown io live r i u g at_ fo) wrote.
Proof. unfold do_chown. repeat first [apply set_owner_writes | progress writes]. Qed.

Lemma do_fchown_writes : ensures (do_fchown io r) wrote.
Proof. unfold do_fchown. repeat first [apply set_owner_writes | progress writes]. Qed.

(** ** open *)

(** A descriptor that may write; O_PATH never does. *)
Definition may_write (flags : Z) : bool := writable flags && negb (has_for arch flags path).

Definition opened (flags : Z) (f : Fate) (s : Sys F M) : Prop :=
  good_fate ms (may_write flags) pipes f /\ mounts (world s) = ms.

Lemma opened_now flags f s : pathless f -> Inv s -> opened flags f s.
Proof. intros Hf ((Hw & _) & _). split; [by destruct f|done]. Qed.

Lemma opened_redirect flags rd s :
  second rd = None -> inside_for (may_write flags) ms (pa_host_path (first rd)) -> Inv s -> opened flags (FRedirect rd) s.
Proof. intros E Hh ((Hw & _) & _). split; [|done]. split; [by constructor|]. intros p. by rewrite E. Qed.

Lemma may_write_good flags pc : good_class ms (writable flags) pc -> good_class ms (may_write flags) pc.
Proof.
  unfold may_write. destruct (writable flags); [|done]. destruct (has_for arch flags path); [|done].
  intros [Hp Hb]. split; [destruct Hp; [by left|right]|intros E]; eapply inside_inside_for, inside_for_inside; eauto.
Qed.

Lemma gives_classify_open abs fw wi : Canonical abs -> gives (do_classify io abs fw true wi) (good_class ms fw).
Proof. intros Ha. destruct fw; [by apply gives_classify_write|by eapply gives_classify_read; eauto with call]. Qed.

Lemma gives_sys (f : Sys F M -> Sys F M) :
  (forall s, world (f s) = world s /\ mem (f s) = mem s /\ procs (f s) = procs s) -> gives (update f) (fun _ => True).
Proof.
  intros Hf. apply gives_update. intros s Hs. destruct (Hf s) as (Ew & Em & Ep).
  unfold Confinement.Inv. by rewrite Ew, Em, Ep.
Qed.

Lemma gives_put_fifo k f : gives (put_fifo k f) (fun _ => True).
Proof. by apply gives_sys. Qed.

Lemma gives_release l : gives (release l) (fun _ => True).
Proof. by apply gives_sys. Qed.

Lemma gives_take_end a h w : gives (take_end a h w) (fun _ => True).
Proof.
  unfold take_end. case_match; [|by apply gives_ret]. intros s Hs. unfold wp. by destruct (open_end _ _ _).
Qed.

#[local] Hint Resolve gives_classify_open gives_pending gives_set_pending gives_put_fifo gives_release gives_take_end : call.

Lemma gives_anchor key :
  gives (ensure_anchor key) (fun o => match o with Some f => pathless f | None => True end).
Proof.
  unfold ensure_anchor. apply ensures_get. intros s0 _. cbv zeta. case_match.
  - call_step. by apply gives_ret.
  - intros s Hs. unfold wp. destruct (make_anchor _) as [g [a|[e|]]]; by split.
Qed.

Lemma gives_fifo_step f acc nb rd wr now me_ : gives (fifo_step f acc nb rd wr now me_) (fun _ => True).
Proof. unfold fifo_step. cbv zeta. repeat first [by apply gives_ret | call_step | case_match]. Qed.

#[local] Hint Resolve gives_anchor gives_fifo_step : call.

Lemma opened_pipe flags i v fd s :
  pipes = true -> Inv s ->
  opened flags (FRedirect (redirect_to i (proc_dir ++ to_string v ++ lit "/fd/" ++ to_string fd))) s.
Proof. intros Hp ((Hw & _) & _). split; [|done]. split; [by constructor|done]. Qed.

Lemma fifo_open_opens abs key flags i : pipes = true -> ensures (fifo_open arch abs key flags i) (opened flags).
Proof.
  intros Hp. unfold fifo_open. call_step. destruct a as [f|]; [apply ensures_ret; intros; by apply opened_now; destruct f|].
  call_step. cbv zeta. destruct (fifo_peers _ _) as [rd wr]. call_step. case_match.
  - do 4 call_step. by apply opened_pipe.
  - call_step. call_step. by apply opened_now.
  - call_step. call_step. by apply opened_now.
Qed.

Lemma gives_grant abs hp : gives (grant_root_write io abs hp) (fun _ => True).
Proof. unfold grant_root_write. repeat first [by apply gives_ret | apply gives_meta | call_step | case_match]. Qed.

#[local] Hint Resolve gives_grant gives_exclusive : call.

Definition early_open (flags : Z) (o : option Fate) : Prop :=
  match o with
  | Some (FRedirect rd) => second rd = None /\ inside_for (may_write flags) ms (pa_host_path (first rd))
  | Some f => pathless f
  | None => True
  end.

Lemma gives_nofollow_open flags i abs : Canonical abs -> gives (nofollow_answer io arch flags i abs) (early_open flags).
Proof.
  intros Ha. unfold nofollow_answer. case_match; [by apply gives_ret|].
  eapply ensures_bind; [by eapply gives_classify_read; eauto with call|]. intros named [Hn _]. call_step.
  destruct (negb (host_path_is_symlink _ _)) eqn:Es; [by apply gives_ret|].
  destruct (negb (has_for arch flags path)) eqn:Ep; [by apply gives_ret|]. call_step. apply gives_ret. cbn.
  split; [done|]. unfold may_write. rewrite Ep, andb_false_r. destruct Hn as [E|?]; [by rewrite E in Es|done].
Qed.

#[local] Hint Resolve gives_nofollow_open : call.

Ltac opens :=
  repeat first
    [ call_step
    | by apply opened_now
    | apply opened_redirect; [done| |assumption]; cbn [pa_host_path first redirect redirect_to path_arg path_arg_from]
    | progress intros
    | case_decide
    | case_match ]; eauto using good_backed, may_write_good.

Lemma open_host_opens flags i abs hp :
  inside_for (may_write flags) ms hp -> ensures (open_host io arch pipes flags i abs hp) (opened flags).
Proof.
  intros Hh. unfold open_host. call_step. cbv zeta.
  match goal with |- context [match ?x with Some k => fifo_open _ _ k _ _ | None => _ end] => destruct x as [key|] eqn:E end.
  - apply fifo_open_opens. by destruct pipes.
  - call_step. eapply ensures_bind with (P := fun _ => True); [|intros; opens].
    destruct (writable flags); [apply gives_grant|apply gives_pending].
Qed.

Lemma open_virtual_opens flags i vp : ensures (open_virtual flags i vp) (opened flags).
Proof. unfold open_virtual. opens. Qed.

Lemma opened_early flags f s : early_open flags (Some f) -> Inv s -> opened flags f s.
Proof. destruct f; cbn; intros; try by apply opened_now. apply opened_redirect; naive_solver. Qed.

Lemma path_open_opens i at_ flags : ensures (path_open_flags io arch live pipes r i at_ flags) (opened flags).
Proof.
  unfold path_open_flags.
  repeat first [ apply open_virtual_opens | apply opened_early; assumption
               | apply open_host_opens; by eauto using good_backed, may_write_good | progress opens ].
Qed.

(** ** rename, link, symlink *)

Context (order : gmap str str -> list (str * str)) (forced : bool).

Lemma gives_links_work_set f : gives (update (fun s => with_links_work s (f s))) (fun _ => True).
Proof. by apply gives_sys. Qed.

#[local] Hint Resolve gives_links_work_set : call.

Lemma gives_links_work near : gives (host_links_work forced near) (fun _ => True).
Proof. unfold host_links_work. repeat first [by apply gives_ret | call_step | case_match]. Qed.

#[local] Hint Resolve gives_links_work : call.

Lemma add_link_writes a b v : ensures (add_link io a b;; mret (value v)) wrote.
Proof. intros s ((Hw & _) & _). done. Qed.

Lemma emulate_link_writes hs hd : ensures (emulate_link io hs hd) wrote.
Proof. unfold emulate_link. repeat first [apply add_link_writes | progress writes]. Qed.

Lemma rename_links_writes from to fl : ensures (NameCalls.rename_with_links io order r from to fl) wrote.
Proof.
  intros s ((Hw & _) & _). unfold wp, NameCalls.rename_with_links.
  destruct (LinkOps.rename_with_links _ _ _ _ _ _ _) as [[lt h] v]. done.
Qed.

Lemma wrote_both a1 a2 hs hd s :
  inside_for true ms hs -> inside_for true ms hd -> Inv s ->
  wrote (FRedirect (with_path (redirect_to a1 hs) (path_arg (Z.of_nat a2) hd))) s.
Proof.
  intros Hs Hd ((Hw & _) & _). split; [|done]. split; [by constructor|]. intros p [= <-]. by constructor.
Qed.

Lemma apply_names_writes a1 a2 mv fl nm :
  inside_for true ms (host_path (n_ps nm)) -> inside_for true ms (host_path (n_pd nm)) ->
  ensures (apply_names io order forced r a1 a2 mv fl nm) wrote.
Proof.
  intros Hs Hd. unfold apply_names.
  repeat first [ apply rename_links_writes | apply emulate_link_writes | by apply wrote_both | progress writes ].
Qed.

Lemma gives_traversal a1 a2 at_ mv nm : gives (traversal_error io r a1 a2 at_ mv nm) (fun _ => True).
Proof.
  unfold traversal_error. cbv zeta. repeat first [by apply gives_ret | apply gives_prefix_loop | call_step | case_match].
Qed.

#[local] Hint Resolve gives_traversal : call.

(** A copy from an open file may not end. *)
Lemma gives_lift {A} (g : F -> option (F * A)) : n -> gives (lift_host g) (fun _ => True).
Proof. intros Hn s Hs. unfold wp, lift_host. by destruct (g (host (world s))) as [[f x]|]. Qed.

#[local] Hint Resolve gives_lift : call.

Lemma link_from_fd_writes fd a2 at_ : n -> ensures (link_from_fd io forced r fd a2 at_) wrote.
Proof. intros Hn. unfold link_from_fd. repeat first [apply add_link_writes | progress writes]. Qed.

Lemma mount_error_paths msx mv nm :
  good_class ms true (n_ps nm) -> good_class ms true (n_pd nm) -> mount_error msx mv nm = None ->
  inside_for true ms (host_path (n_ps nm)) /\ inside_for true ms (host_path (n_pd nm)).
Proof.
  intros [Hs _] [Hd _]. unfold mount_error. repeat case_match; try done. intros _. naive_solver.
Qed.

Definition link_source (a1 : nat) (at_ empty1 : bool) (link_flags_arg : Z) (id : TaskIdentity) : Call F M Z :=
  if 0 <=? link_flags_arg then
    let lf := arg r (Z.to_nat link_flags_arg) in
    if empty1 && has_at lf empty_path then mret (i32 (arg r 0))
    else if has_at lf symlink_follow
    then p ← resolve_arg io live r a1 at_ true; mret (magic_fd_of id p)
    else mret (-1)
  else mret (-1).

Lemma gives_link_source a1 at_ e fl id :
  n \/ fl < 0 -> gives (link_source a1 at_ e fl id) (fun v => n \/ v = -1).
Proof.
  intros Hf. unfold link_source. destruct (Z.leb_spec 0 fl); [|apply gives_ret; by right].
  destruct Hf; [|lia]. cbv zeta. repeat first [apply gives_ret; by auto | call_step | case_match].
Qed.

Lemma path_mut2_writes a1 a2 at_ mv lf rf :
  n \/ lf < 0 -> ensures (path_mut2 io live order forced r a1 a2 at_ mv lf rf) wrote.
Proof.
  intros Hl. unfold path_mut2. do 2 call_step. eapply ensures_bind; [by apply gives_link_source|].
  cbv beta. intros fd Hfd. destruct (Z.leb_spec 0 fd); [apply link_from_fd_writes; destruct Hfd; [done|lia]|].
  do 2 call_step. case_match; [writes|]. do 4 call_step.
  eapply ensures_bind with (P := good_class ms true); [destruct mv; by auto with call|]. intros ps Hs.
  eapply ensures_bind with (P := good_class ms true); [destruct mv; by auto with call|]. intros pd Hd.
  cbv zeta. call_step. apply ensures_unless; [intros; by apply wrote_now|]. call_step.
  apply ensures_unless; [intros; by apply wrote_now|].
  destruct (mount_error _ _ _) eqn:E; cbn [unless_errno]; [writes|].
  apply mount_error_paths in E as [? ?]; [|done..]. by apply apply_names_writes.
Qed.

Lemma gives_link_name i at_ : gives (link_name io r i at_) Canonical.
Proof.
  unfold link_name. destruct at_; [by apply gives_resolve_second; auto with call|].
  eapply ensures_bind; [by apply gives_plain_cstr|]. intros raw Hr. call_step. apply gives_absolutize; auto with call.
  by eapply inv_cwd.
Qed.

#[local] Hint Resolve gives_link_name : call.

Lemma gives_slash_refusal i at_ : gives (slash_refusal io r i at_) (fun _ => True).
Proof. unfold slash_refusal. do 3 call_step. cbv zeta. by apply gives_ret. Qed.

#[local] Hint Resolve gives_slash_refusal : call.

Lemma path_symlink_writes t l at_ : ensures (path_symlink io r t l at_) wrote.
Proof. unfold path_symlink. writes. Qed.

End specs.

End MutConfinement.
