(* ===== verification/DispatchSafety.v ===== *)
(** What one trapped call can do to the host, through the whole dispatcher:
    [SysDispatch.dispatch] over the handlers' specifications of
    [Confinement] and [MutConfinement]. *)

From S2P Require Import Prelude Sysno Abi Dispatch Paths CText GuestMem HostFs Whiteouts MetaStore LinkTable Dirents Namespace NamespaceSafety ProcessTable JobControl OverlayDir ProcState PathResolve ElfProbe PathArgs StatWire MachineInfo PathCalls MutCalls OpenCalls NameCalls SockCalls SysDispatch TreeHost CallLogic Confinement MutConfinement.
Import Sysno Abi Dispatch Paths CText HostFs Mounts Overlay ProcState NamespaceSafety PathArgs CallLogic Confinement MutConfinement SysDispatch.

Module DispatchSafety.

#[local] Opaque read_cstr.
Create HintDb still.

(** ** Handlers that send no path to the host *)

(** The answer names no host path, and the namespace and the host stay. *)
Definition aside {F M} (m : PathArgs.Call F M Fate) : Prop :=
  forall s f s', m s = Some (f, s') -> pathless f /\ world s' = world s.

Section aside.
Context {F M : Type} `{HostFs F} `{HostAccess F} `{StatWire.HostStats F} `{HostFiles F} `{MutCalls.HostMeta F}
  `{OpenCalls.HostOpen F} `{NameCalls.HostNames F} `{MachineInfo.HostCpus F} `{GuestMem M}.
Context (c : Config).

Lemma aside_job (f : Sys F M -> JobControl.World -> option (JobControl.World * Fate)) :
  (forall s w w' o, f s w = Some (w', o) -> pathless o) -> aside (on_job f).
Proof.
  intros Hf s o s'. unfold on_job. destruct (f s (job_world s)) as [[w o']|] eqn:E; [|done].
  cbn. intros [= <- <-]. split; [by eapply Hf|done].
Qed.

Lemma aside_reads_job (f : Sys F M -> JobControl.World -> option Fate) :
  (forall s w o, f s w = Some o -> pathless o) -> aside (reads_job f).
Proof.
  intros Hf s o s'. unfold reads_job. destruct (f s (job_world s)) as [o'|] eqn:E; [|done].
  cbn. intros [= <- <-]. split; [by eapply Hf|done].
Qed.

Lemma aside_dirs f : (forall u w w' o, f u w = (w', o) -> pathless o) -> aside (F := F) (on_dirs (M := M) c f).
Proof.
  intros Hf s o s'. unfold on_dirs. destruct (fds (procs s)) as [t ps].
  destruct (f _ _) as [w o'] eqn:E. intros [= <- <-]. split; [by eapply Hf|done].
Qed.

Lemma aside_ret f : pathless f -> aside (F := F) (M := M) (mret f).
Proof. by intros Hf s o s' [= <- <-]. Qed.

Lemma aside_get k : (forall s, aside (k s)) -> aside (F := F) (M := M) (get ≫= k).
Proof. intros Hk s f s'. rewrite bind_run. cbn. apply Hk. Qed.

Lemma aside_reply v buf bs : aside (F := F) (M := M) (StatWire.reply v buf bs).
Proof. intros s f s'. unfold StatWire.reply. destruct (copy_out _ _ _); by intros [= <- <-]. Qed.

(** The option monad of the job-control handlers. *)
Ltac options := repeat first [progress simplify_option_eq | case_match]; try done.

Lemma kill_fates live id w r o : JobControl.do_kill (M := M) live id w r = Some o -> pathless o.
Proof. unfold JobControl.do_kill. intros E. options. Qed.

Lemma ioctl_fates live id pf fl (w w' : JobControl.World (M := M)) r o :
  JobControl.do_ioctl live id pf fl w r = Some (w', o) -> pathless o.
Proof.
  unfold JobControl.do_ioctl, JobControl.ioctl_sctty, JobControl.ioctl_notty, JobControl.ioctl_gpgrp,
    JobControl.ioctl_gsid, JobControl.ioctl_spgrp, JobControl.ctty_refusal. intros E. options.
Qed.

(** Helpers that leave the namespace and the host alone. *)
Definition still {A} (m : PathArgs.Call F M A) : Prop := forall s a s', m s = Some (a, s') -> world s' = world s.

Lemma aside_bind {A} (m : PathArgs.Call F M A) k : still m -> (forall a, aside (k a)) -> aside (m ≫= k).
Proof.
  intros Hm Hk s f s'. rewrite bind_run. destruct (m s) as [[a s1]|] eqn:E; [|done].
  intros E'. destruct (Hk a _ _ _ E') as [? Ew]. split; [done|]. rewrite Ew. by eapply Hm.
Qed.

Lemma still_bind {A B} (m : PathArgs.Call F M A) (k : A -> PathArgs.Call F M B) :
  still m -> (forall a, still (k a)) -> still (m ≫= k).
Proof.
  intros Hm Hk s f s'. rewrite bind_run. destruct (m s) as [[a s1]|] eqn:E; [|done].
  intros E'. rewrite (Hk a _ _ _ E'). by eapply Hm.
Qed.

Lemma still_ret {A} (a : A) : still (mret a).
Proof. by intros s x s' [= <- <-]. Qed.

Lemma still_get : still get.
Proof. by intros s x s' [= <- <-]. Qed.

Lemma still_update f : (forall s, world (f s) = world s) -> still (update f).
Proof. intros Hf s x s' [= <- <-]. apply Hf. Qed.

Lemma still_cstr r i : still (cstr_arg r i).
Proof. by intros s x s' [= <- <-]. Qed.

Lemma still_absolutize io p d : still (do_absolutize io p d).
Proof. intros s x s'. unfold do_absolutize. by destruct (PathResolve.absolutize _ _ _ _ _); [intros [= <- <-]|]. Qed.

Lemma still_read io p : still (classify_read io p).
Proof.
  intros s x s'. unfold classify_read, do_classify.
  pose proof (classify_read_world io (world s) p true Dispatch.copy_leaf) as E.
  destruct (classify _ _ _ _ _ _) as [pc w]. cbn in E. subst w. by intros [= <- <-].
Qed.

Ltac aside_step :=
  lazymatch goal with
  | |- aside (StatWire.reply _ _ _) => apply aside_reply
  | |- aside (mret _) => apply aside_ret; repeat case_match; exact I
  | |- aside (get ≫= _) => apply aside_get; intros ?
  | |- aside (_ ≫= _) => apply aside_bind; [|intros ?]
  | |- still (_ ≫= _) => apply still_bind; [|intros ?]
  | |- still (update _) => apply still_update; intros ?; reflexivity
  | |- still (mret _) => apply still_ret
  | |- still get => apply still_get
  | |- still (cstr_arg _ _) => apply still_cstr
  | |- still (do_absolutize _ _ _) => apply still_absolutize
  | |- still (classify_read _ _) => apply still_read
  | |- still _ => solve [eauto with still] || case_match
  | |- aside _ => case_match
  end.
Ltac asides := repeat aside_step.

Lemma still_bind_source src : still (bind_source_error c src).
Proof. unfold bind_source_error. asides. Qed.

Lemma still_remember tgt : still (remember_mount c tgt).
Proof. unfold remember_mount. asides. Qed.

#[local] Hint Resolve still_bind_source still_remember : still.

Lemma do_mount_aside r : aside (do_mount c r).
Proof.
  unfold do_mount, unless_errno. asides.
Qed.

Lemma do_umount2_aside r : aside (do_umount2 c r).
Proof. unfold do_umount2. asides. Qed.

(** The handlers that answer from their own state and guest memory. *)
Definition aside_handler (h : handler) : bool :=
  match h with
  | h_kill | h_identity _ | h_set_tid_address | h_getpgrp | h_getpgid | h_getsid | h_setpgid | h_setsid
  | h_lseek | h_fxattr | h_mount | h_umount2 | h_prctl | Dispatch.do_getres | Dispatch.do_uname _
  | Dispatch.do_sysinfo _ | Dispatch.do_sched_getaffinity | Dispatch.do_getdents64 | Dispatch.do_socket
  | Dispatch.do_dup | Dispatch.do_dup2 | Dispatch.do_fcntl | Dispatch.do_setgroups | Dispatch.do_getgroups
  | Dispatch.do_ioctl => true
  | _ => false
  end.

Lemma still_put r i v : still (MachineInfo.put_u32_arg r i v).
Proof. intros s a s'. unfold MachineInfo.put_u32_arg. by case_match; intros [= <- <-]. Qed.

Lemma still_set_name r : still (set_name r).
Proof. apply still_update. intros s. by repeat case_match. Qed.

#[local] Hint Resolve still_put still_set_name : still.

Lemma do_ioctl_aside r : aside (do_ioctl c r).
Proof.
  intros s f s'. unfold do_ioctl. destruct (ioctl_looks_up c s r) as [b|]; [|done].
  intros E. cbn in E. apply (aside_job _ (fun s w w' o => ioctl_fates _ _ _ _ w w' r o)) in E as [? Ew].
  split; [done|]. by destruct b.
Qed.

Lemma run_aside h r : aside_handler h = true -> aside (run_handler c h r).
Proof.
  destruct h; try done; intros _; cbn [run_handler].
  - apply aside_reads_job. intros s w o. apply kill_fates.
  - unfold do_identity. asides.
  - unfold do_set_tid_address. asides.
  - apply aside_reads_job. intros s w o E. unfold JobControl.do_getpgrp in E. options.
  - apply aside_reads_job. intros s w o E. unfold JobControl.do_getpgid in E. options.
  - apply aside_reads_job. intros s w o E. unfold JobControl.do_getsid in E. options.
  - apply aside_job. intros s w w' o E. unfold JobControl.do_setpgid in E. options.
  - apply aside_job. intros s w w' o E. unfold JobControl.do_setsid in E. options.
  - apply aside_dirs. intros u w w' o E. unfold Dirents.do_lseek in E. options.
  - unfold do_fxattr. asides.
  - apply do_mount_aside.
  - apply do_umount2_aside.
  - unfold do_prctl. asides.
  - unfold MachineInfo.do_getres. asides.
  - unfold MachineInfo.do_uname, StatWire.out. asides.
  - unfold MachineInfo.do_sysinfo, StatWire.out. asides.
  - unfold MachineInfo.do_sched_getaffinity. asides.
  - apply aside_dirs. intros u w w' o E. unfold Dirents.do_getdents64 in E. options.
  - unfold PathCalls.do_socket. asides.
  - unfold PathCalls.do_dup. asides.
  - unfold PathCalls.do_dup2. asides.
  - unfold PathCalls.do_fcntl. asides.
  - apply aside_job. intros s w w' o E. unfold JobControl.do_setgroups in E. options.
  - apply aside_job. intros s w w' o E. unfold JobControl.do_getgroups in E. options.
  - apply do_ioctl_aside.
Qed.

End aside.

(** ** What a call does to the host *)

Section effects.
Context {F M : Type} `{HostFs F} `{HostAccess F} `{StatWire.HostStats F} `{HostFiles F} `{MutCalls.HostMeta F}
  `{OpenCalls.HostOpen F} `{NameCalls.HostNames F} `{MachineInfo.HostCpus F} `{GuestMem M}.
Context (c : Config).

(** The flags of a call that opens. *)
Definition open_flags (h : handler) (r : Regs) (m : M) : option Z :=
  match h with
  | Dispatch.path_open p _ => Some (arg r (S p))
  | Dispatch.path_open_flags _ _ f => Some f
  | Dispatch.path_openat2 => Some (match copy_in m (arg r 2) 8 with Some b => le_val b | None => 0 end)
  | _ => None
  end.

(** [beside]: it answers without the file system.  [looks]: it reads it.
    [follows]: it reads it and may enter a link of /proc.  [alters]: it may
    change it.  [binds]: it rewrites a socket's address. *)
Inductive Effect := beside | looks | follows | alters | binds.

Definition effect (h : handler) (r : Regs) (m : M) : Effect :=
  match open_flags h r m with
  | Some f => if writable f || emulate_fifos c then alters else looks
  | None =>
      if aside_handler h then beside
      else match h with
           | Dispatch.path_stat _ _ fo => if fo then follows else looks
           | Dispatch.path_statx => if has_at (arg r 2) symlink_nofollow then looks else follows
           | Dispatch.path_xattr w _ _ _ => if w then alters else looks
           | Dispatch.path_mut _ _ _ _ _ | Dispatch.path_mut2 _ _ _ _ _ _ _ | Dispatch.path_symlink _ _ _
           | Dispatch.do_utimes _ _ _ | Dispatch.do_chmod _ _ _ _ | Dispatch.do_fchmod
           | Dispatch.do_chown _ _ _ _ _ | Dispatch.do_fchown => alters
           | Dispatch.do_sockaddr_un _ => binds
           | _ => looks
           end
  end.

#[global] Instance Effect_eq_dec : EqDecision Effect.
Proof. solve_decision. Defined.

(** Whether the paths it sends to the host are for writing. *)
Definition writing (h : handler) (r : Regs) (m : M) : bool :=
  match open_flags h r m with
  | Some f => may_write (guest_arch c) f
  | None => match effect h r m, h with
            | alters, _ => true
            | _, Dispatch.do_sockaddr_un for_bind => for_bind
            | _, _ => false
            end
  end.

Section runs.
Context (n : Prop) (ms : list Mount) (m0 : M) (r : Regs).
Hypothesis Hms : Forall mount_ok ms.
Hypothesis Hstr : forall i, n \/ plain (read_cstr m0 (arg r i)).
Hypothesis Hlive : n \/ live_source c = None.

Definition is_exec (h : handler) : bool := match h with Dispatch.path_exec _ => true | _ => false end.

Lemma answered_looks W (m : PathArgs.Call F M Fate) h :
  ensures n (Inv n m0 W) m (answered ms W) ->
  ensures n (Inv n m0 W) m (fun f s => (is_exec h = false -> good_fate ms false false f) /\ W (world s)).
Proof. intros Hm. eapply ensures_weaken; [exact Hm|]. by intros f s []. Qed.

(** Calls whose end depends on what a file or a descriptor holds. *)
Definition open_ended (h : handler) : bool :=
  match h with
  | Dispatch.path_exec _ => true
  | Dispatch.path_mut2 _ _ _ _ _ lf _ => 0 <=? lf
  | _ => false
  end.

(** The three forms of open are one. *)
Lemma run_open W h f (R : Fate -> Sys F M -> Prop) :
  open_flags h r m0 = Some f ->
  (forall p a, ensures n (Inv n m0 W)
     (OpenCalls.path_open_flags (case_insensitive c) (guest_arch c) (live_source c) (emulate_fifos c) r p a f) R) ->
  ensures n (Inv n m0 W) (run_handler c h r) R.
Proof.
  intros Hf Hr. destruct h; try discriminate; injection Hf as <-; [apply Hr..|].
  cbn [run_handler]. unfold OpenCalls.path_openat2. apply ensures_get_at. intros s Hs.
  destruct Hs as (Hw & Hm & Hp) eqn:E. rewrite Hm. by apply Hr.
Qed.

Lemma run_looks (W : World (F := F) -> Prop) h :
  (forall w, W w -> mounts w = ms /\ links_inside ms (links w)) -> n \/ open_ended h = false ->
  effect h r m0 = looks ->
  ensures n (Inv n m0 W) (run_handler c h r)
    (fun f s => (is_exec h = false -> good_fate ms false false f) /\ W (world s)).
Proof.
  intros HW Ho. unfold effect. destruct (open_flags h r m0) as [f|] eqn:Ef.
  - destruct (_ || _) eqn:Eo; [done|]. intros _. apply orb_false_iff in Eo as [Ew Ee].
    eapply run_open; [exact Ef|]. intros p a. rewrite Ee. by apply answered_looks, path_open_reads.
  - destruct h; cbn [aside_handler]; try discriminate; cbn [run_handler];
      repeat (case_match; try discriminate); intros _.
    + by apply answered_looks, path_lstat_answers.
    + by apply answered_looks, path_statx_answers.
    + by apply answered_looks, path_at_answers.
    + by apply answered_looks, do_chdir_answers.
    + apply answered_looks, do_fchdir_answers.
    + by apply answered_looks, do_chroot_answers.
    + apply answered_looks, do_getcwd_answers.
    + by apply answered_looks, do_readlink_answers.
    + by apply answered_looks, path_statfs_answers.
    + apply answered_looks, do_fstatfs_answers.
    + by apply answered_looks, path_xattr_answers.
    + by apply answered_looks, path_watch_answers.
    + eapply ensures_weaken; [eapply path_exec_looks; try done; by destruct Ho|]. by intros f s Hl.
    + apply answered_looks, do_close_answers.
Qed.

Lemma run_alters h :
  n \/ open_ended h = false -> effect h r m0 = alters ->
  ensures n (Inv n m0 (Wm ms)) (run_handler c h r)
    (fun f s => good_fate ms (writing h r m0) (emulate_fifos c) f /\ mounts (world s) = ms).
Proof.
  intros Ho He. unfold writing. destruct (open_flags h r m0) as [f|] eqn:Ef.
  - eapply run_open; [exact Ef|]. intros p a. by apply path_open_opens.
  - rewrite He. unfold effect in He. rewrite Ef in He.
    destruct h; cbn [aside_handler] in He; try discriminate; cbn [run_handler];
      repeat (case_match; try discriminate).
    + by apply path_xattr_writes.
    + by apply path_mut_writes.
    + by apply do_chmod_writes.
    + by apply do_fchmod_writes.
    + by apply do_chown_writes.
    + by apply do_fchown_writes.
    + by apply do_utimes_writes.
    + apply path_mut2_writes; try done. destruct Ho as [|Ho]; [by left|right]. cbn in Ho. lia.
    + by apply path_symlink_writes.
Qed.

End runs.

(** The address of a socket call, when it is an absolute path, is in normal
    form. *)
Definition normal_address (r : Regs) (m : M) : Prop :=
  forall bs, copy_in m (u64 (arg r 1 + 2)) (Z.to_nat (Z.min (arg r 2 - 2) SockCalls.kSunPath)) = Some bs ->
  head (CText.c_str (map ProcState.char_of bs)) = Some slash -> Canonical (CText.c_str (map ProcState.char_of bs)).

(** A socket call rewrites its address to an abstract name of its own or to
    a path of the mounts; the mounts stay. *)
Section sockets.
Context (ms : list Mount) (m0 : M) (r : Regs).
Hypothesis Hms : Forall mount_ok ms.
Hypothesis Haddr : normal_address r m0.
Let I := Inv (F := F) True m0 (Wm ms).

Definition rebound (fw : bool) (f : Fate) : Prop :=
  match f with
  | FSockRewrite k =>
      (exists p, sock_host_path k = CText.nul :: SockCalls.abstract_name_for p (run_instance c)) \/
      inside_for fw ms (sock_host_path k)
  | f => pathless f
  end.

Lemma sock_path io : gives True I (SockCalls.sun_path io r) (fun o => forall p, o = Some p -> Canonical p).
Proof.
  unfold SockCalls.sun_path. apply ensures_get. intros s Hs. cbv zeta. case_match; [by apply gives_ret|].
  destruct (copy_in _ _ _) as [bs|] eqn:Eb; [|by apply gives_ret]. destruct Hs as (_ & Em & _). rewrite Em in Eb.
  pose proof (Haddr bs Eb) as Hp. destruct (c_str _) as [|ch p]; [by apply gives_ret|].
  case_decide; [apply gives_ret; intros q [= <-]; auto|].
  eapply ensures_bind; [apply gives_absolutize; by left|]. intros q Hq. apply gives_ret. by intros ? [= <-].
Qed.

Lemma sock_classify io p b fo wi : Canonical p -> gives True I (do_classify io p b fo wi) (good_class ms b).
Proof.
  intros Hp. destruct b; [by apply gives_classify_write|]. by eapply gives_classify_read.
Qed.

Lemma sock_unlink p : gives True I (SockCalls.host_unlink p) (fun _ => True).
Proof. by apply gives_world. Qed.

Lemma sock_socks f : gives True I (update (fun s => with_socks s (f s))) (fun _ => True).
Proof. by apply gives_update. Qed.

Lemma sock_call f : gives True I (MutCalls.host_call f) (fun _ => True).
Proof. apply gives_host_call. Qed.

#[local] Hint Resolve sock_path sock_classify sock_unlink sock_socks sock_call : call.

Lemma sock_placeholder io p : Canonical p -> gives True I (SockCalls.leave_placeholder io p) (fun _ => True).
Proof.
  intros Hp. unfold SockCalls.leave_placeholder.
  repeat first [by apply gives_ret | apply sock_socks | call_step | case_match].
Qed.

#[local] Hint Resolve sock_placeholder : call.

Lemma rebound_now fw f : rebound fw f ->
  ensures True I (mret f) (fun f s => rebound fw f /\ mounts (world s) = ms).
Proof. intros Hf. apply ensures_ret. intros s [[Hm _] _]. done. Qed.

Lemma sock_rewrites io ns b :
  ensures True I (SockCalls.do_sockaddr_un io ns (run_instance c) r b)
    (fun f s => rebound b f /\ mounts (world s) = ms).
Proof.
  unfold SockCalls.do_sockaddr_un. call_step. call_step. destruct a as [p|]; [|by apply rebound_now].
  assert (Hp : Canonical p) by auto. case_match; [by apply rebound_now|]. destruct ns.
  - call_step. assert (Hin : forall ch l, host_path a = ch :: l -> inside_for b ms (ch :: l)) by eauto using good_nonempty.
    destruct (realm a), (host_path a) as [|ch l] eqn:Eh; try by apply rebound_now.
    all: case_match; [by apply rebound_now|]; eapply ensures_bind with (P := fun _ => True);
      [|intros; apply rebound_now; right; by apply Hin].
    all: repeat first [by apply gives_ret | apply sock_unlink | call_step | case_match].
  - eapply ensures_bind with (P := fun _ => True); [destruct b; [by apply sock_placeholder|by apply gives_ret]|].
    intros. case_match; [by apply rebound_now|]. apply rebound_now. left. by exists p.
Qed.

End sockets.
End effects.

(** ** The process state *)

(** Every path the process state can hand to a call has no [..]. *)
Record plain_state (s : Procs) : Prop := {
  plain_cwds : forall v p, cwds s !! v = Some p -> plain p;
  plain_last : plain (last_cwd s);
  plain_tables : forall v t, fd_tables s !! v = Some t -> plain_table t;
  plain_inherited : plain_table (inherited_fds s)
}.

Lemma plain_seed s v pv : plain_state s -> plain_state (seed s v pv).
Proof.
  intros [Hc Hl Ht Hi]. unfold seed. destruct (cwds s !! v) eqn:Ev; [done|].
  assert (Hd : plain (default (last_cwd s) (cwds s !! pv))).
  { destruct (cwds s !! pv) eqn:E; cbn; [by eapply Hc|done]. }
  assert (Hcs : forall q p, <[v := default (last_cwd s) (cwds s !! pv)]> (cwds s) !! q = Some p -> plain p).
  { intros q p. rewrite lookup_insert_Some. intros [[_ <-]|[_ Hq]]; [done|by eapply Hc]. }
  cbv zeta. cbn [have_inherited_fds fd_tables inherited_fds]. destruct (have_inherited_fds s).
  - split; cbn; try done.
    intros q t. rewrite lookup_insert_Some. intros [[_ <-]|[_ Hq]]; [done|by eapply Ht].
  - destruct (fd_tables s !! _) as [t|] eqn:Et; split; cbn; try done.
    intros q t'. rewrite lookup_insert_Some. intros [[_ <-]|[_ Hq]]; [|by eapply Ht].
    intros fd p. cbn. apply (Ht _ _ Et).
Qed.

Lemma plain_select s v pv : plain_state s -> plain_procs (set_current_pid s v pv).
Proof.
  intros Hs. unfold set_current_pid. cbv zeta. cbn [seeded_pid].
  set (s1 := {| cwds := cwds s; cur_pid := v |}).
  assert (H1 : plain_state s1) by (by destruct Hs).
  destruct (v =? seeded_pid s).
  - split; [|apply H1]. unfold cwd, cwd_of. cbn. destruct (cwds s !! v) eqn:E; cbn; [by eapply (plain_cwds s1)|].
    by apply canonical_plain, canonical_by.
  - pose proof (plain_seed s1 v pv H1) as [Hc _ Ht _]. split; [|exact Ht].
    unfold cwd, cwd_of. cbn [cwds cur_pid]. rewrite cur_seed. cbn [cur_pid s1]. rewrite lookup_insert_eq. cbn.
    destruct (cwds (seed s1 v pv) !! v) eqn:E; cbn; [by eapply Hc|apply nil_plain].
Qed.

(** ** One call *)

Lemma ensures_run {F M A} (n : Prop) I (m : PathArgs.Call F M A) R s a s' :
  ensures n I m R -> I s -> m s = Some (a, s') -> R a s'.
Proof. intros Hm Hs E. specialize (Hm s Hs). unfold wp in Hm. by rewrite E in Hm. Qed.

Lemma route_answer r sc f : route r sc = Answer f -> pathless f.
Proof.
  unfold route, do_tkill, do_tgkill, do_priority, do_landlock_add_rule.
  destruct sc; intros E; repeat (case_match || simplify_eq/=); done.
Qed.

Lemma reaches_pipes ms fw b p : reaches ms fw false p -> reaches ms fw b p.
Proof. destruct 1; [by constructor|by apply reaches_dir|by eapply reaches_below|done]. Qed.

Lemma good_fate_pipes ms b f : good_fate ms false false f -> good_fate ms false b f.
Proof. destruct f; cbn; try done. intros [? ?]. eauto using reaches_pipes. Qed.

Section call.
Context {F M : Type} `{HostFs F} `{HostAccess F} `{StatWire.HostStats F} `{HostFiles F} `{MutCalls.HostMeta F}
  `{OpenCalls.HostOpen F} `{NameCalls.HostNames F} `{MachineInfo.HostCpus F} `{GuestMem M}.
Context (c : Config).
Implicit Types (s : Sys F M) (r : Regs).

Lemma effect_beside h r (m : M) : effect c h r m = beside -> aside_handler h = true.
Proof. unfold effect. destruct (open_flags h r m); [by case_match|]. destruct h; cbn; intros; by repeat case_match. Qed.

Lemma effect_binds h r (m : M) : effect c h r m = binds -> exists b, h = Dispatch.do_sockaddr_un b.
Proof.
  unfold effect. destruct (open_flags h r m); [by case_match|].
  destruct h; cbn; intros; repeat case_match; try done. eauto.
Qed.

Lemma writing_binds b r (m : M) : writing c (Dispatch.do_sockaddr_un b) r m = b.
Proof. done. Qed.

(** Every host path a call is answered with: of a redirect, of the program
    exec runs, of a socket. *)
Definition confined (w : World (F := F)) (fw : bool) (f : Fate) : Prop :=
  match f with
  | FExecInterp e => interpreter (case_insensitive c) (mounts w) w (interp_host e)
  | FSockRewrite _ => rebound c (mounts w) fw f
  | f => good_fate (mounts w) fw (emulate_fifos c) f
  end.

Lemma pathless_confined w fw f : pathless f -> confined w fw f.
Proof. by destruct f. Qed.

Lemma good_confined w fw f : good_fate (mounts w) fw (emulate_fifos c) f -> confined w fw f.
Proof. by destruct f. Qed.

Lemma rebound_confined w fw f : rebound c (mounts w) fw f -> confined w fw f.
Proof. by destruct f. Qed.

Lemma loaded_confined (W : World (F := F) -> Prop) w f s :
  loaded (M := M) (case_insensitive c) (mounts w) W w f s -> confined w false f.
Proof. intros [Hf _]. destruct f; try done. by apply good_fate_pipes. Qed.

Lemma looks_read h r (m : M) : effect c h r m = looks -> writing c h r m = false.
Proof.
  intros He. unfold writing. destruct (open_flags h r m) as [f|] eqn:Ef.
  - unfold effect in He. rewrite Ef in He. unfold may_write. by destruct (writable f).
  - rewrite He. by destruct h.
Qed.

(** The handler the switch calls, if it calls one. *)
Definition handler_of r : option handler :=
  match route r (decode (guest_arch c) (regs_nr r)) with Answer _ => None | Dispatch.Call h => Some h end.

Definition effect_of r (m : M) : Effect :=
  match handler_of r with Some h => effect c h r m | None => beside end.

Definition writing_call r (m : M) : bool :=
  match handler_of r with Some h => writing c h r m | None => false end.

Lemma dispatch_run r s :
  dispatch c r s = match handler_of r with
                   | Some h => run_handler c h r (select_process s)
                   | None => match route r (decode (guest_arch c) (regs_nr r)) with
                             | Answer f => Some (f, select_process s)
                             | _ => None
                             end
                   end.
Proof. unfold dispatch, handler_of. rewrite bind_run. cbn. by destruct (route _ _). Qed.

Lemma selected_inv (n : Prop) W s :
  W (world s) -> n \/ plain_state (procs s) -> Inv n (mem s) W (select_process s).
Proof.
  intros Hw Hp. split; [exact Hw|]. split; [done|]. destruct Hp as [|Hp]; [by left|right]. by apply plain_select.
Qed.

Lemma exec_confined h r s f s' :
  is_exec h = true -> Forall mount_ok (mounts (world s)) -> links_inside (mounts (world s)) (links (world s)) ->
  run_handler c h r (select_process s) = Some (f, s') -> confined (world s) false f /\ world s' = world s.
Proof.
  intros He Hms Hl E. destruct h; try done. cbn [run_handler] in E.
  assert (HW : forall w : World (F := F), w = world s ->
            mounts w = mounts (world s) /\ links_inside (mounts (world s)) (links w)) by (by intros ? ->).
  eapply ensures_run in E; [| |apply (selected_inv True (fun w => w = world s)); auto].
  2: { eapply path_exec_loads with (w0 := world s); eauto. }
  split; [by eapply loaded_confined|]. by destruct E.
Qed.


Lemma run_follows (n : Prop) ms (m0 : M) r (W : World (F := F) -> Prop) h :
  Forall mount_ok ms -> (forall i, n \/ plain (read_cstr m0 (arg r i))) -> n \/ live_source c = None ->
  (forall w, W w -> mounts w = ms /\ links_inside ms (links w)) -> effect c h r m0 = follows ->
  ensures n (Inv n m0 W) (run_handler c h r) (looked W).
Proof.
  intros Hms Hstr Hlive HW He. unfold effect in He. destruct (open_flags h r m0); [by case_match|].
  destruct h; cbn [aside_handler] in He; try discriminate; repeat (case_match; try discriminate).
  - by apply (path_stat_looks _ n ms).
  - by apply (path_statx_looks _ n ms).
Qed.

(** C6. Looking changes nothing: a call that does not open for writing, that
    is none of the calls that make, remove, rename, link or re-attribute a
    file and that binds no socket leaves the mounts, the whiteouts, the
    recorded owners and modes, the link table and the host's files exactly as
    they were, whatever it answers. *)
Theorem looking_changes_nothing r s f s' :
  Forall mount_ok (mounts (world s)) -> links_inside (mounts (world s)) (links (world s)) ->
  effect_of r (mem s) ∈ [beside; looks; follows] ->
  dispatch c r s = Some (f, s') -> world s' = world s.
Proof.
  intros Hms Hl He E. rewrite dispatch_run in E. unfold effect_of in He.
  destruct (handler_of r) as [h|]; [|by destruct (route _ _); [injection E as <- <-|]].
  assert (HW : forall w : World (F := F), w = world s -> mounts w = mounts (world s) /\
                 links_inside (mounts (world s)) (links w)) by (by intros ? ->).
  assert (Hi : Inv True (mem s) (fun w => w = world s) (select_process s)) by (apply selected_inv; auto).
  destruct (effect c h r (mem s)) eqn:Eh; try (by apply (bool_decide_pack _) in He).
  - by destruct (run_aside c h r (effect_beside _ _ _ Eh) _ _ _ E).
  - eapply ensures_run in E; [|apply (run_looks c True _ (mem s) r Hms) with (W := fun w => w = world s); auto|exact Hi].
    by destruct E.
  - by eapply ensures_run in E; [|apply (run_follows True _ (mem s) r (fun w => w = world s) h Hms); auto|exact Hi].
Qed.


End call.

(** ** Examples *)

Import TreeHost.
#[local] Existing Instance Flat.flat_memory.
#[local] Existing Instance StatWire.tree_stats.

Lemma ex_links_inside : links_inside (mounts ex_world) (links ex_world).
Proof. intros name b E. change ((∅ : gmap str str) !! name = Some b) in E. by rewrite lookup_empty in E. Qed.

Lemma ex_plain : plain_state ProcState.init.
Proof.
  split; cbn.
  - intros v p E. by rewrite lookup_empty in E.
  - by apply canonical_plain, canonical_by.
  - intros v t E. by rewrite lookup_empty in E.
  - intros fd p E. cbn in E. by rewrite lookup_empty in E.
Qed.

(** open("/etc/passwd", O_WRONLY): the copy in the upper layer. *)
Definition open_for_writing : Regs := {| args := [at_page_end StatWire.passwd; 1; 0]; regs_nr := 2 |}.

Definition opened_copy : Fate := FRedirect (PathCalls.redirect_to 0 (lit "/upper/etc/passwd")).

(** bind of "/etc/passwd": the address, two bytes before the string. *)
Definition bind_socket : Regs := {| args := [3; at_page_end StatWire.passwd - 2; 2 + 12]; regs_nr := 49 |}.
Definition ex_sockaddr : Flat.t :=
  <[at_page_end StatWire.passwd - 2 := 1]> (<[at_page_end StatWire.passwd - 1 := 0]> (string_memory StatWire.passwd)).

Definition bound_copy : Fate := SockCalls.sock_rewrite bind_socket (lit "/upper/etc/passwd") 20.


(** execve("/etc/passwd"), with the file made a program of [bs] and [more]
    files in the tree. *)
Definition exec_passwd : Regs := {| args := [at_page_end StatWire.passwd; 0; 0]; regs_nr := 59 |}.
Definition with_program (bs : list Z) (more : list (list str * Node)) : Sys Tree.Tree Flat.t :=
  let s := ex_guest StatWire.passwd in
  with_world s (with_host ex_world
    {| Tree.nodes := list_to_map more ∪ Tree.nodes ex_tree; Tree.data := <[4 := bs]> (Tree.data ex_tree) |}).

Definition runs_interp (o : option (Fate * Sys Tree.Tree Flat.t)) : option (str * list str) :=
  match o with Some (FExecInterp e, _) => Some (interp_host e, exec_prefix e) | _ => None end.

(** A program whose interpreter the guest has is run by the guest's; a script
    whose interpreter needs one is run by that; an interpreter whose
    name the guest cannot resolve ([/a] is a loop of links) is taken from the
    host. *)
Lemma interpreters_run :
  runs_interp (dispatch ex_config exec_passwd (with_program ElfProbe.ex_elf [([lit "lower"; lit "l"], file_node 493 20)]))
    = Some (lit "/lower/l", []) /\
  runs_interp (dispatch ex_config exec_passwd (with_program (map Dirents.byte_of (lit "#!/s -x")) [([lit "lower"; lit "s"], file_node 493 12)]))
    = Some (lit "/lower/s", [lit "-x"]) /\
  runs_interp (dispatch ex_config exec_passwd (with_program (map Dirents.byte_of (lit "#!/a")) []))
    = Some (lit "/a", []).
Proof. vm_compute. auto. Qed.

(** open("/etc/passwd", O_RDONLY): the file of the lower layer. *)
Definition open_for_reading : Regs := {| args := [at_page_end StatWire.passwd; 0; 0]; regs_nr := 2 |}.

Lemma looking_changes_nothing_witness :
  exists f s', dispatch ex_config open_for_reading (ex_guest StatWire.passwd) = Some (f, s') /\
  world s' = ex_world /\ pending_open (pending s') = StatWire.passwd.
Proof.
  assert (Ef : (fun o => pending_open (pending o.2)) <$> dispatch ex_config open_for_reading (ex_guest StatWire.passwd)
               = Some StatWire.passwd) by (vm_compute; reflexivity).
  pose proof (looking_changes_nothing ex_config open_for_reading (ex_guest StatWire.passwd)) as P.
  destruct (dispatch ex_config open_for_reading _) as [[f s']|]; [|discriminate].
  injection Ef as Ep. exists f, s'. split; [reflexivity|]. split; [|exact Ep].
  apply (P f s' ex_mounts_ok ex_links_inside); [|reflexivity].
  apply (bool_decide_unpack _). vm_compute. exact I.
Defined.


End DispatchSafety.
