(* ===== verification/PageTables.v ===== *)
(** * Guest RAM and page tables of the Windows backend

    [include/linuxity/runtime/windows/mem.hpp] and the tables of
    [runtime/windows/vm.hpp]: the bounds-checked windows of [GuestRam], the
    four-level walk of [Mmu], and the operations of [WhpMachine] that build
    the tables inside guest RAM.  RAM is a sparse map of bytes, zero where
    nothing was written, as the host hands it out; a table entry is the eight
    bytes the code copies.  The theorems relate the tables to the translation
    the walk computes: mapping a page changes that page and nothing else. *)

From S2P Require Import Prelude Abi GuestMem.
Import Abi.

Module PageTables.

(** ** RAM *)

Abbreviation Ram := (gmap Z Z).

Definition peek (m : Ram) (a : Z) : Z := default 0 (m !! a).

Definition load (m : Ram) (a : Z) (n : nat) : list Z := map (peek m) (seqZ a (Z.of_nat n)).

Fixpoint store (m : Ram) (a : Z) (bs : list Z) : Ram :=
  match bs with
  | [] => m
  | b :: bs' => <[a := b]> (store m (a + 1) bs')
  end.

Definition get64 (m : Ram) (a : Z) : Z := le_val (load m a 8).
Definition put64 (m : Ram) (a v : Z) : Ram := store m a (le_bytes 8 v).

Definition kPageSize : Z := 4096.
Definition kPageShift : Z := 12.
Definition kPageMask : Z := kPageSize - 1.

Definition kPtePresent : Z := 1.
Definition kPteWrite : Z := 2.
Definition kPteUser : Z := 4.
Definition kPtePageSize : Z := 128.
Definition kPteNx : Z := 2 ^ 63.
Definition kPteAddrMask : Z := 0x000ffffffffff000.

Definition bit (e b : Z) : bool := negb (Z.land e b =? 0).

(** ** Windows *)

Record GuestRam := { ram_size : Z; ram_floor : Z }.

Definition permits (g : GuestRam) (gpa n : Z) : bool :=
  if (ram_size g <=? gpa) || (ram_size g - gpa <? n) then false else ram_floor g <=? gpa.

(** A span of bytes; the empty one is how a refusal is reported. *)
Definition span (gpa n : Z) : option (Z * Z) := if n =? 0 then None else Some (gpa, n).

Definition at_ (g : GuestRam) (gpa n : Z) : option (Z * Z) :=
  if permits g gpa n then span gpa n else None.

Definition clamp (g : GuestRam) (gpa n : Z) : option (Z * Z) :=
  if (ram_size g <=? gpa) || (gpa <? ram_floor g) then None
  else span gpa (Z.min n (ram_size g - gpa)).

Definition at_table (g : GuestRam) (gpa n : Z) : option (Z * Z) :=
  if (ram_size g <=? gpa) || (ram_size g - gpa <? n) then None else span gpa n.

(** ** The walk

    Level [k] indexes the address at bit [12 + 9 k]; the root is level 3. *)

Definition shift (k : nat) : Z := 12 + 9 * Z.of_nat k.
Definition index (gva : Z) (k : nat) : Z := Z.land (Z.shiftr gva (shift k)) 0x1ff.

Definition cell (table idx : Z) : Z := table + idx * 8.

(** The entry the walk ends at, its level, and what the levels allow. *)
Record Leaf := { l_entry : Z; l_level : nat; l_writable : bool; l_user : bool }.

Fixpoint walk (g : GuestRam) (m : Ram) (k : nat) (table gva : Z) (writable user : bool) : option Leaf :=
  match at_table g (cell table (index gva k)) 8 with
  | None => None
  | Some _ =>
      let e := get64 m (cell table (index gva k)) in
      if negb (bit e kPtePresent) then None
      else
        let writable := writable && bit e kPteWrite in
        let user := user && bit e kPteUser in
        let leaf := Some {| l_entry := e; l_level := k; l_writable := writable; l_user := user |} in
        match k with
        | O => leaf
        | S k' => if bit e kPtePageSize then leaf
                  else walk g m k' (Z.land e kPteAddrMask) gva writable user
        end
  end.

Record Walk := { gpa : Z; writable : bool; user : bool; to_page_end : Z }.

Definition low_mask (k : nat) : Z := 2 ^ shift k - 1.

Definition walk_of (gva : Z) (l : Leaf) : Walk :=
  let frame := Z.land (Z.land (l_entry l) kPteAddrMask) (u64 (Z.lnot (low_mask (l_level l)))) in
  let off := Z.land gva (low_mask (l_level l)) in
  {| gpa := frame + off; writable := l_writable l; user := l_user l;
     to_page_end := 2 ^ shift (l_level l) - off |}.

Definition canonical (gva : Z) : bool :=
  let hi := Z.shiftr gva 47 in (hi =? 0) || (hi =? 0x1ffff).

Definition translate (g : GuestRam) (m : Ram) (cr3 gva : Z) : option Walk :=
  if canonical gva
  then walk_of gva <$> walk g m 3 (Z.land cr3 kPteAddrMask) gva true true
  else None.

(** ** The machine *)

Definition kPml4Gpa : Z := 0.
Definition kGdtGpa : Z := 0x3000.
Definition kGuestFloor : Z := 0x200000.
Definition kTableArenaSize : Z := Z.shiftl 2 20.

Record Machine := mkMachine { mem : Ram; ram_bytes : Z; table_next : Z }.

Definition with_mem (v : Machine) (m : Ram) : Machine := mkMachine m (ram_bytes v) (table_next v).

Definition ram (v : Machine) : GuestRam := {| ram_size := ram_bytes v; ram_floor := kGuestFloor |}.

Definition mmu (v : Machine) (gva : Z) : option Walk := translate (ram v) (mem v) kPml4Gpa gva.

Definition table_arena_base (v : Machine) : Z :=
  if kTableArenaSize <? ram_bytes v then ram_bytes v - kTableArenaSize else 0.

(** Operations keep what they did when they fail. *)
Definition Op (A : Type) : Type := Machine -> Result A * Machine.

#[global] Instance op_ret : MRet Op := fun A x v => (inl x, v).
#[global] Instance op_bind : MBind Op := fun A B f o v =>
  match o v with
  | (inl x, v) => f x v
  | (inr e, v) => (inr e, v)
  end.

Definition fail {A} (e : Errno) : Op A := fun v => (inr e, v).

Definition read_entry (table idx : Z) : Op Z := fun v =>
  match at_table (ram v) (cell table idx) 8 with
  | None => (inr efault, v)
  | Some _ => (inl (get64 (mem v) (cell table idx)), v)
  end.

Definition write_entry (table idx e : Z) : Op unit := fun v =>
  match at_table (ram v) (cell table idx) 8 with
  | None => (inr efault, v)
  | Some _ => (inl tt, with_mem v (put64 (mem v) (cell table idx) e))
  end.

Definition zeros (n : Z) : list Z := replicate (Z.to_nat n) 0.

(** A zeroed table page from the arena at the top of RAM, which grows down. *)
Definition alloc_table : Op Z := fun v =>
  let next := if table_next v =? 0 then ram_bytes v else table_next v in
  if next <? table_arena_base v + kPageSize
  then (inr enomem, mkMachine (mem v) (ram_bytes v) next)
  else
    let page := next - kPageSize in
    let v' := mkMachine (mem v) (ram_bytes v) page in
    match at_table (ram v) page kPageSize with
    | None => (inr enomem, v')
    | Some _ => if page =? 0 then (inr enomem, with_mem v' (store (mem v) page (zeros kPageSize)))
                else (inl page, with_mem v' (store (mem v) page (zeros kPageSize)))
    end.

Definition link (page : Z) : Z := Z.lor (Z.lor (Z.lor page kPtePresent) kPteWrite) kPteUser.

(** The entries that replace a large leaf of level [k]. *)
Definition split_entry (leaf : Z) (k : nat) (i : Z) : Z :=
  let base := Z.land (Z.land leaf kPteAddrMask) (u64 (Z.lnot (low_mask k))) in
  let attrs := Z.land leaf (Z.lor (Z.lor (Z.lor kPtePresent kPteWrite) kPteUser) kPteNx) in
  let e := Z.lor (base + i * 2 ^ shift (k - 1)) attrs in
  if shift (k - 1) =? kPageShift then e else Z.lor e kPtePageSize.

Fixpoint write_entries (table : Z) (is_ : list Z) (f : Z -> Z) : Op unit :=
  match is_ with
  | [] => mret tt
  | i :: is' => write_entry table i (f i);; write_entries table is' f
  end.

Definition split_large_leaf (parent_table parent_idx leaf : Z) (k : nat) : Op unit :=
  fresh ← alloc_table;
  write_entries fresh (seqZ 0 512) (split_entry leaf k);;
  write_entry parent_table parent_idx (link fresh).

(** One level of [map_one]'s descent: the table below. *)
Definition descend_one (table gva : Z) (k : nat) : Op Z :=
  let idx := index gva k in
  e ← read_entry table idx;
  e ← (if bit e kPtePresent && bit e kPtePageSize
       then split_large_leaf table idx e k;; read_entry table idx
       else mret e);
  e ← (if bit e kPtePresent then mret e
       else fresh ← alloc_table; write_entry table idx (link fresh);; mret (link fresh));
  mret (Z.land e kPteAddrMask).

Definition leaf_entry (gpa : Z) (writable executable : bool) : Z :=
  let leaf := Z.lor (Z.lor (Z.land gpa kPteAddrMask) kPtePresent) kPteUser in
  let leaf := if writable then Z.lor leaf kPteWrite else leaf in
  if executable then leaf else Z.lor leaf kPteNx.

Definition map_one (gva gpa : Z) (writable executable : bool) : Op unit :=
  t ← descend_one kPml4Gpa gva 3;
  t ← descend_one t gva 2;
  t ← descend_one t gva 1;
  write_entry t (index gva 0) (leaf_entry gpa writable executable).

Definition page_down (a : Z) : Z := Z.land a (u64 (Z.lnot kPageMask)).
Definition page_up (a : Z) : Z := Z.land (u64 (a + kPageMask)) (u64 (Z.lnot kPageMask)).

Fixpoint map_loop (n : nat) (a : Z) (writable executable : bool) : Op unit :=
  match n with
  | O => mret tt
  | S n' => map_one a a writable executable;; map_loop n' (a + kPageSize) writable executable
  end.

(** [for (a = beg; a < end; a += kPageSize)]: both ends are page aligned. *)
Definition map_pages (gva len : Z) (writable executable : bool) : Op unit :=
  let beg := page_down gva in
  let end_ := Z.land (u64 (u64 (gva + len) + kPageMask)) (u64 (Z.lnot kPageMask)) in
  map_loop (Z.to_nat ((end_ - beg) / kPageSize)) beg writable executable.

Definition map_page_at (gva gpa : Z) (writable executable : bool) : Op unit :=
  map_one (page_down gva) (page_down gpa) writable executable.

(** One level of [unmap_page]'s descent; failing means there is nothing to
    clear, or that a large leaf could not be split. *)
Definition unmap_down (table gva : Z) (k : nat) : Op Z :=
  let idx := index gva k in
  e ← read_entry table idx;
  if negb (bit e kPtePresent) then fail efault
  else
    e ← (if bit e kPtePageSize then split_large_leaf table idx e k;; read_entry table idx else mret e);
    mret (Z.land e kPteAddrMask).

Definition unmap_page (gva : Z) (v : Machine) : Machine :=
  ((t ← unmap_down kPml4Gpa gva 3;
    t ← unmap_down t gva 2;
    t ← unmap_down t gva 1;
    write_entry t (index gva 0) 0) v).2.

(** ** Creation

    [build_tables] once the partition and its RAM exist. *)

Definition gdt : list Z := [0; 0; 0; 0x00cff2000000ffff; 0x00affa000000ffff].

Definition build_gdt (m : Ram) : Ram := store m kGdtGpa (concat (map (le_bytes 8) gdt)).

Definition build_tables : Op unit := fun v =>
  match at_table (ram v) kPml4Gpa kPageSize with
  | None => (inr enomem, v)
  | Some _ =>
      let m := store (mem v) kPml4Gpa (zeros kPageSize) in
      match at_table (ram v) kGdtGpa kPageSize with
      | None => (inr enomem, with_mem v m)
      | Some _ => (inl tt, with_mem v (build_gdt (store m kGdtGpa (zeros kPageSize))))
      end
  end.

(** [create], from the size check on. *)
Definition create (bytes : Z) : Result Machine :=
  if bytes <=? kGuestFloor then inr einval
  else
    let v := mkMachine ∅ (page_up bytes) 0 in
    match build_tables v with
    | (inl _, v) => inl v
    | (inr e, _) => inr e
    end.

(** ** The reference

    A map from page numbers to frames, and what a walk should find there. *)

Abbreviation Flat := (gmap Z (Z * bool * bool)).

Definition flat_at (f : Flat) (a : Z) : option Walk :=
  '(frame, w, _) ← f !! (a / 4096);
  Some {| gpa := frame + a mod 4096; writable := w; user := true; to_page_end := 4096 - a mod 4096 |}.

Inductive Cmd :=
| MapAt (gva gpa : Z) (writable executable : bool)
| Unmap (gva : Z).

Definition exec (c : Cmd) (v : Machine) : bool * Machine :=
  match c with
  | MapAt gva gpa w x =>
      match map_page_at gva gpa w x v with
      | (inl _, v') => (true, v')
      | (inr _, v') => (false, v')
      end
  | Unmap gva => (true, unmap_page gva v)
  end.

(** A command that fails changes nothing. *)
Definition flat_step (c : Cmd) (done_ : bool) (f : Flat) : Flat :=
  match c with
  | MapAt gva gpa w x => if done_ then <[gva / 4096 := (gpa / 4096 * 4096, w, x)]> f else f
  | Unmap gva => delete (gva / 4096) f
  end.

Fixpoint run (cs : list Cmd) (v : Machine) (f : Flat) : list bool * Machine * Flat :=
  match cs with
  | [] => ([], v, f)
  | c :: cs' =>
      let '(done_, v) := exec c v in
      let '(dones, v, f) := run cs' v (flat_step c done_ f) in
      (done_ :: dones, v, f)
  end.

(** The commands the guest's addresses allow. *)
Definition cmd_ok (c : Cmd) : Prop :=
  match c with
  | MapAt gva gpa _ _ => is_u64 gva /\ canonical gva = true /\ 0 <= gpa < 2 ^ 52
  | Unmap gva => is_u64 gva /\ canonical gva = true
  end.

(** * RAM: lemmas *)

Definition bytes_ok (m : Ram) : Prop := forall a, is_byte (peek m a).

Lemma peek_store (m : Ram) (a : Z) (bs : list Z) (x : Z) :
  peek (store m a bs) x
  = if decide (a <= x < a + Z.of_nat (length bs)) then bs !!! Z.to_nat (x - a) else peek m x.
Proof.
  revert a. induction bs as [|b bs IH]; intros a; cbn [store length].
  - by rewrite decide_False by lia.
  - unfold peek at 1. destruct (decide (x = a)) as [-> |Hx].
    + rewrite lookup_insert_eq, decide_True by lia. by rewrite Z.sub_diag.
    + rewrite lookup_insert_ne by done. fold (peek (store m (a + 1) bs) x). rewrite IH.
      destruct (decide (a + 1 <= x < a + 1 + Z.of_nat (length bs))) as [H|H].
      * rewrite decide_True by lia.
        replace (Z.to_nat (x - a)) with (S (Z.to_nat (x - (a + 1)))) by lia. done.
      * by rewrite decide_False by lia.
Qed.

Lemma store_bytes_ok (m : Ram) (a : Z) (bs : list Z) :
  bytes_ok m -> Forall is_byte bs -> bytes_ok (store m a bs).
Proof.
  intros Hm Hb x. rewrite peek_store. destruct (decide _) as [H|H]; [|apply Hm].
  rewrite Forall_lookup in Hb. apply (Hb (Z.to_nat (x - a))). apply list_lookup_lookup_total_lt. lia.
Qed.

Lemma load_lookup (m : Ram) (a : Z) (n i : nat) :
  (i < n)%nat -> load m a n !! i = Some (peek m (a + Z.of_nat i)).
Proof. intros Hi. unfold load. rewrite list_lookup_fmap, lookup_seqZ_lt by lia. done. Qed.

Lemma load_length (m : Ram) (a : Z) (n : nat) : length (load m a n) = n.
Proof. unfold load. by rewrite length_map, length_seqZ, Nat2Z.id. Qed.

Lemma load_ext (m m' : Ram) (a : Z) (n : nat) :
  (forall x, a <= x < a + Z.of_nat n -> peek m' x = peek m x) -> load m' a n = load m a n.
Proof.
  intros H. unfold load. apply map_ext_in. intros x Hx. apply list_elem_of_In, elem_of_seqZ in Hx.
  apply H. lia.
Qed.

Lemma load_store (m : Ram) (a : Z) (bs : list Z) : load (store m a bs) a (length bs) = bs.
Proof.
  apply list_eq. intros i. destruct (decide (i < length bs)%nat) as [Hi|Hi].
  - rewrite load_lookup by done. rewrite peek_store, decide_True by lia.
    replace (Z.to_nat (a + Z.of_nat i - a)) with i by lia.
    symmetry. by apply list_lookup_lookup_total_lt.
  - rewrite !lookup_ge_None_2; [done|lia|rewrite load_length; lia].
Qed.

(** Words of [k] bytes, written one after the other. *)
Lemma concat_words (k : nat) (ws : list Z) : forall (i j : nat) (w : Z),
  ws !! i = Some w -> (j < k)%nat -> concat (map (le_bytes k) ws) !!! (k * i + j)%nat = le_bytes k w !!! j.
Proof.
  induction ws as [|w0 ws IH]; intros i j w Hi Hj; [done|]. destruct i as [|i].
  - injection Hi as ->. cbn [map concat]. rewrite Nat.mul_0_r. apply lookup_total_app_l. by rewrite le_bytes_length.
  - cbn [map concat]. rewrite lookup_total_app_r by (rewrite le_bytes_length; lia). rewrite le_bytes_length.
    rewrite <- (IH i j w Hi Hj). f_equal. lia.
Qed.

Lemma words_length (k : nat) (ws : list Z) : length (concat (map (le_bytes k) ws)) = (k * length ws)%nat.
Proof. induction ws as [|w ws IH]; cbn [map concat length]; [lia|]. rewrite length_app, le_bytes_length. lia. Qed.

Lemma load_words (m : Ram) (a : Z) (k : nat) (ws : list Z) (i : nat) (w : Z) :
  ws !! i = Some w -> load (store m a (concat (map (le_bytes k) ws))) (a + Z.of_nat (k * i)) k = le_bytes k w.
Proof.
  intros Hi. apply list_eq. intros j. destruct (decide (j < k)%nat) as [Hj|Hj].
  - rewrite load_lookup by done. rewrite peek_store, words_length. pose proof (lookup_lt_Some _ _ _ Hi).
    assert (k * S i <= k * length ws)%nat by (apply Nat.mul_le_mono_l; lia). rewrite decide_True by lia.
    replace (Z.to_nat (a + Z.of_nat (k * i) + Z.of_nat j - a)) with (k * i + j)%nat by lia.
    rewrite (concat_words k ws i j w Hi Hj). symmetry. apply list_lookup_lookup_total_lt. by rewrite le_bytes_length.
  - rewrite !lookup_ge_None_2; [done|rewrite le_bytes_length; lia|rewrite load_length; lia].
Qed.

Lemma load_bytes (m : Ram) (a : Z) (n : nat) : bytes_ok m -> Forall is_byte (load m a n).
Proof. intros Hm. apply Forall_forall. intros x (y & -> & _)%list_elem_of_fmap. apply Hm. Qed.

Lemma get64_range (m : Ram) (a : Z) : bytes_ok m -> 0 <= get64 m a < 2 ^ 64.
Proof.
  intros Hm. pose proof (le_val_range _ (load_bytes m a 8 Hm)) as H. rewrite load_length in H. exact H.
Qed.

Lemma get64_put64 (m : Ram) (a v : Z) : 0 <= v < 2 ^ 64 -> get64 (put64 m a v) a = v.
Proof.
  intros Hv. unfold get64, put64. pose proof (load_store m a (le_bytes 8 v)) as H.
  rewrite le_bytes_length in H. rewrite H. by apply le_val_bytes.
Qed.

Lemma get64_ext (m m' : Ram) (a : Z) :
  (forall x, a <= x < a + 8 -> peek m' x = peek m x) -> get64 m' a = get64 m a.
Proof. intros H. unfold get64. f_equal. apply load_ext. intros x Hx. apply H. lia. Qed.

Lemma get64_store_other (m : Ram) (a b : Z) (bs : list Z) :
  a + 8 <= b \/ b + Z.of_nat (length bs) <= a -> get64 (store m b bs) a = get64 m a.
Proof. intros H. apply get64_ext. intros x Hx. rewrite peek_store, decide_False by lia. done. Qed.

Lemma get64_put64_other (m : Ram) (a b v : Z) :
  a + 8 <= b \/ b + 8 <= a -> get64 (put64 m b v) a = get64 m a.
Proof. intros H. apply get64_store_other. rewrite le_bytes_length. lia. Qed.

Lemma get64_zero (m : Ram) (a : Z) : (forall x, a <= x < a + 8 -> peek m x = 0) -> get64 m a = 0.
Proof.
  intros H. unfold get64. rewrite (load_ext ∅ m) by (intros x Hx; rewrite H by lia; done). reflexivity.
Qed.

Lemma zeros_bytes (n : Z) : Forall is_byte (zeros n).
Proof. apply Forall_replicate. unfold is_byte. lia. Qed.

Lemma zeros_length (n : Z) : 0 <= n -> Z.of_nat (length (zeros n)) = n.
Proof. intros H. unfold zeros. rewrite length_replicate. lia. Qed.

Lemma peek_zeroed (m : Ram) (a n x : Z) : 0 <= n -> a <= x < a + n -> peek (store m a (zeros n)) x = 0.
Proof.
  intros Hn Hx. rewrite peek_store, decide_True by (rewrite zeros_length by lia; lia).
  unfold zeros. apply lookup_total_replicate_2. lia.
Qed.

Lemma peek_put64 (m : Ram) (a v x : Z) : ~ (a <= x < a + 8) -> peek (put64 m a v) x = peek m x.
Proof. intros H. unfold put64. rewrite peek_store, le_bytes_length. by rewrite decide_False by lia. Qed.

Lemma put64_bytes_ok (m : Ram) (a v : Z) : bytes_ok m -> bytes_ok (put64 m a v).
Proof. intros H. apply store_bytes_ok; [done|apply le_bytes_byte]. Qed.

#[local] Opaque get64 put64 zeros store.

(** * Entries: lemmas *)

Lemma bit_testbit (e n : Z) : 0 <= n -> bit e (2 ^ n) = Z.testbit e n.
Proof.
  intros Hn. unfold bit. destruct (Z.testbit e n) eqn:E.
  - destruct (Z.eqb_spec (Z.land e (2 ^ n)) 0) as [H|H]; [|done].
    apply (f_equal (fun z => Z.testbit z n)) in H.
    by rewrite Z.land_spec, E, Z.pow2_bits_true, Z.bits_0 in H by done.
  - replace (Z.land e (2 ^ n)) with 0; [done|]. apply Z.bits_inj'. intros j Hj.
    rewrite Z.land_spec, Z.bits_0, Z.pow2_bits_eqb by done.
    destruct (Z.eqb_spec n j) as [-> |]; [by rewrite E|by rewrite andb_false_r].
Qed.

Lemma bit_lor (a b n : Z) : 0 <= n -> bit (Z.lor a b) (2 ^ n) = bit a (2 ^ n) || bit b (2 ^ n).
Proof. intros Hn. by rewrite !bit_testbit, Z.lor_spec. Qed.

Lemma addr_mask : kPteAddrMask = Z.shiftl (Z.ones 40) 12.
Proof. reflexivity. Qed.

Lemma addr_of (e : Z) : Z.land e kPteAddrMask = e / 4096 mod 2 ^ 40 * 4096.
Proof.
  rewrite addr_mask. replace (Z.land e (Z.shiftl (Z.ones 40) 12))
    with (Z.shiftl (Z.land (Z.shiftr e 12) (Z.ones 40)) 12).
  - rewrite Z.land_ones, Z.shiftl_mul_pow2, Z.shiftr_div_pow2 by lia. reflexivity.
  - apply Z.bits_inj'. intros n Hn. rewrite Z.land_spec, !Z.shiftl_spec by lia.
    destruct (Z.ltb_spec n 12) as [Hl|Hl].
    + rewrite !(Z.testbit_neg_r _ (n - 12)) by lia. by rewrite andb_false_r.
    + rewrite Z.land_spec, Z.shiftr_spec by lia. do 2 f_equal. lia.
Qed.

Lemma addr_low (e : Z) : Z.land (Z.land e kPteAddrMask) (u64 (Z.lnot (Z.ones 12))) = Z.land e kPteAddrMask.
Proof. rewrite <- Z.land_assoc. f_equal. Qed.

(** A page of a RAM the entries can address. *)
Definition page (p : Z) : Prop := 0 <= p < 2 ^ 52 /\ p mod 4096 = 0.

Lemma addr_page (p : Z) : page p -> Z.land p kPteAddrMask = p.
Proof. intros [H1 H2]. rewrite addr_of. revert H1 H2. Z.div_mod_to_equations. lia. Qed.

Lemma addr_is_page (e : Z) : page (Z.land e kPteAddrMask).
Proof.
  rewrite addr_of. split.
  - pose proof (Z.mod_pos_bound (e / 4096) (2 ^ 40)). lia.
  - apply Z.mod_mul. lia.
Qed.

Lemma page_bit (p n : Z) : page p -> 0 <= n < 12 -> bit p (2 ^ n) = false.
Proof.
  intros [_ Hp] Hn. rewrite bit_testbit by lia.
  rewrite <- (Z.mod_pow2_bits_low p 12) by lia. change (2 ^ 12) with 4096. by rewrite Hp, Z.bits_0.
Qed.

Lemma link_addr (p : Z) : page p -> Z.land (link p) kPteAddrMask = p.
Proof. intros Hp. unfold link. rewrite !Z.land_lor_distr_l, addr_page by done. by rewrite !Z.lor_0_r. Qed.

Lemma bit_low (p c n : Z) : page p -> 0 <= n < 12 -> bit (Z.lor p c) (2 ^ n) = bit c (2 ^ n).
Proof. intros Hp Hn. rewrite bit_lor by lia. by rewrite page_bit. Qed.

Lemma link_or (p : Z) : link p = Z.lor p 7.
Proof. unfold link. by rewrite <- !Z.lor_assoc. Qed.

Lemma link_bits (p : Z) :
  page p ->
  bit (link p) kPtePresent = true /\ bit (link p) kPteWrite = true /\ bit (link p) kPteUser = true
  /\ bit (link p) kPtePageSize = false.
Proof.
  intros Hp. rewrite link_or. change kPtePresent with (2 ^ 0). change kPteWrite with (2 ^ 1).
  change kPteUser with (2 ^ 2). change kPtePageSize with (2 ^ 7). rewrite !bit_low by (done || lia). done.
Qed.

Lemma lor_range (a b n : Z) : 0 <= n -> 0 <= a < 2 ^ n -> 0 <= b < 2 ^ n -> 0 <= Z.lor a b < 2 ^ n.
Proof.
  intros Hn Ha Hb. replace (Z.lor a b) with (Z.lor a b mod 2 ^ n); [apply Z.mod_pos_bound; lia|].
  apply Z.bits_inj'. intros j Hj. destruct (Z.ltb_spec j n) as [Hl|Hl].
  - by rewrite Z.mod_pow2_bits_low.
  - rewrite Z.mod_pow2_bits_high, Z.lor_spec by lia.
    rewrite <- (Z.mod_small a (2 ^ n)), <- (Z.mod_small b (2 ^ n)) by lia.
    by rewrite !Z.mod_pow2_bits_high by lia.
Qed.

Lemma link_range (p : Z) : page p -> 0 <= link p < 2 ^ 64.
Proof. intros [Hp _]. rewrite link_or. apply lor_range; lia. Qed.

Lemma leaf_addr (gpa : Z) (w x : bool) :
  Z.land (leaf_entry gpa w x) kPteAddrMask = Z.land gpa kPteAddrMask.
Proof.
  unfold leaf_entry. pose proof (addr_page _ (addr_is_page gpa)) as E.
  destruct w, x; rewrite !Z.land_lor_distr_l, E; by rewrite !Z.lor_0_r.
Qed.

Lemma leaf_bits (gpa : Z) (w x : bool) :
  bit (leaf_entry gpa w x) kPtePresent = true /\ bit (leaf_entry gpa w x) kPteUser = true
  /\ bit (leaf_entry gpa w x) kPteWrite = w /\ bit (leaf_entry gpa w x) kPteNx = negb x.
Proof.
  assert (Hn : bit (Z.land gpa kPteAddrMask) (2 ^ 63) = false).
  { rewrite bit_testbit, Z.land_spec by lia. by rewrite andb_false_r. }
  change kPtePresent with (2 ^ 0). change kPteWrite with (2 ^ 1).
  change kPteUser with (2 ^ 2). change kPteNx with (2 ^ 63).
  pose proof (fun n => page_bit _ n (addr_is_page gpa)) as Hp. unfold leaf_entry.
  destruct w, x; rewrite !bit_lor by lia; rewrite Hn, (Hp 0), (Hp 1), (Hp 2) by lia; done.
Qed.

Lemma leaf_range (gpa : Z) (w x : bool) : 0 <= leaf_entry gpa w x < 2 ^ 64.
Proof.
  destruct (addr_is_page gpa) as [Hp _]. unfold leaf_entry.
  unfold kPtePresent, kPteUser, kPteWrite, kPteNx.
  destruct w, x; repeat (apply lor_range; [lia| |]); lia.
Qed.

Lemma index_range (gva : Z) (k : nat) : 0 <= index gva k < 512.
Proof.
  unfold index. change 0x1ff with (Z.ones 9). rewrite Z.land_ones by lia. apply Z.mod_pos_bound. lia.
Qed.

Lemma index_eq (gva : Z) (k : nat) : index gva k = gva / 2 ^ shift k mod 512.
Proof.
  unfold index. change 0x1ff with (Z.ones 9). rewrite Z.land_ones, Z.shiftr_div_pow2 by (unfold shift; lia).
  reflexivity.
Qed.

(** * The tables as a tree

    [T] gives the level of each page that holds a table.  An entry above
    level 0 that is present and not a large leaf links to a table one level
    below, and no two entries link to the same one. *)

Definition entry (v : Machine) (t i : Z) : Z := get64 (mem v) (cell t i).

Definition linked (e : Z) : bool := bit e kPtePresent && negb (bit e kPtePageSize).

Definition next_table (v : Machine) : Z := if table_next v =? 0 then ram_bytes v else table_next v.

Record tables (T : gmap Z nat) (v : Machine) : Prop := {
  t_bytes : bytes_ok (mem v);
  t_size : page (ram_bytes v) /\ kTableArenaSize < ram_bytes v;
  t_next : page (next_table v) /\ table_arena_base v <= next_table v <= ram_bytes v;
  t_root : T !! kPml4Gpa = Some 3%nat;
  t_page : forall t k, T !! t = Some k -> page t /\ t + 4096 <= ram_bytes v;
  t_place : forall t k, T !! t = Some k -> t = kPml4Gpa /\ k = 3%nat \/ next_table v <= t /\ (k < 3)%nat;
  t_link : forall t k i, T !! t = Some (S k) -> 0 <= i < 512 -> linked (entry v t i) ->
    exists c, entry v t i = link c /\ T !! c = Some k;
  t_inj : forall t1 k1 i1 t2 k2 i2 c, T !! t1 = Some (S k1) -> T !! t2 = Some (S k2) ->
    0 <= i1 < 512 -> 0 <= i2 < 512 -> entry v t1 i1 = link c -> entry v t2 i2 = link c ->
    page c -> t1 = t2 /\ i1 = i2
}.

(** No large leaves. *)
Definition small (T : gmap Z nat) (v : Machine) : Prop :=
  forall t k i, T !! t = Some (S k) -> 0 <= i < 512 ->
    bit (entry v t i) kPtePresent = true -> bit (entry v t i) kPtePageSize = false.

Section tables.
Context (T : gmap Z nat) (v : Machine) (HT : tables T v).

Lemma table_cell (t : Z) (k : nat) (i : Z) :
  T !! t = Some k -> 0 <= i < 512 -> at_table (ram v) (cell t i) 8 = Some (cell t i, 8).
Proof.
  intros Ht Hi. destruct (t_page _ _ HT t k Ht) as [[Hp _] Hb].
  unfold at_table, cell, ram, span. cbn [ram_size]. zcases. done.
Qed.

Lemma read_table (t : Z) (k : nat) (i : Z) :
  T !! t = Some k -> 0 <= i < 512 -> read_entry t i v = (inl (entry v t i), v).
Proof. intros Ht Hi. unfold read_entry. by rewrite (table_cell t k i). Qed.

Lemma write_table (t : Z) (k : nat) (i e : Z) :
  T !! t = Some k -> 0 <= i < 512 ->
  write_entry t i e v = (inl tt, with_mem v (put64 (mem v) (cell t i) e)).
Proof. intros Ht Hi. unfold write_entry. by rewrite (table_cell t k i). Qed.

Lemma entry_range (t i : Z) : 0 <= entry v t i < 2 ^ 64.
Proof. apply get64_range, (t_bytes _ _ HT). Qed.

Lemma table_page (t : Z) (k : nat) : T !! t = Some k -> page t.
Proof. intros Ht. apply (t_page _ _ HT t k Ht). Qed.

Lemma table_level (t : Z) (k : nat) : T !! t = Some k -> (k <= 3)%nat.
Proof. intros Ht. destruct (t_place _ _ HT t k Ht) as [[_ ->]|[_ ?]]; lia. Qed.

End tables.

Lemma cells_apart (t1 i1 t2 i2 : Z) :
  t1 mod 4096 = 0 -> t2 mod 4096 = 0 -> 0 <= i1 < 512 -> 0 <= i2 < 512 -> (t1, i1) <> (t2, i2) ->
  cell t1 i1 + 8 <= cell t2 i2 \/ cell t2 i2 + 8 <= cell t1 i1.
Proof.
  unfold cell. intros H1 H2 Hi1 Hi2 Hne.
  destruct (Z.eq_dec t1 t2) as [-> |Ht].
  - assert (i1 <> i2) by congruence. lia.
  - revert H1 H2. Z.div_mod_to_equations. lia.
Qed.

(** The entry part of a walk. *)
Definition leaf_of (k : nat) (e : Z) (w u : bool) : Leaf :=
  {| l_entry := e; l_level := k; l_writable := w && bit e kPteWrite; l_user := u && bit e kPteUser |}.

Definition is_leaf (k : nat) (e : Z) : bool :=
  match k with O => true | S _ => bit e kPtePageSize end.

Definition wk (v : Machine) := walk (ram v) (mem v).

Lemma walk_at (T : gmap Z nat) (v : Machine) (k : nat) (t gva : Z) (w u : bool) :
  tables T v -> T !! t = Some k ->
  wk v k t gva w u
  = let e := entry v t (index gva k) in
    if negb (bit e kPtePresent) then None
    else if is_leaf k e then Some (leaf_of k e w u)
    else wk v (pred k) (Z.land e kPteAddrMask) gva (w && bit e kPteWrite) (u && bit e kPteUser).
Proof.
  intros HT Ht. unfold wk, entry. destruct k; cbn [walk is_leaf pred];
    rewrite (table_cell T v HT t _ _ Ht) by apply index_range; destruct (negb _); try done.
Qed.

Inductive reach (v : Machine) (gva : Z) : nat -> Z -> Prop :=
| reach_root : reach v gva 3 kPml4Gpa
| reach_down k t c : reach v gva (S k) t -> entry v t (index gva (S k)) = link c -> page c -> reach v gva k c.

Lemma link_linked (p : Z) : page p -> linked (link p) = true.
Proof. intros Hp. unfold linked. destruct (link_bits p Hp) as (-> & _ & _ & ->). done. Qed.

Lemma link_eq (p q : Z) : page p -> page q -> link p = link q -> p = q.
Proof. intros Hp Hq E. rewrite <- (link_addr p), <- (link_addr q) by done. by rewrite E. Qed.

Lemma reach_table (T : gmap Z nat) (v : Machine) (gva : Z) (k : nat) (t : Z) :
  tables T v -> reach v gva k t -> T !! t = Some k.
Proof.
  intros HT. induction 1 as [|k t c _ IH E Hc]; [apply (t_root _ _ HT)|].
  destruct (t_link _ _ HT t k (index gva (S k))) as (c' & E' & Hc'); [done|apply index_range| |].
  - rewrite E. by rewrite link_linked.
  - rewrite E in E'. apply link_eq in E' as ->; [done|done|]. by apply (table_page T v HT c' k).
Qed.

Lemma reach_indices (T : gmap Z nat) (v : Machine) (a b : Z) (k : nat) (t : Z) :
  tables T v -> reach v a k t -> reach v b k t ->
  forall j, (k < j <= 3)%nat -> index a j = index b j.
Proof.
  intros HT Ha. revert b. induction Ha as [|k t c Ha IH E Hc]; intros b Hb j Hj; [lia|].
  inversion Hb as [E3 Et|k' t' c' Hb' E' Hc' Ek Et]; subst.
  - apply (reach_table T) in Ha; [|done]. apply (table_level T v HT) in Ha. lia.
  - destruct (t_inj _ _ HT t k (index a (S k)) t' k (index b (S k)) c) as [-> Ei];
      eauto using reach_table, index_range.
    destruct (decide (j = S k)) as [-> |]; [done|]. apply (IH b); [done|lia].
Qed.

(** What one changed entry can change. *)
Lemma walk_change (R : Z -> option Leaf -> option Leaf -> Prop) (T T' : gmap Z nat) (v v' : Machine)
    (t0 : Z) (k0 : nat) (i0 : Z) :
  (forall a l, R a l l) -> tables T v -> tables T' v' -> T ⊆ T' -> T !! t0 = Some k0 ->
  (forall t k i, T !! t = Some k -> 0 <= i < 512 -> (t, i) <> (t0, i0) -> entry v' t i = entry v t i) ->
  (forall a w u, reach v a k0 t0 -> index a k0 = i0 -> R a (wk v' k0 t0 a w u) (wk v k0 t0 a w u)) ->
  forall k t a w u, reach v a k t -> R a (wk v' k t a w u) (wk v k t a w u).
Proof.
  intros HR HT HT' Hsub Ht0 Hsame Hat. induction k as [|k IH]; intros t a w u Hr.
  all: assert (Ht := reach_table T v a _ t HT Hr).
  all: assert (Ht' := lookup_weaken _ _ _ _ Ht Hsub).
  all: match type of Hr with reach _ _ ?n _ =>
         destruct (decide ((t, index a n) = (t0, i0))) as [[= -> Ei]|Hne];
         [assert (k0 = n) as -> by congruence; by apply Hat|]
       end.
  all: rewrite (walk_at T v _ t), (walk_at T' v' _ t) by done; cbn zeta;
    rewrite (Hsame t _ _ Ht (index_range a _) Hne).
  all: destruct (bit (entry v t _) kPtePresent) eqn:Ep; cbn [negb]; [|apply HR].
  - cbn [is_leaf]. apply HR.
  - destruct (is_leaf (S k) _) eqn:El; [apply HR|]. cbn [is_leaf] in El. cbn [pred]. apply IH.
    destruct (t_link _ _ HT t k (index a (S k)) Ht (index_range _ _)) as (c & E & Hc).
    { unfold linked. by rewrite Ep, El. }
    assert (page c) by by apply (table_page T v HT c k). rewrite E, link_addr by done. by eapply reach_down.
Qed.

(** ** What an address sees

    The physical address, and whether it can be written, used at user level
    and executed. *)

Definition place (a : Z) (l : Leaf) : Z * bool * bool * bool :=
  (gpa (walk_of a l), l_writable l, l_user l, negb (bit (l_entry l) kPteNx)).

Definition seen (v : Machine) (a : Z) : option (Z * bool * bool * bool) :=
  if canonical a then place a <$> wk v 3 kPml4Gpa a true true else None.

Lemma mmu_seen (v : Machine) (a : Z) :
  mmu v a = None <-> seen v a = None.
Proof.
  unfold mmu, translate, seen, wk. change (Z.land kPml4Gpa kPteAddrMask) with kPml4Gpa.
  destruct (canonical a), (walk (ram v) (mem v) 3 kPml4Gpa a true true); done.
Qed.

Lemma mmu_place (v : Machine) (a : Z) (w : Walk) :
  mmu v a = Some w -> exists x, seen v a = Some (gpa w, writable w, user w, x).
Proof.
  unfold mmu, translate, seen, wk. change (Z.land kPml4Gpa kPteAddrMask) with kPml4Gpa.
  destruct (canonical a), (walk (ram v) (mem v) 3 kPml4Gpa a true true); cbn; intros [= <-]. by eexists.
Qed.

(** What a single entry of level [k] shows. *)
Definition shows (a : Z) (k : nat) (e : Z) : option (Z * bool * bool * bool) :=
  if bit e kPtePresent then Some (place a (leaf_of k e true true)) else None.

(** Pages left for tables. *)
Definition room (v : Machine) : Z := (next_table v - table_arena_base v) / 4096.

(** More tables, the same translation. *)
Record grows (T : gmap Z nat) (v : Machine) (T' : gmap Z nat) (v' : Machine) : Prop := {
  g_tables : tables T' v';
  g_sub : T ⊆ T';
  g_seen : forall a, seen v' a = seen v a;
  g_link : forall t k i c, T !! t = Some (S k) -> 0 <= i < 512 -> page c ->
    entry v t i = link c -> entry v' t i = link c;
  g_mem : forall a, 4096 <= a < table_arena_base v -> peek (mem v') a = peek (mem v) a;
  g_bytes : ram_bytes v' = ram_bytes v;
  g_small : small T v -> small T' v'
}.

Lemma grows_refl (T : gmap Z nat) (v : Machine) : tables T v -> grows T v T v.
Proof. intros HT. by constructor. Qed.

Lemma arena_same (v v' : Machine) : ram_bytes v' = ram_bytes v -> table_arena_base v' = table_arena_base v.
Proof. unfold table_arena_base. by intros ->. Qed.

Lemma grows_trans (T1 T2 T3 : gmap Z nat) (v1 v2 v3 : Machine) :
  grows T1 v1 T2 v2 -> grows T2 v2 T3 v3 -> grows T1 v1 T3 v3.
Proof.
  intros [H1 S1 E1 L1 M1 B1 P1] [H2 S2 E2 L2 M2 B2 P2]. constructor.
  - done.
  - by trans T2.
  - intros a. by rewrite E2.
  - intros t k i c Ht Hi Hc He. eapply L2; [|done..|by eapply L1]. by eapply lookup_weaken.
  - intros a Ha. rewrite M2, M1; [done..|]. by rewrite (arena_same v1 v2).
  - congruence.
  - auto.
Qed.

Lemma grows_reach (T T' : gmap Z nat) (v v' : Machine) (a : Z) (k : nat) (t : Z) :
  tables T v -> grows T v T' v' -> reach v a k t -> reach v' a k t.
Proof.
  intros HT G. induction 1 as [|k t c Hr IH E Hc]; [constructor|].
  eapply reach_down; [done| |done]. eapply (g_link _ _ _ _ G); [|apply index_range|done|done].
  by eapply reach_table.
Qed.

(** A link to a fresh table that shows what the entry showed. *)
Section add.
Context (T : gmap Z nat) (v : Machine) (t i f : Z) (k : nat) (m2 : Ram).
Hypothesis HT : tables T v.
Hypothesis Ht : T !! t = Some (S k).
Hypothesis Hi : 0 <= i < 512.
Hypothesis Hfree : linked (entry v t i) = false.
Hypothesis Hf : f = next_table v - 4096.
Hypothesis Hroom : table_arena_base v <= f.
Hypothesis Hbytes : bytes_ok m2.
Hypothesis Hother : forall x, ~ (f <= x < f + 4096) -> peek m2 x = peek (mem v) x.
Hypothesis Hends : forall j, 0 <= j < 512 -> (0 < k)%nat -> linked (get64 m2 (cell f j)) = false.
Hypothesis Hshows : forall a, index a (S k) = i ->
  shows a k (get64 m2 (cell f (index a k))) = shows a (S k) (entry v t i).
Hypothesis Hsmall : small T v -> forall j, 0 <= j < 512 -> (0 < k)%nat ->
  bit (get64 m2 (cell f j)) kPtePresent = false.

Let v' : Machine := mkMachine (put64 m2 (cell t i) (link f)) (ram_bytes v) f.
Let T' : gmap Z nat := <[f := k]> T.

Lemma fresh_page : page f /\ 0 < f /\ f + 4096 <= ram_bytes v.
Proof.
  destruct (t_size _ _ HT) as [[Hr _] Ha], (t_next _ _ HT) as [[Hn Hm] Hl].
  assert (0 < table_arena_base v) by (unfold table_arena_base; zcases; lia).
  split; [split|]; [lia| |lia]. rewrite Hf. revert Hm. clear. Z.div_mod_to_equations. lia.
Qed.

Lemma fresh_table : T !! f = None.
Proof.
  destruct (T !! f) as [j|] eqn:E; [|done]. destruct fresh_page as (_ & H0 & _).
  destruct (t_place _ _ HT f j E) as [[H _]|[H _]]; [unfold kPml4Gpa in H; lia|lia].
Qed.

Lemma fresh_apart (t1 j : Z) (k1 : nat) :
  T !! t1 = Some k1 -> 0 <= j < 512 -> cell t1 j + 8 <= f \/ f + 4096 <= cell t1 j.
Proof.
  intros H1 Hj. destruct (t_page _ _ HT t1 k1 H1) as [[_ Hm] _], fresh_page as ([_ Hm'] & _ & _).
  assert (t1 <> f) by (pose proof fresh_table; congruence).
  unfold cell. revert Hm Hm'. Z.div_mod_to_equations. lia.
Qed.

Lemma add_entry_old (t1 j : Z) (k1 : nat) :
  T !! t1 = Some k1 -> 0 <= j < 512 -> (t1, j) <> (t, i) -> entry v' t1 j = entry v t1 j.
Proof.
  intros H1 Hj Hne. unfold entry, v'. cbn [mem]. rewrite get64_put64_other.
  - apply get64_ext. intros x Hx. apply Hother. pose proof (fresh_apart t1 j k1 H1 Hj). lia.
  - apply cells_apart; [apply (table_page T v HT t1 k1 H1)|apply (table_page T v HT t _ Ht)|done..].
Qed.

Lemma add_entry_link : entry v' t i = link f.
Proof. unfold entry, v'. cbn [mem]. apply get64_put64, link_range, fresh_page. Qed.

Lemma add_entry_new (j : Z) : 0 <= j < 512 -> entry v' f j = get64 m2 (cell f j).
Proof.
  intros Hj. unfold entry, v'. cbn [mem]. apply get64_put64_other.
  pose proof (fresh_apart t i (S k) Ht Hi). unfold cell at 1 4. lia.
Qed.

Lemma add_lookup (t1 : Z) (k1 : nat) :
  T' !! t1 = Some k1 -> t1 = f /\ k1 = k \/ t1 <> f /\ T !! t1 = Some k1.
Proof.
  unfold T'. destruct (decide (t1 = f)) as [-> |Hne].
  - rewrite lookup_insert_eq. intros [= ->]. by left.
  - rewrite lookup_insert_ne by done. by right.
Qed.

Lemma add_links (t1 : Z) (k1 : nat) (j c : Z) :
  T' !! t1 = Some (S k1) -> 0 <= j < 512 -> entry v' t1 j = link c -> page c ->
  (t1 = t /\ j = i /\ c = f) \/ (T !! t1 = Some (S k1) /\ entry v t1 j = link c /\ T !! c = Some k1).
Proof.
  intros H1 Hj E Hc. destruct (add_lookup _ _ H1) as [[-> Hk]|[Hne H1']].
  - exfalso. rewrite add_entry_new in E by done. pose proof (Hends j Hj ltac:(lia)) as Hl.
    rewrite E, link_linked in Hl by done. done.
  - destruct (decide ((t1, j) = (t, i))) as [[= -> ->]|Hne'].
    + left. rewrite add_entry_link in E. apply link_eq in E; [done|apply fresh_page|done].
    + right. rewrite (add_entry_old _ _ _ H1' Hj Hne') in E.
      destruct (t_link _ _ HT t1 k1 j H1' Hj) as (c' & E' & Hc'); [by rewrite E, link_linked|].
      rewrite E in E'. apply link_eq in E' as <-; [done|done|by apply (table_page T v HT c' k1)].
Qed.

Lemma add_next : next_table v' = f.
Proof. destruct fresh_page as (_ & H & _). unfold next_table, v'. cbn [table_next]. zcases. done. Qed.

Lemma add_tables : tables T' v'.
Proof.
  destruct fresh_page as (Hp & H0 & Hb). pose proof fresh_table as Hnew.
  assert (Hle : (S k <= 3)%nat) by apply (table_level T v HT t _ Ht).
  constructor; rewrite ?add_next.
  - by apply put64_bytes_ok.
  - apply (t_size _ _ HT).
  - split; [done|]. destruct (t_next _ _ HT) as [_ ?]. rewrite (arena_same v v') by done. cbn [v' ram_bytes]. lia.
  - unfold T'. rewrite lookup_insert_ne by (unfold kPml4Gpa; lia). apply (t_root _ _ HT).
  - intros t1 k1 [[-> ->]|[_ H1]]%add_lookup; [done|apply (t_page _ _ HT t1 k1 H1)].
  - intros t1 k1 [[-> ->]|[_ H1]]%add_lookup; [right; lia|].
    destruct (t_place _ _ HT t1 k1 H1) as [?|[? ?]]; [by left|right; lia].
  - intros t1 k1 j H1 Hj Hl. destruct (add_lookup _ _ H1) as [[-> Hk]|[Hne H1']].
    + rewrite add_entry_new in Hl by done. rewrite Hends in Hl by (done || lia). done.
    + destruct (decide ((t1, j) = (t, i))) as [[= -> ->]|Hne'].
      * exists f. split; [apply add_entry_link|]. unfold T'. rewrite lookup_insert_eq. congruence.
      * rewrite (add_entry_old _ _ _ H1' Hj Hne') in Hl |- *.
        destruct (t_link _ _ HT t1 k1 j H1' Hj Hl) as (c & E & Hc). exists c. split; [done|].
        unfold T'. by rewrite lookup_insert_ne by congruence.
  - intros t1 k1 i1 t2 k2 i2 c H1 H2 Hi1 Hi2 E1 E2 Hc.
    destruct (add_links _ _ _ _ H1 Hi1 E1 Hc) as [(-> & -> & ->)|(H1' & E1' & C1)];
      destruct (add_links _ _ _ _ H2 Hi2 E2 Hc) as [(-> & -> & C)|(H2' & E2' & C2)]; try done.
    + congruence.
    + congruence.
    + by eapply (t_inj _ _ HT).
Qed.

Lemma add_shows (a : Z) (w u : bool) :
  index a (S k) = i -> place a <$> wk v' (S k) t a w u = place a <$> wk v (S k) t a w u.
Proof.
  intros Ei. destruct fresh_page as (Hp & _ & _). pose proof (Hshows a Ei) as Hs.
  assert (Ht' : T' !! t = Some (S k)).
  { unfold T'. rewrite lookup_insert_ne; [done|]. pose proof fresh_table. congruence. }
  rewrite (walk_at T' v' (S k) t), (walk_at T v (S k) t) by (done || apply add_tables). cbn zeta.
  rewrite Ei, add_entry_link. destruct (link_bits f Hp) as (-> & -> & -> & Hps). cbn [negb is_leaf pred].
  rewrite Hps, link_addr, !andb_true_r by done.
  rewrite (walk_at T' v' k f); [|apply add_tables|apply lookup_insert_eq]. cbn zeta.
  rewrite add_entry_new by apply index_range.
  pose proof (Hends _ (index_range a k)) as Hl. revert Hs Hl Hfree. unfold shows, linked.
  set (e := get64 m2 _). set (e0 := entry v t i).
  destruct (bit e kPtePresent), (bit e0 kPtePresent); cbn [negb andb]; try done; intros Hs Hl Hn.
  apply negb_false_iff in Hn. rewrite Hn.
  assert (is_leaf k e = true) as ->. { destruct k; [done|]. cbn [is_leaf]. apply negb_false_iff, Hl. lia. }
  cbn. injection Hs as Hg Hw Hu Hx. unfold place. cbn in *. by rewrite Hg, Hw, Hu, Hx.
Qed.

Lemma add_grows : grows T v T' v'.
Proof.
  destruct fresh_page as (Hp & H0 & Hb). assert (Hsub : T ⊆ T') by apply insert_subseteq, fresh_table.
  constructor; try done.
  - apply add_tables.
  - intros a. unfold seen. destruct (canonical a); [|done].
    apply (walk_change (fun a l l' => place a <$> l = place a <$> l') T T' v v' t (S k) i); try done.
    + apply add_tables.
    + intros t1 k1 j. by apply add_entry_old.
    + intros b w u _ Ei. by apply add_shows.
    + constructor.
  - intros t1 k1 j c H1 Hj Hc E. rewrite (add_entry_old _ _ _ H1 Hj); [done|].
    intros [= -> ->]. rewrite E, link_linked in Hfree by done. done.
  - intros a Ha. unfold v'. cbn [mem]. rewrite peek_put64; [apply Hother; lia|].
    destruct (t_place _ _ HT t _ Ht) as [[-> _]|[Hn _]]; unfold cell, kPml4Gpa; [lia|].
    destruct (t_next _ _ HT) as [_ ?]. lia.
  - intros HS t1 k1 j H1 Hj Hpr. destruct (add_lookup _ _ H1) as [[-> Hk]|[Hne H1']].
    + rewrite add_entry_new in Hpr by done. rewrite Hsmall in Hpr by (done || lia). done.
    + destruct (decide ((t1, j) = (t, i))) as [[= -> ->]|Hne'].
      * rewrite add_entry_link. by destruct (link_bits f Hp) as (_ & _ & _ & ->).
      * rewrite (add_entry_old _ _ _ H1' Hj Hne') in Hpr |- *. by apply (HS t1 k1).
Qed.

End add.

(** ** Allocation *)

Lemma arena_page (T : gmap Z nat) (v : Machine) : tables T v -> page (table_arena_base v) /\ 0 < table_arena_base v.
Proof.
  intros HT. destruct (t_size _ _ HT) as [[H1 H2] H3]. change kTableArenaSize with 0x200000 in H3.
  unfold table_arena_base, page. change kTableArenaSize with 0x200000. zcases. revert H2.
  Z.div_mod_to_equations. lia.
Qed.

Lemma room_pages (T : gmap Z nat) (v : Machine) :
  tables T v -> next_table v = table_arena_base v + 4096 * room v /\ 0 <= room v.
Proof.
  intros HT. destruct (arena_page T v HT) as [[_ Ha] _], (t_next _ _ HT) as [[_ Hn] Hl].
  unfold room. revert Ha Hn. Z.div_mod_to_equations. lia.
Qed.

Lemma alloc_none (T : gmap Z nat) (v : Machine) :
  tables T v -> room v = 0 ->
  exists v1, alloc_table v = (inr enomem, v1) /\ grows T v T v1 /\ room v1 = room v.
Proof.
  intros HT H0. destruct (room_pages T v HT) as [Hn _]. eexists. split.
  { unfold alloc_table. fold (next_table v). change kPageSize with 4096. zcases. done. }
  set (v1 := mkMachine _ _ _).
  assert (En : next_table v1 = next_table v).
  { destruct (arena_page T v HT) as [_ Ha]. unfold next_table at 1, v1. cbn [table_next ram_bytes].
    fold (next_table v). zcases; done. }
  split; [|unfold room; by rewrite En].
  constructor; try done. destruct HT. constructor; try done; rewrite ?En; done.
Qed.

Lemma alloc_some (T : gmap Z nat) (v : Machine) :
  tables T v -> 0 < room v ->
  let f := next_table v - 4096 in
  table_arena_base v <= f
  /\ alloc_table v = (inl f, mkMachine (store (mem v) f (zeros kPageSize)) (ram_bytes v) f).
Proof.
  intros HT H0. destruct (room_pages T v HT) as [Hn _], (arena_page T v HT) as [_ Ha], (t_next _ _ HT) as [_ Hl].
  split; [lia|]. unfold alloc_table. fold (next_table v). change kPageSize with 4096.
  zcases. unfold at_table, span, ram. cbn [ram_size]. zcases. done.
Qed.

Lemma room_after (v : Machine) (m : Ram) (f : Z) :
  f = next_table v - 4096 -> 0 < f -> room (mkMachine m (ram_bytes v) f) = room v - 1.
Proof.
  intros -> Hf. unfold room, next_table at 1. cbn [table_next ram_bytes]. zcases.
  change (table_arena_base (mkMachine m (ram_bytes v) (next_table v - 4096))) with (table_arena_base v).
  Z.div_mod_to_equations. lia.
Qed.

(** Filling a page with entries. *)
Lemma write_entries_spec (f : Z) (E : Z -> Z) (is_ : list Z) : forall v,
  0 <= f -> f + 4096 <= ram_bytes v -> (forall j, j ∈ is_ -> 0 <= j < 512 /\ 0 <= E j < 2 ^ 64) -> NoDup is_ ->
  exists m, write_entries f is_ E v = (inl tt, with_mem v m)
    /\ (forall x, ~ (f <= x < f + 4096) -> peek m x = peek (mem v) x)
    /\ (forall j, j ∈ is_ -> get64 m (cell f j) = E j)
    /\ (forall j, 0 <= j -> j ∉ is_ -> get64 m (cell f j) = get64 (mem v) (cell f j))
    /\ (bytes_ok (mem v) -> bytes_ok m).
Proof.
  induction is_ as [|i is_ IH]; intros v H0 Hf Hj Hd; cbn [write_entries].
  { exists (mem v). destruct v. split; [done|]. split; [done|]. split; [by intros j ?%elem_of_nil|done]. }
  apply NoDup_cons in Hd as [Hi Hd]. destruct (Hj i (list_elem_of_here _ _)) as [Hir HE].
  assert (Hw : write_entry f i (E i) v = (inl tt, with_mem v (put64 (mem v) (cell f i) (E i)))).
  { unfold write_entry, at_table, span, ram, cell. cbn [ram_size]. zcases. done. }
  destruct (IH (with_mem v (put64 (mem v) (cell f i) (E i)))) as (m & Em & M1 & M2 & M3 & M4);
    [done|done|intros; apply Hj; by right|done|].
  exists m. split; [unfold mbind, op_bind; by rewrite Hw, Em|]. cbn [with_mem mem] in *.
  split; [|split; [|split]].
  - intros x Hx. rewrite M1 by done. apply peek_put64. unfold cell. lia.
  - intros j [-> |H]%elem_of_cons; [|by apply M2]. rewrite M3 by (done || lia). by apply get64_put64.
  - intros j Hj0 [Hne Hn]%not_elem_of_cons. rewrite M3 by done. apply get64_put64_other. unfold cell. lia.
  - intros Hb. by apply M4, put64_bytes_ok.
Qed.

(** An entry that becomes a link, with one page less to give. *)
Definition links_down (T : gmap Z nat) (v : Machine) (t i : Z) (k : nat) (v' : Machine) : Prop :=
  exists T', let f := next_table v - 4096 in
    grows T v T' v' /\ entry v' t i = link f /\ page f /\ room v' = room v - 1.

Lemma add_step (T : gmap Z nat) (v : Machine) (t i : Z) (k : nat) (m2 : Ram) :
  let f := next_table v - 4096 in
  tables T v -> T !! t = Some (S k) -> 0 <= i < 512 -> linked (entry v t i) = false -> 0 < room v ->
  bytes_ok m2 -> (forall x, ~ (f <= x < f + 4096) -> peek m2 x = peek (mem v) x) ->
  (forall j, 0 <= j < 512 -> (0 < k)%nat -> linked (get64 m2 (cell f j)) = false) ->
  (forall a, index a (S k) = i -> shows a k (get64 m2 (cell f (index a k))) = shows a (S k) (entry v t i)) ->
  (small T v -> forall j, 0 <= j < 512 -> (0 < k)%nat -> bit (get64 m2 (cell f j)) kPtePresent = false) ->
  exists v', write_entry t i (link f) (mkMachine m2 (ram_bytes v) f) = (inl tt, v') /\ links_down T v t i k v'.
Proof.
  intros f HT Ht Hi Hl Hr Hb Ho He Hs Hsm. destruct (alloc_some T v HT Hr) as [Ha _].
  destruct (fresh_page T v f HT eq_refl Ha) as (Hp & H0 & _).
  exists (mkMachine (put64 m2 (cell t i) (link f)) (ram_bytes v) f). split.
  { unfold write_entry. change (ram (mkMachine m2 (ram_bytes v) f)) with (ram v).
    by rewrite (table_cell T v HT t _ i Ht Hi). }
  exists (<[f := k]> T). fold f. split; [by apply add_grows|]. split; [by eapply (add_entry_link T)|].
  split; [done|by apply room_after].
Qed.

Lemma link_fresh (T : gmap Z nat) (v : Machine) (t i : Z) (k : nat) :
  tables T v -> T !! t = Some (S k) -> 0 <= i < 512 -> bit (entry v t i) kPtePresent = false -> 0 < room v ->
  let f := next_table v - 4096 in
  exists v', write_entry t i (link f) (mkMachine (store (mem v) f (zeros kPageSize)) (ram_bytes v) f) = (inl tt, v')
    /\ links_down T v t i k v'.
Proof.
  intros HT Ht Hi Hp Hr f. assert (E0 : forall j, 0 <= j < 512 -> get64 (store (mem v) f (zeros kPageSize)) (cell f j) = 0).
  { intros j Hj. apply get64_zero. intros x Hx. apply peek_zeroed; [done|]. unfold cell in Hx.
    change kPageSize with 4096. lia. }
  apply add_step; [done|done|done| |done| | | | |].
  - unfold linked. by rewrite Hp.
  - apply store_bytes_ok; [apply (t_bytes _ _ HT)|apply zeros_bytes].
  - intros x Hx. rewrite peek_store, zeros_length by done. rewrite decide_False; [done|].
    change kPageSize with 4096. lia.
  - intros j Hj _. by rewrite E0.
  - intros a Ha. rewrite E0 by apply index_range. unfold shows. by rewrite Hp.
  - intros _ j Hj _. by rewrite E0.
Qed.

(** ** Splitting a large leaf *)

Definition base_of (leaf : Z) (k : nat) : Z :=
  Z.land (Z.land leaf kPteAddrMask) (u64 (Z.lnot (low_mask k))).

Lemma base_eq (leaf : Z) (k : nat) :
  base_of leaf k = Z.land leaf kPteAddrMask / 2 ^ shift k * 2 ^ shift k.
Proof. unfold base_of, low_mask. apply land_align; [|unfold shift; lia]. destruct (addr_is_page leaf). lia. Qed.

Lemma shift_S (k : nat) : 2 ^ shift (S k) = 2 ^ shift k * 512.
Proof. unfold shift. rewrite Nat2Z.inj_succ. change 512 with (2 ^ 9). rewrite <- Z.pow_add_r by lia. f_equal. lia. Qed.

Lemma shift_page (k : nat) : exists c, 2 ^ shift k = 4096 * c /\ 0 < c.
Proof.
  exists (2 ^ (9 * Z.of_nat k)). unfold shift. rewrite Z.pow_add_r by lia. split; [done|].
  apply Z.pow_pos_nonneg; lia.
Qed.

Lemma offset_split (a : Z) (k : nat) :
  a mod 2 ^ shift (S k) = index a k * 2 ^ shift k + a mod 2 ^ shift k.
Proof.
  rewrite shift_S, index_eq. destruct (shift_page k) as (c & E & Hc).
  rewrite Z.rem_mul_r by lia. lia.
Qed.

Lemma offset_eq (a : Z) (k : nat) : Z.land a (low_mask k) = a mod 2 ^ shift k.
Proof.
  unfold low_mask. replace (2 ^ shift k - 1) with (Z.ones (shift k)) by (rewrite Z.ones_equiv; lia).
  apply Z.land_ones. unfold shift. lia.
Qed.

Lemma gpa_leaf (a : Z) (k : nat) (e : Z) (w u : bool) :
  gpa (walk_of a (leaf_of k e w u)) = base_of e k + a mod 2 ^ shift k.
Proof. unfold walk_of. cbn. by rewrite offset_eq. Qed.

Definition attrs_of (leaf : Z) : Z := Z.land leaf (Z.lor (Z.lor (Z.lor kPtePresent kPteWrite) kPteUser) kPteNx).

Lemma split_entry_eq (leaf : Z) (k : nat) (j : Z) :
  split_entry leaf (S k) j
  = Z.lor (base_of leaf (S k) + j * 2 ^ shift k)
      (Z.lor (attrs_of leaf) (if (0 <? k)%nat then kPtePageSize else 0)).
Proof.
  unfold split_entry. replace (S k - 1)%nat with k by lia. fold (attrs_of leaf). fold (base_of leaf (S k)).
  rewrite Z.lor_assoc. unfold kPageShift, shift. destruct k; [by rewrite Z.lor_0_r|].
  zcases. done.
Qed.

Lemma split_page (leaf : Z) (k : nat) (j : Z) :
  (S k <= 3)%nat -> 0 <= j < 512 -> page (base_of leaf (S k) + j * 2 ^ shift k).
Proof.
  intros Hk Hj. rewrite base_eq, shift_S. destruct (addr_is_page leaf) as [H1 _], (shift_page k) as (c & Ec & Hc).
  assert (Hd : exists d, 2 ^ 52 = 2 ^ shift k * 512 * d).
  { exists (2 ^ (52 - shift (S k))). rewrite <- shift_S, <- Z.pow_add_r by (unfold shift; lia). f_equal. lia. }
  destruct Hd as [d Hd]. set (A := Z.land leaf kPteAddrMask) in *. rewrite Ec in *. split.
  - pose proof (Z.mul_div_le A (4096 * c * 512)). pose proof (Z.div_pos A (4096 * c * 512)).
    assert (A / (4096 * c * 512) < d) by (apply Z.div_lt_upper_bound; lia). nia.
  - replace (A / (4096 * c * 512) * (4096 * c * 512) + j * (4096 * c))
      with ((A / (4096 * c * 512) * (c * 512) + j * c) * 4096) by lia. apply Z.mod_mul. lia.
Qed.

Lemma attrs_bits (leaf n : Z) :
  0 <= n -> bit (attrs_of leaf) (2 ^ n) = bit leaf (2 ^ n) && ((n <? 3) || (n =? 63)).
Proof.
  intros Hn. rewrite !bit_testbit by done. unfold attrs_of. rewrite Z.land_spec. f_equal.
  change (Z.lor (Z.lor (Z.lor kPtePresent kPteWrite) kPteUser) kPteNx) with (Z.lor (Z.ones 3) (2 ^ 63)).
  rewrite Z.lor_spec, Z.pow2_bits_eqb, Z.testbit_ones_nonneg, Z.eqb_sym by lia. done.
Qed.

Lemma attrs_addr (leaf : Z) : Z.land (attrs_of leaf) kPteAddrMask = 0.
Proof. unfold attrs_of. rewrite <- Z.land_assoc. by rewrite Z.land_0_r. Qed.

Lemma split_bits (leaf : Z) (k : nat) (j : Z) :
  (S k <= 3)%nat -> 0 <= j < 512 ->
  let e := split_entry leaf (S k) j in
  Z.land e kPteAddrMask = base_of leaf (S k) + j * 2 ^ shift k
  /\ bit e kPtePresent = bit leaf kPtePresent /\ bit e kPteWrite = bit leaf kPteWrite
  /\ bit e kPteUser = bit leaf kPteUser /\ bit e kPteNx = bit leaf kPteNx
  /\ bit e kPtePageSize = (0 <? k)%nat.
Proof.
  intros Hk Hj e. pose proof (split_page leaf k j Hk Hj) as Hp. unfold e. rewrite split_entry_eq.
  set (B := base_of leaf (S k) + j * 2 ^ shift k) in *.
  assert (H63 : bit B (2 ^ 63) = false).
  { rewrite bit_testbit by lia. destruct Hp as [Hp _]. rewrite <- (Z.mod_small B (2 ^ 52)) by lia.
    by rewrite Z.mod_pow2_bits_high by lia. }
  split.
  { rewrite !Z.land_lor_distr_l, attrs_addr, addr_page by done. destruct (0 <? k)%nat; cbn; by rewrite !Z.lor_0_r. }
  change kPtePresent with (2 ^ 0). change kPteWrite with (2 ^ 1).
  change kPteUser with (2 ^ 2). change kPteNx with (2 ^ 63). change kPtePageSize with (2 ^ 7).
  rewrite !bit_lor, H63, !attrs_bits by lia. pose proof (fun n => page_bit B n Hp) as Hb.
  rewrite (Hb 0), (Hb 1), (Hb 2), (Hb 7) by lia. cbn [Z.ltb Z.eqb Z.compare Pos.compare Pos.compare_cont orb].
  rewrite !andb_true_r, andb_false_r. destruct (0 <? k)%nat; rewrite ?orb_false_l;
    change (bit (2 ^ 7) (2 ^ 0)) with false; rewrite ?orb_false_r; done.
Qed.

Lemma land_range (a b n : Z) : 0 <= n -> 0 <= a < 2 ^ n -> 0 <= Z.land a b < 2 ^ n.
Proof.
  intros Hn Ha. replace (Z.land a b) with (Z.land a b mod 2 ^ n); [apply Z.mod_pos_bound; lia|].
  apply Z.bits_inj'. intros j Hj. destruct (Z.ltb_spec j n) as [Hl|Hl].
  - by rewrite Z.mod_pow2_bits_low.
  - rewrite Z.mod_pow2_bits_high, Z.land_spec by lia.
    rewrite <- (Z.mod_small a (2 ^ n)) by lia. by rewrite Z.mod_pow2_bits_high by lia.
Qed.

Lemma split_range (leaf : Z) (k : nat) (j : Z) :
  0 <= leaf < 2 ^ 64 -> (S k <= 3)%nat -> 0 <= j < 512 -> 0 <= split_entry leaf (S k) j < 2 ^ 64.
Proof.
  intros Hl Hk Hj. destruct (split_page leaf k j Hk Hj) as [Hp _]. rewrite split_entry_eq.
  apply lor_range; [lia|lia|]. apply lor_range; [lia|by apply land_range|].
  destruct (0 <? k)%nat; unfold kPtePageSize; lia.
Qed.

(** The split shows what the large leaf showed. *)
Lemma split_shows (a leaf : Z) (k : nat) :
  (S k <= 3)%nat -> shows a k (split_entry leaf (S k) (index a k)) = shows a (S k) leaf.
Proof.
  intros Hk. destruct (split_bits leaf k (index a k) Hk (index_range a k)) as (Ea & Ep & Ew & Eu & Ex & _).
  unfold shows. rewrite Ep. destruct (bit leaf kPtePresent); [|done]. f_equal. unfold place.
  rewrite !gpa_leaf. cbn [leaf_of l_writable l_user l_entry]. rewrite Ew, Eu, Ex. do 3 f_equal.
  rewrite offset_split, Z.add_assoc. f_equal. rewrite (base_eq (split_entry _ _ _)), Ea, base_eq, shift_S.
  destruct (shift_page k) as (c & Ec & Hc). rewrite Ec.
  set (q := Z.land leaf kPteAddrMask / (4096 * c * 512)).
  replace (q * (4096 * c * 512) + index a k * (4096 * c)) with ((q * 512 + index a k) * (4096 * c)) by lia.
  by rewrite Z.div_mul by lia.
Qed.

Lemma split_spec (T : gmap Z nat) (v : Machine) (t i : Z) (k : nat) :
  tables T v -> T !! t = Some (S k) -> 0 <= i < 512 ->
  bit (entry v t i) kPtePresent = true -> bit (entry v t i) kPtePageSize = true ->
  exists v', (split_large_leaf t i (entry v t i) (S k) v = (inl tt, v') /\ links_down T v t i k v')
    \/ (split_large_leaf t i (entry v t i) (S k) v = (inr enomem, v') /\ room v = 0 /\ grows T v T v').
Proof.
  intros HT Ht Hi Hpr Hps. pose proof (table_level T v HT t _ Ht) as Hk.
  destruct (room_pages T v HT) as [_ [Hr|Hr]%Z.le_lteq].
  - destruct (alloc_some T v HT Hr) as [Ha Eal]. set (f := next_table v - 4096) in *.
    destruct (fresh_page T v f HT eq_refl Ha) as (Hp & H0 & Hb).
    destruct (write_entries_spec f (split_entry (entry v t i) (S k)) (seqZ 0 512)
                (mkMachine (store (mem v) f (zeros kPageSize)) (ram_bytes v) f))
      as (m & Em & M1 & M2 & _ & M4); [lia|done| |apply NoDup_seqZ|].
    { intros j Hj%elem_of_seqZ. split; [lia|]. apply split_range; [apply (entry_range T v HT)|done|lia]. }
    assert (Mj : forall j, 0 <= j < 512 -> get64 m (cell f j) = split_entry (entry v t i) (S k) j)
      by (intros j Hj; apply M2, elem_of_seqZ; lia).
    destruct (add_step T v t i k m) as (v' & Ev & HL); try done.
    + unfold linked. by rewrite Hps, andb_false_r.
    + apply M4, store_bytes_ok; [apply (t_bytes _ _ HT)|apply zeros_bytes].
    + fold f. intros x Hx. rewrite M1 by done. cbn [mem]. rewrite peek_store, zeros_length by done.
      rewrite decide_False; [done|]. change kPageSize with 4096. lia.
    + fold f. intros j Hj Hk0. rewrite Mj by done. unfold linked.
      destruct (split_bits (entry v t i) k j Hk Hj) as (_ & _ & _ & _ & _ & ->).
      rewrite (proj2 (Nat.ltb_lt _ _) Hk0). by rewrite andb_false_r.
    + fold f. intros a _. rewrite Mj by apply index_range. by apply split_shows.
    + intros HS. by rewrite (HS t k i) in Hps.
    + exists v'. left. split; [|done]. unfold split_large_leaf, mbind, op_bind. rewrite Eal, Em. exact Ev.
  - destruct (alloc_none T v HT (eq_sym Hr)) as (v1 & Eal & G & _). exists v1. right.
    unfold split_large_leaf, mbind, op_bind. by rewrite Eal.
Qed.

(** ** One level down *)

(** The outcome of a descent by one level. *)
Definition went_down (T : gmap Z nat) (v : Machine) (a : Z) (k : nat) (r : Result Z) (v' : Machine) : Prop :=
  exists T', grows T v T' v' /\ room v - 1 <= room v'
    /\ match r with
       | inl t' => reach v' a k t'
       | inr e => e = enomem /\ room v = 0
       end.

Lemma linked_down (T : gmap Z nat) (v : Machine) (a t : Z) (k : nat) (v' : Machine) :
  tables T v -> reach v a (S k) t -> links_down T v t (index a (S k)) k v' ->
  went_down T v a k (inl (Z.land (entry v' t (index a (S k))) kPteAddrMask)) v'
  /\ bit (entry v' t (index a (S k))) kPtePresent = true.
Proof.
  intros HT Hr (T' & G & E & Hf & Hm). destruct (link_bits _ Hf) as (Hp & _). rewrite E. split; [|done].
  exists T'. split; [done|]. split; [lia|]. rewrite link_addr by done.
  eapply reach_down; [by eapply grows_reach|done|done].
Qed.

Lemma descend_spec (T : gmap Z nat) (v : Machine) (a t : Z) (k : nat) :
  tables T v -> reach v a (S k) t ->
  exists r v', descend_one t a (S k) v = (r, v') /\ went_down T v a k r v'.
Proof.
  intros HT Hr. assert (Ht := reach_table T v a _ t HT Hr). set (i := index a (S k)).
  assert (Hi : 0 <= i < 512) by apply index_range. unfold descend_one. fold i. unfold mbind, op_bind, mret, op_ret.
  rewrite (read_table T v HT t (S k) i Ht Hi). destruct (bit (entry v t i) kPtePresent) eqn:Ep; cbn [andb].
  - destruct (bit (entry v t i) kPtePageSize) eqn:Eps.
    + destruct (split_spec T v t i k HT Ht Hi Ep Eps) as (v' & [[Es HL]|(Es & H0 & G)]); rewrite Es.
      * destruct (linked_down T v a t k v' HT Hr HL) as [W Hb]. fold i in W, Hb.
        destruct HL as (T' & G & E & _).
        rewrite (read_table T' v' (g_tables _ _ _ _ G) t (S k) i) by (done || by apply (lookup_weaken T), (g_sub _ _ _ _ G)).
        rewrite Hb. by eexists _, _.
      * eexists _, _. split; [done|]. exists T. split; [done|]. split; [|done].
        destruct (room_pages T v' (g_tables _ _ _ _ G)). lia.
    + rewrite Ep. eexists _, _. split; [done|]. exists T. split; [by apply grows_refl|]. split; [lia|].
      destruct (t_link _ _ HT t k i Ht Hi) as (c & E & Hc); [unfold linked; by rewrite Ep, Eps|].
      assert (page c) by by apply (table_page T v HT c k). rewrite E, link_addr by done. by eapply reach_down.
  - rewrite Ep. destruct (room_pages T v HT) as [_ [Hm|Hm]%Z.le_lteq].
    + destruct (alloc_some T v HT Hm) as [Ha ->]. destruct (link_fresh T v t i k HT Ht Hi Ep Hm) as (v' & Ew & HL).
      rewrite Ew. destruct (linked_down T v a t k v' HT Hr HL) as [W _]. fold i in W.
      destruct HL as (T' & _ & E & _). rewrite E in W. eexists _, _. split; [done|exact W].
    + destruct (alloc_none T v HT (eq_sym Hm)) as (v1 & -> & G & Er). eexists _, _. split; [done|].
      exists T. split; [done|]. split; [lia|done].
Qed.

(** ** Pages *)

Lemma indices_page (a b : Z) :
  (forall j, (j <= 3)%nat -> index a j = index b j) -> a / 4096 mod 2 ^ 36 = b / 4096 mod 2 ^ 36.
Proof.
  assert (Hd : forall z, z / 4096 mod 2 ^ 36
    = index z 0 + 512 * (index z 1 + 512 * (index z 2 + 512 * index z 3))).
  { intros z. rewrite !index_eq. change (2 ^ shift 0) with 4096. change (2 ^ shift 1) with (4096 * 512).
    change (2 ^ shift 2) with (4096 * 512 * 512). change (2 ^ shift 3) with (4096 * 512 * 512 * 512).
    change (2 ^ 36) with (512 * (512 * (512 * 512))). rewrite <- !Z.div_div by lia.
    rewrite !Z.rem_mul_r by lia. lia. }
  intros H. rewrite !Hd. rewrite (H 0%nat), (H 1%nat), (H 2%nat), (H 3%nat) by lia. done.
Qed.

Lemma canonical_page (a b : Z) :
  is_u64 a -> is_u64 b -> canonical a = true -> canonical b = true ->
  a / 4096 mod 2 ^ 36 = b / 4096 mod 2 ^ 36 -> a / 4096 = b / 4096.
Proof.
  unfold canonical, is_u64. rewrite !Z.shiftr_div_pow2 by lia. intros Ha Hb Ca Cb.
  apply orb_true_iff in Ca, Cb. rewrite !Z.eqb_eq in Ca, Cb. revert Ca Cb. Z.div_mod_to_equations. lia.
Qed.

Lemma page_indices (a b : Z) (j : nat) : a / 4096 = b / 4096 -> index a j = index b j.
Proof.
  intros H. rewrite !index_eq. destruct (shift_page j) as (c & -> & Hc).
  rewrite <- !Z.div_div by lia. by rewrite H.
Qed.

Lemma canonical_indices (a b : Z) :
  is_u64 a -> is_u64 b -> canonical a = true -> canonical b = true ->
  (forall j, (j <= 3)%nat -> index a j = index b j) -> a / 4096 = b / 4096.
Proof. intros. apply canonical_page; try done. by apply indices_page. Qed.

Lemma page_canonical (a b : Z) : a / 4096 = b / 4096 -> canonical a = canonical b.
Proof.
  intros H. unfold canonical. rewrite !Z.shiftr_div_pow2 by lia.
  change (2 ^ 47) with (4096 * 2 ^ 35). rewrite <- !Z.div_div by lia. by rewrite H.
Qed.

(** ** The last level *)

Lemma leaf_entries (T : gmap Z nat) (v : Machine) (t i e : Z) :
  tables T v -> T !! t = Some 0%nat -> 0 <= i < 512 ->
  forall t1 k1 j, T !! t1 = Some (S k1) -> 0 <= j < 512 ->
    entry (with_mem v (put64 (mem v) (cell t i) e)) t1 j = entry v t1 j.
Proof.
  intros HT Ht Hi t1 k1 j H1 Hj. apply get64_put64_other, cells_apart; try done.
  - apply (table_page T v HT t1 _ H1).
  - apply (table_page T v HT t _ Ht).
  - intros [= -> ->]. congruence.
Qed.

Lemma leaf_small (T : gmap Z nat) (v : Machine) (t i e : Z) :
  tables T v -> T !! t = Some 0%nat -> 0 <= i < 512 -> small T v ->
  small T (with_mem v (put64 (mem v) (cell t i) e)).
Proof. intros HT Ht Hi HS t1 k1 j H1 Hj. rewrite (leaf_entries T v t i e HT Ht Hi t1 k1 j H1 Hj). by apply (HS t1 k1). Qed.

Lemma leaf_tables (T : gmap Z nat) (v : Machine) (t i e : Z) :
  tables T v -> T !! t = Some 0%nat -> 0 <= i < 512 ->
  tables T (with_mem v (put64 (mem v) (cell t i) e)).
Proof.
  intros HT Ht Hi. set (v' := with_mem _ _).
  assert (Es := leaf_entries T v t i e HT Ht Hi). fold v' in Es.
  destruct HT as [H1 H2 H3 H4 H5 H6 H7 H8]. constructor; try done.
  - by apply put64_bytes_ok.
  - intros t1 k1 j Ht1 Hj. rewrite (Es t1 k1 j) by done. by apply H7.
  - intros t1 k1 i1 t2 k2 i2 c Ht1 Ht2 Hi1 Hi2. rewrite (Es t1 k1), (Es t2 k2) by done. by eapply H8.
Qed.

Lemma walk_reach (T : gmap Z nat) (v : Machine) (a : Z) (k : nat) (t : Z) :
  tables T v -> reach v a k t -> wk v 3 kPml4Gpa a true true = wk v k t a true true.
Proof.
  intros HT. induction 1 as [|k t c Hr IH E Hc]; [done|]. rewrite IH.
  rewrite (walk_at T v (S k) t) by (done || by eapply reach_table). cbn zeta. rewrite E.
  destruct (link_bits c Hc) as (-> & -> & -> & Hps). cbn [negb is_leaf pred andb]. rewrite Hps. by rewrite link_addr.
Qed.

Lemma reach_page (v v' : Machine) (a b : Z) (k : nat) (t : Z) :
  (forall t1 k1 i c, reach v a (S k1) t1 -> 0 <= i < 512 -> entry v t1 i = link c -> entry v' t1 i = link c) ->
  a / 4096 = b / 4096 -> reach v a k t -> reach v' b k t.
Proof.
  intros He Hp. induction 1 as [|k t c Hr IH E Hc]; [constructor|].
  rewrite (page_indices a b) in E by done. eapply reach_down; [done| |done].
  eapply He; [done|apply index_range|done].
Qed.

Lemma leaf_seen (T : gmap Z nat) (v : Machine) (gva t e b : Z) :
  tables T v -> reach v gva 0 t -> 0 <= e < 2 ^ 64 -> is_u64 gva -> is_u64 b -> canonical gva = true ->
  seen (with_mem v (put64 (mem v) (cell t (index gva 0)) e)) b
  = if decide (b / 4096 = gva / 4096) then shows b 0 e else seen v b.
Proof.
  intros HT Hr He Hg Hb Cg. assert (Ht := reach_table T v gva 0 t HT Hr).
  assert (Hi := index_range gva 0). set (v' := with_mem _ _). assert (HT' := leaf_tables T v t _ e HT Ht Hi). fold v' in HT'.
  assert (Es : entry v' t (index gva 0) = e) by by apply get64_put64.
  assert (Eo : forall t1 k1 j, T !! t1 = Some k1 -> 0 <= j < 512 -> (t1, j) <> (t, index gva 0) ->
                 entry v' t1 j = entry v t1 j).
  { intros t1 k1 j H1 Hj Hne. apply get64_put64_other, cells_apart; try done.
    - apply (table_page T v HT t1 _ H1).
    - apply (table_page T v HT t _ Ht). }
  set (R := fun a (l' l : option Leaf) => is_u64 a -> canonical a = true ->
         place a <$> l' = place a <$> l \/ a / 4096 = gva / 4096).
  assert (HR : R b (wk v' 3 kPml4Gpa b true true) (wk v 3 kPml4Gpa b true true)).
  { apply (walk_change R T T v v' t 0 (index gva 0)); try done; [by left| |constructor].
    intros a w u Hra Ei Ha Ca. right. apply canonical_indices; try done. intros j Hj.
    destruct j; [done|]. apply (reach_indices T v a gva 0 t HT Hra Hr). lia. }
  unfold seen. destruct (decide (b / 4096 = gva / 4096)) as [Ep|Ep].
  - rewrite (page_canonical b gva Ep), Cg. clear HR.
    assert (Hrb : reach v' b 0 t).
    { apply (reach_page v v' gva b); [|done|done]. intros t1 k1 j c Hr1 Hj E.
      assert (H1 := reach_table T v gva _ t1 HT Hr1). rewrite (Eo t1 (S k1) j) by (done || congruence). done. }
    rewrite (walk_reach T v' b 0 t HT' Hrb), (walk_at T v' 0 t) by done. cbn zeta.
    rewrite (page_indices b gva) by done. rewrite Es. unfold shows. cbn [is_leaf].
    destruct (bit e kPtePresent); done.
  - destruct (canonical b) eqn:Cb; [|done]. destruct (HR Hb Cb); done.
Qed.

(** ** Mapping a page *)

Lemma shows_leaf (a gpa : Z) (w x : bool) :
  shows a 0 (leaf_entry gpa w x) = Some (Z.land gpa kPteAddrMask + a mod 4096, w, true, x).
Proof.
  destruct (leaf_bits gpa w x) as (Hp & Hu & Hw & Hx). unfold shows, place. rewrite Hp, gpa_leaf, base_eq, leaf_addr.
  cbn [leaf_of l_writable l_user l_entry]. rewrite Hw, Hu, Hx, negb_involutive. do 4 f_equal.
  destruct (addr_is_page gpa) as [_ H]. change (2 ^ shift 0) with 4096. revert H. Z.div_mod_to_equations. lia.
Qed.

(** The three levels above the last table. *)
Lemma descend3 (T : gmap Z nat) (v : Machine) (gva : Z) :
  tables T v ->
  exists r v' T', (t ← descend_one kPml4Gpa gva 3; t ← descend_one t gva 2; descend_one t gva 1) v = (r, v')
    /\ grows T v T' v' /\ room v - 3 <= room v'
    /\ match r with inl t => reach v' gva 0 t | inr e => e = enomem /\ room v < 3 end.
Proof.
  intros HT. unfold mbind, op_bind.
  destruct (descend_spec T v gva kPml4Gpa 2 HT (reach_root _ _)) as ([t1|e] & v1 & -> & T1 & G1 & R1 & W1).
  2:{ destruct W1. eexists _, _, _. split; [done|]. split; [done|]. split; [lia|]. split; [done|lia]. }
  assert (HT1 := g_tables _ _ _ _ G1).
  destruct (descend_spec T1 v1 gva t1 1 HT1 W1) as ([t2|e] & v2 & -> & T2 & G2 & R2 & W2).
  2:{ destruct W2. eexists _, _, _. split; [done|]. split; [by eapply grows_trans|]. split; [lia|]. split; [done|lia]. }
  assert (HT2 := g_tables _ _ _ _ G2). assert (G12 := grows_trans _ _ _ _ _ _ G1 G2).
  destruct (descend_spec T2 v2 gva t2 0 HT2 W2) as (r & v3 & -> & T3 & G3 & R3 & W3).
  eexists _, _, _. split; [done|]. split; [by eapply grows_trans|]. split; [lia|].
  destruct r; [done|]. destruct W3. split; [done|lia].
Qed.

(** What an operation on the page of [gva] may do to the machine. *)
Record page_op (T : gmap Z nat) (v : Machine) (gva : Z) (at_page : Z -> option (Z * bool * bool * bool))
    (T' : gmap Z nat) (v' : Machine) : Prop := {
  p_tables : tables T' v';
  p_seen : forall a, is_u64 a ->
    seen v' a = if decide (a / 4096 = gva / 4096) then at_page a else seen v a;
  p_mem : forall a, 4096 <= a < table_arena_base v -> peek (mem v') a = peek (mem v) a;
  p_bytes : ram_bytes v' = ram_bytes v;
  p_small : small T v -> small T' v';
  p_room : room v - 3 <= room v'
}.

Lemma write_leaf (T T1 : gmap Z nat) (v v1 : Machine) (gva t e : Z) :
  grows T v T1 v1 -> reach v1 gva 0 t -> is_u64 gva -> canonical gva = true -> 0 <= e < 2 ^ 64 ->
  room v - 3 <= room v1 ->
  exists v', write_entry t (index gva 0) e v1 = (inl tt, v')
    /\ page_op T v gva (fun a => shows a 0 e) T1 v'.
Proof.
  intros G Hr Hg Cg He Hm. assert (HT1 := g_tables _ _ _ _ G). assert (Ht := reach_table T1 v1 gva 0 t HT1 Hr).
  eexists. split; [apply (write_table T1 v1 HT1 t 0 _ e Ht (index_range gva 0))|]. constructor.
  - by apply leaf_tables, index_range.
  - intros a Ha. rewrite (leaf_seen T1 v1 gva t e a) by done. by rewrite (g_seen _ _ _ _ G).
  - intros a Ha. cbn [with_mem mem]. rewrite peek_put64; [by apply (g_mem _ _ _ _ G)|].
    destruct (t_place _ _ HT1 t 0 Ht) as [[_ ?]|[Hn _]]; [done|].
    destruct (t_next _ _ HT1) as [_ Hl]. rewrite (arena_same v v1 (g_bytes _ _ _ _ G)) in Hl.
    unfold cell. pose proof (index_range gva 0). lia.
  - apply (g_bytes _ _ _ _ G).
  - intros HS%(g_small _ _ _ _ G). apply leaf_small; [done|done|apply index_range|done].
  - done.
Qed.

Lemma map_one_spec (T : gmap Z nat) (v : Machine) (gva gpa : Z) (w x : bool) :
  tables T v -> is_u64 gva -> canonical gva = true ->
  exists T' v',
    (map_one gva gpa w x v = (inl tt, v')
     /\ page_op T v gva (fun a => Some (Z.land gpa kPteAddrMask + a mod 4096, w, true, x)) T' v')
    \/ (map_one gva gpa w x v = (inr enomem, v') /\ room v < 3 /\ room v - 3 <= room v' /\ grows T v T' v').
Proof.
  intros HT Hg Cg. destruct (descend3 T v gva HT) as (r & v1 & T1 & E & G & M & W).
  assert (Em : map_one gva gpa w x v
    = match r with inl t => write_entry t (index gva 0) (leaf_entry gpa w x) v1 | inr e => (inr e, v1) end).
  { revert E. unfold map_one, mbind, op_bind.
    destruct (descend_one kPml4Gpa gva 3 v) as [[t1|e1] v2]; [|by intros [= <- <-]].
    destruct (descend_one t1 gva 2 v2) as [[t2|e2] v3]; [|by intros [= <- <-]]. by intros ->. }
  destruct r as [t|e].
  - destruct (write_leaf T T1 v v1 gva t (leaf_entry gpa w x)) as (v' & Ew & P); try done; [apply leaf_range|].
    exists T1, v'. left. split; [by rewrite Em|]. destruct P as [P1 P2 P3 P4 P5 P6]. constructor; try done.
    intros a Ha. by rewrite (P2 a Ha), shows_leaf.
  - destruct W as [-> Hr]. exists T1, v1. right. by rewrite Em.
Qed.

(** ** Clearing a page *)

Definition hidden (v : Machine) (a : Z) : Prop := forall b, b / 4096 = a / 4096 -> seen v b = None.

Lemma absent_hidden (T : gmap Z nat) (v : Machine) (a t : Z) (k : nat) :
  tables T v -> reach v a k t -> bit (entry v t (index a k)) kPtePresent = false -> hidden v a.
Proof.
  intros HT Hr Ep b Hp. unfold seen. destruct (canonical b); [|done].
  assert (Hb : reach v b k t) by (by apply (reach_page v v a b)).
  rewrite (walk_reach T v b k t HT Hb), (walk_at T v k t b true true HT (reach_table T v b _ t HT Hb)).
  cbn zeta. by rewrite (page_indices b a k Hp), Ep.
Qed.

Lemma unmap_down_spec (T : gmap Z nat) (v : Machine) (a t : Z) (k : nat) :
  tables T v -> small T v -> reach v a (S k) t ->
  (exists c, unmap_down t a (S k) v = (inl c, v) /\ reach v a k c)
  \/ (exists e, unmap_down t a (S k) v = (inr e, v) /\ hidden v a).
Proof.
  intros HT HS Hr. assert (Ht := reach_table T v a _ t HT Hr). set (i := index a (S k)).
  assert (Hi : 0 <= i < 512) by apply index_range. unfold unmap_down. fold i. unfold mbind, op_bind, mret, op_ret.
  rewrite (read_table T v HT t (S k) i Ht Hi). destruct (bit (entry v t i) kPtePresent) eqn:Ep; cbn [negb].
  - assert (Eps := HS t k i Ht Hi Ep). rewrite Eps. left.
    destruct (t_link _ _ HT t k i Ht Hi) as (c & E & Hc); [unfold linked; by rewrite Ep, Eps|].
    assert (page c) by by apply (table_page T v HT c k). exists c. rewrite E, link_addr by done.
    split; [done|by eapply reach_down].
  - right. exists efault. split; [done|by apply (absent_hidden T v a t (S k))].
Qed.

Lemma hidden_op (T : gmap Z nat) (v : Machine) (gva : Z) :
  tables T v -> hidden v gva -> page_op T v gva (fun _ => None) T v.
Proof.
  intros HT Hs. constructor; [done| |done|done|done|lia].
  intros a Ha. destruct (decide _) as [E|]; [|done]. by apply Hs.
Qed.

Lemma unmap_spec (T : gmap Z nat) (v : Machine) (gva : Z) :
  tables T v -> small T v -> is_u64 gva -> canonical gva = true ->
  page_op T v gva (fun _ => None) T (unmap_page gva v).
Proof.
  intros HT HS Hg Cg. unfold unmap_page, mbind, op_bind.
  destruct (unmap_down_spec T v gva kPml4Gpa 2 HT HS (reach_root _ _)) as [(t1 & -> & R1)|(? & -> & Hn)];
    [|by apply hidden_op].
  destruct (unmap_down_spec T v gva t1 1 HT HS R1) as [(t2 & -> & R2)|(? & -> & Hn)]; [|by apply hidden_op].
  destruct (unmap_down_spec T v gva t2 0 HT HS R2) as [(t3 & -> & R3)|(? & -> & Hn)]; [|by apply hidden_op].
  destruct (write_leaf T T v v gva t3 0) as (v' & -> & P); [by apply grows_refl|done|done|done|done|lia|done].
Qed.

(** ** Creation *)

Lemma up_eq (a : Z) : 0 <= a <= 2 ^ 51 -> page_up a = (a + 4095) / 4096 * 4096.
Proof.
  intros Ha. unfold page_up. rewrite u64_small by (change kPageMask with 4095; lia).
  change kPageMask with 4095. exact (land_align (a + 4095) 12 ltac:(lia) ltac:(lia)).
Qed.

Lemma down_eq (a : Z) : 0 <= a < 2 ^ 64 -> page_down a = a / 4096 * 4096.
Proof. intros Ha. unfold page_down. exact (land_align a 12 ltac:(lia) ltac:(lia)). Qed.

(** An empty root and the descriptors, nothing else. *)
Lemma built (v : Machine) :
  kGuestFloor < ram_bytes v -> bytes_ok (mem v) ->
  exists m, build_tables v = (inl tt, with_mem v m) /\ bytes_ok m
    /\ (forall a, 0 <= a < 4096 -> peek m a = 0)
    /\ (forall a, kGuestFloor <= a -> peek m a = peek (mem v) a).
Proof.
  intros Hb Hm. unfold build_tables, at_table, span, ram. cbn [ram_size].
  change kPml4Gpa with 0. change kGdtGpa with 0x3000. change kPageSize with 4096. change kGuestFloor with 0x200000 in *.
  zcases. eexists. split; [done|].
  assert (Hg : length (concat (map (le_bytes 8) gdt)) = 40%nat) by reflexivity.
  assert (Hz : Z.of_nat (length (zeros 4096)) = 4096) by by rewrite zeros_length.
  split; [|split].
  - unfold build_gdt. repeat apply store_bytes_ok; try apply zeros_bytes; [done|].
    apply Forall_concat, Forall_map, Forall_forall. intros e _. apply le_bytes_byte.
  - intros a Ha. unfold build_gdt. change kGdtGpa with 0x3000.
    rewrite !peek_store, Hg, Hz, (decide_False (P := 0x3000 <= a < _)), (decide_False (P := 0x3000 <= a < _)) by lia.
    rewrite <- (peek_store (mem v) 0 (zeros 4096)). apply peek_zeroed; lia.
  - intros a Ha. unfold build_gdt. change kGdtGpa with 0x3000.
    rewrite !peek_store, Hg, Hz, !decide_False by lia. done.
Qed.

Definition root_only : gmap Z nat := {[kPml4Gpa := 3%nat]}.

Lemma root_lookup (t : Z) (k : nat) : root_only !! t = Some k -> kPml4Gpa = t /\ 3%nat = k.
Proof. unfold root_only. by intros H%lookup_singleton_Some. Qed.

Lemma create_spec (bytes : Z) :
  kGuestFloor < bytes <= 2 ^ 51 ->
  exists v, create bytes = inl v /\ tables root_only v /\ small root_only v
    /\ room v = 512 /\ (forall a, seen v a = None) /\ ram_bytes v = page_up bytes
    /\ forall a, kGuestFloor <= a -> peek (mem v) a = 0.
Proof.
  intros Hb. change kGuestFloor with 0x200000 in Hb. assert (Hu := up_eq bytes ltac:(lia)).
  assert (Hs : page (page_up bytes) /\ 0x200000 < page_up bytes).
  { rewrite Hu. unfold page. Z.div_mod_to_equations. lia. }
  destruct (built (mkMachine ∅ (page_up bytes) 0)) as (m & Em & Hm & H0 & Hf).
  { apply Hs. } { done. }
  set (v := mkMachine m (page_up bytes) 0). exists v. split.
  { unfold create. change kGuestFloor with 0x200000. zcases. by rewrite Em. }
  assert (E0 : forall t k i, root_only !! t = Some k -> 0 <= i < 512 -> t = 0 /\ k = 3%nat /\ entry v t i = 0).
  { intros t k i [<- <-]%root_lookup Hi. split; [done|]. split; [done|]. apply get64_zero.
    intros x Hx. apply H0. unfold cell in Hx. change kPml4Gpa with 0 in Hx. lia. }
  assert (En : next_table v = page_up bytes) by done.
  assert (Eb : table_arena_base v = page_up bytes - 0x200000).
  { unfold table_arena_base. change kTableArenaSize with 0x200000. cbn [v ram_bytes]. zcases. done. }
  assert (HT : tables root_only v).
  { constructor; rewrite ?En, ?Eb.
    - done.
    - done.
    - split; [apply Hs|]. cbn [v ram_bytes]. lia.
    - apply lookup_singleton_eq.
    - intros t k [<- _]%root_lookup. split; [done|]. change kPml4Gpa with 0. cbn [v ram_bytes]. lia.
    - intros t k [<- <-]%root_lookup. by left.
    - intros t k i Ht Hi. destruct (E0 t (S k) i Ht Hi) as (_ & _ & ->). done.
    - intros t1 k1 i1 t2 k2 i2 c H1 _ Hi _ E _ Hc. destruct (E0 t1 (S k1) i1 H1 Hi) as (_ & _ & Ez).
      rewrite Ez in E. destruct (link_bits c Hc) as (Hp & _). by rewrite <- E in Hp. }
  split; [done|]. split; [intros t k i Ht Hi; destruct (E0 t (S k) i Ht Hi) as (_ & _ & ->); done|].
  split; [unfold room; rewrite En, Eb; Z.div_mod_to_equations; lia|].
  split; [|split; [done|intros a Ha; by rewrite Hf]].
  intros a. destruct (E0 0 3%nat (index a 3) eq_refl (index_range a 3)) as (_ & _ & E).
  apply (absent_hidden _ v a 0 3 HT (reach_root _ _)); [by rewrite E|done].
Qed.

(** ** The reference *)

Lemma walk_level (T : gmap Z nat) (v : Machine) (a : Z) (l : Leaf) :
  tables T v -> small T v -> forall k t w u, reach v a k t -> wk v k t a w u = Some l -> l_level l = O.
Proof.
  intros HT HS. induction k as [|k IH]; intros t w u Hr; assert (Ht := reach_table T v a _ t HT Hr);
    rewrite (walk_at T v _ t a w u HT Ht); cbn zeta; destruct (bit (entry v t _) kPtePresent) eqn:Ep; cbn [negb]; try done.
  - cbn [is_leaf]. by intros [= <-].
  - assert (Eps := HS t k _ Ht (index_range a (S k)) Ep). cbn [is_leaf]. rewrite Eps. cbn [pred].
    destruct (t_link _ _ HT t k _ Ht (index_range a (S k))) as (c & E & Hc); [unfold linked; by rewrite Ep, Eps|].
    assert (page c) by by apply (table_page T v HT c k). rewrite E, link_addr by done.
    apply IH. by eapply reach_down.
Qed.

(** The invariant of a machine that [create] made. *)
Definition ready (v : Machine) : Prop := exists T, tables T v /\ small T v.

(** What a walk returns for an address that sees [s]. *)
Definition walk_to (a : Z) (s : Z * bool * bool * bool) : Walk :=
  let '(p, w, u, _) := s in {| gpa := p; writable := w; user := u; to_page_end := 4096 - a mod 4096 |}.

Lemma mmu_small (T : gmap Z nat) (v : Machine) (a : Z) :
  tables T v -> small T v -> mmu v a = walk_to a <$> seen v a.
Proof.
  intros HT HS. unfold mmu, translate, seen. destruct (canonical a); [|done].
  change (Z.land kPml4Gpa kPteAddrMask) with kPml4Gpa. fold (wk v).
  destruct (wk v 3 kPml4Gpa a true true) as [l|] eqn:E; [|done]. cbn. f_equal.
  apply (walk_level T v a l HT HS) in E; [|constructor]. unfold walk_of, place. rewrite E.
  change (low_mask 0) with (Z.ones 12). by rewrite !Z.land_ones by lia.
Qed.

Lemma walk_page (g : GuestRam) (m : Ram) (a b : Z) :
  a / 4096 = b / 4096 -> forall k t w u, walk g m k t a w u = walk g m k t b w u.
Proof.
  intros Hp. induction k as [|k IH]; intros t w u; cbn [walk]; rewrite (page_indices a b _ Hp);
    destruct (at_table _ _ _); try done; destruct (bit _ kPtePresent); try done.
  destruct (bit _ kPtePageSize); [done|apply IH].
Qed.

(** A page that is seen at one address is seen at all of its addresses. *)
Lemma seen_page (T : gmap Z nat) (v : Machine) (a p : Z) (w u x : bool) :
  tables T v -> small T v -> seen v a = Some (p, w, u, x) ->
  exists q, page q /\ p = q + a mod 4096
    /\ forall b, b / 4096 = a / 4096 -> seen v b = Some (q + b mod 4096, w, u, x).
Proof.
  intros HT HS. unfold seen. destruct (canonical a) eqn:Ca; [|done].
  destruct (wk v 3 kPml4Gpa a true true) as [l|] eqn:E; [|done].
  assert (El := walk_level T v a l HT HS _ _ _ _ (reach_root _ _) E).
  assert (Ep : forall b, place b l = (Z.land (l_entry l) kPteAddrMask + b mod 4096, l_writable l, l_user l,
                 negb (bit (l_entry l) kPteNx))).
  { intros b. unfold place, walk_of. rewrite El. cbn [gpa]. change (low_mask 0) with (Z.ones 12).
    rewrite Z.land_ones, addr_low by lia. done. }
  cbn [fmap option_fmap option_map]. rewrite Ep. intros [= <- <- <- <-]. exists (Z.land (l_entry l) kPteAddrMask).
  split; [apply addr_is_page|]. split; [done|]. intros b Hb.
  rewrite (page_canonical b a Hb), Ca. unfold wk in *. rewrite (walk_page _ _ b a Hb), E.
  cbn [fmap option_fmap option_map]. by rewrite Ep.
Qed.

(** Bytes that belong to no table do not matter. *)
Lemma outside_tables (T : gmap Z nat) (v : Machine) (m : Ram) :
  tables T v -> bytes_ok m ->
  (forall a, 0 <= a < 4096 \/ next_table v <= a -> peek m a = peek (mem v) a) ->
  tables T (with_mem v m) /\ (small T v -> small T (with_mem v m))
  /\ forall a, seen (with_mem v m) a = seen v a.
Proof.
  intros HT Hm Ho. set (v' := with_mem v m).
  assert (E : forall t k i, T !! t = Some k -> 0 <= i < 512 -> entry v' t i = entry v t i).
  { intros t k i Ht Hi. apply get64_ext. intros x Hx. apply Ho. unfold cell in Hx.
    destruct (t_place _ _ HT t k Ht) as [[-> _]|[? _]]; [left|right]; unfold kPml4Gpa in *; lia. }
  assert (HT' : tables T v').
  { destruct HT as [H1 H2 H3 H4 H5 H6 H7 H8]. constructor; try done.
    - intros t k i Ht Hi. rewrite (E t _ i Ht Hi). by apply H7.
    - intros t1 k1 i1 t2 k2 i2 c Ht1 Ht2 Hi1 Hi2. rewrite (E t1 _ i1 Ht1 Hi1), (E t2 _ i2 Ht2 Hi2). by eapply H8. }
  split; [done|]. split; [intros HS t k i Ht Hi; rewrite (E t _ i Ht Hi); by apply (HS t k)|].
  intros a. unfold seen. destruct (canonical a); [|done]. f_equal.
  apply (walk_change (fun _ l1 l2 => l1 = l2) T T v v' kPml4Gpa 3 (-1)); try done.
  - apply (t_root _ _ HT).
  - intros t k i Ht Hi _. by apply (E t k).
  - intros b w u _ Hi. pose proof (index_range b 3). lia.
  - constructor.
Qed.

Definition flat_seen (f : Flat) (a : Z) : option (Z * bool * bool * bool) :=
  '(p, w, x) ← f !! (a / 4096); Some (p + a mod 4096, w, true, x).

Record models (v : Machine) (f : Flat) (T : gmap Z nat) : Prop := {
  m_tables : tables T v;
  m_small : small T v;
  m_seen : forall a, is_u64 a -> seen v a = flat_seen f a
}.

Lemma models_mmu (v : Machine) (f : Flat) (T : gmap Z nat) (a : Z) :
  models v f T -> is_u64 a -> mmu v a = flat_at f a.
Proof.
  intros [HT HS H] Ha. rewrite (mmu_small T v a HT HS), (H a Ha). unfold flat_seen, flat_at.
  by destruct (f !! _) as [[[p w] x]|].
Qed.

Lemma page_u64 (a : Z) : is_u64 a -> is_u64 (a / 4096 * 4096).
Proof. unfold is_u64. Z.div_mod_to_equations. lia. Qed.

Lemma exec_models (c : Cmd) (v : Machine) (f : Flat) (T : gmap Z nat) :
  cmd_ok c -> models v f T ->
  exists d v' T', exec c v = (d, v') /\ models v' (flat_step c d f) T'
    /\ room v - 3 <= room v' /\ ram_bytes v' = ram_bytes v /\ (3 <= room v -> d = true)
    /\ forall a, 4096 <= a < table_arena_base v -> peek (mem v') a = peek (mem v) a.
Proof.
  intros Hc [HT HS Hf]. destruct c as [gva gp w x|gva]; cbn [exec cmd_ok] in *.
  - destruct Hc as (Hg & Cg & Hp). unfold map_page_at. rewrite !down_eq by (done || lia).
    set (g := gva / 4096 * 4096). assert (Eg : g / 4096 = gva / 4096) by (by apply Z.div_mul).
    assert (Hu : is_u64 g) by (by apply page_u64).
    destruct (map_one_spec T v g (gp / 4096 * 4096) w x HT) as (T' & v' & [[-> P]|(-> & R & R' & G)]); [done| | |].
    + by rewrite (page_canonical g gva).
    + destruct P as [P1 P2 P3 P4 P5 P6]. exists true, v', T'. split; [done|]. split; [|done].
      constructor; [done|by apply P5|]. intros a Ha. rewrite P2 by done. rewrite Eg, addr_page.
      2:{ unfold page. Z.div_mod_to_equations. lia. }
      unfold flat_seen. cbn [flat_step]. destruct (decide _) as [-> |Hne]; [by rewrite lookup_insert_eq|].
      rewrite lookup_insert_ne by done. by apply Hf.
    + exists false, v', T'. split; [done|]. split; [|split; [done|split; [apply (g_bytes _ _ _ _ G)|]]].
      * constructor; [apply (g_tables _ _ _ _ G)|by apply (g_small _ _ _ _ G)|].
        intros a Ha. rewrite (g_seen _ _ _ _ G). by apply Hf.
      * split; [lia|apply (g_mem _ _ _ _ G)].
  - destruct Hc as (Hg & Cg). destruct (unmap_spec T v gva HT HS Hg Cg) as [P1 P2 P3 P4 P5 P6].
    eexists true, _, T. split; [done|]. split; [|done]. constructor; [done|by apply P5|]. intros a Ha.
    rewrite P2 by done. unfold flat_seen. cbn [flat_step]. destruct (decide _) as [-> |Hne]; [by rewrite lookup_delete_eq|].
    rewrite lookup_delete_ne by done. by apply Hf.
Qed.

Lemma run_models (cs : list Cmd) : forall v f T, Forall cmd_ok cs -> models v f T ->
  exists ds v' f' T', run cs v f = (ds, v', f') /\ models v' f' T'
    /\ (3 * Z.of_nat (length cs) <= room v -> Forall (eq true) ds)
    /\ forall a, 4096 <= a < table_arena_base v -> peek (mem v') a = peek (mem v) a.
Proof.
  induction cs as [|c cs IH]; intros v f T Hc HM; cbn [run]; [by eexists _, _, _, T|].
  apply Forall_cons in Hc as [Hc Hcs].
  destruct (exec_models c v f T Hc HM) as (d & v1 & T1 & -> & M1 & R1 & B1 & D1 & P1).
  destruct (IH v1 _ T1 Hcs M1) as (ds & v' & f' & T' & -> & M' & D' & P').
  eexists _, _, _, T'. split; [done|]. split; [done|]. split.
  - cbn [length]. intros H. constructor; [symmetry; apply D1; lia|apply D'; lia].
  - intros a Ha. rewrite P' by by rewrite (arena_same v v1 B1). by apply P1.
Qed.

Lemma create_ready (bytes : Z) (v : Machine) : kGuestFloor < bytes <= 2 ^ 51 -> create bytes = inl v -> ready v.
Proof. intros Hb E. destruct (create_spec bytes Hb) as (v0 & E0 & HT & HS & _). replace v with v0 by congruence. by exists root_only. Qed.

(** * Theorems *)

(** C16. Whatever sequence of page mappings and unmappings a fresh machine is
    given, the four-level tables it builds in guest RAM are walked to exactly
    what a flat map from pages to frames says: every mapped page has its
    frame, its write permission and its own rest of the page, every other
    address faults, and a mapping that could not get a table page changed
    nothing.  Up to 170 mappings always succeed, and no byte of RAM outside
    the tables is touched. *)
Theorem tables_refine_flat_map (bytes : Z) (cs : list Cmd) :
  kGuestFloor < bytes <= 2 ^ 51 -> Forall cmd_ok cs ->
  exists v0 ds v f, create bytes = inl v0 /\ run cs v0 ∅ = (ds, v, f)
    /\ (forall a, is_u64 a -> mmu v a = flat_at f a)
    /\ ((length cs <= 170)%nat -> Forall (eq true) ds)
    /\ (forall a, kGuestFloor <= a < page_up bytes - kTableArenaSize -> peek (mem v) a = 0).
Proof.
  intros Hb Hc. destruct (create_spec bytes Hb) as (v0 & E0 & HT & HS & HR & Hn & HB & HZ).
  destruct (run_models cs v0 ∅ root_only Hc) as (ds & v & f & T & E & HM & HD & HP).
  { constructor; [done|done|]. intros a _. by rewrite Hn. }
  exists v0, ds, v, f. split; [done|]. split; [done|]. split; [intros a Ha; by eapply models_mmu|].
  split; [intros; apply HD; lia|]. intros a Ha. change kGuestFloor with 0x200000 in *. rewrite HP; [by apply HZ; lia|].
  unfold table_arena_base. rewrite HB. change kTableArenaSize with 0x200000 in *. zcases; lia.
Qed.

(** * Witnesses *)

Lemma tables_refine_flat_map_witness :
  exists v0 ds v f, create 0x800000 = inl v0
    /\ run [MapAt 0x400123 0x300000 true false; MapAt 0x7fffff000 0x301fff false true; Unmap 0x400000] v0 ∅ = (ds, v, f)
    /\ (forall a, is_u64 a -> mmu v a = flat_at f a).
Proof.
  destruct (tables_refine_flat_map 0x800000
    [MapAt 0x400123 0x300000 true false; MapAt 0x7fffff000 0x301fff false true; Unmap 0x400000])
    as (v0 & ds & v & f & E0 & E & H & _).
  - change kGuestFloor with 0x200000. lia.
  - repeat constructor; cbn; unfold is_u64; try lia; reflexivity.
  - by exists v0, ds, v, f.
Defined.

End PageTables.
