(* ===== verification/GuestView.v ===== *)
(** The guest memory accessor of the Windows backend
    ([runtime/windows/mem.hpp], [GuestMemView]): reads and writes of virtual
    addresses that walk the page tables once per page and move the bytes of a
    page at a time.  The specification is one translation per byte. *)
From S2P Require Import Prelude Abi GuestMem PageTables.

Module GuestView.

Import Abi PageTables.

(** ** Operations *)

(** A window inside one leaf page. *)
Definition view_at (v : Machine) (gva n : Z) : option (Z * Z) :=
  match mmu v gva with
  | None => None
  | Some w => if to_page_end w <? n then None else at_ (ram v) (gpa w) n
  end.

(** The loops run until [n] bytes are done; every round that goes on moves at
    least one, so [n] rounds are enough. *)
Fixpoint copy_in_loop (fuel : nat) (v : Machine) (gva n done_ : Z) (dst : list Z) : list Z :=
  match fuel with
  | O => dst
  | S fuel' =>
      if done_ <? n then
        match mmu v (u64 (gva + done_)) with
        | None => dst
        | Some w =>
            let chunk := Z.min (n - done_) (to_page_end w) in
            match at_ (ram v) (gpa w) chunk with
            | None => dst
            | Some (p, k) => copy_in_loop fuel' v gva n (done_ + chunk) (dst ++ load (mem v) p (Z.to_nat k))
            end
        end
      else dst
  end.

(** The bytes transferred; their number is what the code returns. *)
Definition copy_in (v : Machine) (gva n : Z) : list Z := copy_in_loop (Z.to_nat n) v gva n 0 [].

Fixpoint copy_out_loop (fuel : nat) (v : Machine) (gva : Z) (src : list Z) (done_ : Z) : Z * Machine :=
  match fuel with
  | O => (done_, v)
  | S fuel' =>
      let size := Z.of_nat (length src) in
      if done_ <? size then
        match mmu v (u64 (gva + done_)) with
        | None => (done_, v)
        | Some w =>
            if negb (writable w) then (done_, v)
            else
              let chunk := Z.min (size - done_) (to_page_end w) in
              match at_ (ram v) (gpa w) chunk with
              | None => (done_, v)
              | Some (p, k) =>
                  let bs := take (Z.to_nat k) (drop (Z.to_nat done_) src) in
                  copy_out_loop fuel' (with_mem v (store (mem v) p bs)) gva src (done_ + chunk)
              end
        end
      else (done_, v)
  end.

Definition copy_out (v : Machine) (gva : Z) (src : list Z) : Z * Machine :=
  copy_out_loop (length src) v gva src 0.

(** [strnlen], and the bytes before the terminator. *)
Fixpoint until_nul (bs : list Z) : list Z :=
  match bs with
  | [] => []
  | b :: bs' => if b =? 0 then [] else b :: until_nul bs'
  end.

Fixpoint cstr_loop (fuel : nat) (v : Machine) (gva limit : Z) (out : list Z) : list Z :=
  match fuel with
  | O => out
  | S fuel' =>
      let size := Z.of_nat (length out) in
      if size <? limit then
        match mmu v (u64 (gva + size)) with
        | None => out
        | Some w =>
            let chunk := Z.min (limit - size) (to_page_end w) in
            match at_ (ram v) (gpa w) chunk with
            | None => out
            | Some (p, k) =>
                let s := until_nul (load (mem v) p (Z.to_nat k)) in
                if Z.of_nat (length s) <? k then out ++ s
                else cstr_loop fuel' v gva limit (out ++ s)
            end
        end
      else out
  end.

Definition cstr (v : Machine) (gva limit : Z) : list Z := cstr_loop (Z.to_nat limit) v gva limit [].

(** Typed transfers: all of the object's bytes or a failure. *)
Definition put (v : Machine) (gva : Z) (bs : list Z) : bool * Machine :=
  let '(n, v) := copy_out v gva bs in (n =? Z.of_nat (length bs), v).

Definition get (v : Machine) (gva n : Z) : option (list Z) :=
  let bs := copy_in v gva n in
  if Z.of_nat (length bs) =? n then Some bs else None.

(** ** Specification: a byte at a time *)

(** The byte at a virtual address. *)
Definition fetch (v : Machine) (a : Z) : option Z :=
  match mmu v a with
  | Some w => if permits (ram v) (gpa w) 1 then Some (peek (mem v) (gpa w)) else None
  | None => None
  end.

Fixpoint read_bytes (v : Machine) (a : Z) (n : nat) : list Z :=
  match n with
  | O => []
  | S n' => match fetch v (u64 a) with
            | Some b => b :: read_bytes v (a + 1) n'
            | None => []
            end
  end.

(** Where a byte would be written. *)
Definition target (v : Machine) (a : Z) : option Z :=
  match mmu v a with
  | Some w => if writable w && permits (ram v) (gpa w) 1 then Some (gpa w) else None
  | None => None
  end.

Fixpoint write_bytes (v : Machine) (m : Ram) (a : Z) (bs : list Z) : Z * Ram :=
  match bs with
  | [] => (0, m)
  | b :: bs' =>
      match target v (u64 a) with
      | None => (0, m)
      | Some p => let '(n, m) := write_bytes v (<[p := b]> m) (a + 1) bs' in (1 + n, m)
      end
  end.

(** * Lemmas *)

(** ** RAM *)

Lemma store_insert (m : Ram) (x b a : Z) (bs : list Z) :
  x < a -> store (<[x := b]> m) a bs = <[x := b]> (store m a bs).
Proof.
  revert a. induction bs as [|c bs IH]; intros a Hx; cbn [store]; [done|].
  rewrite IH by lia. apply insert_insert_ne. lia.
Qed.

Lemma store_nil (m : Ram) (a : Z) : store m a [] = m.
Proof. done. Qed.

Lemma store_cons (m : Ram) (a b : Z) (bs : list Z) : store m a (b :: bs) = store (<[a := b]> m) (a + 1) bs.
Proof. rewrite store_insert by lia. done. Qed.

Lemma load_cons (m : Ram) (a : Z) (n : nat) : load m a (S n) = peek m a :: load m (a + 1) n.
Proof. unfold load. rewrite Nat2Z.inj_succ, seqZ_cons by lia. cbn. do 2 f_equal. f_equal; lia. Qed.

#[local] Opaque store load.

(** ** One page *)

Section page.
Context (T : gmap Z nat) (v : Machine) (HT : tables T v) (HS : small T v).

(** The window a walk opens: the rest of the page, all of it alike. *)
Lemma window (a : Z) (w : Walk) :
  is_u64 a -> mmu v a = Some w ->
  to_page_end w = 4096 - a mod 4096
  /\ (forall i, 0 <= i < to_page_end w ->
        mmu v (a + i) = Some {| gpa := gpa w + i; writable := writable w; user := user w; to_page_end := to_page_end w - i |})
  /\ (forall n, 1 <= n <= to_page_end w -> permits (ram v) (gpa w) n = permits (ram v) (gpa w) 1)
  /\ (forall i, 0 <= i < to_page_end w -> permits (ram v) (gpa w + i) 1 = permits (ram v) (gpa w) 1).
Proof.
  intros Ha. rewrite (mmu_small T v a HT HS). destruct (seen v a) as [[[[p wr] u] x]|] eqn:Es; [|done].
  cbn. intros [= <-]. cbn [gpa writable user to_page_end].
  destruct (seen_page T v a p wr u x HT HS Es) as (q & [Hq Hq4] & -> & Hsame).
  destruct (t_size _ _ HT) as [[_ Hr4] _]. split; [done|].
  assert (Hm : forall i, 0 <= i < 4096 - a mod 4096 -> (a + i) / 4096 = a / 4096 /\ (a + i) mod 4096 = a mod 4096 + i).
  { intros i. Z.div_mod_to_equations. lia. }
  split; [|unfold permits, ram; cbn [ram_size ram_floor]; change kGuestFloor with 0x200000; split].
  - intros i Hi. destruct (Hm i Hi) as [Hd Hmod]. rewrite (mmu_small T v _ HT HS), (Hsame _ Hd), Hmod. cbn.
    rewrite Hmod. do 2 f_equal; lia.
  - intros n Hn. revert Hq4 Hr4. Z.div_mod_to_equations. intros. zcases; lia.
  - intros i Hi. revert Hq4 Hr4. Z.div_mod_to_equations. intros. zcases; lia.
Qed.

Lemma u64_page (A i : Z) : 0 <= i < 4096 - u64 A mod 4096 -> u64 (A + i) = u64 A + i.
Proof. unfold u64. intros. Z.div_mod_to_equations. lia. Qed.

(** ** Reading *)

Lemma fetch_at (A i : Z) (w : Walk) :
  mmu v (u64 A) = Some w -> 0 <= i < to_page_end w ->
  fetch v (u64 (A + i)) = if permits (ram v) (gpa w) 1 then Some (peek (mem v) (gpa w + i)) else None.
Proof.
  intros Hw Hi. destruct (window (u64 A) w (u64_range A) Hw) as (He & Hm & _ & Hp).
  rewrite u64_page by lia. unfold fetch. rewrite (Hm i Hi). cbn [gpa]. by rewrite Hp.
Qed.

Lemma bytes_app (A : Z) (n k : nat) :
  (forall i, 0 <= i < Z.of_nat n -> is_Some (fetch v (u64 (A + i)))) ->
  read_bytes v A (n + k) = read_bytes v A n ++ read_bytes v (A + Z.of_nat n) k.
Proof.
  revert A. induction n as [|n IH]; intros A H; cbn [read_bytes Nat.add app].
  - by rewrite Z.add_0_r.
  - destruct (H 0) as [b Hb]; [lia|]. rewrite Z.add_0_r in Hb. rewrite Hb. cbn [app]. f_equal. rewrite IH.
    + do 2 f_equal. lia.
    + intros i Hi. replace (A + 1 + i) with (A + (1 + i)) by lia. apply H. lia.
Qed.

Lemma read_load (A p : Z) (n : nat) :
  (forall i, 0 <= i < Z.of_nat n -> fetch v (u64 (A + i)) = Some (peek (mem v) (p + i))) ->
  read_bytes v A n = load (mem v) p n.
Proof.
  revert A p. induction n as [|n IH]; intros A p H; cbn [read_bytes]; [done|].
  rewrite load_cons, <- (Z.add_0_r A), H by lia. rewrite !Z.add_0_r. f_equal. apply IH. intros i Hi.
  replace (A + 1 + i) with (A + (1 + i)) by lia. rewrite H by lia. do 2 f_equal. lia.
Qed.

(** What one round of the loops reads: nothing, or a part of a page. *)
Lemma round (A : Z) (n : nat) :
  (0 < n)%nat ->
  match mmu v (u64 A) with
  | None => read_bytes v A n = []
  | Some w =>
      let chunk := Z.min (Z.of_nat n) (to_page_end w) in
      0 < chunk /\
      match at_ (ram v) (gpa w) chunk with
      | None => read_bytes v A n = []
      | Some (p, k) =>
          p = gpa w /\ k = chunk
          /\ read_bytes v A n = load (mem v) p (Z.to_nat k) ++ read_bytes v (A + k) (n - Z.to_nat k)
      end
  end.
Proof.
  intros Hn. destruct n as [|n]; [lia|]. destruct (mmu v (u64 A)) as [w|] eqn:Hw.
  2:{ cbn [read_bytes]. unfold fetch. by rewrite Hw. }
  destruct (window (u64 A) w (u64_range A) Hw) as (He & _ & Hn1 & _).
  assert (0 <= u64 A mod 4096 < 4096) by by apply Z.mod_pos_bound.
  set (chunk := Z.min _ _). cbn zeta. split; [lia|]. unfold at_, span. rewrite Hn1 by lia.
  assert (Hf := fun i => fetch_at A i w Hw). destruct (permits (ram v) (gpa w) 1).
  - zcases. split; [done|]. split; [done|].
    replace (S n) with (Z.to_nat chunk + (S n - Z.to_nat chunk))%nat at 1 by lia.
    rewrite bytes_app by (intros i Hi; rewrite Hf by lia; done). f_equal.
    + apply read_load. intros i Hi. apply Hf. lia.
    + f_equal. lia.
  - cbn [read_bytes]. specialize (Hf 0). rewrite Z.add_0_r in Hf. rewrite Hf by lia. done.
Qed.

Lemma copy_in_loop_spec (gva n : Z) (fuel : nat) : forall done_ dst,
  0 <= done_ <= n -> n - done_ <= Z.of_nat fuel ->
  copy_in_loop fuel v gva n done_ dst = dst ++ read_bytes v (gva + done_) (Z.to_nat (n - done_)).
Proof.
  induction fuel as [|fuel IH]; intros d dst Hd Hf; cbn [copy_in_loop].
  { replace (n - d) with 0 by lia. by rewrite app_nil_r. }
  zcases. 2:{ replace (n - d) with 0 by lia. by rewrite app_nil_r. }
  assert (R := round (gva + d) (Z.to_nat (n - d)) ltac:(lia)).
  destruct (mmu v (u64 (gva + d))) as [w|]; [|by rewrite R, app_nil_r].
  rewrite Z2Nat.id in R by lia. destruct R as [H0 R].
  destruct (at_ _ _ _) as [[p k]|]; [|by rewrite R, app_nil_r]. destruct R as (-> & -> & ->).
  rewrite IH by lia. rewrite <- app_assoc. do 3 f_equal; lia.
Qed.

Lemma view_in_spec (gva n : Z) : 0 <= n -> copy_in v gva n = read_bytes v gva (Z.to_nat n).
Proof. intros Hn. unfold copy_in. rewrite copy_in_loop_spec by lia. cbn. f_equal; lia. Qed.

(** ** Strings *)

Lemma nul_app (xs ys : list Z) :
  until_nul (xs ++ ys) = if (length (until_nul xs) <? length xs)%nat then until_nul xs else xs ++ until_nul ys.
Proof.
  induction xs as [|b xs IH]; cbn [app until_nul length]; [done|].
  destruct (b =? 0); [done|]. rewrite IH. cbn [length].
  change (S (length (until_nul xs)) <? S (length xs))%nat with (length (until_nul xs) <? length xs)%nat.
  by destruct (_ <? _)%nat.
Qed.

Lemma until_nul_full (xs : list Z) : (length xs <= length (until_nul xs))%nat -> until_nul xs = xs.
Proof. induction xs as [|b xs IH]; cbn; [done|]. destruct (b =? 0); cbn; [lia|]. intros H. rewrite IH; [done|lia]. Qed.

Lemma ram_load_length (m : Ram) (a : Z) (n : nat) : length (load m a n) = n.
Proof. revert a. induction n; intros a; [done|]. rewrite load_cons. cbn. by rewrite IHn. Qed.

Lemma cstr_loop_spec (gva limit : Z) (fuel : nat) : forall out,
  Z.of_nat (length out) <= limit -> limit - Z.of_nat (length out) <= Z.of_nat fuel ->
  cstr_loop fuel v gva limit out
  = out ++ until_nul (read_bytes v (gva + Z.of_nat (length out)) (Z.to_nat (limit - Z.of_nat (length out)))).
Proof.
  induction fuel as [|fuel IH]; intros out Hd Hf; cbn [cstr_loop]; set (d := Z.of_nat (length out)) in *.
  { replace (limit - d) with 0 by lia. by rewrite app_nil_r. }
  zcases. 2:{ replace (limit - d) with 0 by lia. by rewrite app_nil_r. }
  assert (R := round (gva + d) (Z.to_nat (limit - d)) ltac:(lia)).
  destruct (mmu v (u64 (gva + d))) as [w|]; [|by rewrite R, app_nil_r].
  rewrite Z2Nat.id in R by lia. destruct R as [H0 R].
  destruct (at_ _ _ _) as [[p k]|]; [|by rewrite R, app_nil_r]. destruct R as (-> & -> & ->).
  set (chunk := Z.min _ _) in *. rewrite nul_app, ram_load_length.
  set (s := until_nul (load _ _ _)). zcases.
  - by rewrite (proj2 (Nat.ltb_lt _ _)) by lia.
  - rewrite (proj2 (Nat.ltb_ge _ _)) by lia.
    assert (Es : s = load (mem v) (gpa w) (Z.to_nat chunk)) by (apply until_nul_full; fold s; rewrite ram_load_length; lia).
    assert (El : length (out ++ s) = (length out + Z.to_nat chunk)%nat) by by rewrite length_app, Es, ram_load_length.
    rewrite IH by (rewrite El; lia). rewrite El, <- app_assoc, Es. do 4 f_equal; lia.
Qed.

Lemma cstr_spec (gva limit : Z) : 0 <= limit -> cstr v gva limit = until_nul (copy_in v gva limit).
Proof.
  intros Hn. unfold cstr. rewrite cstr_loop_spec, view_in_spec by (cbn; lia). cbn. do 2 f_equal; lia.
Qed.

(** ** Writing *)

(** No page the guest may write holds a table. *)
Definition guarded : Prop := forall a w, is_u64 a -> mmu v a = Some w -> writable w = true -> gpa w < table_arena_base v.

(** Memories that agree on the tables. *)
Definition same_tables (m : Ram) : Prop :=
  bytes_ok m /\ forall a, 0 <= a < 4096 \/ next_table v <= a -> peek m a = peek (mem v) a.

Lemma same_mmu (m : Ram) (a : Z) : same_tables m -> mmu (with_mem v m) a = mmu v a.
Proof.
  intros [Hb Ho]. destruct (outside_tables T v m HT Hb Ho) as (HT' & HS' & Hs).
  rewrite (mmu_small T _ a HT' (HS' HS)), (mmu_small T v a HT HS). by rewrite Hs.
Qed.

Lemma same_insert (m : Ram) (a p b : Z) :
  guarded -> is_u64 a -> same_tables m -> is_byte b -> target v a = Some p -> same_tables (<[p := b]> m).
Proof.
  intros HG Ha [Hb Ho] Hby. unfold target. destruct (mmu v a) as [w|] eqn:Hw; [|done].
  destruct (writable w) eqn:Ew; [|done]. cbn [andb]. destruct (permits _ _ _) eqn:Ep; [|done]. intros [= <-].
  specialize (HG a w Ha Hw Ew). destruct (t_next _ _ HT) as [_ Hn].
  assert (0x200000 <= gpa w).
  { revert Ep. unfold permits, ram. cbn [ram_size ram_floor]. change kGuestFloor with 0x200000. zcases; done. }
  assert (Hpk : forall x, peek (<[gpa w := b]> m) x = if decide (x = gpa w) then b else peek m x).
  { intros x. unfold peek. destruct (decide (x = gpa w)) as [-> |]; [by rewrite lookup_insert_eq|].
    by rewrite lookup_insert_ne. }
  split; intros x; rewrite Hpk; destruct (decide (x = gpa w)) as [-> |]; try done; [lia|]. apply Ho.
Qed.

Lemma write_same (bs : list Z) : forall m A,
  guarded -> Forall is_byte bs -> same_tables m -> same_tables (write_bytes v m A bs).2.
Proof.
  induction bs as [|b bs IH]; intros m A HG Hb Hm; cbn [write_bytes]; [done|].
  apply Forall_cons in Hb as [Hb Hbs]. destruct (target v (u64 A)) as [p|] eqn:Ht; [|done].
  specialize (IH (<[p := b]> m) (A + 1) HG Hbs). destruct (write_bytes _ _ _ bs). cbn [snd] in *. apply IH.
  apply (same_insert m (u64 A)); [done|apply u64_range|done|done|done].
Qed.

Lemma write_app (bs cs : list Z) : forall m A p,
  (forall i, 0 <= i < Z.of_nat (length bs) -> target v (u64 (A + i)) = Some (p + i)) ->
  write_bytes v m A (bs ++ cs)
  = let '(n, m) := write_bytes v (store m p bs) (A + Z.of_nat (length bs)) cs in (Z.of_nat (length bs) + n, m).
Proof.
  induction bs as [|b bs IH]; intros m A p H; cbn [app length write_bytes].
  - rewrite Z.add_0_r, store_nil. by destruct (write_bytes v m A cs).
  - assert (H0 := H 0 ltac:(cbn [length]; lia)). rewrite !Z.add_0_r in H0. rewrite H0, store_cons.
    rewrite (IH (<[p := b]> m) (A + 1) (p + 1)).
    + replace (A + 1 + Z.of_nat (length bs)) with (A + Z.of_nat (S (length bs))) by lia.
      destruct (write_bytes _ _ _ cs) as [n m']. f_equal. lia.
    + intros i Hi. replace (A + 1 + i) with (A + (1 + i)) by lia. rewrite H by (cbn [length]; lia). f_equal. lia.
Qed.

Lemma target_at (A i : Z) (w : Walk) :
  mmu v (u64 A) = Some w -> 0 <= i < to_page_end w ->
  target v (u64 (A + i)) = if writable w && permits (ram v) (gpa w) 1 then Some (gpa w + i) else None.
Proof.
  intros Hw Hi. destruct (window (u64 A) w (u64_range A) Hw) as (He & Hm & _ & Hp).
  rewrite u64_page by lia. unfold target. rewrite (Hm i Hi). cbn [gpa writable]. by rewrite Hp.
Qed.

Lemma write_refused (m : Ram) (A : Z) (bs : list Z) : target v (u64 A) = None -> write_bytes v m A bs = (0, m).
Proof. destruct bs; [done|]. cbn [write_bytes]. by intros ->. Qed.

Lemma copy_out_loop_spec (gva : Z) (src : list Z) (fuel : nat) : forall m d,
  guarded -> Forall is_byte src -> same_tables m ->
  0 <= d <= Z.of_nat (length src) -> Z.of_nat (length src) - d <= Z.of_nat fuel ->
  copy_out_loop fuel (with_mem v m) gva src d
  = let '(n, m') := write_bytes v m (gva + d) (drop (Z.to_nat d) src) in (d + n, with_mem v m').
Proof.
  induction fuel as [|fuel IH]; intros m d HG Hb Hm Hd Hf; cbn [copy_out_loop].
  { rewrite drop_ge by lia. cbn. f_equal. lia. }
  zcases. 2:{ rewrite drop_ge by lia. cbn. f_equal. lia. }
  rewrite (same_mmu m _ Hm).
  destruct (mmu v (u64 (gva + d))) as [w|] eqn:Hw.
  2:{ rewrite write_refused; [by rewrite Z.add_0_r|]. unfold target. by rewrite Hw. }
  destruct (window _ w (u64_range _) Hw) as (He & _ & Hn1 & _). assert (Ht := fun i => target_at (gva + d) i w Hw).
  assert (0 <= u64 (gva + d) mod 4096 < 4096) by by apply Z.mod_pos_bound.
  assert (Ht0 := Ht 0 ltac:(lia)). rewrite !Z.add_0_r in Ht0.
  destruct (writable w); cbn [negb andb] in *; [|by rewrite write_refused, Z.add_0_r].
  set (chunk := Z.min _ _). unfold at_, span. change (ram (with_mem v m)) with (ram v). rewrite Hn1 by lia.
  destruct (permits (ram v) (gpa w) 1); [|by rewrite write_refused, Z.add_0_r].
  zcases. rewrite <- (take_drop (Z.to_nat chunk) (drop (Z.to_nat d) src)) at 2.
  set (bs := take _ _). assert (El : Z.of_nat (length bs) = chunk).
  { unfold bs. rewrite length_take, length_drop. lia. }
  assert (Hall : forall i, 0 <= i < Z.of_nat (length bs) -> target v (u64 (gva + d + i)) = Some (gpa w + i)).
  { intros i Hi. apply Ht. lia. }
  rewrite (write_app bs _ m _ (gpa w) Hall).
  change (with_mem (with_mem v m) (store (mem (with_mem v m)) (gpa w) bs)) with (with_mem v (store m (gpa w) bs)).
  rewrite IH; [|done|done| |lia|lia].
  - rewrite El, drop_drop. replace (Z.to_nat d + Z.to_nat chunk)%nat with (Z.to_nat (d + chunk)) by lia.
    rewrite Z.add_assoc. destruct (write_bytes _ _ _ _). f_equal. lia.
  - assert (W := write_same bs m (gva + d) HG). assert (E := write_app bs [] m (gva + d) (gpa w) Hall).
    rewrite app_nil_r in E. rewrite E in W. apply W; [|done]. by apply Forall_take, Forall_drop.
Qed.

Lemma with_mem_self : with_mem v (mem v) = v.
Proof. by destruct v. Qed.

Lemma view_out_spec (gva : Z) (src : list Z) :
  guarded -> Forall is_byte src ->
  copy_out v gva src = let '(n, m) := write_bytes v (mem v) gva src in (n, with_mem v m).
Proof.
  intros HG Hb. unfold copy_out. rewrite <- with_mem_self at 1.
  rewrite copy_out_loop_spec; [|done|done|split; [apply (t_bytes _ _ HT)|done]|lia|lia].
  cbn [Z.to_nat drop]. by rewrite Z.add_0_r.
Qed.

(** ** Reading back *)

Lemma write_all (bs : list Z) : forall m A,
  (write_bytes v m A bs).1 <= Z.of_nat (length bs)
  /\ ((write_bytes v m A bs).1 = Z.of_nat (length bs) ->
      forall i, 0 <= i < Z.of_nat (length bs) -> is_Some (target v (u64 (A + i)))).
Proof.
  induction bs as [|b bs IH]; intros m A; cbn [write_bytes length fst]; [split; [done|lia]|].
  destruct (target v (u64 A)) as [p|] eqn:Ht; cbn [fst]; [|split; [lia|lia]].
  destruct (IH (<[p := b]> m) (A + 1)) as [Hle Hall]. destruct (write_bytes _ _ _ bs) as [n m']. cbn [fst] in *.
  split; [lia|]. intros Hn i Hi. destruct (decide (i = 0)) as [-> |]; [by rewrite Z.add_0_r, Ht|].
  replace (A + i) with (A + 1 + (i - 1)) by lia. apply Hall; lia.
Qed.

Lemma bytes_keep (x : Z) (bs : list Z) : forall m A,
  (forall i, 0 <= i < Z.of_nat (length bs) -> target v (u64 (A + i)) <> Some x) ->
  peek (write_bytes v m A bs).2 x = peek m x.
Proof.
  induction bs as [|b bs IH]; intros m A H; cbn [write_bytes]; [done|].
  destruct (target v (u64 A)) as [p|] eqn:Ht; [|done].
  assert (Hx : p <> x). { intros ->. apply (H 0); [cbn [length]; lia|by rewrite Z.add_0_r]. }
  specialize (IH (<[p := b]> m) (A + 1)). destruct (write_bytes _ _ _ bs) as [n m']. cbn [snd] in *. rewrite IH.
  - unfold peek. by rewrite lookup_insert_ne.
  - intros i Hi. replace (A + 1 + i) with (A + (1 + i)) by lia. apply H. cbn [length]. lia.
Qed.

(** The bytes of a range lie at different places. *)
Definition apart (A n : Z) : Prop :=
  forall i j, 0 <= i < j -> j < n -> target v (u64 (A + i)) <> target v (u64 (A + j)).

Lemma bytes_back (bs : list Z) : forall m A,
  apart A (Z.of_nat (length bs)) -> (write_bytes v m A bs).1 = Z.of_nat (length bs) ->
  forall i b, bs !! i = Some b ->
    exists p, target v (u64 (A + Z.of_nat i)) = Some p /\ peek (write_bytes v m A bs).2 p = b.
Proof.
  induction bs as [|c bs IH]; intros m A Hd Hn i b Hi; [done|].
  assert (Hs := proj2 (write_all (c :: bs) m A) Hn). cbn [write_bytes length] in *.
  destruct (target v (u64 A)) as [p|] eqn:Ht; cbn [fst] in Hn; [|lia].
  assert (K := bytes_keep p bs (<[p := c]> m) (A + 1)). specialize (IH (<[p := c]> m) (A + 1)).
  destruct (write_bytes _ _ _ bs) as [n m']. cbn [fst snd] in *.
  destruct i as [|i]; cbn in Hi.
  - injection Hi as <-. exists p. split; [by rewrite Z.add_0_r|]. rewrite K; [unfold peek; by rewrite lookup_insert_eq|].
    intros j Hj E. apply (Hd 0 (1 + j)); [lia|lia|]. rewrite Z.add_0_r, Ht. by rewrite Z.add_assoc.
  - replace (A + Z.of_nat (S i)) with (A + 1 + Z.of_nat i) by lia. apply IH; [|lia|done].
    intros i1 j1 H1 H2. replace (A + 1 + i1) with (A + (1 + i1)) by lia. replace (A + 1 + j1) with (A + (1 + j1)) by lia.
    apply Hd; lia.
Qed.

Lemma fetch_target (m : Ram) (a p : Z) :
  same_tables m -> target v a = Some p -> fetch (with_mem v m) a = Some (peek m p).
Proof.
  intros Hm. unfold target, fetch. rewrite (same_mmu m a Hm). change (ram (with_mem v m)) with (ram v).
  destruct (mmu v a) as [w|]; [|done]. destruct (writable w); [|done]. cbn [andb].
  destruct (permits _ _ _); [|done]. by intros [= <-].
Qed.

End page.

(** [read_bytes] is determined by its fetches. *)
Lemma read_list (v : Machine) (bs : list Z) : forall A,
  (forall i b, bs !! i = Some b -> fetch v (u64 (A + Z.of_nat i)) = Some b) -> read_bytes v A (length bs) = bs.
Proof.
  induction bs as [|b bs IH]; intros A H; cbn [length read_bytes]; [done|].
  assert (H0 := H 0%nat b eq_refl). rewrite Z.add_0_r in H0. rewrite H0. f_equal. apply IH. intros i c Hi.
  replace (A + 1 + Z.of_nat i) with (A + Z.of_nat (S i)) by lia. by apply H.
Qed.

(** * Theorems *)

(** The page-at-a-time transfers are byte-at-a-time transfers: on a
    machine whose tables the runtime built, reading a guest range returns the
    bytes its addresses translate to one by one, up to the first that is not
    mapped, and a string read is that same range up to its first zero. *)
Theorem reads_are_bytewise (v : Machine) (gva n : Z) :
  ready v -> 0 <= n ->
  copy_in v gva n = read_bytes v gva (Z.to_nat n) /\ cstr v gva n = until_nul (read_bytes v gva (Z.to_nat n)).
Proof.
  intros (T & HT & HS) Hn. rewrite (cstr_spec T v HT HS) by done. rewrite (view_in_spec T v HT HS) by done. done.
Qed.

(** C30. A write to the guest goes byte by byte to what each address
    translates to, stops at the first address that is unmapped or read-only,
    leaves every translation as it was, and is read back unchanged when it
    was complete and no two of its pages share a frame. *)
Theorem writes_are_bytewise (v : Machine) (gva : Z) (bs : list Z) :
  ready v -> guarded v -> Forall is_byte bs ->
  exists n m, write_bytes v (mem v) gva bs = (n, m) /\ copy_out v gva bs = (n, with_mem v m)
    /\ ready (with_mem v m) /\ (forall a, mmu (with_mem v m) a = mmu v a)
    /\ (n = Z.of_nat (length bs) -> apart v gva n -> get (with_mem v m) gva n = Some bs).
Proof.
  intros (T & HT & HS) HG Hb. rewrite (view_out_spec T v HT HS gva bs HG Hb).
  assert (S0 : same_tables v (mem v)) by (split; [apply (t_bytes _ _ HT)|done]).
  assert (Sm := write_same T v HT bs (mem v) gva HG Hb S0).
  assert (R := bytes_back v bs (mem v) gva).
  destruct (write_bytes v (mem v) gva bs) as [n m]. cbn [fst snd] in *. exists n, m.
  destruct Sm as [Sb So]. destruct (outside_tables T v m HT Sb So) as (HT' & HS' & _).
  split; [done|]. split; [done|]. split; [exists T; auto|]. split; [intros a; by apply (same_mmu T v HT HS)|].
  intros -> Ha. unfold get. rewrite (view_in_spec T _ HT' (HS' HS)), Nat2Z.id by lia.
  rewrite read_list; [by rewrite Z.eqb_refl|]. intros i b Hi. destruct (R Ha eq_refl i b Hi) as (p & Hp & <-).
  by apply (fetch_target T v HT HS).
Qed.

(** * Witnesses *)

(** Two pages that are neighbours in virtual memory and not in RAM. *)
Definition two_pages : Flat := <[0x401 := (0x300000, true, false)]> (<[0x400 := (0x310000, true, false)]> ∅).

Lemma two_pages_machine : exists v T, models v two_pages T /\ table_arena_base v = 0x600000.
Proof.
  destruct (create_spec 0x800000) as (v0 & _ & HT & HS & HR & Hn & HB & _); [change kGuestFloor with 0x200000; lia|].
  assert (HM : models v0 ∅ root_only) by (constructor; [done|done|intros a _; by rewrite Hn]).
  destruct (exec_models (MapAt 0x400000 0x310000 true false) v0 ∅ root_only) as (d1 & v1 & T1 & _ & M1 & R1 & B1 & D1 & _);
    [repeat split; cbn; lia|done|].
  destruct (exec_models (MapAt 0x401000 0x300000 true false) v1 (flat_step (MapAt 0x400000 0x310000 true false) d1 ∅) T1)
    as (d2 & v2 & T2 & _ & M2 & _ & B2 & D2 & _); [repeat split; cbn; lia|done|].
  rewrite D1 in * by lia. rewrite D2 in * by lia. exists v2, T2. split; [exact M2|].
  unfold table_arena_base. rewrite B2, B1, HB. reflexivity.
Qed.

Lemma two_pages_guarded (v : Machine) (T : gmap Z nat) :
  models v two_pages T -> table_arena_base v = 0x600000 -> guarded v.
Proof.
  intros HM Hb a w Ha. rewrite (models_mmu v _ T a HM Ha), Hb. unfold flat_at, two_pages.
  pose proof (Z.mod_pos_bound a 4096 ltac:(lia)).
  destruct (decide (a / 4096 = 0x401)) as [-> |]; [rewrite lookup_insert_eq; cbn; intros [= <-]; cbn; lia|].
  rewrite lookup_insert_ne by lia.
  destruct (decide (a / 4096 = 0x400)) as [-> |]; [rewrite lookup_insert_eq; cbn; intros [= <-]; cbn; lia|].
  rewrite lookup_insert_ne by lia. by rewrite lookup_empty.
Qed.

Lemma reads_are_bytewise_witness : exists v, ready v /\ copy_in v 0x400ffe 4 = read_bytes v 0x400ffe 4.
Proof.
  destruct two_pages_machine as (v & T & HM & _). exists v.
  assert (HR : ready v) by (exists T; split; [apply (m_tables _ _ _ HM)|apply (m_small _ _ _ HM)]).
  split; [done|]. apply (reads_are_bytewise v 0x400ffe 4 HR ltac:(lia)).
Defined.

Lemma writes_are_bytewise_witness :
  exists v n m, guarded v /\ write_bytes v (mem v) 0x400ffe [1; 2; 3; 4] = (n, m)
    /\ copy_out v 0x400ffe [1; 2; 3; 4] = (n, with_mem v m).
Proof.
  destruct two_pages_machine as (v & T & HM & Hb). exists v. assert (HG := two_pages_guarded v T HM Hb).
  destruct (writes_are_bytewise v 0x400ffe [1; 2; 3; 4]) as (n & m & H1 & H2 & _).
  - exists T. split; [apply (m_tables _ _ _ HM)|apply (m_small _ _ _ HM)].
  - done.
  - repeat constructor; unfold is_byte; lia.
  - by exists n, m.
Defined.

End GuestView.
