(* ===== verification/Frames.v ===== *)
(** The guest-physical frame allocator of the Windows backend
    ([runtime/windows/mm.hpp], [FrameAllocator]): a bitmap over the pages of
    guest RAM with a next-fit hint.  The specification is the set of frames
    in use: allocation takes a free one whenever there is one, whatever the
    hint says, and neither operation touches another frame. *)
From S2P Require Import Prelude PageTables.

Module Frames.

Import PageTables.

(** ** Data and operations *)

Record FrameAllocator := mkFrames { pages_ : Z; low_hint_ : Z; bits_ : list Z }.

Definition word (fa : FrameAllocator) (p : Z) : Z := bits_ fa !!! Z.to_nat (Z.shiftr p 6).

Definition with_word (fa : FrameAllocator) (p w : Z) : FrameAllocator :=
  mkFrames (pages_ fa) (low_hint_ fa) (<[Z.to_nat (Z.shiftr p 6) := w]> (bits_ fa)).

Definition with_hint (fa : FrameAllocator) (h : Z) : FrameAllocator := mkFrames (pages_ fa) h (bits_ fa).

Definition set (fa : FrameAllocator) (p : Z) : FrameAllocator :=
  with_word fa p (Z.lor (word fa p) (Z.shiftl 1 (Z.land p 63))).

Definition clear (fa : FrameAllocator) (p : Z) : FrameAllocator :=
  with_word fa p (Z.land (word fa p) (u64 (Z.lnot (Z.shiftl 1 (Z.land p 63))))).

Definition test (fa : FrameAllocator) (p : Z) : bool :=
  negb (Z.land (Z.shiftr (word fa p) (Z.land p 63)) 1 =? 0).

Definition reserve_range (fa : FrameAllocator) (beg end_ : Z) : FrameAllocator :=
  let lo := Z.shiftr beg kPageShift in
  let hi := Z.min (Z.shiftr (u64 (end_ + kPageMask)) kPageShift) (pages_ fa) in
  fold_left set (seqZ lo (hi - lo)) fa.

Definition init (ram_bytes reserved_below reserved_above : Z) : FrameAllocator :=
  let pages := Z.shiftr ram_bytes kPageShift in
  let fa := mkFrames pages 0 (replicate (Z.to_nat ((pages + 63) / 64)) 0) in
  let fa := reserve_range fa 0 reserved_below in
  let fa := if reserved_above <? ram_bytes then reserve_range fa reserved_above ram_bytes else fa in
  with_hint fa (Z.shiftr reserved_below kPageShift).

(** The first free page of a range. *)
Definition scan (fa : FrameAllocator) (lo hi : Z) : option Z :=
  List.find (fun p => negb (test fa p)) (seqZ lo (hi - lo)).

(** 0 when there is none. *)
Definition alloc (fa : FrameAllocator) : Z * FrameAllocator :=
  match scan fa (low_hint_ fa) (pages_ fa) with
  | Some p => (Z.shiftl p kPageShift, with_hint (set fa p) (p + 1))
  | None =>
      match scan fa 0 (Z.min (low_hint_ fa) (pages_ fa)) with
      | Some p => (Z.shiftl p kPageShift, set fa p)
      | None => (0, fa)
      end
  end.

Definition free (fa : FrameAllocator) (gpa : Z) : FrameAllocator :=
  let p := Z.shiftr gpa kPageShift in
  if p <? pages_ fa then
    let fa := clear fa p in
    if p <? low_hint_ fa then with_hint fa p else fa
  else fa.

Definition free_pages (fa : FrameAllocator) : Z :=
  Z.of_nat (length (filter (fun p => test fa p = false) (seqZ 0 (pages_ fa)))).

(** * Lemmas *)

Record wf (fa : FrameAllocator) : Prop := {
  f_pages : 0 <= pages_ fa;
  f_hint : 0 <= low_hint_ fa;
  f_bits : Z.of_nat (length (bits_ fa)) = (pages_ fa + 63) / 64
}.

Definition in_range (fa : FrameAllocator) (p : Z) : Prop := 0 <= p < pages_ fa.

Lemma land63 (p : Z) : 0 <= Z.land p 63 < 64 /\ Z.land p 63 = p mod 64.
Proof. change 63 with (Z.ones 6). rewrite Z.land_ones by lia. split; [by apply Z.mod_pos_bound|done]. Qed.

Lemma test_testbit (fa : FrameAllocator) (p : Z) : test fa p = Z.testbit (word fa p) (p mod 64).
Proof.
  destruct (land63 p) as [H1 H2]. unfold test. change 1 with (Z.ones 1) at 1. rewrite Z.land_ones, H2 by lia.
  change (2 ^ 1) with 2. rewrite Zmod_odd, <- Z.bit0_odd, Z.shiftr_spec by lia. rewrite Z.add_0_l.
  by destruct (Z.testbit _ _).
Qed.

Lemma word_index (fa : FrameAllocator) (p : Z) :
  wf fa -> in_range fa p -> (Z.to_nat (Z.shiftr p 6) < length (bits_ fa))%nat.
Proof.
  intros [H1 H2 H3] Hp. unfold in_range in Hp. rewrite Z.shiftr_div_pow2 by lia. change (2 ^ 6) with 64.
  apply Nat2Z.inj_lt. rewrite H3, Z2Nat.id by (apply Z.div_pos; lia). Z.div_mod_to_equations. lia.
Qed.

Lemma word_other (p q : Z) : 0 <= p -> 0 <= q -> p <> q ->
  Z.to_nat (Z.shiftr p 6) = Z.to_nat (Z.shiftr q 6) -> p mod 64 <> q mod 64.
Proof.
  intros Hp Hq Hne. rewrite !Z.shiftr_div_pow2 by lia. change (2 ^ 6) with 64.
  pose proof (Z.div_pos p 64). pose proof (Z.div_pos q 64). intros E%Z2Nat.inj; [|lia|lia]. revert E. Z.div_mod_to_equations. lia.
Qed.

Lemma test_with_word (fa : FrameAllocator) (p w q : Z) :
  wf fa -> in_range fa p -> 0 <= q ->
  (forall n, 0 <= n < 64 -> n <> p mod 64 -> Z.testbit w n = Z.testbit (word fa p) n) ->
  test (with_word fa p w) q = if decide (q = p) then Z.testbit w (p mod 64) else test fa q.
Proof.
  intros Hf Hp Hq Hw. assert (Hi := word_index fa p Hf Hp). rewrite !test_testbit.
  unfold word at 1, with_word. cbn [bits_]. destruct (decide (q = p)) as [-> |Hne].
  - by rewrite list_lookup_total_insert_eq.
  - destruct (decide (Z.to_nat (Z.shiftr q 6) = Z.to_nat (Z.shiftr p 6))) as [E|E].
    + rewrite E, list_lookup_total_insert_eq by done. rewrite Hw.
      * unfold word. by rewrite E.
      * by apply Z.mod_pos_bound.
      * apply word_other; [done|apply Hp|done|done].
    + by rewrite list_lookup_total_insert_ne.
Qed.

Lemma test_set (fa : FrameAllocator) (p q : Z) :
  wf fa -> in_range fa p -> 0 <= q -> test (set fa p) q = bool_decide (q = p) || test fa q.
Proof.
  intros Hf Hp Hq. destruct (land63 p) as [H1 H2]. assert (Hm := Z.mod_pos_bound p 64 ltac:(lia)).
  unfold set. rewrite H2, Z.shiftl_1_l. rewrite test_with_word; try done.
  - rewrite Z.lor_spec, Z.pow2_bits_true by lia. rewrite orb_true_r.
    destruct (decide (q = p)); [by rewrite bool_decide_true|by rewrite bool_decide_false].
  - intros n Hn Hne. rewrite Z.lor_spec, Z.pow2_bits_false, orb_false_r by lia. done.
Qed.

Lemma test_clear (fa : FrameAllocator) (p q : Z) :
  wf fa -> in_range fa p -> 0 <= q -> test (clear fa p) q = negb (bool_decide (q = p)) && test fa q.
Proof.
  intros Hf Hp Hq. destruct (land63 p) as [H1 H2]. assert (Hm := Z.mod_pos_bound p 64 ltac:(lia)).
  assert (Hb : forall n, 0 <= n < 64 -> Z.testbit (u64 (Z.lnot (2 ^ (p mod 64)))) n = negb (n =? p mod 64)).
  { intros n Hn. unfold u64. rewrite Z.mod_pow2_bits_low, Z.lnot_spec, Z.pow2_bits_eqb by lia.
    by rewrite Z.eqb_sym. }
  unfold clear. rewrite H2, Z.shiftl_1_l. rewrite test_with_word; try done.
  - rewrite Z.land_spec, Hb, Z.eqb_refl, andb_false_r by lia.
    destruct (decide (q = p)); [by rewrite bool_decide_true|by rewrite bool_decide_false].
  - intros n Hn Hne. rewrite Z.land_spec, Hb by lia. rewrite (proj2 (Z.eqb_neq _ _) Hne). by rewrite andb_true_r.
Qed.

Lemma wf_with_word (fa : FrameAllocator) (p w : Z) : wf fa -> wf (with_word fa p w).
Proof. intros [H1 H2 H3]. constructor; cbn; [done|done|]. by rewrite length_insert. Qed.

Lemma wf_with_hint (fa : FrameAllocator) (h : Z) : wf fa -> 0 <= h -> wf (with_hint fa h).
Proof. intros [H1 H2 H3] Hh. by constructor. Qed.

Lemma scan_some (fa : FrameAllocator) (lo hi p : Z) :
  scan fa lo hi = Some p -> lo <= p < hi /\ test fa p = false.
Proof.
  intros [H1 H2]%List.find_some. apply list_elem_of_In, elem_of_seqZ in H1. split; [lia|]. by apply negb_true_iff.
Qed.

Lemma scan_none (fa : FrameAllocator) (lo hi : Z) :
  scan fa lo hi = None -> forall p, lo <= p < hi -> test fa p = true.
Proof.
  intros H p Hp. apply negb_false_iff. apply (List.find_none _ _ H). apply list_elem_of_In, elem_of_seqZ. lia.
Qed.

Lemma shiftl_page (p : Z) : Z.shiftl p kPageShift = p * 4096.
Proof. apply Z.shiftl_mul_pow2. done. Qed.

Lemma shiftr_page (a : Z) : Z.shiftr a kPageShift = a / 4096.
Proof. apply Z.shiftr_div_pow2. done. Qed.

(** What an allocation does. *)
Definition took (fa : FrameAllocator) (p : Z) (fa' : FrameAllocator) : Prop :=
  wf fa' /\ pages_ fa' = pages_ fa /\ forall q, 0 <= q -> test fa' q = bool_decide (q = p) || test fa q.

Lemma set_took (fa : FrameAllocator) (p : Z) : wf fa -> in_range fa p -> took fa p (set fa p).
Proof. intros Hf Hp. split; [by apply wf_with_word|]. split; [done|]. intros q Hq. by apply test_set. Qed.

Lemma frame_alloc_spec (fa : FrameAllocator) :
  wf fa ->
  (exists p fa', alloc fa = (p * 4096, fa') /\ in_range fa p /\ test fa p = false /\ took fa p fa')
  \/ (alloc fa = (0, fa) /\ forall p, in_range fa p -> test fa p = true).
Proof.
  intros Hf. assert (Hh := f_hint _ Hf). assert (Hpg := f_pages _ Hf). unfold alloc, in_range.
  destruct (scan fa (low_hint_ fa) (pages_ fa)) as [p|] eqn:E1.
  { apply scan_some in E1 as [Hp Ht]. left. exists p. eexists. rewrite shiftl_page. split; [done|].
    split; [lia|]. split; [done|]. destruct (set_took fa p Hf) as (W & P & Q); [unfold in_range; lia|].
    split; [apply wf_with_hint; [done|lia]|done]. }
  destruct (scan fa 0 _) as [p|] eqn:E2.
  { apply scan_some in E2 as [Hp Ht]. left. exists p. eexists. rewrite shiftl_page. split; [done|].
    split; [lia|]. split; [done|]. apply set_took; [done|]. unfold in_range. lia. }
  right. split; [done|]. intros p Hp. destruct (Z.lt_ge_cases p (low_hint_ fa)).
  - apply (scan_none _ _ _ E2). lia.
  - apply (scan_none _ _ _ E1). lia.
Qed.

Lemma free_spec (fa : FrameAllocator) (g : Z) :
  wf fa -> 0 <= g ->
  wf (free fa g) /\ pages_ (free fa g) = pages_ fa
  /\ forall q, in_range fa q -> test (free fa g) q = negb (bool_decide (q = g / 4096)) && test fa q.
Proof.
  intros Hf Hg. unfold free. rewrite shiftr_page. assert (0 <= g / 4096) by by apply Z.div_pos. zcases.
  - split; [apply wf_with_hint; [by apply wf_with_word|done]|]. split; [done|]. intros q Hq.
    change (test (with_hint (clear fa (g / 4096)) (g / 4096)) q) with (test (clear fa (g / 4096)) q).
    apply test_clear; [done|done|apply Hq].
  - split; [by apply wf_with_word|]. split; [done|]. intros q Hq. apply test_clear; [done|done|apply Hq].
  - split; [done|]. split; [done|]. intros q Hq. unfold in_range in Hq. rewrite bool_decide_false by lia. done.
Qed.

Lemma fold_set (ps : list Z) : forall fa,
  wf fa -> (forall p, p ∈ ps -> in_range fa p) ->
  let fa' := fold_left set ps fa in
  wf fa' /\ pages_ fa' = pages_ fa /\ forall q, 0 <= q -> test fa' q = bool_decide (q ∈ ps) || test fa q.
Proof.
  induction ps as [|p ps IH]; intros fa Hf Hp; cbn [fold_left].
  { split; [done|]. split; [done|]. intros q Hq. rewrite bool_decide_false; [done|apply not_elem_of_nil]. }
  destruct (set_took fa p Hf) as (W & P & Q); [apply Hp, list_elem_of_here|].
  destruct (IH (set fa p)) as (W' & P' & Q'); [done| |].
  { intros q Hq. unfold in_range. rewrite P. apply Hp. by right. }
  split; [done|]. split; [congruence|]. intros q Hq. rewrite Q', Q by done. rewrite orb_assoc. f_equal.
  rewrite <- bool_decide_or. apply bool_decide_ext. rewrite elem_of_cons. tauto.
Qed.

Lemma reserve_spec (fa : FrameAllocator) (beg end_ : Z) :
  wf fa -> 0 <= beg -> 0 <= end_ <= 2 ^ 52 ->
  let fa' := reserve_range fa beg end_ in
  wf fa' /\ pages_ fa' = pages_ fa
  /\ forall q, in_range fa q -> test fa' q = bool_decide (beg / 4096 <= q < (end_ + 4095) / 4096) || test fa q.
Proof.
  intros Hf Hb He. unfold reserve_range. rewrite u64_small by (change kPageMask with 4095; lia).
  change kPageMask with 4095. rewrite !shiftr_page. assert (0 <= beg / 4096) by by apply Z.div_pos.
  destruct (fold_set (seqZ (beg / 4096) (Z.min ((end_ + 4095) / 4096) (pages_ fa) - beg / 4096)) fa Hf) as (W & P & Q).
  { intros p Hp%elem_of_seqZ. unfold in_range. lia. }
  split; [done|]. split; [done|]. intros q Hq. unfold in_range in Hq. rewrite Q by lia. f_equal.
  apply bool_decide_ext. rewrite elem_of_seqZ. lia.
Qed.

Lemma init_spec (ram below above : Z) :
  0 <= ram <= 2 ^ 52 -> 0 <= below <= 2 ^ 52 -> 0 <= above ->
  let fa := init ram below above in
  wf fa /\ pages_ fa = ram / 4096
  /\ forall q, 0 <= q < ram / 4096 ->
       test fa q = bool_decide (q < (below + 4095) / 4096 \/ above < ram /\ above / 4096 <= q).
Proof.
  intros Hr Hb Ha. unfold init. rewrite !shiftr_page. set (fa0 := mkFrames _ _ _).
  assert (W0 : wf fa0).
  { constructor; cbn; [by apply Z.div_pos; lia|lia|]. rewrite length_replicate, Z2Nat.id; [done|].
    apply Z.div_pos; [|lia]. pose proof (Z.div_pos ram 4096). lia. }
  assert (T0 : forall q, 0 <= q < ram / 4096 -> test fa0 q = false).
  { intros q Hq. assert (Hi := word_index fa0 q W0 Hq). rewrite test_testbit. unfold word. cbn [fa0 bits_] in *.
    rewrite length_replicate in Hi. by rewrite lookup_total_replicate_2, Z.testbit_0_l. }
  destruct (reserve_spec fa0 0 below W0) as (W1 & P1 & Q1); [lia|lia|].
  set (fa1 := reserve_range fa0 0 below) in *. zcases.
  - destruct (reserve_spec fa1 above ram W1) as (W2 & P2 & Q2); [lia|lia|].
    split; [apply wf_with_hint; [done|by apply Z.div_pos; lia]|]. split; [cbn [with_hint pages_]; by rewrite P2, P1|].
    intros q Hq. change (test (with_hint ?a _) q) with (test a q).
    rewrite Q2, Q1, T0, orb_false_r by (done || unfold in_range; rewrite ?P1; cbn [fa0 pages_]; lia).
    rewrite <- bool_decide_or. apply bool_decide_ext. rewrite Z.div_0_l by done.
    assert (q < (ram + 4095) / 4096) by (revert Hq; Z.div_mod_to_equations; lia). lia.
  - split; [apply wf_with_hint; [done|by apply Z.div_pos; lia]|]. split; [done|].
    intros q Hq. change (test (with_hint ?a _) q) with (test a q).
    rewrite Q1, T0, orb_false_r by (done || unfold in_range; cbn [fa0 pages_]; lia).
    apply bool_decide_ext. rewrite Z.div_0_l by done. lia.
Qed.

(** ** Theorems *)

(** An allocation fails exactly when every frame of guest RAM is in use,
    wherever the hint stands; otherwise it returns a page that was free,
    marks it and no other, and freeing it gives back the set there was. *)
Theorem alloc_finds_free (fa : FrameAllocator) :
  wf fa -> test fa 0 = true ->
  let '(g, fa') := alloc fa in
  wf fa' /\ (g = 0 <-> forall p, in_range fa p -> test fa p = true)
  /\ (g <> 0 -> exists p, g = p * 4096 /\ in_range fa p /\ test fa p = false
        /\ (forall q, in_range fa q -> test fa' q = bool_decide (q = p) || test fa q)
        /\ (forall q, in_range fa q -> test (free fa' g) q = test fa q)).
Proof.
  intros Hf H0. destruct (frame_alloc_spec fa Hf) as [(p & fa' & -> & Hp & Ht & W & P & Q)|[-> Hall]].
  2:{ split; [done|]. split; [done|done]. }
  assert (Hp0 : p <> 0) by (intros ->; congruence). unfold in_range in *. split; [done|]. split.
  { split; [lia|]. intros Hall. rewrite Hall in Ht by done. done. }
  intros _. exists p. split; [done|]. split; [done|]. split; [done|].
  assert (Q' : forall q, 0 <= q < pages_ fa -> test fa' q = bool_decide (q = p) || test fa q) by (intros q Hq; apply Q; lia).
  split; [done|]. intros q Hq. destruct (free_spec fa' (p * 4096) W ltac:(lia)) as (_ & _ & F).
  rewrite F, Q', Z.div_mul by (done || unfold in_range; lia).
  destruct (decide (q = p)) as [-> |]; [by rewrite bool_decide_true, Ht|by rewrite bool_decide_false].
Qed.

(** ** Witnesses *)

Lemma alloc_finds_free_witness :
  let fa := init 0x8000 0x2000 0x7000 in
  wf fa /\ (alloc fa).1 = 0x2000.
Proof.
  pose proof (init_spec 0x8000 0x2000 0x7000 ltac:(lia) ltac:(lia) ltac:(lia)) as (W & _ & _).
  pose proof (alloc_finds_free (init 0x8000 0x2000 0x7000) W ltac:(reflexivity)) as H.
  split; [done|]. vm_compute. reflexivity.
Defined.

End Frames.
