(* ===== verification/WinMm.v ===== *)
(** The guest's memory system calls on the Windows backend
    ([runtime/windows/mm.hpp], [WhpMm]): mmap, munmap, mprotect, brk and the
    fault path, which hand out frames, edit the page tables and keep the map
    of areas.  The specification is what the guest sees: the byte behind
    every virtual address. *)
From S2P Require Import Prelude Abi GuestMem AddressSpace PageTables GuestView Frames.

Module WinMm.

Import Abi PageTables GuestView.
Import Frames(FrameAllocator, alloc, test, in_range, pages_).

(** ** State *)

Record Mm := mkMm {
  vm : Machine;
  frames : FrameAllocator;
  space : Space.AddressSpace;
  brk_floor : Z
}.

Definition with_vm (mm : Mm) (v : Machine) : Mm := mkMm v (frames mm) (space mm) (brk_floor mm).
Definition with_frames (mm : Mm) (fa : FrameAllocator) : Mm := mkMm (vm mm) fa (space mm) (brk_floor mm).
Definition with_space (mm : Mm) (s : Space.AddressSpace) : Mm := mkMm (vm mm) (frames mm) s (brk_floor mm).

Definition kMapFixed : Z := 0x10.
Definition kMapAnonymous : Z := 0x20.

Definition neg_errno (e : Errno) : Z := - errno_value e.

(** ** Pages behind a range *)

(** [memset] of a frame, through the table accessor. *)
Definition zero_frame (v : Machine) (frame : Z) : Machine :=
  match at_table (ram v) frame kPageSize with
  | Some _ => with_mem v (store (mem v) frame (zeros kPageSize))
  | None => v
  end.

(** One page of [back_range]. *)
Definition back_page (gva : Z) (writable executable : bool) (mm : Mm) : bool * Mm :=
  match mmu (vm mm) gva with
  | Some _ => (true, mm)
  | None =>
      let '(frame, fa) := alloc (frames mm) in
      let mm := with_frames mm fa in
      if frame =? 0 then (false, mm)
      else
        let mm := with_vm mm (zero_frame (vm mm) frame) in
        match map_page_at gva frame writable executable (vm mm) with
        | (inl _, v) => (true, with_vm mm v)
        | (inr _, v) => (false, with_frames (with_vm mm v) (Frames.free (frames mm) frame))
        end
  end.

Definition unmap_one (gva : Z) (mm : Mm) : bool * Mm :=
  match mmu (vm mm) gva with
  | None => (true, mm)
  | Some w =>
      let mm := if gpa w =? gva then mm else with_frames mm (Frames.free (frames mm) (gpa w)) in
      (true, with_vm mm (unmap_page gva (vm mm)))
  end.

Definition reprotect_page (gva : Z) (writable executable : bool) (mm : Mm) : bool * Mm :=
  match mmu (vm mm) gva with
  | None => (true, mm)
  | Some w =>
      match map_page_at gva (gpa w) writable executable (vm mm) with
      | (inl _, v) => (true, with_vm mm v)
      | (inr _, v) => (false, with_vm mm v)
      end
  end.

(** [for (off = 0; off < len; off += kPageSize)], until a page fails. *)
Fixpoint pages_loop (n : nat) (gva : Z) (f : Z -> Mm -> bool * Mm) (mm : Mm) : bool * Mm :=
  match n with
  | O => (true, mm)
  | S n' =>
      match f (u64 gva) mm with
      | (true, mm) => pages_loop n' (gva + kPageSize) f mm
      | (false, mm) => (false, mm)
      end
  end.

Definition page_count (len : Z) : nat := Z.to_nat ((len + kPageMask) / kPageSize).

Definition back_range (base len : Z) (writable executable : bool) (mm : Mm) : bool * Mm :=
  pages_loop (page_count len) base (fun gva => back_page gva writable executable) mm.

Definition unmap_range (base len : Z) (mm : Mm) : Mm :=
  (pages_loop (page_count len) base unmap_one mm).2.

Definition reprotect (base len : Z) (writable executable : bool) (mm : Mm) : bool * Mm :=
  pages_loop (page_count len) base (fun gva => reprotect_page gva writable executable) mm.

(** ** Files

    The host's file: [SetFilePointerEx] to a position, and [ReadFile] of at
    most so many bytes from one. *)
Record HostFile := {
  SetFilePointerEx : Z -> bool;
  ReadFile : Z -> Z -> option (list Z)
}.

Fixpoint fill_loop (n : nat) (gva pos : Z) (file : HostFile) (mm : Mm) : bool * Mm :=
  match n with
  | O => (true, mm)
  | S n' =>
      match view_at (vm mm) (u64 gva) kPageSize with
      | None => fill_loop n' (gva + kPageSize) pos file mm
      | Some (p, k) =>
          match ReadFile file pos k with
          | None => (false, mm)
          | Some [] => (true, mm)
          | Some bs =>
              fill_loop n' (gva + kPageSize) (pos + Z.of_nat (length bs)) file
                (with_vm mm (with_mem (vm mm) (store (mem (vm mm)) p bs)))
          end
      end
  end.

Definition fill_from_file (base len : Z) (file : HostFile) (offset : Z) (mm : Mm) : bool * Mm :=
  if negb (SetFilePointerEx file (i64 offset)) then (false, mm)
  else fill_loop (page_count len) base (i64 offset) file mm.

(** ** The calls *)

Definition init (v : Machine) (image_end mmap_top : Z) : Mm :=
  let fa := Frames.init (ram_bytes v) kGuestFloor (table_arena_base v) in
  let fa := Frames.reserve_range fa 0 image_end in
  mkMm v fa (Space.reset (page_up image_end) (page_down mmap_top)) (page_up image_end).

Definition adopt (begin end_ : Z) (prot : Space.GuestProt) (anonymous : bool) (mm : Mm) : Mm :=
  if end_ <=? begin then mm
  else with_space mm (Space.adopt (space mm) (Space.mkVma (page_down begin) (page_up end_) prot anonymous)).

Definition do_brk (addr : Z) (mm : Mm) : Z * Mm :=
  let before := Space.brk (space mm) in
  let '(s, now) := Space.set_brk (space mm) addr in
  let mm := with_space mm s in
  if now <? before then (now, unmap_range (page_up now) (u64 (page_up before - page_up now)) mm)
  else (now, mm).

Definition has_write (p : Space.GuestProt) : bool := Space.has p Space.prot_write.
Definition has_exec (p : Space.GuestProt) : bool := Space.has p Space.prot_exec.

(** A mapping of a file: backed, filled, then dropped to its protection. *)
Definition map_file (at_ len : Z) (gp : Space.GuestProt) (file : HostFile) (offset : Z) (mm : Mm) : Z * Mm :=
  match back_range at_ len true (has_exec gp) mm with
  | (false, mm) => (neg_errno enomem, with_space mm (Space.unmap (space mm) at_ len))
  | (true, mm) =>
      match fill_from_file at_ len file offset mm with
      | (false, mm) =>
          let mm := unmap_range at_ len mm in
          (neg_errno eio, with_space mm (Space.unmap (space mm) at_ len))
      | (true, mm) =>
          (i64 at_, if has_write gp then mm else (reprotect at_ len false (has_exec gp) mm).2)
      end
  end.

Definition do_mmap (addr len prot flags : Z) (file : option HostFile) (offset : Z) (mm : Mm) : Z * Mm :=
  if len =? 0 then (neg_errno einval, mm)
  else
    let gp := Space.prot_from_linux prot in
    let fixed := bit flags kMapFixed in
    let anon := bit flags kMapAnonymous || negb (bool_decide (is_Some file)) in
    let mm := if fixed then unmap_range (page_down addr) (page_up len) mm else mm in
    let '(s, at_) := Space.map (space mm) addr len gp fixed anon in
    let mm := with_space mm s in
    if at_ =? Space.kFail then (neg_errno enomem, mm)
    else
      match file with
      | Some file => if anon then (i64 at_, mm) else map_file at_ (page_up len) gp file offset mm
      | None => (i64 at_, mm)
      end.

Definition do_munmap (addr len : Z) (mm : Mm) : Z * Mm :=
  if (len =? 0) || bit addr kPageMask then (neg_errno einval, mm)
  else
    let len := page_up len in
    let mm := unmap_range addr len mm in
    (0, with_space mm (Space.unmap (space mm) addr len)).

Definition do_mprotect (addr len prot : Z) (mm : Mm) : Z * Mm :=
  if bit addr kPageMask then (neg_errno einval, mm)
  else
    let len := page_up len in
    let gp := Space.prot_from_linux prot in
    let '(s, granted) := Space.protect (space mm) addr len gp in
    let mm := with_space mm s in
    if negb granted then (neg_errno enomem, mm)
    else
      match reprotect addr len (has_write gp) (has_exec gp) mm with
      | (false, mm) => (neg_errno enomem, mm)
      | (true, mm) => (0, mm)
      end.

(** ** The fault path *)

Definition is_in_brk (page : Z) (mm : Mm) : bool :=
  (brk_floor mm <=? page) && (page <? page_up (Space.brk (space mm))).

(** The protection a page was promised. *)
Definition promised (page : Z) (mm : Mm) : option Space.GuestProt :=
  match Space.find (space mm) page with
  | Some a => Some (Space.prot a)
  | None =>
      if is_in_brk page mm then Some (Space.prot_or Space.prot_read Space.prot_write) else None
  end.

Definition handle_fault (gva : Z) (mm : Mm) : bool * Mm :=
  let page := page_down gva in
  match promised page mm with
  | None => (false, mm)
  | Some gp => back_range page kPageSize (has_write gp) (has_exec gp) mm
  end.

Definition free_bytes (mm : Mm) : Z := u64 (Z.shiftl (Frames.free_pages (frames mm)) kPageShift).

(** ** Sequences of calls *)

Inductive Call :=
| CBrk (addr : Z)
| CMmap (addr len prot flags : Z) (file : option HostFile) (offset : Z)
| CMunmap (addr len : Z)
| CMprotect (addr len prot : Z)
| CFault (gva : Z).

Definition do_call (c : Call) (mm : Mm) : Mm :=
  match c with
  | CBrk addr => (do_brk addr mm).2
  | CMmap addr len prot flags file offset => (do_mmap addr len prot flags file offset mm).2
  | CMunmap addr len => (do_munmap addr len mm).2
  | CMprotect addr len prot => (do_mprotect addr len prot mm).2
  | CFault gva => (handle_fault gva mm).2
  end.

(** * The invariant

    The tables are a flat map [f]; every frame of it is guest RAM that the
    allocator has marked, and no frame is behind two pages. *)

Record mm_ok (mm : Mm) (f : Flat) : Prop := {
  o_models : exists T, models (vm mm) f T;
  o_wf : Frames.wf (frames mm);
  o_pages : pages_ (frames mm) = ram_bytes (vm mm) / 4096;
  o_taken : forall p, in_range (frames mm) p ->
    p * 4096 < kGuestFloor \/ table_arena_base (vm mm) <= p * 4096 -> test (frames mm) p = true;
  o_mapped : forall n fr w x, f !! n = Some (fr, w, x) ->
    exists p, fr = p * 4096 /\ kGuestFloor <= fr < table_arena_base (vm mm) /\ test (frames mm) p = true;
  o_alone : forall n1 n2 fr w1 x1 w2 x2,
    f !! n1 = Some (fr, w1, x1) -> f !! n2 = Some (fr, w2, x2) -> n1 = n2
}.

#[local] Opaque store zeros.

(** ** What the guest sees *)

Lemma arena_pages (mm : Mm) (f : Flat) :
  mm_ok mm f -> exists A, table_arena_base (vm mm) = A * 4096 /\ A < pages_ (frames mm)
    /\ 0 < A /\ ram_bytes (vm mm) = pages_ (frames mm) * 4096.
Proof.
  intros H. destruct (o_models _ _ H) as (T & [HT _ _]). destruct (t_size _ _ HT) as [[Hr Hr4] Hs].
  destruct (arena_page T _ HT) as [[_ Ha4] Ha]. rewrite (o_pages _ _ H).
  unfold table_arena_base in *. change kTableArenaSize with 0x200000 in *. exists ((ram_bytes (vm mm) - 0x200000) / 4096).
  revert Ha Ha4. zcases. revert Hr4. Z.div_mod_to_equations. lia.
Qed.

(** The byte behind an address. *)
Definition view (f : Flat) (m : Ram) (a : Z) : option Z :=
  '(fr, _, _) ← f !! (a / 4096); Some (peek m (fr + a mod 4096)).

Lemma fetch_view (mm : Mm) (f : Flat) (a : Z) :
  mm_ok mm f -> is_u64 a -> fetch (vm mm) a = view f (mem (vm mm)) a.
Proof.
  intros H Ha. destruct (o_models _ _ H) as (T & HM). unfold fetch, view. rewrite (models_mmu _ _ T a HM Ha).
  unfold flat_at. destruct (f !! (a / 4096)) as [[[fr w] x]|] eqn:E; [|done]. cbn [mbind option_bind gpa].
  destruct (o_mapped _ _ H _ _ _ _ E) as (p & -> & Hp & _), (arena_pages mm f H) as (A & EA & HA & _ & ER).
  pose proof (Z.mod_pos_bound a 4096 ltac:(lia)). unfold permits, ram. cbn [ram_size ram_floor].
  change kGuestFloor with 0x200000 in *. zcases; done.
Qed.

Lemma mmu_view (mm : Mm) (f : Flat) (a : Z) : mm_ok mm f -> is_u64 a -> mmu (vm mm) a = flat_at f a.
Proof. intros H Ha. destruct (o_models _ _ H) as (T & HM). by apply (models_mmu _ _ T). Qed.

(** ** Editing one page *)

Lemma map_at_models (v : Machine) (f : Flat) (T : gmap Z nat) (gva fr : Z) (w x : bool) :
  models v f T -> is_u64 gva -> canonical gva = true -> page fr ->
  exists d v' T', exec (MapAt gva fr w x) v = (d, v')
    /\ models v' (if d then <[gva / 4096 := (fr, w, x)]> f else f) T'
    /\ ram_bytes v' = ram_bytes v /\ (3 <= room v -> d = true)
    /\ forall a, 4096 <= a < table_arena_base v -> peek (mem v') a = peek (mem v) a.
Proof.
  intros HM Hg Cg Hf. destruct (exec_models (MapAt gva fr w x) v f T) as (d & v' & T' & E & M & _ & B & D & P);
    [split; [done|]; split; [done|]; apply Hf|done|].
  exists d, v', T'. split; [done|]. split; [|done]. cbn [flat_step] in M.
  replace (fr / 4096 * 4096) with fr in M; [done|]. destruct Hf as [_ Hf]. revert Hf. Z.div_mod_to_equations. lia.
Qed.

Lemma frame_page (mm : Mm) (f : Flat) (p : Z) :
  mm_ok mm f -> in_range (frames mm) p -> page (p * 4096).
Proof.
  intros H Hp. destruct (arena_pages mm f H) as (A & _ & _ & _ & ER), (o_models _ _ H) as (T & [HT _ _]).
  destruct (t_size _ _ HT) as [[Hr _] _]. unfold in_range in Hp. split; [lia|by apply Z.mod_mul].
Qed.

(** What one page operation leaves alone. *)
Definition same_books (mm mm' : Mm) : Prop := space mm' = space mm /\ brk_floor mm' = brk_floor mm.

(** *** A fresh frame *)

Lemma fresh_frame (mm : Mm) (f : Flat) (p : Z) :
  mm_ok mm f -> in_range (frames mm) p -> test (frames mm) p = false ->
  kGuestFloor <= p * 4096 < table_arena_base (vm mm)
  /\ forall n fr w x, f !! n = Some (fr, w, x) -> fr <> p * 4096 /\ fr mod 4096 = 0.
Proof.
  intros H Hp Ht. split.
  - assert (Hk := o_taken _ _ H p Hp). rewrite Ht in Hk.
    destruct (Z.lt_ge_cases (p * 4096) kGuestFloor); [by discriminate Hk; left|].
    destruct (Z.le_gt_cases (table_arena_base (vm mm)) (p * 4096)); [by discriminate Hk; right|]. lia.
  - intros n fr w x E. destruct (o_mapped _ _ H n fr w x E) as (q & -> & _ & Hq).
    split; [|by apply Z.mod_mul]. intros Ee. assert (q = p) as -> by lia. congruence.
Qed.

Lemma zero_frame_spec (mm : Mm) (f : Flat) (p : Z) :
  mm_ok mm f -> in_range (frames mm) p -> test (frames mm) p = false ->
  exists m, zero_frame (vm mm) (p * 4096) = with_mem (vm mm) m
    /\ (exists T, models (with_mem (vm mm) m) f T)
    /\ (forall x, peek m x = if decide (p * 4096 <= x < p * 4096 + 4096) then 0 else peek (mem (vm mm)) x).
Proof.
  intros H Hp Ht. destruct (fresh_frame mm f p H Hp Ht) as [Hl _], (arena_pages mm f H) as (A & EA & HA & _ & ER).
  assert (Ep : forall x, peek (store (mem (vm mm)) (p * 4096) (zeros kPageSize)) x
               = if decide (p * 4096 <= x < p * 4096 + 4096) then 0 else peek (mem (vm mm)) x).
  { intros x. rewrite peek_store, zeros_length by done. change kPageSize with 4096. destruct (decide _); [|done].
    rewrite <- (peek_zeroed (mem (vm mm)) (p * 4096) 4096 x) by lia.
    rewrite peek_store, decide_True; [done|]. rewrite zeros_length by done. lia. }
  eexists. split; [|split; [|exact Ep]].
  { unfold zero_frame, at_table, span, ram. cbn [ram_size]. change kPageSize with 4096 at 1 2.
    unfold in_range in Hp. zcases. done. }
  destruct (o_models _ _ H) as (T & [HT HS Hs]). change kGuestFloor with 0x200000 in Hl.
  destruct (outside_tables T (vm mm) (store (mem (vm mm)) (p * 4096) (zeros kPageSize)) HT) as (HT' & HS' & Hs').
  - apply store_bytes_ok; [apply (t_bytes _ _ HT)|apply zeros_bytes].
  - intros a Ha. rewrite Ep, decide_False; [done|]. destruct (t_next _ _ HT) as [_ Hn]. lia.
  - exists T. constructor; [done|by apply HS'|]. intros a Ha. rewrite Hs'. by apply Hs.
Qed.

(** The map with the new page. *)
Lemma fresh_ok (mm : Mm) (f : Flat) (T' : gmap Z nat) (v' : Machine) (fa' : FrameAllocator) (n p : Z) (w x : bool) :
  mm_ok mm f -> in_range (frames mm) p -> test (frames mm) p = false -> Frames.took (frames mm) p fa' ->
  f !! n = None -> models v' (<[n := (p * 4096, w, x)]> f) T' -> ram_bytes v' = ram_bytes (vm mm) ->
  mm_ok (with_vm (with_frames mm fa') v') (<[n := (p * 4096, w, x)]> f).
Proof.
  intros H Hp Ht (W & P & Q) Hn HM HB. destruct (fresh_frame mm f p H Hp Ht) as [Hl Hfr].
  assert (Q' : forall q, in_range (frames mm) q -> test (frames mm) q = true -> test fa' q = true).
  { intros q Hq E. rewrite Q by apply Hq. by rewrite E, orb_true_r. }
  destruct (arena_pages mm f H) as (A & EA & HA & _ & ER).
  constructor; cbn [with_vm with_frames vm frames]; rewrite ?(arena_same _ _ HB), ?HB.
  - by exists T'.
  - done.
  - rewrite P. apply (o_pages _ _ H).
  - intros q Hq Hk. unfold in_range in Hq. rewrite P in Hq. apply Q'; [done|]. by apply (o_taken _ _ H).
  - intros k fr w1 x1. destruct (decide (k = n)) as [-> |Hne].
    + rewrite lookup_insert_eq. intros [= <- <- <-]. exists p. split; [done|]. split; [done|].
      rewrite Q by apply Hp. by rewrite bool_decide_true.
    + rewrite lookup_insert_ne by done. intros E. destruct (o_mapped _ _ H _ _ _ _ E) as (q & -> & Hq & Hqt).
      exists q. split; [done|]. split; [done|]. apply Q'; [|done]. unfold in_range. change kGuestFloor with 0x200000 in *. lia.
  - intros n1 n2 fr w1 x1 w2 x2. rewrite !lookup_insert_Some.
    intros [[<- [= <- <- <-]]|[Hn1 E1]] [[<- E2]|[Hn2 E2]]; [done| | |].
    + by destruct (proj1 (Hfr _ _ _ _ E2)).
    + injection E2 as <- _ _. by destruct (proj1 (Hfr _ _ _ _ E1)).
    + by eapply (o_alone _ _ H).
Qed.

(** A frame taken and given back. *)
Lemma returned_ok (mm : Mm) (f : Flat) (T' : gmap Z nat) (v' : Machine) (fa' : FrameAllocator) (p : Z) :
  mm_ok mm f -> in_range (frames mm) p -> test (frames mm) p = false -> Frames.took (frames mm) p fa' ->
  models v' f T' -> ram_bytes v' = ram_bytes (vm mm) ->
  mm_ok (with_frames (with_vm mm v') (Frames.free fa' (p * 4096))) f.
Proof.
  intros H Hp Ht (W & P & Q) HM HB. destruct (arena_pages mm f H) as (A & EA & HA & _ & ER).
  destruct (Frames.free_spec fa' (p * 4096) W) as (W' & P' & F); [unfold in_range in Hp; lia|].
  assert (Q' : forall q, in_range (frames mm) q -> test (Frames.free fa' (p * 4096)) q = test (frames mm) q).
  { intros q Hq. rewrite F, Q, Z.div_mul by (done || unfold in_range in *; lia).
    destruct (decide (q = p)) as [-> |]; [by rewrite bool_decide_true, Ht|by rewrite bool_decide_false]. }
  constructor; cbn [with_vm with_frames vm frames]; rewrite ?(arena_same _ _ HB), ?HB.
  - by exists T'.
  - done.
  - rewrite P', P. apply (o_pages _ _ H).
  - intros q Hq Hk. unfold in_range in Hq. rewrite P', P in Hq. rewrite Q' by done. by apply (o_taken _ _ H).
  - intros k fr w1 x1 E. destruct (o_mapped _ _ H _ _ _ _ E) as (q & -> & Hq & Hqt). exists q. split; [done|].
    split; [done|]. rewrite Q'; [done|]. unfold in_range. change kGuestFloor with 0x200000 in *. lia.
  - apply (o_alone _ _ H).
Qed.

(** *** Backing a page *)

(** A page that was absent holds zeros now, with the flags asked for. *)
Definition backed (w x : bool) (f : Flat) (n : Z) (f' : Flat) : Prop :=
  match f !! n with
  | Some _ => f' = f
  | None => exists fr, f' = <[n := (fr, w, x)]> f
  end.

Lemma view_fresh (mm : Mm) (f : Flat) (m : Ram) (n p a : Z) (w x : bool) :
  mm_ok mm f -> in_range (frames mm) p -> test (frames mm) p = false ->
  (forall b, 4096 <= b < table_arena_base (vm mm) ->
     peek m b = if decide (p * 4096 <= b < p * 4096 + 4096) then 0 else peek (mem (vm mm)) b) ->
  view f m a = view f (mem (vm mm)) a
  /\ view (<[n := (p * 4096, w, x)]> f) m a = if decide (a / 4096 = n) then Some 0 else view f (mem (vm mm)) a.
Proof.
  intros H Hp Ht Hm. destruct (fresh_frame mm f p H Hp Ht) as [Hl Hfr], (arena_pages mm f H) as (A & EA & HA & _ & ER).
  pose proof (Z.mod_pos_bound a 4096 ltac:(lia)) as Ha. change kGuestFloor with 0x200000 in *.
  assert (Hv : view f m a = view f (mem (vm mm)) a).
  { unfold view. destruct (f !! (a / 4096)) as [[[fr w1] x1]|] eqn:E; [|done]. cbn [mbind option_bind]. f_equal.
    destruct (Hfr _ _ _ _ E) as [Hne Hm4], (o_mapped _ _ H _ _ _ _ E) as (q & -> & Hq & _).
    change kGuestFloor with 0x200000 in *. rewrite Hm by lia. rewrite decide_False; [done|]. lia. }
  split; [done|]. destruct (decide (a / 4096 = n)) as [<- |Hne].
  - unfold view. rewrite lookup_insert_eq. cbn [mbind option_bind]. rewrite Hm by lia. rewrite decide_True by lia. done.
  - rewrite <- Hv. unfold view. by rewrite lookup_insert_ne.
Qed.

Lemma back_page_spec (mm : Mm) (f : Flat) (gva : Z) (w x : bool) :
  mm_ok mm f -> is_u64 gva -> canonical gva = true ->
  exists d mm' f', back_page gva w x mm = (d, mm') /\ mm_ok mm' f' /\ same_books mm mm'
    /\ (if d then backed w x f (gva / 4096) f' else f' = f)
    /\ (forall a, is_u64 a -> fetch (vm mm') a =
          if decide (d = true /\ a / 4096 = gva / 4096 /\ f !! (gva / 4096) = None) then Some 0 else fetch (vm mm) a)
    /\ (d = false -> (forall p, in_range (frames mm) p -> test (frames mm) p = true) \/ room (vm mm) < 3).
Proof.
  intros H Hg Cg. unfold back_page. rewrite (mmu_view mm f gva H Hg). unfold flat_at, backed.
  destruct (f !! (gva / 4096)) as [[[fr w1] x1]|] eqn:E; cbn [mbind option_bind].
  { exists true, mm, f. split; [done|]. split; [done|]. split; [done|]. split; [done|]. split; [|done].
    intros a Ha. by rewrite decide_False by (by intros (_ & _ & ?)). }
  destruct (Frames.frame_alloc_spec (frames mm) (o_wf _ _ H)) as [(p & fa' & Ea & Hp & Ht & HK)|[Ea Hall]]; rewrite Ea.
  2:{ exists false, mm, f. split; [by destruct mm|]. split; [done|]. split; [done|]. split; [done|].
      split; [|by left]. intros a Ha. by rewrite decide_False by (by intros (? & _)). }
  destruct (fresh_frame mm f p H Hp Ht) as [Hl _], (zero_frame_spec mm f p H Hp Ht) as (m & Ez & (T & HM) & Hm).
  change kGuestFloor with 0x200000 in Hl. rewrite (proj2 (Z.eqb_neq (p * 4096) 0)) by lia.
  change (vm (with_frames mm fa')) with (vm mm). rewrite Ez. cbn [with_vm with_frames vm frames].
  destruct (map_at_models _ f T gva (p * 4096) w x HM Hg Cg (frame_page mm f p H Hp))
    as (d & v' & T' & Ee & M' & B & D & P). cbn [exec] in Ee.
  assert (Hmem : forall b, 4096 <= b < table_arena_base (vm mm) ->
            peek (mem v') b = if decide (p * 4096 <= b < p * 4096 + 4096) then 0 else peek (mem (vm mm)) b).
  { intros b Hb. rewrite P by done. apply Hm. }
  assert (Hv := fun a => view_fresh mm f (mem v') (gva / 4096) p a w x H Hp Ht Hmem).
  destruct (map_page_at gva (p * 4096) w x (with_mem (vm mm) m)) as [[[]|e] v1]; injection Ee as <- <-.
  - assert (H' := fresh_ok mm f T' v1 fa' (gva / 4096) p w x H Hp Ht HK E M' B).
    eexists true, _, _. split; [done|]. split; [exact H'|]. split; [done|]. split; [by exists (p * 4096)|].
    split; [|done]. intros a Ha. etrans; [exact (fetch_view _ _ a H' Ha)|].
    cbn [with_vm vm]. rewrite (proj2 (Hv a)), (fetch_view mm f a H Ha). apply decide_ext. tauto.
  - assert (H' := returned_ok mm f T' v1 fa' p H Hp Ht HK M' B).
    eexists false, _, _. split; [done|]. split; [exact H'|]. split; [done|]. split; [done|]. split.
    + intros a Ha. rewrite decide_False by (by intros (? & _)). etrans; [exact (fetch_view _ _ a H' Ha)|].
      cbn [with_vm with_frames vm]. rewrite (proj1 (Hv a)). by rewrite (fetch_view mm f a H Ha).
    + intros _. right. destruct (Z.lt_ge_cases (room (vm mm)) 3); [done|]. by discriminate D.
Qed.

(** *** Dropping a page *)

Lemma mmu_canonical (v : Machine) (a : Z) (w : Walk) : mmu v a = Some w -> canonical a = true.
Proof. unfold mmu, translate. by destruct (canonical a). Qed.

(** The pages other than [n] do not use its frame. *)
Lemma dropped_ok (mm : Mm) (f : Flat) (T' : gmap Z nat) (v' : Machine) (fa' : FrameAllocator) (n : Z) :
  mm_ok mm f -> models v' (delete n f) T' -> ram_bytes v' = ram_bytes (vm mm) ->
  Frames.wf fa' -> pages_ fa' = pages_ (frames mm) ->
  (forall q, in_range (frames mm) q -> test (frames mm) q = true ->
     test fa' q = true \/ exists w x, f !! n = Some (q * 4096, w, x)) ->
  mm_ok (with_vm (with_frames mm fa') v') (delete n f).
Proof.
  intros H HM HB W P F. destruct (arena_pages mm f H) as (A & EA & HA & _ & ER).
  constructor; cbn [with_vm with_frames vm frames]; rewrite ?(arena_same _ _ HB), ?HB.
  - by exists T'.
  - done.
  - rewrite P. apply (o_pages _ _ H).
  - intros q Hq Hk. unfold in_range in Hq. rewrite P in Hq. destruct (F q Hq) as [|(w & x & E)]; [by apply (o_taken _ _ H)|done|].
    destruct (o_mapped _ _ H _ _ _ _ E) as (q' & Eq & Hq' & _). lia.
  - intros k fr w x [Hne E]%lookup_delete_Some. destruct (o_mapped _ _ H _ _ _ _ E) as (q & -> & Hq & Hqt).
    exists q. split; [done|]. split; [done|]. destruct (F q) as [|(w1 & x1 & E1)]; [|done|done|].
    + unfold in_range. change kGuestFloor with 0x200000 in *. lia.
    + destruct Hne. by eapply (o_alone _ _ H).
  - intros n1 n2 fr w1 x1 w2 x2 [_ E1]%lookup_delete_Some [_ E2]%lookup_delete_Some. by eapply (o_alone _ _ H).
Qed.

Lemma view_mem (mm : Mm) (f g : Flat) (m : Ram) (a : Z) :
  mm_ok mm f -> (forall b, 4096 <= b < table_arena_base (vm mm) -> peek m b = peek (mem (vm mm)) b) ->
  (forall fr w x, g !! (a / 4096) = Some (fr, w, x) -> exists w' x', f !! (a / 4096) = Some (fr, w', x')) ->
  view g m a = view g (mem (vm mm)) a.
Proof.
  intros H Hm Hg. unfold view. destruct (g !! (a / 4096)) as [[[fr w] x]|] eqn:E; [|done]. cbn [mbind option_bind]. f_equal.
  destruct (Hg _ _ _ eq_refl) as (w' & x' & E'). destruct (o_mapped _ _ H _ _ _ _ E') as (q & -> & Hq & _).
  destruct (arena_pages mm f H) as (A & EA & _). pose proof (Z.mod_pos_bound a 4096 ltac:(lia)).
  change kGuestFloor with 0x200000 in *. apply Hm. lia.
Qed.

Lemma unmap_one_spec (mm : Mm) (f : Flat) (gva : Z) :
  mm_ok mm f -> is_u64 gva ->
  exists mm', unmap_one gva mm = (true, mm') /\ mm_ok mm' (delete (gva / 4096) f) /\ same_books mm mm'
    /\ forall a, is_u64 a -> fetch (vm mm') a = if decide (a / 4096 = gva / 4096) then None else fetch (vm mm) a.
Proof.
  intros H Hg. unfold unmap_one. assert (Ew := mmu_view mm f gva H Hg). rewrite Ew.
  destruct (flat_at f gva) as [w|] eqn:E.
  2:{ assert (En : f !! (gva / 4096) = None).
      { revert E. unfold flat_at. by destruct (f !! (gva / 4096)) as [[[]]|]. }
      exists mm. rewrite (delete_id f) by done. split; [done|]. split; [done|]. split; [done|]. intros a Ha.
      destruct (decide _) as [Ea|]; [|done]. rewrite (fetch_view mm f a H Ha). unfold view. by rewrite Ea, En. }
  assert (Cg := mmu_canonical _ _ _ Ew). destruct (o_models _ _ H) as (T & HM).
  destruct (exec_models (Unmap gva) (vm mm) f T (conj Hg Cg) HM) as (d & v' & T' & Ee & M & _ & B & _ & P).
  cbn [exec flat_step] in *. injection Ee as _ <-. unfold flat_at in E.
  destruct (f !! (gva / 4096)) as [[[fr w1] x1]|] eqn:Ef; [|done]. injection E as <-. cbn [gpa].
  destruct (o_mapped _ _ H _ _ _ _ Ef) as (q & -> & Hq & Hqt). change kGuestFloor with 0x200000 in Hq.
  pose proof (Z.mod_pos_bound gva 4096 ltac:(lia)) as Hm.
  destruct (Frames.free_spec (frames mm) (q * 4096 + gva mod 4096) (o_wf _ _ H) ltac:(lia)) as (W' & P' & F).
  set (fa' := if q * 4096 + gva mod 4096 =? gva then frames mm else Frames.free (frames mm) (q * 4096 + gva mod 4096)).
  assert (H' : mm_ok (with_vm (with_frames mm fa') (unmap_page gva (vm mm))) (delete (gva / 4096) f)).
  { apply (dropped_ok mm f T'); try done; unfold fa'; zcases; try done; [apply (o_wf _ _ H)|by left|].
    intros p Hp Hpt. rewrite F by done. destruct (decide (p = (q * 4096 + gva mod 4096) / 4096)) as [-> |]; [right|left; by rewrite bool_decide_false].
    exists w1, x1. rewrite Ef. do 3 f_equal. Z.div_mod_to_equations. lia. }
  eexists. split; [reflexivity|]. split; [unfold fa' in H'; revert H'; by destruct (q * 4096 + gva mod 4096 =? gva), mm|].
  split; [by destruct (q * 4096 + gva mod 4096 =? gva)|]. intros a Ha. etrans; [|etrans; [exact (fetch_view _ _ a H' Ha)|]].
  { unfold fa'. by destruct (q * 4096 + gva mod 4096 =? gva). }
  cbn [with_vm vm]. rewrite (view_mem mm f _ _ a H P); cbn [with_vm vm].
  2:{ intros fr w x [_ Ea]%lookup_delete_Some. eauto. }
  rewrite (fetch_view mm f a H Ha). unfold view. destruct (decide _) as [-> |]; [by rewrite lookup_delete_eq|].
  by rewrite lookup_delete_ne.
Qed.

(** *** Changing a page's flags *)

Definition recolour (w x : bool) (e : Z * bool * bool) : Z * bool * bool := (e.1.1, w, x).

(** The same frames behind the same pages. *)
Definition same_frames (f f' : Flat) : Prop := forall n, (fun e => e.1.1) <$> f' !! n = (fun e => e.1.1) <$> f !! n.

Lemma same_frames_lookup (f f' : Flat) (n fr : Z) (w x : bool) :
  same_frames f f' -> f' !! n = Some (fr, w, x) -> exists w' x', f !! n = Some (fr, w', x').
Proof.
  intros Hs E. specialize (Hs n). rewrite E in Hs. destruct (f !! n) as [[[fr' w'] x']|]; [|done].
  injection Hs as <-. by exists w', x'.
Qed.

Lemma recoloured_ok (mm : Mm) (f f' : Flat) (T' : gmap Z nat) (v' : Machine) :
  mm_ok mm f -> models v' f' T' -> ram_bytes v' = ram_bytes (vm mm) -> same_frames f f' ->
  mm_ok (with_vm mm v') f'.
Proof.
  intros H HM HB Hs. assert (Hl := fun n fr w x => same_frames_lookup f f' n fr w x Hs).
  constructor; cbn [with_vm vm frames]; rewrite ?(arena_same _ _ HB), ?HB; try apply H.
  - by exists T'.
  - intros n fr w x (w' & x' & E)%Hl. by eapply (o_mapped _ _ H).
  - intros n1 n2 fr w1 x1 w2 x2 (? & ? & E1)%Hl (? & ? & E2)%Hl. by eapply (o_alone _ _ H).
Qed.

Lemma view_frames (f f' : Flat) (m : Ram) (a : Z) : same_frames f f' -> view f' m a = view f m a.
Proof.
  intros Hs. unfold view. specialize (Hs (a / 4096)).
  destruct (f !! _) as [[[fr w] x]|], (f' !! _) as [[[fr' w'] x']|]; try done. by injection Hs as ->.
Qed.

Lemma reprotect_page_spec (mm : Mm) (f : Flat) (gva : Z) (w x : bool) :
  mm_ok mm f -> is_u64 gva -> gva mod 4096 = 0 ->
  exists d mm' f', reprotect_page gva w x mm = (d, mm') /\ mm_ok mm' f' /\ same_books mm mm'
    /\ frames mm' = frames mm
    /\ f' = (if d then alter (recolour w x) (gva / 4096) f else f)
    /\ (forall a, is_u64 a -> fetch (vm mm') a = fetch (vm mm) a).
Proof.
  intros H Hg Hg4. unfold reprotect_page. assert (Ew := mmu_view mm f gva H Hg). rewrite Ew.
  unfold flat_at in *. destruct (f !! (gva / 4096)) as [[[fr w1] x1]|] eqn:E; cbn [mbind option_bind] in *.
  2:{ exists true, mm, f. split; [done|]. split; [done|]. split; [done|]. split; [done|]. split; [|done].
      apply map_eq. intros n. destruct (decide (n = gva / 4096)) as [-> |];
        [by rewrite lookup_alter_eq, E|by rewrite lookup_alter_ne]. }
  assert (Cg := mmu_canonical _ _ _ Ew). destruct (o_models _ _ H) as (T & HM). cbn [gpa].
  rewrite Hg4, Z.add_0_r. destruct (o_mapped _ _ H _ _ _ _ E) as (q & -> & Hq & Hqt).
  destruct (arena_pages mm f H) as (A & EA & HA & _ & ER). change kGuestFloor with 0x200000 in Hq.
  destruct (map_at_models (vm mm) f T gva (q * 4096) w x HM Hg Cg) as (d & v' & T' & Ee & M' & B & _ & P).
  { apply (frame_page mm f q H). unfold in_range. lia. }
  assert (Ef : <[gva / 4096 := (q * 4096, w, x)]> f = alter (recolour w x) (gva / 4096) f).
  { apply map_eq. intros n. destruct (decide (n = gva / 4096)) as [-> |];
      [by rewrite lookup_alter_eq, lookup_insert_eq, E|by rewrite lookup_alter_ne, lookup_insert_ne]. }
  rewrite Ef in M'. set (f' := if d then alter (recolour w x) (gva / 4096) f else f) in *.
  assert (Hs : same_frames f f').
  { intros n. unfold f'. destruct d; [|done]. destruct (decide (n = gva / 4096)) as [-> |];
      [by rewrite lookup_alter_eq, E|by rewrite lookup_alter_ne]. }
  assert (H' := recoloured_ok mm f f' T' v' H M' B Hs). cbn [exec] in Ee.
  exists d, (with_vm mm v'), f'. split.
  { destruct (map_page_at _ _ _ _ _) as [[]]; by injection Ee as <- <-. }
  split; [done|]. split; [done|]. split; [done|]. split; [done|]. intros a Ha.
  rewrite (fetch_view _ _ a H' Ha), (fetch_view mm f a H Ha). cbn [with_vm vm].
  rewrite (view_mem mm f f' (mem v') a H P) by (intros fr0 w0 x0; by apply same_frames_lookup). by apply view_frames.
Qed.

(** ** Ranges *)

(** The page number of [base], and the [n] from there. *)
Definition in_pages (base : Z) (n : nat) (k : Z) : Prop := base / 4096 <= k < base / 4096 + Z.of_nat n.

#[local] Instance in_pages_dec base n k : Decision (in_pages base n k).
Proof. unfold in_pages. apply _. Defined.

Lemma in_pages_0 (base k : Z) : ~ in_pages base 0 k.
Proof. unfold in_pages. lia. Qed.

Lemma in_pages_S (base : Z) (n : nat) (k : Z) : in_pages base (S n) k <-> k = base / 4096 \/ in_pages (base + 4096) n k.
Proof. unfold in_pages. pose proof (Z.div_add base 1 4096 ltac:(lia)) as E. rewrite Z.mul_1_l in E. lia. Qed.

Lemma in_pages_next (base : Z) (n : nat) : ~ in_pages (base + 4096) n (base / 4096).
Proof. unfold in_pages. pose proof (Z.div_add base 1 4096 ltac:(lia)) as E. rewrite Z.mul_1_l in E. lia. Qed.

(** A range of whole pages that does not wrap. *)
Definition pages_ok (base : Z) (n : nat) (top : Z) : Prop :=
  0 <= base /\ base mod 4096 = 0 /\ base + Z.of_nat n * 4096 <= top.

Lemma pages_ok_S (base : Z) (n : nat) (top : Z) :
  pages_ok base (S n) top -> top <= 2 ^ 64 -> is_u64 base /\ u64 base = base /\ pages_ok (base + 4096) n top.
Proof.
  intros (H1 & H2 & H3) Ht. unfold is_u64. rewrite u64_small by lia. unfold pages_ok.
  split; [lia|]. split; [done|]. split; [lia|]. split; [revert H2; Z.div_mod_to_equations; lia|lia].
Qed.

Lemma same_books_trans (m1 m2 m3 : Mm) : same_books m1 m2 -> same_books m2 m3 -> same_books m1 m3.
Proof. intros [] []. split; congruence. Qed.

Lemma unmap_loop_spec (n : nat) : forall base mm f,
  mm_ok mm f -> pages_ok base n (2 ^ 64) ->
  exists mm' f', pages_loop n base unmap_one mm = (true, mm') /\ mm_ok mm' f' /\ same_books mm mm'
    /\ (forall k, f' !! k = if decide (in_pages base n k) then None else f !! k)
    /\ (forall a, is_u64 a -> fetch (vm mm') a = if decide (in_pages base n (a / 4096)) then None else fetch (vm mm) a).
Proof.
  induction n as [|n IH]; intros base mm f H Hb; cbn [pages_loop]; change kPageSize with 4096.
  { exists mm, f. split; [done|]. split; [done|]. split; [done|].
    split; intros; by rewrite decide_False by apply in_pages_0. }
  destruct (pages_ok_S base n _ Hb ltac:(lia)) as (Hu & -> & Hb').
  destruct (unmap_one_spec mm f base H Hu) as (mm1 & -> & H1 & S1 & F1).
  destruct (IH (base + 4096) mm1 _ H1 Hb') as (mm' & f' & -> & H' & S' & L' & F').
  exists mm', f'. split; [done|]. split; [done|]. split; [by eapply same_books_trans|]. split.
  - intros k. rewrite L'. destruct (decide (k = base / 4096)) as [-> |Hk].
    + rewrite decide_False by apply in_pages_next. rewrite lookup_delete_eq.
      by rewrite decide_True by (apply in_pages_S; by left).
    + rewrite lookup_delete_ne by done. apply decide_ext. rewrite in_pages_S. tauto.
  - intros a Ha. rewrite F', F1 by done. destruct (decide (a / 4096 = base / 4096)) as [Ek|Hk].
    + rewrite (decide_True (P := in_pages base (S n) _)) by (apply in_pages_S; by left). by destruct (decide _).
    + apply decide_ext. rewrite in_pages_S. tauto.
Qed.

Lemma reprotect_loop_spec (w x : bool) (n : nat) : forall base mm f,
  mm_ok mm f -> pages_ok base n (2 ^ 64) ->
  exists d j mm' f', pages_loop n base (fun g => reprotect_page g w x) mm = (d, mm') /\ mm_ok mm' f' /\ same_books mm mm'
    /\ (j <= n)%nat /\ (d = true -> j = n)
    /\ (forall k, f' !! k = if decide (in_pages base j k) then recolour w x <$> f !! k else f !! k)
    /\ (forall a, is_u64 a -> fetch (vm mm') a = fetch (vm mm) a).
Proof.
  induction n as [|n IH]; intros base mm f H Hb; cbn [pages_loop]; change kPageSize with 4096.
  { exists true, O, mm, f. split; [done|]. split; [done|]. split; [done|]. split; [done|]. split; [done|].
    split; [|done]. intros. by rewrite decide_False by apply in_pages_0. }
  destruct (pages_ok_S base n _ Hb ltac:(lia)) as (Hu & -> & Hb').
  destruct (reprotect_page_spec mm f base w x H Hu) as (d & mm1 & f1 & -> & H1 & S1 & _ & E1 & F1); [apply Hb|].
  destruct d.
  2:{ exists false, O, mm1, f1. split; [done|]. split; [done|]. split; [done|]. split; [lia|]. split; [done|].
      split; [|done]. intros k. rewrite decide_False by apply in_pages_0. by rewrite E1. }
  destruct (IH (base + 4096) mm1 f1 H1 Hb') as (d & j & mm' & f' & -> & H' & S' & Hj & Hd & L' & F').
  exists d, (S j), mm', f'. split; [done|]. split; [done|]. split; [by eapply same_books_trans|].
  split; [lia|]. split; [intros Ed; by rewrite Hd|]. split.
  - intros k. rewrite L', E1. destruct (decide (k = base / 4096)) as [-> |Hk].
    + rewrite decide_False by apply in_pages_next. rewrite lookup_alter_eq.
      by rewrite decide_True by (apply in_pages_S; by left).
    + rewrite lookup_alter_ne by done. apply decide_ext. rewrite in_pages_S. tauto.
  - intros a Ha. by rewrite F', F1.
Qed.

Lemma canonical_low (a : Z) : 0 <= a < 2 ^ 47 -> canonical a = true.
Proof. intros Ha. unfold canonical. rewrite Z.shiftr_div_pow2, Z.div_small by lia. done. Qed.

(** What backing a range did to the map. *)
Definition filled (w x : bool) (f : Flat) (base : Z) (j : nat) (f' : Flat) : Prop :=
  forall k, if decide (in_pages base j k /\ f !! k = None)
            then exists fr, f' !! k = Some (fr, w, x) else f' !! k = f !! k.

Lemma back_loop_spec (w x : bool) (n : nat) : forall base mm f,
  mm_ok mm f -> pages_ok base n (2 ^ 47) ->
  exists d j mm' f', pages_loop n base (fun g => back_page g w x) mm = (d, mm') /\ mm_ok mm' f' /\ same_books mm mm'
    /\ (j <= n)%nat /\ (d = true -> j = n) /\ filled w x f base j f'
    /\ (forall a, is_u64 a -> fetch (vm mm') a =
          if decide (in_pages base j (a / 4096) /\ f !! (a / 4096) = None) then Some 0 else fetch (vm mm) a).
Proof.
  induction n as [|n IH]; intros base mm f H Hb; cbn [pages_loop]; change kPageSize with 4096.
  { exists true, O, mm, f. split; [done|]. split; [done|]. split; [done|]. split; [done|]. split; [done|].
    split; [intros k|intros a Ha]; rewrite decide_False; try done; intros [Hi _]; by apply in_pages_0 in Hi. }
  destruct (pages_ok_S base n _ Hb ltac:(lia)) as (Hu & -> & Hb').
  assert (Cb : canonical base = true) by (apply canonical_low; destruct Hb as (? & _ & ?); lia).
  destruct (back_page_spec mm f base w x H Hu Cb) as (d & mm1 & f1 & -> & H1 & S1 & B1 & F1 & _). destruct d.
  2:{ exists false, O, mm1, f1. split; [done|]. split; [done|]. split; [done|]. split; [lia|]. split; [done|].
      split; [intros k; rewrite decide_False; [by rewrite B1|]|intros a Ha; rewrite F1 by done; rewrite !decide_False; try done];
        intros [Hi _]; [by apply in_pages_0 in Hi|by apply in_pages_0 in Hi|done]. }
  destruct (IH (base + 4096) mm1 f1 H1 Hb') as (d & j & mm' & f' & -> & H' & S' & Hj & Hd & L' & F').
  exists d, (S j), mm', f'. split; [done|]. split; [done|]. split; [by eapply same_books_trans|].
  split; [lia|]. split; [intros Ed; by rewrite Hd|].
  assert (E1 : forall k, k <> base / 4096 -> f1 !! k = f !! k).
  { intros k Hk. unfold backed in B1. destruct (f !! (base / 4096)); [by subst f1|]. destruct B1 as [fr ->].
    by rewrite lookup_insert_ne. }
  split.
  - intros k. specialize (L' k). destruct (decide (k = base / 4096)) as [-> |Hk].
    + rewrite decide_False in L' by (intros [Hi _]; by apply in_pages_next in Hi). unfold backed in B1.
      destruct (f !! (base / 4096)) eqn:Ef; [rewrite decide_False by (by intros [_ ?]); by rewrite L', B1, Ef|].
      rewrite decide_True by (split; [apply in_pages_S; by left|done]). destruct B1 as [fr ->]. exists fr.
      by rewrite L', lookup_insert_eq.
    + rewrite (E1 k Hk) in L'. destruct (decide (in_pages base (S j) k /\ _)) as [[Hi Hn]|Hi].
      * rewrite decide_True in L'; [done|]. apply in_pages_S in Hi as [?|?]; [done|done].
      * rewrite decide_False in L'; [done|]. intros [? ?]. apply Hi. rewrite in_pages_S. tauto.
  - intros a Ha. rewrite F', F1 by done. destruct (decide (a / 4096 = base / 4096)) as [Ek|Hk].
    + rewrite Ek. rewrite (decide_False (P := in_pages (base + 4096) j _ /\ _)) by (intros [Hi _]; by apply in_pages_next in Hi).
      apply decide_ext. rewrite in_pages_S. tauto.
    + rewrite (E1 _ Hk). rewrite (decide_False (P := true = true /\ _)) by tauto. apply decide_ext. rewrite in_pages_S. tauto.
Qed.

(** ** Filling from a file *)

(** Writing into the frame of one page. *)
Lemma fill_page_spec (mm : Mm) (f : Flat) (n fr : Z) (w x : bool) (bs : list Z) :
  mm_ok mm f -> f !! n = Some (fr, w, x) -> Forall is_byte bs -> (length bs <= 4096)%nat ->
  let mm' := with_vm mm (with_mem (vm mm) (store (mem (vm mm)) fr bs)) in
  mm_ok mm' f
  /\ forall a, is_u64 a -> fetch (vm mm') a =
       if decide (a / 4096 = n /\ a mod 4096 < Z.of_nat (length bs)) then bs !! Z.to_nat (a mod 4096) else fetch (vm mm) a.
Proof.
  intros H E Hb Hl mm'. destruct (o_mapped _ _ H _ _ _ _ E) as (q & -> & Hq & _).
  destruct (arena_pages mm f H) as (A & EA & HA & _ & ER). change kGuestFloor with 0x200000 in Hq.
  destruct (o_models _ _ H) as (T & [HT HS Hs]).
  destruct (outside_tables T (vm mm) (store (mem (vm mm)) (q * 4096) bs) HT) as (HT' & HS' & Hs').
  { apply store_bytes_ok; [apply (t_bytes _ _ HT)|done]. }
  { intros a Ha. destruct (t_next _ _ HT) as [_ Hn]. rewrite peek_store, decide_False; [done|]. lia. }
  assert (H' : mm_ok mm' f).
  { apply (recoloured_ok mm f f T); [done| |done|done]. constructor; [done|by apply HS'|]. intros a Ha. rewrite Hs'. by apply Hs. }
  split; [done|]. intros a Ha. rewrite (fetch_view mm' f a H' Ha), (fetch_view mm f a H Ha). unfold view, mm'.
  cbn [with_vm vm with_mem mem]. pose proof (Z.mod_pos_bound a 4096 ltac:(lia)) as Hm.
  destruct (decide (a / 4096 = n)) as [-> |Hne].
  - rewrite E. cbn [mbind option_bind]. rewrite peek_store. destruct (decide (a mod 4096 < Z.of_nat (length bs))).
    + rewrite (decide_True (P := n = n /\ _)), decide_True by (done || lia).
      replace (q * 4096 + a mod 4096 - q * 4096) with (a mod 4096) by lia.
      symmetry. apply list_lookup_lookup_total_lt. lia.
    + by rewrite (decide_False (P := n = n /\ _)), decide_False by (intros; lia).
  - rewrite decide_False by tauto. destruct (f !! (a / 4096)) as [[[fr' w'] x']|] eqn:E'; [|done]. cbn [mbind option_bind]. f_equal.
    destruct (o_mapped _ _ H _ _ _ _ E') as (q' & -> & Hq' & _). rewrite peek_store, decide_False; [done|].
    assert (q <> q') by (intros <-; apply Hne; by eapply (o_alone _ _ H)). lia.
Qed.

Lemma view_at_page (mm : Mm) (f : Flat) (gva fr : Z) (w x : bool) :
  mm_ok mm f -> is_u64 gva -> gva mod 4096 = 0 -> f !! (gva / 4096) = Some (fr, w, x) ->
  view_at (vm mm) gva kPageSize = Some (fr, 4096).
Proof.
  intros H Hg Hg4 E. unfold view_at. rewrite (mmu_view mm f gva H Hg). unfold flat_at. rewrite E.
  cbn [mbind option_bind to_page_end gpa]. rewrite Hg4, Z.add_0_r. destruct (o_mapped _ _ H _ _ _ _ E) as (q & -> & Hq & _).
  destruct (arena_pages mm f H) as (A & EA & HA & _ & ER). change kGuestFloor with 0x200000 in Hq.
  change kPageSize with 4096. unfold at_, permits, span, ram. cbn [ram_size ram_floor]. change kGuestFloor with 0x200000.
  by zcases.
Qed.

(** A file with these contents, as [ReadFile] documents it: as many bytes as
    there are, none at the end. *)
Record reads (file : HostFile) (c : list Z) : Prop := {
  r_seek : forall pos, 0 <= pos < 2 ^ 63 -> SetFilePointerEx file pos = true;
  r_read : forall pos n, 0 <= pos -> 0 <= n -> ReadFile file pos n = Some (take (Z.to_nat n) (drop (Z.to_nat pos) c));
  r_bytes : Forall is_byte c
}.

(** The first page and the rest. *)
Lemma fill_cases (base pos a : Z) (n : nat) (c : list Z) (old : option Z) :
  let bs := take 4096 (drop (Z.to_nat pos) c) in
  Z.of_nat (length bs) = Z.max 0 (Z.min 4096 (Z.of_nat (length c) - pos)) ->
  0 <= pos -> 0 <= base -> base mod 4096 = 0 -> is_u64 a ->
  (if decide (in_pages (base + 4096) n (a / 4096) /\ pos + Z.of_nat (length bs) + (a - (base + 4096)) < Z.of_nat (length c))
   then c !! Z.to_nat (pos + Z.of_nat (length bs) + (a - (base + 4096)))
   else if decide (a / 4096 = base / 4096 /\ a mod 4096 < Z.of_nat (length bs))
        then bs !! Z.to_nat (a mod 4096) else old)
  = if decide (in_pages base (S n) (a / 4096) /\ pos + (a - base) < Z.of_nat (length c))
    then c !! Z.to_nat (pos + (a - base)) else old.
Proof.
  intros bs El Hp Hb Hb4 Ha. pose proof (Z.mod_pos_bound a 4096 ltac:(lia)) as Hm.
  assert (Hd : a - base = (a / 4096 - base / 4096) * 4096 + a mod 4096).
  { revert Hb4. Z.div_mod_to_equations. lia. }
  destruct (decide (a / 4096 = base / 4096)) as [Ek|Hk].
  - rewrite decide_False by (rewrite Ek; intros [Hi _]; by apply in_pages_next in Hi).
    assert (Hd' : a - base = a mod 4096) by lia. rewrite Hd'.
    destruct (decide (a mod 4096 < Z.of_nat (length bs))) as [Hl|Hl].
    + rewrite !decide_True by (rewrite ?in_pages_S; split; [by auto|lia]).
      unfold bs. rewrite lookup_take_lt, lookup_drop by lia. f_equal. lia.
    + rewrite !decide_False by (intros [_ ?]; lia). done.
  - rewrite (decide_False (P := a / 4096 = base / 4096 /\ _)) by tauto.
    destruct (decide (in_pages (base + 4096) n (a / 4096))) as [Hi|Hi].
    + assert (4096 <= a - base) by (unfold in_pages in Hi; pose proof (Z.div_add base 1 4096 ltac:(lia)) as E; rewrite Z.mul_1_l in E; lia).
      destruct (decide (Z.of_nat (length bs) = 4096)) as [E4|E4].
      * rewrite E4. replace (pos + 4096 + (a - (base + 4096))) with (pos + (a - base)) by lia.
        apply decide_ext. rewrite in_pages_S. tauto.
      * rewrite !decide_False by (intros [_ ?]; lia). done.
    + rewrite !decide_False; [done| |tauto]. rewrite in_pages_S. tauto.
Qed.

Lemma file_fill_spec (file : HostFile) (c : list Z) (n : nat) : forall base pos mm f,
  mm_ok mm f -> pages_ok base n (2 ^ 64) -> reads file c -> 0 <= pos ->
  (forall k, in_pages base n k -> is_Some (f !! k)) ->
  exists mm', fill_loop n base pos file mm = (true, mm') /\ mm_ok mm' f /\ same_books mm mm'
    /\ forall a, is_u64 a -> fetch (vm mm') a =
         if decide (in_pages base n (a / 4096) /\ pos + (a - base) < Z.of_nat (length c))
         then c !! Z.to_nat (pos + (a - base)) else fetch (vm mm) a.
Proof.
  induction n as [|n IH]; intros base pos mm f H Hb Hr Hp Hs; cbn [fill_loop]; change kPageSize with 4096.
  { exists mm. split; [done|]. split; [done|]. split; [done|]. intros a Ha. rewrite decide_False; [done|].
    intros [Hi _]. by apply in_pages_0 in Hi. }
  destruct (pages_ok_S base n _ Hb ltac:(lia)) as (Hu & -> & Hb'). destruct Hb as (Hb0 & Hb4 & _).
  destruct (Hs (base / 4096)) as [[[fr w] x] E]; [apply in_pages_S; by left|].
  rewrite (view_at_page mm f base fr w x H Hu Hb4 E : view_at _ _ 4096 = _), (r_read _ _ Hr) by lia.
  change (Z.to_nat 4096) with 4096%nat in *. set (bs := take 4096 (drop (Z.to_nat pos) c)).
  assert (El : Z.of_nat (length bs) = Z.max 0 (Z.min 4096 (Z.of_nat (length c) - pos))).
  { unfold bs. rewrite length_take, length_drop. lia. }
  assert (Hbs : Forall is_byte bs) by (apply Forall_take, Forall_drop, (r_bytes _ _ Hr)).
  destruct (fill_page_spec mm f _ fr w x bs H E Hbs ltac:(lia)) as [H1 F1].
  destruct (decide (bs = [])) as [Eb|Hne].
  { rewrite Eb in *. exists mm. split; [done|]. split; [done|]. split; [done|]. intros a Ha. rewrite decide_False; [done|].
    intros [Hi Hlt]. unfold in_pages in Hi. cbn [length] in El. revert Hb4 Hi. Z.div_mod_to_equations. lia. }
  destruct (IH (base + 4096) (pos + Z.of_nat (length bs)) _ f H1 Hb' Hr) as (mm' & E' & H' & S' & F'); [lia| |].
  { intros k Hk. apply Hs, in_pages_S. by right. }
  exists mm'. split; [by destruct bs|]. split; [done|]. split; [done|]. intros a Ha. rewrite F', F1 by done.
  apply fill_cases; done.
Qed.

(** Whatever a file answers, as long as it answers bytes and no more than
    asked. *)
Definition honest (file : HostFile) : Prop :=
  forall pos n bs, ReadFile file pos n = Some bs -> Forall is_byte bs /\ Z.of_nat (length bs) <= Z.max 0 n.

Lemma fill_loop_ok (file : HostFile) (n : nat) : forall base pos mm f,
  mm_ok mm f -> pages_ok base n (2 ^ 64) -> honest file ->
  exists d mm', fill_loop n base pos file mm = (d, mm') /\ mm_ok mm' f /\ same_books mm mm'
    /\ forall a, is_u64 a -> ~ in_pages base n (a / 4096) -> fetch (vm mm') a = fetch (vm mm) a.
Proof.
  induction n as [|n IH]; intros base pos mm f H Hb Hh; cbn [fill_loop]; change kPageSize with 4096.
  { by exists true, mm. }
  destruct (pages_ok_S base n _ Hb ltac:(lia)) as (Hu & -> & Hb'). destruct Hb as (Hb0 & Hb4 & _).
  assert (Hin : forall k, ~ in_pages base (S n) k -> k <> base / 4096 /\ ~ in_pages (base + 4096) n k).
  { intros k Hk. rewrite in_pages_S in Hk. tauto. }
  destruct (f !! (base / 4096)) as [[[fr w] x]|] eqn:E.
  2:{ assert (Ev : view_at (vm mm) base 4096 = None).
      { unfold view_at. rewrite (mmu_view mm f base H Hu). unfold flat_at. by rewrite E. }
      rewrite Ev. destruct (IH (base + 4096) pos mm f H Hb' Hh) as (d & mm' & E' & H' & S' & F').
      exists d, mm'. split; [done|]. split; [done|]. split; [done|]. intros a Ha Hi. by apply F', Hin. }
  rewrite (view_at_page mm f base fr w x H Hu Hb4 E : view_at _ _ 4096 = _).
  destruct (ReadFile file pos 4096) as [bs|] eqn:Er; [|by exists false, mm]. destruct (Hh _ _ _ Er) as [Hbs Hl].
  destruct (decide (bs = [])) as [-> |Hne]; [by exists true, mm|].
  destruct (fill_page_spec mm f _ fr w x bs H E Hbs ltac:(lia)) as [H1 F1].
  destruct (IH (base + 4096) (pos + Z.of_nat (length bs)) _ f H1 Hb' Hh) as (d & mm' & E' & H' & S' & F').
  exists d, mm'. split; [by destruct bs|]. split; [done|]. split; [done|]. intros a Ha [Hk Hi]%Hin.
  rewrite F', F1, decide_False by (done || tauto). done.
Qed.

(** ** The map of areas *)

(** Well formed, and all of it in the lower half of the address space. *)
Record space_ok (s : Space.AddressSpace) : Prop := {
  s_wf : Space.wf s;
  s_high : Space.arena_high_ s <= 2 ^ 47;
  s_low : forall a, Space.attr_at (Space.vmas_ s) a <> None -> a < 2 ^ 47;
  s_brk : Space.brk_cur_ s <= 2 ^ 47
}.

Lemma page_up_same (a : Z) : Space.page_up a = page_up a.
Proof. unfold Space.page_up, page_up. do 2 f_equal. unfold kPageMask, Space.kPageSize, kPageSize. lia. Qed.

Lemma page_down_same (a : Z) : Space.page_down a = page_down a.
Proof. done. Qed.

Lemma up_small (a : Z) : 0 <= a < 2 ^ 63 -> page_up a mod 4096 = 0 /\ a <= page_up a < a + 4096.
Proof. intros Ha. rewrite <- page_up_same. apply (Space.page_up_spec a); unfold Space.kPageSize; lia. Qed.

Lemma down_small (a : Z) : is_u64 a -> page_down a mod 4096 = 0 /\ 0 <= page_down a <= a /\ a < page_down a + 4096.
Proof. intros Ha. rewrite <- page_down_same. apply (Space.page_down_spec a Ha). Qed.

Lemma map_cases (s : Space.AddressSpace) (hint len : Z) (p : Space.GuestProt) (fixed anon : bool) :
  space_ok s -> is_u64 hint -> 0 < len -> hint + len < 2 ^ 63 ->
  let r := Space.map s hint len p fixed anon in
  r = (s, Space.kFail)
  \/ (space_ok r.1 /\ pages_ok r.2 (page_count (page_up len)) (2 ^ 47) /\ r.2 <> Space.kFail
      /\ (fixed = true -> hint <> 0 -> r.2 = page_down hint)).
Proof.
  intros HS Hh Hl Hb r. destruct HS as [Hwf Hhi Hlow Hbrk]. destruct (up_small len ltac:(unfold is_u64 in Hh; lia)) as [Hu4 Hu].
  destruct (down_small hint Hh) as (Hd4 & Hd & _).
  enough (Hm : r = (s, Space.kFail) \/ (Space.mapped_at s r.1 r.2 (page_up len) p anon
    /\ Space.arena_high_ r.1 = Space.arena_high_ s /\ Space.brk_cur_ r.1 = Space.brk_cur_ s
    /\ (fixed = true -> hint <> 0 -> r.2 = page_down hint))).
  { destruct Hm as [|((W & Hal & H0 & Hle & Hat) & Ea & Eb & Ef)]; [by left|right].
    split; [constructor; [done|by rewrite Ea| |by rewrite Eb]|].
    { intros a. rewrite Hat. unfold Space.within. zcases; [intros _; lia|apply Hlow|apply Hlow]. }
    split; [|split; [unfold Space.kFail; lia|done]]. split; [done|]. split; [done|].
    unfold page_count. change kPageMask with 4095. change kPageSize with 4096.
    rewrite Z2Nat.id by (apply Z.div_pos; lia). revert Hu4. Z.div_mod_to_equations. lia. }
  unfold r, Space.map. rewrite page_up_same, page_down_same. rewrite (proj2 (Z.eqb_neq _ _)) by lia.
  destruct (fixed && negb (hint =? 0)) eqn:E.
  - apply andb_prop in E as [-> _]. rewrite (u64_small (page_down hint + page_up len)) by lia.
    destruct ((page_down hint <? _) || (_ <? _)) eqn:Eb; [by left|right]. apply orb_false_iff in Eb as [E1 E2].
    rewrite <- (u64_small (page_down hint + page_up len)) by lia.
    cbn [fst snd]. split; [apply Space.map_fixed_spec; [done|exact Hd4|exact Hu4|lia|lia|lia|lia]|].
    rewrite (Space.unmap_shape s). done.
  - destruct (Space.find_gap s (page_up len)) eqn:Hg; [right|by left].
    cbn [fst snd]. split; [apply Space.map_gap_spec; [done|exact Hu4|lia|done]|]. split; [done|]. split; [done|]. intros -> Hz. cbn in E.
    apply negb_false_iff in E. lia.
Qed.

Lemma unmap_space (s : Space.AddressSpace) (addr len : Z) :
  space_ok s -> 0 <= addr -> 0 <= len -> addr + len < 2 ^ 63 -> space_ok (Space.unmap s addr len).
Proof.
  intros [Hwf Hhi Hlow Hbrk] Ha Hl Hb. assert (Hr : Space.range_ok addr len) by (unfold Space.range_ok, Space.kPageSize; lia).
  destruct (Space.unmap_vmas s addr len Hwf Hr) as (_ & _ & _ & Hat).
  constructor; [by apply Space.unmap_wf|by rewrite Space.unmap_shape| |by rewrite Space.unmap_shape].
  intros a. rewrite Hat. destruct (Space.within _ _ _); [done|apply Hlow].
Qed.

Lemma protect_space (s : Space.AddressSpace) (addr len : Z) (p : Space.GuestProt) :
  space_ok s -> 0 <= addr -> 0 <= len -> addr + len < 2 ^ 63 -> space_ok (Space.protect s addr len p).1.
Proof.
  intros [Hwf Hhi Hlow Hbrk] Ha Hl Hb. assert (Hr : Space.range_ok addr len) by (unfold Space.range_ok, Space.kPageSize; lia).
  assert (W := Space.protect_wf s addr len p Hwf Hr). destruct (Space.range_ok_pages _ _ Hr) as (Hu & (? & ?) & (? & ?)).
  revert W. unfold Space.protect. rewrite Hu. zcases; [done|]. destruct (Space.fully_mapped _ _ _); [|done].
  cbn [negb fst]. intros W. constructor; try done.
  destruct (Space.recolour_vmas s (Space.page_down addr) (Space.page_up (addr + len)) p) as [_ Hat]; [done|lia|done|done|lia|].
  intros a. rewrite Hat. destruct (Space.within _ _ _); [|apply Hlow]. intros Hn. apply Hlow. by destruct (Space.attr_at _ a).
Qed.

Lemma ceiling_low (s : Space.AddressSpace) (l : list Space.Vma) (addr : Z) :
  (forall v, v ∈ l -> Space.begin v <= 2 ^ 47) -> Space.arena_high_ s <= 2 ^ 47 ->
  Space.ceiling_in l addr (Space.arena_high_ s) <= 2 ^ 47.
Proof.
  intros Hv Hh. induction l as [|v l IH]; cbn; [done|]. zcases; [apply Hv, list_elem_of_here|].
  apply IH. intros w Hw. apply Hv. by right.
Qed.

Lemma vma_low (s : Space.AddressSpace) (v : Space.Vma) : space_ok s -> v ∈ Space.vmas_ s -> Space.begin v <= 2 ^ 47.
Proof.
  intros [Hwf _ Hlow _] Hv. apply Z.lt_le_incl, Hlow. destruct Hwf as [Hc _ _ _ _ _].
  assert (Hb := Space.chain_In _ _ _ Hc Hv). clear Hc Hlow. revert Hv. generalize (Space.vmas_ s). intros l.
  induction l as [|w l IH]; intros Hv; [by apply elem_of_nil in Hv|]. cbn.
  apply elem_of_cons in Hv as [<- |Hv]; [by zcases|]. specialize (IH Hv). by destruct ((Space.begin w <=? _) && _).
Qed.

Lemma brk_space (s : Space.AddressSpace) (want : Z) :
  space_ok s -> 0 <= want < 2 ^ 63 ->
  let r := Space.set_brk s want in space_ok r.1 /\ r.2 = Space.brk_cur_ r.1.
Proof.
  intros HS Hw. assert (Hc := ceiling_low s (Space.vmas_ s) (Space.brk_base_ s) (fun v => vma_low s v HS) (s_high _ HS)).
  assert (W := Space.set_brk_wf s want (s_wf _ HS) ltac:(unfold is_u64; lia)). revert W. unfold Space.set_brk, Space.ceiling_above.
  zcases; try done. intros W. split; [|done]. destruct HS as [_ Hhi Hlow _]. constructor; try done. cbn.
  rewrite page_up_same in *. destruct (up_small want Hw). lia.
Qed.

(** ** Whole ranges *)

Lemma count_pages (len : Z) : 0 <= len -> len mod 4096 = 0 -> Z.of_nat (page_count len) * 4096 = len.
Proof.
  intros Hl H4. unfold page_count. change kPageMask with 4095. change kPageSize with 4096.
  rewrite Z2Nat.id by (apply Z.div_pos; lia). revert H4. Z.div_mod_to_equations. lia.
Qed.

Lemma in_pages_range (base len a : Z) :
  0 <= len -> len mod 4096 = 0 -> base mod 4096 = 0 ->
  in_pages base (page_count len) (a / 4096) <-> base <= a < base + len.
Proof.
  intros Hl H4 Hb. assert (E := count_pages len Hl H4). unfold in_pages. revert Hb E. Z.div_mod_to_equations. lia.
Qed.

Lemma unmap_range_spec (mm : Mm) (f : Flat) (base len : Z) :
  mm_ok mm f -> 0 <= base -> base mod 4096 = 0 -> 0 <= len -> len mod 4096 = 0 -> base + len <= 2 ^ 64 ->
  exists f', mm_ok (unmap_range base len mm) f' /\ same_books mm (unmap_range base len mm)
    /\ (forall a, is_u64 a -> f' !! (a / 4096) = if decide (base <= a < base + len) then None else f !! (a / 4096))
    /\ forall a, is_u64 a -> fetch (vm (unmap_range base len mm)) a
         = if decide (base <= a < base + len) then None else fetch (vm mm) a.
Proof.
  intros H Hb Hb4 Hl Hl4 Ht. unfold unmap_range. assert (E := count_pages len Hl Hl4).
  destruct (unmap_loop_spec (page_count len) base mm f H) as (mm' & f' & -> & H' & S' & L' & F'); [split; [done|split; [done|lia]]|].
  exists f'. split; [done|]. split; [done|]. assert (Hi := fun a => in_pages_range base len a Hl Hl4 Hb4).
  split; intros a Ha; [rewrite L'|cbn [snd]; rewrite F' by done]; by apply decide_ext.
Qed.

(** ** The calls *)

Lemma promised_low (mm : Mm) (page : Z) (gp : Space.GuestProt) :
  space_ok (space mm) -> 0 <= page -> promised page mm = Some gp -> page < 2 ^ 47.
Proof.
  intros HS Hp. unfold promised. destruct (Space.find (space mm) page) as [v|] eqn:E.
  - intros _. assert (Ha := proj2 (Space.find_correct (space mm) page (s_wf _ HS))). rewrite E in Ha.
    apply (s_low _ HS). by rewrite Ha.
  - destruct (is_in_brk page mm) eqn:Eb; [|done]. intros _. unfold is_in_brk in Eb. apply andb_prop in Eb as [_ Eb].
    assert (Hb := s_brk _ HS). destruct (Space.wf_brk _ (s_wf _ HS)). unfold Space.brk in *.
    destruct (up_small (Space.brk_cur_ (space mm))) as [H4 H5]; [lia|]. revert H4. Z.div_mod_to_equations. lia.
Qed.

Lemma pages_loop_1 (gva : Z) (F : Z -> Mm -> bool * Mm) (mm : Mm) : is_u64 gva -> pages_loop 1 gva F mm = F gva mm.
Proof. intros Hg. cbn [pages_loop]. rewrite u64_small by done. by destruct (F gva mm) as [[] ?]. Qed.

(** What a fault may do. *)
Lemma fault_spec (mm : Mm) (f : Flat) (gva : Z) :
  mm_ok mm f -> space_ok (space mm) -> is_u64 gva ->
  exists d mm' f', handle_fault gva mm = (d, mm') /\ mm_ok mm' f' /\ same_books mm mm'
    /\ match promised (page_down gva) mm with
       | None => d = false /\ mm' = mm
       | Some gp =>
           (if d then backed (has_write gp) (has_exec gp) f (gva / 4096) f'
            else f' = f /\ ((forall p, in_range (frames mm) p -> test (frames mm) p = true) \/ room (vm mm) < 3))
           /\ forall a, is_u64 a -> fetch (vm mm') a =
                if decide (d = true /\ a / 4096 = gva / 4096 /\ f !! (gva / 4096) = None) then Some 0 else fetch (vm mm) a
       end.
Proof.
  intros H HS Hg. destruct (down_small gva Hg) as (H4 & H0 & H1). assert (Hd := down_eq gva Hg). unfold handle_fault.
  destruct (promised (page_down gva) mm) as [gp|] eqn:Ep; [|by exists false, mm, f].
  assert (Hlow := promised_low mm _ gp HS (proj1 H0) Ep). change (page_count kPageSize) with 1%nat.
  assert (Hu : is_u64 (page_down gva)) by (unfold is_u64; lia). unfold back_range. change (page_count kPageSize) with 1%nat.
  rewrite pages_loop_1 by done.
  destruct (back_page_spec mm f (page_down gva) (has_write gp) (has_exec gp) H Hu) as (d & mm' & f' & -> & H' & S' & B & F & D);
    [apply canonical_low; lia|].
  assert (En : page_down gva / 4096 = gva / 4096) by (by rewrite Hd, Z.div_mul). rewrite En in B, F.
  exists d, mm', f'. split; [done|]. split; [done|]. split; [done|]. split; [destruct d; auto|done].
Qed.

(** Consistent books. *)
Definition sound (mm : Mm) : Prop := exists f, mm_ok mm f /\ space_ok (space mm).

(** Addresses and lengths that do not wrap. *)
Definition plain (addr len : Z) : Prop := 0 <= addr /\ 0 <= len /\ addr + len < 2 ^ 62.

Lemma with_space_ok (mm : Mm) (s : Space.AddressSpace) (f : Flat) : mm_ok mm f -> mm_ok (with_space mm s) f.
Proof. by intros []. Qed.

Lemma aligned_bit (addr : Z) : 0 <= addr -> bit addr kPageMask = false -> addr mod 4096 = 0.
Proof.
  intros Ha. unfold bit. change kPageMask with (Z.ones 12). rewrite Z.land_ones by lia. change (2 ^ 12) with 4096.
  intros H%negb_false_iff. lia.
Qed.

Lemma munmap_spec (mm : Mm) (addr len : Z) :
  sound mm -> plain addr len -> 0 < len -> bit addr kPageMask = false ->
  let '(r, mm') := do_munmap addr len mm in
  r = 0 /\ sound mm'
  /\ forall a, is_u64 a -> fetch (vm mm') a = if decide (addr <= a < addr + page_up len) then None else fetch (vm mm) a.
Proof.
  intros (f & H & HS) (Ha & _ & Hb) Hl Hal. unfold do_munmap. rewrite Hal, (proj2 (Z.eqb_neq _ _)) by lia. cbn [orb].
  destruct (up_small len ltac:(lia)) as [Hu4 Hu]. assert (Ha4 := aligned_bit addr Ha Hal).
  destruct (unmap_range_spec mm f addr (page_up len) H) as (f' & H' & [Es _] & _ & F'); [lia|done|lia|done|lia|].
  split; [done|]. split; [|done]. exists f'. split; [by apply with_space_ok|]. cbn [with_space space]. rewrite Es.
  apply unmap_space; (done || lia).
Qed.

Lemma mprotect_spec (mm : Mm) (f : Flat) (addr len prot : Z) :
  mm_ok mm f -> space_ok (space mm) -> plain addr len ->
  exists r mm' f', do_mprotect addr len prot mm = (r, mm') /\ mm_ok mm' f' /\ space_ok (space mm')
    /\ (forall a, is_u64 a -> fetch (vm mm') a = fetch (vm mm) a)
    /\ (r = 0 -> let gp := Space.prot_from_linux prot in forall a, is_u64 a ->
          f' !! (a / 4096) = if decide (addr <= a < addr + page_up len)
                             then recolour (has_write gp) (has_exec gp) <$> f !! (a / 4096) else f !! (a / 4096)).
Proof.
  intros H HS (Ha & Hl & Hb). unfold do_mprotect. destruct (bit addr kPageMask) eqn:Hal.
  { exists (neg_errno einval), mm, f. done. }
  destruct (up_small len ltac:(lia)) as [Hu4 Hu]. assert (Ha4 := aligned_bit addr Ha Hal).
  set (gp := Space.prot_from_linux prot). assert (HP := protect_space (space mm) addr (page_up len) gp HS ltac:(lia) ltac:(lia) ltac:(lia)).
  destruct (Space.protect (space mm) addr (page_up len) gp) as [s granted]. cbn [fst] in HP.
  assert (H1 := with_space_ok mm s f H). destruct granted; cbn [negb].
  2:{ exists (neg_errno enomem), (with_space mm s), f. done. }
  unfold reprotect. assert (Ec := count_pages (page_up len) ltac:(lia) Hu4).
  destruct (reprotect_loop_spec (has_write gp) (has_exec gp) (page_count (page_up len)) addr (with_space mm s) f H1)
    as (d & j & mm' & f' & -> & H' & [S' _] & Hj & Hd & L' & F'); [split; [done|split; [done|lia]]|].
  assert (HS' : space_ok (space mm')) by (by rewrite S'). destruct d.
  - exists 0, mm', f'. split; [done|]. split; [done|]. split; [done|]. split; [done|]. intros _ a Hu64.
    rewrite L', Hd by done. apply decide_ext. apply in_pages_range; (done || lia).
  - exists (neg_errno enomem), mm', f'. done.
Qed.

Lemma brk_spec (mm : Mm) (f : Flat) (addr : Z) :
  mm_ok mm f -> space_ok (space mm) -> 0 <= addr < 2 ^ 63 ->
  exists mm' f', (do_brk addr mm) = (Space.brk (space mm'), mm') /\ mm_ok mm' f' /\ space_ok (space mm')
    /\ forall a, is_u64 a -> fetch (vm mm') a =
         if decide (page_up (Space.brk (space mm')) <= a < page_up (Space.brk (space mm))) then None else fetch (vm mm) a.
Proof.
  intros H HS Ha. unfold do_brk. destruct (brk_space (space mm) addr HS Ha) as [HS1 Er].
  destruct (Space.set_brk (space mm) addr) as [s now]. cbn [fst snd] in *. rewrite Er. unfold Space.brk.
  assert (H1 := with_space_ok mm s f H). set (b0 := Space.brk_cur_ (space mm)). set (b1 := Space.brk_cur_ s).
  assert (R0 : 0 <= b0 <= 2 ^ 47) by (split; [destruct (Space.wf_brk _ (s_wf _ HS)); unfold b0; lia|apply (s_brk _ HS)]).
  assert (R1 : 0 <= b1 <= 2 ^ 47) by (split; [destruct (Space.wf_brk _ (s_wf _ HS1)); unfold b1; lia|apply (s_brk _ HS1)]).
  destruct (up_small b0 ltac:(lia)) as [U0 V0], (up_small b1 ltac:(lia)) as [U1 V1].
  assert (Hmono : b1 < b0 -> page_up b1 <= page_up b0) by (intros; revert U0 U1; Z.div_mod_to_equations; lia).
  assert (Hmono' : b0 <= b1 -> page_up b0 <= page_up b1) by (intros; revert U0 U1; Z.div_mod_to_equations; lia).
  zcases.
  - rewrite u64_small by lia.
    destruct (unmap_range_spec (with_space mm s) f (page_up b1) (page_up b0 - page_up b1) H1) as (f' & H' & [Es _] & _ & F');
      [lia|done|lia|revert U0 U1; Z.div_mod_to_equations; lia|lia|].
    eexists _, f'. cbn [with_space space] in Es. rewrite Es. split; [done|]. split; [done|]. split; [done|].
    intros a Hu. rewrite F' by done. replace (page_up b1 + (page_up b0 - page_up b1)) with (page_up b0) by lia. done.
  - exists (with_space mm s), f. split; [done|]. split; [done|]. split; [done|]. intros a Hu. cbn [with_space space vm]. fold b1.
    by rewrite decide_False by lia.
Qed.

(** *** Mapping a file *)

Lemma fill_from_file_ok (mm : Mm) (f : Flat) (base len off : Z) (file : HostFile) :
  mm_ok mm f -> pages_ok base (page_count len) (2 ^ 64) -> honest file ->
  exists d mm', fill_from_file base len file off mm = (d, mm') /\ mm_ok mm' f /\ same_books mm mm'
    /\ forall a, is_u64 a -> ~ in_pages base (page_count len) (a / 4096) -> fetch (vm mm') a = fetch (vm mm) a.
Proof.
  intros H Hb Hh. unfold fill_from_file. destruct (SetFilePointerEx file (i64 off)); cbn [negb]; [|by exists false, mm].
  by apply fill_loop_ok.
Qed.

Lemma pages_ok_weaken (base : Z) (n : nat) (t1 t2 : Z) : pages_ok base n t1 -> t1 <= t2 -> pages_ok base n t2.
Proof. intros (? & ? & ?) ?. split; [done|]. split; [done|lia]. Qed.

Lemma map_file_ok (mm : Mm) (f : Flat) (at_ len off : Z) (gp : Space.GuestProt) (file : HostFile) :
  mm_ok mm f -> space_ok (space mm) -> 0 < len -> len mod 4096 = 0 -> pages_ok at_ (page_count len) (2 ^ 47) -> honest file ->
  exists r mm' f', map_file at_ len gp file off mm = (r, mm') /\ mm_ok mm' f' /\ space_ok (space mm')
    /\ forall a, is_u64 a -> ~ (at_ <= a < at_ + len) -> fetch (vm mm') a = fetch (vm mm) a.
Proof.
  intros H HS Hl Hl4 Hp Hh. unfold map_file, back_range. assert (Hc := count_pages len ltac:(lia) Hl4).
  assert (Hp' := pages_ok_weaken _ _ _ (2 ^ 64) Hp ltac:(lia)). destruct Hp as (H0 & H4 & Ht).
  assert (Hi := fun a => in_pages_range at_ len a ltac:(lia) Hl4 H4).
  assert (Hun : forall m, space_ok (space m) -> space_ok (Space.unmap (space m) at_ len)) by (intros; apply unmap_space; (done || lia)).
  destruct (back_loop_spec true (has_exec gp) (page_count len) at_ mm f H) as (d & j & m1 & f1 & -> & H1 & [S1 B1] & Hj & _ & _ & F1);
    [done|]. assert (Hsub : forall a, in_pages at_ j (a / 4096) -> at_ <= a < at_ + len).
  { intros a Hin. apply Hi. unfold in_pages in *. lia. }
  assert (F1' : forall a, is_u64 a -> ~ (at_ <= a < at_ + len) -> fetch (vm m1) a = fetch (vm mm) a).
  { intros a Ha Hn. rewrite F1, decide_False by (done || intros [? _]; auto). done. }
  destruct d.
  2:{ eexists _, _, f1. split; [done|]. split; [by apply with_space_ok|]. split; [|done]. cbn [with_space space]. rewrite S1. auto. }
  destruct (fill_from_file_ok m1 f1 at_ len off file H1 Hp' Hh) as (d & m2 & -> & H2 & [S2 B2] & F2).
  assert (F2' : forall a, is_u64 a -> ~ (at_ <= a < at_ + len) -> fetch (vm m2) a = fetch (vm mm) a).
  { intros a Ha Hn. rewrite F2, F1' by (done || by rewrite Hi). done. }
  destruct d.
  - destruct (has_write gp); [exists (i64 at_), m2, f1; split; [done|]; split; [done|]; split; [|done]; by rewrite S2, S1|].
    destruct (reprotect_loop_spec false (has_exec gp) (page_count len) at_ m2 f1 H2 Hp') as (d & j3 & m3 & f3 & E3 & H3 & [S3 _] & _ & _ & _ & F3).
    unfold reprotect. rewrite E3. exists (i64 at_), m3, f3. split; [done|]. split; [done|]. split; [by rewrite S3, S2, S1|].
    intros a Ha Hn. by rewrite F3, F2'.
  - destruct (unmap_range_spec m2 f1 at_ len H2) as (f3 & H3 & [S3 _] & _ & F3); [done|done|lia|done|lia|].
    eexists _, _, f3. split; [done|]. split; [by apply with_space_ok|]. split; [cbn [with_space space]; rewrite S3, S2, S1; auto|].
    intros a Ha Hn. cbn [with_space vm]. rewrite F3, decide_False by done. by apply F2'.
Qed.

Lemma mmap_ok (mm : Mm) (addr len prot flags off : Z) (file : option HostFile) :
  sound mm -> plain addr len -> (forall x, file = Some x -> honest x) -> sound (do_mmap addr len prot flags file off mm).2.
Proof.
  intros (f & H & HS) (Ha & Hl & Hb) Hh. unfold do_mmap. zcases; [by exists f|].
  destruct (up_small len ltac:(lia)) as [Hu4 Hu], (down_small addr ltac:(unfold is_u64; lia)) as (Hd4 & Hd & _).
  set (gp := Space.prot_from_linux prot). set (fixed := bit flags kMapFixed). set (anon := _ || _).
  set (mm0 := if fixed then _ else mm).
  assert (H0 : exists f0, mm_ok mm0 f0 /\ space_ok (space mm0)).
  { unfold mm0. destruct fixed; [|by exists f].
    destruct (unmap_range_spec mm f (page_down addr) (page_up len) H) as (f0 & H0 & [S0 _] & _); [lia|done|lia|done|lia|].
    exists f0. by rewrite S0. }
  destruct H0 as (f0 & H0 & HS0).
  assert (HM := map_cases (space mm0) addr len gp fixed anon HS0 ltac:(unfold is_u64; lia) ltac:(lia) ltac:(lia)).
  destruct (Space.map (space mm0) addr len gp fixed anon) as [s at_]. cbn [fst snd] in HM.
  destruct HM as [[= -> ->]|(HS1 & Hp & Hne & _)].
  { rewrite Z.eqb_refl. exists f0. by split; [apply with_space_ok|]. }
  rewrite (proj2 (Z.eqb_neq _ _) Hne). assert (H1 := with_space_ok mm0 s f0 H0).
  destruct file as [file|]; [|by exists f0]. destruct anon; [by exists f0|].
  destruct (map_file_ok (with_space mm0 s) f0 at_ (page_up len) off gp file H1 HS1) as (r & mm' & f' & -> & H' & HS' & _);
    [lia|done|done|by apply Hh|]. by exists f'.
Qed.

Lemma map_file_reads (mm : Mm) (f : Flat) (at_ len off : Z) (gp : Space.GuestProt) (file : HostFile) (c : list Z) :
  mm_ok mm f -> 0 < len -> len mod 4096 = 0 -> pages_ok at_ (page_count len) (2 ^ 47) ->
  reads file c -> 0 <= off < 2 ^ 63 -> (forall a, is_u64 a -> at_ <= a < at_ + len -> f !! (a / 4096) = None) ->
  exists r mm', map_file at_ len gp file off mm = (r, mm')
    /\ (r = neg_errno enomem
        \/ r = at_ /\ forall a, is_u64 a -> at_ <= a < at_ + len ->
             fetch (vm mm') a = Some (default 0 (c !! Z.to_nat (off + (a - at_))))).
Proof.
  intros H Hl Hl4 Hp Hr Ho Hab. unfold map_file, back_range. assert (Hc := count_pages len ltac:(lia) Hl4).
  assert (Hp' := pages_ok_weaken _ _ _ (2 ^ 64) Hp ltac:(lia)). pose proof Hp as (H0 & H4 & Ht).
  assert (Hi := fun a => in_pages_range at_ len a ltac:(lia) Hl4 H4).
  assert (Hin : forall k, in_pages at_ (page_count len) k -> is_u64 (k * 4096) /\ at_ <= k * 4096 < at_ + len).
  { intros k Hk. rewrite <- Hi, Z.div_mul by done. split; [|done]. unfold in_pages in Hk. unfold is_u64.
    revert H4. Z.div_mod_to_equations. lia. }
  destruct (back_loop_spec true (has_exec gp) (page_count len) at_ mm f H Hp) as (d & j & m1 & f1 & -> & H1 & _ & _ & Hd & L1 & F1).
  destruct d; [|eexists _, _; split; [done|by left]]. rewrite Hd in * by done.
  destruct (file_fill_spec file c (page_count len) at_ off m1 f1 H1 Hp' Hr) as (m2 & E2 & H2 & _ & F2); [lia| |].
  { intros k Hk. specialize (L1 k). destruct (Hin k Hk) as [Hk1 Hk2]. specialize (Hab _ Hk1 Hk2). rewrite Z.div_mul in Hab by done.
    rewrite decide_True in L1 by done. destruct L1 as [fr ->]. done. }
  unfold fill_from_file. rewrite i64_small by lia. rewrite (r_seek _ _ Hr) by lia. cbn [negb]. rewrite E2.
  assert (F2' : forall a, is_u64 a -> at_ <= a < at_ + len -> fetch (vm m2) a = Some (default 0 (c !! Z.to_nat (off + (a - at_))))).
  { intros a Ha Hn. rewrite F2 by done. destruct (decide (off + (a - at_) < Z.of_nat (length c))).
    - rewrite decide_True by (by rewrite Hi). destruct (lookup_lt_is_Some_2 c (Z.to_nat (off + (a - at_)))) as [b ->]; [lia|done].
    - rewrite decide_False by tauto. rewrite F1, decide_True by (done || by rewrite Hi; auto).
      by rewrite lookup_ge_None_2 by lia. }
  rewrite i64_small by lia. destruct (has_write gp); [eexists _, _; split; [done|by right]|]. unfold reprotect.
  destruct (reprotect_loop_spec false (has_exec gp) (page_count len) at_ m2 f1 H2 Hp') as (d & j3 & m3 & f3 & -> & _ & _ & _ & _ & _ & F3).
  eexists _, _. split; [done|]. right. split; [done|]. intros a Ha Hn. cbn [snd]. rewrite F3 by done. by apply F2'.
Qed.

(** ** Sequences *)

Definition call_ok (c : Call) : Prop :=
  match c with
  | CBrk addr => 0 <= addr < 2 ^ 63
  | CMmap addr len _ _ file _ => plain addr len /\ forall x, file = Some x -> honest x
  | CMunmap addr len => plain addr len
  | CMprotect addr len _ => plain addr len
  | CFault gva => is_u64 gva
  end.

Lemma munmap_sound (mm : Mm) (addr len : Z) : sound mm -> plain addr len -> sound (do_munmap addr len mm).2.
Proof.
  intros HM Hp. assert (HU := munmap_spec mm addr len HM Hp). unfold do_munmap in *.
  destruct (Z.eqb_spec len 0); [done|]. cbn [orb] in *. destruct (bit addr kPageMask) eqn:E; [done|].
  destruct Hp as (_ & ? & _). by apply HU; [lia|].
Qed.

Lemma do_call_sound (c : Call) (mm : Mm) : sound mm -> call_ok c -> sound (do_call c mm).
Proof.
  intros HM Hc. destruct c as [addr|addr len prot flags file off|addr len|addr len prot|gva]; cbn [do_call call_ok] in *.
  - destruct HM as (f & H & HS). destruct (brk_spec mm f addr H HS Hc) as (mm' & f' & -> & H' & HS' & _). by exists f'.
  - destruct Hc. by apply mmap_ok.
  - by apply munmap_sound.
  - destruct HM as (f & H & HS). destruct (mprotect_spec mm f addr len prot H HS Hc) as (r & mm' & f' & -> & H' & HS' & _). by exists f'.
  - destruct HM as (f & H & HS). destruct (fault_spec mm f gva H HS Hc) as (d & mm' & f' & -> & H' & [S' _] & _).
    exists f'. split; [done|]. cbn [snd]. by rewrite S'.
Qed.

Lemma calls_sound (cs : list Call) : forall mm, sound mm -> Forall call_ok cs -> sound (fold_left (fun m c => do_call c m) cs mm).
Proof.
  induction cs as [|c cs IH]; intros mm HM Hc; [done|]. apply Forall_cons in Hc as [Hc Hcs]. cbn [fold_left].
  apply IH; [|done]. by apply do_call_sound.
Qed.

(** What soundness says of the addresses themselves. *)
Lemma sound_apart (mm : Mm) (a b : Z) (wa wb : Walk) :
  sound mm -> is_u64 a -> is_u64 b -> mmu (vm mm) a = Some wa -> mmu (vm mm) b = Some wb -> gpa wa = gpa wb -> a = b.
Proof.
  intros (f & H & _) Ha Hb. rewrite (mmu_view mm f a H Ha), (mmu_view mm f b H Hb). unfold flat_at.
  destruct (f !! (a / 4096)) as [[[fa wa1] xa]|] eqn:Ea; [|done]. destruct (f !! (b / 4096)) as [[[fb wb1] xb]|] eqn:Eb; [|done].
  intros [= <-] [= <-]. cbn [gpa]. destruct (o_mapped _ _ H _ _ _ _ Ea) as (p & -> & _), (o_mapped _ _ H _ _ _ _ Eb) as (q & -> & _).
  pose proof (Z.mod_pos_bound a 4096 ltac:(lia)). pose proof (Z.mod_pos_bound b 4096 ltac:(lia)). intros E.
  assert (p = q) as -> by lia. assert (a / 4096 = b / 4096) by by eapply (o_alone _ _ H).
  rewrite (Z.div_mod a 4096), (Z.div_mod b 4096) by lia. lia.
Qed.

Lemma sound_guarded (mm : Mm) : sound mm -> guarded (vm mm).
Proof.
  intros (f & H & _) a w Ha. rewrite (mmu_view mm f a H Ha). unfold flat_at.
  destruct (f !! (a / 4096)) as [[[fr w1] x]|] eqn:E; [|done]. intros [= <-] _. cbn [gpa].
  destruct (o_mapped _ _ H _ _ _ _ E) as (p & -> & Hp & _), (arena_pages mm f H) as (A & EA & _).
  pose proof (Z.mod_pos_bound a 4096 ltac:(lia)). lia.
Qed.

(** ** The start *)

(** Every page of the image is mapped to itself. *)
Lemma init_sound (v : Machine) (f : Flat) (T : gmap Z nat) (image_end top : Z) :
  models v f T -> kGuestFloor <= image_end < table_arena_base v -> image_end <= 2 ^ 46 -> 0 <= top <= 2 ^ 47 ->
  (forall n fr w x, f !! n = Some (fr, w, x) -> fr = n * 4096 /\ kGuestFloor <= fr < image_end) ->
  sound (init v image_end top).
Proof.
  intros HM Hi Hi46 Ht Hid. pose proof HM as [HT _ _]. destruct (t_size _ _ HT) as [[Hr Hr4] Hs].
  destruct (arena_page T v HT) as [[_ Ha4] Ha]. change kGuestFloor with 0x200000 in *.
  assert (HA : table_arena_base v = ram_bytes v - 0x200000).
  { unfold table_arena_base. change kTableArenaSize with 0x200000 in *. zcases. done. }
  exists f. unfold init. cbn [space]. split.
  - destruct (Frames.init_spec (ram_bytes v) kGuestFloor (table_arena_base v)) as (W & P & Q);
      [lia|change kGuestFloor with 0x200000; lia|lia|]. change kGuestFloor with 0x200000 in *.
    destruct (Frames.reserve_spec _ 0 image_end W) as (W' & P' & Q'); [lia|lia|].
    constructor; cbn [vm frames].
    + by exists T.
    + done.
    + by rewrite P', P.
    + intros p Hp Hk. unfold in_range in Hp. rewrite P', P in Hp. rewrite Q' by (unfold in_range; by rewrite P).
      rewrite Q by done. change kGuestFloor with 0x200000 in *. apply orb_true_iff. right. apply bool_decide_true.
      revert Hr4 Ha4 Hk. Z.div_mod_to_equations. lia.
    + intros n fr w x E. destruct (Hid _ _ _ _ E) as [-> Hf]. exists n. split; [done|].
      change kGuestFloor with 0x200000 in *. split; [lia|]. assert (0 <= n < ram_bytes v / 4096) by (revert Hr4; Z.div_mod_to_equations; lia).
      rewrite Q' by (unfold in_range; by rewrite P). apply orb_true_iff. left. apply bool_decide_true.
      Z.div_mod_to_equations. lia.
    + intros n1 n2 fr w1 x1 w2 x2 E1 E2. destruct (Hid _ _ _ _ E1) as [-> _], (Hid _ _ _ _ E2) as [E _]. lia.
  - destruct (down_small top ltac:(unfold is_u64; lia)) as (_ & Hd & _), (up_small image_end ltac:(lia)) as (Hu4 & Hu).
    constructor.
    + apply Space.reset_wf. lia.
    + cbn. rewrite page_down_same. destruct (down_small (page_down top) ltac:(unfold is_u64; lia)) as (_ & ? & _). lia.
    + by cbn.
    + cbn. rewrite page_up_same. destruct (up_small (page_up image_end) ltac:(lia)) as [H4 H5]. lia.
Qed.

Lemma adopt_sound (mm : Mm) (b e : Z) (p : Space.GuestProt) (an : bool) :
  sound mm -> 0 <= b < 2 ^ 46 -> e <= 2 ^ 46 -> sound (adopt b e p an mm).
Proof.
  intros (f & H & [W Hh Hl Hb]) Hr He. unfold adopt. destruct (Z.leb_spec e b); [by exists f|].
  destruct (down_small b ltac:(unfold is_u64; lia)) as (D1 & D2 & _), (up_small e ltac:(lia)) as [U1 U2].
  set (v := Space.mkVma _ _ _ _).
  destruct (Space.adopt_spec (space mm) v W) as [W' A]; [split; [exact D1|]; split; [exact U1|]; cbn; lia|cbn; lia|].
  exists f. split; [by apply with_space_ok|]. cbn [with_space space]. constructor.
  - exact W'.
  - unfold Space.adopt, Space.insert, Space.unmap. by repeat case_match.
  - intros a. rewrite A. unfold Space.within. cbn. zcases; [lia|by apply Hl..].
  - unfold Space.adopt, Space.insert, Space.unmap. by repeat case_match.
Qed.

(** * Theorems *)

(** A page fault is the promise of a lazy mapping kept, or a genuine
    one.  Without an area or a heap behind the address nothing changes and
    the fault is reported.  With one, an absent page is given a frame of its
    own that reads as zeros, with the protection of its area, no byte at any
    other address changes, and failure means that frames or table pages have
    run out. *)
Theorem fault_backs_zero_page (mm : Mm) (f : Flat) (gva : Z) :
  mm_ok mm f -> space_ok (space mm) -> is_u64 gva ->
  exists d mm' f', handle_fault gva mm = (d, mm') /\ mm_ok mm' f'
    /\ match promised (page_down gva) mm with
       | None => d = false /\ mm' = mm
       | Some gp =>
           (if d then backed (has_write gp) (has_exec gp) f (gva / 4096) f'
            else f' = f /\ ((forall p, in_range (frames mm) p -> test (frames mm) p = true) \/ room (vm mm) < 3))
           /\ forall a, is_u64 a -> fetch (vm mm') a =
                if decide (d = true /\ a / 4096 = gva / 4096 /\ f !! (gva / 4096) = None) then Some 0 else fetch (vm mm) a
       end.
Proof.
  intros H HS Hg. destruct (fault_spec mm f gva H HS Hg) as (d & mm' & f' & E & H' & _ & P). by exists d, mm', f'.
Qed.


(** Mapping a file at a fixed address either runs out of memory or
    returns that address, and then every byte of the range reads as the byte
    of the file at its offset, or as zero past the end of the file, whatever
    was mapped there before. *)
Theorem file_mapping_reads_file (mm : Mm) (addr len prot flags off : Z) (file : HostFile) (c : list Z) :
  sound mm -> plain addr len -> 0 < len -> 0 < addr -> 0 <= off < 2 ^ 63 -> reads file c ->
  bit flags kMapFixed = true -> bit flags kMapAnonymous = false ->
  exists r mm', do_mmap addr len prot flags (Some file) off mm = (r, mm')
    /\ (r = neg_errno enomem
        \/ r = page_down addr /\ forall a, is_u64 a -> page_down addr <= a < page_down addr + page_up len ->
             fetch (vm mm') a = Some (default 0 (c !! Z.to_nat (off + (a - page_down addr))))).
Proof.
  intros (f & H & HS) (Ha & _ & Hb) Hl Ha0 Ho Hr Hfx Han. unfold do_mmap. rewrite Hfx, Han, (proj2 (Z.eqb_neq len 0)) by lia.
  rewrite bool_decide_true by done. cbn [orb negb].
  destruct (up_small len ltac:(lia)) as [Hu4 Hu], (down_small addr ltac:(unfold is_u64; lia)) as (Hd4 & Hd & _).
  destruct (unmap_range_spec mm f (page_down addr) (page_up len) H) as (f0 & H0 & [S0 _] & L0 & _); [lia|done|lia|done|lia|].
  set (mm0 := unmap_range _ _ mm) in *. set (gp := Space.prot_from_linux prot). rewrite S0.
  assert (HM := map_cases (space mm) addr len gp true false HS ltac:(unfold is_u64; lia) ltac:(lia) ltac:(lia)).
  destruct (Space.map (space mm) addr len gp true false) as [s at_]. cbn [fst snd] in HM.
  destruct HM as [[= -> ->]|(HS1 & Hp & Hne & Hat)]; [rewrite Z.eqb_refl; eexists _, _; split; [done|by left]|].
  rewrite (proj2 (Z.eqb_neq _ _) Hne). rewrite Hat in * by (done || lia).
  destruct (map_file_reads (with_space mm0 s) f0 (page_down addr) (page_up len) off gp file c (with_space_ok mm0 s f0 H0))
    as (r & mm' & E & R); [lia|done|done|done|done| |].
  - intros a Hu64 Hin. rewrite L0 by done. by rewrite decide_True.
  - exists r, mm'. split; [exact E|]. destruct R as [->|[-> R]]; auto.
Qed.

(** * Witnesses *)

(** A machine of 8 MiB with one page of image. *)
Definition image_page : Flat := <[0x300 := (0x300000, true, false)]> ∅.

Lemma image_machine : exists v T, models v image_page T /\ table_arena_base v = 0x600000.
Proof.
  destruct (create_spec 0x800000) as (v0 & _ & HT & HS & HR & Hn & HB & _); [change kGuestFloor with 0x200000; lia|].
  destruct (exec_models (MapAt 0x300000 0x300000 true false) v0 ∅ root_only) as (d1 & v1 & T1 & _ & M1 & _ & B1 & D1 & _).
  { repeat split; cbn; lia. }
  { constructor; [done|done|intros a _; by rewrite Hn]. }
  rewrite D1 in * by lia. exists v1, T1. split; [exact M1|]. unfold table_arena_base. rewrite B1, HB. reflexivity.
Qed.

Lemma image_sound : exists v, sound (init v 0x301000 0x7f0000000000).
Proof.
  destruct image_machine as (v & T & HM & HA). exists v. apply (init_sound v image_page T); [done| |lia|lia|].
  - change kGuestFloor with 0x200000. lia.
  - unfold image_page. intros n fr w x [[<- [= <- _ _]]|[_ E]]%lookup_insert_Some; [|by rewrite lookup_empty in E].
    change kGuestFloor with 0x200000. lia.
Qed.

Lemma fault_backs_zero_page_witness :
  exists mm f d mm' f', mm_ok mm f /\ space_ok (space mm) /\ handle_fault 0x301123 mm = (d, mm') /\ mm_ok mm' f'.
Proof.
  destruct image_sound as (v & f & H & HS).
  destruct (fault_backs_zero_page (init v 0x301000 0x7f0000000000) f 0x301123 H HS ltac:(unfold is_u64; lia))
    as (d & mm' & f' & E & H' & _).
  exists (init v 0x301000 0x7f0000000000), f, d, mm', f'.
  exact (conj H (conj HS (conj E H'))).
Defined.


(** A file of ten bytes. *)
Definition ten_bytes : HostFile := {|
  SetFilePointerEx := fun _ => true;
  ReadFile := fun pos n => Some (take (Z.to_nat n) (drop (Z.to_nat pos) (seqZ 1 10)))
|}.

Lemma file_mapping_reads_file_witness :
  exists v r mm', do_mmap 0x400000 100 5 0x12 (Some ten_bytes) 4 (init v 0x301000 0x7f0000000000) = (r, mm').
Proof.
  destruct image_sound as (v & HM).
  destruct (file_mapping_reads_file (init v 0x301000 0x7f0000000000) 0x400000 100 5 0x12 4 ten_bytes (seqZ 1 10) HM)
    as (r & mm' & E & _).
  - unfold plain. lia.
  - lia.
  - lia.
  - lia.
  - constructor; [done|done|]. apply Forall_forall. intros b Hb%elem_of_seqZ. unfold is_byte. lia.
  - reflexivity.
  - reflexivity.
  - exact (ex_intro _ v (ex_intro _ r (ex_intro _ mm' E))).
Defined.

End WinMm.
