(* ===== verification/HvfMem.v ===== *)
(** Guest RAM of the macOS backend ([runtime/darwin/vm.hpp],
    [runtime/darwin/mem.hpp]): the layout of the private area, the identity
    page tables, the exception vectors, and the bounds-checked window through
    which system calls reach the guest's memory. *)
From S2P Require Import Prelude Abi GuestMem PageTables.

Module HvfMem.

Import Abi.
Import PageTables(peek, load, store, get64, put64, zeros, bytes_ok).

Abbreviation Ram := (gmap Z Z).

(** ** [HvfLayout] *)

Definition page : Z := 0x1000.
Definition vectors : Z := 0.
Definition fastcall_bytes : Z := 512 * 16.
Definition l1_table : Z := 0x1000.
Definition l2_tables : Z := 0x2000.
Definition gib : Z := 2 ^ 30.
Definition block : Z := 2 ^ 21.

Definition n_l2 (ram : Z) : Z := (ram + gib - 1) / gib.
Definition fastcall (ram : Z) : Z := l2_tables + n_l2 ram * page.

Definition nonpie_base : Z := 0x400000.
Definition nonpie_size : Z := 0x7c00000.

Definition l3_tables (ram : Z) : Z :=
  let after_l2 := l2_tables + n_l2 ram * page + fastcall_bytes in
  let floor := nonpie_base + nonpie_size in
  if (ram <? gib) || (ram <? floor + ram / block * page + block) then after_l2
  else if floor <? after_l2 then after_l2 else floor.

Definition priv_end (ram : Z) : Z :=
  let end_ := l3_tables ram + ram / block * page in
  Z.land (end_ + block - 1) (u64 (Z.lnot (block - 1))).

Definition has_nonpie_window (ram : Z) : bool := nonpie_base + nonpie_size <=? l3_tables ram.
Definition tables_lo (ram : Z) : Z :=
  if has_nonpie_window ram then nonpie_base + nonpie_size else priv_end ram.
Definition is_nonpie_window (a : Z) : bool := (nonpie_base <=? a) && (a <? nonpie_base + nonpie_size).

Definition stack_guard : Z := 0x10000.
Definition stack_reserve : Z := Z.shiftl 8 20.
Definition mmap_top (mem_size : Z) : Z := u64 (mem_size - stack_guard - stack_reserve - Z.shiftl 1 20).

(** ** Page tables *)

(** The [put64] calls of [build_page_tables], in order. *)
Definition kTable : Z := 3.
Definition kPage : Z := 3.
Definition kAf : Z := Z.shiftl 1 10.
Definition kSh : Z := Z.shiftl 3 8.

Definition l1_puts (ram : Z) : list (Z * Z) :=
  map (fun g => (l1_table + g * 8, Z.lor (l2_tables + g * page) kTable)) (seqZ 0 (n_l2 ram)).

(** Access for EL0: not below the private end, the window excepted. *)
Definition el0 (ram pa : Z) : bool :=
  negb ((pa <? priv_end ram) && negb (has_nonpie_window ram && is_nonpie_window pa)).

Definition page_entry (ram pa : Z) : Z :=
  let ap := if el0 ram pa then 1 else 0 in
  Z.lor (Z.lor (Z.lor (Z.lor pa kAf) kSh) (Z.shiftl ap 6)) kPage.

(** One 2 MiB block: its L2 entry and its page of L3 entries. *)
Definition block_puts (ram k : Z) : list (Z * Z) :=
  let base := k * block in
  let l3 := l3_tables ram + k * page in
  let g := base / gib in
  let l2i := Z.land (Z.shiftr base 21) 0x1ff in
  (l2_tables + g * page + l2i * 8, Z.lor l3 kTable)
    :: map (fun i => (l3 + i * 8, page_entry ram (base + i * page))) (seqZ 0 (block / page)).

Definition put_all (m : Ram) (ps : list (Z * Z)) : Ram := fold_left (fun m p => put64 m p.1 p.2) ps m.

Definition build_page_tables (m : Ram) (ram : Z) : Ram :=
  put_all m (l1_puts ram ++ concat (map (block_puts ram) (seqZ 0 ((ram + block - 1) / block)))).

(** ** Vectors *)

Definition put32 (m : Ram) (a v : Z) : Ram := store m a (le_bytes 4 v).

(** [fastcall::emit_handler]. *)
Definition emit_handler (table_addr hvc_imm : Z) : list Z :=
  let lo := Z.land table_addr 0xffff in
  let hi := Z.land (Z.shiftr table_addr 16) 0xffff in
  [ 0xd5385210; 0xd35afe10; 0xf1005610; 0x54000161; 0xf108011f; 0x54000122;
    Z.lor 0xd2800010 (u32 (Z.shiftl lo 5)); Z.lor 0xf2a00010 (u32 (Z.shiftl hi 5));
    0x8b081210; 0xf9400611; 0xb4000091; 0xf9400210; 0xaa1003e0; 0xd69f03e0;
    Z.lor 0xd4000002 (u32 (Z.shiftl hvc_imm 5)) ].

Definition write_vector_stub (m : Ram) (ram : Z) : Ram :=
  let m := fold_left (fun m v => put32 m (vectors + v * 0x80) (Z.lor 0xd4000002 (Z.shiftl v 5))) (seqZ 0 16) m in
  let m := store m (vectors + 8 * 0x80) (concat (map (le_bytes 4) (emit_handler (fastcall ram) 8))) in
  store m (fastcall ram) (zeros fastcall_bytes).

(** [init] and [attach]: the RAM of a fresh machine. *)
Definition attach (m : Ram) (size : Z) : Ram := write_vector_stub (build_page_tables m size) size.

Definition init_size (mem_size : Z) : Result Z :=
  let size := Z.land (u64 (mem_size + block - 1)) (u64 (Z.lnot (block - 1))) in
  if 2 ^ 36 <? size then inr einval else inl size.

(** In-guest answers: [set_fastcall], [clear_fastcall]. *)
Definition kMaxNr : Z := 512.

Definition set_fastcall (m : Ram) (size nr value : Z) : Ram :=
  if (nr <? 0) || (kMaxNr <=? nr) then m
  else put64 (put64 m (fastcall size + nr * 16) value) (fastcall size + nr * 16 + 8) 1.

Definition clear_fastcall (m : Ram) (size nr : Z) : Ram :=
  if (nr <? 0) || (kMaxNr <=? nr) then m else put64 m (fastcall size + nr * 16 + 8) 0.

Definition clear_all_fastcalls (m : Ram) (size : Z) : Ram := store m (fastcall size) (zeros fastcall_bytes).

(** ** [GuestRam] *)

Record GuestRam := { size_ : Z; floor_ : Z; hole_beg : Z; hole_end : Z }.

(** [hole_end_ - gpa] is unsigned. *)
Definition permits (g : GuestRam) (gpa n : Z) : bool :=
  if (size_ g <=? gpa) || (size_ g - gpa <? n) then false
  else if floor_ g <=? gpa then true
  else (hole_beg g <=? gpa) && (n <=? u64 (hole_end g - gpa)).

Definition span (gpa n : Z) : option (Z * Z) := if n =? 0 then None else Some (gpa, n).

Definition at_ (g : GuestRam) (gpa n : Z) : option (Z * Z) := if permits g gpa n then span gpa n else None.

Definition clamp (g : GuestRam) (gpa n : Z) : option (Z * Z) :=
  if size_ g <=? gpa then None
  else if gpa <? floor_ g then
    if (gpa <? hole_beg g) || (hole_end g <=? gpa) then None
    else span gpa (Z.min n (hole_end g - gpa))
  else span gpa (Z.min n (size_ g - gpa)).

Definition ram_of (size : Z) : GuestRam :=
  let win := has_nonpie_window size in
  {| size_ := size; floor_ := priv_end size;
     hole_beg := if win then nonpie_base else 0;
     hole_end := if win then nonpie_base + nonpie_size else 0 |}.

(** ** Clearing a range

    The host's pages under guest RAM: where it is mapped, their size, which
    of them exist ([mincore]), and whether a whole page can be zeroed without
    touching it ([madvise], [mach_vm_write]). *)

Record HostRam := {
  base_ : Z;
  host_page : Z;
  mincore : Z -> Z -> option (list bool);
  madv_zero : Z -> Z -> bool;
  mach_write : Z -> Z -> bool
}.

(** [memset] of host addresses; guest byte [x] is at [base_ + x]. *)
Definition memset0 (h : HostRam) (m : Ram) (at_ n : Z) : Ram := store m (at_ - base_ h) (zeros n).

(** Whichever way it goes, the run is zeroed. *)
Definition zero_run (h : HostRam) (m : Ram) (at_ n : Z) : Ram :=
  if madv_zero h at_ n then memset0 h m at_ n
  else if (Z.shiftl 1 20 <=? n) && mach_write h at_ n then memset0 h m at_ n
  else memset0 h m at_ n.

Fixpoint run_length (vec : list bool) : nat :=
  match vec with
  | true :: vec' => S (run_length vec')
  | _ => O
  end.

Fixpoint zero_runs (fuel : nat) (h : HostRam) (m : Ram) (lo : Z) (i : nat) (vec : list bool) : Ram :=
  match fuel with
  | O => m
  | S fuel' =>
      match vec with
      | [] => m
      | false :: vec' => zero_runs fuel' h m lo (S i) vec'
      | true :: _ =>
          let n := run_length vec in
          zero_runs fuel' h (zero_run h m (lo + Z.of_nat i * host_page h) (Z.of_nat n * host_page h))
            lo (i + n) (drop n vec)
      end
  end.

(** [memset]s of what lies before and after the whole host pages. *)
Definition zero_edges (h : HostRam) (m : Ram) (base n lo hi : Z) : Ram :=
  memset0 h (memset0 h m base (lo - base)) hi (base + n - hi).

Definition zero (h : HostRam) (m : Ram) (size gpa n : Z) : Ram :=
  match at_ (ram_of size) gpa n with
  | None => m
  | Some _ =>
      let base := base_ h + gpa in
      let mask := u64 (Z.lnot (host_page h - 1)) in
      let lo := Z.land (u64 (base + host_page h - 1)) mask in
      let hi := Z.land (u64 (base + n)) mask in
      if lo <? hi then
        match mincore h lo (hi - lo) with
        | Some vec => zero_edges h (zero_runs (length vec) h m lo 0 vec) base n lo hi
        | None =>
            if madv_zero h lo (hi - lo) || mach_write h lo (hi - lo)
            then zero_edges h (memset0 h m lo (hi - lo)) base n lo hi
            else memset0 h m base n
        end
      else memset0 h m base n
  end.

(** ** Specification: the walk of the hardware

    39-bit addresses, 4 KiB granule: three levels, of which the last says
    whether EL0 has access. *)

Definition desc_addr (e : Z) : Z := Z.land e 0x0000fffffffff000.
Definition level_index (va sh : Z) : Z := Z.land (Z.shiftr va sh) 0x1ff.
Definition valid (e : Z) : bool := Z.land e 3 =? 3.

Definition hw_walk (m : Ram) (va : Z) : option (Z * bool) :=
  let e1 := get64 m (l1_table + level_index va 30 * 8) in
  if negb (valid e1) then None
  else
    let e2 := get64 m (desc_addr e1 + level_index va 21 * 8) in
    if negb (valid e2) then None
    else
      let e3 := get64 m (desc_addr e2 + level_index va 12 * 8) in
      if negb (valid e3 && Z.testbit e3 10) then None
      else Some (desc_addr e3 + va mod 4096, Z.testbit e3 6).

(** * Lemmas *)

Lemma peek_memset0 (h : HostRam) (m : Ram) (a n x : Z) :
  peek (memset0 h m a n) x = if decide (a <= base_ h + x < a + n) then 0 else peek m x.
Proof.
  unfold memset0. destruct (decide (0 <= n)) as [Hn|Hn].
  - rewrite PageTables.peek_store, PageTables.zeros_length by done.
    destruct (decide (a - base_ h <= x < a - base_ h + n)) as [Hx|Hx].
    + rewrite decide_True by lia. unfold zeros. apply lookup_total_replicate_2. lia.
    + by rewrite decide_False by lia.
  - rewrite decide_False by lia. rewrite PageTables.peek_store. unfold zeros. rewrite length_replicate, decide_False by lia. done.
Qed.

#[local] Opaque get64 put64 store zeros.

(** A machine's RAM is whole blocks, at most 64 GiB. *)
Definition sized (ram : Z) : Prop := exists k, ram = k * block /\ 1 <= k <= 2 ^ 15.

Lemma low_lor (p c : Z) : p mod 4096 = 0 -> 0 <= c < 4096 -> Z.lor p c = p + c.
Proof.
  intros Hp Hc. assert (H0 : Z.land p c = 0).
  { apply Z.bits_inj'. intros n Hn. rewrite Z.land_spec, Z.bits_0. destruct (Z.ltb_spec n 12) as [Hl|Hl].
    - replace p with (p / 4096 * 2 ^ 12) by (revert Hp; change (2 ^ 12) with 4096; Z.div_mod_to_equations; lia).
      by rewrite Z.mul_pow2_bits_low.
    - rewrite <- (Z.mod_small c (2 ^ 12)) by (change (2 ^ 12) with 4096; lia).
      by rewrite Z.mod_pow2_bits_high, andb_false_r by lia. }
  by rewrite <- Z.lxor_lor, <- Z.add_nocarry_lxor.
Qed.

Lemma valid_low (e : Z) : valid e = (e mod 4 =? 3).
Proof. unfold valid. change (Z.land e 3) with (Z.land e (Z.ones 2)). by rewrite Z.land_ones. Qed.

Lemma mask_page (p c : Z) : p mod 4096 = 0 -> 0 <= p < 2 ^ 48 -> 0 <= c < 4096 -> desc_addr (p + c) = p.
Proof.
  intros Hp Hr Hc. unfold desc_addr.
  change 0x0000fffffffff000 with (Z.land (u64 (Z.lnot (2 ^ 12 - 1))) (Z.ones 48)).
  rewrite Z.land_assoc, (land_align (p + c) 12) by lia. change (2 ^ 12) with 4096.
  replace ((p + c) / 4096 * 4096) with p by (revert Hp; Z.div_mod_to_equations; lia).
  rewrite Z.land_ones by lia. by apply Z.mod_small.
Qed.

Lemma n_l2_blocks (k : Z) : n_l2 (k * block) = (k + 511) / 512.
Proof.
  unfold n_l2. change gib with (512 * block). replace (k * block + 512 * block - 1) with ((k + 511) * block + (block - 1)) by lia.
  rewrite (Z.mul_comm 512 block), <- Z.div_div by (unfold block; lia). f_equal.
  rewrite Z.div_add_l by (unfold block; lia). rewrite (Z.div_small (block - 1)); unfold block; lia.
Qed.

Lemma div_block (k : Z) : k * block / block = k.
Proof. by apply Z.div_mul. Qed.

(** The areas lie in order below the first page of the guest. *)
Lemma layout (k : Z) :
  1 <= k <= 2 ^ 15 ->
  let ram := k * block in
  let l3 := l3_tables ram in
  l2_tables + n_l2 ram * page + fastcall_bytes <= l3 /\ l3 mod 4096 = 0
  /\ l3 + k * page <= priv_end ram <= ram /\ priv_end ram mod block = 0
  /\ (has_nonpie_window ram = true -> l3 = nonpie_base + nonpie_size /\ gib <= ram)
  /\ (has_nonpie_window ram = false -> l3 = l2_tables + n_l2 ram * page + fastcall_bytes) /\ 1 <= n_l2 ram <= 64.
Proof.
  intros Hk ram l3. unfold has_nonpie_window, priv_end. fold l3. unfold ram. rewrite div_block.
  assert (Hn : n_l2 (k * block) = (k + 511) / 512) by apply n_l2_blocks.
  assert (Hn' : 1 <= n_l2 (k * block) <= 64) by (rewrite Hn; Z.div_mod_to_equations; lia).
  assert (Hn2 : n_l2 (k * block) <= k) by (rewrite Hn; Z.div_mod_to_equations; lia).
  assert (Hl3 : l3 = l2_tables + n_l2 (k * block) * page + fastcall_bytes
                \/ l3 = nonpie_base + nonpie_size /\ gib <= k * block /\ nonpie_base + nonpie_size + k * page + block <= k * block
                   /\ l2_tables + n_l2 (k * block) * page + fastcall_bytes <= l3).
  { unfold l3, l3_tables, ram. rewrite div_block. destruct (_ || _) eqn:E; [by left|]. apply orb_false_iff in E as [E1 E2].
    zcases; [by left|]. right. split; [done|]. split; [lia|]. split; [lia|]. unfold l2_tables, page, fastcall_bytes, nonpie_base, nonpie_size in *. lia. }
  clearbody l3. set (n := n_l2 (k * block)) in *. clearbody n. clear Hn. subst ram.
  unfold l2_tables, page, fastcall_bytes, nonpie_base, nonpie_size, gib, block in *.
  rewrite (land_align (l3 + k * 0x1000 + 2 ^ 21 - 1) 21) by lia.
  split; [lia|]. split; [destruct Hl3 as [-> |[-> _]]; [|done]; Z.div_mod_to_equations; lia|].
  split; [|split; [by apply Z.mod_mul|]].
  { Z.div_mod_to_equations. lia. }
  split; [|split; [|done]]; zcases; intros; [|done|done|]; destruct Hl3 as [->|(? & ? & ?)]; lia.
Qed.

(** ** The puts *)

Lemma put_all_keeps (ps : list (Z * Z)) : forall m a,
  (forall p, p ∈ ps -> a + 8 <= p.1 \/ p.1 + 8 <= a) -> get64 (put_all m ps) a = get64 m a.
Proof.
  induction ps as [|p ps IH]; intros m a H; [done|]. cbn [put_all fold_left]. fold (put_all (put64 m p.1 p.2) ps).
  rewrite IH by (intros q Hq; apply H; by right). apply PageTables.get64_put64_other. apply H, list_elem_of_here.
Qed.

Lemma put_all_gets (ps : list (Z * Z)) (a v : Z) : forall m,
  (a, v) ∈ ps -> 0 <= v < 2 ^ 64 ->
  (forall p, p ∈ ps -> p = (a, v) \/ a + 8 <= p.1 \/ p.1 + 8 <= a) -> get64 (put_all m ps) a = v.
Proof.
  induction ps as [|p ps IH] using rev_ind; intros m Hin Hv H; [by apply elem_of_nil in Hin|].
  unfold put_all. rewrite fold_left_app. cbn [fold_left]. fold (put_all m ps).
  destruct (H p) as [-> |Hd]; [apply elem_of_app; right; by apply list_elem_of_singleton| |].
  - by apply PageTables.get64_put64.
  - rewrite PageTables.get64_put64_other by done. apply IH; [|done|].
    + apply elem_of_app in Hin as [?|E%list_elem_of_singleton]; [done|]. subst p. cbn in Hd. lia.
    + intros q Hq. apply H, elem_of_app. by left.
Qed.

Lemma put_all_outside (ps : list (Z * Z)) (x : Z) : forall m,
  (forall p, p ∈ ps -> x < p.1 \/ p.1 + 8 <= x) -> peek (put_all m ps) x = peek m x.
Proof.
  induction ps as [|p ps IH]; intros m H; [done|]. cbn [put_all fold_left]. fold (put_all (put64 m p.1 p.2) ps).
  rewrite IH by (intros q Hq; apply H; by right). apply PageTables.peek_put64.
  specialize (H p (list_elem_of_here _ _)). lia.
Qed.

Definition all_puts (ram : Z) : list (Z * Z) :=
  l1_puts ram ++ concat (map (block_puts ram) (seqZ 0 ((ram + block - 1) / block))).

(** Every put is one of three kinds. *)
Lemma all_puts_spec (k : Z) (p : Z * Z) :
  1 <= k <= 2 ^ 15 -> let ram := k * block in
  p ∈ all_puts ram <->
    (exists g, 0 <= g < n_l2 ram /\ p = (l1_table + 8 * g, l2_tables + g * page + 3))
    \/ (exists b, 0 <= b < k /\ p = (l2_tables + 8 * b, l3_tables ram + b * page + 3))
    \/ (exists b i, 0 <= b < k /\ 0 <= i < 512
          /\ p = (l3_tables ram + 8 * (512 * b + i), page_entry ram (b * block + i * page))).
Proof.
  intros Hk ram. destruct (layout k Hk) as (_ & H4 & _ & _ & _ & _ & Hn). fold ram in H4, Hn.
  assert (E : (ram + block - 1) / block = k).
  { unfold ram. replace (k * block + block - 1) with (k * block + (block - 1)) by lia.
    rewrite Z.div_add_l by (unfold block; lia). rewrite Z.div_small; unfold block; lia. }
  assert (Hl1 : p ∈ l1_puts ram <-> exists g, 0 <= g < n_l2 ram /\ p = (l1_table + 8 * g, l2_tables + g * page + 3)).
  { unfold l1_puts. rewrite list_elem_of_In, in_map_iff. split.
    - intros (g & <- & Hg%list_elem_of_In%elem_of_seqZ). exists g. split; [lia|]. f_equal; [lia|].
      apply low_lor; [|done]. unfold l2_tables, page. Z.div_mod_to_equations. lia.
    - intros (g & Hg & ->). exists g. split; [|apply list_elem_of_In, elem_of_seqZ; lia]. f_equal; [lia|].
      apply low_lor; [|done]. unfold l2_tables, page. Z.div_mod_to_equations. lia. }
  assert (Hbl : forall b, 0 <= b -> p ∈ block_puts ram b <->
      p = (l2_tables + 8 * b, l3_tables ram + b * page + 3)
      \/ exists i, 0 <= i < 512 /\ p = (l3_tables ram + 8 * (512 * b + i), page_entry ram (b * block + i * page))).
  { intros b Hb. unfold block_puts. rewrite elem_of_cons, list_elem_of_In, in_map_iff.
    assert (E2 : l2_tables + b * block / gib * page + Z.land (Z.shiftr (b * block) 21) 0x1ff * 8 = l2_tables + 8 * b).
    { change 0x1ff with (Z.ones 9). rewrite Z.land_ones, Z.shiftr_div_pow2 by lia. change (2 ^ 21) with block. rewrite div_block.
      change gib with (block * 512). rewrite <- Z.div_div, div_block by (unfold block; lia). unfold page. Z.div_mod_to_equations. lia. }
    rewrite E2, low_lor by (unfold page, kTable; revert H4; Z.div_mod_to_equations; lia). change kTable with 3.
    split; (intros [?|(i & H1 & H2)]; [by left|right; exists i]).
    - apply list_elem_of_In, elem_of_seqZ in H2. change (block / page) with 512 in H2. split; [lia|]. rewrite <- H1. f_equal. unfold page. lia.
    - subst p. split; [f_equal; unfold page; lia|]. apply list_elem_of_In, elem_of_seqZ. change (block / page) with 512. lia. }
  unfold all_puts. rewrite elem_of_app, Hl1, E, list_elem_of_In, in_concat. split.
  - intros [?|(l & Hl & Hp)]; [by left|right]. apply in_map_iff in Hl as (b & <- & Hb%list_elem_of_In%elem_of_seqZ).
    apply list_elem_of_In, Hbl in Hp as [-> |(i & Hi & ->)]; [left; exists b; split; [lia|done]|right; exists b, i; split; [lia|done]|lia].
  - intros [?|[(b & Hb & Hp)|(b & i & Hb & Hi & Hp)]]; [by left|right|right]; exists (block_puts ram b).
    all: split; [apply in_map_iff; exists b; split; [done|apply list_elem_of_In, elem_of_seqZ; lia]|].
    all: apply list_elem_of_In, Hbl; [lia|]; eauto.
Qed.

(** The entry of a page and what the hardware reads in it. *)
Lemma page_entry_eq (ram pa : Z) : pa mod 4096 = 0 -> page_entry ram pa = pa + (if el0 ram pa then 0x743 else 0x703).
Proof.
  intros Hp. unfold page_entry. rewrite <- !Z.lor_assoc. rewrite <- (low_lor pa) by (done || by destruct (el0 ram pa)).
  f_equal. by destruct (el0 ram pa).
Qed.

Lemma build_eq (m : Ram) (ram : Z) : build_page_tables m ram = put_all m (all_puts ram).
Proof. done. Qed.

Lemma k_l2 (k : Z) : 1 <= k <= 2 ^ 15 -> 8 * k <= n_l2 (k * block) * page /\ 8 * n_l2 (k * block) <= 512.
Proof. intros Hk. rewrite n_l2_blocks. unfold page. Z.div_mod_to_equations. lia. Qed.

Lemma entry_of (k : Z) (m : Ram) (a v : Z) :
  1 <= k <= 2 ^ 15 -> (a, v) ∈ all_puts (k * block) -> 0 <= v < 2 ^ 64 -> get64 (build_page_tables m (k * block)) a = v.
Proof.
  intros Hk Hin Hv. rewrite build_eq. apply put_all_gets; [done|done|]. intros p Hp.
  destruct (layout k Hk) as (H1 & _ & _). destruct (k_l2 k Hk) as [H2 H3].
  apply (all_puts_spec k _ Hk) in Hin. apply (all_puts_spec k _ Hk) in Hp.
  unfold l1_table, l2_tables, fastcall_bytes in *.
  destruct Hin as [(g & Hg & [= -> ->])|[(b & Hb & [= -> ->])|(b & i & Hb & Hi & [= -> ->])]],
    Hp as [(g' & Hg' & ->)|[(b' & Hb' & ->)|(b' & i' & Hb' & Hi' & ->)]]; cbn [fst]; try (right; lia).
  - destruct (decide (g = g')) as [-> |]; [by left|right; lia].
  - destruct (decide (b = b')) as [-> |]; [by left|right; lia].
  - destruct (decide (512 * b + i = 512 * b' + i')) as [E|]; [|right; lia].
    assert (b = b') as -> by lia. assert (i = i') as -> by lia. by left.
Qed.

(** A memory that holds all the entries. *)
Section tables.
Context (k : Z) (Hk : 1 <= k <= 2 ^ 15) (m : Ram).

Local Abbreviation R := (k * block).

Context (Hm : forall a v, (a, v) ∈ all_puts R -> 0 <= v < 2 ^ 64 -> get64 m a = v).

Lemma l1_entry (g : Z) : 0 <= g < n_l2 R -> get64 m (l1_table + g * 8) = l2_tables + g * page + 3.
Proof.
  intros Hg. destruct (k_l2 k Hk). apply Hm; [|unfold l2_tables, page; lia]. apply all_puts_spec; [done|]. left. exists g.
  split; [done|]. f_equal. lia.
Qed.

Lemma l2_entry (b : Z) : 0 <= b < k -> get64 m (l2_tables + b * 8) = l3_tables R + b * page + 3.
Proof.
  intros Hb. destruct (layout k Hk) as (H1 & _ & H3 & _). apply Hm.
  - apply all_puts_spec; [done|]. right. left. exists b. split; [done|]. f_equal. lia.
  - destruct (layout k Hk) as (_ & _ & _ & _ & _ & _ & ?). unfold page, l2_tables, fastcall_bytes, block in *. lia.
Qed.

Lemma l3_entry (b i : Z) : 0 <= b < k -> 0 <= i < 512 ->
  get64 m (l3_tables R + b * page + i * 8) = page_entry R (b * block + i * page).
Proof.
  intros Hb Hi. apply Hm.
  - apply all_puts_spec; [done|]. right. right. exists b, i. split; [done|]. split; [done|]. f_equal. unfold page. lia.
  - rewrite page_entry_eq by (unfold page, block; Z.div_mod_to_equations; lia). unfold page, block. destruct (el0 _ _); lia.
Qed.

(** The hardware's walk of any address of RAM: itself. *)
Lemma tables_walk (va : Z) : 0 <= va < R ->
  hw_walk m va = Some (va, el0 R (va / 4096 * 4096)).
Proof.
  intros Hva. destruct (layout k Hk) as (Hl & Hl4 & Hp & _ & _ & _ & Hn). unfold hw_walk.
  assert (Hx : forall sh, 0 <= sh -> level_index va sh = va / 2 ^ sh mod 512).
  { intros sh Hs. unfold level_index. change 0x1ff with (Z.ones 9). by rewrite Z.land_ones, Z.shiftr_div_pow2 by lia. }
  rewrite !Hx by lia. change (2 ^ 30) with gib. change (2 ^ 21) with block. change (2 ^ 12) with 4096.
  set (g := va / gib mod 512). set (b := va / block). set (i := va / 4096 mod 512).
  assert (Hg : g = b / 512 /\ 0 <= g < n_l2 R).
  { rewrite n_l2_blocks. unfold g, b, gib, block in *. Z.div_mod_to_equations. lia. }
  assert (Hb : 0 <= b < k) by (unfold b, block in *; Z.div_mod_to_equations; lia).
  assert (Hi : 0 <= i < 512) by by apply Z.mod_pos_bound.
  assert (Hpa : b * block + i * page = va / 4096 * 4096) by (unfold b, i, block, page; Z.div_mod_to_equations; lia).
  rewrite l1_entry by apply Hg. assert (V3 : forall p, p mod 4096 = 0 -> valid (p + 3) = true).
  { intros p Hp4. rewrite valid_low. revert Hp4. Z.div_mod_to_equations. lia. }
  assert (M2 : (l2_tables + g * page) mod 4096 = 0) by (unfold l2_tables, page; Z.div_mod_to_equations; lia).
  assert (M3 : (l3_tables R + b * page) mod 4096 = 0) by (unfold page; revert Hl4; Z.div_mod_to_equations; lia).
  rewrite V3, mask_page by (done || unfold l2_tables, page; lia). cbn [negb].
  replace (l2_tables + g * page + b mod 512 * 8) with (l2_tables + b * 8) by (destruct Hg as [-> _]; unfold page; Z.div_mod_to_equations; lia).
  rewrite l2_entry by done. rewrite V3, mask_page by (done || unfold l2_tables, fastcall_bytes, page, block in *; lia). cbn [negb].
  rewrite l3_entry by done. rewrite Hpa. assert (M : va / 4096 * 4096 mod 4096 = 0) by by apply Z.mod_mul.
  rewrite page_entry_eq by done. set (pa := va / 4096 * 4096) in *. set (c := if el0 R pa then 0x743 else 0x703).
  assert (Hc : 0 <= c < 4096) by (unfold c; by destruct (el0 R pa)).
  assert (B : forall n, 0 <= n < 12 -> Z.testbit (pa + c) n = Z.testbit c n).
  { intros n Hn'. rewrite <- (Z.mod_pow2_bits_low (pa + c) 12), <- (Z.mod_pow2_bits_low c 12) by lia. f_equal.
    change (2 ^ 12) with 4096. revert M. Z.div_mod_to_equations. lia. }
  assert (Hv : valid (pa + c) = true).
  { rewrite valid_low. unfold c. destruct (el0 R pa); revert M; Z.div_mod_to_equations; lia. }
  rewrite Hv, !B, mask_page by (done || unfold block in *; lia || unfold pa; revert Hva; unfold block; Z.div_mod_to_equations; lia).
  replace (pa + va mod 4096) with va by (unfold pa; Z.div_mod_to_equations; lia). unfold c. by destruct (el0 R pa).
Qed.

End tables.

(** ** Attaching *)

(** Where the runtime's own bytes are. *)
Definition private (ram x : Z) : Prop :=
  0 <= x < fastcall ram + fastcall_bytes \/ l3_tables ram <= x < l3_tables ram + ram / block * page.

Lemma private_el0 (k x : Z) : 1 <= k <= 2 ^ 15 -> private (k * block) x -> el0 (k * block) x = false.
Proof.
  intros Hk. destruct (layout k Hk) as (H1 & _ & H3 & _ & H5 & H6 & _). unfold private, el0, fastcall, is_nonpie_window.
  rewrite div_block. unfold page in *. intros Hx. apply negb_false_iff, andb_true_intro. split; [lia|].
  destruct (has_nonpie_window (k * block)) eqn:E; [|done]. destruct (H5 eq_refl) as [E3 Hg].
  assert (n_l2 (k * block) * 0x1000 <= 0x40000) by (destruct (layout k Hk) as (_ & _ & _ & _ & _ & _ & ?); lia).
  unfold l2_tables, fastcall_bytes, nonpie_base, nonpie_size in *. cbn [andb]. apply negb_true_iff. zcases; lia.
Qed.

Lemma build_outside (k x : Z) (m : Ram) :
  1 <= k <= 2 ^ 15 -> 0 <= x -> ~ (l1_table <= x < fastcall (k * block)) ->
  ~ (l3_tables (k * block) <= x < l3_tables (k * block) + k * page) ->
  peek (build_page_tables m (k * block)) x = peek m x.
Proof.
  intros Hk Hx H1 H3. rewrite build_eq. apply put_all_outside. intros p Hp. apply (all_puts_spec k _ Hk) in Hp.
  destruct (k_l2 k Hk) as [H4 H5]. unfold fastcall, l1_table, l2_tables, page in *.
  destruct Hp as [(g & Hg & ->)|[(b & Hb & ->)|(b & i & Hb & Hi & ->)]]; cbn [fst]; lia.
Qed.

Lemma stub_slots (vs : list Z) : forall m x,
  (forall v, v ∈ vs -> ~ (v * 0x80 <= x < v * 0x80 + 4)) ->
  peek (fold_left (fun m v => put32 m (vectors + v * 0x80) (Z.lor 0xd4000002 (Z.shiftl v 5))) vs m) x = peek m x.
Proof.
  induction vs as [|v vs IH]; intros m x H; [done|]. cbn [fold_left]. rewrite IH by (intros w Hw; apply H; by right).
  unfold put32. rewrite PageTables.peek_store, decide_False; [done|]. rewrite le_bytes_length.
  specialize (H v (list_elem_of_here _ _)). unfold vectors. lia.
Qed.

Lemma handler_length (t i : Z) : length (concat (map (le_bytes 4) (emit_handler t i))) = 60%nat.
Proof. reflexivity. Qed.

Lemma stub_outside (m : Ram) (ram x : Z) :
  ~ (0 <= x < 0x800) -> ~ (fastcall ram <= x < fastcall ram + fastcall_bytes) ->
  peek (write_vector_stub m ram) x = peek m x.
Proof.
  intros H1 H2. unfold write_vector_stub. rewrite !PageTables.peek_store, handler_length, PageTables.zeros_length by done.
  rewrite decide_False by lia. rewrite decide_False by (unfold vectors; lia). apply stub_slots.
  intros v Hv%elem_of_seqZ. lia.
Qed.

Lemma attach_outside (k x : Z) (m : Ram) :
  1 <= k <= 2 ^ 15 -> 0 <= x -> ~ private (k * block) x -> peek (attach m (k * block)) x = peek m x.
Proof.
  intros Hk Hx Hp. unfold private, attach in *. rewrite div_block in Hp.
  assert (0x2000 <= fastcall (k * block)) by (unfold fastcall, l2_tables, page; destruct (layout k Hk) as (_ & _ & _ & _ & _ & _ & ?); lia).
  rewrite stub_outside by (unfold fastcall_bytes in *; lia). apply build_outside; [done|done|unfold fastcall_bytes in *; lia|lia].
Qed.

Lemma attach_entries (k : Z) (m : Ram) (a v : Z) :
  1 <= k <= 2 ^ 15 -> (a, v) ∈ all_puts (k * block) -> 0 <= v < 2 ^ 64 -> get64 (attach m (k * block)) a = v.
Proof.
  intros Hk Hin Hv. rewrite <- (entry_of k m a v Hk Hin Hv). apply PageTables.get64_ext. intros x Hx. apply stub_outside.
  all: apply (all_puts_spec k _ Hk) in Hin; destruct (k_l2 k Hk) as [H4 H5], (layout k Hk) as (H1 & _ & _ & _ & _ & _ & ?).
  all: unfold fastcall, l1_table, l2_tables, page, fastcall_bytes in *.
  all: destruct Hin as [(g & Hg & [= -> ->])|[(b & Hb & [= -> ->])|(b & i & Hb & Hi & [= -> ->])]]; lia.
Qed.

(** ** The window *)

Lemma clamp_guest (k x n p len y : Z) :
  1 <= k <= 2 ^ 15 -> 0 <= x -> clamp (ram_of (k * block)) x n = Some (p, len) -> p <= y < p + len -> el0 (k * block) y = true.
Proof.
  intros Hk Hx. unfold clamp, ram_of. cbn [size_ floor_ hole_beg hole_end]. unfold el0, is_nonpie_window, span.
  destruct (has_nonpie_window (k * block)); cbn [andb]; zcases; intros [= <- <-] Hy; zcases; done || lia.
Qed.

(** ** Clearing *)

Lemma zero_run_eq (h : HostRam) (m : Ram) (a n : Z) : zero_run h m a n = memset0 h m a n.
Proof. unfold zero_run. destruct (madv_zero h a n); [done|]. by destruct ((Z.shiftl 1 20 <=? n) && mach_write h a n). Qed.

Lemma run_length_spec (vec : list bool) :
  (run_length vec <= length vec)%nat /\ (forall i, (i < run_length vec)%nat -> vec !! i = Some true).
Proof.
  induction vec as [|[] vec [IH1 IH2]]; cbn; [split; [lia|intros; lia]| |split; [lia|intros; lia]].
  split; [lia|]. intros [|i] Hi; [done|]. cbn. apply IH2. lia.
Qed.

(** The byte lies in a page that is marked. *)
Definition marked (h : HostRam) (lo : Z) (i : nat) (vec : list bool) (x : Z) : Prop :=
  exists j, vec !! j = Some true
    /\ lo + Z.of_nat (i + j) * host_page h <= base_ h + x < lo + Z.of_nat (i + j) * host_page h + host_page h.

(** The pages marked present are zeroed, the others left as they are. *)
Lemma zero_runs_spec (h : HostRam) (lo x : Z) (fuel : nat) : forall m i vec,
  0 < host_page h -> (length vec <= fuel)%nat ->
  (marked h lo i vec x -> peek (zero_runs fuel h m lo i vec) x = 0)
  /\ (~ marked h lo i vec x -> peek (zero_runs fuel h m lo i vec) x = peek m x)
  /\ (peek m x = 0 -> peek (zero_runs fuel h m lo i vec) x = 0).
Proof.
  induction fuel as [|fuel IH]; intros m i vec Hp Hf; cbn [zero_runs].
  { destruct vec; [|cbn in Hf; lia]. split; [by intros (j & Hj & _)|done]. }
  destruct vec as [|[] vec]; [split; [by intros (j & Hj & _)|done]| |].
  - set (n := run_length (true :: vec)). assert (Hn : (1 <= n)%nat) by (cbn; lia).
    destruct (run_length_spec (true :: vec)) as [Hl Ht]. fold n in Hl, Ht.
    destruct (IH (zero_run h m (lo + Z.of_nat i * host_page h) (Z.of_nat n * host_page h)) (i + n)%nat (drop n (true :: vec)) Hp)
      as (I1 & I2 & I3); [rewrite length_drop; cbn [length] in *; lia|].
    rewrite zero_run_eq, peek_memset0 in I2, I3. rewrite zero_run_eq in I1.
    rewrite zero_run_eq. set (R := zero_runs _ _ _ _ _ _) in *.
    destruct (decide (lo + Z.of_nat i * host_page h <= base_ h + x < lo + Z.of_nat i * host_page h + Z.of_nat n * host_page h)) as [Hx|Hx].
    + assert (R0 : peek R x = 0) by (by apply I3). split; [done|]. split; [|done]. intros Hnm. destruct Hnm.
      set (j := Z.to_nat ((base_ h + x - (lo + Z.of_nat i * host_page h)) / host_page h)).
      assert (Hj : Z.of_nat j = (base_ h + x - (lo + Z.of_nat i * host_page h)) / host_page h) by (unfold j; rewrite Z2Nat.id; [done|apply Z.div_pos; lia]).
      assert (Hjn : (j < n)%nat) by (apply Nat2Z.inj_lt; rewrite Hj; apply Z.div_lt_upper_bound; lia).
      exists j. split; [by apply Ht|]. rewrite Nat2Z.inj_add, Hj.
      pose proof (Z.mul_div_le (base_ h + x - (lo + Z.of_nat i * host_page h)) (host_page h) Hp).
      pose proof (Z.mul_succ_div_gt (base_ h + x - (lo + Z.of_nat i * host_page h)) (host_page h) Hp). lia.
    + assert (Hm : marked h lo i (true :: vec) x -> marked h lo (i + n) (drop n (true :: vec)) x).
      { intros (j & Hj & Hr). destruct (decide (j < n)%nat); [exfalso; apply Hx; nia|]. exists (j - n)%nat.
        rewrite lookup_drop. replace (n + (j - n))%nat with j by lia. replace (i + n + (j - n))%nat with (i + j)%nat by lia. done. }
      assert (Hm' : marked h lo (i + n) (drop n (true :: vec)) x -> marked h lo i (true :: vec) x).
      { intros (j & Hj & Hr). rewrite lookup_drop in Hj. exists (n + j)%nat. replace (i + (n + j))%nat with (i + n + j)%nat by lia. done. }
      split; [auto|]. split; [auto|done].
  - destruct (IH m (S i) vec Hp) as (I1 & I2 & I3); [cbn in Hf; lia|].
    assert (Hm : marked h lo i (false :: vec) x <-> marked h lo (S i) vec x).
    { split; intros (j & Hj & Hr).
      - destruct j as [|j]; [done|]. exists j. replace (S i + j)%nat with (i + S j)%nat by lia. done.
      - exists (S j). replace (i + S j)%nat with (S i + j)%nat by lia. done. }
    rewrite Hm. done.
Qed.

(** What the host documents: [mincore] marks one page after the other, and a
    page it does not mark holds no data. *)
Record host_laws (h : HostRam) (m : Ram) : Prop := {
  h_page : exists s, 0 <= s <= 30 /\ host_page h = 2 ^ s;
  h_base : 0 <= base_ h /\ base_ h < 2 ^ 62;
  h_count : forall lo n vec, 0 <= n -> mincore h lo n = Some vec -> Z.of_nat (length vec) = n / host_page h;
  h_absent : forall lo n vec i x, mincore h lo n = Some vec -> vec !! i = Some false ->
    lo + Z.of_nat i * host_page h <= base_ h + x < lo + Z.of_nat i * host_page h + host_page h -> peek m x = 0
}.

Lemma zero_spec (h : HostRam) (m : Ram) (size gpa n x : Z) :
  host_laws h m -> 0 <= gpa -> 0 < n -> size <= 2 ^ 36 -> permits (ram_of size) gpa n = true ->
  peek (zero h m size gpa n) x = if decide (gpa <= x < gpa + n) then 0 else peek m x.
Proof.
  intros [(s & Hs & Ep) [Hb0 Hb1] Hc Ha] Hg Hn Hsz Hperm. unfold zero, at_, span. rewrite Hperm, (proj2 (Z.eqb_neq n 0)) by lia.
  assert (Hin : gpa + n <= size) by (revert Hperm; unfold permits, ram_of; cbn [size_]; zcases; (done || lia)).
  assert (P2 : 0 < host_page h <= 2 ^ 30) by (rewrite Ep; split; [apply Z.pow_pos_nonneg; lia|apply Z.pow_le_mono_r; lia]).
  set (base := base_ h + gpa).
  rewrite (u64_small (base + host_page h - 1)), (u64_small (base + n)) by (unfold base; lia).
  set (lo := Z.land (base + host_page h - 1) _). set (hi := Z.land (base + n) _).
  assert (Hlo : lo = (base + host_page h - 1) / host_page h * host_page h).
  { unfold lo. rewrite Ep. apply land_align; unfold base; [rewrite <- Ep|]; lia. }
  assert (Hhi : hi = (base + n) / host_page h * host_page h) by (unfold hi; rewrite Ep; apply land_align; unfold base; lia).
  pose proof (Z.mul_div_le (base + host_page h - 1) (host_page h) (proj1 P2)).
  pose proof (Z.mul_succ_div_gt (base + host_page h - 1) (host_page h) (proj1 P2)).
  pose proof (Z.mul_div_le (base + n) (host_page h) (proj1 P2)).
  assert (Hin2 : base <= lo /\ hi <= base + n) by lia.
  assert (Hall : peek (memset0 h m base n) x = if decide (gpa <= x < gpa + n) then 0 else peek m x).
  { rewrite peek_memset0. apply decide_ext. unfold base. lia. }
  zcases; [|done].
  assert (Hedge : forall m', (lo <= base_ h + x < hi -> peek m' x = 0) -> (~ lo <= base_ h + x < hi -> peek m' x = peek m x) ->
            peek (zero_edges h m' base n lo hi) x = if decide (gpa <= x < gpa + n) then 0 else peek m x).
  { intros m' E1 E2. unfold zero_edges. rewrite !peek_memset0.
    destruct (decide (lo <= base_ h + x < hi)) as [Hx|Hx].
    - rewrite E1, (decide_True (P := gpa <= x < gpa + n)) by (done || unfold base in *; lia). destruct (decide (hi <= _ < _)); [done|]. by destruct (decide (base <= _ < _)).
    - rewrite E2 by done. destruct (decide (gpa <= x < gpa + n)).
      + destruct (decide (hi <= _ < _)); [done|]. rewrite decide_True; [done|]. unfold base in *. lia.
      + rewrite !decide_False by (unfold base in *; lia). done. }
  destruct (mincore h lo (hi - lo)) as [vec|] eqn:Em.
  - apply Hedge; destruct (zero_runs_spec h lo x (length vec) m 0 vec (proj1 P2) ltac:(done)) as (Z1 & Z2 & Z3).
    + intros Hx. set (j := Z.to_nat ((base_ h + x - lo) / host_page h)).
      assert (Hj : Z.of_nat j = (base_ h + x - lo) / host_page h) by (unfold j; rewrite Z2Nat.id; [done|apply Z.div_pos; lia]).
      assert (Hjl : (j < length vec)%nat).
      { apply Nat2Z.inj_lt. rewrite Hj, (Hc _ (hi - lo) _ ltac:(lia) Em). apply Z.div_lt_upper_bound; [lia|].
        assert (hi - lo = host_page h * ((hi - lo) / host_page h)).
        { rewrite Hhi, Hlo at 1. rewrite Hhi, Hlo. rewrite <- Z.mul_sub_distr_r, Z.div_mul by lia. lia. }
        lia. }
      pose proof (Z.mul_div_le (base_ h + x - lo) (host_page h) (proj1 P2)).
      pose proof (Z.mul_succ_div_gt (base_ h + x - lo) (host_page h) (proj1 P2)).
      assert (Hr : lo + Z.of_nat j * host_page h <= base_ h + x < lo + Z.of_nat j * host_page h + host_page h) by (rewrite Hj; lia).
      destruct (lookup_lt_is_Some_2 vec j Hjl) as [[] Hv]; [apply Z1; by exists j|]. apply Z3. by apply (Ha _ _ _ j x Em).
    + intros Hx. apply Z2. intros (j & Hj & Hr). apply Hx. apply lookup_lt_Some in Hj.
      assert (Z.of_nat (length vec) * host_page h <= hi - lo) by (rewrite (Hc _ (hi - lo) _ ltac:(lia) Em), Z.mul_comm; apply Z.mul_div_le; lia).
      cbn [Nat.add] in Hr. nia.
  - destruct (_ || _); [|done]. apply Hedge; intros Hx; rewrite peek_memset0.
    + by rewrite decide_True by lia.
    + by rewrite decide_False by lia.
Qed.

Lemma init_sized (mem_size size : Z) :
  0 < mem_size < 2 ^ 63 -> init_size mem_size = inl size -> exists k, size = k * block /\ 1 <= k <= 2 ^ 15.
Proof.
  intros Hm. unfold init_size. rewrite u64_small by (unfold block; lia). unfold block.
  rewrite (land_align (mem_size + 2 ^ 21 - 1) 21) by lia. zcases; [done|]. intros E. exists ((mem_size + 2 ^ 21 - 1) / 2 ^ 21). split; [congruence|].
  revert H. clear E. change (2 ^ 21) with 2097152. Z.div_mod_to_equations. lia.
Qed.

Lemma attach_fastcalls (k nr : Z) (m : Ram) : 0 <= nr < 512 -> get64 (attach m (k * block)) (fastcall (k * block) + nr * 16 + 8) = 0.
Proof.
  intros Hn. apply PageTables.get64_zero. intros x Hx. unfold attach, write_vector_stub.
  apply PageTables.peek_zeroed; [done|]. unfold fastcall_bytes. lia.
Qed.

(** * Theorems *)

(** C21. A fresh machine of any size the backend accepts maps every address
    of its RAM to itself; the vectors, the tables and the in-guest answers
    are out of EL0's reach, no other byte of RAM is touched, and no answer is
    live yet. *)
Theorem attach_maps_guest (mem_size size : Z) (m : Ram) :
  0 < mem_size < 2 ^ 63 -> init_size mem_size = inl size ->
  let m' := attach m size in
  (forall va, 0 <= va < size -> hw_walk m' va = Some (va, el0 size (va / 4096 * 4096)))
  /\ (forall x, private size x -> el0 size x = false)
  /\ (forall x, 0 <= x -> el0 size x = true -> peek m' x = peek m x)
  /\ (forall nr, 0 <= nr < 512 -> get64 m' (fastcall size + nr * 16 + 8) = 0).
Proof.
  intros Hm Hi m'. destruct (init_sized _ _ Hm Hi) as (k & -> & Hk). split; [|split; [|split]].
  - intros va Hva. exact (tables_walk k Hk m' (fun a v => attach_entries k m a v Hk) va Hva).
  - intros x. by apply private_el0.
  - intros x Hx He. apply attach_outside; [done|done|]. intros Hp. apply (private_el0 k) in Hp; [|done]. congruence.
  - intros nr Hn. by apply attach_fastcalls.
Qed.

(** The window through which system calls reach guest memory does not
    keep them out of the page tables: for every machine, every byte of the
    table array after its first is accepted, although EL0 has no access to
    it.  The subtraction from the end of the window below wraps.  The
    clamping accessor stays in the guest's own memory. *)
Theorem permits_reach_tables (mem_size size : Z) :
  0 < mem_size < 2 ^ 63 -> init_size mem_size = inl size ->
  (forall x n, 0 < n -> l3_tables size < x -> x + n <= l3_tables size + size / block * page ->
     permits (ram_of size) x n = true /\ el0 size x = false)
  /\ forall x n p len y, 0 <= x -> clamp (ram_of size) x n = Some (p, len) -> p <= y < p + len -> el0 size y = true.
Proof.
  intros Hm Hi. destruct (init_sized _ _ Hm Hi) as (k & -> & Hk). split; [|intros x n p len y; by apply clamp_guest].
  intros x n Hn0 Hx Hn. rewrite div_block in Hn. destruct (layout k Hk) as (H1 & _ & H3 & _ & H5 & _ & Hl).
  split; [|apply private_el0; [done|]; right; rewrite div_block; lia].
  unfold permits, ram_of. cbn [size_ floor_ hole_beg hole_end]. unfold l2_tables, fastcall_bytes, page, block in *.
  assert (Hu : forall h, 0 <= h < x -> u64 (h - x) = h - x + 2 ^ 64).
  { intros h Hh. symmetry. apply Z.mod_unique with (-1); lia. }
  destruct (has_nonpie_window _); [destruct (H5 eq_refl) as [E3 _]|]; rewrite Hu by (unfold nonpie_base, nonpie_size in *; lia);
    unfold nonpie_base, nonpie_size in *; zcases; (done || lia).
Qed.

(** Clearing a guest range clears its bytes and no other, wherever the
    range starts in a host page, whatever the size of the host's pages, and
    whichever of the host's ways of zeroing work. *)
Theorem zero_is_exact (h : HostRam) (m : Ram) (size gpa n x : Z) :
  host_laws h m -> 0 <= gpa -> 0 < n -> size <= 2 ^ 36 -> permits (ram_of size) gpa n = true ->
  peek (zero h m size gpa n) x = if decide (gpa <= x < gpa + n) then 0 else peek m x.
Proof. apply zero_spec. Qed.

(** * Witnesses *)

Lemma attach_maps_guest_witness : hw_walk (attach ∅ 0x80000000) 0x8400123 = Some (0x8400123, true).
Proof.
  destruct (attach_maps_guest 0x7fffffff 0x80000000 ∅ ltac:(lia) ltac:(reflexivity)) as [H _].
  rewrite H by lia. reflexivity.
Defined.

Lemma permits_reach_tables_witness : permits (ram_of 0x80000000) 0x8000008 8 = true /\ el0 0x80000000 0x8000008 = false.
Proof.
  apply (proj1 (permits_reach_tables 0x7fffffff 0x80000000 ltac:(lia) ltac:(reflexivity)) 0x8000008 8); [lia|reflexivity|].
  apply Z.leb_le. reflexivity.
Defined.

(** Pages of 16 KiB, of which only the first has been touched. *)
Definition host_16k : HostRam :=
  {| base_ := 0x100000; host_page := 0x4000;
     mincore := fun lo n => Some (replicate (Z.to_nat (n / 0x4000)) true);
     madv_zero := fun _ _ => false; mach_write := fun _ _ => false |}.

Lemma zero_is_exact_witness : peek (zero host_16k {[0x8405000 := 7]} 0x80000000 0x8403000 0x6000) 0x8405000 = 0.
Proof.
  rewrite (zero_is_exact host_16k {[0x8405000 := 7]} 0x80000000 0x8403000 0x6000 0x8405000).
  - reflexivity.
  - constructor.
    + exists 14. split; [lia|reflexivity].
    + cbn. lia.
    + cbn. intros lo n vec Hn [= <-]. rewrite length_replicate. apply Z2Nat.id, Z.div_pos; lia.
    + cbn. intros lo n vec i x [= <-] Hv. apply lookup_replicate in Hv as [? _]. done.
  - lia.
  - lia.
  - lia.
  - reflexivity.
Defined.

End HvfMem.
