(* ===== verification/HvfFast.v ===== *)
(** The in-guest system calls of the macOS backend
    ([runtime/darwin/fastcall.hpp]): the hand-assembled EL1 handler that
    [emit_handler] writes into the vector of lower-EL synchronous exceptions,
    run on the instructions' documented meaning, and the identity calls the
    traps of a process publish through it ([runtime/darwin/trap.hpp]). *)
From S2P Require Import Prelude Abi GuestMem PageTables HvfMem.

Module HvfFast.

Import PageTables(peek, load, store, get64, put64, zeros).
Import HvfMem.

(** ** The instructions

    Bits [hi:lo] of an instruction word, and the A64 encodings the handler
    uses. *)

Definition bits (w hi lo : Z) : Z := w / 2 ^ lo mod 2 ^ (hi - lo + 1).

Inductive Insn :=
| Movz (rd imm hw : Z)
| Movk (rd imm hw : Z)
| MrsEsr (rt : Z)
| Lsr (rd rn shift : Z)
| Subs (rd rn imm : Z)
| BCond (cond off : Z)
| AddLsl (rd rn rm shift : Z)
| Ldr (rt rn off : Z)
| Cbz (rt off : Z)
| MovReg (rd rm : Z)
| Eret
| Hvc (imm : Z).

Definition decode (w : Z) : option Insn :=
  if bits w 31 23 =? 0x1a5 then Some (Movz (bits w 4 0) (bits w 20 5) (bits w 22 21))
  else if bits w 31 23 =? 0x1e5 then Some (Movk (bits w 4 0) (bits w 20 5) (bits w 22 21))
  else if (bits w 31 21 =? 0x6a0) && (bits w 4 0 =? 2) then Some (Hvc (bits w 20 5))
  else if bits w 31 5 =? 0x6a9c290 then Some (MrsEsr (bits w 4 0))
  else if (bits w 31 22 =? 0x34d) && (bits w 15 10 =? 63) then Some (Lsr (bits w 4 0) (bits w 9 5) (bits w 21 16))
  else if bits w 31 22 =? 0x3c4 then Some (Subs (bits w 4 0) (bits w 9 5) (bits w 21 10))
  else if (bits w 31 24 =? 0x54) && (bits w 4 4 =? 0) then Some (BCond (bits w 3 0) (bits w 23 5))
  else if (bits w 31 21 =? 0x458) then Some (AddLsl (bits w 4 0) (bits w 9 5) (bits w 20 16) (bits w 15 10))
  else if bits w 31 22 =? 0x3e5 then Some (Ldr (bits w 4 0) (bits w 9 5) (bits w 21 10 * 8))
  else if bits w 31 24 =? 0xb4 then Some (Cbz (bits w 4 0) (bits w 23 5))
  else if (bits w 31 21 =? 0x550) && (bits w 15 5 =? 0x1f) then Some (MovReg (bits w 4 0) (bits w 20 16))
  else if w =? 0xd69f03e0 then Some Eret
  else None.

(** A core at EL1: general registers (31 reads as zero), the two flags the
    handler tests, the program counter and the syndrome. *)
Record Cpu := mkCpu { x : Z -> Z; zf : bool; cf : bool; pc : Z; esr : Z }.

Definition reg (c : Cpu) (r : Z) : Z := if r =? 31 then 0 else x c r.
Definition set_reg (c : Cpu) (r v : Z) : Cpu :=
  if r =? 31 then c else mkCpu (fun q => if q =? r then v else x c q) (zf c) (cf c) (pc c) (esr c).
Definition set_flags (c : Cpu) (z k : bool) : Cpu := mkCpu (x c) z k (pc c) (esr c).
Definition goto (c : Cpu) (p : Z) : Cpu := mkCpu (x c) (zf c) (cf c) p (esr c).

(** The end of the handler: back to EL0, or an exit to the host. *)
Inductive Outcome := ToGuest (c : Cpu) | ToHost (imm : Z) (c : Cpu).

(** Forward branches only: the offset is a positive count of words. *)
Definition holds (c : Cpu) (cond : Z) : option bool :=
  if cond =? 1 then Some (negb (zf c)) else if cond =? 2 then Some (cf c) else None.

Definition step (m : Ram) (c : Cpu) (i : Insn) : option (Cpu + Outcome) :=
  let next c := Some (inl (goto c (pc c + 4))) in
  match i with
  | Movz rd imm hw => next (set_reg c rd (imm * 2 ^ (16 * hw)))
  | Movk rd imm hw =>
      let s := 2 ^ (16 * hw) in
      let v := reg c rd in
      next (set_reg c rd (v mod s + imm * s + v / (s * 65536) * (s * 65536)))
  | MrsEsr rt => next (set_reg c rt (esr c))
  | Lsr rd rn sh => next (set_reg c rd (reg c rn / 2 ^ sh))
  | Subs rd rn imm =>
      let v := reg c rn in
      next (set_flags (set_reg c rd (u64 (v - imm))) (u64 (v - imm) =? 0) (imm <=? v))
  | BCond cond off =>
      match holds c cond with
      | Some b => Some (inl (goto c (if b then pc c + off * 4 else pc c + 4)))
      | None => None
      end
  | AddLsl rd rn rm sh => next (set_reg c rd (u64 (reg c rn + u64 (reg c rm * 2 ^ sh))))
  | Ldr rt rn off => next (set_reg c rt (get64 m (u64 (reg c rn + off))))
  | Cbz rt off => Some (inl (goto c (if reg c rt =? 0 then pc c + off * 4 else pc c + 4)))
  | MovReg rd rm => next (set_reg c rd (reg c rm))
  | Eret => Some (inr (ToGuest c))
  | Hvc imm => Some (inr (ToHost imm c))
  end.

Definition fetch32 (m : Ram) (a : Z) : Z := le_val (load m a 4).

(** Fifteen instructions, no backward branch: fifteen steps are enough. *)
Fixpoint run (fuel : nat) (m : Ram) (c : Cpu) : option Outcome :=
  match fuel with
  | O => None
  | S fuel' =>
      match decode (fetch32 m (pc c)) with
      | None => None
      | Some i =>
          match step m c i with
          | None => None
          | Some (inr o) => Some o
          | Some (inl c) => run fuel' m c
          end
      end
  end.

(** Vector 8: a synchronous exception from EL0. *)
Definition handler_pc : Z := vectors + 8 * 0x80.

Definition take_exception (m : Ram) (c : Cpu) : option Outcome := run 15 m (goto c handler_pc).

(** ** What the traps publish

    The identity of the guest thread a trap serves ([HvfTrap], [TaskState]). *)

Record Trap := mkTrap { tid : Z; tgid_ : Z; threaded_ : bool; parent_ : Z }.

Definition new_trap (t : Z) : Trap := mkTrap t 1 false 0.

Definition refresh_fastcalls (m : Ram) (size : Z) (t : Trap) : Ram :=
  let m := set_fastcall m size 172 (u64 (tgid_ t)) in
  let m := if threaded_ t then m else set_fastcall m size 178 (u64 (tid t)) in
  let m := set_fastcall m size 173 (u64 (parent_ t)) in
  let m := set_fastcall m size 174 0 in
  let m := set_fastcall m size 175 0 in
  let m := set_fastcall m size 176 0 in
  let m := set_fastcall m size 177 0 in
  set_fastcall m size 124 0.

Definition start (m : Ram) (size : Z) (t : Trap) : Ram * Trap :=
  let t := if threaded_ t then t else mkTrap (tid t) (tid t) (threaded_ t) (parent_ t) in
  (refresh_fastcalls m size t, t).

Definition adopt_thread (t : Trap) (tgid : Z) : Trap := mkTrap (tid t) tgid true (parent_ t).

(** [clone(2)] of a thread.  The embedder's hook, the pid table and the host
    thread are outside: whether there is a hook, the number allocated, and
    whether the thread could be made. *)
Record CloneRequest := mkClone { flags : Z; stack : Z; parent_tid_addr : Z; child_tid_addr : Z }.

Definition parent_settid : Z := 0x00100000.
Definition child_settid : Z := 0x01000000.
Definition flag_set (req : CloneRequest) (f : Z) : bool := negb (Z.land (flags req) f =? 0).

Record ThreadHost := { has_spawner : bool; allocate : Z; spawned : bool }.

(** [ram().put] of a 32-bit number. *)
Definition put_tid (m : Ram) (size a v : Z) : Ram :=
  match at_ (ram_of size) a 4 with
  | Some _ => store m a (le_bytes 4 (u32 v))
  | None => m
  end.

(** The answer, and the new thread's trap when there is one
    ([run_guest_thread]). *)
Definition do_clone_thread (m : Ram) (size : Z) (t : Trap) (h : ThreadHost) (req : CloneRequest)
  : Ram * Trap * (Z * option Trap) :=
  let t := mkTrap (tid t) (tgid_ t) true (parent_ t) in
  let m := clear_fastcall m size 178 in
  if negb (has_spawner h) then (m, t, (-38, None))
  else if stack req =? 0 then (m, t, (-22, None))
  else if allocate h <? 0 then (m, t, (-11, None))
  else
    let m := if flag_set req child_settid then put_tid m size (child_tid_addr req) (allocate h) else m in
    let m := if flag_set req parent_settid then put_tid m size (parent_tid_addr req) (allocate h) else m in
    if negb (spawned h) then (m, t, (-11, None))
    else (m, t, (allocate h, Some (adopt_thread (new_trap (allocate h)) (tgid_ t)))).

(** The identity [do_execve] leaves. *)
Definition exec_identity (m : Ram) (size : Z) (t : Trap) : Ram * Trap :=
  let t := mkTrap (tid t) (tid t) false (parent_ t) in
  (refresh_fastcalls m size t, t).

(** The identity of a fork child ([resume_fork_child]). *)
Definition fork_identity (m : Ram) (size self parent : Z) : Ram * Trap :=
  let t := mkTrap self self false parent in
  (refresh_fastcalls m size t, t).

(** A process: guest RAM and the traps of its threads. *)
Record Proc := mkProc { ram : Ram; traps : list Trap }.

(** Bytes the guest can reach itself. *)
Definition guest_bytes (size a n : Z) : Prop := forall x, a <= x < a + n -> 0 <= x /\ el0 size x = true.

(** The addresses a clone writes to are the guest's own. *)
Definition clone_ok (size : Z) (req : CloneRequest) : Prop :=
  guest_bytes size (child_tid_addr req) 4 /\ guest_bytes size (parent_tid_addr req) 4.

(** The life of a process, one event at a time, marked when it is a clone.
    An [execve] is of a process with one thread.  Nothing in the backend
    checks that a clone's addresses are the guest's own ([HvfMem] shows what
    its bounds check lets through): of the others nothing is said. *)
Inductive event (size : Z) : bool -> Proc -> Proc -> Prop :=
| Ev_write (m : Ram) (ts : list Trap) (a : Z) (bs : list Z) :
    guest_bytes size a (Z.of_nat (length bs)) -> event size false (mkProc m ts) (mkProc (store m a bs) ts)
| Ev_start (m : Ram) (ts : list Trap) (i : nat) (t : Trap) :
    ts !! i = Some t -> event size false (mkProc m ts) (mkProc (start m size t).1 (<[i := (start m size t).2]> ts))
| Ev_clone (m : Ram) (ts : list Trap) (i : nat) (t : Trap) (h : ThreadHost) (req : CloneRequest)
    (m' : Ram) (t' : Trap) (r : Z) (new : option Trap) :
    ts !! i = Some t -> clone_ok size req -> do_clone_thread m size t h req = (m', t', (r, new)) ->
    event size true (mkProc m ts) (mkProc m' (<[i := t']> ts ++ option_list new))
| Ev_exec (m : Ram) (t : Trap) :
    event size false (mkProc m [t]) (mkProc (exec_identity m size t).1 [(exec_identity m size t).2])
| Ev_exit (m : Ram) (ts : list Trap) (i : nat) :
    event size false (mkProc m ts) (mkProc m (delete i ts)).

(** The states of a process with parent number [p] (0 for the root), and
    whether it has cloned. *)
Inductive reachable (size : Z) : Z -> bool -> Proc -> Prop :=
| R_root (m : Ram) : reachable size 0 false (mkProc (attach m size) [new_trap 1])
| R_fork (s : Proc) (self parent p : Z) (b : bool) :
    reachable size p b s ->
    reachable size parent false (mkProc (fork_identity (ram s) size self parent).1 [(fork_identity (ram s) size self parent).2])
| R_event (s s' : Proc) (p : Z) (b cl : bool) :
    reachable size p b s -> event size cl s s' -> reachable size p (b || cl) s'.

(** ** Specification *)

Definition ec_svc : Z := 0x15.

(** A live entry answers a system call; everything else goes to the host. *)
Definition answered (m : Ram) (size : Z) (c : Cpu) : option Z :=
  if (esr c / 2 ^ 26 =? ec_svc) && (x c 8 <? kMaxNr) && negb (get64 m (fastcall size + x c 8 * 16 + 8) =? 0)
  then Some (get64 m (fastcall size + x c 8 * 16)) else None.

(** What the table answers, by number. *)
Definition table_entry (m : Ram) (size nr : Z) : option Z :=
  if get64 m (fastcall size + nr * 16 + 8) =? 0 then None else Some (get64 m (fastcall size + nr * 16)).

(** The parent of a process with parent [p]: 0 is also answered once the
    process has cloned. *)
Definition parent_answer (p : Z) (cloned : bool) (v : Z) : Prop := v = p \/ cloned = true /\ v = 0.

(** What a number may answer to a thread. *)
Definition right_answer (p : Z) (cloned : bool) (t : Trap) (nr v : Z) : Prop :=
  nr = 172 /\ v = u64 (tgid_ t) \/ nr = 178 /\ v = u64 (tid t) \/ nr = 173 /\ parent_answer (u64 p) cloned v
  \/ (nr = 174 \/ nr = 175 \/ nr = 176 \/ nr = 177 \/ nr = 124) /\ v = 0.

(** The handler, disassembled. *)
Definition listing (t : Z) : list Insn :=
  [ MrsEsr 16; Lsr 16 16 26; Subs 16 16 0x15; BCond 1 11; Subs 31 8 512; BCond 2 9;
    Movz 16 (t mod 65536) 0; Movk 16 (t / 65536 mod 65536) 1; AddLsl 16 16 8 4; Ldr 17 16 8;
    Cbz 17 4; Ldr 16 16 0; MovReg 0 16; Eret; Hvc 8 ].

(** The handler's words are in place. *)
Definition code_in (m : Ram) (size : Z) : Prop :=
  forall i w, emit_handler (fastcall size) 8 !! i = Some w -> fetch32 m (handler_pc + 4 * Z.of_nat i) = w.

(** * Lemmas *)

#[local] Opaque get64 put64 zeros store.

(** ** Decoding *)

Lemma lor_field (c v : Z) : c mod 2 ^ 21 < 32 -> 0 <= c -> 0 <= v < 65536 -> Z.lor c (u32 (Z.shiftl v 5)) = c + v * 32.
Proof.
  intros Hc H0 Hv. rewrite Z.shiftl_mul_pow2 by lia. change (2 ^ 5) with 32. rewrite u32_small by lia.
  assert (E : Z.land c (v * 32) = 0).
  { apply Z.bits_inj'. intros n Hn. rewrite Z.land_spec, Z.bits_0. change 32 with (2 ^ 5).
    destruct (Z.ltb_spec n 5); [by rewrite Z.mul_pow2_bits_low, andb_false_r|]. destruct (Z.ltb_spec n 21).
    - rewrite <- (Z.mod_pow2_bits_low c 21) by lia. rewrite <- (Z.mod_small (c mod 2 ^ 21) (2 ^ 5)).
      + by rewrite Z.mod_pow2_bits_high by lia.
      + pose proof (Z.mod_pos_bound c (2 ^ 21)). lia.
    - rewrite Z.mul_pow2_bits by lia. rewrite <- (Z.mod_small v (2 ^ 16)) by lia.
      by rewrite Z.mod_pow2_bits_high, andb_false_r by lia. }
  by rewrite <- Z.lxor_lor, <- Z.add_nocarry_lxor.
Qed.

Lemma decode_movz (v : Z) : 0 <= v < 65536 -> decode (Z.lor 0xd2800010 (u32 (Z.shiftl v 5))) = Some (Movz 16 v 0).
Proof.
  intros Hv. rewrite lor_field by done. unfold decode, bits.
  assert (E : forall n a b, (0xd2800010 + v * 32) / 2 ^ a mod 2 ^ b = n -> (0xd2800010 + v * 32) / 2 ^ a mod 2 ^ b = n) by done.
  rewrite (E 0x1a5 23 _), (E 16 0 _), (E v 5 _), (E 0 21 _); [done|..].
  all: cbn -[Z.div Z.modulo Z.mul Z.add]; Z.div_mod_to_equations; lia.
Qed.

Lemma decode_movk (v : Z) : 0 <= v < 65536 -> decode (Z.lor 0xf2a00010 (u32 (Z.shiftl v 5))) = Some (Movk 16 v 1).
Proof.
  intros Hv. rewrite lor_field by done. unfold decode, bits.
  assert (E : forall n a b, (0xf2a00010 + v * 32) / 2 ^ a mod 2 ^ b = n -> (0xf2a00010 + v * 32) / 2 ^ a mod 2 ^ b = n) by done.
  rewrite (E 0x1e5 23 _), (E 16 0 _), (E v 5 _), (E 1 21 _); [done|..].
  all: cbn -[Z.div Z.modulo Z.mul Z.add]; Z.div_mod_to_equations; lia.
Qed.

Lemma decode_handler (t : Z) : 0 <= t < 2 ^ 32 -> map decode (emit_handler t 8) = map Some (listing t).
Proof.
  intros Ht. unfold emit_handler, listing. cbn [map].
  assert (E : forall z, Z.land z 0xffff = z mod 65536) by (intros z; by apply (Z.land_ones z 16)).
  rewrite !E, Z.shiftr_div_pow2 by done. change (2 ^ 16) with 65536.
  rewrite decode_movz, decode_movk by by apply Z.mod_pos_bound. reflexivity.
Qed.

(** ** Running the handler *)

Section handler.
Context (k : Z) (Hk : 1 <= k <= 2 ^ 15) (m : Ram).

Local Abbreviation R := (k * block).

Context (Hc : code_in m R).

Lemma fastcall_range : 0x3000 <= fastcall R < 2 ^ 20.
Proof. destruct (layout k Hk) as (_ & _ & _ & _ & _ & _ & ?). unfold fastcall, l2_tables, page. lia. Qed.

Lemma run_at (fuel i : nat) (c : Cpu) (ins : Insn) :
  pc c = handler_pc + 4 * Z.of_nat i -> listing (fastcall R) !! i = Some ins ->
  run (S fuel) m c = match step m c ins with None => None | Some (inr o) => Some o | Some (inl c) => run fuel m c end.
Proof.
  intros Hp Hi. cbn [run]. rewrite Hp. pose proof fastcall_range as Hr.
  assert (E : map decode (emit_handler (fastcall R) 8) !! i = Some (Some ins)).
  { rewrite decode_handler by lia. by rewrite list_lookup_fmap, Hi. }
  rewrite list_lookup_fmap in E. destruct (emit_handler (fastcall R) 8 !! i) as [w|] eqn:Ew; [|done].
  rewrite (Hc i w Ew). cbn in E. by injection E as ->.
Qed.

(** The exit to the host, from the branch target. *)
Lemma run_slow (fuel : nat) (c : Cpu) : pc c = handler_pc + 56 -> run (S fuel) m c = Some (ToHost 8 c).
Proof. intros Hp. by rewrite (run_at fuel 14 c (Hvc 8)). Qed.

(** [movz], [movk] and [add] make the entry's address. *)
Lemma table_address (v : Z) :
  0 <= v < 512 ->
  let lo := fastcall R mod 65536 * 2 ^ (16 * 0) in
  u64 (lo mod 2 ^ (16 * 1) + fastcall R / 65536 mod 65536 * 2 ^ (16 * 1) + lo / (2 ^ (16 * 1) * 65536) * (2 ^ (16 * 1) * 65536)
       + u64 (v * 2 ^ 4)) = fastcall R + v * 16.
Proof.
  intros Hv lo. pose proof fastcall_range. rewrite (u64_small (v * 2 ^ 4)) by lia. unfold lo.
  change (2 ^ (16 * 1)) with 65536; change (2 ^ 4) with 16; change (2 ^ (16 * 0)) with 1.
  rewrite u64_small; Z.div_mod_to_equations; lia.
Qed.

Ltac exec i := erewrite (run_at _ i); [|reflexivity|reflexivity];
  cbn [step set_reg reg x zf cf pc esr goto set_flags holds Z.eqb Pos.eqb negb].

Lemma handler_run (c : Cpu) :
  0 <= esr c < 2 ^ 64 -> 0 <= x c 8 < 2 ^ 64 ->
  exists c', take_exception m c = Some (match answered m R c with Some _ => ToGuest c' | None => ToHost 8 c' end)
    /\ esr c' = esr c
    /\ (forall r, r <> 16 -> r <> 17 ->
          x c' r = match answered m R c with Some v => if r =? 0 then v else x c r | None => x c r end)
    /\ (esr c / 2 ^ 26 <> ec_svc -> x c' 16 = u64 (esr c / 2 ^ 26 - ec_svc)).
Proof.
  intros He H8. unfold take_exception, answered. exec 0%nat. exec 1%nat. exec 2%nat. exec 3%nat.
  set (ec := esr c / 2 ^ 26). assert (Hec : 0 <= ec < 2 ^ 38) by (unfold ec; change (2 ^ 26) with 67108864; Z.div_mod_to_equations; lia).
  assert (Ez : (u64 (ec - 21) =? 0) = (ec =? ec_svc)).
  { unfold u64, ec_svc. destruct (Z.eqb_spec ec 0x15) as [-> |]; [done|]. apply Z.eqb_neq. Z.div_mod_to_equations. lia. }
  rewrite Ez. destruct (Z.eqb_spec ec ec_svc) as [Es|Es]; cbn [negb andb].
  2: { rewrite run_slow by reflexivity. eexists. split; [reflexivity|]. split; [done|]. split; [|done].
       intros r H16 H17. cbn [x goto set_flags]. by rewrite (proj2 (Z.eqb_neq r 16)). }
  exec 4%nat. exec 5%nat. change kMaxNr with 512. rewrite (Z.ltb_antisym 512 (x c 8)).
  destruct (Z.leb_spec 512 (x c 8)) as [Hn|Hn]; cbn [negb andb].
  { rewrite run_slow by reflexivity. eexists. split; [reflexivity|]. split; [done|]. split; [|done].
    intros r H16 H17. cbn [x goto set_flags]. by rewrite (proj2 (Z.eqb_neq r 16)). }
  exec 6%nat. exec 7%nat. exec 8%nat. rewrite table_address by lia. exec 9%nat. exec 10%nat.
  pose proof fastcall_range. rewrite (u64_small (fastcall R + x c 8 * 16 + 8)) by lia.
  destruct (Z.eqb_spec (get64 m (fastcall R + x c 8 * 16 + 8)) 0) as [E0|E0]; cbn [negb].
  { rewrite run_slow by reflexivity. eexists. split; [reflexivity|]. split; [done|]. split; [|done].
    intros r H16 H17. cbn [x goto set_flags]. by rewrite (proj2 (Z.eqb_neq r 16)), (proj2 (Z.eqb_neq r 17)). }
  exec 11%nat. exec 12%nat. exec 13%nat. rewrite Z.add_0_r, u64_small by lia. eexists. split; [reflexivity|]. split; [done|]. split; [|done].
  intros r H16 H17. cbn [x goto set_flags]. by rewrite (proj2 (Z.eqb_neq r 16)), (proj2 (Z.eqb_neq r 17)).
Qed.

End handler.

(** ** The table *)

(** Memory in which the handler stands and the table answers [f]. *)
Definition publishes (size : Z) (m : Ram) (f : Z -> option Z) : Prop :=
  code_in m size /\ forall nr, 0 <= nr < 512 -> table_entry m size nr = f nr.

Lemma fetch32_ext (m m' : Ram) (a : Z) : (forall x, a <= x < a + 4 -> peek m' x = peek m x) -> fetch32 m' a = fetch32 m a.
Proof. intros H. unfold fetch32. f_equal. apply PageTables.load_ext. intros x Hx. apply H. lia. Qed.

Lemma fetch_stored (m : Ram) (a : Z) (ws : list Z) (i : nat) (w : Z) :
  ws !! i = Some w -> 0 <= w < 2 ^ 32 -> fetch32 (store m a (concat (map (le_bytes 4) ws))) (a + 4 * Z.of_nat i) = w.
Proof.
  intros Hi Hw. unfold fetch32. replace (4 * Z.of_nat i) with (Z.of_nat (4 * i)) by lia.
  rewrite (PageTables.load_words m a 4 ws i w Hi). by apply le_val_bytes.
Qed.

Lemma handler_words (t : Z) (i : nat) (w : Z) : emit_handler t 8 !! i = Some w -> 0 <= w < 2 ^ 32.
Proof.
  assert (F : Forall (fun w => 0 <= w < 2 ^ 32) (emit_handler t 8)).
  { unfold emit_handler. repeat (apply Forall_cons; split); [..|by apply Forall_nil].
    all: done || (apply PageTables.lor_range; [done|done|by apply Z.mod_pos_bound]). }
  rewrite Forall_lookup in F. apply F.
Qed.

Section table.
Context (k : Z) (Hk : 1 <= k <= 2 ^ 15).

Local Abbreviation R := (k * block).

Lemma code_keeps (m m' : Ram) : (forall x, 0x400 <= x < 0x43c -> peek m' x = peek m x) -> code_in m R -> code_in m' R.
Proof.
  intros H Hc i w Hw. rewrite <- (Hc i w Hw). apply lookup_lt_Some in Hw. change (length _) with 15%nat in Hw.
  apply fetch32_ext. intros x Hx. apply H. unfold handler_pc, vectors in *. lia.
Qed.

Lemma entry_keeps (m m' : Ram) (nr : Z) :
  (forall x, fastcall R + nr * 16 <= x < fastcall R + nr * 16 + 16 -> peek m' x = peek m x) ->
  table_entry m' R nr = table_entry m R nr.
Proof. intros H. unfold table_entry. rewrite !(PageTables.get64_ext m m') by (intros; apply H; lia). done. Qed.

Lemma publishes_store (m : Ram) (f : Z -> option Z) (a : Z) (bs : list Z) :
  guest_bytes R a (Z.of_nat (length bs)) -> publishes R m f -> publishes R (store m a bs) f.
Proof.
  intros Hg [Hc Ht]. pose proof (fastcall_range k Hk) as Hr.
  assert (E : forall x, 0 <= x < fastcall R + fastcall_bytes -> peek (store m a bs) x = peek m x).
  { intros x Hx. rewrite PageTables.peek_store, decide_False; [done|]. intros Hin. destruct (Hg x ltac:(lia)) as [_ He].
    rewrite (private_el0 k) in He; [done|done|]. by left. }
  split; [apply (code_keeps m); [intros; apply E; unfold fastcall_bytes; lia|done]|].
  intros nr Hn. rewrite <- (Ht nr Hn). apply entry_keeps. intros. apply E. unfold fastcall_bytes. lia.
Qed.

Lemma publishes_set (m : Ram) (f : Z -> option Z) (nr v : Z) :
  0 <= nr < 512 -> 0 <= v < 2 ^ 64 -> publishes R m f ->
  publishes R (set_fastcall m R nr v) (fun n => if n =? nr then Some v else f n).
Proof.
  intros Hn Hv [Hc Ht]. pose proof (fastcall_range k Hk) as Hr. unfold set_fastcall, kMaxNr.
  rewrite (proj2 (Z.ltb_ge nr 0)), (proj2 (Z.leb_gt 512 nr)) by lia. cbn [orb].
  assert (E : forall x, ~ (fastcall R + nr * 16 <= x < fastcall R + nr * 16 + 16) ->
    peek (put64 (put64 m (fastcall R + nr * 16) v) (fastcall R + nr * 16 + 8) 1) x = peek m x).
  { intros x Hx. rewrite !PageTables.peek_put64 by lia. done. }
  split; [apply (code_keeps m); [intros; apply E; lia|done]|]. intros n Hn'. destruct (Z.eqb_spec n nr) as [-> |Hne].
  - unfold table_entry. rewrite PageTables.get64_put64 by done. cbn [Z.eqb].
    by rewrite PageTables.get64_put64_other, PageTables.get64_put64 by (lia || done).
  - rewrite <- (Ht n Hn'). apply entry_keeps. intros. apply E. lia.
Qed.

Lemma publishes_clear (m : Ram) (f : Z -> option Z) (nr : Z) :
  0 <= nr < 512 -> publishes R m f -> publishes R (clear_fastcall m R nr) (fun n => if n =? nr then None else f n).
Proof.
  intros Hn [Hc Ht]. pose proof (fastcall_range k Hk) as Hr. unfold clear_fastcall, kMaxNr.
  rewrite (proj2 (Z.ltb_ge nr 0)), (proj2 (Z.leb_gt 512 nr)) by lia. cbn [orb].
  split; [apply (code_keeps m); [intros; apply PageTables.peek_put64; lia|done]|].
  intros n Hn'. destruct (Z.eqb_spec n nr) as [-> |Hne].
  - unfold table_entry. by rewrite PageTables.get64_put64.
  - rewrite <- (Ht n Hn'). apply entry_keeps. intros. apply PageTables.peek_put64. lia.
Qed.

Lemma attach_publishes (m : Ram) : publishes R (attach m R) (fun _ => None).
Proof.
  pose proof (fastcall_range k Hk) as Hr. split.
  - intros i w Hw. unfold attach, write_vector_stub.
    set (m1 := store (fold_left _ _ _) _ _). rewrite (fetch32_ext m1).
    + apply fetch_stored; [done|]. by eapply handler_words.
    + intros x Hx. apply lookup_lt_Some in Hw. change (length _) with 15%nat in Hw.
      rewrite PageTables.peek_store, decide_False; [done|]. unfold handler_pc, vectors in Hx. lia.
  - intros nr Hn. unfold table_entry. by rewrite attach_fastcalls.
Qed.

Lemma publishes_put_tid (m : Ram) (f : Z -> option Z) (a v : Z) :
  guest_bytes R a 4 -> publishes R m f -> publishes R (put_tid m R a v) f.
Proof. intros Ha Hp. unfold put_tid. destruct (at_ _ _ _); [|done]. by apply publishes_store. Qed.

(** The table after a refresh. *)
Definition refreshed (t : Trap) (f : Z -> option Z) (n : Z) : option Z :=
  if (n =? 124) || (n =? 177) || (n =? 176) || (n =? 175) || (n =? 174) then Some 0
  else if n =? 173 then Some (u64 (parent_ t))
  else if negb (threaded_ t) && (n =? 178) then Some (u64 (tid t))
  else if n =? 172 then Some (u64 (tgid_ t)) else f n.

Lemma publishes_ext (m : Ram) (f g : Z -> option Z) : (forall n, f n = g n) -> publishes R m f -> publishes R m g.
Proof. intros H [Hc Ht]. split; [done|]. intros n Hn. by rewrite <- H, Ht. Qed.

Lemma refresh_publishes (m : Ram) (f : Z -> option Z) (t : Trap) :
  publishes R m f -> publishes R (refresh_fastcalls m R t) (refreshed t f).
Proof.
  intros Hp. assert (U : forall z, 0 <= u64 z < 2 ^ 64) by (intros z; by apply Z.mod_pos_bound).
  unfold refresh_fastcalls. eapply publishes_ext; cycle 1.
  - do 6 (apply publishes_set; [done|done || apply U|]). apply (publishes_ext _ (fun n => if negb (threaded_ t) && (n =? 178) then Some (u64 (tid t))
      else if n =? 172 then Some (u64 (tgid_ t)) else f n)); [done|].
    destruct (threaded_ t); cbn [negb andb]; repeat (apply publishes_set; [done|apply U|]); done.
  - intros n. unfold refreshed. cbn beta. by destruct (n =? 124), (n =? 177), (n =? 176), (n =? 175), (n =? 174).
Qed.

End table.

(** ** The threads of a process *)

(** Numbers that are ever answered, and the constants. *)
Definition listed (nr v : Z) : Prop :=
  nr = 172 \/ nr = 178 \/ nr = 173 \/ (nr = 174 \/ nr = 175 \/ nr = 176 \/ nr = 177 \/ nr = 124) /\ v = 0.

(** The same, the parent's number left open. *)
Definition own_answer (t : Trap) (nr v : Z) : Prop :=
  nr = 172 /\ v = u64 (tgid_ t) \/ nr = 178 /\ v = u64 (tid t) \/ nr = 173
  \/ (nr = 174 \/ nr = 175 \/ nr = 176 \/ nr = 177 \/ nr = 124) /\ v = 0.

Record agreed (f : Z -> option Z) (ts : list Trap) : Prop := {
  ag_listed : forall nr v, f nr = Some v -> listed nr v;
  ag_right : forall t nr v, t ∈ ts -> f nr = Some v -> own_answer t nr v;
  ag_alone : forall t, t ∈ ts -> threaded_ t = false -> ts = [t];
  ag_group : forall t u, t ∈ ts -> u ∈ ts -> tgid_ t = tgid_ u
}.

Lemma refreshed_listed (f : Z -> option Z) (t : Trap) :
  (forall nr v, f nr = Some v -> listed nr v) -> forall nr v, refreshed t f nr = Some v -> listed nr v.
Proof.
  intros H nr v. unfold refreshed, listed. destruct (_ || _) eqn:E.
  { intros [= <-]. rewrite !orb_true_iff, !Z.eqb_eq in E. right. right. right. split; [|done]. tauto. }
  destruct (Z.eqb_spec nr 173); [lia|]. destruct (Z.eqb_spec nr 178); [lia|]. rewrite andb_false_r.
  destruct (Z.eqb_spec nr 172); [lia|]. apply H.
Qed.

(** A refresh by the only thread. *)
Lemma refreshed_single (f : Z -> option Z) (t : Trap) :
  (forall nr v, f nr = Some v -> listed nr v) -> threaded_ t = false -> agreed (refreshed t f) [t].
Proof.
  intros H Ht. split; [by apply refreshed_listed|..].
  - intros u nr v ->%list_elem_of_singleton. unfold refreshed, own_answer. rewrite Ht. cbn [negb andb]. destruct (_ || _) eqn:E.
    { intros [= <-]. rewrite !orb_true_iff, !Z.eqb_eq in E. right. right. right. split; [|done]. tauto. }
    rewrite !orb_false_iff, !Z.eqb_neq in E. zcases; [intros; lia|intros [= <-]; tauto|intros [= <-]; tauto|].
    intros Hf. apply H in Hf. unfold listed in Hf. lia.
  - intros u ->%list_elem_of_singleton _. done.
  - by intros u w ->%list_elem_of_singleton ->%list_elem_of_singleton.
Qed.

(** A refresh by one of several. *)
Lemma refreshed_threaded (f : Z -> option Z) (ts : list Trap) (t : Trap) :
  agreed f ts -> t ∈ ts -> threaded_ t = true -> agreed (refreshed t f) ts.
Proof.
  intros [H1 H2 H3 H4] Hin Ht. split; [by apply refreshed_listed| |done|done].
  intros u nr v Hu. unfold refreshed. rewrite Ht. cbn [negb andb]. destruct (_ || _) eqn:E.
  { intros [= <-]. rewrite !orb_true_iff, !Z.eqb_eq in E. unfold own_answer. right. right. right. split; [|done]. tauto. }
  zcases; [intros; unfold own_answer; tauto| |by apply H2]. intros [= <-]. left. split; [done|]. by rewrite (H4 t u).
Qed.

(** A clone, the number revoked. *)
Lemma cloned_agreed (f : Z -> option Z) (ts : list Trap) (i : nat) (t : Trap) (new : option Trap) :
  agreed f ts -> ts !! i = Some t ->
  (forall u, new = Some u -> threaded_ u = true /\ tgid_ u = tgid_ t) ->
  agreed (fun n => if n =? 178 then None else f n)
    (<[i := mkTrap (tid t) (tgid_ t) true (parent_ t)]> ts ++ option_list new).
Proof.
  intros [H1 H2 H3 H4] Hi Hnew. set (ts' := _ ++ _).
  assert (Hin : forall u, u ∈ ts' -> threaded_ u = true /\ tgid_ u = tgid_ t).
  { intros u Hu. apply elem_of_app in Hu as [Hu|Hu].
    - apply list_elem_of_lookup in Hu as [j Hj]. destruct (decide (i = j)) as [-> |Hne].
      + rewrite list_lookup_insert_eq in Hj by by eapply lookup_lt_Some. by injection Hj as <-.
      + rewrite list_lookup_insert_ne in Hj by done. assert (u ∈ ts) by by eapply list_elem_of_lookup_2.
        assert (t ∈ ts) by by eapply list_elem_of_lookup_2. split; [|by apply H4].
        destruct (threaded_ u) eqn:E; [done|]. pose proof (H3 u ltac:(done) E) as ->. destruct i, j; done.
    - destruct new as [w|]; [|by apply elem_of_nil in Hu]. apply list_elem_of_singleton in Hu as ->. by apply Hnew. }
  split.
  - intros nr v. zcases; [done|]. apply H1.
  - intros u nr v Hu. zcases; [done|]. intros Hf. destruct (Hin u Hu) as [_ E].
    destruct (H2 t nr v) as [[-> ->]|[[-> _]|Hr]]; [by eapply list_elem_of_lookup_2|done| |done|unfold own_answer; tauto].
    left. by rewrite E.
  - intros u Hu E. destruct (Hin u Hu). congruence.
  - intros u w Hu Hw. by rewrite (proj2 (Hin u Hu)), (proj2 (Hin w Hw)).
Qed.

(** The parent's number, in the table and in the traps. *)
Definition parented (p : Z) (cloned : bool) (f : Z -> option Z) (ts : list Trap) : Prop :=
  (forall v, f 173 = Some v -> parent_answer (u64 p) cloned v) /\
  (forall t, t ∈ ts -> parent_answer p cloned (parent_ t)).

Lemma parent_u64 p b v : parent_answer p b v -> parent_answer (u64 p) b (u64 v).
Proof. intros [-> |[? ->]]; [by left|by right]. Qed.

Lemma parented_refresh p b f ts ts' t :
  parent_answer p b (parent_ t) -> (forall u, u ∈ ts' -> u ∈ ts \/ parent_ u = parent_ t) -> parented p b f ts ->
  parented p b (refreshed t f) ts'.
Proof.
  intros Ht Hts [_ H2]. split.
  - intros v. unfold refreshed. cbn [Z.eqb Pos.eqb orb]. intros [= <-]. by apply parent_u64.
  - intros u [Hu| ->]%Hts; [by apply H2|done].
Qed.

Lemma parent_cloned p b v : parent_answer p b v -> parent_answer p true v.
Proof. intros [-> |[_ ->]]; [by left|by right]. Qed.

Lemma parented_clone p b f ts i t new :
  parented p b f ts -> ts !! i = Some t -> (forall u, new = Some u -> parent_ u = 0) ->
  parented p true (fun n => if n =? 178 then None else f n)
    (<[i := mkTrap (tid t) (tgid_ t) true (parent_ t)]> ts ++ option_list new).
Proof.
  intros [H1 H2] Hi Hnew. split; [intros v Hv; by eapply parent_cloned, H1|].
  intros u [Hu|Hu]%elem_of_app.
  - apply list_elem_of_lookup in Hu as [j Hj]. destruct (decide (i = j)) as [-> |Hne].
    + rewrite list_lookup_insert_eq in Hj by by eapply lookup_lt_Some. injection Hj as <-.
      apply (parent_cloned p b (parent_ t)), H2. by eapply list_elem_of_lookup_2.
    + rewrite list_lookup_insert_ne in Hj by done. eapply parent_cloned, H2. by eapply list_elem_of_lookup_2.
  - destruct new as [w|]; [|by apply elem_of_nil in Hu]. apply list_elem_of_singleton in Hu as ->. rewrite (Hnew w eq_refl). by right.
Qed.

Lemma own_right p b f ts t nr v : agreed f ts -> parented p b f ts -> t ∈ ts -> f nr = Some v -> right_answer p b t nr v.
Proof.
  intros Ha [Hp _] Ht Hf. unfold right_answer. destruct (ag_right _ _ Ha t nr v Ht Hf) as [?|[?|[-> |?]]]; [by left|by right; left| |tauto].
  right. right. left. split; [done|]. by apply Hp.
Qed.

Section life.
Context (k : Z) (Hk : 1 <= k <= 2 ^ 15).

Local Abbreviation R := (k * block).

Definition proper (p : Z) (b : bool) (s : Proc) : Prop :=
  exists f, publishes R (ram s) f /\ agreed f (traps s) /\ parented p b f (traps s).

Lemma clone_spec (m : Ram) (f : Z -> option Z) (t : Trap) (h : ThreadHost) (req : CloneRequest) :
  clone_ok R req -> publishes R m f ->
  exists m' r new, do_clone_thread m R t h req = (m', mkTrap (tid t) (tgid_ t) true (parent_ t), (r, new))
    /\ publishes R m' (fun n => if n =? 178 then None else f n)
    /\ (forall u, new = Some u -> u = mkTrap (allocate h) (tgid_ t) true 0).
Proof.
  intros [Ha Hb] Hp. pose proof (publishes_clear k Hk m f 178 ltac:(done) Hp) as Hc. unfold do_clone_thread.
  destruct (negb (has_spawner h)); [by eexists _, _, _|]. destruct (stack req =? 0); [by eexists _, _, _|].
  destruct (allocate h <? 0); [by eexists _, _, _|]. set (m1 := if flag_set req child_settid then _ else _).
  assert (P1 : publishes R m1 (fun n => if n =? 178 then None else f n)) by (unfold m1; destruct (flag_set _ _); [by apply publishes_put_tid|done]).
  clearbody m1. set (m2 := if flag_set req parent_settid then _ else _).
  assert (P2 : publishes R m2 (fun n => if n =? 178 then None else f n)) by (unfold m2; destruct (flag_set _ _); [by apply publishes_put_tid|done]).
  destruct (negb (spawned h)); eexists _, _, _; (split; [done|]); (split; [done|]); [done|]. by intros u [= <-].
Qed.

Lemma event_proper (p : Z) (b cl : bool) (s s' : Proc) : event R cl s s' -> proper p b s -> proper p (b || cl) s'.
Proof.
  intros He (f & Hp & Ha & Hq). destruct He as [m ts a bs Hg|m ts i t Hi|m ts i t h req m' t' r new Hi Hc E|m t|m ts i]; cbn [ram traps] in *; rewrite ?orb_false_r, ?orb_true_r.
  - exists f. split; [by apply publishes_store|done].
  - unfold start. cbn [fst snd]. assert (Ht : t ∈ ts) by (by eapply list_elem_of_lookup_2). destruct (threaded_ t) eqn:Et.
    + exists (refreshed t f). split; [by apply refresh_publishes|]. rewrite list_insert_id by done.
      split; [by apply refreshed_threaded|]. eapply parented_refresh; [by apply Hq| |exact Hq]. auto.
    + assert (ts = [t]) as -> by (by apply (ag_alone _ _ Ha)). destruct i; [|done].
      set (t1 := mkTrap _ _ _ _). exists (refreshed t1 f). split; [by apply refresh_publishes|].
      split; [apply refreshed_single; [apply Ha|done]|]. eapply parented_refresh; [by apply (proj2 Hq t)| |exact Hq].
      intros u ->%list_elem_of_singleton. by right.
  - destruct (clone_spec m f t h req Hc Hp) as (m2 & r2 & new2 & E2 & Hp2 & Hn). rewrite E2 in E. injection E as <- <- <- <-.
    eexists. split; [exact Hp2|]. split; [apply cloned_agreed; [done|done|]; intros u Hu; by rewrite (Hn u Hu)|].
    eapply parented_clone; [done|done|]. intros u Hu. by rewrite (Hn u Hu).
  - exists (refreshed (mkTrap (tid t) (tid t) false (parent_ t)) f). split; [by apply refresh_publishes|].
    split; [apply refreshed_single; [apply Ha|done]|]. eapply parented_refresh; [apply (proj2 Hq t), list_elem_of_here| |exact Hq].
    intros u ->%list_elem_of_singleton. by right.
  - exists f. split; [done|]. destruct Ha as [H1 H2 H3 H4].
    assert (S : forall u, u ∈ delete i ts -> u ∈ ts) by (intros u; apply list_elem_of_delete_inv).
    split; [split; [done|by intros; eapply H2; [apply S|]|..|by intros; apply H4; apply S]|split; [apply Hq|intros u Hu; by apply Hq, S]].
    intros t Ht E. pose proof (H3 t (S t Ht) E) as ->. destruct i; [by apply elem_of_nil in Ht|done].
Qed.

Lemma reachable_proper (p : Z) (b : bool) (s : Proc) : reachable R p b s -> proper p b s.
Proof.
  induction 1 as [m|s self parent p b _ (f & Hp & Ha & Hq)|s s' p b cl _ IH He].
  - exists (fun _ => None). split; [by apply attach_publishes|]. split; [split; [done|done|..]|split; [done|]].
    + by intros t ->%list_elem_of_singleton.
    + by intros t u ->%list_elem_of_singleton ->%list_elem_of_singleton.
    + intros t ->%list_elem_of_singleton. by left.
  - exists (refreshed (mkTrap self self false parent) f). split; [by apply refresh_publishes|].
    split; [apply refreshed_single; [apply Ha|done]|]. split.
    + intros v. unfold refreshed. cbn. intros [= <-]. by left.
    + intros t ->%list_elem_of_singleton. by left.
  - by eapply event_proper.
Qed.

(** A thread's exception in such a process. *)
Lemma exception_of (m : Ram) (f : Z -> option Z) (c : Cpu) :
  publishes R m f -> 0 <= x c 8 < 512 -> esr c / 2 ^ 26 = ec_svc -> answered m R c = f (x c 8).
Proof.
  intros [_ Ht] H8 He. rewrite <- (Ht _ H8). unfold answered, table_entry. rewrite He. change (ec_svc =? ec_svc) with true.
  rewrite (proj2 (Z.ltb_lt _ _)) by (unfold kMaxNr; lia). cbn [andb]. by destruct (get64 _ _ =? 0).
Qed.

End life.

(** * Theorems *)

(** C22. The in-guest handler, run instruction by instruction from the words
    the backend writes: on a system call whose entry is live it returns to
    the guest with the entry's value in [x0]; on every other call, and on
    every other exception, it exits to the host.  Only [x0], [x16] and [x17]
    ever change; but [x16] is also lost on an exception that is no system
    call, such as a fault the guest handles and then resumes. *)
Theorem handler_answers_calls (mem_size size : Z) (m : Ram) (c : Cpu) :
  0 < mem_size < 2 ^ 63 -> init_size mem_size = inl size -> code_in m size ->
  0 <= esr c < 2 ^ 64 -> 0 <= x c 8 < 2 ^ 64 ->
  exists c', take_exception m c = Some (match answered m size c with Some _ => ToGuest c' | None => ToHost 8 c' end)
    /\ esr c' = esr c
    /\ (forall r, r <> 16 -> r <> 17 ->
          x c' r = match answered m size c with Some v => if r =? 0 then v else x c r | None => x c r end)
    /\ (esr c / 2 ^ 26 <> ec_svc -> x c' 16 = u64 (esr c / 2 ^ 26 - ec_svc)).
Proof.
  intros Hm Hi Hc He H8. destruct (init_sized _ _ Hm Hi) as (k & -> & Hk). by apply handler_run.
Qed.


(** Starting a second thread changes the answer of [getppid] for the
    whole process: the new thread's trap has no parent, and publishes 0
    whatever the process's parent is. *)
Theorem thread_start_loses_parent (mem_size size p : Z) (b : bool) (m m' : Ram) (t t' u : Trap) (h : ThreadHost) (req : CloneRequest) (r : Z) (c : Cpu) :
  0 < mem_size < 2 ^ 63 -> init_size mem_size = inl size -> reachable size p b (mkProc m [t]) ->
  clone_ok size req -> do_clone_thread m size t h req = (m', t', (r, Some u)) ->
  x c 8 = 173 -> esr c = ec_svc * 2 ^ 26 ->
  exists c', take_exception (start m' size u).1 c = Some (ToGuest c') /\ x c' 0 = 0 /\ parent_ t' = parent_ t.
Proof.
  intros Hm Hi Hs Hc E H8 He. destruct (init_sized _ _ Hm Hi) as (k & -> & Hk).
  destruct (reachable_proper k Hk _ _ _ Hs) as (f & Hp & _).
  destruct (clone_spec k Hk m f t h req Hc Hp) as (m2 & r2 & new & E2 & Hp2 & Hn). rewrite E2 in E. injection E as <- <- <- ->.
  pose proof (Hn u eq_refl) as ->. unfold start. cbn [threaded_ fst snd].
  pose proof (refresh_publishes k Hk m2 _ (mkTrap (allocate h) (tgid_ t) true 0) Hp2) as Hr.
  set (m3 := refresh_fastcalls _ _ _) in *.
  destruct (handler_run k Hk m3 (proj1 Hr) c) as (c' & E3 & _ & Hx & _); [rewrite He; done|rewrite H8; done|].
  rewrite (exception_of k m3 _ c Hr) in E3, Hx by (rewrite ?H8, ?He; done). rewrite H8 in E3, Hx. exists c'. split; [exact E3|].
  split; [|done]. by rewrite Hx.
Qed.

(** ** Instances: a machine of 64 MiB *)

Definition mib64 : Z := 2 ^ 26.
Definition svc (nr : Z) : Cpu := mkCpu (fun r => if r =? 8 then nr else r) true true 0 (ec_svc * 2 ^ 26).
Definition root : Proc := mkProc (attach ∅ mib64) [new_trap 1].
Definition child : Proc := mkProc (fork_identity (ram root) mib64 2 1).1 [(fork_identity (ram root) mib64 2 1).2].
Definition pthread : CloneRequest := mkClone 0x10100 0x1000000 0x1000000 0x1000000.
Definition willing : ThreadHost := {| has_spawner := true; allocate := 3; spawned := true |}.

#[local] Opaque attach take_exception refresh_fastcalls.

Lemma child_reachable : reachable mib64 1 false child.
Proof. exact (R_fork mib64 root 2 1 0 false (R_root mib64 ∅)). Qed.

Lemma pthread_ok : clone_ok mib64 pthread.
Proof.
  assert (E : priv_end mib64 = 0x200000) by reflexivity.
  assert (H : guest_bytes mib64 0x1000000 4).
  { intros z Hz. split; [lia|]. unfold el0. rewrite E, (proj2 (Z.ltb_ge z 0x200000)) by lia. done. }
  by split.
Qed.

Lemma child_publishes : publishes mib64 (ram child) (refreshed (mkTrap 2 2 false 1) (fun _ => None)).
Proof. exact (refresh_publishes 32 ltac:(lia) _ _ _ (attach_publishes 32 ltac:(lia) ∅)). Qed.

Lemma child_getpid : answered (ram child) mib64 (svc 172) = Some 2.
Proof. exact (exception_of 32 (ram child) _ (svc 172) child_publishes ltac:(done) eq_refl). Qed.

Lemma handler_answers_calls_witness :
  exists c', take_exception (ram child) (svc 172) = Some (ToGuest c') /\ x c' 0 = 2 /\ x c' 8 = 172.
Proof.
  destruct (handler_answers_calls (2 ^ 26) mib64 (ram child) (svc 172)) as (c' & E & _ & Hx & _).
  - done.
  - reflexivity.
  - exact (proj1 child_publishes).
  - done.
  - done.
  - rewrite child_getpid in E, Hx. exists c'. split; [exact E|]. split; [exact (Hx 0 ltac:(done) ltac:(done))|exact (Hx 8 ltac:(done) ltac:(done))].
Defined.


Lemma pthread_made (m : Ram) (t : Trap) :
  do_clone_thread m mib64 t willing pthread
  = (clear_fastcall m mib64 178, mkTrap (tid t) (tgid_ t) true (parent_ t), (3, Some (mkTrap 3 (tgid_ t) true 0))).
Proof. reflexivity. Qed.

Lemma thread_start_loses_parent_witness :
  exists m', exists c', take_exception (start m' mib64 (mkTrap 3 2 true 0)).1 (svc 173) = Some (ToGuest c') /\ x c' 0 = 0.
Proof.
  exists (clear_fastcall (ram child) mib64 178).
  destruct (thread_start_loses_parent (2 ^ 26) mib64 1 false (ram child) (clear_fastcall (ram child) mib64 178) (mkTrap 2 2 false 1) (mkTrap 2 2 true 1)
    (mkTrap 3 2 true 0) willing pthread 3 (svc 173)) as (c' & H1 & H2 & _).
  - done.
  - reflexivity.
  - exact child_reachable.
  - exact pthread_ok.
  - exact (pthread_made (ram child) (mkTrap 2 2 false 1)).
  - reflexivity.
  - reflexivity.
  - exists c'. exact (conj H1 H2).
Defined.

End HvfFast.
