(* ===== verification/StartStack.v ===== *)
(** The process startup stack that the two hypervisor backends build
    ([runtime/windows/load.hpp], [runtime/darwin/load.hpp]): argument and
    environment strings, then [argc], the pointer arrays and the auxiliary
    vector.  The specification is a reader of that layout such as a C
    library's start-up code, which finds what was put there. *)
From S2P Require Import Prelude Abi GuestMem PageTables HvfMem.

Module StartStack.

Import Abi.
Import PageTables(peek, load, store, get64, zeros, Machine, mem, with_mem, ram_bytes, ram, map_pages, kPageSize, kTableArenaSize).

Abbreviation Ram := (gmap Z Z).

(** Strings are their bytes. *)
Abbreviation bytes := (list Z).

(** A loaded program ([WhpImage], [HvfImage]). *)
Record Segment := mkSeg { begin : Z; end_ : Z; sflags : Z }.

Record Image := mkImage {
  entry : Z; phdr_addr : Z; phnum : Z; phent : Z; image_end : Z; load_bias : Z; segments : list Segment
}.

(** ** Pushing

    [win] is the window on guest RAM the backend writes through. *)

Definition Window : Type := Z -> Z -> option (Z * Z).

Definition align16 (a : Z) : Z := Z.land a (u64 (Z.lnot 15)).

(** A refused write is skipped, and the stack pointer moves all the same. *)
Definition push_bytes (win : Window) (m : Ram) (sp : Z) (bs : bytes) : Ram * Z :=
  let n := Z.of_nat (length bs) in
  let sp := align16 (u64 (sp - n)) in
  (match win sp n with Some _ => store m sp bs | None => m end, sp).

Definition push_str (win : Window) (m : Ram) (sp : Z) (s : bytes) : Ram * Z := push_bytes win m sp (s ++ [0]).

Fixpoint push_strs (win : Window) (m : Ram) (sp : Z) (ss : list bytes) : Ram * Z * list Z :=
  match ss with
  | [] => (m, sp, [])
  | s :: ss' =>
      let '(m, sp) := push_str win m sp s in
      let '(m, sp', as_) := push_strs win m sp ss' in
      (m, sp', sp :: as_)
  end.

(** [argc], the pointers, and the pairs of the auxiliary vector, padded to
    an even number of words. *)
Definition vector (argc : Z) (argp envp : list Z) (aux : list (Z * Z)) : list Z :=
  let v := argc :: argp ++ [0] ++ envp ++ [0] ++ concat (map (fun p => [p.1; p.2]) aux) in
  if Nat.odd (length v) then v ++ [0] else v.

Definition push_vector (win : Window) (m : Ram) (sp : Z) (v : list Z) : Result Z * Ram :=
  let n := 8 * Z.of_nat (length v) in
  let sp := align16 (u64 (sp - n)) in
  match win sp n with
  | None => (inr enomem, m)
  | Some _ => (inl sp, store m sp (concat (map (le_bytes 8) v)))
  end.

Definition exec_name (argv : list bytes) (execfn : bytes) : bytes :=
  match execfn with
  | [] => match argv with [] => [] | a :: _ => a end
  | _ => execfn
  end.

(** What both put below the strings, up to the random bytes. *)
Definition push_args (win : Window) (m : Ram) (sp : Z) (argv envp : list bytes) (execfn platform : bytes)
  : Ram * Z * (list Z * list Z * Z * Z) :=
  let '(m, sp, envp_addr) := push_strs win m sp envp in
  let '(m, sp, argp) := push_strs win m sp argv in
  let '(m, sp) := push_str win m sp (exec_name argv execfn) in
  let execfn_addr := sp in
  let '(m, sp) := push_str win m sp platform in
  (m, sp, (argp, envp_addr, execfn_addr, sp)).

(** ** Windows *)

Definition stack_guard : Z := 0x10000.
Definition stack_size : Z := Z.shiftl 8 20.
Definition pie_base (ram : Z) : Z := 0x400000.
Definition usable_top (ram : Z) : Z := if kTableArenaSize <? ram then ram - kTableArenaSize else 0.
Definition stack_top (ram : Z) : Z := u64 (usable_top ram - stack_guard).
Definition page_mask : Z := u64 (Z.lnot (kPageSize - 1)).
Definition interp_base (ram : Z) : Z := Z.land (u64 (u64 (stack_top ram - stack_size) - Z.shiftl 16 20)) page_mask.
Definition mmap_top (ram : Z) : Z := Z.land (u64 (stack_top ram - stack_size - Z.shiftl 1 20)) page_mask.
Definition min_ram : Z := Z.shiftl 64 20.

(** "x86_64" and "aarch64". *)
Definition x86_64_name : bytes := [120; 56; 54; 95; 54; 52].
Definition aarch64_name : bytes := [97; 97; 114; 99; 104; 54; 52].

Definition whp_aux (img : Image) (at_base platform rnd execfn : Z) : list (Z * Z) :=
  [ (3, phdr_addr img); (4, phent img); (5, phnum img); (6, kPageSize); (7, at_base); (8, 0); (9, entry img);
    (11, 0); (12, 0); (13, 0); (14, 0); (15, platform); (16, 0); (17, 100); (23, 0); (25, rnd); (31, execfn); (0, 0) ].

(** [random] is what the host's generator filled the 16 bytes with. *)
Definition whp_build_stack (v : Machine) (img : Image) (argv envp : list bytes) (at_base : Z) (execfn : bytes)
    (random : option bytes) : Result Z * Machine :=
  if ram_bytes v <=? stack_guard + stack_size + kTableArenaSize then (inr enomem, v)
  else
    let top := stack_top (ram_bytes v) in
    match map_pages (u64 (top - stack_size)) stack_size true false v with
    | (inr _, v) => (inr enomem, v)
    | (inl _, v) =>
        let win := PageTables.at_ (ram v) in
        let '(m, sp, (argp, envp_addr, execfn_addr, platform_addr)) :=
          push_args win (mem v) top argv envp execfn x86_64_name in
        match random with
        | None => (inr eio, with_mem v m)
        | Some rnd =>
            let '(m, sp) := push_bytes win m sp rnd in
            let w := vector (Z.of_nat (length argv)) argp envp_addr (whp_aux img at_base platform_addr sp execfn_addr) in
            let '(r, m) := push_vector win m sp w in
            (r, with_mem v m)
        end
    end.

(** ** macOS *)

Definition hvf_hwcap : Z := 0x1fb.

Definition hvf_aux (img : Image) (at_base platform rnd execfn sysinfo_ehdr : Z) : list (Z * Z) :=
  [ (3, phdr_addr img); (4, phent img); (5, phnum img); (6, 0x1000); (7, at_base); (8, 0); (9, entry img);
    (11, 0); (12, 0); (13, 0); (14, 0); (15, platform); (16, hvf_hwcap); (17, 100); (23, 0); (25, rnd); (31, execfn) ]
  ++ (if sysinfo_ehdr =? 0 then [] else [(33, sysinfo_ehdr)]) ++ [(0, 0)].

Definition hvf_build_stack (m : Ram) (size : Z) (img : Image) (argv envp : list bytes) (at_base : Z) (execfn : bytes)
    (sysinfo_ehdr : Z) (rnd : bytes) : Result Z * Ram :=
  let win := HvfMem.at_ (HvfMem.ram_of size) in
  let '(m, sp, (argp, envp_addr, execfn_addr, platform_addr)) :=
    push_args win m (u64 (size - HvfMem.stack_guard)) argv envp execfn aarch64_name in
  let '(m, sp) := push_bytes win m sp rnd in
  let w := vector (Z.of_nat (length argv)) argp envp_addr (hvf_aux img at_base platform_addr sp execfn_addr sysinfo_ehdr) in
  push_vector win m sp w.

(** ** Specification: reading the stack *)

Fixpoint words_at (fuel : nat) (m : Ram) (a : Z) : option (list Z * Z) :=
  match fuel with
  | O => None
  | S fuel' =>
      if get64 m a =? 0 then Some ([], a + 8)
      else '(ws, e) ← words_at fuel' m (a + 8); Some (get64 m a :: ws, e)
  end.

Fixpoint pairs_at (fuel : nat) (m : Ram) (a : Z) : option (list (Z * Z)) :=
  match fuel with
  | O => None
  | S fuel' =>
      if get64 m a =? 0 then Some []
      else ps ← pairs_at fuel' m (a + 16); Some ((get64 m a, get64 m (a + 8)) :: ps)
  end.

Fixpoint cstring (fuel : nat) (m : Ram) (a : Z) : option bytes :=
  match fuel with
  | O => None
  | S fuel' => if peek m a =? 0 then Some [] else s ← cstring fuel' m (a + 1); Some (peek m a :: s)
  end.

Record Startup := { s_argc : Z; s_argv : list bytes; s_envp : list bytes; s_aux : list (Z * Z) }.

Definition read_startup (fuel : nat) (m : Ram) (sp : Z) : option Startup :=
  '(argp, a) ← words_at fuel m (sp + 8);
  '(envp, b) ← words_at fuel m a;
  aux ← pairs_at fuel m b;
  argv ← mapM (cstring fuel m) argp;
  env ← mapM (cstring fuel m) envp;
  Some {| s_argc := get64 m sp; s_argv := argv; s_envp := env; s_aux := aux |}.

(** Bytes of the stack a list of strings may take. *)
Definition cost (ss : list bytes) : Z := foldr (fun s c => Z.of_nat (length s) + 16 + c) 0 ss.

(** A string the guest can see whole. *)
Definition c_string (s : bytes) : Prop := Forall (fun b => 0 < b < 256) s.

(** * Lemmas *)

Lemma vector_word (m : Ram) (sp : Z) (v : list Z) (i : nat) (w : Z) :
  v !! i = Some w -> 0 <= w < 2 ^ 64 -> get64 (store m sp (concat (map (le_bytes 8) v))) (sp + 8 * Z.of_nat i) = w.
Proof.
  intros Hi Hw. unfold get64. replace (8 * Z.of_nat i) with (Z.of_nat (8 * i)) by lia.
  rewrite (PageTables.load_words m sp 8 v i w Hi). by apply le_val_bytes.
Qed.

#[local] Opaque get64 store zeros.

(** ** Reading words *)

Definition reads (m : Ram) (a : Z) (ws : list Z) : Prop := forall i w, ws !! i = Some w -> get64 m (a + 8 * Z.of_nat i) = w.

Lemma reads_cons (m : Ram) (a w : Z) (ws : list Z) : reads m a (w :: ws) -> get64 m a = w /\ reads m (a + 8) ws.
Proof.
  intros H. split; [rewrite <- (H 0%nat w eq_refl); f_equal; lia|]. intros i u Hi. rewrite <- (H (S i) u Hi). f_equal. lia.
Qed.

Lemma reads_app (m : Ram) (a : Z) (us ws : list Z) : reads m a (us ++ ws) -> reads m a us /\ reads m (a + 8 * Z.of_nat (length us)) ws.
Proof.
  intros H. split.
  - intros i w Hi. apply H. by apply lookup_app_l_Some.
  - intros i w Hi. rewrite <- (H (length us + i)%nat w); [f_equal; lia|]. rewrite lookup_app_r by lia. rewrite <- Hi. f_equal. lia.
Qed.

Lemma words_at_reads (m : Ram) (ws : list Z) : forall fuel a,
  reads m a (ws ++ [0]) -> Forall (fun w => w <> 0) ws -> (length ws < fuel)%nat ->
  words_at fuel m a = Some (ws, a + 8 * Z.of_nat (length ws) + 8).
Proof.
  induction ws as [|w ws IH]; intros fuel a Hr Hn Hf; (destruct fuel as [|fuel]; [cbn in Hf; lia|]); cbn [app words_at] in *;
    apply reads_cons in Hr as [-> Hr].
  - cbn. do 2 f_equal. lia.
  - inversion Hn as [|? ? Hw Hn']; subst. rewrite (proj2 (Z.eqb_neq w 0)) by done. rewrite IH by (done || cbn in Hf; lia). cbn. do 2 f_equal. lia.
Qed.

Definition flat (aux : list (Z * Z)) : list Z := concat (map (fun p => [p.1; p.2]) aux).

Lemma pairs_at_reads (m : Ram) (ps : list (Z * Z)) : forall fuel a,
  reads m a (flat ps ++ [0]) -> Forall (fun p => p.1 <> 0) ps -> (length ps < fuel)%nat -> pairs_at fuel m a = Some ps.
Proof.
  induction ps as [|[t v] ps IH]; intros fuel a Hr Hn Hf; (destruct fuel as [|fuel]; [cbn in Hf; lia|]); cbn [flat map concat app pairs_at fst snd] in *;
    apply reads_cons in Hr as [-> Hr]; [done|]. apply reads_cons in Hr as [-> Hr].
  inversion Hn as [|? ? Hw Hn']; subst. cbn in Hw. rewrite (proj2 (Z.eqb_neq t 0)) by done.
  rewrite IH; [done| |done|cbn in Hf; lia]. by replace (a + 16) with (a + 8 + 8) by lia.
Qed.

Definition word_ok (w : Z) : Prop := 0 <= w < 2 ^ 64.

(** The whole vector. *)
Lemma vector_reads (m : Ram) (sp argc : Z) (argp envp : list Z) (ps : list (Z * Z)) :
  word_ok argc -> Forall word_ok argp -> Forall word_ok envp -> Forall (fun p => word_ok p.1 /\ word_ok p.2) ps ->
  exists rest, reads (store m sp (concat (map (le_bytes 8) (vector argc argp envp (ps ++ [(0, 0)]))))) sp
    (argc :: (argp ++ [0]) ++ (envp ++ [0]) ++ (flat ps ++ [0]) ++ rest).
Proof.
  intros H1 H2 H3 H4. set (v := vector _ _ _ _). assert (Hw : Forall word_ok v).
  { assert (Hf : Forall word_ok (flat (ps ++ [(0, 0)]))).
    { unfold flat. rewrite map_app, concat_app. apply Forall_app. split; [|cbn [map concat app fst snd]; by rewrite !Forall_cons].
      clear -H4. induction H4 as [|p ps [] _ IH]; [constructor|]. cbn [map concat app]. by rewrite !Forall_cons. }
    assert (Hz : Forall word_ok [0]) by by rewrite Forall_cons.
    assert (Hb : Forall word_ok (argc :: argp ++ [0] ++ envp ++ [0] ++ flat (ps ++ [(0, 0)]))).
    { apply Forall_cons. split; [done|]. repeat (apply Forall_app_2; [done|]). done. }
    unfold v, vector. fold (flat (ps ++ [(0, 0)])). destruct (Nat.odd _); [by apply Forall_app_2|done]. }
  assert (E : exists rest, v = argc :: (argp ++ [0]) ++ (envp ++ [0]) ++ (flat ps ++ [0]) ++ rest).
  { unfold v, vector. fold (flat (ps ++ [(0, 0)])). assert (Ef : flat (ps ++ [(0, 0)]) = flat ps ++ [0; 0]) by (unfold flat; by rewrite map_app, concat_app).
    rewrite Ef. destruct (Nat.odd _); [exists [0; 0]|exists [0]]; by repeat (cbn [app]; rewrite <- ?app_assoc). }
  destruct E as [rest E]. exists rest. rewrite <- E. intros i w Hi. apply vector_word; [done|]. rewrite Forall_lookup in Hw. by apply (Hw i).
Qed.

(** ** Pushing *)

Lemma align16_eq (a : Z) : 0 <= a < 2 ^ 64 -> align16 a = a / 16 * 16.
Proof. intros Ha. exact (land_align a 4 Ha ltac:(lia)). Qed.

Section pushes.
Context (win : Window) (lo top : Z).
Context (Hlo : 0 < lo) (Htop : top < 2 ^ 63).
Context (Hwin : forall a n, lo <= a -> 0 < n -> a + n <= top -> is_Some (win a n)).

(** Memory keeps everything outside [[a, b)]. *)
Definition only (m m' : Ram) (a b : Z) : Prop := forall x, ~ (a <= x < b) -> peek m' x = peek m x.

Lemma pushed_bytes_spec (m : Ram) (sp : Z) (bs : bytes) :
  bs <> [] -> lo + Z.of_nat (length bs) + 15 <= sp <= top ->
  exists m' sp', push_bytes win m sp bs = (m', sp')
    /\ sp - Z.of_nat (length bs) - 15 <= sp' <= sp - Z.of_nat (length bs) /\ sp' mod 16 = 0
    /\ load m' sp' (length bs) = bs /\ only m m' sp' sp.
Proof.
  intros Hb Hs. assert (Hl : (0 < length bs)%nat) by (destruct bs; [done|cbn; lia]). unfold push_bytes.
  rewrite u64_small by lia. set (n := Z.of_nat (length bs)) in *. rewrite align16_eq by lia. set (sp' := (sp - n) / 16 * 16).
  assert (H' : sp - n - 15 <= sp' <= sp - n) by (unfold sp'; Z.div_mod_to_equations; lia).
  destruct (Hwin sp' n) as [w ->]; [lia|lia|lia|]. eexists _, _. split; [done|]. split; [done|].
  split; [by apply Z.mod_mul|]. split; [apply PageTables.load_store|].
  intros x Hx. rewrite PageTables.peek_store, decide_False; [done|]. fold n. lia.
Qed.

(** Bytes that lie between [sp] and the top. *)
Definition held (m : Ram) (sp a : Z) (bs : bytes) : Prop := sp <= a < top /\ load m a (length bs) = bs.

Lemma held_only (m m' : Ram) (sp sp' a : Z) (bs : bytes) :
  held m sp a bs -> only m m' sp' sp -> sp' <= sp -> held m' sp' a bs.
Proof.
  intros [H1 H2] Ho Hle. split; [lia|]. transitivity (load m a (length bs)); [|done].
  apply PageTables.load_ext. intros x Hx. apply Ho. lia.
Qed.

Lemma only_trans (m1 m2 m3 : Ram) (a b c : Z) : a <= b <= c -> only m1 m2 b c -> only m2 m3 a b -> only m1 m3 a c.
Proof. intros H H1 H2 x Hx. rewrite H2, H1; [done|lia|lia]. Qed.

Lemma cost_nonneg (ss : list bytes) : 0 <= cost ss.
Proof. unfold cost. induction ss; cbn [foldr]; lia. Qed.

Lemma push_strs_spec (ss : list bytes) : forall m sp,
  lo + cost ss <= sp <= top ->
  exists m' sp' as_, push_strs win m sp ss = (m', sp', as_)
    /\ sp - cost ss <= sp' <= sp /\ Forall2 (fun a s => held m' sp' a (s ++ [0])) as_ ss /\ only m m' sp' sp.
Proof.
  induction ss as [|s ss IH]; intros m sp Hs; cbn [push_strs cost foldr] in *.
  { eexists _, _, _. split; [done|]. split; [lia|]. split; [constructor|]. by intros x. }
  fold (cost ss) in *. pose proof (cost_nonneg ss).
  destruct (pushed_bytes_spec m sp (s ++ [0])) as (m1 & sp1 & E & H1 & _ & H3 & H4); [by destruct s|rewrite length_app; cbn; lia|].
  unfold push_str. rewrite E. rewrite length_app in H1. cbn in H1.
  destruct (IH m1 sp1) as (m2 & sp2 & as_ & -> & G1 & G2 & G3); [lia|].
  eexists _, _, _. split; [done|]. split; [lia|]. split; [|by eapply only_trans; [|done|]; [lia|]].
  constructor; [|done]. eapply held_only; [|done|lia]. split; [lia|done].
Qed.

(** A string that is held is read back. *)
Lemma held_read (m : Ram) (sp a : Z) (s : bytes) (fuel : nat) :
  held m sp a (s ++ [0]) -> c_string s -> (length s < fuel)%nat -> cstring fuel m a = Some s.
Proof.
  intros [_ Hl] Hc. revert a fuel Hl. induction Hc as [|b s Hb Hc IH]; intros a fuel Hl Hf; (destruct fuel as [|fuel]; [cbn in Hf; lia|]); cbn [cstring].
  - assert (E : load m a 1 !! 0%nat = Some 0) by (cbn in Hl; by rewrite Hl).
    rewrite PageTables.load_lookup in E by lia. rewrite Z.add_0_r in E. injection E as ->. done.
  - assert (E : load m a (S (length (s ++ [0]))) !! 0%nat = Some b) by (cbn in Hl; by rewrite Hl).
    rewrite PageTables.load_lookup in E by lia. rewrite Z.add_0_r in E. injection E as E. rewrite E, (proj2 (Z.eqb_neq b 0)) by lia.
    rewrite (IH (a + 1) fuel); [done| |cbn in Hf; lia]. apply list_eq. intros i.
    assert (Ei : load m a (S (length (s ++ [0]))) !! S i = (s ++ [0]) !! i) by (cbn in Hl; by rewrite Hl).
    set (t := s ++ [0]) in *. destruct (decide (i < length t)%nat).
    + rewrite <- Ei, !PageTables.load_lookup by lia. do 2 f_equal. lia.
    + rewrite !lookup_ge_None_2; [done|lia|rewrite PageTables.load_length; lia].
Qed.

Lemma held_reads (m : Ram) (sp : Z) (as_ : list Z) (ss : list bytes) (fuel : nat) :
  Forall2 (fun a s => held m sp a (s ++ [0])) as_ ss -> Forall c_string ss -> cost ss <= Z.of_nat fuel ->
  mapM (cstring fuel m) as_ = Some ss.
Proof.
  induction 1 as [|a s as_ ss H _ IH]; intros Hc Hf; [done|]. inversion Hc as [|? ? Hc1 Hc2]; subst. cbn [cost foldr] in Hf. fold (cost ss) in Hf.
  pose proof (cost_nonneg ss). cbn [mapM]. rewrite (held_read m sp a s) by (done || lia). cbn. by rewrite IH by (done || lia).
Qed.

(** What is left to write once the backend knows the random bytes. *)
Definition finish (m : Ram) (argv envp : list bytes) (execfn platform rnd : bytes) (aux : Z -> Z -> Z -> list (Z * Z))
  : Result Z * Ram :=
  let '(m, sp, (argp, envp_addr, execfn_addr, platform_addr)) := push_args win m top argv envp execfn platform in
  let '(m, sp) := push_bytes win m sp rnd in
  push_vector win m sp (vector (Z.of_nat (length argv)) argp envp_addr (aux platform_addr sp execfn_addr)).

(** Room for everything. *)
Definition room_for (argv envp : list bytes) (execfn platform rnd : bytes) (pairs : nat) : Z :=
  cost envp + cost argv + cost [exec_name argv execfn; platform; rnd]
  + 8 * (Z.of_nat (length argv + length envp + 2 * pairs) + 4) + 15.

Lemma vector_length (argc : Z) (argp envp : list Z) (aux : list (Z * Z)) :
  (3 <= length (vector argc argp envp aux) <= length argp + length envp + 2 * length aux + 4)%nat.
Proof.
  assert (E : length (concat (map (fun p : Z * Z => [p.1; p.2]) aux)) = (2 * length aux)%nat) by (induction aux; cbn; lia).
  unfold vector. destruct (Nat.odd _); rewrite ?length_app; cbn [length]; rewrite ?length_app; cbn [length]; rewrite ?length_app; cbn [length]; lia.
Qed.

Lemma held_words (m : Ram) (sp : Z) (as_ : list Z) (ss : list bytes) :
  lo <= sp -> Forall2 (fun a s => held m sp a (s ++ [0])) as_ ss ->
  Forall word_ok as_ /\ Forall (fun w => w <> 0) as_.
Proof.
  intros Hs. induction 1 as [|a s as_ ss [Ha _] _ [I1 I2]]; [done|]. rewrite !Forall_cons. unfold word_ok at 1. split; (split; [lia|done]).
Qed.

Lemma push_vector_spec (m : Ram) (sp : Z) (v : list Z) :
  v <> [] -> lo + 8 * Z.of_nat (length v) + 15 <= sp <= top ->
  exists sp', push_vector win m sp v = (inl sp', store m sp' (concat (map (le_bytes 8) v)))
    /\ lo <= sp' <= sp /\ sp' mod 16 = 0 /\ only m (store m sp' (concat (map (le_bytes 8) v))) sp' sp.
Proof.
  intros Hv Hs. assert (Hl : (0 < length v)%nat) by (destruct v; [done|cbn; lia]). unfold push_vector.
  rewrite u64_small by lia. set (n := 8 * Z.of_nat (length v)) in *. rewrite align16_eq by lia. set (sp' := (sp - n) / 16 * 16).
  assert (H' : sp - n - 15 <= sp' <= sp - n) by (unfold sp'; Z.div_mod_to_equations; lia).
  destruct (Hwin sp' n) as [w ->]; [lia|lia|lia|]. exists sp'. split; [done|]. split; [lia|]. split; [by apply Z.mod_mul|].
  intros x Hx. rewrite PageTables.peek_store, PageTables.words_length, decide_False; [done|]. lia.
Qed.

Lemma held_all_only (m m' : Ram) (sp sp' : Z) (as_ : list Z) (ss : list bytes) :
  Forall2 (fun a s => held m sp a (s ++ [0])) as_ ss -> only m m' sp' sp -> sp' <= sp ->
  Forall2 (fun a s => held m' sp' a (s ++ [0])) as_ ss.
Proof. intros H Ho Hle. eapply Forall2_impl; [exact H|]. intros a s Ha. cbn beta in *. exact (held_only m m' sp sp' a _ Ha Ho Hle). Qed.

(** What the strings come to, before the vector. *)
Lemma push_args_spec (m : Ram) (argv envp : list bytes) (execfn platform : bytes) :
  lo + cost envp + cost argv + cost [exec_name argv execfn; platform] <= top ->
  exists m' sp argp envpp ea pa, push_args win m top argv envp execfn platform = (m', sp, (argp, envpp, ea, pa))
    /\ top - (cost envp + cost argv + cost [exec_name argv execfn; platform]) <= sp <= top
    /\ Forall2 (fun a s => held m' sp a (s ++ [0])) argp argv /\ Forall2 (fun a s => held m' sp a (s ++ [0])) envpp envp
    /\ held m' sp ea (exec_name argv execfn ++ [0]) /\ held m' sp pa (platform ++ [0]) /\ only m m' sp top.
Proof.
  intros Hr. unfold cost in Hr at 3. cbn [foldr] in Hr. unfold cost at 3. cbn [foldr]. set (ex := exec_name argv execfn) in *.
  pose proof (cost_nonneg envp). pose proof (cost_nonneg argv). unfold push_args. fold ex.
  destruct (push_strs_spec envp m top) as (m1 & sp1 & envpp & -> & A1 & A2 & A3); [lia|].
  destruct (push_strs_spec argv m1 sp1) as (m2 & sp2 & argp & -> & B1 & B2 & B3); [lia|].
  destruct (pushed_bytes_spec m2 sp2 (ex ++ [0])) as (m3 & sp3 & E3 & C1 & _ & C3 & C4); [by destruct ex|rewrite length_app; cbn; lia|].
  unfold push_str. rewrite E3. rewrite length_app in C1. cbn in C1.
  destruct (pushed_bytes_spec m3 sp3 (platform ++ [0])) as (m4 & sp4 & E4 & D1 & _ & D3 & D4); [by destruct platform|rewrite length_app; cbn; lia|].
  rewrite E4. rewrite length_app in D1. cbn in D1.
  pose proof (only_trans m2 m3 m4 sp4 sp3 sp2 ltac:(lia) C4 D4) as O24.
  pose proof (only_trans m1 m2 m4 sp4 sp2 sp1 ltac:(lia) B3 O24) as O14.
  assert (H3 : held m3 sp3 sp3 (ex ++ [0])) by (split; [lia|done]).
  exists m4, sp4, argp, envpp, sp3, sp4. split; [done|]. split; [lia|]. split; [eapply held_all_only; [done|done|lia]|].
  split; [eapply held_all_only; [done|done|lia]|]. split; [exact (held_only m3 m4 sp3 sp4 sp3 _ H3 D4 ltac:(lia))|].
  split; [split; [lia|done]|]. exact (only_trans m m1 m4 sp4 sp1 top ltac:(lia) A3 O14).
Qed.

Lemma finish_spec (m : Ram) (argv envp : list bytes) (execfn platform rnd : bytes) (ps : Z -> Z -> Z -> list (Z * Z)) (pairs fuel : nat) :
  Forall c_string argv -> Forall c_string envp -> c_string (exec_name argv execfn) -> c_string platform -> rnd <> [] ->
  (forall p r e, word_ok p -> word_ok r -> word_ok e ->
     Forall (fun q => word_ok q.1 /\ word_ok q.2 /\ q.1 <> 0) (ps p r e) /\ (S (length (ps p r e)) <= pairs)%nat) ->
  lo + room_for argv envp execfn platform rnd pairs <= top ->
  room_for argv envp execfn platform rnd pairs <= Z.of_nat fuel ->
  exists m' sp pa ra ea, finish m argv envp execfn platform rnd (fun p r e => ps p r e ++ [(0, 0)]) = (inl sp, m')
    /\ sp mod 16 = 0 /\ lo <= sp /\ only m m' sp top
    /\ read_startup fuel m' sp
       = Some {| s_argc := Z.of_nat (length argv); s_argv := argv; s_envp := envp; s_aux := ps pa ra ea |}
    /\ cstring fuel m' pa = Some platform /\ cstring fuel m' ea = Some (exec_name argv execfn)
    /\ load m' ra (length rnd) = rnd.
Proof.
  intros Ha He Hx Hp Hrnd Hps Hr Hf. unfold room_for in *. unfold cost in Hr at 3. unfold cost in Hf at 3. cbn [foldr] in Hr, Hf.
  pose proof (cost_nonneg envp). pose proof (cost_nonneg argv).
  destruct (push_args_spec m argv envp execfn platform) as (m1 & sp1 & argp & envpp & ea & pa & E1 & A1 & A2 & A3 & A4 & A5 & A6);
    [unfold cost at 3; cbn [foldr]; lia|]. unfold cost in A1 at 3. cbn [foldr] in A1.
  destruct (pushed_bytes_spec m1 sp1 rnd) as (m2 & ra & E2 & B1 & _ & B3 & B4); [done|lia|].
  unfold finish. rewrite E1, E2.
  assert (Wr : forall a (bs : bytes), held m1 sp1 a bs -> word_ok a) by (intros a bs [? _]; unfold word_ok; lia).
  destruct (Hps pa ra ea) as [P1 P2]; [by eapply Wr|unfold word_ok; lia|by eapply Wr|].
  set (v := vector _ _ _ _). pose proof (vector_length (Z.of_nat (length argv)) argp envpp (ps pa ra ea ++ [(0, 0)])) as Hv. fold v in Hv.
  rewrite length_app in Hv. cbn [length] in Hv. pose proof (Forall2_length _ _ _ A2). pose proof (Forall2_length _ _ _ A3).
  destruct (push_vector_spec m2 ra v) as (sp & E3 & C1 & C2 & C3); [intros E; rewrite E in Hv; cbn in Hv; lia|lia|].
  rewrite E3. set (m3 := store m2 sp _) in *.
  pose proof (only_trans m1 m2 m3 sp ra sp1 ltac:(lia) B4 C3) as O13.
  exists m3, sp, pa, ra, ea. split; [done|]. split; [done|]. split; [lia|]. split; [exact (only_trans m m1 m3 sp sp1 top ltac:(lia) A6 O13)|].
  apply (held_all_only _ m3 _ sp) in A2; [|done|lia]. apply (held_all_only _ m3 _ sp) in A3; [|done|lia].
  apply (held_only _ m3 _ sp) in A4; [|done|lia]. apply (held_only _ m3 _ sp) in A5; [|done|lia].
  assert (Hl : (0 < length rnd)%nat) by (destruct rnd; [done|cbn; lia]).
  assert (A7 : held m3 sp ra rnd) by (apply (held_only m2 m3 ra sp ra rnd); [split; [lia|done]|done|lia]).
  split; [|split; [eapply held_read; [done|done|lia]|split; [eapply held_read; [done|done|lia]|apply A7]]].
  destruct (held_words m3 sp argp argv) as [W1 N1]; [lia|done|]. destruct (held_words m3 sp envpp envp) as [W2 N2]; [lia|done|].
  destruct (vector_reads m2 sp (Z.of_nat (length argv)) argp envpp (ps pa ra ea)) as [rest Hrd];
    [unfold word_ok; lia|done|done|eapply Forall_impl; [exact P1|]; intros q; cbn; tauto|].
  fold v in Hrd. fold m3 in Hrd. apply reads_cons in Hrd as [R0 Hrd]. apply reads_app in Hrd as [R1 Hrd]. apply reads_app in Hrd as [R2 Hrd].
  apply reads_app in Hrd as [R3 _]. unfold read_startup. rewrite length_app in R2, R3. cbn [length] in R2, R3.
  rewrite (words_at_reads m3 argp) by (done || lia). cbn.
  replace (sp + 8 + 8 * Z.of_nat (length argp) + 8) with (sp + 8 + 8 * Z.of_nat (length argp + 1)) by lia.
  rewrite (words_at_reads m3 envpp) by (done || lia). cbn. rewrite length_app in R3. cbn [length] in R3.
  rewrite (pairs_at_reads m3 (ps pa ra ea)); [|by replace (_ + 8) with (sp + 8 + 8 * Z.of_nat (length argp + 1) + 8 * Z.of_nat (length envpp + 1)) by lia
    |eapply Forall_impl; [exact P1|]; intros q; cbn; tauto|lia]. cbn.
  rewrite (held_reads m3 sp argp argv) by (done || lia). cbn. rewrite (held_reads m3 sp envpp envp) by (done || lia). cbn. by rewrite R0.
Qed.

End pushes.

(** ** Bytes stay bytes *)

Lemma push_bytes_ok (win : Window) (m : Ram) (sp : Z) (bs : bytes) :
  PageTables.bytes_ok m -> Forall is_byte bs -> PageTables.bytes_ok (push_bytes win m sp bs).1.
Proof. intros Hm Hb. unfold push_bytes. destruct (win _ _); [by apply PageTables.store_bytes_ok|done]. Qed.

Lemma c_string_bytes (s : bytes) : c_string s -> Forall is_byte (s ++ [0]).
Proof.
  intros Hc. apply Forall_app_2; [|by rewrite Forall_singleton]. eapply Forall_impl; [exact Hc|]. unfold is_byte. cbn. lia.
Qed.

Lemma push_strs_ok (win : Window) (ss : list bytes) : forall m sp,
  PageTables.bytes_ok m -> Forall c_string ss -> PageTables.bytes_ok (push_strs win m sp ss).1.1.
Proof.
  induction ss as [|s ss IH]; intros m sp Hm Hs; [done|]. inversion Hs as [|? ? H1 H2]; subst. cbn [push_strs].
  pose proof (push_bytes_ok win m sp _ Hm (c_string_bytes s H1)) as Hm1. unfold push_str. destruct (push_bytes win m sp (s ++ [0])) as [m1 sp1].
  pose proof (IH m1 sp1 Hm1 H2) as Hm2. by destruct (push_strs win m1 sp1 ss) as [[m2 sp2] as_].
Qed.

Lemma finish_ok (win : Window) (top : Z) (m : Ram) (argv envp : list bytes) (execfn platform rnd : bytes) (aux : Z -> Z -> Z -> list (Z * Z)) :
  PageTables.bytes_ok m -> Forall c_string argv -> Forall c_string envp -> c_string (exec_name argv execfn) -> c_string platform ->
  Forall is_byte rnd -> PageTables.bytes_ok (finish win top m argv envp execfn platform rnd aux).2.
Proof.
  intros Hm Ha He Hx Hp Hr. unfold finish, push_args. pose proof (push_strs_ok win envp m top Hm He) as H1.
  destruct (push_strs win m top envp) as [[m1 sp1] ea]. pose proof (push_strs_ok win argv m1 sp1 H1 Ha) as H2.
  destruct (push_strs win m1 sp1 argv) as [[m2 sp2] aa]. pose proof (push_bytes_ok win m2 sp2 _ H2 (c_string_bytes _ Hx)) as H3.
  unfold push_str. destruct (push_bytes win m2 sp2 _) as [m3 sp3]. pose proof (push_bytes_ok win m3 sp3 _ H3 (c_string_bytes _ Hp)) as H4.
  destruct (push_bytes win m3 sp3 _) as [m4 sp4]. pose proof (push_bytes_ok win m4 sp4 _ H4 Hr) as H5.
  destruct (push_bytes win m4 sp4 rnd) as [m5 sp5]. unfold push_vector. destruct (win _ _); [|done]. apply PageTables.store_bytes_ok; [done|].
  apply Forall_concat, Forall_map, Forall_true. intros w. apply le_bytes_byte.
Qed.

(** ** The auxiliary vectors *)

Definition image_words (img : Image) : Prop :=
  word_ok (entry img) /\ word_ok (phdr_addr img) /\ word_ok (phnum img) /\ word_ok (phent img).

Definition pair_ok (q : Z * Z) : Prop := word_ok q.1 /\ word_ok q.2 /\ q.1 <> 0.

(** The entries of the auxiliary vector a start-up code reads, by the numbers
    of the System V ABI and Linux: where and how many the program headers
    are, the page size, the base of the interpreter, the entry point, the
    identities (all root), the platform's name, the clock, no secure mode, the
    random bytes and the program's name. *)
Definition AT_PHDR : Z := 3.
Definition AT_PHENT : Z := 4.
Definition AT_PHNUM : Z := 5.
Definition AT_PAGESZ : Z := 6.
Definition AT_BASE : Z := 7.
Definition AT_FLAGS : Z := 8.
Definition AT_ENTRY : Z := 9.
Definition AT_UID : Z := 11.
Definition AT_EUID : Z := 12.
Definition AT_GID : Z := 13.
Definition AT_EGID : Z := 14.
Definition AT_PLATFORM : Z := 15.
Definition AT_HWCAP : Z := 16.
Definition AT_CLKTCK : Z := 17.
Definition AT_SECURE : Z := 23.
Definition AT_RANDOM : Z := 25.
Definition AT_EXECFN : Z := 31.
Definition AT_SYSINFO_EHDR : Z := 33.

Definition aux_entries (img : Image) (at_base hwcap p r e : Z) : list (Z * Z) :=
  [ (AT_PHDR, phdr_addr img); (AT_PHENT, phent img); (AT_PHNUM, phnum img); (AT_PAGESZ, 4096); (AT_BASE, at_base);
    (AT_FLAGS, 0); (AT_ENTRY, entry img); (AT_UID, 0); (AT_EUID, 0); (AT_GID, 0); (AT_EGID, 0); (AT_PLATFORM, p);
    (AT_HWCAP, hwcap); (AT_CLKTCK, 100); (AT_SECURE, 0); (AT_RANDOM, r); (AT_EXECFN, e) ].

Definition whp_pairs (img : Image) (at_base p r e : Z) : list (Z * Z) := aux_entries img at_base 0 p r e.
Definition hvf_pairs (img : Image) (at_base sysinfo p r e : Z) : list (Z * Z) :=
  aux_entries img at_base hvf_hwcap p r e ++ (if sysinfo =? 0 then [] else [(AT_SYSINFO_EHDR, sysinfo)]).

Lemma whp_pairs_eq (img : Image) (at_base p r e : Z) : whp_aux img at_base p r e = whp_pairs img at_base p r e ++ [(0, 0)].
Proof. reflexivity. Qed.

Lemma hvf_pairs_eq (img : Image) (at_base sysinfo p r e : Z) :
  hvf_aux img at_base p r e sysinfo = hvf_pairs img at_base sysinfo p r e ++ [(0, 0)].
Proof. unfold hvf_pairs, hvf_aux. by destruct (sysinfo =? 0). Qed.

Lemma whp_pairs_ok (img : Image) (at_base p r e : Z) :
  image_words img -> word_ok at_base -> word_ok p -> word_ok r -> word_ok e ->
  Forall pair_ok (whp_pairs img at_base p r e) /\ (S (length (whp_pairs img at_base p r e)) <= 18)%nat.
Proof.
  intros (? & ? & ? & ?) ? ? ? ?. split; [|done]. unfold whp_pairs, aux_entries.
  rewrite !Forall_cons. unfold pair_ok, word_ok in *. cbn [fst snd]. repeat split; done || lia.
Qed.

Lemma hvf_pairs_ok (img : Image) (at_base sysinfo p r e : Z) :
  image_words img -> word_ok at_base -> word_ok sysinfo -> word_ok p -> word_ok r -> word_ok e ->
  Forall pair_ok (hvf_pairs img at_base sysinfo p r e) /\ (S (length (hvf_pairs img at_base sysinfo p r e)) <= 19)%nat.
Proof.
  intros (? & ? & ? & ?) ? ? ? ? ?. unfold hvf_pairs, aux_entries.
  destruct (sysinfo =? 0); cbn [app]; (split; [|cbn; lia]); rewrite !Forall_cons; unfold pair_ok, word_ok, hvf_hwcap in *; cbn [fst snd]; repeat split; done || lia.
Qed.

Lemma exec_name_ok (argv : list bytes) (execfn : bytes) : Forall c_string argv -> c_string execfn -> c_string (exec_name argv execfn).
Proof. intros Ha He. destruct execfn; [|done]. destruct Ha; [constructor|done]. Qed.

Lemma room_nonneg (argv envp : list bytes) (execfn platform rnd : bytes) (pairs : nat) : 0 <= room_for argv envp execfn platform rnd pairs.
Proof.
  unfold room_for. pose proof (cost_nonneg envp). pose proof (cost_nonneg argv).
  pose proof (cost_nonneg [exec_name argv execfn; platform; rnd]). lia.
Qed.

Lemma names_ok : c_string aarch64_name /\ c_string x86_64_name.
Proof. unfold c_string, aarch64_name, x86_64_name. rewrite !Forall_cons. repeat split; done || lia. Qed.

Lemma hvf_build_finish (m : Ram) (size : Z) (img : Image) (argv envp : list bytes) (at_base : Z) (execfn : bytes) (sysinfo : Z) (rnd : bytes) :
  hvf_build_stack m size img argv envp at_base execfn sysinfo rnd
  = finish (HvfMem.at_ (HvfMem.ram_of size)) (u64 (size - HvfMem.stack_guard)) m argv envp execfn aarch64_name rnd
      (fun p r e => hvf_pairs img at_base sysinfo p r e ++ [(0, 0)]).
Proof.
  unfold hvf_build_stack, finish. destruct (push_args _ _ _ _ _ _ _) as [[m1 sp1] [[[argp envpp] ea] pa]].
  destruct (push_bytes _ _ _ _) as [m2 sp2]. by rewrite hvf_pairs_eq.
Qed.

(** macOS: the stack is the guest's own memory up to the guard. *)
Lemma hvf_window (k a n : Z) :
  1 <= k <= 2 ^ 15 -> HvfMem.priv_end (k * HvfMem.block) <= a -> 0 < n -> a + n <= k * HvfMem.block - HvfMem.stack_guard ->
  is_Some (HvfMem.at_ (HvfMem.ram_of (k * HvfMem.block)) a n).
Proof.
  intros Hk Ha Hn Ht. unfold HvfMem.at_, HvfMem.permits, HvfMem.ram_of, HvfMem.span. cbn [HvfMem.size_ HvfMem.floor_].
  change HvfMem.stack_guard with 0x10000 in Ht. zcases; (lia || by eexists).
Qed.

(** * Theorems *)

(** On the macOS backend the startup stack comes out as the System V
    layout: whatever arguments and environment fit between the runtime's own
    area and the stack guard, the stack pointer is 16-byte aligned, a reader
    of the layout finds the count, the same argument strings, the same
    environment and the auxiliary pairs, whose platform, program name and
    random bytes are in place, and no byte outside the stack is written. *)
Theorem hvf_stack_round_trip (mem_size size : Z) (m : Ram) (img : Image) (argv envp : list bytes) (at_base : Z) (execfn rnd : bytes)
    (sysinfo : Z) (fuel : nat) :
  0 < mem_size < 2 ^ 63 -> HvfMem.init_size mem_size = inl size ->
  Forall c_string argv -> Forall c_string envp -> c_string execfn -> rnd <> [] ->
  image_words img -> word_ok at_base -> word_ok sysinfo ->
  room_for argv envp execfn aarch64_name rnd 19 <= Z.min (Z.of_nat fuel) (size - HvfMem.stack_guard - HvfMem.priv_end size) ->
  exists m' sp pa ra ea, hvf_build_stack m size img argv envp at_base execfn sysinfo rnd = (inl sp, m')
    /\ sp mod 16 = 0 /\ HvfMem.priv_end size <= sp /\ only m m' sp (size - HvfMem.stack_guard)
    /\ read_startup fuel m' sp
       = Some {| s_argc := Z.of_nat (length argv); s_argv := argv; s_envp := envp; s_aux := hvf_pairs img at_base sysinfo pa ra ea |}
    /\ cstring fuel m' pa = Some aarch64_name /\ cstring fuel m' ea = Some (exec_name argv execfn) /\ load m' ra (length rnd) = rnd.
Proof.
  intros Hm Hi Ha He Hx Hr Hw Hb Hs Hroom. destruct (HvfMem.init_sized _ _ Hm Hi) as (k & -> & Hk).
  destruct (HvfMem.layout k Hk) as (HL1 & _ & HL3 & _). change HvfMem.stack_guard with 0x10000 in *.
  assert (Hp : 0 < HvfMem.priv_end (k * HvfMem.block)).
  { destruct (HvfMem.layout k Hk) as (_ & _ & _ & _ & _ & _ & ?). unfold HvfMem.l2_tables, HvfMem.fastcall_bytes, HvfMem.page in *. lia. }
  set (lo := HvfMem.priv_end (k * HvfMem.block)) in *. set (top := k * HvfMem.block - 0x10000) in *.
  assert (Ht : top < 2 ^ 63) by (unfold top, HvfMem.block; lia).
  destruct (finish_spec (HvfMem.at_ (HvfMem.ram_of (k * HvfMem.block))) lo top Hp Ht (fun a n => hvf_window k a n Hk) m argv envp execfn aarch64_name rnd
    (hvf_pairs img at_base sysinfo) 19 fuel) as (m' & sp & pa & ra & ea & E & H1 & H2 & H3 & H4 & H5); try done.
  - by apply exec_name_ok.
  - apply names_ok.
  - intros. by apply hvf_pairs_ok.
  - lia.
  - lia.
  - exists m', sp, pa, ra, ea. pose proof (room_nonneg argv envp execfn aarch64_name rnd 19).
    rewrite hvf_build_finish. change HvfMem.stack_guard with 0x10000. rewrite u64_small by (unfold top in *; lia). done.
Qed.

(** * Witnesses *)

Definition sample_image : Image := mkImage 0x201000 0x200040 2 56 0x203000 0x200000 [].
Definition sample_argv : list bytes := [[115; 104]; [45; 99]; []].
Definition sample_envp : list bytes := [[65; 61; 49]].
Definition sample_rnd : bytes := replicate 16 7.

Lemma sample_strings : Forall c_string sample_argv /\ Forall c_string sample_envp.
Proof. unfold sample_argv, sample_envp, c_string. rewrite !Forall_cons. repeat split; done || lia. Qed.

Lemma hvf_stack_round_trip_witness :
  exists m' sp, hvf_build_stack ∅ (2 ^ 26) sample_image sample_argv sample_envp 0 [] 0 sample_rnd = (inl sp, m')
    /\ sp mod 16 = 0 /\ s_argv <$> read_startup 4096 m' sp = Some sample_argv.
Proof.
  destruct (hvf_stack_round_trip (2 ^ 26) (2 ^ 26) ∅ sample_image sample_argv sample_envp 0 [] sample_rnd 0 4096)
    as (m' & sp & pa & ra & ea & E & H1 & _ & _ & H4 & _).
  - done.
  - reflexivity.
  - apply sample_strings.
  - apply sample_strings.
  - constructor.
  - done.
  - by repeat split.
  - done.
  - done.
  - vm_compute. done.
  - exists m', sp. split; [exact E|]. split; [exact H1|]. rewrite H4. reflexivity.
Defined.

End StartStack.
