(* ===== verification/WinBoot.v ===== *)
(** Starting a program on the Windows backend ([runtime/windows/load.hpp]
    and the part of [src/main_windows.cpp] that uses it): the ELF loader,
    the interpreter's name, and the composition that ends with the startup
    stack and the memory manager.  The specification of a loaded program is
    what the guest's addresses read as. *)
From S2P Require Import Prelude Abi Sysno GuestMem ElfProbe AddressSpace PageTables GuestView Frames WinMm StartStack.

Module WinBoot.

Import Abi PageTables.
Import ElfProbe(Ehdr, Phdr, ehdr_of, phdr_of, fread, sizeof_Ehdr, sizeof_Phdr, kMag, kClass64, pt_load, pt_interp, pt_phdr, machine_value,
  e_ident, e_type, e_machine, e_entry, e_phoff, e_phentsize, e_phnum, p_type, p_flags, p_offset, p_vaddr, p_filesz, p_memsz).
Import StartStack(Image, mkImage, Segment, mkSeg, entry, phdr_addr, phnum, phent, image_end, load_bias, segments, begin, end_, sflags).

(** ** Reading the file *)

(** [std::fseek] takes a [long], 32 bits wide on Windows. *)
Definition fseek (off : Z) : option Z := if i32 off <? 0 then None else Some (i32 off).

Definition kPfX : Z := 1.
Definition kPfW : Z := 2.
Definition et_dyn : Z := 3.

Definition phdr_read (file : list Z) (eh : Ehdr) (i : Z) : Result Phdr :=
  match fseek (u64 (e_phoff eh + i * e_phentsize eh)) with
  | None => inr enoexec
  | Some at_ =>
      let got := fread file at_ sizeof_Phdr in
      if negb (length got =? sizeof_Phdr)%nat then inr enoexec else inl (phdr_of got)
  end.

Definition lift {A} (r : Result A) : Op A := match r with inl x => mret x | inr e => fail e end.

(** Writes through [vm.ram().at], refused with an error. *)
Definition put_at (gpa : Z) (n : Z) (bs : list Z) (e : Errno) : Op unit := fun v =>
  match at_ (ram v) gpa n with
  | None => (inr e, v)
  | Some _ => (inl tt, with_mem v (store (mem v) gpa bs))
  end.

(** Where AT_PHDR points, as far as this header tells. *)
Definition find_phdr (eh : Ehdr) (bias : Z) (ph : Phdr) (st : Z * bool) : Z * bool :=
  let '(addr, have) := st in
  let '(addr, have) := if p_type ph =? pt_phdr then (u64 (bias + p_vaddr ph), true) else (addr, have) in
  if negb (p_type ph =? pt_load) then (addr, have)
  else if negb have && (p_offset ph <=? e_phoff eh) && (e_phoff eh <? u64 (p_offset ph + p_filesz ph))
       then (u64 (bias + p_vaddr ph + (e_phoff eh - p_offset ph)), have)
       else (addr, have).

(** [fread] into guest memory: what could be read is there even when it is
    too little. *)
Definition fill_segment (file : list Z) (va : Z) (ph : Phdr) : Op unit :=
  if p_filesz ph =? 0 then mret tt
  else fun v =>
    match at_ (ram v) va (p_filesz ph) with
    | None => (inr enomem, v)
    | Some _ =>
        match fseek (p_offset ph) with
        | None => (inr enoexec, v)
        | Some at_ =>
            let got := fread file at_ (Z.to_nat (p_filesz ph)) in
            let v := with_mem v (store (mem v) va got) in
            (if (length got =? Z.to_nat (p_filesz ph))%nat then inl tt else inr enoexec, v)
        end
    end.

(** A call whose every failure is reported as [e]. *)
Definition or_else {A} (e : Errno) (o : Op A) : Op A := fun v =>
  match o v with
  | (inl x, v) => (inl x, v)
  | (inr _, v) => (inr e, v)
  end.

Definition load_segment (file : list Z) (bias : Z) (ph : Phdr) : Op Segment :=
  let va := u64 (bias + p_vaddr ph) in
  let beg := page_down va in
  let end_ := Z.land (u64 (u64 (va + p_memsz ph) + kPageMask)) (u64 (Z.lnot kPageMask)) in
  let len := u64 (end_ - beg) in
  or_else enomem (map_pages beg len true (bit (p_flags ph) kPfX));;
  put_at beg len (zeros len) enomem;;
  fill_segment file va ph;;
  mret (mkSeg beg end_ (p_flags ph)).

(** The loop over the program headers; [n] of them are left. *)
Fixpoint load_loop (n : nat) (i : Z) (file : list Z) (eh : Ehdr) (bias : Z) (st : Z * bool) (top : Z) (segs : list Segment)
  : Op (Z * Z * list Segment) :=
  match n with
  | O => mret (st.1, top, segs)
  | S n' =>
      ph ← lift (phdr_read file eh i);
      let st := find_phdr eh bias ph st in
      if negb (p_type ph =? pt_load) then load_loop n' (i + 1) file eh bias st top segs
      else
        sg ← load_segment file bias ph;
        load_loop n' (i + 1) file eh bias st (Z.max top (end_ sg)) (segs ++ [sg])
  end.

Fixpoint protect_loop (segs : list Segment) : Op unit :=
  match segs with
  | [] => mret tt
  | sg :: segs' =>
      (if bit (sflags sg) kPfW then mret tt
       else or_else enomem (map_pages (begin sg) (u64 (end_ sg - begin sg)) false (bit (sflags sg) kPfX)));;
      protect_loop segs'
  end.

Definition header_ok (eh : Ehdr) : bool :=
  bool_decide (take 4 (e_ident eh) = kMag) && (nth 4 (e_ident eh) 0 =? kClass64) && (e_machine eh =? machine_value Sysno.x86_64).

Definition whp_load_elf (file : option (list Z)) (bias : Z) : Op Image :=
  match file with
  | None => fail enoent
  | Some bs =>
      let got := fread bs 0 sizeof_Ehdr in
      if negb (length got =? sizeof_Ehdr)%nat then fail enoexec
      else
        let eh := ehdr_of got in
        if negb (header_ok eh) then fail enoexec
        else
          let bias := if e_type eh =? et_dyn then bias else 0 in
          '(phdr, top, segs) ← load_loop (Z.to_nat (e_phnum eh)) 0 bs eh bias (u64 (bias + e_phoff eh), false) 0 [];
          protect_loop segs;;
          mret (mkImage (u64 (bias + e_entry eh)) phdr (e_phnum eh) (e_phentsize eh) top bias segs)
  end.

(** [s.find('\0')] and the cut there. *)
Fixpoint until_nul (s : list Z) : list Z :=
  match s with
  | [] => []
  | b :: s' => if b =? 0 then [] else b :: until_nul s'
  end.

Fixpoint find_interp (n : nat) (i : Z) (file : list Z) (eh : Ehdr) : Result (list Z) :=
  match n with
  | O => inl []
  | S n' =>
      match phdr_read file eh i with
      | inr e => inr e
      | inl ph =>
          if negb (p_type ph =? pt_interp) then find_interp n' (i + 1) file eh
          else if (p_filesz ph =? 0) || (4096 <? p_filesz ph) then inr enoexec
          else
            match fseek (p_offset ph) with
            | None => inr enoexec
            | Some at_ =>
                let got := fread file at_ (Z.to_nat (p_filesz ph)) in
                if (length got =? Z.to_nat (p_filesz ph))%nat then inl (until_nul got) else inr enoexec
            end
      end
  end.

Definition whp_read_interp (file : option (list Z)) : Result (list Z) :=
  match file with
  | None => inr enoent
  | Some bs =>
      let got := fread bs 0 sizeof_Ehdr in
      if negb (length got =? sizeof_Ehdr)%nat then inr enoexec
      else find_interp (Z.to_nat (e_phnum (ehdr_of got))) 0 bs (ehdr_of got)
  end.

(** ** Booting

    [main], from the size check to the first instruction.  [host_file] is
    what a guest path names on the host; failures end the process. *)

Record Started := mkStarted { start_at : Z; start_sp : Z; start_mm : WinMm.Mm }.

Definition adopt_segment (mm : WinMm.Mm) (sg : Segment) : WinMm.Mm :=
  WinMm.adopt (begin sg) (end_ sg) (Space.prot_from_elf (sflags sg)) false mm.

Definition boot_with (ram_ : Z) (img : Image) (entry_ at_base highest_end : Z) (segs : list Segment)
    (argv envp : list (list Z)) (program : list Z) (random : option (list Z)) (v : Machine) : option Started :=
  let mm := fold_left adopt_segment segs (WinMm.init v highest_end (StartStack.mmap_top ram_)) in
  match StartStack.whp_build_stack (WinMm.vm mm) img argv envp at_base program random with
  | (inr _, _) => None
  | (inl sp, v) =>
      let top := StartStack.stack_top ram_ in
      let mm := WinMm.adopt (u64 (top - StartStack.stack_size)) top
                  (Z.lor Space.prot_read Space.prot_write) true (WinMm.with_vm mm v) in
      Some (mkStarted entry_ sp mm)
  end.

Definition boot (memory_mib : Z) (prog : option (list Z)) (host_file : list Z -> option (list Z))
    (argv envp : list (list Z)) (program : list Z) (random : option (list Z)) : option Started :=
  let ram_ := Z.shiftl memory_mib 20 in
  if ram_ <? StartStack.min_ram then None
  else
    match create ram_ with
    | inr _ => None
    | inl v =>
        match whp_load_elf prog (StartStack.pie_base ram_) v with
        | (inr _, _) => None
        | (inl img, v) =>
            match whp_read_interp prog with
            | inl (c :: s) =>
                match whp_load_elf (host_file (c :: s)) (StartStack.interp_base ram_) v with
                | (inr _, _) => None
                | (inl ld, v) =>
                    boot_with ram_ img (entry ld) (load_bias ld) (Z.max (image_end img) (image_end ld))
                      (segments img ++ segments ld) argv envp program random v
                end
            | _ => boot_with ram_ img (entry img) 0 (image_end img) (segments img) argv envp program random v
            end
        end
    end.

(** * Lemmas *)

#[local] Opaque get64 put64 zeros store.

(** ** Runs of pages *)

Lemma walk_reaches (T : gmap Z nat) (v : Machine) (a : Z) (l : Leaf) :
  tables T v -> small T v -> forall k t w u, reach v a k t -> wk v k t a w u = Some l -> exists t0, reach v a 0 t0.
Proof.
  intros HT HS. induction k as [|k IH]; intros t w u Hr; [by exists t|]. assert (Ht := reach_table T v a _ t HT Hr).
  rewrite (walk_at T v _ t a w u HT Ht). cbn zeta. destruct (bit (PageTables.entry v t _) kPtePresent) eqn:Ep; cbn [negb]; [|done].
  assert (Eps := HS t k _ Ht (index_range a (S k)) Ep). cbn [is_leaf]. rewrite Eps. cbn [pred].
  destruct (t_link _ _ HT t k _ Ht (index_range a (S k))) as (c & E & Hc); [unfold linked; by rewrite Ep, Eps|].
  assert (page c) by by apply (table_page T v HT c k). rewrite E, link_addr by done. apply IH. by eapply reach_down.
Qed.

Lemma block_indices (a b : Z) (j : nat) : a / 2 ^ 21 = b / 2 ^ 21 -> (1 <= j)%nat -> index a j = index b j.
Proof.
  intros H Hj. rewrite !index_eq. assert (E : 2 ^ shift j = 2 ^ 21 * 2 ^ (9 * Z.of_nat (j - 1))).
  { rewrite <- Z.pow_add_r by lia. f_equal. unfold shift. lia. }
  rewrite E, <- !Z.div_div by lia. by rewrite H.
Qed.

Lemma reach_block (v : Machine) (a b : Z) (k : nat) (t : Z) : a / 2 ^ 21 = b / 2 ^ 21 -> reach v a k t -> reach v b k t.
Proof.
  intros H. induction 1 as [|k t c _ IH E Hc]; [constructor|]. rewrite (block_indices a b) in E by (done || lia).
  by eapply reach_down.
Qed.

Lemma descend_linked (T : gmap Z nat) (v : Machine) (a t c : Z) (k : nat) :
  tables T v -> reach v a (S k) t -> PageTables.entry v t (index a (S k)) = link c -> page c -> descend_one t a (S k) v = (inl c, v).
Proof.
  intros HT Hr E Hc. assert (Ht := reach_table T v a _ t HT Hr). unfold descend_one, mbind, op_bind, mret, op_ret.
  rewrite (read_table T v HT t (S k) _ Ht (index_range a (S k))), E. destruct (link_bits c Hc) as (-> & _ & _ & ->). cbn [andb].
  destruct (link_bits c Hc) as (-> & _). by rewrite link_addr.
Qed.

(** Where the tables are already, a page is one entry. *)
Lemma map_one_reached (T : gmap Z nat) (v : Machine) (a gpa t : Z) (w x : bool) :
  tables T v -> reach v a 0 t -> map_one a gpa w x v = write_entry t (index a 0) (leaf_entry gpa w x) v.
Proof.
  intros HT Hr. inversion Hr as [|k1 t1 c1 H1 E1 P1]; subst. inversion H1 as [|k2 t2 c2 H2 E2 P2]; subst.
  inversion H2 as [|k3 t3 c3 H3 E3 P3]; subst. inversion H3 as [|k4 t4 c4 H4 E4 P4]; subst.
  - unfold map_one, mbind, op_bind. rewrite (descend_linked T v a _ _ 2 HT H3 E3 P3), (descend_linked T v a _ _ 1 HT H2 E2 P2).
    by rewrite (descend_linked T v a _ _ 0 HT H1 E1 P1).
  - apply (reach_table T) in H4; [|done]. apply (table_level T v HT) in H4. lia.
Qed.

(** A run of pages mapped to themselves. *)
Fixpoint ident (n : nat) (p : Z) (w x : bool) (f : Flat) : Flat :=
  match n with
  | O => f
  | S n' => ident n' (p + 1) w x (<[p := (p * 4096, w, x)]> f)
  end.

(** The block of [a] has its tables. *)
Definition near (v : Machine) (a : Z) : Prop := exists c, is_u64 c /\ c / 2 ^ 21 = a / 2 ^ 21 /\ seen v c <> None.

(** What mapping a page does apart from the map. *)
Definition kept (v v' : Machine) : Prop :=
  ram_bytes v' = ram_bytes v /\ forall a, 4096 <= a < table_arena_base v -> peek (mem v') a = peek (mem v) a.

Lemma kept_trans (v1 v2 v3 : Machine) : kept v1 v2 -> kept v2 v3 -> kept v1 v3.
Proof.
  intros [B1 P1] [B2 P2]. split; [congruence|]. intros a Ha. rewrite P2 by by rewrite (arena_same v1 v2 B1). by apply P1.
Qed.

Definition low_page (a : Z) : Prop := a mod 4096 = 0 /\ 0 <= a < 2 ^ 47.

Lemma low_page_ok (a : Z) : low_page a -> is_u64 a /\ canonical a = true /\ a / 4096 * 4096 = a.
Proof.
  intros [Ha Hr]. split; [unfold is_u64; lia|]. split; [by apply WinMm.canonical_low|]. revert Ha. Z.div_mod_to_equations. lia.
Qed.

Lemma map_page_near (v : Machine) (f : Flat) (T : gmap Z nat) (a : Z) (w x : bool) :
  models v f T -> low_page a -> near v a ->
  exists v', map_one a a w x v = (inl tt, v') /\ models v' (<[a / 4096 := (a, w, x)]> f) T /\ room v' = room v /\ kept v v'.
Proof.
  intros [HT HS Hf] Ha (c & Hc & Ec & Hn). destruct (low_page_ok a Ha) as (Hu & Ca & Ea).
  assert (Hw : exists t, reach v a 0 t).
  { unfold seen in Hn. destruct (canonical c); [|done]. destruct (wk v 3 kPml4Gpa c true true) as [l|] eqn:E; [|done].
    destruct (walk_reaches T v c l HT HS 3 kPml4Gpa true true (reach_root _ _) E) as [t Ht]. exists t. by apply (reach_block v c). }
  assert (Hpg : page a) by (destruct Ha; unfold page; lia). destruct Hw as [t Ht]. rewrite (map_one_reached T v a a t w x HT Ht).
  destruct (write_leaf T T v v a t (leaf_entry a w x) (grows_refl T v HT) Ht Hu Ca (leaf_range _ _ _) ltac:(lia)) as (v' & E & P).
  exists v'. split; [done|]. destruct P as [P1 P2 P3 P4 P5 _]. split; [|split].
  - constructor; [done|by apply P5|]. intros b Hb. rewrite P2, shows_leaf, addr_page by done.
    unfold flat_seen. destruct (decide (b / 4096 = a / 4096)) as [-> |]; [by rewrite lookup_insert_eq|].
    rewrite lookup_insert_ne by done. by apply Hf.
  - rewrite (write_table T v HT t 0 _ _ (reach_table T v a _ t HT Ht) (index_range a 0)) in E. by injection E as <-.
  - by split.
Qed.

Lemma map_page_far (v : Machine) (f : Flat) (T : gmap Z nat) (a : Z) (w x : bool) :
  models v f T -> low_page a -> 3 <= room v ->
  exists v' T', map_one a a w x v = (inl tt, v') /\ models v' (<[a / 4096 := (a, w, x)]> f) T' /\ room v - 3 <= room v' /\ kept v v'.
Proof.
  intros HM Ha Hr. destruct (low_page_ok a Ha) as (Hu & Ca & Ea).
  destruct (exec_models (MapAt a a w x) v f T) as (d & v' & T' & E & M & R & B & D & P); [|done|].
  { split; [done|]. split; [done|]. destruct Ha. lia. }
  rewrite (D Hr) in *. cbn [exec] in E. unfold map_page_at in E. rewrite down_eq, Ea in E by (unfold is_u64 in Hu; lia).
  destruct (map_one a a w x v) as [[[]|] v2]; [|done]. injection E as ->. exists v', T'. cbn [flat_step] in M. rewrite Ea in M. done.
Qed.

(** Tables a run of pages may need. *)
Definition needed (n : nat) (a : Z) (nr : bool) : Z :=
  match n with
  | O => 0
  | _ => 3 * ((a + Z.of_nat n * 4096 - 1) / 2 ^ 21 - a / 2 ^ 21 + (if nr then 0 else 1))
  end.

Lemma mapped_near (v : Machine) (f : Flat) (T : gmap Z nat) (a b : Z) (e : Z * bool * bool) :
  models v f T -> low_page a -> f !! (a / 4096) = Some e -> a / 2 ^ 21 = b / 2 ^ 21 -> near v b.
Proof.
  intros [HT HS Hf] Ha He Hb. destruct (low_page_ok a Ha) as (Hu & _). exists a. split; [done|]. split; [done|].
  rewrite Hf by done. unfold flat_seen. rewrite He. by destruct e as [[? ?] ?].
Qed.

Lemma next_page (a : Z) (n : nat) : low_page a -> a + Z.of_nat (S n) * 4096 <= 2 ^ 47 -> (n <> 0)%nat -> low_page (a + 4096).
Proof. intros [Ha Hr] Hn H0. split; [revert Ha; Z.div_mod_to_equations; lia|lia]. Qed.

Lemma page_number (a : Z) : (a + 4096) / 4096 = a / 4096 + 1.
Proof. Z.div_mod_to_equations. lia. Qed.

Lemma needed_step (n : nat) (a : Z) (nr : bool) :
  a mod 4096 = 0 -> 0 <= a -> (n <> 0)%nat ->
  needed (S n) a nr = (if nr then 0 else 3) + needed n (a + 4096) (bool_decide ((a + 4096) / 2 ^ 21 = a / 2 ^ 21))
  /\ 0 <= needed n (a + 4096) (bool_decide ((a + 4096) / 2 ^ 21 = a / 2 ^ 21)).
Proof.
  intros Ha H0 Hn. destruct n as [|n]; [done|]. unfold needed.
  replace (a + 4096 + Z.of_nat (S n) * 4096 - 1) with (a + Z.of_nat (S (S n)) * 4096 - 1) by lia.
  set (e := a + Z.of_nat (S (S n)) * 4096 - 1). assert (He : a + 4096 <= e) by (unfold e; lia). clearbody e.
  change (2 ^ 21) with 2097152. case_bool_decide as Hd; destruct nr; revert Ha Hd; Z.div_mod_to_equations; lia.
Qed.

Lemma map_loop_fresh (w x : bool) (n : nat) : forall a v f T nr,
  models v f T -> low_page a -> a + Z.of_nat n * 4096 <= 2 ^ 47 -> (nr = true -> near v a) -> needed n a nr <= room v ->
  exists v' T', map_loop n a w x v = (inl tt, v') /\ models v' (ident n (a / 4096) w x f) T'
    /\ room v - needed n a nr <= room v' /\ kept v v'.
Proof.
  induction n as [|n IH]; intros a v f T nr HM Ha He Hnr Hr.
  { exists v, T. split; [done|]. split; [done|]. split; [cbn; lia|]. by split. }
  assert (Hstep : exists v1 T1, map_one a a w x v = (inl tt, v1) /\ models v1 (<[a / 4096 := (a, w, x)]> f) T1
            /\ room v - (if nr then 0 else 3) <= room v1 /\ kept v v1).
  { destruct nr.
    - destruct (map_page_near v f T a w x HM Ha (Hnr eq_refl)) as (v1 & E & M & R & K). exists v1, T. split; [done|]. split; [done|]. split; [lia|done].
    - assert (3 <= room v). { destruct (decide (n = 0)%nat) as [-> |H0].
      + revert Hr. unfold needed. destruct Ha as [Ha _]. revert Ha. Z.div_mod_to_equations. lia.
      + destruct Ha as [Ha Ha']. destruct (needed_step n a false Ha ltac:(lia) H0). lia. }
      destruct (map_page_far v f T a w x HM Ha ltac:(done)) as (v1 & T1 & E & M & R & K). by exists v1, T1. }
  destruct Hstep as (v1 & T1 & E & M & R & K). cbn [map_loop]. unfold mbind, op_bind. rewrite E. cbn [ident].
  replace (a / 4096 * 4096) with a by (by destruct (low_page_ok a Ha) as (_ & _ & ->)).
  destruct (decide (n = 0)%nat) as [-> |H0].
  { exists v1, T1. split; [done|]. split; [done|]. split; [|done]. clear -R Ha. unfold needed.
    assert (0 <= (a + Z.of_nat 1 * 4096 - 1) / 2 ^ 21 - a / 2 ^ 21) by (destruct Ha; Z.div_mod_to_equations; lia). destruct nr; lia. }
  destruct Ha as [Ha Ha']. destruct (needed_step n a nr Ha ltac:(lia) H0) as [N1 N2].
  destruct (IH (a + 4096) v1 _ T1 (bool_decide ((a + 4096) / 2 ^ 21 = a / 2 ^ 21)) M) as (v' & T' & E' & M' & R' & K').
  - by eapply next_page; [split|..].
  - lia.
  - intros Hb%bool_decide_eq_true. eapply (mapped_near v1 _ T1 a); [done|by split|by rewrite lookup_insert_eq|done].
  - lia.
  - exists v', T'. split; [done|]. rewrite page_number in M'. split; [done|]. split; [lia|by eapply kept_trans].
Qed.

(** Mapping again what is mapped takes no table. *)
Lemma map_loop_again (w x : bool) (n : nat) : forall a v f T,
  models v f T -> low_page a -> a + Z.of_nat n * 4096 <= 2 ^ 47 ->
  (forall k, a / 4096 <= k < a / 4096 + Z.of_nat n -> f !! k <> None) ->
  exists v', map_loop n a w x v = (inl tt, v') /\ models v' (ident n (a / 4096) w x f) T /\ room v' = room v /\ kept v v'.
Proof.
  induction n as [|n IH]; intros a v f T HM Ha He Hf; [by exists v|].
  destruct (f !! (a / 4096)) as [e|] eqn:Ee; [|by destruct (Hf (a / 4096)); [lia|]].
  destruct (map_page_near v f T a w x HM Ha) as (v1 & E & M & R & K); [by eapply mapped_near|].
  cbn [map_loop ident]. unfold mbind, op_bind. rewrite E.
  replace (a / 4096 * 4096) with a by (by destruct (low_page_ok a Ha) as (_ & _ & ->)).
  destruct (decide (n = 0)%nat) as [-> |H0]; [by exists v1|].
  destruct (IH (a + 4096) v1 _ T M) as (v' & E' & M' & R' & K').
  - by eapply next_page.
  - lia.
  - intros k Hk. rewrite page_number in Hk. rewrite lookup_insert_ne by lia. apply Hf. lia.
  - exists v'. split; [done|]. rewrite page_number in M'. split; [done|]. split; [lia|by eapply kept_trans].
Qed.

Lemma ident_lookup (w x : bool) (n : nat) : forall p f k,
  ident n p w x f !! k = if decide (p <= k < p + Z.of_nat n) then Some (k * 4096, w, x) else f !! k.
Proof.
  induction n as [|n IH]; intros p f k; cbn [ident]; [by rewrite decide_False by lia|]. rewrite IH.
  destruct (decide (p + 1 <= k < p + 1 + Z.of_nat n)); [by rewrite decide_True by lia|].
  destruct (decide (k = p)) as [-> |]; [by rewrite lookup_insert_eq, decide_True by lia|].
  rewrite lookup_insert_ne by done. by rewrite decide_False by lia.
Qed.

(** Writing guest RAM leaves the map alone. *)
Lemma models_store (v : Machine) (f : Flat) (T : gmap Z nat) (a : Z) (bs : list Z) :
  models v f T -> Forall is_byte bs -> 4096 <= a -> a + Z.of_nat (length bs) <= table_arena_base v ->
  models (with_mem v (store (mem v) a bs)) f T.
Proof.
  intros [HT HS Hf] Hb Ha He. destruct (t_next _ _ HT) as [_ Hn].
  destruct (outside_tables T v (store (mem v) a bs) HT) as (HT' & HS' & Hs').
  - apply store_bytes_ok; [apply (t_bytes _ _ HT)|done].
  - intros b Hb'. rewrite peek_store, decide_False; [done|]. lia.
  - constructor; [done|by apply HS'|]. intros b Hb'. rewrite Hs'. by apply Hf.
Qed.

Lemma map_pages_eq (a len : Z) (w x : bool) (v : Machine) :
  low_page a -> 0 <= len -> len mod 4096 = 0 -> a + len <= 2 ^ 47 -> map_pages a len w x v = map_loop (Z.to_nat (len / 4096)) a w x v.
Proof.
  intros [Ha Hr] Hl Hm He. unfold map_pages. rewrite down_eq by lia. rewrite (u64_small (a + len)) by lia.
  change (Z.land (u64 (a + len + kPageMask)) (u64 (Z.lnot kPageMask))) with (page_up (a + len)). rewrite up_eq by lia.
  replace (a / 4096 * 4096) with a by (revert Ha; Z.div_mod_to_equations; lia).
  replace ((a + len + 4095) / 4096 * 4096) with (a + len) by (revert Ha Hm; Z.div_mod_to_equations; lia).
  change kPageSize with 4096. do 3 f_equal. lia.
Qed.

Lemma arena_low (v : Machine) (T : gmap Z nat) : tables T v -> 0 <= table_arena_base v < ram_bytes v /\ ram_bytes v < 2 ^ 52.
Proof.
  intros HT. destruct (t_size _ _ HT) as [[H _] H2]. unfold table_arena_base. change kTableArenaSize with 0x200000 in *. zcases; lia.
Qed.

(** ** One segment *)

Section segment.
Context (file : list Z) (bias limit : Z).

Definition seg_va (ph : Phdr) : Z := bias + p_vaddr ph.
Definition seg_beg (ph : Phdr) : Z := seg_va ph / 4096 * 4096.
Definition seg_end (ph : Phdr) : Z := (seg_va ph + p_memsz ph + 4095) / 4096 * 4096.
Definition seg_pages (ph : Phdr) : nat := Z.to_nat ((seg_end ph - seg_beg ph) / 4096).
Definition seg_exec (ph : Phdr) : bool := bit (p_flags ph) kPfX.
Definition seg_writable (ph : Phdr) : bool := bit (p_flags ph) kPfW.

(** A segment of a well-formed program: in guest RAM, with its bytes in the
    file. *)
Record seg_ok (ph : Phdr) : Prop := {
  sg_low : kGuestFloor <= seg_va ph;
  sg_high : seg_va ph + p_memsz ph <= limit;
  sg_mem : 0 < p_memsz ph;
  sg_size : 0 <= p_filesz ph <= p_memsz ph;
  sg_off : 0 <= p_offset ph < 2 ^ 31 /\ p_offset ph + p_filesz ph <= Z.of_nat (length file)
}.

(** The byte a loaded segment has at an address. *)
Definition seg_byte (ph : Phdr) (a : Z) : Z :=
  if decide (seg_va ph <= a < seg_va ph + p_filesz ph) then file !!! Z.to_nat (p_offset ph + (a - seg_va ph)) else 0.

Context (Hfile : Forall is_byte file) (Hlimit : limit mod 4096 = 0 /\ limit <= 2 ^ 46).

Lemma seg_range (ph : Phdr) : seg_ok ph ->
  low_page (seg_beg ph) /\ kGuestFloor <= seg_beg ph <= seg_va ph /\ seg_va ph + p_memsz ph <= seg_end ph <= limit
  /\ seg_end ph mod 4096 = 0 /\ seg_beg ph + Z.of_nat (seg_pages ph) * 4096 = seg_end ph.
Proof.
  intros [H1 H2 H3 H4 H5]. unfold seg_pages, low_page, seg_beg, seg_end in *. change kGuestFloor with 0x200000 in *.
  set (va := seg_va ph) in *. set (n := p_memsz ph) in *. clearbody va n.
  assert (E : va / 4096 <= (va + n + 4095) / 4096) by (apply Z.div_le_mono; lia).
  rewrite <- Z.mul_sub_distr_r, Z.div_mul, Z2Nat.id by lia. destruct Hlimit as [Hl Hl']. revert Hl. Z.div_mod_to_equations. lia.
Qed.

Lemma fread_length_at (off : Z) (n : nat) : 0 <= off -> off + Z.of_nat n <= Z.of_nat (length file) -> length (fread file off n) = n.
Proof. intros H0 H. unfold fread. rewrite length_take, length_drop. lia. Qed.

Lemma fread_at (off : Z) (n i : nat) : 0 <= off -> (i < n)%nat -> fread file off n !!! i = file !!! Z.to_nat (off + Z.of_nat i).
Proof.
  intros H0 Hi. unfold fread. rewrite lookup_total_take, lookup_total_drop, decide_True by done. f_equal. lia.
Qed.

Lemma fread_bytes (off : Z) (n : nat) : Forall is_byte (fread file off n).
Proof. unfold fread. by apply Forall_take, Forall_drop. Qed.

Lemma at_guest (v : Machine) (a n : Z) :
  kGuestFloor <= a -> 0 < n -> a + n <= ram_bytes v -> at_ (ram v) a n = Some (a, n).
Proof. intros H1 H2 H3. unfold at_, permits, ram, span. cbn [ram_size ram_floor]. zcases; (done || lia). Qed.

Lemma fill_segment_eq (v : Machine) (ph : Phdr) :
  seg_ok ph -> limit <= ram_bytes v ->
  fill_segment file (seg_va ph) ph v
  = (inl tt, with_mem v (store (mem v) (seg_va ph) (fread file (p_offset ph) (Z.to_nat (p_filesz ph))))).
Proof.
  intros Hs Hl. destruct Hs as [S1 S2 S3 S4 [S5 S6]]. unfold fill_segment. destruct (Z.eqb_spec (p_filesz ph) 0) as [-> |H0].
  - unfold fread. cbn [take]. unfold mret, op_ret. f_equal. by destruct v.
  - rewrite (at_guest v) by lia. unfold fseek. rewrite i32_small by lia. rewrite (proj2 (Z.ltb_ge (p_offset ph) 0)) by lia.
    by rewrite fread_length_at, Nat.eqb_refl by lia.
Qed.

Lemma load_segment_spec (v : Machine) (f : Flat) (T : gmap Z nat) (ph : Phdr) :
  models v f T -> seg_ok ph -> limit <= table_arena_base v -> needed (seg_pages ph) (seg_beg ph) false <= room v ->
  exists v' T', load_segment file bias ph v = (inl (mkSeg (seg_beg ph) (seg_end ph) (p_flags ph)), v')
    /\ models v' (ident (seg_pages ph) (seg_beg ph / 4096) true (seg_exec ph) f) T'
    /\ room v - needed (seg_pages ph) (seg_beg ph) false <= room v' /\ ram_bytes v' = ram_bytes v
    /\ forall a, 4096 <= a < table_arena_base v ->
         peek (mem v') a = if decide (seg_beg ph <= a < seg_end ph) then seg_byte ph a else peek (mem v) a.
Proof.
  intros HM Hs Hl Hr. destruct (seg_range ph Hs) as (Lp & Hb & He & Hem & Hp). pose proof Hs as [S1 S2 S3 S4 [S5 S6]].
  destruct (map_loop_fresh true (seg_exec ph) (seg_pages ph) (seg_beg ph) v f T false HM Lp) as (v1 & T1 & E1 & M1 & R1 & B1 & P1);
    [lia|done|done|]. change kGuestFloor with 0x200000 in *.
  assert (Ar := arena_low v1 T1 (m_tables _ _ _ M1)). assert (Ea := arena_same v v1 B1).
  unfold load_segment, mbind, op_bind. fold (seg_va ph).
  rewrite (u64_small (seg_va ph)) by lia. rewrite (u64_small (seg_va ph + p_memsz ph)) by lia.
  change (Z.land (u64 (seg_va ph + p_memsz ph + kPageMask)) (u64 (Z.lnot kPageMask))) with (page_up (seg_va ph + p_memsz ph)).
  rewrite up_eq, down_eq by lia. fold (seg_beg ph) (seg_end ph). rewrite (u64_small (seg_end ph - seg_beg ph)) by lia.
  unfold or_else. rewrite map_pages_eq by (done || lia || (revert Hem; destruct Lp as [Lp _]; revert Lp; Z.div_mod_to_equations; lia)).
  fold (seg_pages ph) (seg_exec ph). rewrite E1.
  unfold put_at. rewrite (at_guest v1) by (change kGuestFloor with 0x200000; lia). set (v2 := with_mem v1 _).
  rewrite (fill_segment_eq v2 ph) by (done || (change (ram_bytes v2) with (ram_bytes v1); lia)).
  set (got := fread file (p_offset ph) (Z.to_nat (p_filesz ph))). set (v3 := with_mem v2 _). exists v3, T1. split; [done|].
  assert (Hg : length got = Z.to_nat (p_filesz ph)) by (apply fread_length_at; lia).
  assert (M2 : models v2 (ident (seg_pages ph) (seg_beg ph / 4096) true (seg_exec ph) f) T1).
  { apply models_store; [done|apply zeros_bytes|lia|rewrite zeros_length by lia; lia]. }
  split; [apply models_store; [done|apply fread_bytes|lia|change (table_arena_base v2) with (table_arena_base v1); rewrite Hg; lia]|].
  split; [exact R1|]. split; [exact B1|]. intros a Ha. rewrite <- (P1 a Ha). unfold v3, v2. cbn [with_mem mem].
  rewrite peek_store, Hg, Z2Nat.id by lia. unfold seg_byte. destruct (decide (seg_va ph <= a < seg_va ph + p_filesz ph)).
  - rewrite decide_True by lia. unfold got. rewrite fread_at by lia. f_equal. lia.
  - destruct (decide (seg_beg ph <= a < seg_end ph)); [by rewrite peek_zeroed by lia|].
    by rewrite peek_store, zeros_length, decide_False by lia.
Qed.

(** ** All segments *)

Definition covers (ph : Phdr) (k : Z) : Prop := seg_beg ph / 4096 <= k < seg_end ph / 4096.
Definition apart (p q : Phdr) : Prop := seg_end p <= seg_beg q \/ seg_end q <= seg_beg p.

(** What loading has made of the map and of memory: the segments in [hot]
    are still writable, those in [cold] have their protection. *)
Record loaded (v0 : Machine) (f0 : Flat) (hot cold : list Phdr) (v : Machine) (f : Flat) : Prop := {
  ld_bytes : ram_bytes v = ram_bytes v0;
  ld_hot : forall ph k, ph ∈ hot -> covers ph k -> f !! k = Some (k * 4096, true, seg_exec ph);
  ld_cold : forall ph k, ph ∈ cold -> covers ph k -> f !! k = Some (k * 4096, seg_writable ph, seg_exec ph);
  ld_out : forall k, (forall ph, ph ∈ hot ++ cold -> ~ covers ph k) -> f !! k = f0 !! k;
  ld_mem : forall ph a, ph ∈ hot ++ cold -> seg_beg ph <= a < seg_end ph -> peek (mem v) a = seg_byte ph a;
  ld_same : forall a, 4096 <= a < table_arena_base v0 -> (forall ph, ph ∈ hot ++ cold -> ~ (seg_beg ph <= a < seg_end ph)) ->
    peek (mem v) a = peek (mem v0) a
}.

Lemma covers_apart (p q : Phdr) (k : Z) : seg_ok p -> seg_ok q -> apart p q -> covers p k -> ~ covers q k.
Proof.
  intros Hp Hq Ha. destruct (seg_range p Hp) as ([P1 _] & _ & _ & P2 & _), (seg_range q Hq) as ([Q1 _] & _ & _ & Q2 & _).
  unfold covers. revert P1 P2 Q1 Q2. destruct Ha; Z.div_mod_to_equations; lia.
Qed.

Lemma covers_run (ph : Phdr) (k : Z) :
  seg_ok ph -> covers ph k <-> seg_beg ph / 4096 <= k < seg_beg ph / 4096 + Z.of_nat (seg_pages ph).
Proof.
  intros Hp. destruct (seg_range ph Hp) as ([P1 _] & _ & _ & P2 & P3). unfold covers. revert P1 P2. Z.div_mod_to_equations. lia.
Qed.

Lemma loaded_step (v0 v v' : Machine) (f0 f : Flat) (T T' : gmap Z nat) (done_ : list Phdr) (ph : Phdr) :
  loaded v0 f0 done_ [] v f -> tables T v -> limit <= table_arena_base v -> Forall seg_ok done_ -> seg_ok ph -> (forall q, q ∈ done_ -> apart q ph) ->
  ram_bytes v' = ram_bytes v ->
  (forall a, 4096 <= a < table_arena_base v ->
     peek (mem v') a = if decide (seg_beg ph <= a < seg_end ph) then seg_byte ph a else peek (mem v) a) ->
  loaded v0 f0 (done_ ++ [ph]) [] v' (ident (seg_pages ph) (seg_beg ph / 4096) true (seg_exec ph) f).
Proof.
  intros [L1 L2 L3 L4 L5 L6] HT Hl Hd Hp Ha B P. rewrite Forall_forall in Hd.
  assert (Ear : table_arena_base v = table_arena_base v0) by by apply arena_same.
  assert (Hlow : forall q, seg_ok q -> 4096 <= seg_beg q /\ seg_end q <= table_arena_base v).
  { intros q Hq. destruct (seg_range q Hq) as (_ & ? & ? & _). change kGuestFloor with 0x200000 in *. lia. }
  constructor; rewrite ?app_nil_r in *.
  - congruence.
  - intros q k [Hq|Hq%list_elem_of_singleton]%elem_of_app Hc; rewrite ident_lookup.
    + rewrite decide_False; [by apply L2|]. rewrite <- covers_run by done. eapply covers_apart; [by apply Hd|done|by apply Ha|done].
    + subst q. by rewrite decide_True by by apply covers_run.
  - by intros q k Hq%elem_of_nil.
  - intros k Hk. rewrite ident_lookup, decide_False; [apply L4; intros q Hq; apply Hk, elem_of_app; by left|].
    rewrite <- covers_run by done. apply Hk, elem_of_app. right. by apply list_elem_of_singleton.
  - intros q a [Hq|Hq%list_elem_of_singleton]%elem_of_app Hr.
    + pose proof (Hlow q (Hd q Hq)). rewrite P, decide_False by (try (destruct (Ha q Hq)); lia). by apply L5.
    + subst q. pose proof (Hlow ph Hp). by rewrite P, decide_True by lia.
  - intros a Har Hno. rewrite P, decide_False; [|apply Hno, elem_of_app; right; by apply list_elem_of_singleton|by rewrite Ear].
    apply L6; [done|]. intros q Hq. apply Hno, elem_of_app. by left.
Qed.

Definition is_load (ph : Phdr) : bool := p_type ph =? pt_load.
Definition loads (phs : list Phdr) : list Phdr := List.filter is_load phs.
Definition tables_for (phs : list Phdr) : Z := foldr (fun ph c => needed (seg_pages ph) (seg_beg ph) false + c) 0 phs.
Definition seg_of (ph : Phdr) : Segment := mkSeg (seg_beg ph) (seg_end ph) (p_flags ph).

Fixpoint all_apart (phs : list Phdr) : Prop :=
  match phs with
  | [] => True
  | p :: phs' => (forall q, q ∈ phs' -> apart p q) /\ all_apart phs'
  end.

Lemma needed_nonneg (n : nat) (a : Z) (nr : bool) : 0 <= needed n a nr.
Proof.
  unfold needed. destruct n; [lia|]. assert (a / 2 ^ 21 <= (a + Z.of_nat (S n) * 4096 - 1) / 2 ^ 21) by (apply Z.div_le_mono; lia). destruct nr; lia.
Qed.

Lemma tables_for_nonneg (phs : list Phdr) : 0 <= tables_for phs.
Proof. unfold tables_for. induction phs as [|ph phs IH]; cbn [foldr]; [lia|]. pose proof (needed_nonneg (seg_pages ph) (seg_beg ph) false). lia. Qed.

Lemma load_loop_spec (eh : Ehdr) (v0 : Machine) (f0 : Flat) (phs : list Phdr) : forall i st top segs done_ v f T,
  (forall j ph, phs !! j = Some ph -> phdr_read file eh (i + Z.of_nat j) = inl ph) ->
  Forall seg_ok (done_ ++ loads phs) -> (forall q p, q ∈ done_ -> p ∈ loads phs -> apart q p) -> all_apart (loads phs) ->
  limit <= table_arena_base v -> tables_for (loads phs) <= room v ->
  models v f T -> loaded v0 f0 done_ [] v f ->
  exists v' f' T', load_loop (length phs) i file eh bias st top segs v
      = (inl ((fold_left (fun st ph => find_phdr eh bias ph st) phs st).1,
              fold_left (fun t ph => Z.max t (seg_end ph)) (loads phs) top, segs ++ map seg_of (loads phs)), v')
    /\ models v' f' T' /\ loaded v0 f0 (done_ ++ loads phs) [] v' f' /\ room v - tables_for (loads phs) <= room v'.
Proof.
  induction phs as [|ph phs IH]; intros i st top segs done_ v f T Hrd Hok Hda Hap Hl Hr HM HL; cbn [length load_loop].
  { exists v, f, T. cbn. rewrite !app_nil_r. split; [done|]. split; [done|]. split; [done|lia]. }
  unfold lift, mbind, op_bind. pose proof (Hrd 0%nat ph eq_refl) as E0. rewrite Z.add_0_r in E0. rewrite E0. cbn [mret op_ret fold_left].
  assert (Hrd' : forall j q, phs !! j = Some q -> phdr_read file eh (i + 1 + Z.of_nat j) = inl q).
  { intros j q Hj. rewrite <- (Hrd (S j) q Hj). f_equal. lia. }
  unfold loads in *. cbn [List.filter] in *. fold (is_load ph). unfold mret, op_ret. destruct (is_load ph) eqn:El; cbn [negb].
  2: { by apply (IH (i + 1) _ top segs done_ v f T). }
  fold (loads phs) in *. cbn [tables_for foldr] in Hr. fold (tables_for (loads phs)) in Hr. pose proof (tables_for_nonneg (loads phs)).
  pose proof Hok as Hok'. rewrite Forall_app, Forall_cons in Hok'. destruct Hok' as (Hd & Hp & _). destruct Hap as [Hap1 Hap2].
  destruct (load_segment_spec v f T ph HM Hp Hl ltac:(lia)) as (v1 & T1 & E1 & M1 & R1 & B1 & P1). rewrite E1.
  assert (HL1 := loaded_step v0 v v1 f0 f T T1 done_ ph HL (m_tables _ _ _ HM) Hl Hd Hp (fun q Hq => Hda q ph Hq (list_elem_of_here _ _)) B1 P1).
  destruct (IH (i + 1) (find_phdr eh bias ph st) (Z.max top (seg_end ph)) (segs ++ [seg_of ph]) (done_ ++ [ph]) v1
    (ident (seg_pages ph) (seg_beg ph / 4096) true (seg_exec ph) f) T1)
    as (v' & f' & T' & E & M' & L' & R'); try done.
  - by rewrite <- app_assoc.
  - intros q p Hq Hin. apply elem_of_app in Hq as [Hq| ->%list_elem_of_singleton]; [apply Hda; [done|by right]|by apply Hap1].
  - by rewrite (arena_same v v1 B1).
  - lia.
  - exists v', f', T'. cbn [end_ seg_of]. fold (seg_of ph). rewrite E. cbn [map fold_left tables_for foldr]. fold (tables_for (loads phs)).
    rewrite <- !app_assoc in *. split; [done|]. split; [done|]. split; [done|lia].
Qed.

Lemma seg_run (ph : Phdr) (w x : bool) (v : Machine) :
  seg_ok ph -> map_pages (seg_beg ph) (u64 (seg_end ph - seg_beg ph)) w x v = map_loop (seg_pages ph) (seg_beg ph) w x v.
Proof.
  intros Hp. destruct (seg_range ph Hp) as (Lp & P1 & P2 & P3 & P4). destruct Hlimit as [_ Hl]. destruct Hp as [_ _ ? _ _].
  change kGuestFloor with 0x200000 in *. rewrite u64_small by lia. apply map_pages_eq; [done|lia| |lia].
  destruct Lp as [Lp _]. revert Lp P3. Z.div_mod_to_equations. lia.
Qed.

(** A segment gets its protection. *)
Lemma protect_step (v0 v : Machine) (f0 f : Flat) (T : gmap Z nat) (hot cold : list Phdr) (ph : Phdr) :
  loaded v0 f0 (ph :: hot) cold v f -> models v f T -> seg_ok ph -> Forall seg_ok (hot ++ cold) ->
  (forall q, q ∈ hot ++ cold -> apart ph q) -> seg_writable ph = false -> limit <= table_arena_base v ->
  exists v' f', map_pages (seg_beg ph) (u64 (seg_end ph - seg_beg ph)) false (seg_exec ph) v = (inl tt, v')
    /\ models v' f' T /\ loaded v0 f0 hot (cold ++ [ph]) v' f' /\ room v' = room v /\ ram_bytes v' = ram_bytes v.
Proof.
  intros [L1 L2 L3 L4 L5 L6] HM Hp Hok Hap Hw Hl. destruct (seg_range ph Hp) as (Lp & P1 & P2 & P3 & P4). destruct Hlimit as [_ Hl'].
  rewrite Forall_forall in Hok. assert (Ear : table_arena_base v = table_arena_base v0) by by apply arena_same.
  destruct (map_loop_again false (seg_exec ph) (seg_pages ph) (seg_beg ph) v f T HM Lp) as (v' & E & M & R & B & P); [lia| |].
  { intros k Hk%covers_run; [|done]. rewrite (L2 ph k) by (done || apply list_elem_of_here). done. }
  exists v', (ident (seg_pages ph) (seg_beg ph / 4096) false (seg_exec ph) f). rewrite seg_run by done. split; [done|]. split; [done|].
  split; [|done]. assert (Hother : forall q k, q ∈ hot ++ cold -> covers q k -> ~ covers ph k).
  { intros q k Hq Hc. eapply covers_apart; [by apply Hok|done| |done]. destruct (Hap q Hq); unfold apart; tauto. }
  assert (Hsame : forall q k, q ∈ hot ++ cold -> covers q k -> ident (seg_pages ph) (seg_beg ph / 4096) false (seg_exec ph) f !! k = f !! k).
  { intros q k Hq Hc. rewrite ident_lookup, decide_False; [done|]. rewrite <- covers_run by done. by eapply Hother. }
  assert (Hperm : forall q, q ∈ hot ++ cold ++ [ph] <-> q ∈ (ph :: hot) ++ cold).
  { intros q. set_solver. }
  assert (Hmem : forall q a, q ∈ hot ++ cold ++ [ph] -> seg_beg q <= a < seg_end q -> 4096 <= a < table_arena_base v).
  { intros q a Hq Ha. assert (Hs : seg_ok q). { rewrite app_assoc in Hq. apply elem_of_app in Hq as [?| ->%list_elem_of_singleton]; [by apply Hok|done]. }
    destruct (seg_range q Hs) as (_ & ? & ? & _). change kGuestFloor with 0x200000 in *. lia. }
  constructor.
  - congruence.
  - intros q k Hq Hc. rewrite (Hsame q) by (done || apply elem_of_app; by left). apply L2; [by right|done].
  - intros q k [Hq|Hq%list_elem_of_singleton]%elem_of_app Hc.
    + rewrite (Hsame q) by (done || apply elem_of_app; by right). by apply L3.
    + subst q. rewrite Hw, ident_lookup, decide_True; [done|]. by apply covers_run.
  - intros k Hk. rewrite ident_lookup, decide_False.
    + apply L4. intros q Hq. by apply Hk, Hperm.
    + rewrite <- covers_run by done. apply Hk. rewrite !elem_of_app, list_elem_of_singleton. tauto.
  - intros q a Hq Ha. rewrite P by by eapply Hmem. apply L5; [by apply Hperm|done].
  - intros a Ha Hno. rewrite P by by rewrite Ear. apply L6; [done|]. intros q Hq. by apply Hno, Hperm.
Qed.

Lemma cool (v0 v : Machine) (f0 f : Flat) (hot cold : list Phdr) (ph : Phdr) :
  loaded v0 f0 (ph :: hot) cold v f -> seg_writable ph = true -> loaded v0 f0 hot (cold ++ [ph]) v f.
Proof.
  intros [L1 L2 L3 L4 L5 L6] Hw. assert (Hperm : forall q, q ∈ hot ++ cold ++ [ph] <-> q ∈ (ph :: hot) ++ cold).
  { intros q. set_solver. }
  constructor; [done|by intros; apply L2; [right|]| | | |].
  - intros q k [Hq|Hq%list_elem_of_singleton]%elem_of_app Hc; [by apply L3|]. subst q. rewrite Hw. apply L2; [apply list_elem_of_here|done].
  - intros k Hk. apply L4. intros q Hq. by apply Hk, Hperm.
  - intros q a Hq. by apply L5, Hperm.
  - intros a Ha Hno. apply L6; [done|]. intros q Hq. by apply Hno, Hperm.
Qed.

Lemma protect_loop_spec (v0 : Machine) (f0 : Flat) (T : gmap Z nat) (hot : list Phdr) : forall cold v f,
  loaded v0 f0 hot cold v f -> models v f T -> Forall seg_ok (hot ++ cold) -> all_apart hot ->
  (forall p q, p ∈ hot -> q ∈ cold -> apart p q) -> limit <= table_arena_base v ->
  exists v' f', protect_loop (map seg_of hot) v = (inl tt, v') /\ models v' f' T /\ loaded v0 f0 [] (cold ++ hot) v' f' /\ room v' = room v.
Proof.
  induction hot as [|ph hot IH]; intros cold v f HL HM Hok Hap Hac Hl; cbn [map protect_loop].
  { exists v, f. rewrite app_nil_r. done. }
  cbn [app] in Hok. apply Forall_cons in Hok as [Hp Hok]. destruct Hap as [Hap1 Hap2].
  assert (Hok' : Forall seg_ok (hot ++ cold ++ [ph])) by (rewrite Forall_app in *; rewrite Forall_app, Forall_singleton; tauto).
  assert (Hac' : forall p q, p ∈ hot -> q ∈ cold ++ [ph] -> apart p q).
  { intros p q Hin [Hq| ->%list_elem_of_singleton]%elem_of_app; [by apply Hac; [right|]|]. destruct (Hap1 p Hin); unfold apart; tauto. }
  cbn [seg_of sflags begin end_]. fold (seg_writable ph) (seg_exec ph). unfold mbind, op_bind, or_else. destruct (seg_writable ph) eqn:Ew.
  - cbn [mret op_ret]. unfold mret, op_ret. destruct (IH (cold ++ [ph]) v f) as (v' & f' & E & M & L & R); try done; [by apply cool|].
    exists v', f'. rewrite E. rewrite <- app_assoc in L. done.
  - destruct (protect_step v0 v f0 f T hot cold ph) as (v1 & f1 & E1 & M1 & L1 & R1 & B1); try done.
    { intros q [Hq|Hq]%elem_of_app; [by apply Hap1|apply Hac; [apply list_elem_of_here|done]]. }
    rewrite E1. destruct (IH (cold ++ [ph]) v1 f1) as (v' & f' & E & M & L & R); try done; [by rewrite (arena_same v v1 B1)|].
    exists v', f'. rewrite E. rewrite <- app_assoc in L. split; [done|]. split; [done|]. split; [done|congruence].
Qed.

End segment.

(** ** A whole program *)

(** The headers of a file the loader accepts. *)
Record elf_program (file : list Z) (eh : Ehdr) (phs : list Phdr) : Prop := {
  ep_size : (64 <= length file)%nat;
  ep_eh : ehdr_of (fread file 0 sizeof_Ehdr) = eh;
  ep_header : header_ok eh = true;
  ep_count : length phs = Z.to_nat (e_phnum eh);
  ep_phdrs : forall i ph, phs !! i = Some ph -> phdr_read file eh (Z.of_nat i) = inl ph
}.

Definition load_base (eh : Ehdr) (bias : Z) : Z := if e_type eh =? et_dyn then bias else 0.

(** Its segments can be placed below [limit]. *)
Record placeable (file : list Z) (base limit : Z) (phs : list Phdr) : Prop := {
  pl_bytes : Forall is_byte file;
  pl_limit : limit mod 4096 = 0 /\ limit <= 2 ^ 46;
  pl_segs : Forall (seg_ok file base limit) (loads phs);
  pl_apart : all_apart base (loads phs)
}.

(** The image the loader reports. *)
Definition image_of (eh : Ehdr) (base : Z) (phs : list Phdr) : Image :=
  mkImage (u64 (base + e_entry eh))
    (fold_left (fun st ph => find_phdr eh base ph st) phs (u64 (base + e_phoff eh), false)).1 (e_phnum eh) (e_phentsize eh)
    (fold_left (fun t ph => Z.max t (seg_end base ph)) (loads phs) 0) base (map (seg_of base) (loads phs)).

Lemma load_elf_spec (file : list Z) (eh : Ehdr) (phs : list Phdr) (bias limit : Z) (v : Machine) (f : Flat) (T : gmap Z nat) :
  elf_program file eh phs -> let base := load_base eh bias in placeable file base limit phs ->
  models v f T -> limit <= table_arena_base v -> tables_for base (loads phs) <= room v ->
  exists v' f' T', whp_load_elf (Some file) bias v = (inl (image_of eh base phs), v')
    /\ models v' f' T' /\ loaded file base v f [] (loads phs) v' f' /\ room v - tables_for base (loads phs) <= room v'.
Proof.
  intros [E1 E2 E3 E4 E5] base [Hb Hl Hs Ha] HM Har Hr. unfold whp_load_elf. rewrite ElfProbe.fread_length.
  change sizeof_Ehdr with 64%nat. rewrite (Nat.min_l 64) by done. cbn [Nat.eqb negb]. change 64%nat with sizeof_Ehdr. rewrite E2, E3. cbn [negb].
  fold (load_base eh bias). fold base. rewrite <- E4. unfold mbind, op_bind.
  destruct (load_loop_spec file base limit Hb Hl eh v f phs 0 (u64 (base + e_phoff eh), false) 0 [] [] v f T)
    as (v1 & f1 & T1 & -> & M1 & L1 & R1); try done.
  { by intros q p Hq%elem_of_nil. }
  { constructor; try done; by intros ph k Hq%elem_of_nil. }
  cbn [app] in *. destruct (protect_loop_spec file base limit Hb Hl v f T1 (loads phs) [] v1 f1) as (v' & f' & -> & M' & L' & R'); try done.
  { by rewrite app_nil_r. }
  { by intros p q _ Hq%elem_of_nil. }
  { by rewrite (arena_same v v1 (ld_bytes _ _ _ _ _ _ _ _ L1)). }
  exists v', f', T1. split; [done|]. split; [done|]. split; [done|lia].
Qed.

(** ** The stack *)

Definition fits (R : Z) : Prop := R mod 4096 = 0 /\ StartStack.min_ram <= R < 2 ^ 46.

Definition stack_bot (R : Z) : Z := R - 0xa10000.

Lemma stack_layout (R : Z) : fits R ->
  StartStack.stack_top R = R - 0x210000 /\ low_page (stack_bot R) /\ stack_bot R + 0x800000 = StartStack.stack_top R /\ 0x1000000 < stack_bot R.
Proof.
  intros [Hm Hr]. change StartStack.min_ram with 0x4000000 in Hr. unfold StartStack.stack_top, StartStack.usable_top, stack_bot.
  change kTableArenaSize with 0x200000. change StartStack.stack_guard with 0x10000. rewrite (proj2 (Z.ltb_lt 0x200000 R)) by lia.
  rewrite u64_small by lia. split; [lia|]. split; [|lia]. split; [revert Hm; Z.div_mod_to_equations; lia|lia].
Qed.

Lemma arena_of (v : Machine) : fits (ram_bytes v) -> table_arena_base v = ram_bytes v - 0x200000.
Proof.
  intros [_ Hr]. change StartStack.min_ram with 0x4000000 in Hr. unfold table_arena_base. change kTableArenaSize with 0x200000. zcases; lia.
Qed.

Lemma whp_build_finish (v : Machine) (img : Image) (argv envp : list (list Z)) (at_base : Z) (execfn rnd : list Z) :
  fits (ram_bytes v) ->
  StartStack.whp_build_stack v img argv envp at_base execfn (Some rnd)
  = match map_loop 2048 (stack_bot (ram_bytes v)) true false v with
    | (inr _, v) => (inr enomem, v)
    | (inl _, v1) =>
        let '(r, m) := StartStack.finish (at_ (ram v1)) (StartStack.stack_top (ram_bytes v)) (mem v1) argv envp execfn StartStack.x86_64_name rnd
          (fun p r e => StartStack.whp_pairs img at_base p r e ++ [(0, 0)]) in
        (r, with_mem v1 m)
    end.
Proof.
  intros Hf. destruct (stack_layout _ Hf) as (E1 & E2 & E3 & E4). destruct Hf as [_ Hr]. change StartStack.min_ram with 0x4000000 in Hr.
  unfold StartStack.whp_build_stack, StartStack.finish. change (_ + _ + kTableArenaSize) with 0xa10000.
  rewrite (proj2 (Z.leb_gt (ram_bytes v) 0xa10000)) by lia. change StartStack.stack_size with 0x800000.
  rewrite u64_small by lia. replace (StartStack.stack_top (ram_bytes v) - 0x800000) with (stack_bot (ram_bytes v)) by lia.
  rewrite map_pages_eq by (done || lia). change (Z.to_nat (0x800000 / 4096)) with 2048%nat. destruct (map_loop _ _ _ _ _) as [[u|e] v1]; [|done].
  destruct (StartStack.push_args _ _ _ _ _ _ _) as [[m1 sp1] [[[argp envpp] ea] pa]]. destruct (StartStack.push_bytes _ _ _ _) as [m2 sp2].
  by rewrite StartStack.whp_pairs_eq.
Qed.

(** What the strings and numbers of a start must be. *)
Record start_ok (img : Image) (argv envp : list (list Z)) (at_base : Z) (execfn rnd : list Z) (fuel : nat) : Prop := {
  so_argv : Forall StartStack.c_string argv;
  so_envp : Forall StartStack.c_string envp;
  so_exec : StartStack.c_string execfn;
  so_rnd : rnd <> [] /\ Forall is_byte rnd;
  so_img : StartStack.image_words img /\ StartStack.word_ok at_base;
  so_room : StartStack.room_for argv envp execfn StartStack.x86_64_name rnd 18 <= Z.min (Z.of_nat fuel) 0x800000
}.

Lemma whp_stack_spec (v : Machine) (f : Flat) (T : gmap Z nat) (img : Image) (argv envp : list (list Z)) (at_base : Z)
    (execfn rnd : list Z) (fuel : nat) :
  models v f T -> fits (ram_bytes v) -> 18 <= room v -> start_ok img argv envp at_base execfn rnd fuel ->
  exists v' T' sp pa ra ea, StartStack.whp_build_stack v img argv envp at_base execfn (Some rnd) = (inl sp, v')
    /\ models v' (ident 2048 (stack_bot (ram_bytes v) / 4096) true false f) T' /\ ram_bytes v' = ram_bytes v
    /\ sp mod 16 = 0 /\ stack_bot (ram_bytes v) <= sp
    /\ (forall a, 4096 <= a < stack_bot (ram_bytes v) -> peek (mem v') a = peek (mem v) a)
    /\ StartStack.read_startup fuel (mem v') sp
       = Some {| StartStack.s_argc := Z.of_nat (length argv); StartStack.s_argv := argv; StartStack.s_envp := envp;
                 StartStack.s_aux := StartStack.whp_pairs img at_base pa ra ea |}
    /\ StartStack.cstring fuel (mem v') ea = Some (StartStack.exec_name argv execfn) /\ load (mem v') ra (length rnd) = rnd.
Proof.
  intros HM Hf Hr [S1 S2 S3 [S4 S5] [S6 S7] S8]. destruct (stack_layout _ Hf) as (E1 & E2 & E3 & E4). assert (Ear := arena_of v Hf).
  set (R := ram_bytes v) in *. destruct (map_loop_fresh true false 2048 (stack_bot R) v f T false HM E2) as (v1 & T1 & El & M1 & R1 & B1 & P1).
  { destruct Hf. unfold stack_bot. lia. } { done. }
  { enough (needed 2048 (stack_bot R) false <= 18) by lia. unfold needed. change (Z.of_nat 2048 * 4096) with 0x800000.
    change (2 ^ 21) with 0x200000. Z.div_mod_to_equations. lia. }
  rewrite whp_build_finish by done. fold R. rewrite El. set (top := StartStack.stack_top R) in *. assert (Ear1 := arena_same v v1 B1).
  destruct (StartStack.finish_spec (at_ (ram v1)) (stack_bot R) top ltac:(lia) ltac:(destruct Hf; unfold stack_bot in *; lia)) with
    (m := mem v1) (argv := argv) (envp := envp) (execfn := execfn) (platform := StartStack.x86_64_name) (rnd := rnd)
    (ps := StartStack.whp_pairs img at_base) (pairs := 18%nat) (fuel := fuel)
    as (m' & sp & pa & ra & ea & E & G1 & G2 & G3 & G4 & G5 & G6 & G7); try done.
  - intros a n Ha Hn He. rewrite (at_guest v1); [by eexists|change kGuestFloor with 0x200000; lia|done|lia].
  - by apply StartStack.exec_name_ok.
  - apply StartStack.names_ok.
  - intros. by apply StartStack.whp_pairs_ok.
  - lia.
  - lia.
  - rewrite E. exists (with_mem v1 m'), T1, sp, pa, ra, ea. split; [done|].
    pose proof (StartStack.finish_ok (at_ (ram v1)) top (mem v1) argv envp execfn StartStack.x86_64_name rnd
      (fun p r e => StartStack.whp_pairs img at_base p r e ++ [(0, 0)]) (t_bytes _ _ (m_tables _ _ _ M1)) S1 S2
      (StartStack.exec_name_ok _ _ S1 S3) (proj2 StartStack.names_ok) S5) as Hby. rewrite E in Hby. cbn [snd] in Hby.
    destruct (t_next _ _ (m_tables _ _ _ M1)) as [_ Hn].
    destruct (outside_tables T1 v1 m' (m_tables _ _ _ M1) Hby) as (O1 & O2 & O3); [intros a Ha; apply G3; lia|].
    split; [constructor; [done|apply O2, (m_small _ _ _ M1)|intros a Ha; rewrite O3; by apply (m_seen _ _ _ M1)]|].
    split; [done|]. split; [done|]. split; [done|]. split; [|done]. intros a Ha. cbn [with_mem mem]. rewrite G3 by lia. apply P1. lia.
Qed.

(** ** Boot *)

Lemma adopt_keeps (mm : WinMm.Mm) (b e : Z) (p : Space.GuestProt) (an : bool) :
  WinMm.vm (WinMm.adopt b e p an mm) = WinMm.vm mm /\ WinMm.frames (WinMm.adopt b e p an mm) = WinMm.frames mm.
Proof. unfold WinMm.adopt. by destruct (e <=? b). Qed.

Lemma adopts_keep (segs : list Segment) : forall mm,
  WinMm.vm (fold_left adopt_segment segs mm) = WinMm.vm mm /\ WinMm.frames (fold_left adopt_segment segs mm) = WinMm.frames mm.
Proof.
  induction segs as [|sg segs IH]; intros mm; [done|]. cbn [fold_left]. destruct (IH (adopt_segment mm sg)) as [-> ->].
  unfold adopt_segment. apply adopt_keeps.
Qed.

Lemma find_phdr_word (eh : Ehdr) (base : Z) (phs : list Phdr) : forall st,
  StartStack.word_ok st.1 -> StartStack.word_ok (fold_left (fun st ph => find_phdr eh base ph st) phs st).1.
Proof.
  assert (U : forall z, StartStack.word_ok (u64 z)) by (intros z; by apply Z.mod_pos_bound).
  induction phs as [|ph phs IH]; intros [a h] Ha; [done|]. cbn [fold_left]. apply IH. unfold find_phdr.
  destruct (p_type ph =? pt_phdr); destruct (negb (p_type ph =? pt_load)); try done; try apply U; destruct (_ && _ && _); try apply U; done.
Qed.

Lemma elf_field_range (bs : list Z) (off n : nat) : Forall is_byte bs -> 0 <= ElfProbe.field bs off n < 256 ^ Z.of_nat n.
Proof.
  intros Hb. unfold ElfProbe.field. pose proof (le_val_range (take n (drop off bs)) ltac:(by apply Forall_take, Forall_drop)) as H.
  rewrite length_take in H. split; [lia|]. eapply Z.lt_le_trans; [apply H|]. apply Z.pow_le_mono_r; lia.
Qed.

Lemma image_of_words (file : list Z) (eh : Ehdr) (base : Z) (phs : list Phdr) :
  elf_program file eh phs -> Forall is_byte file -> StartStack.image_words (image_of eh base phs).
Proof.
  intros [_ <- _ _ _] Hb. set (bs := fread file 0 sizeof_Ehdr).
  assert (Hbs : Forall is_byte bs) by (unfold bs, fread; by apply Forall_take, Forall_drop).
  unfold StartStack.image_words, image_of. cbn [entry phdr_addr phnum phent e_phnum e_phentsize ehdr_of].
  pose proof (elf_field_range bs 56 2 Hbs). pose proof (elf_field_range bs 54 2 Hbs). change (256 ^ Z.of_nat 2) with 65536 in *.
  split; [by apply Z.mod_pos_bound|]. split; [apply find_phdr_word; by apply Z.mod_pos_bound|]. unfold StartStack.word_ok. lia.
Qed.

(** A static program that can be started on a machine of [mib] MiB. *)
Record startable (mib : Z) (file : list Z) (eh : Ehdr) (phs : list Phdr) (argv envp : list (list Z)) (program rnd : list Z) (fuel : nat) : Prop := {
  st_ram : fits (mib * 2 ^ 20);
  st_elf : elf_program file eh phs;
  st_static : whp_read_interp (Some file) = inl [];
  st_place : placeable file (load_base eh 0x400000) (stack_bot (mib * 2 ^ 20)) phs;
  st_tables : tables_for (load_base eh 0x400000) (loads phs) + 18 <= 512;
  st_args : start_ok (image_of eh (load_base eh 0x400000) phs) argv envp 0 program rnd fuel
}.

Lemma fresh_models (bytes : Z) : kGuestFloor < bytes <= 2 ^ 51 ->
  exists v T, create bytes = inl v /\ models v ∅ T /\ room v = 512 /\ ram_bytes v = page_up bytes.
Proof.
  intros Hb. destruct (create_spec bytes Hb) as (v & E & HT & HS & HR & Hn & HB & _). exists v, root_only. split; [done|].
  split; [|done]. constructor; [done|done|]. intros a _. rewrite Hn. done.
Qed.

(** Everything a start comes to. *)
Lemma boot_spec (mib : Z) (file : list Z) (eh : Ehdr) (phs : list Phdr) (hf : list Z -> option (list Z)) (argv envp : list (list Z))
    (program rnd : list Z) (fuel : nat) :
  startable mib file eh phs argv envp program rnd fuel ->
  let R := mib * 2 ^ 20 in let base := load_base eh 0x400000 in
  exists vf v0 f T v' T' sp pa ra ea st,
    models v0 f T /\ loaded file base vf ∅ [] (loads phs) v0 f /\ ram_bytes v0 = R
    /\ boot mib (Some file) hf argv envp program (Some rnd) = Some st
    /\ start_at st = u64 (base + e_entry eh) /\ start_sp st = sp /\ WinMm.vm (start_mm st) = v'
    /\ WinMm.frames (start_mm st)
       = Frames.reserve_range (Frames.init R kGuestFloor (R - 0x200000)) 0 (image_end (image_of eh base phs))
    /\ models v' (ident 2048 (stack_bot R / 4096) true false f) T' /\ ram_bytes v' = R
    /\ sp mod 16 = 0 /\ stack_bot R <= sp
    /\ (forall a, 4096 <= a < stack_bot R -> peek (mem v') a = peek (mem v0) a)
    /\ StartStack.read_startup fuel (mem v') sp
       = Some {| StartStack.s_argc := Z.of_nat (length argv); StartStack.s_argv := argv; StartStack.s_envp := envp;
                 StartStack.s_aux := StartStack.whp_pairs (image_of eh base phs) 0 pa ra ea |}.
Proof.
  intros [Hfit Helf Hst Hpl Htb Hargs] R base. pose proof Hfit as [Hm Hr]. fold R in Hm, Hr. change StartStack.min_ram with 0x4000000 in Hr.
  destruct (fresh_models R) as (v1 & T1 & Ec & M1 & R1 & B1); [change kGuestFloor with 0x200000; lia|].
  assert (Eup : page_up R = R) by (rewrite up_eq by lia; revert Hm; Z.div_mod_to_equations; lia). rewrite Eup in B1.
  assert (Far : table_arena_base v1 = R - 0x200000) by (rewrite arena_of; rewrite B1; done).
  fold R base in Hpl, Htb, Hargs. destruct (load_elf_spec file eh phs 0x400000 (stack_bot R) v1 ∅ T1 Helf Hpl M1) as (v2 & f & T2 & El & M2 & L2 & R2).
  { rewrite Far. unfold stack_bot. lia. } { fold base. lia. }
  fold base in El, L2, R2. assert (B2 : ram_bytes v2 = R) by (rewrite (ld_bytes _ _ _ _ _ _ _ _ L2); done).
  destruct (whp_stack_spec v2 f T2 (image_of eh base phs) argv envp 0 program rnd fuel M2) as (v3 & T3 & sp & pa & ra & ea & Es & G1 & G2 & G3 & G4 & G5 & G6 & _).
  { by rewrite B2. } { lia. } { done. }
  rewrite B2 in *. unfold boot. rewrite Z.shiftl_mul_pow2 by lia. fold R. change StartStack.min_ram with 0x4000000.
  rewrite (proj2 (Z.ltb_ge R 0x4000000)), Ec by lia. change (StartStack.pie_base R) with 0x400000. rewrite El, Hst. unfold boot_with.
  destruct (adopts_keep (segments (image_of eh base phs)) (WinMm.init v2 (image_end (image_of eh base phs)) (StartStack.mmap_top R))) as [Ev Ef].
  rewrite Ev. change (WinMm.vm (WinMm.init v2 _ _)) with v2. rewrite Es.
  eexists v1, v2, f, T2, v3, T3, sp, pa, ra, ea, _. split; [done|]. split; [done|]. split; [done|]. split; [reflexivity|].
  split; [done|]. split; [done|]. cbn [start_mm]. destruct (adopt_keeps (WinMm.with_vm (fold_left adopt_segment (segments (image_of eh base phs))
    (WinMm.init v2 (image_end (image_of eh base phs)) (StartStack.mmap_top R))) v3) (u64 (StartStack.stack_top R - StartStack.stack_size))
    (StartStack.stack_top R) (Z.lor Space.prot_read Space.prot_write) true) as [-> ->].
  cbn [WinMm.with_vm WinMm.vm WinMm.frames]. rewrite Ef. cbn [WinMm.init WinMm.frames]. rewrite arena_of by by rewrite B2. rewrite B2. done.
Qed.

(** The image ends below the stack. *)
Lemma image_below (file : list Z) (base limit : Z) (phs : list Phdr) :
  limit mod 4096 = 0 /\ limit <= 2 ^ 46 -> Forall (seg_ok file base limit) (loads phs) -> forall eh,
  0 <= limit -> 0 <= image_end (image_of eh base phs) <= limit.
Proof.
  intros Hl Hs eh H0. unfold image_of. cbn [image_end].
  enough (H : forall t, 0 <= t <= limit -> 0 <= fold_left (fun t ph => Z.max t (seg_end base ph)) (loads phs) t <= limit) by (apply H; lia).
  induction Hs as [|ph l Hp _ IH]; intros t Ht; [done|]. cbn [fold_left]. apply IH. destruct (seg_range file base limit Hl ph Hp) as (_ & _ & ? & _). lia.
Qed.

Lemma stack_frame_free (R e a : Z) :
  fits R -> 0 <= e <= stack_bot R -> stack_bot R <= a < StartStack.stack_top R ->
  Frames.test (Frames.reserve_range (Frames.init R kGuestFloor (R - 0x200000)) 0 e) (a / 4096) = false.
Proof.
  intros Hf He Ha. destruct (stack_layout R Hf) as (F1 & [F2 F3] & F4 & F5). destruct Hf as [Hm Hr]. change StartStack.min_ram with 0x4000000 in Hr.
  destruct (Frames.init_spec R kGuestFloor (R - 0x200000)) as (W & P & Q); [lia|done|lia|].
  destruct (Frames.reserve_spec _ 0 e W) as (_ & _ & Q'); [done|unfold stack_bot in *; lia|].
  assert (Hq : 0 <= a / 4096 < R / 4096) by (revert Hm; unfold stack_bot in *; Z.div_mod_to_equations; lia).
  rewrite Q', Q by (done || unfold Frames.in_range; by rewrite P). change kGuestFloor with 0x200000.
  rewrite !bool_decide_eq_false_2; [done|..]; revert Hm F2; unfold stack_bot in *; Z.div_mod_to_equations; lia.
Qed.

(** ** Memory management of a loaded program *)

Lemma image_ends (file : list Z) (base limit : Z) (l : list Phdr) :
  (limit mod 4096 = 0 /\ limit <= 2 ^ 46) -> Forall (seg_ok file base limit) l -> forall t, 0 <= t ->
  let e := fold_left (fun t ph => Z.max t (seg_end base ph)) l t in
  t <= e /\ (t <= limit -> e <= limit) /\ forall ph, ph ∈ l -> seg_end base ph <= e.
Proof.
  intros Hl Hs. induction Hs as [|ph l Hp _ IH]; intros t Ht; cbn [fold_left].
  - split; [done|]. split; [done|]. by intros ph ?%elem_of_nil.
  - destruct (seg_range file base limit Hl ph Hp) as (_ & _ & ? & _). destruct (IH (Z.max t (seg_end base ph)) ltac:(lia)) as (A & B & C).
    split; [lia|]. split; [intros; apply B; lia|]. intros q [-> |Hq]%elem_of_cons; [lia|by apply C].
Qed.

Lemma adopts_sound (segs : list Segment) : Forall (fun sg => 0 <= begin sg < 2 ^ 46 /\ end_ sg <= 2 ^ 46) segs -> forall mm,
  WinMm.sound mm -> WinMm.sound (fold_left adopt_segment segs mm).
Proof.
  induction 1 as [|sg segs [Hb He] _ IH]; intros mm Hm; [done|]. cbn [fold_left]. apply IH. by apply WinMm.adopt_sound.
Qed.

Lemma mmap_top_range (R : Z) : fits R -> 0 <= StartStack.mmap_top R <= 2 ^ 47.
Proof.
  intros Hf. destruct (stack_layout R Hf) as (F1 & _ & F4 & F5). unfold StartStack.mmap_top. rewrite F1 in *.
  change StartStack.stack_size with 0x800000. change (Z.shiftl 1 20) with 0x100000. destruct Hf as [_ Hr].
  unfold stack_bot in *. rewrite u64_small by lia.
  destruct (WinMm.down_small (R - 0x210000 - 0x800000 - 0x100000)) as (_ & H0 & _); [unfold is_u64; lia|].
  change (Z.land (R - 0x210000 - 0x800000 - 0x100000) StartStack.page_mask) with (page_down (R - 0x210000 - 0x800000 - 0x100000)). lia.
Qed.

Lemma loaded_sound (R : Z) (file : list Z) (eh : Ehdr) (phs : list Phdr) :
  fits R -> elf_program file eh phs -> let base := load_base eh (StartStack.pie_base R) in
  placeable file base (stack_bot R) phs -> tables_for base (loads phs) <= 512 -> loads phs <> [] ->
  exists v v', create R = inl v /\ whp_load_elf (Some file) (StartStack.pie_base R) v = (inl (image_of eh base phs), v')
    /\ WinMm.sound (fold_left adopt_segment (segments (image_of eh base phs))
          (WinMm.init v' (image_end (image_of eh base phs)) (StartStack.mmap_top R))).
Proof.
  intros Hfit Helf base Hpl Htb Hne. destruct (stack_layout R Hfit) as (F1 & [F2 F3] & F4 & F5).
  pose proof Hfit as [Hm Hr]. change StartStack.min_ram with 0x4000000 in Hr.
  destruct (fresh_models R) as (v1 & T1 & Ec & M1 & R1 & B1); [change kGuestFloor with 0x200000; lia|].
  assert (Eup : page_up R = R) by (rewrite up_eq by lia; revert Hm; Z.div_mod_to_equations; lia). rewrite Eup in B1.
  assert (Far : table_arena_base v1 = R - 0x200000) by (rewrite arena_of; rewrite B1; done).
  destruct (load_elf_spec file eh phs (StartStack.pie_base R) (stack_bot R) v1 ∅ T1 Helf Hpl M1) as (v2 & f & T2 & El & M2 & L2 & _).
  { rewrite Far. unfold stack_bot. lia. } { fold base. lia. }
  fold base in El, L2. destruct Hpl as [_ Hl Hs _]. fold base in Hs. exists v1, v2. split; [done|]. split; [done|].
  assert (B2 : ram_bytes v2 = R) by (rewrite (ld_bytes _ _ _ _ _ _ _ _ L2); done).
  destruct (image_ends file base (stack_bot R) (loads phs) Hl Hs 0 ltac:(lia)) as (A0 & A1 & A2). specialize (A1 ltac:(lia)).
  rewrite Forall_forall in Hs. assert (Hrng := fun ph Hin => seg_range file base (stack_bot R) Hl ph (Hs ph Hin)).
  change kGuestFloor with 0x200000 in *. apply adopts_sound.
  { unfold image_of. cbn [segments]. apply Forall_fmap, Forall_forall. intros ph Hin. destruct (Hrng ph Hin) as (_ & ? & ? & _). cbn. unfold stack_bot in *.
    destruct (Hs ph Hin). lia. }
  change (image_end (image_of eh base phs)) with (fold_left (fun t ph => Z.max t (seg_end base ph)) (loads phs) 0).
  set (e := fold_left _ _ _) in *. assert (He : 0x200000 <= e).
  { destruct (loads phs) as [|ph l] eqn:El'; [done|]. destruct (Hrng ph ltac:(by left)) as (_ & ? & ? & _). pose proof (A2 ph ltac:(by left)).
    destruct (Hs ph ltac:(by left)). lia. }
  apply (WinMm.init_sound v2 f T2); [done| |unfold stack_bot in *; lia|by apply mmap_top_range|].
  { rewrite arena_of by by rewrite B2. rewrite B2. change kGuestFloor with 0x200000. unfold stack_bot in *. lia. }
  intros n fr w x Hn. destruct (decide (Exists (fun ph => seg_beg base ph / 4096 <= n < seg_end base ph / 4096) (loads phs))) as [Hx|Hx].
  - apply Exists_exists in Hx as (ph & Hin & Hc). rewrite (ld_cold _ _ _ _ _ _ _ _ L2 ph n Hin Hc) in Hn. injection Hn as <- _ _.
    split; [done|]. destruct (Hrng ph Hin) as ([Q1 _] & ? & _ & Q5 & _). pose proof (A2 ph Hin). change kGuestFloor with 0x200000.
    revert Q1 Q5 Hc. Z.div_mod_to_equations. lia.
  - rewrite (ld_out _ _ _ _ _ _ _ _ L2), lookup_empty in Hn; [done|]. intros ph Hin Hc. apply Hx, Exists_exists. by exists ph.
Qed.

(** * Theorems *)

(** A well-formed program is loaded as its headers say: every address of
    a segment's pages is mapped, with the segment's own write permission,
    and reads as the file's byte or, past the file's part, as zero; every
    other address translates as before and keeps its byte. *)
Theorem loaded_image_reads (file : list Z) (eh : Ehdr) (phs : list Phdr) (bias limit : Z) (v : Machine) (f : Flat) (T : gmap Z nat) :
  elf_program file eh phs -> let base := load_base eh bias in placeable file base limit phs ->
  models v f T -> limit <= table_arena_base v -> tables_for base (loads phs) <= room v ->
  exists v', whp_load_elf (Some file) bias v = (inl (image_of eh base phs), v')
    /\ (forall ph a, ph ∈ loads phs -> seg_beg base ph <= a < seg_end base ph ->
          mmu v' a = Some {| gpa := a; writable := seg_writable ph; user := true; to_page_end := 4096 - a mod 4096 |}
          /\ peek (mem v') a = seg_byte file base ph a)
    /\ (forall a, is_u64 a -> (forall ph, ph ∈ loads phs -> ~ (seg_beg base ph <= a < seg_end base ph)) ->
          mmu v' a = mmu v a /\ (4096 <= a < table_arena_base v -> peek (mem v') a = peek (mem v) a)).
Proof.
  intros HP base HPl HM Har Hr. destruct (load_elf_spec file eh phs bias limit v f T HP HPl HM Har Hr) as (v' & f' & T' & E & M' & L & _).
  destruct HPl as [Hb Hl Hs Ha]. rewrite Forall_forall in Hs. exists v'. split; [exact E|]. destruct L as [L1 _ L3 L4 L5 L6]. fold base in L3, L4, L5, L6. cbn [app] in *. split.
  - intros ph a Hin Hr'. split; [|by apply L5]. destruct (seg_range file base limit Hl ph (Hs ph Hin)) as ([Q1 Q2] & Q3 & Q4 & Q5 & _).
    destruct Hl as [_ Hl]. change kGuestFloor with 0x200000 in *.
    rewrite (models_mmu v' f' T') by (done || unfold is_u64; lia). unfold flat_at. rewrite (L3 ph (a / 4096) Hin).
    + cbn. do 2 f_equal. Z.div_mod_to_equations. lia.
    + unfold covers. revert Q1 Q5. Z.div_mod_to_equations. lia.
  - intros a Hu Hno. split; [|intros; by apply L6]. rewrite (models_mmu v' f' T'), (models_mmu v f T) by done. unfold flat_at. rewrite L4; [done|].
    intros ph Hin Hc. apply (Hno ph Hin). destruct (seg_range file base limit Hl ph (Hs ph Hin)) as ([Q1 Q2] & _ & _ & Q5 & _).
    unfold covers in Hc. revert Hc Q1 Q5. Z.div_mod_to_equations. lia.
Qed.

(** C11. Booting a well-formed static program gives a guest that starts at
    the program's entry with an aligned stack pointer, whose image reads as
    the file says under the segments' protection, whose stack is mapped
    writable, and whose start-up code finds the arguments, the environment
    and the program's headers and entry point. *)
Theorem boot_starts_program (mib : Z) (file : list Z) (eh : Ehdr) (phs : list Phdr) (hf : list Z -> option (list Z)) (argv envp : list (list Z))
    (program rnd : list Z) (fuel : nat) :
  startable mib file eh phs argv envp program rnd fuel ->
  let base := load_base eh 0x400000 in
  exists st pa ra ea, boot mib (Some file) hf argv envp program (Some rnd) = Some st
    /\ start_at st = u64 (base + e_entry eh) /\ start_sp st mod 16 = 0
    /\ (forall ph a, ph ∈ loads phs -> seg_beg base ph <= a < seg_end base ph ->
          mmu (WinMm.vm (start_mm st)) a
          = Some {| gpa := a; writable := seg_writable ph; user := true; to_page_end := 4096 - a mod 4096 |}
          /\ peek (mem (WinMm.vm (start_mm st))) a = seg_byte file base ph a)
    /\ (forall a, stack_bot (mib * 2 ^ 20) <= a < StartStack.stack_top (mib * 2 ^ 20) ->
          mmu (WinMm.vm (start_mm st)) a = Some {| gpa := a; writable := true; user := true; to_page_end := 4096 - a mod 4096 |})
    /\ StartStack.read_startup fuel (mem (WinMm.vm (start_mm st))) (start_sp st)
       = Some {| StartStack.s_argc := Z.of_nat (length argv); StartStack.s_argv := argv; StartStack.s_envp := envp;
                 StartStack.s_aux := StartStack.whp_pairs (image_of eh base phs) 0 pa ra ea |}.
Proof.
  intros HS base. destruct (boot_spec mib file eh phs hf argv envp program rnd fuel HS)
    as (vf & v0 & f & T & v' & T' & sp & pa & ra & ea & st & M0 & L & B0 & E & E1 & E2 & E3 & E4 & M' & B' & G1 & G2 & G3 & G4).
  destruct HS as [Hfit _ _ [_ Hl Hs _] _ _]. destruct (stack_layout _ Hfit) as (F1 & [F2 F3] & F4 & F5). rewrite Forall_forall in Hs.
  set (R := mib * 2 ^ 20) in *. fold base in L, E1, E4, G4, Hs. exists st, pa, ra, ea. split; [done|]. split; [done|]. split; [by rewrite E2|].
  rewrite E2, E3. destruct L as [_ _ L3 _ L5 _]. cbn [app] in *. split; [|split; [|done]].
  - intros ph a Hin Ha. destruct (seg_range file base (stack_bot R) Hl ph (Hs ph Hin)) as ([Q1 Q2] & Q3 & Q4 & Q5 & _).
    change kGuestFloor with 0x200000 in *. split; [|rewrite G3 by lia; by apply L5].
    rewrite (models_mmu v' _ T') by (done || unfold is_u64; lia). unfold flat_at. rewrite ident_lookup, decide_False by (Z.div_mod_to_equations; lia).
    rewrite (L3 ph (a / 4096) Hin) by (unfold covers; revert Q1 Q5; Z.div_mod_to_equations; lia). cbn. do 2 f_equal. Z.div_mod_to_equations. lia.
  - intros a Ha. rewrite (models_mmu v' _ T') by (done || destruct Hfit; unfold is_u64; lia). unfold flat_at.
    rewrite ident_lookup, decide_True by (revert F2; Z.div_mod_to_equations; lia). cbn. do 2 f_equal. Z.div_mod_to_equations. lia.
Qed.

(** C10. Memory management of a loaded program, as main sets it up before it
    maps the startup stack: a well-formed static program is loaded on a fresh
    machine, [WinMm.init] reserves its frames and its segments are adopted.
    From there, whatever sequence of brk, mmap, munmap, mprotect and faults
    (ranges below 2^63, files that keep to the interface of reads) the guest
    drives, no frame is ever behind two addresses, none that is mapped is free
    for the next allocation, no page the guest can write shows a page table,
    and the areas stay sorted and disjoint.  The startup stack, whose frames main does
    not reserve, is what breaks this afterwards ([boot_leaves_stack_free]). *)
Theorem loaded_program_keeps_frames_apart (R : Z) (file : list Z) (eh : Ehdr) (phs : list Phdr) (cs : list WinMm.Call) :
  fits R -> elf_program file eh phs -> let base := load_base eh (StartStack.pie_base R) in
  placeable file base (stack_bot R) phs -> tables_for base (loads phs) <= 512 -> loads phs <> [] ->
  Forall WinMm.call_ok cs ->
  exists v img v', create R = inl v /\ whp_load_elf (Some file) (StartStack.pie_base R) v = (inl img, v')
    /\ let mm0 := fold_left adopt_segment (segments img) (WinMm.init v' (image_end img) (StartStack.mmap_top R)) in
       let mm := fold_left (fun m c => WinMm.do_call c m) cs mm0 in
       WinMm.sound mm /\ GuestView.guarded (WinMm.vm mm) /\ Space.wf (WinMm.space mm)
       /\ forall a b wa wb, is_u64 a -> is_u64 b -> mmu (WinMm.vm mm) a = Some wa -> mmu (WinMm.vm mm) b = Some wb ->
            gpa wa = gpa wb -> a = b.
Proof.
  intros Hfit Helf base Hpl Htb Hne Hcs.
  destruct (loaded_sound R file eh phs Hfit Helf Hpl Htb Hne) as (v & v' & Ec & El & HS).
  exists v, (image_of eh base phs), v'. split; [done|]. split; [done|]. cbv zeta. set (mm0 := fold_left adopt_segment _ _) in *.
  assert (HM := WinMm.calls_sound cs mm0 HS Hcs). split; [done|]. split; [by apply WinMm.sound_guarded|].
  split; [by destruct HM as (f & _ & [W _ _ _])|]. intros a b wa wb. by apply WinMm.sound_apart.
Qed.

(** C37. The frames of the startup stack are not reserved: after booting any
    such program that ends below the stack, every page of the mapped stack
    has a frame that the allocator holds free and may hand out, and zero,
    for another mapping. *)
Theorem boot_leaves_stack_free (mib : Z) (file : list Z) (eh : Ehdr) (phs : list Phdr) (hf : list Z -> option (list Z)) (argv envp : list (list Z))
    (program rnd : list Z) (fuel : nat) :
  startable mib file eh phs argv envp program rnd fuel ->
  exists st, boot mib (Some file) hf argv envp program (Some rnd) = Some st
    /\ (forall a, stack_bot (mib * 2 ^ 20) <= a < StartStack.stack_top (mib * 2 ^ 20) ->
          (exists w, mmu (WinMm.vm (start_mm st)) a = Some w /\ gpa w = a /\ writable w = true)
          /\ Frames.test (WinMm.frames (start_mm st)) (a / 4096) = false)
    /\ ~ WinMm.sound (start_mm st).
Proof.
  intros HS. destruct (boot_spec mib file eh phs hf argv envp program rnd fuel HS)
    as (vf & v0 & f & T & v' & T' & sp & pa & ra & ea & st & _ & _ & _ & E & _ & _ & E3 & E4 & M' & B' & _).
  destruct HS as [Hfit _ _ [_ Hl Hs _] _ _]. destruct (stack_layout _ Hfit) as (F1 & [F2 F3] & F4 & F5).
  set (R := mib * 2 ^ 20) in *. exists st. split; [done|].
  assert (Hfree : forall a, stack_bot R <= a < StartStack.stack_top R ->
    (exists w, mmu (WinMm.vm (start_mm st)) a = Some w /\ gpa w = a /\ writable w = true)
    /\ Frames.test (WinMm.frames (start_mm st)) (a / 4096) = false).
  { intros a Ha. rewrite E3, E4. split; [|apply stack_frame_free; [done|apply (image_below file _ _ phs Hl Hs); lia|done]].
    rewrite (models_mmu v' _ T') by (done || destruct Hfit; unfold is_u64; lia). unfold flat_at.
    rewrite ident_lookup, decide_True by (revert F2; Z.div_mod_to_equations; lia). cbn. eexists. split; [done|]. cbn.
    split; [Z.div_mod_to_equations; lia|done]. }
  split; [done|]. intros (g & [[Tg Mg] _ _ _ Hmap _] & _). destruct (Hfree (stack_bot R) ltac:(lia)) as [(w & Ew & Eg & _) Ht].
  rewrite (models_mmu _ g Tg) in Ew by (done || unfold is_u64; lia). unfold flat_at in Ew.
  destruct (g !! (stack_bot R / 4096)) as [[[fr wr] x]|] eqn:Eq; [|done]. cbn in Ew. injection Ew as <-. cbn in Eg.
  destruct (Hmap _ fr wr x Eq) as (p & -> & _ & Hp). replace (stack_bot R / 4096) with p in Ht by (revert F2; Z.div_mod_to_equations; lia). congruence.
Qed.

(** * Witnesses: a program of one segment *)

Definition tiny_ehdr : list Z :=
  [0x7f; 0x45; 0x4c; 0x46; 2; 1; 1; 0; 0; 0; 0; 0; 0; 0; 0; 0] ++ le_bytes 2 2 ++ le_bytes 2 62 ++ le_bytes 4 1
  ++ le_bytes 8 0x400078 ++ le_bytes 8 64 ++ le_bytes 8 0 ++ le_bytes 4 0 ++ le_bytes 2 64 ++ le_bytes 2 56 ++ le_bytes 2 1
  ++ le_bytes 2 0 ++ le_bytes 2 0 ++ le_bytes 2 0.
Definition tiny_phdr : list Z :=
  le_bytes 4 1 ++ le_bytes 4 5 ++ le_bytes 8 0 ++ le_bytes 8 0x400000 ++ le_bytes 8 0x400000 ++ le_bytes 8 122 ++ le_bytes 8 300 ++ le_bytes 8 4096.
Definition tiny_elf : list Z := tiny_ehdr ++ tiny_phdr ++ [0x0f; 0x05].
Definition tiny_phs : list Phdr := [phdr_of tiny_phdr].

Lemma tiny_bytes : Forall is_byte tiny_elf.
Proof. unfold is_byte. eapply (bool_decide_unpack _). vm_compute. exact I. Qed.

Lemma tiny_program : elf_program tiny_elf (ehdr_of tiny_ehdr) tiny_phs.
Proof.
  constructor; [vm_compute; lia|reflexivity|reflexivity|reflexivity|].
  intros [|i] ph Hi; [|done]. injection Hi as <-. reflexivity.
Qed.

Lemma tiny_place (limit : Z) : limit mod 4096 = 0 /\ limit <= 2 ^ 46 -> 0x500000 <= limit -> placeable tiny_elf 0 limit tiny_phs.
Proof.
  intros Hl Hlo. constructor; [exact tiny_bytes|done| |by split; [intros q Hq%elem_of_nil|]].
  change (loads tiny_phs) with tiny_phs. apply Forall_singleton.
  assert (E1 : p_vaddr (phdr_of tiny_phdr) = 0x400000) by reflexivity. assert (E2 : p_memsz (phdr_of tiny_phdr) = 300) by reflexivity.
  assert (E3 : p_filesz (phdr_of tiny_phdr) = 122) by reflexivity. assert (E4 : p_offset (phdr_of tiny_phdr) = 0) by reflexivity.
  constructor; unfold seg_va; rewrite ?E1, ?E2, ?E3, ?E4; change kGuestFloor with 0x200000; [lia..|]. change (length tiny_elf) with 122%nat. lia.
Qed.

Lemma tiny_startable :
  startable 64 tiny_elf (ehdr_of tiny_ehdr) tiny_phs StartStack.sample_argv StartStack.sample_envp [47; 116] StartStack.sample_rnd 4096.
Proof.
  constructor; [by vm_compute|exact tiny_program|reflexivity|by apply tiny_place|by vm_compute|].
  constructor; [apply StartStack.sample_strings|apply StartStack.sample_strings| | | |by vm_compute].
  - unfold StartStack.c_string. rewrite !Forall_cons. repeat split; done || lia.
  - split; [done|]. unfold is_byte. eapply (bool_decide_unpack _). vm_compute. exact I.
  - split; [by repeat split|done].
Qed.

Lemma loaded_image_reads_witness :
  exists v v', create 0x4000000 = inl v /\ whp_load_elf (Some tiny_elf) 0x400000 v = (inl (image_of (ehdr_of tiny_ehdr) 0 tiny_phs), v')
    /\ peek (mem v') 0x400078 = 0x0f.
Proof.
  destruct (fresh_models 0x4000000) as (v & T & E & M & R & B); [done|].
  destruct (loaded_image_reads tiny_elf (ehdr_of tiny_ehdr) tiny_phs 0x400000 0x2000000 v ∅ T) as (v' & E' & H & _).
  - exact tiny_program.
  - apply tiny_place; [by split|done].
  - exact M.
  - unfold table_arena_base. rewrite B. vm_compute. done.
  - rewrite R. vm_compute. done.
  - exists v, v'. split; [exact E|]. split; [exact E'|].
    destruct (H (phdr_of tiny_phdr) 0x400078) as [_ Hb]; [apply list_elem_of_here|vm_compute; done|]. rewrite Hb. reflexivity.
Defined.

Lemma boot_starts_program_witness :
  exists st, boot 64 (Some tiny_elf) (fun _ => None) StartStack.sample_argv StartStack.sample_envp [47; 116] (Some StartStack.sample_rnd) = Some st
    /\ start_at st = 0x400078 /\ start_sp st mod 16 = 0.
Proof.
  destruct (boot_starts_program 64 tiny_elf (ehdr_of tiny_ehdr) tiny_phs (fun _ => None) StartStack.sample_argv StartStack.sample_envp
    [47; 116] StartStack.sample_rnd 4096 tiny_startable) as (st & pa & ra & ea & E & E1 & E2 & _).
  exists st. split; [exact E|]. split; [exact E1|exact E2].
Defined.

Lemma loaded_program_keeps_frames_apart_witness :
  exists v img v', create 0x4000000 = inl v /\ whp_load_elf (Some tiny_elf) 0x400000 v = (inl img, v')
    /\ WinMm.sound (fold_left (fun m c => WinMm.do_call c m)
         [WinMm.CBrk 0x405000; WinMm.CFault 0x402000; WinMm.CMmap 0 0x3000 3 0x22 None 0; WinMm.CMunmap 0x400000 0x1000]
         (fold_left adopt_segment (segments img) (WinMm.init v' (image_end img) (StartStack.mmap_top 0x4000000)))).
Proof.
  destruct (loaded_program_keeps_frames_apart 0x4000000 tiny_elf (ehdr_of tiny_ehdr) tiny_phs
    [WinMm.CBrk 0x405000; WinMm.CFault 0x402000; WinMm.CMmap 0 0x3000 3 0x22 None 0; WinMm.CMunmap 0x400000 0x1000])
    as (v & img & v' & E1 & E2 & H & _).
  - by vm_compute.
  - exact tiny_program.
  - apply tiny_place; [by vm_compute|unfold stack_bot; lia].
  - by vm_compute.
  - done.
  - repeat (apply Forall_cons; split); unfold WinMm.call_ok, WinMm.plain, is_u64; try lia; [split; [lia|discriminate]|constructor].
  - exists v, img, v'. exact (conj E1 (conj E2 H)).
Defined.

Lemma boot_leaves_stack_free_witness :
  exists st, boot 64 (Some tiny_elf) (fun _ => None) StartStack.sample_argv StartStack.sample_envp [47; 116] (Some StartStack.sample_rnd) = Some st
    /\ Frames.test (WinMm.frames (start_mm st)) (stack_bot (64 * 2 ^ 20) / 4096) = false.
Proof.
  assert (Hr : stack_bot (64 * 2 ^ 20) <= stack_bot (64 * 2 ^ 20) < StartStack.stack_top (64 * 2 ^ 20)) by (vm_compute; done).
  destruct (boot_leaves_stack_free 64 tiny_elf (ehdr_of tiny_ehdr) tiny_phs (fun _ => None) StartStack.sample_argv StartStack.sample_envp
    [47; 116] StartStack.sample_rnd 4096 tiny_startable) as (st & E & H & _).
  exists st. split; [exact E|]. exact (proj2 (H _ Hr)).
Defined.

End WinBoot.
