(* ===== verification/DarwinAbi.v ===== *)
(** The Linux/Darwin ABI boundary of the macOS backend: open flags, device
    numbers, [stat], [statx], record locks and error numbers
    ([runtime/darwin/darwin.hpp]), the [F_GETFL]/[F_SETFL] pair and the record
    locks of [do_fcntl] ([runtime/darwin/trap.hpp]), and the signal numbers
    and wait statuses of [runtime/darwin/proc.hpp].

    The values of Darwin's own constants are those of its headers; what the
    host answers about its devices is an argument. *)
From S2P Require Import Prelude Sysno Abi PageTables.

Module DarwinAbi.

Import Sysno Abi.
Import PageTables(bit, bit_lor, bit_testbit).

(** ** Open flags *)

Definition O_WRONLY : Z := 1.
Definition O_RDWR : Z := 2.
Definition O_ACCMODE : Z := 3.
Definition O_NONBLOCK : Z := 0x4.
Definition O_APPEND : Z := 0x8.
Definition O_NOFOLLOW : Z := 0x100.
Definition O_CREAT : Z := 0x200.
Definition O_TRUNC : Z := 0x400.
Definition O_EXCL : Z := 0x800.
Definition O_NOCTTY : Z := 0x20000.
Definition O_DIRECTORY : Z := 0x100000.
Definition O_CLOEXEC : Z := 0x1000000.

Definition with_flag (lf : Z) (f : OpenFlag) (d df : Z) : Z :=
  if open_has lf f then Z.lor df d else df.

Definition open_flags (lf : Z) : Z :=
  let acc := Z.land lf 3 in
  let df := if acc =? 0 then 0 else if acc =? 1 then O_WRONLY else O_RDWR in
  let df := with_flag lf o_creat O_CREAT df in
  let df := with_flag lf excl O_EXCL df in
  let df := with_flag lf noctty O_NOCTTY df in
  let df := with_flag lf trunc O_TRUNC df in
  let df := with_flag lf append O_APPEND df in
  let df := with_flag lf nonblock O_NONBLOCK df in
  let df := with_flag lf directory O_DIRECTORY df in
  let df := with_flag lf nofollow O_NOFOLLOW df in
  with_flag lf cloexec O_CLOEXEC df.

Definition open_flags_to_linux (df : Z) : Z :=
  let acc := Z.land df O_ACCMODE in
  let lf := if acc =? O_WRONLY then 1 else if acc =? O_RDWR then 2 else 0 in
  let lf := if Z.land df O_APPEND =? 0 then lf else Z.lor lf (open_bits append) in
  if Z.land df O_NONBLOCK =? 0 then lf else Z.lor lf (open_bits nonblock).

(** [F_SETFL]: what [do_fcntl] sets, from the flags the host reports. *)
Definition setfl (cur arg : Z) : Z :=
  let both := Z.lor O_APPEND O_NONBLOCK in
  Z.lor (Z.land cur (Z.lnot both)) (Z.land (open_flags arg) both).

(** ** Device numbers *)

Definition linux_makedev (maj min : Z) : Z :=
  Z.lor (Z.lor (Z.lor (Z.shiftl (Z.land maj 0xfffff000) 32) (Z.shiftl (Z.land maj 0xfff) 8))
               (Z.shiftl (Z.land min 0xffffff00) 12))
        (Z.land min 0xff).

(** [major] and [minor] of Darwin's 32-bit [dev_t]. *)
Definition major (d : Z) : Z := Z.land (Z.shiftr d 24) 0xff.
Definition minor (d : Z) : Z := Z.land d 0xffffff.

(** The device numbers the host gives the standard nodes, and the major
    number of its terminals. *)
Record Devices := { rdev_of : str -> option Z; pts_major : option Z }.

Definition dev_table : list (str * Z) :=
  [(lit "/dev/null", linux_makedev 1 3); (lit "/dev/zero", linux_makedev 1 5);
   (lit "/dev/random", linux_makedev 1 8); (lit "/dev/urandom", linux_makedev 1 9);
   (lit "/dev/tty", linux_makedev 5 0); (lit "/dev/ptmx", linux_makedev 5 2)].

Fixpoint find_dev (D : Devices) (t : list (str * Z)) (host : Z) : option Z :=
  match t with
  | [] => None
  | (p, lin) :: t' =>
      match rdev_of D p with
      | Some d => if negb (d =? -1) && (d =? host) then Some lin else find_dev D t' host
      | None => find_dev D t' host
      end
  end.

Definition rdev_to_linux (D : Devices) (host : Z) : Z :=
  if host =? 0 then 0
  else match find_dev D dev_table host with
  | Some lin => lin
  | None =>
      match pts_major D with
      | Some m =>
          if major host =? m then
            let n := minor host in linux_makedev (136 + n / 256) (n mod 256)
          else u64 host
      | None => u64 host
      end
  end.

(** ** [struct stat] and [struct statx]

    The host's record, of the fields the translation reads. *)
Record HostStat := {
  h_dev : Z; h_mode : Z; h_nlink : Z; h_ino : Z; h_rdev : Z;
  h_atime : Z * Z; h_mtime : Z * Z; h_ctime : Z * Z; h_btime : Z * Z;
  h_size : Z; h_blocks : Z; h_blksize : Z
}.

Record LinuxStat := {
  st_dev : Z; st_ino : Z; st_mode : Z; st_nlink : Z; st_uid : Z; st_gid : Z; st_rdev : Z;
  st_size : Z; st_blksize : Z; st_blocks : Z;
  st_atime : Z * Z; st_mtime : Z * Z; st_ctime : Z * Z
}.

Definition to_linux (D : Devices) (s : HostStat) : LinuxStat :=
  {| st_dev := u64 (h_dev s); st_ino := h_ino s; st_mode := h_mode s; st_nlink := h_nlink s;
     st_uid := 0; st_gid := 0; st_rdev := rdev_to_linux D (h_rdev s);
     st_size := h_size s; st_blksize := h_blksize s; st_blocks := h_blocks s;
     st_atime := ((h_atime s).1, u64 (h_atime s).2); st_mtime := ((h_mtime s).1, u64 (h_mtime s).2);
     st_ctime := ((h_ctime s).1, u64 (h_ctime s).2) |}.

Definition kStatxBasicStats : Z := 0x7ff.

Record LinuxStatx := {
  stx_mask : Z; stx_blksize : Z; stx_nlink : Z; stx_uid : Z; stx_gid : Z; stx_mode : Z;
  stx_ino : Z; stx_size : Z; stx_blocks : Z;
  stx_atime : Z * Z; stx_btime : Z * Z; stx_ctime : Z * Z; stx_mtime : Z * Z;
  stx_rdev_major : Z; stx_rdev_minor : Z; stx_dev_major : Z; stx_dev_minor : Z
}.

Definition split_major (r : Z) : Z := u32 (Z.lor (Z.land (Z.shiftr r 8) 0xfff) (Z.land (Z.shiftr r 32) 0xfffff000)).
Definition split_minor (r : Z) : Z := u32 (Z.lor (Z.land r 0xff) (Z.land (Z.shiftr r 12) 0xffffff00)).

Definition statx_from_darwin (D : Devices) (s : HostStat) : LinuxStatx :=
  let r := rdev_to_linux D (h_rdev s) in
  {| stx_mask := kStatxBasicStats; stx_blksize := u32 (h_blksize s); stx_nlink := h_nlink s;
     stx_uid := 0; stx_gid := 0; stx_mode := u16 (h_mode s);
     stx_ino := h_ino s; stx_size := u64 (h_size s); stx_blocks := u64 (h_blocks s);
     stx_atime := ((h_atime s).1, u32 (h_atime s).2); stx_btime := ((h_btime s).1, u32 (h_btime s).2);
     stx_ctime := ((h_ctime s).1, u32 (h_ctime s).2); stx_mtime := ((h_mtime s).1, u32 (h_mtime s).2);
     stx_rdev_major := split_major r; stx_rdev_minor := split_minor r;
     stx_dev_major := Z.land (Z.shiftr (h_dev s) 24) 0xff; stx_dev_minor := Z.land (h_dev s) 0xffffff |}.

(** ** Record locks *)

Record LinuxFlock := { l_type : Z; l_whence : Z; l_start : Z; l_len : Z; l_pid : Z }.
Record DarwinFlock := { d_start : Z; d_len : Z; d_pid : Z; d_type : Z; d_whence : Z }.

Definition F_RDLCK : Z := 1.
Definition F_UNLCK : Z := 2.
Definition F_WRLCK : Z := 3.

Definition lock_type_to_darwin (lt : Z) : option Z :=
  if lt =? 0 then Some F_RDLCK else if lt =? 1 then Some F_WRLCK else if lt =? 2 then Some F_UNLCK else None.

Definition lock_type_to_linux (dt : Z) : Z :=
  if dt =? F_RDLCK then 0 else if dt =? F_WRLCK then 1 else 2.

Definition flock_to_darwin (l : LinuxFlock) : option DarwinFlock :=
  match lock_type_to_darwin (l_type l) with
  | None => None
  | Some t => Some {| d_start := l_start l; d_len := l_len l; d_pid := l_pid l; d_type := t; d_whence := l_whence l |}
  end.

Definition flock_to_linux (d : DarwinFlock) : LinuxFlock :=
  {| l_type := lock_type_to_linux (d_type d); l_whence := d_whence d; l_start := d_start d; l_len := d_len d; l_pid := d_pid d |}.

(** ** Error numbers

    The [switch], by the numbers Darwin gives the names. *)
Definition errno_table : list (Z * Z) :=
  [(35, 11); (11, 35); (63, 36); (77, 37); (78, 38); (66, 39); (62, 40); (91, 42); (90, 43); (99, 60); (96, 61);
   (101, 62); (98, 63); (71, 66); (97, 67); (100, 71); (95, 72); (94, 74); (84, 75); (92, 84); (68, 87); (38, 88);
   (39, 89); (40, 90); (41, 91); (42, 92); (43, 93); (44, 94); (102, 95); (46, 96); (47, 97); (48, 98); (49, 99);
   (50, 100); (51, 101); (52, 102); (53, 103); (54, 104); (55, 105); (56, 106); (57, 107); (60, 110); (61, 111);
   (64, 112); (65, 113); (37, 114); (36, 115); (70, 116); (69, 122); (89, 125); (105, 130); (104, 131)].

Fixpoint case_of (t : list (Z * Z)) (e : Z) : option Z :=
  match t with
  | [] => None
  | (d, l) :: t' => if e =? d then Some l else case_of t' e
  end.

Definition errno_to_linux (e : Z) : Z :=
  match case_of errno_table e with
  | Some l => l
  | None => if e <=? 34 then e else 5
  end.

(** [fail()] with [errno] = [e]. *)
Definition fail (e : Z) : Z := - errno_to_linux e.

(** ** Signal numbers and wait statuses *)

Definition SIGBUS : Z := 10.
Definition SIGSYS : Z := 12.
Definition SIGURG : Z := 16.
Definition SIGSTOP : Z := 17.
Definition SIGTSTP : Z := 18.
Definition SIGCONT : Z := 19.
Definition SIGCHLD : Z := 20.
Definition SIGUSR1 : Z := 30.
Definition SIGUSR2 : Z := 31.

Definition signal_to_linux (s : Z) : Z :=
  if s =? SIGBUS then 7 else if s =? SIGUSR1 then 10 else if s =? SIGUSR2 then 12 else if s =? SIGCHLD then 17
  else if s =? SIGCONT then 18 else if s =? SIGSTOP then 19 else if s =? SIGTSTP then 20 else if s =? SIGURG then 23
  else if s =? SIGSYS then 31 else s.

Definition signal_from_linux (s : Z) : Z :=
  if s =? 7 then SIGBUS else if s =? 10 then SIGUSR1 else if s =? 12 then SIGUSR2 else if s =? 17 then SIGCHLD
  else if s =? 18 then SIGCONT else if s =? 19 then SIGSTOP else if s =? 20 then SIGTSTP else if s =? 23 then SIGURG
  else if s =? 31 then SIGSYS else s.

(** The macros of Darwin's [sys/wait.h]. *)
Definition wstatus (x : Z) : Z := Z.land x 0x7f.
Definition wstopsig (x : Z) : Z := Z.shiftr x 8.
Definition wifexited (x : Z) : bool := wstatus x =? 0.
Definition wifstopped (x : Z) : bool := (wstatus x =? 0x7f) && negb (wstopsig x =? 0x13).
Definition wifsignaled (x : Z) : bool := negb (wstatus x =? 0x7f) && negb (wstatus x =? 0).
Definition wexitstatus (x : Z) : Z := Z.land (Z.shiftr x 8) 0xff.
Definition wcoredump (x : Z) : bool := negb (Z.land x 0x80 =? 0).

Definition wstatus_to_linux (st : Z) : Z :=
  if wifexited st then Z.shiftl (Z.land (wexitstatus st) 0xff) 8
  else if wifsignaled st then Z.lor (Z.land (signal_to_linux (wstatus st)) 0x7f) (if wcoredump st then 0x80 else 0)
  else if wifstopped st then Z.lor (Z.shiftl (signal_to_linux (wstopsig st)) 8) 0x7f
  else st.

(** ** Specifications

    The errors both systems name, as Darwin's and as Linux's number. *)
Definition error_names : list (Z * Z) :=
  map (fun e => (e, e)) (seqZ 1 10 ++ seqZ 12 23) ++
  [(11, 35); (35, 11); (36, 115); (37, 114); (38, 88); (39, 89); (40, 90); (41, 91); (42, 92); (43, 93); (44, 94); (45, 95);
   (46, 96); (47, 97); (48, 98); (49, 99); (50, 100); (51, 101); (52, 102); (53, 103); (54, 104); (55, 105); (56, 106);
   (57, 107); (58, 108); (59, 109); (60, 110); (61, 111); (62, 40); (63, 36); (64, 112); (65, 113); (66, 39); (68, 87);
   (69, 122); (70, 116); (71, 66); (77, 37); (78, 38); (84, 75); (89, 125); (90, 43); (91, 42); (92, 84); (94, 74);
   (95, 72); (96, 61); (97, 67); (98, 63); (99, 60); (100, 71); (101, 62); (102, 95); (104, 131); (105, 130)].

(** [ENOTSUP], [ESHUTDOWN] and [ETOOMANYREFS], as Darwin numbers them. *)
Definition dropped_errors : list Z := [45; 58; 59].

(** The signals both systems name. *)
Definition signal_names : list (Z * Z) :=
  map (fun e => (e, e)) ([1; 2; 3; 4; 5; 6; 8; 9; 11; 13; 14; 15; 21; 22; 24; 25; 26; 27; 28]) ++
  [(10, 7); (12, 31); (16, 23); (17, 19); (18, 20); (19, 18); (20, 17); (23, 29); (30, 10); (31, 12)].

Definition SIGIO : Z := 23.

(** What a status says, read by each system's macros. *)
Inductive Event := Exited (code : Z) | Signaled (sig : Z) (core : bool) | Stopped (sig : Z).

#[export] Instance event_eq_dec : EqDecision Event.
Proof. solve_decision. Defined.

Definition darwin_event (st : Z) : option Event :=
  if wifexited st then Some (Exited (wexitstatus st))
  else if wifsignaled st then Some (Signaled (wstatus st) (wcoredump st))
  else if wifstopped st then Some (Stopped (wstopsig st))
  else None.

Definition linux_event (st : Z) : option Event :=
  if Z.land st 0x7f =? 0 then Some (Exited (Z.land (Z.shiftr st 8) 0xff))
  else if Z.land st 0xff =? 0x7f then Some (Stopped (Z.land (Z.shiftr st 8) 0xff))
  else if Z.land st 0x7f =? 0x7f then None
  else Some (Signaled (Z.land st 0x7f) (negb (Z.land st 0x80 =? 0))).

Definition in_linux (e : Event) : Event :=
  match e with
  | Exited c => Exited c
  | Signaled s c => Signaled (signal_to_linux s) c
  | Stopped s => Stopped (signal_to_linux s)
  end.

(** A status [waitpid] stores for a signal number or an exit code. *)
Definition darwin_status (e : Event) : Z :=
  match e with
  | Exited c => c * 256
  | Signaled s c => s + (if c then 0x80 else 0)
  | Stopped s => s * 256 + 0x7f
  end.

Definition event_ok (e : Event) : Prop :=
  match e with
  | Exited c => 0 <= c < 256
  | Signaled s _ => 1 <= s <= 31
  | Stopped s => 1 <= s <= 31 /\ s <> SIGCONT
  end.

(** ** Lemmas *)

Lemma bit_with_flag (lf : Z) (f : OpenFlag) (d df n : Z) :
  0 <= n -> bit (with_flag lf f d df) (2 ^ n) = bit df (2 ^ n) || (open_has lf f && bit d (2 ^ n)).
Proof.
  intros Hn. unfold with_flag. destruct (open_has lf f); [by rewrite bit_lor|]. by rewrite orb_false_r.
Qed.

Lemma access_bits (lf n : Z) :
  2 <= n -> bit (if Z.land lf 3 =? 0 then 0 else if Z.land lf 3 =? 1 then O_WRONLY else O_RDWR) (2 ^ n) = false.
Proof.
  intros Hn. rewrite bit_testbit by lia. repeat case_match; try apply Z.testbit_0_l; apply Z.bits_above_log2; unfold O_WRONLY, O_RDWR; cbn; lia.
Qed.

(** Each flag of the word the host is given. *)
Lemma open_flags_bits (lf n : Z) :
  2 <= n -> bit (open_flags lf) (2 ^ n)
  = open_has lf o_creat && bit O_CREAT (2 ^ n) || open_has lf excl && bit O_EXCL (2 ^ n)
    || open_has lf noctty && bit O_NOCTTY (2 ^ n) || open_has lf trunc && bit O_TRUNC (2 ^ n)
    || open_has lf append && bit O_APPEND (2 ^ n) || open_has lf nonblock && bit O_NONBLOCK (2 ^ n)
    || open_has lf directory && bit O_DIRECTORY (2 ^ n) || open_has lf nofollow && bit O_NOFOLLOW (2 ^ n)
    || open_has lf cloexec && bit O_CLOEXEC (2 ^ n).
Proof. intros Hn. unfold open_flags. cbv zeta. rewrite !bit_with_flag by lia. by rewrite access_bits by lia. Qed.

Ltac const_bits :=
  repeat match goal with
  | |- context [bit ?c (2 ^ ?n)] =>
      assert_fails (is_var c); lazymatch c with context [open_flags] => fail | _ => idtac end;
      let b := eval vm_compute in (bit c (2 ^ n)) in
      lazymatch b with true => idtac | false => idtac end;
      change (bit c (2 ^ n)) with b
  end; rewrite ?andb_true_r, ?andb_false_r, ?orb_false_r, ?orb_false_l.

(** One flag of the host's word, by its position. *)
Ltac host_flag n :=
  lazymatch goal with
  | |- bit (open_flags ?lf) ?d = _ => change (bit (open_flags lf) d) with (bit (open_flags lf) (2 ^ n))
  end;
  rewrite open_flags_bits by lia; const_bits; try done.

(** A bit of a mask that is a run of ones. *)
Lemma run_bit (w k n : Z) : 0 <= w -> 0 <= k -> Z.testbit (Z.shiftl (Z.ones w) k) n = (k <=? n) && (n <? k + w).
Proof.
  intros Hw Hk. destruct (Z.ltb_spec n 0); [rewrite Z.testbit_neg_r by lia; zcases; lia|].
  rewrite Z.shiftl_spec by lia. destruct (Z.leb_spec k n); [|by rewrite Z.testbit_neg_r by lia].
  rewrite Z.testbit_ones by lia. cbn. zcases; lia.
Qed.

Lemma u32_land (z : Z) : u32 z = Z.land z (Z.shiftl (Z.ones 32) 0).
Proof. rewrite Z.shiftl_0_r, Z.land_ones by lia. done. Qed.

(** Compare two words bit by bit, the masks as runs of ones. *)
Ltac bitwise :=
  let n := fresh "n" in
  apply Z.bits_inj'; intros n ?;
  change 0xfffff000 with (Z.shiftl (Z.ones 20) 12); change 0xffffff00 with (Z.shiftl (Z.ones 24) 8);
  change 0xfff with (Z.shiftl (Z.ones 12) 0); change 0xff with (Z.shiftl (Z.ones 8) 0);
  repeat rewrite ?Z.lor_spec, ?Z.land_spec, ?run_bit, ?Z.shiftr_spec, ?Z.shiftl_spec by lia.

Lemma high_bit (w k n : Z) : 0 <= w < 2 ^ k -> k <= n -> Z.testbit w n = false.
Proof.
  intros Hw Hn. destruct (Z.eq_dec w 0) as [-> |]; [apply Z.testbit_0_l|]. apply Z.bits_above_log2; [lia|].
  apply Z.log2_lt_pow2; [lia|]. pose proof (Z.pow_le_mono_r 2 k n). lia.
Qed.

Lemma single_bit (x n : Z) : 0 <= n -> Z.land x (2 ^ n) = if bit x (2 ^ n) then 2 ^ n else 0.
Proof.
  intros Hn. rewrite bit_testbit by done. apply Z.bits_inj'. intros k Hk. rewrite Z.land_spec, Z.pow2_bits_eqb by done.
  destruct (Z.eqb_spec n k) as [<- |Hne].
  - rewrite andb_true_r. destruct (Z.testbit x n) eqn:E; [by rewrite Z.pow2_bits_true|by rewrite Z.testbit_0_l].
  - rewrite andb_false_r. destruct (Z.testbit x n); [by rewrite Z.pow2_bits_false|by rewrite Z.testbit_0_l].
Qed.

Lemma setfl_access (cur arg : Z) : Z.land (setfl cur arg) O_ACCMODE = Z.land cur O_ACCMODE.
Proof.
  unfold setfl. rewrite Z.land_lor_distr_l, <- !Z.land_assoc. change (Z.land (Z.lor O_APPEND O_NONBLOCK) O_ACCMODE) with 0.
  change (Z.land (Z.lnot _) O_ACCMODE) with O_ACCMODE. by rewrite Z.land_0_r, Z.lor_0_r.
Qed.

Lemma setfl_append (cur arg : Z) : (Z.land (setfl cur arg) O_APPEND =? 0) = negb (open_has arg append).
Proof.
  assert (E : bit (open_flags arg) O_APPEND = open_has arg append) by host_flag 3. rewrite <- E. unfold bit. rewrite negb_involutive. f_equal.
  unfold setfl. rewrite Z.land_lor_distr_l, <- !Z.land_assoc. change (Z.land (Z.lnot _) O_APPEND) with 0.
  by rewrite Z.land_0_r, Z.lor_0_l.
Qed.

Lemma setfl_nonblock (cur arg : Z) : (Z.land (setfl cur arg) O_NONBLOCK =? 0) = negb (open_has arg nonblock).
Proof.
  assert (E : bit (open_flags arg) O_NONBLOCK = open_has arg nonblock) by host_flag 2. rewrite <- E. unfold bit. rewrite negb_involutive. f_equal.
  unfold setfl. rewrite Z.land_lor_distr_l, <- !Z.land_assoc. change (Z.land (Z.lnot _) O_NONBLOCK) with 0.
  by rewrite Z.land_0_r, Z.lor_0_l.
Qed.

(** Every event a status can tell. *)
Definition all_events : list Event :=
  map Exited (seqZ 0 256) ++ (seqZ 1 31 ≫= fun s => [Signaled s false; Signaled s true])
  ++ map Stopped (filter (fun s => s <> SIGCONT) (seqZ 1 31)).

Lemma event_listed (e : Event) : event_ok e -> e ∈ all_events.
Proof.
  unfold all_events. rewrite !elem_of_app. destruct e as [c|s c|s]; cbn [event_ok]; intros H.
  - left. apply list_elem_of_fmap. exists c. split; [done|]. apply elem_of_seqZ. lia.
  - right. left. apply list_elem_of_bind. exists s. split; [destruct c; set_solver|]. apply elem_of_seqZ. lia.
  - right. right. apply list_elem_of_fmap. exists s. split; [done|]. apply list_elem_of_filter. split; [tauto|]. apply elem_of_seqZ. lia.
Qed.

Lemma status_kept (e : Event) :
  event_ok e -> darwin_event (darwin_status e) = Some e /\ linux_event (wstatus_to_linux (darwin_status e)) = Some (in_linux e)
  /\ 0 <= wstatus_to_linux (darwin_status e) < 65536.
Proof.
  intros He. enough (H : Forall (fun e => darwin_event (darwin_status e) = Some e
    /\ linux_event (wstatus_to_linux (darwin_status e)) = Some (in_linux e)
    /\ 0 <= wstatus_to_linux (darwin_status e) < 65536) all_events).
  { rewrite Forall_forall in H. apply H. by apply event_listed. }
  apply (bool_decide_unpack _). by vm_compute.
Qed.

(** The bits of the guest's word that are looked at. *)
Definition read_bits : Z := 0xb0fc3.

Lemma open_flags_unread (lf x : Z) : Z.land x read_bits = 0 -> open_flags (Z.lor lf x) = open_flags lf.
Proof.
  intros Hx. assert (Hm : forall b, Z.land read_bits b = b -> Z.land (Z.lor lf x) b = Z.land lf b).
  { intros b Hb. rewrite Z.land_lor_distr_l. rewrite <- Hb at 2. by rewrite Z.land_assoc, Hx, Z.land_0_l, Z.lor_0_r. }
  unfold open_flags, with_flag, open_has. by rewrite !Hm.
Qed.

Lemma access_kept (lf : Z) : Z.land (open_flags lf) O_ACCMODE = Z.min (Z.land lf 3) 2.
Proof.
  assert (Hf : forall f d df, Z.land d O_ACCMODE = 0 -> Z.land (with_flag lf f d df) O_ACCMODE = Z.land df O_ACCMODE).
  { intros f d df Hd. unfold with_flag. destruct (open_has lf f); [|done]. by rewrite Z.land_lor_distr_l, Hd, Z.lor_0_r. }
  unfold open_flags. cbv zeta. rewrite !Hf by done. change 3 with (Z.ones 2). rewrite Z.land_ones by lia.
  pose proof (Z.mod_pos_bound lf (2 ^ 2)). change (2 ^ 2) with 4 in *.
  destruct (Z.eqb_spec (lf mod 4) 0) as [-> |]; [done|]. destruct (Z.eqb_spec (lf mod 4) 1) as [-> |]; [done|].
  rewrite Z.min_r by lia. done.
Qed.


Lemma split_makedev (maj min : Z) :
  is_u32 maj -> is_u32 min -> split_major (linux_makedev maj min) = maj /\ split_minor (linux_makedev maj min) = min.
Proof.
  intros H1 H2. unfold split_major, split_minor, linux_makedev. rewrite !u32_land.
  split; bitwise; (destruct (Z.ltb_spec n 32); [|rewrite (high_bit _ 32 n) by (done || lia)]).
  all: replace (n + 8 - 8) with n by lia; replace (n + 32 - 32) with n by lia; replace (n + 12 - 12) with n by lia.
  all: rewrite ?(high_bit min 32) by (done || lia).
  all: repeat (rewrite ?andb_false_r, ?andb_true_r, ?orb_false_r, ?orb_false_l; first [done|zcases_step; try lia]).
Qed.

(** A host terminal is a Linux pseudo-terminal with the same number: a
    node with the terminals' major that is none of the standard devices is
    reported by [stat] and [statx] as unit [n] of the Linux slaves, 256 to a
    major from 136 on, where [n] is the host's minor. *)
Theorem terminals_numbered (D : Devices) (s : HostStat) (m : Z) :
  pts_major D = Some m -> h_rdev s <> 0 -> find_dev D dev_table (h_rdev s) = None -> major (h_rdev s) = m ->
  let n := minor (h_rdev s) in
  st_rdev (to_linux D s) = linux_makedev (136 + n / 256) (n mod 256)
  /\ 256 * (stx_rdev_major (statx_from_darwin D s) - 136) + stx_rdev_minor (statx_from_darwin D s) = n
  /\ 0 <= stx_rdev_minor (statx_from_darwin D s) < 256.
Proof.
  intros Hm H0 Hf Hj n. assert (Hn : 0 <= n < 2 ^ 24).
  { unfold n, minor. change 0xffffff with (Z.ones 24). rewrite Z.land_ones by lia. apply Z.mod_pos_bound. lia. }
  assert (Hr : rdev_to_linux D (h_rdev s) = linux_makedev (136 + n / 256) (n mod 256)).
  { unfold rdev_to_linux. rewrite (proj2 (Z.eqb_neq _ _) H0), Hf, Hm, Hj, Z.eqb_refl. done. }
  cbn [st_rdev to_linux statx_from_darwin stx_rdev_major stx_rdev_minor]. rewrite Hr.
  destruct (split_makedev (136 + n / 256) (n mod 256)) as [-> ->]; [unfold is_u32; Z.div_mod_to_equations; lia..|].
  split; [done|]. Z.div_mod_to_equations. lia.
Qed.

(** What [F_GETFL] answers after [F_SETFL] is the access mode the file
    was opened with and exactly the append and non-blocking flags that were
    asked for. *)
Theorem setfl_getfl (cur arg : Z) :
  open_flags_to_linux (setfl cur arg)
  = Z.lor (Z.land (open_flags_to_linux cur) 3) (Z.land arg (Z.lor (open_bits append) (open_bits nonblock))).
Proof.
  assert (H : Z.land arg (Z.lor (open_bits append) (open_bits nonblock))
    = Z.lor (if open_has arg append then 0x400 else 0) (if open_has arg nonblock then 0x800 else 0)).
  { rewrite Z.land_lor_distr_r. change (open_bits append) with (2 ^ 10). change (open_bits nonblock) with (2 ^ 11). by rewrite !single_bit. }
  rewrite H. unfold open_flags_to_linux. rewrite setfl_access, setfl_append, setfl_nonblock.
  destruct (open_has arg append), (open_has arg nonblock), (Z.land cur O_APPEND =? 0), (Z.land cur O_NONBLOCK =? 0); cbn [negb];
    by repeat case_match.
Qed.

(** Record locks survive the crossing: a request the host is given, read
    back, is the request, and only the three lock types are accepted. *)
Theorem flock_round_trip (l : LinuxFlock) :
  (forall d, flock_to_darwin l = Some d -> flock_to_linux d = l)
  /\ (flock_to_darwin l = None <-> ~ 0 <= l_type l <= 2).
Proof.
  unfold flock_to_darwin, flock_to_linux, lock_type_to_darwin, lock_type_to_linux. split.
  - intros d. zcases; intros [= <-]; destruct l; cbn in *; subst; done.
  - zcases; cbn; split; (done || lia).
Qed.

(** Errors keep their names: for every error both systems name, the
    guest is given Linux's number for it, except [ENOTSUP], [ESHUTDOWN] and
    [ETOOMANYREFS], which it sees as [EIO]. *)
Theorem errno_names (d l : Z) :
  (d, l) ∈ error_names -> fail d = if decide (d ∈ dropped_errors) then - 5 else - l.
Proof.
  revert d l. enough (H : Forall (fun p => fail p.1 = if decide (p.1 ∈ dropped_errors) then - 5 else - p.2) error_names).
  { intros d l Hin. rewrite Forall_forall in H. exact (H (d, l) Hin). }
  unfold error_names. vm_compute. repeat constructor.
Qed.

(** Signals keep their names, except the asynchronous I/O signal: for
    every signal both systems name the two translations are inverse to each
    other exactly when it is not [SIGIO], which the guest is told is
    [SIGURG]; and a signal one guest process sends another arrives as the
    number it was sent unless it is 16 or 30, which arrive as [SIGURG] and
    [SIGUSR1]. *)
Theorem signal_names_kept :
  (forall d l, (d, l) ∈ signal_names -> (signal_to_linux d = l /\ signal_from_linux l = d <-> d <> SIGIO))
  /\ signal_to_linux SIGIO = 23
  /\ (forall s, 1 <= s <= 64 -> signal_to_linux (signal_from_linux s) = if s =? 16 then 23 else if s =? 30 then 10 else s).
Proof.
  split; [|split; [done|]].
  - intros d l H. unfold signal_names in H. cbn in H.
    repeat (apply elem_of_cons in H as [H|H]; [injection H as -> ->; vm_compute; (split; [intros [E1 E2] E3; discriminate|intros E3; by (split; [|]) || destruct (E3 eq_refl)])|]). by apply elem_of_nil in H.
  - enough (H : Forall (fun s => signal_to_linux (signal_from_linux s) = if s =? 16 then 23 else if s =? 30 then 10 else s) (seqZ 1 64)).
    { intros s Hs. rewrite Forall_forall in H. apply H. apply elem_of_seqZ. lia. }
    vm_compute. repeat constructor.
Qed.

(** A wait status means the same to the guest: whatever ended or stopped
    the host process, the status the guest is given says so to Linux's
    macros, with the signal numbered as Linux numbers it. *)
Theorem wait_status_meaning (e : Event) :
  event_ok e -> darwin_event (darwin_status e) = Some e /\ linux_event (wstatus_to_linux (darwin_status e)) = Some (in_linux e).
Proof. intros He. by destruct (status_kept e He) as (A & B & _). Qed.

Lemma terminals_numbered_witness :
  let D := {| rdev_of := fun _ => None; pts_major := Some 16 |} in
  let s := {| h_dev := 1; h_mode := 0x2190; h_nlink := 1; h_ino := 9; h_rdev := 0x1000012c; h_atime := (0, 0); h_mtime := (0, 0);
              h_ctime := (0, 0); h_btime := (0, 0); h_size := 0; h_blocks := 0; h_blksize := 4096 |} in
  256 * (stx_rdev_major (statx_from_darwin D s) - 136) + stx_rdev_minor (statx_from_darwin D s) = 300.
Proof. intros D s. by apply (terminals_numbered D s 16). Defined.

Lemma errno_names_witness : fail 61 = -111 /\ fail 45 = -5.
Proof. split; [apply (errno_names 61 111)|apply (errno_names 45 95)]; apply (bool_decide_unpack _); by vm_compute. Defined.

Lemma wait_status_meaning_witness : linux_event (wstatus_to_linux (darwin_status (Signaled 10 true))) = Some (Signaled 7 true).
Proof. apply (wait_status_meaning (Signaled 10 true)). cbn. lia. Defined.

End DarwinAbi.
