(* ===== verification/HvfPids.v ===== *)
(** The shared pid table of the macOS backend
    ([runtime/darwin/proc.hpp], [PidSpace]) and the calls that live on it
    ([runtime/darwin/trap.hpp]): process groups and sessions, [kill], what
    [fork] records and what [wait4] reports.

    Every guest process is a host process and all of them map one table, so
    the file has three views of it: the operations one after the other, the
    compare-and-swap allocation of a number by several processes at once
    ([alloc_step]), and the writes of a forking parent interleaved with those
    of its child ([interleave]).  Host [kill] and [waitpid] are arguments. *)
From stdpp Require Import sorting.
From S2P Require Import Prelude Abi GuestMem PageTables HvfMem DarwinAbi.

Module HvfPids.

Import PageTables(Ram, store).
Import GuestMem.
Import HvfMem(at_, ram_of).
Import DarwinAbi(signal_from_linux, wstatus_to_linux, wifexited, wifsignaled, fail).

(** ** The table *)

Definition kMax : Z := 4096.
Definition kReserved : Z := -1.
Definition kExe : nat := 256.

(** The arrays are zero where the map has no entry. *)
Record Shared := mkShared {
  next : Z; host : gmap Z Z; execed : gmap Z bool; pgid : gmap Z Z; sid : gmap Z Z; exe : gmap Z (list Z); ppid : gmap Z Z
}.

Definition host_at (s : Shared) (g : Z) : Z := default 0 (host s !! g).

Definition with_next (s : Shared) (n : Z) : Shared := mkShared n (host s) (execed s) (pgid s) (sid s) (exe s) (ppid s).
Definition with_host (s : Shared) (g h : Z) : Shared := mkShared (next s) (<[g:=h]> (host s)) (execed s) (pgid s) (sid s) (exe s) (ppid s).
Definition with_execed (s : Shared) (g : Z) (b : bool) : Shared := mkShared (next s) (host s) (<[g:=b]> (execed s)) (pgid s) (sid s) (exe s) (ppid s).
Definition with_pgid (s : Shared) (g q : Z) : Shared := mkShared (next s) (host s) (execed s) (<[g:=q]> (pgid s)) (sid s) (exe s) (ppid s).
Definition with_sid (s : Shared) (g q : Z) : Shared := mkShared (next s) (host s) (execed s) (pgid s) (<[g:=q]> (sid s)) (exe s) (ppid s).
Definition with_exe (s : Shared) (g : Z) (b : list Z) : Shared := mkShared (next s) (host s) (execed s) (pgid s) (sid s) (<[g:=b]> (exe s)) (ppid s).
Definition with_ppid (s : Shared) (g p : Z) : Shared := mkShared (next s) (host s) (execed s) (pgid s) (sid s) (exe s) (<[g:=p]> (ppid s)).

(** [PidSpace()]. *)
Definition create (me : Z) : Shared := mkShared 2 {[1 := me]} ∅ ∅ ∅ ∅ ∅.

Definition in_table (g : Z) : bool := (0 <? g) && (g <? kMax).

Fixpoint allocate_loop (tries : nat) (mark : Z) (s : Shared) : Z * Shared :=
  match tries with
  | O => (-1, s)
  | S tries' =>
      let '(g, s) := if kMax <=? next s then (2, with_next s 3) else (next s, with_next s (next s + 1)) in
      if host_at s g =? 0 then (g, with_host s g mark) else allocate_loop tries' mark s
  end.

Definition allocate (s : Shared) (host : Z) : Z * Shared :=
  allocate_loop (Z.to_nat kMax) (if host =? 0 then kReserved else host) s.

Definition bind (s : Shared) (g host : Z) : Shared :=
  if in_table g then with_host (with_execed s g false) g host else s.

Definition set_pgid (s : Shared) (pid pgid : Z) : Shared :=
  if in_table pid && in_table pgid then with_pgid s pid pgid else s.

Definition pgid_of (s : Shared) (pid : Z) : Z :=
  if negb (in_table pid) then 0
  else let g := default 0 (pgid s !! pid) in if g =? 0 then pid else g.

Definition members_of (s : Shared) (pgid : Z) : list Z :=
  filter (fun p => host_at s p <> 0 /\ pgid_of s p = pgid) (seqZ 1 (kMax - 1)).

Definition set_sid (s : Shared) (pid sid : Z) : Shared :=
  if in_table pid && in_table sid then with_sid s pid sid else s.

Definition sid_of (s : Shared) (pid : Z) : Z :=
  if negb (in_table pid) then 0
  else let g := default 0 (sid s !! pid) in if g =? 0 then pid else g.

Definition mark_execed (s : Shared) (g : Z) : Shared := if in_table g then with_execed s g true else s.

Definition has_execed (s : Shared) (g : Z) : bool := in_table g && default false (execed s !! g).

(** The text of a slot: [kExe] bytes, read up to the first NUL. *)
Definition exe_bytes (s : Shared) (g : Z) : list Z := default (replicate kExe 0) (exe s !! g).

Definition release (s : Shared) (g : Z) : Shared :=
  if (1 <? g) && (g <? kMax) then with_host (with_exe s g (<[0%nat:=0]> (exe_bytes s g))) g 0 else s.

Definition set_exe (s : Shared) (g : Z) (path : list Z) : Shared :=
  if negb (in_table g) then s
  else
    let n := Nat.min (length path) (kExe - 1) in
    with_exe s g (take n path ++ 0 :: drop (S n) (exe_bytes s g)).

Fixpoint c_text (b : list Z) : list Z :=
  match b with
  | [] => []
  | c :: b' => if c =? 0 then [] else c :: c_text b'
  end.

Definition exe_of (s : Shared) (g : Z) : list Z :=
  if negb (in_table g) then [] else c_text (take (kExe - 1) (exe_bytes s g)).

(** [kill(h, 0)] succeeds or is refused for want of permission. *)
Definition is_process (alive : Z -> bool) (s : Shared) (g : Z) : bool :=
  in_table g && negb (nth 0 (exe_bytes s g) 0 =? 0) && (0 <? host_at s g) && alive (host_at s g).

Definition processes (alive : Z -> bool) (s : Shared) : list Z :=
  filter (fun g => is_process alive s g = true) (seqZ 1 (kMax - 1)).

Definition set_ppid (s : Shared) (g parent : Z) : Shared := if in_table g then with_ppid s g parent else s.
Definition ppid_of (s : Shared) (g : Z) : Z := if in_table g then default 0 (ppid s !! g) else 0.

Definition host_of (s : Shared) (g : Z) : option Z :=
  if negb (in_table g) then None
  else if host_at s g =? 0 then None else Some (host_at s g).

Fixpoint first_with (s : Shared) (h : Z) (gs : list Z) : Z :=
  match gs with
  | [] => -1
  | g :: gs' => if host_at s g =? h then g else first_with s h gs'
  end.

Definition guest_of (s : Shared) (h : Z) : Z := first_with s h (seqZ 1 (kMax - 1)).

(** ** Groups and sessions *)

Definition known (s : Shared) (tid pid : Z) : bool :=
  match host_of s pid with Some _ => true | None => pid =? tid end.

(** A number argument: 0 is the caller (or its process). *)
Definition or_self (a self : Z) : Z := if a =? 0 then self else i32 a.

(** What the calls do to the host: signals sent, groups and sessions
    mirrored. *)
Inductive HostCall := HKill (h sig : Z) | HSetpgid (h g : Z) | HSetsid.

Definition host_or_me (s : Shared) (tid me pid : Z) : option Z := if pid =? tid then Some me else host_of s pid.

Definition do_setpgid (s : Shared) (tid me a0 a1 : Z) : Z * Shared * list HostCall :=
  let pid := or_self a0 tid in
  let pg := or_self a1 pid in
  if negb (known s tid pid) then (-3, s, [])
  else
    let s := set_pgid s pid pg in
    (0, s, match host_or_me s tid me pid, host_or_me s tid me pg with Some hp, Some hg => [HSetpgid hp hg] | _, _ => [] end).

Definition do_getpgid (s : Shared) (tid a0 : Z) : Z :=
  let pid := or_self a0 tid in if negb (known s tid pid) then -3 else pgid_of s pid.

Definition do_getpgrp (s : Shared) (tid : Z) : Z := pgid_of s tid.

Definition do_setsid (s : Shared) (tid : Z) : Z * Shared * list HostCall :=
  if (pgid_of s tid =? tid) && (sid_of s tid =? tid) then (-1, s, [])
  else (tid, set_pgid (set_sid s tid tid) tid tid, [HSetsid]).

Definition do_getsid (s : Shared) (tid a0 : Z) : Z :=
  let pid := or_self a0 tid in if negb (known s tid pid) then -3 else sid_of s pid.

(** ** [kill] *)

Definition kLinuxNsig : Z := 64.

(** What a signal to the caller itself does. *)
Inductive SelfSig := Nothing | Pend (sig : Z) | Die (sig : Z).

Definition mark_self_pending (tid sig : Z) : SelfSig :=
  if sig =? 0 then Nothing
  else if (sig =? 9) || (sig =? 19) then (if tid =? 1 then Nothing else Die sig)
  else Pend sig.

(** SIGKILL to itself does not return: [kill_with] raises it. *)
Definition dies (tid sig : Z) : bool := (sig =? 9) && negb (tid =? 1).

Record Child := { guest : Z; chost : Z }.

Section Kill.

(** Host [kill]: the error number, or none. *)
Context (kill : Z -> Z -> option Z).

Definition sent (h sig : Z) : bool := match kill h sig with None => true | Some _ => false end.

(** The loop over the members: how many were reached ([None] when the caller
    died in it), what was sent, what the caller itself gets. *)
Fixpoint to_members (s : Shared) (tid sig : Z) (ms : list Z) : option Z * list HostCall * list SelfSig :=
  match ms with
  | [] => (Some 0, [], [])
  | m :: ms' =>
      let '(n, cs, ss) := to_members s tid sig ms' in
      if m =? tid then
        if dies tid sig then (None, [], [mark_self_pending tid sig])
        else (Z.succ <$> n, cs, mark_self_pending tid sig :: ss)
      else match host_of s m with
      | None => (n, cs, ss)
      | Some h =>
          if sig =? 0 then (Z.succ <$> n, cs, ss)
          else ((if sent h (signal_from_linux sig) then Z.succ <$> n else n), HKill h (signal_from_linux sig) :: cs, ss)
      end
  end.

Fixpoint to_children (s : Shared) (hs : Z) (cs : list Child) : Z * list HostCall :=
  match cs with
  | [] => (0, [])
  | c :: cs' =>
      let '(n, ks) := to_children s hs cs' in
      match host_of s (guest c) with
      | None => (n, ks)
      | Some h => ((if sent h hs then n + 1 else n), HKill h hs :: ks)
      end
  end.

(** The answer is [None] when the caller has killed itself. *)
Definition deliver_signal (s : Shared) (tid : Z) (children : list Child) (gpid sig : Z)
    : option Z * list HostCall * list SelfSig :=
  if (sig <? 0) || (kLinuxNsig <? sig) then (Some (-22), [], [])
  else
    let hs := signal_from_linux sig in
    if gpid <=? 0 then
      let pg := if gpid =? 0 then pgid_of s tid else if gpid =? -1 then 0 else i32 (- gpid) in
      let members := if pg =? 0 then members_of s (pgid_of s tid) else members_of s pg in
      match to_members s tid sig members with
      | (None, ks, ss) => (None, ks, ss)
      | (Some n, ks, ss) =>
          let '(n', ks') := if gpid =? -1 then to_children s hs children else (0, []) in
          (Some (if n + n' =? 0 then -3 else 0), ks ++ ks', ss)
      end
    else if gpid =? tid then (if dies tid sig then None else Some 0, [], [mark_self_pending tid sig])
    else match host_of s gpid with
    | None => (Some (-3), [], [])
    | Some h =>
        let k := if sig =? 0 then 0 else hs in
        (Some match kill h k with None => 0 | Some e => fail e end, [HKill h k], [])
    end.

End Kill.

(** ** [fork] and [execve], as far as the table goes *)

Inductive TabOp :=
| Bind (g h : Z) | InheritPgid (g p : Z) | InheritSid (g p : Z) | InheritExe (g p : Z) | SetPpid (g p : Z)
| SetExe (g : Z) (path : list Z) | MarkExeced (g : Z).

Definition apply_op (s : Shared) (o : TabOp) : Shared :=
  match o with
  | Bind g h => bind s g h
  | InheritPgid g p => set_pgid s g (pgid_of s p)
  | InheritSid g p => set_sid s g (sid_of s p)
  | InheritExe g p => set_exe s g (exe_of s p)
  | SetPpid g p => set_ppid s g p
  | SetExe g path => set_exe s g path
  | MarkExeced g => mark_execed s g
  end.

Definition run_ops (ops : list TabOp) (s : Shared) : Shared := fold_left apply_op ops s.

(** What [do_fork] writes once the child runs.  Each operation is one step:
    [bind]'s two stores and the bytes of [set_exe] are not interleaved with
    the other process's, so torn paths are not modelled. *)
Definition fork_parent (tid child h : Z) : list TabOp :=
  [Bind child h; InheritPgid child tid; InheritSid child tid; InheritExe child tid; SetPpid child tid].

(** What [do_execve] writes. *)
Definition exec_writes (tid : Z) (path : list Z) : list TabOp := [SetExe tid path; MarkExeced tid].

(** [do_fork], with the process [spawn] starts for the number (negative when
    it cannot). *)
Definition do_fork (s : Shared) (tid : Z) (children : list Child) (spawn : Z -> Z) : Z * Shared * list Child :=
  let '(child, s) := allocate s 0 in
  if child <? 0 then (-11, s, children)
  else
    let h := spawn child in
    if h <? 0 then (-11, release s child, children)
    else (child, run_ops (fork_parent tid child h) s, children ++ [{| guest := child; chost := h |}]).

(** One round of [wait_for_exec]: whether the parent of a [vfork] may go on. *)
Definition exec_seen (s : Shared) (child : Z) (gone : bool) : bool :=
  match host_of s child with
  | None => true
  | Some _ => has_execed s child || gone
  end.

(** ** [wait4] *)

(** [ram().put]. *)
Definition ram_put (m : Ram) (size a : Z) (bs : list Z) : option Ram :=
  match at_ (ram_of size) a (Z.of_nat (length bs)) with
  | Some _ => Some (store m a bs)
  | None => None
  end.

Definition put_quiet (m : Ram) (size a : Z) (bs : list Z) : Ram := default m (ram_put m size a bs).

Definition which_host (s : Shared) (gpid : Z) : option Z :=
  if gpid =? -1 then Some (-1)
  else if gpid =? 0 then Some 0
  else if gpid <? -1 then Z.opp <$> host_of s (i32 (- gpid))
  else host_of s gpid.

(** [waitpid]: the process and its status, or the error. *)
Definition Waitpid : Type := Z -> Z -> (Z * Z) + Z.

Definition do_wait4 (waitpid : Waitpid) (m : Ram) (size : Z) (s : Shared) (children : list Child)
    (gpid status options rusage : Z) : Z * Ram * Shared * list Child :=
  match which_host s gpid with
  | None => (-10, m, s, children)
  | Some which =>
      match waitpid which (Z.land options 3) with
      | inr e => (fail e, m, s, children)
      | inl (got, st) =>
          if got =? 0 then (0, m, s, children)
          else
            let g := guest_of s got in
            let m := if status =? 0 then m else put_quiet m size status (le_bytes 4 (u32 (wstatus_to_linux st))) in
            let m := if rusage =? 0 then m else put_quiet m size rusage (replicate 144 0) in
            let '(s, children) :=
              if wifexited st || wifsignaled st
              then (release s g, filter (fun c => chost c <> got) children) else (s, children) in
            ((if g <? 0 then 0 else g), m, s, children)
      end
  end.

(** ** Several processes allocating at once

    Where a process is in [allocate]: before the first or the second
    [fetch_add], before the [store] between them, before the compare and swap
    of a slot, or holding a number.

    The second number is not compared with [kMax], so the swap may be on a
    word past the end of [host].  What is there (the flags of [execed], and
    after them the other columns) is not modelled: such a swap succeeds or
    fails, and changes anything but the counter and [host], which lie below. *)
Inductive Pc := Idle | Fetch (left : nat) | Rewind (left : nat) | Refetch (left : nat) | Swap (left : nat) (g : Z) | Holds (g : Z) | Full.

Record Sys := mkSys { tab : Shared; at_pc : Z -> Pc }.

Definition moves (f : Z -> Pc) (p : Z) (c : Pc) : Z -> Pc := fun q => if q =? p then c else f q.

Section Concurrent.

(** What a process marks its slot with. *)
Context (mark : Z -> Z).

Inductive alloc_step : Sys -> Sys -> Prop :=
| st_begin t f p : f p = Idle -> alloc_step (mkSys t f) (mkSys t (moves f p (Fetch (Z.to_nat kMax))))
| st_fetch t f p l : f p = Fetch (S l) ->
    alloc_step (mkSys t f)
      (mkSys (with_next t (next t + 1)) (moves f p (if kMax <=? next t then Rewind l else Swap l (next t))))
| st_full t f p : f p = Fetch O -> alloc_step (mkSys t f) (mkSys t (moves f p Full))
| st_rewind t f p l : f p = Rewind l -> alloc_step (mkSys t f) (mkSys (with_next t 2) (moves f p (Refetch l)))
| st_refetch t f p l : f p = Refetch l -> alloc_step (mkSys t f) (mkSys (with_next t (next t + 1)) (moves f p (Swap l (next t))))
| st_swap t f p l g : f p = Swap l g -> g < kMax ->
    alloc_step (mkSys t f)
      (if host_at t g =? 0 then mkSys (with_host t g (mark p)) (moves f p (Holds g)) else mkSys t (moves f p (Fetch l)))
| st_swap_past t t' f p l g (won : bool) : f p = Swap l g -> kMax <= g -> next t' = next t -> host t' = host t ->
    alloc_step (mkSys t f) (mkSys t' (moves f p (if won then Holds g else Fetch l)))
| st_release t f p g : f p = Holds g -> alloc_step (mkSys t f) (mkSys (release t g) (moves f p Idle)).

End Concurrent.

(** ** Interleavings *)

Inductive interleave {A} : list A -> list A -> list A -> Prop :=
| il_nil : interleave [] [] []
| il_left x a b c : interleave a b c -> interleave (x :: a) b (x :: c)
| il_right x a b c : interleave a b c -> interleave a (x :: b) (x :: c).

(** ** Specifications *)

(** What an operation of the table does to the [execed] flag of its slot, and
    to its path. *)
Definition is_bind (o : TabOp) : bool := match o with Bind _ _ => true | _ => false end.
Definition is_mark (o : TabOp) : bool := match o with MarkExeced _ => true | _ => false end.
Definition is_inherit_exe (o : TabOp) : bool := match o with InheritExe _ _ => true | _ => false end.
Definition is_set_exe (o : TabOp) : bool := match o with SetExe _ _ => true | _ => false end.

(** Whether an operation of the first kind comes before any of the second. *)
Fixpoint comes_first (a b : TabOp -> bool) (ops : list TabOp) : bool :=
  match ops with
  | [] => false
  | o :: ops' => if a o then true else if b o then false else comes_first a b ops'
  end.

Definition slot_of (o : TabOp) : Z :=
  match o with
  | Bind g _ | InheritPgid g _ | InheritSid g _ | InheritExe g _ | SetPpid g _ | SetExe g _ | MarkExeced g => g
  end.

(** A path the table can hold. *)
Definition path_ok (path : list Z) : Prop := 0 ∉ path /\ (length path < kExe)%nat.

Definition no_one_home (f : Z -> Pc) : Prop := forall p, f p = Idle.

(** ** Lemmas *)

Definition sound (s : Shared) : Prop := 2 <= next s <= kMax.

Lemma host_at_insert (s : Shared) (g h k : Z) : host_at (with_host s g h) k = if k =? g then h else host_at s k.
Proof.
  unfold host_at, with_host. cbn. destruct (Z.eqb_spec k g) as [-> |]; [by rewrite lookup_insert_eq|by rewrite lookup_insert_ne].
Qed.

(** The slot the next try looks at. *)
Definition pos (s : Shared) : Z := if kMax <=? next s then 2 else next s.

Lemma alloc_loop_spec (n : nat) (mark : Z) : forall s g s',
  sound s -> allocate_loop n mark s = (g, s') ->
  exists k, 2 <= k <= kMax /\
  ((2 <= g < kMax /\ host_at s g = 0 /\ s' = with_host (with_next s k) g mark)
   \/ (g = -1 /\ s' = with_next s k /\ forall i, 0 <= i < Z.of_nat n -> host_at s (2 + (pos s - 2 + i) mod 4094) <> 0)).
Proof.
  unfold sound. change kMax with 4096. induction n as [|n IH]; intros s g s' Hs; cbn [allocate_loop].
  - intros [= <- <-]. exists (next s). split; [done|]. right. split; [done|]. split; [by destruct s|lia].
  - set (g0 := pos s). assert (Hg0 : 2 <= g0 < 4096) by (unfold g0, pos; change kMax with 4096; zcases; lia).
    assert (E : (if kMax <=? next s then (2, with_next s 3) else (next s, with_next s (next s + 1))) = (g0, with_next s (g0 + 1)))
      by (unfold g0, pos; by case_match).
    rewrite E. change (host_at (with_next s (g0 + 1)) g0) with (host_at s g0). destruct (Z.eqb_spec (host_at s g0) 0) as [H0|H0].
    + intros [= <- <-]. exists (g0 + 1). split; [lia|]. left. split; [done|]. by split.
    + intros Hl. destruct (IH (with_next s (g0 + 1)) g s') as (k & Hk & [(A & B & C)|(A & B & C)]); [cbn; lia|done|..].
      * exists k. split; [done|]. left. split; [done|]. by split.
      * exists k. split; [done|]. right. split; [done|]. split; [by rewrite B|]. intros i Hi. destruct (Z.eq_dec i 0) as [-> |Hi0].
        { rewrite Z.add_0_r, Z.mod_small by (fold g0; lia). fold g0. by replace (2 + (g0 - 2)) with g0 by lia. }
        specialize (C (i - 1) ltac:(lia)). intros Hz. apply C. change (host_at (with_next s (g0 + 1))) with (host_at s).
        rewrite <- Hz. fold g0. do 2 f_equal. unfold pos. cbn [next with_next]. change kMax with 4096.
        destruct (Z.leb_spec 4096 (g0 + 1)); [|f_equal; lia].
        replace g0 with 4095 by lia. replace (4095 - 2 + i) with (2 - 2 + (i - 1) + 1 * 4094) by lia. by rewrite Z_mod_plus_full.
Qed.

Lemma elem_members (s : Shared) (q m : Z) : m ∈ members_of s q <-> 1 <= m < kMax /\ host_at s m <> 0 /\ pgid_of s m = q.
Proof. unfold members_of. rewrite list_elem_of_filter, elem_of_seqZ. change kMax with 4096. lia. Qed.

Lemma seqZ_sorted (m n : Z) : StronglySorted Z.lt (seqZ m n).
Proof.
  destruct (Z_lt_le_dec n 0) as [Hn|Hn]; [rewrite seqZ_nil by lia; constructor|]. revert m.
  pattern n. apply Z_lt_induction; [|done]. clear n Hn. intros n IH m.
  destruct (Z_lt_le_dec 0 n) as [H0|]; [|rewrite seqZ_nil by lia; constructor]. rewrite seqZ_cons by done. constructor.
  - destruct (Z.eq_dec n 1) as [-> |]; [constructor|]. apply IH. lia.
  - apply Forall_forall. intros x Hx%elem_of_seqZ. lia.
Qed.

Lemma filter_sorted (P : Z -> Prop) `{forall x, Decision (P x)} (l : list Z) :
  StronglySorted Z.lt l -> StronglySorted Z.lt (filter P l).
Proof.
  induction 1 as [|x l Hl IH Hx]; [constructor|]. rewrite filter_cons. case_decide; [|done]. constructor; [done|].
  rewrite Forall_forall in *. intros y [_ Hy]%list_elem_of_filter. auto.
Qed.

Lemma members_sorted (s : Shared) (q : Z) : StronglySorted Z.lt (members_of s q).
Proof. apply filter_sorted, seqZ_sorted. Qed.

Lemma host_of_live (s : Shared) (m : Z) : 1 <= m < kMax -> host_at s m <> 0 -> host_of s m = Some (host_at s m).
Proof.
  intros Hm H0. unfold host_of, in_table. rewrite (proj2 (Z.eqb_neq _ _) H0). by replace ((0 <? m) && (m <? kMax)) with true by (zcases; lia).
Qed.

Lemma member_host (s : Shared) (q m : Z) : m ∈ members_of s q <-> is_Some (host_of s m) /\ pgid_of s m = q.
Proof.
  rewrite elem_members. split.
  - intros (H1 & H2 & H3). rewrite host_of_live by done. split; [by eexists|done].
  - intros [[h Hh] H]. unfold host_of, in_table in Hh. revert Hh. zcases; try done. intros _. split; [lia|done].
Qed.

Section Members.

Context (kill : Z -> Z -> option Z) (s : Shared) (tid sig : Z).

(** The members the loop comes to: all, or those below a caller it kills. *)
Definition before_death (ms : list Z) (m : Z) : Prop := dies tid sig = true -> tid ∈ ms -> m < tid.

Lemma sorted_head (m : Z) (ms : list Z) :
  StronglySorted Z.lt (m :: ms) -> StronglySorted Z.lt ms /\ m ∉ ms /\ forall x, x ∈ ms -> m < x.
Proof.
  intros Hs. inversion Hs as [|? ? Hl Hf]; subst. rewrite Forall_forall in Hf. split; [done|]. split; [|done].
  intros Hin%Hf. lia.
Qed.

(** What the loop does to the caller. *)
Lemma members_self (ms : list Z) : StronglySorted Z.lt ms -> forall n ks ss,
  to_members kill s tid sig ms = (n, ks, ss) ->
  (n = None <-> dies tid sig = true /\ tid ∈ ms) /\ ss = if decide (tid ∈ ms) then [mark_self_pending tid sig] else [].
Proof.
  induction ms as [|m ms IH]; intros Hs n ks ss; cbn [to_members].
  - intros [= <- <- <-]. split; [|done]. split; [done|]. by intros [_ ?%elem_of_nil].
  - apply sorted_head in Hs as (Hs & Hm & _). destruct (to_members kill s tid sig ms) as [[n0 ks0] ss0].
    destruct (IH Hs n0 ks0 ss0 eq_refl) as [Hn Hss]. clear IH. destruct (Z.eqb_spec m tid) as [-> |Hne].
    + rewrite decide_True by (by left). rewrite (decide_False (P := tid ∈ ms)) in Hss by done. destruct (dies tid sig) eqn:Ed; intros [= <- <- <-].
      * split; [|done]. split; [|done]. intros _. split; [done|by left].
      * split; [|by rewrite Hss]. rewrite fmap_None, Hn. by split; intros [? _].
    + assert (Hin : tid ∈ m :: ms <-> tid ∈ ms) by (rewrite elem_of_cons; naive_solver).
      rewrite (decide_ext _ _ _ _ Hin), Hin. repeat case_match; intros [= <- <- <-]; (split; [|done]); by rewrite ?fmap_None.
Qed.

(** Who is sent what. *)
Lemma members_sent (ms : list Z) : StronglySorted Z.lt ms -> forall n ks ss c,
  to_members kill s tid sig ms = (n, ks, ss) ->
  c ∈ ks <-> sig <> 0 /\ exists m h, m ∈ ms /\ m <> tid /\ before_death ms m /\ host_of s m = Some h /\ c = HKill h (signal_from_linux sig).
Proof.
  unfold before_death. induction ms as [|m ms IH]; intros Hs n ks ss c; cbn [to_members].
  - intros [= <- <- <-]. setoid_rewrite elem_of_nil. naive_solver.
  - apply sorted_head in Hs as (Hs & Hm & Hlt). destruct (to_members kill s tid sig ms) as [[n0 ks0] ss0].
    specialize (IH Hs n0 ks0 ss0 c eq_refl). setoid_rewrite elem_of_cons. destruct (Z.eqb_spec m tid) as [-> |Hne].
    + destruct (dies tid sig) eqn:Ed; intros [= <- <- <-].
      * rewrite elem_of_nil. split; [done|]. intros (_ & m & h & [?|Hin] & ? & Hb & _); [done|].
        specialize (Hb eq_refl (or_introl eq_refl)). specialize (Hlt m Hin). lia.
      * rewrite IH. naive_solver.
    + assert (Hh : tid ∈ ms -> m < tid) by auto.
      destruct (host_of s m) as [h|] eqn:Eh; [|intros [= <- <- <-]; rewrite IH; naive_solver].
      destruct (Z.eqb_spec sig 0) as [Es|Es]; intros [= <- <- <-]; [rewrite IH; naive_solver|].
      rewrite elem_of_cons, IH. split; [|naive_solver].
      intros [-> |(_ & m' & h' & ? & ? & ? & ? & ?)]; (split; [done|]); [exists m, h; naive_solver|exists m', h'; naive_solver].
Qed.

(** How many were reached, when the caller lives. *)
Lemma members_reached (ms : list Z) : forall k ks ss,
  to_members kill s tid sig ms = (Some k, ks, ss) ->
  0 <= k /\ (k <> 0 <-> exists m, m ∈ ms /\ (m = tid \/ exists h, host_of s m = Some h /\ (sig = 0 \/ kill h (signal_from_linux sig) = None))).
Proof.
  induction ms as [|m ms IH]; intros k ks ss; cbn [to_members].
  - intros [= <- <- <-]. setoid_rewrite elem_of_nil. naive_solver.
  - destruct (to_members kill s tid sig ms) as [[[n0|] ks0] ss0]; [|by repeat case_match].
    destruct (IH n0 ks0 ss0 eq_refl) as [H0 Hn]. clear IH. setoid_rewrite elem_of_cons.
    assert (Hyes : forall P : Prop, P -> 0 <= Z.succ n0 /\ (Z.succ n0 <> 0 <-> P)) by (intros P HP; split; [lia|]; split; [done|lia]).
    destruct (Z.eqb_spec m tid) as [-> |Hne].
    { destruct (dies tid sig); [done|]. intros [= <- <- <-]. apply Hyes. exists tid. auto. }
    destruct (host_of s m) as [h|] eqn:Eh.
    + destruct (Z.eqb_spec sig 0) as [Es|Es]; [intros [= <- <- <-]; apply Hyes; exists m; naive_solver|].
      unfold sent. destruct (kill h (signal_from_linux sig)) eqn:Ek; intros [= <- <- <-]; [|apply Hyes; exists m; naive_solver].
      split; [done|]. rewrite Hn. naive_solver.
    + intros [= <- <- <-]. split; [done|]. rewrite Hn. naive_solver.
Qed.

End Members.

(** Allocation: a number that was free, marked for the process and no
    other slot touched; and the table refuses only when every number is
    taken. *)
Theorem allocate_correct (s : Shared) (h : Z) :
  sound s ->
  let '(g, s') := allocate s h in
  sound s' /\
  ((2 <= g < kMax /\ host_of s g = None /\ host_of s' g = Some (if h =? 0 then kReserved else h)
    /\ (forall k, k <> g -> host_of s' k = host_of s k))
   \/ (g = -1 /\ (forall k, 2 <= k < kMax -> host_of s k <> None) /\ (forall k, host_of s' k = host_of s k))).
Proof.
  intros Hs. destruct (allocate s h) as [g s'] eqn:E.
  destruct (alloc_loop_spec _ _ _ _ _ Hs E) as (k & Hk & [(A & B & ->)|(A & -> & C)]); unfold sound; (split; [done|]); [left|right].
  - split; [done|]. unfold host_of. rewrite !host_at_insert. change (host_at (with_next s k)) with (host_at s). rewrite B.
    assert (Hin : in_table g = true) by (unfold in_table; zcases; lia). rewrite Hin. cbn [negb]. split; [done|]. split; [|].
    + rewrite Z.eqb_refl. change kReserved with (-1). destruct (Z.eqb_spec h 0); [done|]. by rewrite (proj2 (Z.eqb_neq _ _)).
    + intros j Hj. rewrite host_at_insert. by rewrite (proj2 (Z.eqb_neq _ _) Hj).
  - split; [done|]. split; [|done]. intros j Hj Hn. unfold host_of in Hn.
    assert (Hin : in_table j = true) by (unfold in_table; zcases; lia). rewrite Hin in Hn. cbn [negb] in Hn.
    destruct (Z.eqb_spec (host_at s j) 0) as [H0|]; [|done]. change kMax with 4096 in *.
    assert (Hp : 2 <= pos s < 4096) by (unfold pos, sound in *; change kMax with 4096 in *; zcases; lia).
    apply (C ((j - pos s) mod 4094)).
    + assert (0 <= (j - pos s) mod 4094 < 4094) by (apply Z.mod_pos_bound; lia). lia.
    + rewrite Zplus_mod_idemp_r. replace (pos s - 2 + (j - pos s)) with (j - 2) by lia. rewrite Z.mod_small by lia.
      by replace (2 + (j - 2)) with j by lia.
Qed.

(** The group a first argument of [kill] that is not positive names, -1
    apart. *)
Definition names_group (s : Shared) (tid gpid q : Z) : Prop :=
  (gpid = 0 /\ q = pgid_of s tid) \/ (2 <= q < 2 ^ 31 /\ gpid = - q).

(** A slot in use that is recorded in a group. *)
Definition in_group (s : Shared) (q m : Z) : Prop := is_Some (host_of s m) /\ pgid_of s m = q.

#[global] Instance in_group_dec s q m : Decision (in_group s q m).
Proof. apply _. Defined.

(** The caller kills itself before the loop comes to [m]. *)
Definition cut_off (s : Shared) (tid q sig m : Z) : Prop := dies tid sig = true /\ in_group s q tid /\ tid < m.

Lemma group_members (kill : Z -> Z -> option Z) (s : Shared) (tid : Z) (children : list Child) (gpid q sig : Z) :
  names_group s tid gpid q -> 0 <= sig <= kLinuxNsig ->
  deliver_signal kill s tid children gpid sig =
    let '(n, ks, ss) := to_members kill s tid sig (members_of s q) in
    ((fun k => if k =? 0 then -3 else 0) <$> n, ks, ss).
Proof.
  intros Hq Hs. change kLinuxNsig with 64 in Hs. unfold deliver_signal. change kLinuxNsig with 64.
  replace ((sig <? 0) || (64 <? sig)) with false by (zcases; lia).
  assert (E : (if (if gpid =? 0 then pgid_of s tid else if gpid =? -1 then 0 else i32 (- gpid)) =? 0
               then members_of s (pgid_of s tid)
               else members_of s (if gpid =? 0 then pgid_of s tid else if gpid =? -1 then 0 else i32 (- gpid)))
              = members_of s q /\ gpid <= 0 /\ gpid <> -1).
  { destruct Hq as [[-> ->]|[Hq ->]]; [by case_match|]. split; [|lia].
    replace (- q =? 0) with false by (zcases; lia). replace (- q =? -1) with false by (zcases; lia).
    rewrite Z.opp_involutive, i32_small by lia. by replace (q =? 0) with false by (zcases; lia). }
  destruct E as (-> & H0 & H1). replace (gpid <=? 0) with true by (zcases; lia). replace (gpid =? -1) with false by (zcases; lia).
  destruct (to_members kill s tid sig (members_of s q)) as [[[n|] ks] ss]; [|done]. by rewrite app_nil_r, Z.add_0_r.
Qed.

Lemma group_sent (kill : Z -> Z -> option Z) (s : Shared) (tid : Z) (children : list Child) (gpid q sig : Z) (c : HostCall) :
  names_group s tid gpid q -> 0 <= sig <= kLinuxNsig ->
  c ∈ (deliver_signal kill s tid children gpid sig).1.2 <->
  sig <> 0 /\ exists m h, host_of s m = Some h /\ pgid_of s m = q /\ m <> tid /\ ~ cut_off s tid q sig m /\ c = HKill h (signal_from_linux sig).
Proof.
  intros Hq Hs. rewrite (group_members kill s tid children gpid q sig) by done.
  destruct (to_members kill s tid sig (members_of s q)) as [[n ks] ss] eqn:E. cbn [fst snd].
  rewrite (members_sent kill s tid sig _ (members_sorted s q) n ks ss c E). unfold before_death, cut_off, in_group.
  setoid_rewrite member_host. split; intros (H0 & m & h & H); (split; [done|]); exists m, h.
  - destruct H as ([? ?] & ? & Hb & ? & ?). split; [done|]. split; [done|]. split; [done|]. split; [|done].
    intros (Hd & Hg & Hlt). specialize (Hb Hd Hg). lia.
  - destruct H as (Hh & ? & Hne & Hc & ?). split; [split; [by eexists|done]|]. split; [done|]. split; [|done].
    intros Hd Hg. destruct (Z_lt_le_dec m tid); [done|]. destruct Hc. split; [done|]. split; [done|lia].
Qed.

Lemma release_fields (s : Shared) (g : Z) : pgid (release s g) = pgid s /\ sid (release s g) = sid s /\ next (release s g) = next s.
Proof. unfold release. by case_match. Qed.

(** A number that is taken again still has its old group. *)
Lemma recycled_member (s s' : Shared) (p q h : Z) :
  sound s -> 2 <= p -> pgid_of s p = q -> allocate (release s p) h = (p, s') ->
  p ∈ members_of s' q /\ host_of s' p = Some (if h =? 0 then kReserved else h).
Proof.
  intros Hs Hp Hq E. destruct (release_fields s p) as (F1 & _ & F3). set (v := if h =? 0 then kReserved else h).
  assert (Hv : v <> 0) by (unfold v; change kReserved with (-1); zcases; lia).
  destruct (alloc_loop_spec _ _ (release s p) _ _ ltac:(by unfold sound; rewrite F3) E) as (k & _ & [(A & _ & ->)|(A & _)]); [|lia]. fold v.
  assert (Hh : host_at (with_host (with_next (release s p) k) p v) p = v) by (rewrite host_at_insert; by rewrite Z.eqb_refl).
  split; [|by rewrite host_of_live, Hh by (rewrite ?Hh; (done || lia))]. apply elem_members. split; [lia|]. rewrite Hh. split; [done|].
  revert Hq. unfold pgid_of. cbn [pgid with_host with_next]. by rewrite F1.
Qed.


(** C35. While a fork is under way its number is marked -1, and numbers keep
    the group of the process that last had them.  So when a process of group
    [q] has been reaped and its number is taken by a fork, a signal to group
    [q] (unless it kills the caller first) is sent to host process -1: to
    every process the user may signal. *)
Theorem reserved_number_broadcasts (kill : Z -> Z -> option Z) (s s' : Shared) (tid : Z) (children : list Child) (p q sig : Z) :
  sound s -> 2 <= p -> 2 <= q < kMax -> 1 <= sig <= kLinuxNsig -> p <> tid ->
  pgid_of s p = q -> allocate (release s p) 0 = (p, s') -> ~ cut_off s' tid q sig p ->
  HKill (-1) (signal_from_linux sig) ∈ (deliver_signal kill s' tid children (- q) sig).1.2.
Proof.
  intros Hs Hp Hq Hsig Ht Hg E Hc. destruct (recycled_member s s' p q 0 Hs Hp Hg E) as [Hm Hh].
  apply elem_members in Hm as (_ & _ & Hm). apply (group_sent kill s' tid children (- q) q); [right; change kMax with 4096 in Hq; lia|lia|].
  split; [lia|]. by exists p, (-1).
Qed.

(** A thread whose number was last a process of group [q] is a member of
    that group: a signal to [q] is sent to the thread's process, whatever
    group that process is in. *)
Theorem thread_inherits_dead_group (kill : Z -> Z -> option Z) (s s' : Shared) (tid me : Z) (children : list Child) (p q sig : Z) :
  sound s -> 2 <= p -> 2 <= q < kMax -> 1 <= sig <= kLinuxNsig -> p <> tid -> me <> 0 ->
  pgid_of s p = q -> allocate (release s p) me = (p, s') -> ~ cut_off s' tid q sig p ->
  HKill me (signal_from_linux sig) ∈ (deliver_signal kill s' tid children (- q) sig).1.2.
Proof.
  intros Hs Hp Hq Hsig Ht Hme Hg E Hc. destruct (recycled_member s s' p q me Hs Hp Hg E) as [Hm Hh]. rewrite (proj2 (Z.eqb_neq _ _) Hme) in Hh.
  apply elem_members in Hm as (_ & _ & Hm). apply (group_sent kill s' tid children (- q) q); [right; change kMax with 4096 in Hq; lia|lia|].
  split; [lia|]. by exists p, me.
Qed.

(** SIGKILL to its own group, from a process that is not the init: the
    members numbered above it are not killed. *)
Theorem group_kill_stops_at_caller (kill : Z -> Z -> option Z) (s : Shared) (tid : Z) (children : list Child) (gpid q : Z) :
  names_group s tid gpid q -> in_group s q tid -> tid <> 1 ->
  let '(r, ks, _) := deliver_signal kill s tid children gpid 9 in
  r = None /\ forall h, HKill h 9 ∈ ks -> exists m', host_of s m' = Some h /\ m' < tid.
Proof.
  intros Hq Hg Ht. assert (Hs : 0 <= 9 <= kLinuxNsig) by (change kLinuxNsig with 64; lia).
  assert (Hd : dies tid 9 = true) by (unfold dies; zcases; lia || done).
  pose proof (fun h => group_sent kill s tid children gpid q 9 (HKill h 9) Hq Hs) as Hsent. revert Hsent.
  rewrite (group_members kill s tid children gpid q 9) by done.
  destruct (to_members kill s tid 9 (members_of s q)) as [[n ks] ss] eqn:E. cbn [fst snd]. intros Hsent.
  destruct (members_self kill s tid 9 _ (members_sorted s q) n ks ss E) as [Hn _]. split.
  - rewrite fmap_None, Hn. split; [done|]. by apply member_host.
  - intros h Hin. apply Hsent in Hin as (_ & m' & h' & Hh' & Hg' & Hne & Hc & [= ->]). exists m'. split; [done|].
    destruct (Z_lt_le_dec m' tid); [done|]. destruct Hc. split; [done|]. split; [done|lia].
Qed.

(** ** The table after a list of operations *)

Lemma c_text_clean (b : list Z) : 0 ∉ c_text b.
Proof.
  induction b as [|c b IH]; cbn; [apply not_elem_of_nil|]. destruct (Z.eqb_spec c 0); [apply not_elem_of_nil|]. apply not_elem_of_cons. by split.
Qed.

Lemma c_text_length (b : list Z) : (length (c_text b) <= length b)%nat.
Proof. induction b as [|c b IH]; cbn; [done|]. destruct (c =? 0); cbn; lia. Qed.

Lemma c_text_stops (p b : list Z) : 0 ∉ p -> c_text (p ++ 0 :: b) = p.
Proof.
  induction p as [|c p IH]; cbn; [done|]. rewrite not_elem_of_cons. intros [H0 Hp]. rewrite (proj2 (Z.eqb_neq _ _)) by done. f_equal. by apply IH.
Qed.

Lemma exe_path_ok (s : Shared) (g : Z) : path_ok (exe_of s g).
Proof.
  unfold exe_of, path_ok. case_match; [split; [apply not_elem_of_nil|unfold kExe; cbn; lia]|]. split; [apply c_text_clean|].
  pose proof (c_text_length (take (kExe - 1) (exe_bytes s g))) as H1. rewrite length_take in H1. unfold kExe in *. lia.
Qed.

Lemma set_exe_reads (s : Shared) (g k : Z) (path : list Z) :
  in_table g = true -> path_ok path -> exe_of (set_exe s g path) k = if k =? g then path else exe_of s k.
Proof.
  intros Hg [H0 Hl]. unfold set_exe, exe_of. rewrite Hg. cbn [negb]. unfold exe_bytes at 1. cbn [with_exe exe].
  destruct (Z.eqb_spec k g) as [-> |Hne]; [|by rewrite lookup_insert_ne].
  rewrite Hg, lookup_insert_eq. cbn [negb default id from_option]. unfold kExe in *. rewrite Nat.min_l by lia. rewrite (take_ge path) by lia.
  destruct (decide (length path = 255)%nat) as [E|E].
  - rewrite take_app_le by lia. rewrite take_ge by lia. rewrite <- (app_nil_r path) at 1.
    clear -H0. induction path as [|c p IH]; cbn; [done|]. apply not_elem_of_cons in H0 as [? ?]. rewrite (proj2 (Z.eqb_neq _ _)) by done. f_equal. by apply IH.
  - rewrite take_app_ge by lia. replace (256 - 1 - length path)%nat with (S (254 - length path)) by lia. cbn [take]. by apply c_text_stops.
Qed.

Lemma has_execed_op (s : Shared) (o : TabOp) (g : Z) :
  in_table g = true -> slot_of o = g ->
  has_execed (apply_op s o) g = if is_bind o then false else if is_mark o then true else has_execed s g.
Proof.
  intros Hg Ho. unfold has_execed. rewrite Hg. cbn [andb].
  destruct o; cbn in Ho; subst; cbn; unfold bind, set_pgid, set_sid, set_exe, set_ppid, mark_execed; rewrite ?Hg; cbn; try done.
  all: try (by rewrite lookup_insert_eq). all: by case_match.
Qed.

Lemma exe_op (s : Shared) (o : TabOp) (g t : Z) :
  in_table g = true -> slot_of o = g -> g <> t -> (forall p, is_inherit_exe o = true -> o = InheritExe g p -> p = t) ->
  (forall q, o = SetExe g q -> path_ok q) ->
  exe_of (apply_op s o) t = exe_of s t
  /\ exe_of (apply_op s o) g = match o with SetExe _ q => q | InheritExe _ _ => exe_of s t | _ => exe_of s g end.
Proof.
  intros Hg Ho Ht Hi Hq. destruct o; cbn in Ho; subst; cbn [apply_op].
  - unfold bind. rewrite Hg. done.
  - unfold set_pgid. by case_match.
  - unfold set_sid. by case_match.
  - rewrite <- (Hi p) in * by done. rewrite !set_exe_reads by (done || apply exe_path_ok). by rewrite Z.eqb_refl, (proj2 (Z.eqb_neq _ _)).
  - unfold set_ppid. by case_match.
  - rewrite !set_exe_reads by (done || by apply Hq). by rewrite Z.eqb_refl, (proj2 (Z.eqb_neq _ _)).
  - unfold mark_execed. by case_match.
Qed.

Lemma run_execed (ops : list TabOp) (g : Z) : in_table g = true -> Forall (fun o => slot_of o = g) ops -> forall s,
  has_execed (run_ops ops s) g
  = fold_left (fun b o => if is_bind o then false else if is_mark o then true else b) ops (has_execed s g).
Proof.
  intros Hg. induction 1 as [|o ops Ho _ IH]; intros s; [done|]. unfold run_ops in *. cbn [fold_left]. rewrite IH. by rewrite has_execed_op.
Qed.

Lemma run_exe (ops : list TabOp) (g t : Z) : in_table g = true -> g <> t ->
  Forall (fun o => slot_of o = g /\ (forall p, o = InheritExe g p -> p = t) /\ (forall q, o = SetExe g q -> path_ok q)) ops -> forall s,
  exe_of (run_ops ops s) t = exe_of s t
  /\ exe_of (run_ops ops s) g
     = fold_left (fun e o => match o with SetExe _ q => q | InheritExe _ _ => exe_of s t | _ => e end) ops (exe_of s g).
Proof.
  intros Hg Ht. induction 1 as [|o ops (Ho & Hi & Hq) _ IH]; intros s; [done|]. unfold run_ops in *. cbn [fold_left].
  destruct (exe_op s o g t Hg Ho Ht (fun p _ => Hi p) Hq) as [E1 E2]. destruct (IH (apply_op s o)) as [F1 F2].
  rewrite F1, F2, E1, E2. done.
Qed.

Lemma host_op (s : Shared) (o : TabOp) (g : Z) :
  in_table g = true -> slot_of o = g -> host_at (apply_op s o) g = match o with Bind _ h => h | _ => host_at s g end.
Proof.
  intros Hg Ho. destruct o; cbn in Ho; subst; cbn [apply_op]; unfold bind, set_pgid, set_sid, set_exe, set_ppid, mark_execed; rewrite ?Hg; cbn [negb andb];
    repeat case_match; try done. by rewrite host_at_insert, Z.eqb_refl.
Qed.

Lemma run_host (ops : list TabOp) (g : Z) : in_table g = true -> Forall (fun o => slot_of o = g) ops -> forall s,
  host_at (run_ops ops s) g = fold_left (fun e o => match o with Bind _ h => h | _ => e end) ops (host_at s g).
Proof.
  intros Hg. induction 1 as [|o ops Ho _ IH]; intros s; [done|]. unfold run_ops in *. cbn [fold_left]. rewrite IH. by rewrite host_op.
Qed.

Lemma interleave_forall {A} (P : A -> Prop) (a b c : list A) : interleave a b c -> Forall P a -> Forall P b -> Forall P c.
Proof. induction 1; intros Ha Hb; [done|inversion Ha; subst; constructor; auto|inversion Hb; subst; constructor; auto]. Qed.

(** What decides the race, on every interleaving of the two lists. *)
Lemma race_folds (tid child h : Z) (path e0 e1 : list Z) (b0 : bool) (h0 : Z) (ops : list TabOp) :
  interleave (fork_parent tid child h) (exec_writes child path) ops ->
  fold_left (fun b o => if is_bind o then false else if is_mark o then true else b) ops b0 = comes_first is_bind is_mark ops
  /\ fold_left (fun e o => match o with SetExe _ q => q | InheritExe _ _ => e0 | _ => e end) ops e1
     = (if comes_first is_inherit_exe is_set_exe ops then path else e0)
  /\ fold_left (fun e o => match o with Bind _ k => k | _ => e end) ops h0 = h.
Proof.
  unfold fork_parent, exec_writes. intros H.
  repeat match goal with
  | H : interleave _ _ _ |- _ => inversion H; clear H; subst
  end; cbn; auto.
Qed.

(** C36. A forking parent fills in its child's slot after the child was
    started, and the two are not ordered.  Whatever the interleaving with a
    child that executes a program at once: the slot names the child's host
    process; the waiting parent of a [vfork] is released, and the program's
    path is kept, exactly when the parent's write came first.  Otherwise the
    flag is cleared for good and the path is the parent's. *)
Theorem fork_exec_race (s : Shared) (tid child h : Z) (path : list Z) (ops : list TabOp) :
  in_table child = true -> child <> tid -> 0 < h -> path_ok path ->
  interleave (fork_parent tid child h) (exec_writes child path) ops ->
  let s' := run_ops ops s in
  host_of s' child = Some h
  /\ exec_seen s' child false = comes_first is_bind is_mark ops
  /\ exe_of s' child = if comes_first is_inherit_exe is_set_exe ops then path else exe_of s tid.
Proof.
  intros Hc Ht Hh Hp Hi s'. destruct (race_folds tid child h path (exe_of s tid) (exe_of s child) (has_execed s child) (host_at s child) ops Hi) as (F1 & F2 & F3).
  assert (Hs : Forall (fun o => slot_of o = child) ops) by (eapply interleave_forall; [done|..]; repeat constructor).
  assert (Hho : host_of s' child = Some h).
  { unfold host_of. rewrite Hc. cbn [negb]. unfold s'. rewrite run_host, F3 by done. by rewrite (proj2 (Z.eqb_neq _ _)) by lia. }
  split; [done|]. split.
  - unfold exec_seen. rewrite Hho, orb_false_r. unfold s'. by rewrite run_execed.
  - unfold s'. destruct (run_exe ops child tid) with (s := s) as [_ E]; [done..| |by rewrite E].
    eapply interleave_forall; [done|..]; repeat (apply Forall_cons_2; [split; [done|split; intros ? [=]; by subst]|]); by apply Forall_nil.
Qed.

(** ** Allocation by several processes *)

Section Concurrent.

Context (mark : Z -> Z) (mark_nonzero : forall p, mark p <> 0).

Definition safe (x : Sys) : Prop :=
  2 <= next (tab x)
  /\ (forall p l g, at_pc x p = Swap l g -> 2 <= g)
  /\ (forall p g, at_pc x p = Holds g -> 2 <= g /\ (g < kMax -> host_at (tab x) g <> 0))
  /\ (forall p q g, g < kMax -> at_pc x p = Holds g -> at_pc x q = Holds g -> p = q).

Lemma moves_spec (f : Z -> Pc) (p q : Z) (c : Pc) : moves f p c q = if q =? p then c else f q.
Proof. done. Qed.

Lemma host_at_release (s : Shared) (g k : Z) : 2 <= g < kMax -> host_at (release s g) k = if k =? g then 0 else host_at s k.
Proof. intros Hg. unfold release. replace ((1 <? g) && (g <? kMax)) with true by (zcases; lia). by rewrite host_at_insert. Qed.

(** A step of [p] that takes no slot of the table. *)
Lemma safe_move (t t' : Shared) (f : Z -> Pc) (p : Z) (c : Pc) :
  safe (mkSys t f) -> 2 <= next t' -> (forall g, host_at t' g = host_at t g) ->
  (forall l g, c = Swap l g -> 2 <= g) -> (forall g, c = Holds g -> kMax <= g) -> safe (mkSys t' (moves f p c)).
Proof.
  intros (A & B & C & D) Hn Hh Hs Hc. split; [done|]. cbn [tab at_pc] in *. setoid_rewrite moves_spec. split; [|split].
  - intros q l g. zcases; [by apply Hs|by apply B].
  - intros q g. rewrite Hh. zcases; [|by apply C]. intros Hg%Hc. change kMax with 4096 in *. lia.
  - intros q r g Hg. zcases; [intros ?%Hc; lia..|intros _ ?%Hc; lia|by apply D].
Qed.

Lemma safe_release (t : Shared) (f : Z -> Pc) (p g : Z) :
  safe (mkSys t f) -> f p = Holds g -> safe (mkSys (release t g) (moves f p Idle)).
Proof.
  intros Hs E. pose proof Hs as (A & B & C & D). cbn [tab at_pc] in *.
  destruct (Z_lt_le_dec g kMax) as [Hg|Hg].
  2: { unfold release. replace ((1 <? g) && (g <? kMax)) with false by (zcases; lia). by apply (safe_move t). }
  destruct (C _ _ E) as [H2 _]. assert (F : next (release t g) = next t) by (by apply release_fields).
  split; [by cbn; rewrite F|]. cbn [tab at_pc]. setoid_rewrite moves_spec. split; [|split].
  - intros q l' g'. zcases; [done|]. by apply B.
  - intros q g'. zcases; [done|]. intros H. rewrite host_at_release by done. destruct (C _ _ H) as [? Hh]. split; [done|].
    intros Hg'. zcases; [subst; by rewrite (D _ _ _ Hg H E) in *|auto].
  - intros q r g' Hg'. zcases; [done..|by apply D].
Qed.

Lemma safe_step (x y : Sys) : safe x -> alloc_step mark x y -> safe y.
Proof.
  intros Hs Hst. pose proof Hs as (A & B & C & D).
  destruct Hst as [t f p E|t f p l E|t f p E|t f p l E|t f p l E|t f p l g E Hg|t t' f p l g won E Hg Hn Hh|t f p g E]; cbn [tab at_pc] in *.
  - by apply (safe_move t).
  - apply (safe_move t); try done; [cbn; lia|..]; [intros l' g|intros g]; case_match; try done. by intros [= _ <-].
  - by apply (safe_move t).
  - by apply (safe_move t).
  - apply (safe_move t); try done; [cbn; lia|]. by intros l' g [= _ <-].
  - destruct (Z.eqb_spec (host_at t g) 0) as [H0|]; [|by apply (safe_move t)]. pose proof (B _ _ _ E) as Hg2. split; [done|]. cbn [tab at_pc].
    setoid_rewrite moves_spec. setoid_rewrite host_at_insert. split; [|split].
    + intros q l' g'. zcases; [done|]. by apply B.
    + intros q g'. zcases; [intros [= <-]; split; [lia|]; done|intros [= <-]; done|intros H; split; [by eapply C|done]|by apply C].
    + intros q r g' Hg'. zcases; [lia|intros [= <-] H|intros H [= <-]|by apply D]; by destruct (C _ _ H) as [_ []].
  - apply (safe_move t); [done|lia|by intros k; unfold host_at; rewrite Hh|intros l' g'|intros g']; destruct won; try done. by intros [= <-].
  - by apply safe_release.
Qed.


Definition clean (t : Shared) : Prop := forall g, 2 <= g -> host_at t g = 0.

(** One process takes the next number and gives it back. *)
Lemma one_round (t : Shared) (f : Z -> Pc) (p : Z) :
  f p = Idle -> clean t -> 2 <= next t < kMax ->
  exists t' f', rtc (alloc_step mark) (mkSys t f) (mkSys t' f') /\ clean t' /\ next t' = next t + 1 /\ (forall q, f' q = f q).
Proof.
  intros Hp Hc Hn. set (n := next t) in *. eexists _, _. split; [|split; [|split]].
  - eapply rtc_l; [by apply (st_begin mark t f p)|]. eapply rtc_l; [apply (st_fetch mark _ _ p 4095); by rewrite moves_spec, Z.eqb_refl|].
    fold n. replace (kMax <=? n) with false by (zcases; lia).
    eapply rtc_l; [apply (st_swap mark _ _ p 4095 n); [by rewrite moves_spec, Z.eqb_refl|lia]|].
    change (host_at (with_next t (n + 1)) n) with (host_at t n). rewrite (Hc n) by lia. cbn [Z.eqb].
    apply rtc_once. apply (st_release mark _ _ p n). by rewrite moves_spec, Z.eqb_refl.
  - intros g Hg. rewrite host_at_release by lia. destruct (g =? n) eqn:E; [done|]. rewrite host_at_insert, E. by apply Hc.
  - destruct (release_fields (with_host (with_next t (n + 1)) n (mark p)) n) as (_ & _ & ->). done.
  - intros q. rewrite !moves_spec. by zcases; subst.
Qed.

Lemma many_rounds (k : nat) (p : Z) : forall t f,
  f p = Idle -> clean t -> 2 <= next t -> next t + Z.of_nat k <= kMax ->
  exists t' f', rtc (alloc_step mark) (mkSys t f) (mkSys t' f') /\ clean t' /\ next t' = next t + Z.of_nat k /\ (forall q, f' q = f q).
Proof.
  induction k as [|k IH]; intros t f Hp Hc H2 Hk; [exists t, f; split; [done|]; split; [done|]; split; [lia|done]|].
  destruct (one_round t f p Hp Hc) as (t1 & f1 & R1 & C1 & N1 & F1); [lia|].
  destruct (IH t1 f1) as (t2 & f2 & R2 & C2 & N2 & F2); [by rewrite F1|done|lia|lia|].
  exists t2, f2. split; [by etrans|]. split; [done|]. split; [lia|]. intros q. by rewrite F2, F1.
Qed.

Lemma swap_past_end (me : Z) :
  exists x l, rtc (alloc_step mark) (mkSys (create me) (fun _ => Idle)) x /\ at_pc x 1 = Swap l kMax.
Proof.
  destruct (many_rounds 4094 2 (create me) (fun _ => Idle)) as (t1 & f1 & R1 & C1 & N1 & F1); [done| |done|done|].
  { intros g Hg. unfold host_at. cbn. by rewrite lookup_singleton_ne by lia. }
  set (f2 := moves f1 1 (Fetch (Z.to_nat kMax))). set (f3 := moves f2 1 (Rewind 4095)). set (f4 := moves f3 1 (Refetch 4095)).
  destruct (many_rounds 4094 2 (with_next (with_next t1 (next t1 + 1)) 2) f4) as (t5 & f5 & R5 & C5 & N5 & F5); [|done|done|done|].
  { unfold f4, f3, f2. rewrite !moves_spec. cbn [Z.eqb]. by rewrite F1. }
  eexists _, 4095%nat. split; [|].
  - etrans; [exact R1|]. eapply rtc_l; [apply (st_begin mark t1 f1 1); by rewrite F1|].
    eapply rtc_l; [apply (st_fetch mark t1 f2 1 4095); by unfold f2; rewrite moves_spec|]. rewrite N1. cbn [next create]. change (kMax <=? 2 + Z.of_nat 4094) with true.
    eapply rtc_l; [by apply (st_rewind mark _ f3 1 4095)|]. rewrite N1 in R5. etrans; [exact R5|].
    apply rtc_once. apply (st_refetch mark t5 f5 1 4095). by rewrite F5.
  - cbn [at_pc]. rewrite moves_spec, N5. done.
Qed.

(** The counter is checked against the end of the table once: a process
    that finds it there sets it back and reads it again, and if meanwhile
    others have driven it through the whole table, its compare and swap is on
    slot [kMax], past the end of the array; what it finds there may make it
    answer [kMax]. *)
Theorem allocate_past_end (me : Z) :
  exists x y l, rtc (alloc_step mark) (mkSys (create me) (fun _ => Idle)) x /\ at_pc x 1 = Swap l kMax
  /\ alloc_step mark x y /\ at_pc y 1 = Holds kMax.
Proof.
  destruct (swap_past_end me) as ([t f] & l & Hr & Hp). exists (mkSys t f), (mkSys t (moves f 1 (Holds kMax))), l.
  split; [done|]. split; [done|]. split; [by apply (st_swap_past mark t t f 1 l kMax true)|done].
Qed.

End Concurrent.

(** ** [fork], then [wait4] *)

(** All the table says of one number. *)
Definition row (s : Shared) (g : Z) : Z * bool * Z * Z * list Z * Z :=
  (host_at s g, has_execed s g, pgid_of s g, sid_of s g, exe_of s g, ppid_of s g).

Lemma other_slot (s : Shared) (o : TabOp) (g : Z) : slot_of o <> g -> row (apply_op s o) g = row s g.
Proof.
  intros Hg. unfold row, host_at, has_execed, pgid_of, sid_of, exe_of, exe_bytes, ppid_of.
  destruct o; cbn in Hg; cbn [apply_op]; unfold bind, set_pgid, set_sid, set_exe, set_ppid, mark_execed; repeat (destruct (in_table _)); try done;
    cbn [with_host with_execed with_pgid with_sid with_exe with_ppid host execed pgid sid exe ppid andb negb]; try done; by rewrite ?lookup_insert_ne.
Qed.

Lemma run_other (ops : list TabOp) (g : Z) : Forall (fun o => slot_of o <> g) ops -> forall s, row (run_ops ops s) g = row s g.
Proof.
  induction 1 as [|o ops Ho _ IH]; intros s; [done|]. unfold run_ops in *. cbn [fold_left]. rewrite IH. by apply other_slot.
Qed.

Lemma row_other (s : Shared) (n g k h : Z) : g <> k -> row (with_host (with_next s n) k h) g = row s g.
Proof. intros Hg. unfold row. rewrite host_at_insert. by rewrite (proj2 (Z.eqb_neq _ _) Hg). Qed.

Lemma row_release (s : Shared) (g k : Z) : g <> k -> row (release s k) g = row s g.
Proof.
  intros Hg. unfold release. case_match; [|done]. unfold row. rewrite host_at_insert, (proj2 (Z.eqb_neq _ _) Hg).
  unfold exe_of, exe_bytes. cbn [with_host with_exe exe]. by rewrite lookup_insert_ne.
Qed.

Lemma pgid_later (s : Shared) (c t : Z) (e : list Z) : forall p, pgid_of (set_ppid (set_exe (set_sid s c t) c e) c p) = pgid_of s.
Proof. intros p. unfold set_ppid, set_exe, set_sid. by repeat case_match. Qed.

Lemma pgid_bind (s : Shared) (c h g : Z) : pgid_of (bind s c h) g = pgid_of s g.
Proof. unfold bind. by case_match. Qed.

Lemma pgid_set (s : Shared) (c q : Z) : in_table c = true -> in_table q = true -> pgid_of (set_pgid s c q) c = q.
Proof.
  intros Hc Hq. unfold set_pgid, pgid_of. rewrite Hc, Hq. cbn [andb negb with_pgid pgid]. rewrite lookup_insert_eq. cbn.
  rewrite (proj2 (Z.eqb_neq _ _)); [done|]. revert Hq. unfold in_table. zcases; lia.
Qed.

(** A successful fork. *)
Lemma fork_spec (s s1 : Shared) (tid child : Z) (cs cs1 : list Child) (spawn : Z -> Z) :
  sound s -> in_table tid = true -> in_table (pgid_of s tid) = true -> host_at s tid <> 0 ->
  do_fork s tid cs spawn = (child, s1, cs1) -> 0 <= child -> 0 < spawn child ->
  2 <= child < kMax /\ host_at s child = 0 /\ cs1 = cs ++ [{| guest := child; chost := spawn child |}]
  /\ host_at s1 child = spawn child /\ (forall g, g <> child -> row s1 g = row s g)
  /\ pgid_of s1 child = pgid_of s tid /\ exe_of s1 child = exe_of s tid /\ ppid_of s1 child = tid.
Proof.
  intros Hs Ht Hq Hlive. unfold do_fork. destruct (allocate s 0) as [c s0] eqn:E.
  destruct (alloc_loop_spec _ _ _ _ _ Hs E) as (k & _ & [(A & B & ->)|(-> & _)]); [|intros [= <- _ _]; lia].
  set (s1' := with_host _ _ _). set (s2 := run_ops _ s1').
  replace (c <? 0) with false by (zcases; lia). destruct (Z.ltb_spec (spawn c) 0); intros [= <- <- <-]; [lia|]. intros _ Hh.
  assert (Hc : in_table c = true) by (unfold in_table; zcases; lia). assert (Hne : c <> tid) by (intros ->; lia).
  split; [done|]. split; [done|]. split; [done|]. unfold s2. clear s2. rename s1' into s3.
  assert (Hslot : Forall (fun o => slot_of o = c) (fork_parent tid c (spawn c))) by repeat constructor.
  split; [by rewrite run_host|]. split; [|split; [|split]].
  - intros g Hg. rewrite run_other by (eapply Forall_impl; [exact Hslot|]; cbn; congruence). by apply row_other.
  - unfold run_ops, fork_parent. cbn [fold_left apply_op]. rewrite !pgid_later.
    rewrite pgid_set by (done || by rewrite pgid_bind). by rewrite pgid_bind.
  - destruct (run_exe (fork_parent tid c (spawn c)) c tid) with (s := s3) as [_ ->]; [done..| |done].
    repeat (apply Forall_cons_2; [split; [done|split; intros ? [=]; by subst]|]). by apply Forall_nil.
  - unfold run_ops, fork_parent. cbn [fold_left apply_op]. unfold set_ppid at 1. rewrite Hc. unfold ppid_of. rewrite Hc. cbn [with_ppid ppid].
    by rewrite lookup_insert_eq.
Qed.

Lemma first_with_found (s : Shared) (h g : Z) (gs : list Z) :
  g ∈ gs -> host_at s g = h -> (forall k, k ∈ gs -> host_at s k = h -> k = g) -> first_with s h gs = g.
Proof.
  intros Hin Hg Hu. induction gs as [|k gs IH]; [by apply elem_of_nil in Hin|]. cbn. destruct (Z.eqb_spec (host_at s k) h) as [E|E].
  - apply Hu; [by left|done].
  - apply elem_of_cons in Hin as [-> |Hin]; [done|]. apply IH; [done|]. intros j Hj. apply Hu. by right.
Qed.

Lemma status_word (m : Ram) (size a v : Z) :
  is_Some (at_ (ram_of size) a 4) -> 0 <= v < 65536 -> le_val (PageTables.load (put_quiet m size a (le_bytes 4 (u32 v))) a 4) = v.
Proof.
  intros [w Hw] Hv. unfold put_quiet, ram_put. change (Z.of_nat (length (le_bytes 4 (u32 v)))) with 4. rewrite Hw. cbn [default id from_option].
  rewrite u32_small by lia. change 4%nat with (length (le_bytes 4 v)) at 2. rewrite PageTables.load_store. apply le_val_bytes. change (256 ^ Z.of_nat 4) with (2 ^ 32). lia.
Qed.

(** Reaping: the call's answer and what is left, for the slot the host
    process is found in. *)
Lemma wait_reaps (waitpid : Waitpid) (m : Ram) (size : Z) (s : Shared) (cs : list Child) (gpid h status options g : Z) (e : DarwinAbi.Event) :
  host_of s gpid = Some h -> 0 < gpid -> 0 < h -> 0 < g -> guest_of s h = g ->
  DarwinAbi.event_ok e -> (forall x, e <> DarwinAbi.Stopped x) -> waitpid h (Z.land options 3) = inl (h, DarwinAbi.darwin_status e) ->
  status <> 0 -> is_Some (at_ (ram_of size) status 4) ->
  exists m', do_wait4 waitpid m size s cs gpid status options 0 = (g, m', release s g, filter (fun c => chost c <> h) cs)
  /\ DarwinAbi.linux_event (le_val (PageTables.load m' status 4)) = Some (DarwinAbi.in_linux e).
Proof.
  intros Hh Hp H0 Hg Hgo He Hx Hw Hs Ha. destruct (DarwinAbi.status_kept e He) as (E1 & E2 & E3). unfold do_wait4, which_host.
  replace (gpid =? -1) with false by (zcases; lia). replace (gpid =? 0) with false by (zcases; lia). replace (gpid <? -1) with false by (zcases; lia).
  rewrite Hh, Hw. replace (h =? 0) with false by (zcases; lia). replace (status =? 0) with false by (zcases; lia). cbn [Z.eqb]. rewrite Hgo.
  assert (Hd : wifexited (DarwinAbi.darwin_status e) || wifsignaled (DarwinAbi.darwin_status e) = true).
  { revert E1. unfold DarwinAbi.darwin_event. destruct (wifexited _); [done|]. destruct (wifsignaled _); [done|]. destruct (DarwinAbi.wifstopped _); [|done].
    intros [= E1]. by destruct (Hx _ (eq_sym E1)). }
  rewrite Hd. replace (g <? 0) with false by (zcases; lia). eexists. split; [done|]. by rewrite status_word.
Qed.


(** Threads take their numbers from the same table and are entered under
    their process's host number, and [wait4] names a dead child by the lowest
    slot that has its host number.  So once the counter has wrapped, a thread
    of process [g] may have number 2, and waiting for [g] answers 2, frees 2
    and leaves [g] taken. *)
Theorem thread_hides_process (waitpid : Waitpid) (m : Ram) (size : Z) (s : Shared) (cs : list Child) (g h status options : Z) (e : DarwinAbi.Event) :
  next s = kMax -> host_at s 2 = 0 -> 2 < g < kMax -> host_at s g = h -> 0 < h -> host_at s 1 <> h ->
  DarwinAbi.event_ok e -> (forall x, e <> DarwinAbi.Stopped x) -> waitpid h (Z.land options 3) = inl (h, DarwinAbi.darwin_status e) ->
  status <> 0 -> is_Some (at_ (ram_of size) status 4) ->
  exists s1 m' s2 cs', allocate s h = (2, s1)
  /\ do_wait4 waitpid m size s1 cs g status options 0 = (2, m', s2, cs') /\ host_of s2 2 = None /\ host_of s2 g = Some h.
Proof.
  intros Hn H2 Hg Hh H0 H1 He Hx Hw Hs Ha. set (s1 := with_host (with_next s 3) 2 h).
  assert (Ea : allocate s h = (2, s1)).
  { unfold allocate. rewrite (proj2 (Z.eqb_neq h 0)) by lia. change (Z.to_nat kMax) with (S 4095). cbn [allocate_loop]. rewrite Hn.
    change (kMax <=? kMax) with true. cbn iota beta. change (host_at (with_next s 3) 2) with (host_at s 2). by rewrite H2. }
  assert (Hg1 : host_of s1 g = Some h).
  { assert (E : host_at s1 g = h) by (unfold s1; rewrite host_at_insert, (proj2 (Z.eqb_neq g 2)) by lia; done). rewrite <- E. apply host_of_live; lia. }
  assert (Hgo : guest_of s1 h = 2).
  { unfold guest_of. rewrite (seqZ_cons 1), (seqZ_cons (Z.succ 1)) by (change kMax with 4096; lia). cbn [first_with]. unfold s1.
    rewrite !host_at_insert. change (Z.succ 1) with 2. rewrite (proj2 (Z.eqb_neq 1 2)), Z.eqb_refl by lia.
    change (host_at (with_next s 3) 1) with (host_at s 1). by rewrite (proj2 (Z.eqb_neq _ _) H1). }
  destruct (wait_reaps waitpid m size s1 cs g h status options 2 e Hg1) as (m' & Ew & _); try done; [lia|].
  exists s1, m', (release s1 2), (filter (fun c => chost c <> h) cs). split; [done|]. split; [done|].
  unfold host_of. rewrite !host_at_release by (change kMax with 4096; lia). split; [done|]. rewrite (proj2 (Z.eqb_neq g 2)) by lia. exact Hg1.
Qed.

(** ** Examples *)

(** The init and two processes; the second is in the group of the first. *)
Definition family : Shared := mkShared 3 {[1 := 100; 2 := 200; 3 := 300]} ∅ {[3 := 2]} ∅ ∅ ∅.

Lemma allocate_correct_witness : sound (allocate family 7).2.
Proof.
  assert (Hs : sound family) by (unfold sound; cbn; change kMax with 4096; lia).
  generalize (allocate_correct family 7 Hs). destruct (allocate family 7) as [g s']. by intros [H _].
Defined.


Lemma reserved_number_broadcasts_witness :
  HKill (-1) 15 ∈ (deliver_signal (fun _ _ => None) (allocate (release family 3) 0).2 2 [] (- 2) 15).1.2.
Proof.
  apply (reserved_number_broadcasts (fun _ _ => None) family _ 2 [] 3 2 15); try (by vm_compute). by intros [Hd _].
Defined.

Lemma thread_inherits_dead_group_witness :
  HKill 500 15 ∈ (deliver_signal (fun _ _ => None) (allocate (release family 3) 500).2 2 [] (- 2) 15).1.2.
Proof.
  apply (thread_inherits_dead_group (fun _ _ => None) family _ 2 500 [] 3 2 15); try (by vm_compute). by intros [Hd _].
Defined.

Lemma fork_exec_race_witness :
  exec_seen (run_ops (exec_writes 4 [47; 97] ++ fork_parent 1 4 900) family) 4 false = false.
Proof.
  refine (proj1 (proj2 (fork_exec_race family 1 4 900 [47; 97] (exec_writes 4 [47; 97] ++ fork_parent 1 4 900) eq_refl _ _ _ _))); [lia|lia| |].
  - split; [set_solver|]. unfold kExe. cbn. lia.
  - repeat constructor.
Defined.


Definition exits (h code : Z) : Waitpid := fun _ _ => inl (h, DarwinAbi.darwin_status (DarwinAbi.Exited code)).


Definition wrapped : Shared := mkShared 4096 {[1 := 100; 9 := 900]} ∅ ∅ ∅ ∅ ∅.

Lemma thread_hides_process_witness :
  exists s1 m' s2 cs', allocate wrapped 900 = (2, s1)
  /\ do_wait4 (exits 900 3) ∅ 0x80000000 s1 [] 9 0x8400000 0 0 = (2, m', s2, cs') /\ host_of s2 2 = None /\ host_of s2 9 = Some 900.
Proof.
  apply (thread_hides_process (exits 900 3) ∅ 0x80000000 wrapped [] 9 900 0x8400000 0 (DarwinAbi.Exited 3)); try done; lia.
Defined.

End HvfPids.
